(* ===== verification/_CoqProject ===== *)
-Q . S2P
Prelude.v
PyValue.v
Json.v
Sha256.v
Datetime.v
IsoTime.v
Redis.v
TaskModel.v
Tables.v
Effects.v
QueueKeys.v
CircuitBreaker.v
QueueManager.v
QueueProps.v
ErrorHandling.v
Transaction.v
Tracking.v
TaskCreator.v
Compensation.v
TaskExecutor.v
TaskConsumer.v
TaskReconciler.v
ReconcilerProps.v
DagModel.v
DagTopo.v
DagCondition.v
DagEngine.v
DagProps.v
DagSections.v
TaskCompletion.v
CallbackOutbox.v
TaskApplication.v
RateLimiter.v
Cjson.v
Registry.v
PySort.v
TenantRegistry.v
CapabilityRegistry.v
ClusterRegistry.v
NodeRegistry.v
ScheduleRegistry.v
Auth.v
Policies.v
OpsRoutes.v
OperatorQueries.v
ActorPool.v
ActorPoolTasks.v
Lifecycle.v
ResourceServices.v
RedisHA.v
RemoteCode.v
DagLoader.v
StepExecutors.v
Alerts.v
Agent.v
CommandProxy.v
ServiceProxy.v
SchedulerActor.v
ApiRoutes.v
SdkClient.v
OpsOverview.v
Isolation.v
ResourceRoutes.v
CliClient.v
CommandApi.v
Background.v
Metrics.v
CommonMetrics.v
HttpMiddleware.v
Logging.v
Connections.v
Wiring.v
LazyClients.v
Draining.v
Bundler.v
EndToEnd.v
