(* ===== verification/Prelude.v ===== *)
(** * Verification of the async-scheduler-framework platform layer

    The program is a distributed task scheduler.  A client submits a task through
    the API; the platform stores it in MySQL and puts it on a Redis priority queue
    of its capability; consumers take due tasks, executors run the DAG of a task
    under a Redis lock and hand its result to the completion node, which updates
    the row and delivers the callback; a compensation service and a reconciler
    repair what failed calls left behind.  Around this core are the registries of
    tenants, capabilities, clusters, nodes and schedules in Redis, the cron
    scheduler, the operator services with their policies, and the runtime pieces:
    rate limiter, worker pool, lifecycle manager and Redis client wrapper.  Beside
    the control plane are the agent on each node, which joins it to Ray clusters and
    installs code packages, the proxies that run commands and backend requests for
    workers, the scheduler actor, the alerting of the operators, the HTTP routes and
    the client library.  Three processes are put together from these parts (task API,
    operations API, control plane), and a script bundles each as a package.
    Paths below are under [src/].

    ** Ground layer
    - [Prelude.v]: tactics, the hint database, lemmas on lists, strings and
      decimal texts shared by all files.
    - [PyValue.v], [Json.v], [Sha256.v], [Datetime.v], [IsoTime.v], [PySort.v]:
      what the code uses of Python's own values, exceptions, [json], [hashlib],
      [datetime] and stable sorting.  The JSON and ISO-8601 round trips are proved,
      since several components read back what others wrote.
    - [Redis.v]: the documented semantics of the Redis commands used (expiry
      included) and of a Lua script as a sequence of commands run atomically.
    - [TaskModel.v]: [models/task.py] enumerations and
      [platform/task_state_machine.py].
    - [Tables.v]: the SQLAlchemy models ([models/*.py]) as a record of tables with
      their key, NOT NULL and length constraints.  What MySQL's configuration decides
      is a field of it, [db_server]: the collation by which texts are compared, and
      the order in which rows come back that no query orders.
    - [Effects.v]: the program type.  Asynchronous code is a tree of effects
      ([ERedis], [ESql], [ETime], [EHttp], ...); [M A] adds Python exceptions.
      Redis and the database are the class [Services]: any state machines whose
      observable contents follow [Redis.v] and transactional updates.  How long a
      call takes, which calls fail and what the outside answers is the class
      [Env], on which most theorems put no condition ([quiet E] says that the
      calls of the two services do not fail).  [run] executes a program;
      [interleave] runs several in any order of their effects.  [respects I Q m]
      says that every effect of [m] keeps the invariant [I] of the shared state,
      whatever the other programs do as long as they keep it too, and that [m]
      returns only what [Q] allows; [interleave_respects] joins such programs;
      [leaves k m] says that [m] does not touch a key.  [gather] is [asyncio.gather].

    ** Components (file: source)
    - [QueueKeys.v], [QueueManager.v], [QueueProps.v]: [platform/queue_keys.py],
      [platform/queue_manager.py].  Each Lua script is one [lua_*] definition and
      each method one definition of the same name; [Section Methods] is
      parametric in a [Breaker], which [CircuitBreaker.v] implements.
    - [CircuitBreaker.v]: [platform/circuit_breaker.py].
    - [ErrorHandling.v], [Transaction.v]: [common/error_handling.py],
      [common/transaction.py].
    - [Tracking.v]: [services/run_tracking.py], [task_timeline.py],
      [operator_actions.py].
    - [TaskCreator.v]: [platform/task_creator.py], against the interface
      [TaskQueue] that the queue manager implements.
    - [Compensation.v]: [services/compensation.py].
    - [TaskExecutor.v], [TaskConsumer.v]: [platform/task_executor.py] and
      [platform/task_consumer.py]; the consumer is a machine in which the polling
      loop and the dispatched tasks, each running [execute], take their steps in
      any order, over the interface [TaskSource].
    - [TaskReconciler.v], [ReconcilerProps.v]: [platform/task_reconciler.py].
    - [DagModel.v]: [models/dag.py].  [DagTopo.v], [DagCondition.v],
      [DagEngine.v], [DagProps.v], [DagSections.v]: [platform/dag_engine.py] (the
      waves of [_topo_sort], the condition evaluator, the steps as threads that
      share the context and the semaphore, and the theorems about runs).
    - [TaskCompletion.v]: [platform/task_completion_node.py].
    - [CallbackOutbox.v]: [services/callback_dispatcher.py], [callback_ops.py],
      [callback_replay_policy.py].
    - [TaskApplication.v]: [services/task_application.py], [task_validation.py].
    - [RateLimiter.v]: [middleware/rate_limit.py].
    - [Cjson.v]: the interface of the [cjson] module inside Lua scripts.
    - [Registry.v]: [platform/base_registry.py]; [TenantRegistry.v],
      [CapabilityRegistry.v], [ClusterRegistry.v], [NodeRegistry.v]: the registries
      built on it, with [models/capability.py], [models/cluster.py] and
      [models/node.py].  Validation of a stored document is the parameter
      [model_validate].
    - [ScheduleRegistry.v]: [platform/schedule_registry.py] and
      [platform/cron_scheduler.py]; [croniter] is a parameter.
    - [Auth.v]: [api/auth.py].  [Policies.v]: [services/governance.py],
      [access_policy.py], [replay_policy.py], [replay_lineage.py],
      [force_operations.py], [recovery_explainer.py], [replay_chain_queries.py].
      [OpsRoutes.v]: the writing handlers of [api/routes/ops_replay_routes.py],
      [ops_force_routes.py] and [ops_callback_routes.py], which put the former
      together.
    - [OperatorQueries.v]: [services/operator_queries.py],
      [operator_dashboard.py], [operator_ux.py], [run_centric_queries.py],
      [task_audit_queries.py].
    - [ResourceServices.v]: [services/resource_application.py].
    - [ActorPool.v], [ActorPoolTasks.v]: [workload/actor_pool_manager.py]; a store of
      shared handles, with Ray, the factory and the workers as the parameter
      [Workers]; the second file has the tasks of the pool, which interleave at its
      lock and while the factory is awaited.
    - [Lifecycle.v]: [common/lifecycle.py] and the registration of
      [api/app_runtime.py]; a [start] or [stop] returns, raises or never returns.
    - [RedisHA.v]: [common/redis_ha.py]; the server's answers are the parameter
      [Server].
    - [RemoteCode.v]: [platform/remote_code_fetcher.py]; the HTTP stream and the
      archive reader are parameters, unpacking goes through the symbolic links that
      the archive itself makes.
    - [DagLoader.v]: [platform/dag_loader.py] and the [DagService] of
      [services/resource_application.py].
    - [StepExecutors.v]: [platform/step_executors.py]; the shards of a map step
      interleave in any order.
    - [Alerts.v]: [monitoring/alerts.py], [api/routes/alerts.py].
    - [Agent.v]: [agent/server.py], [agent/ray_manager.py], [models/deploy.py], over
      the node registry and the code fetcher.
    - [CommandProxy.v]: [proxy/async_command_proxy.py] as a step relation between the
      threads of its jobs and of the cancellations, with failing Redis calls.
    - [ServiceProxy.v]: [proxy/async_service_proxy.py] and
      [workload/async_proxy_worker.py].
    - [SchedulerActor.v]: [workload/scheduler_actor.py], [base_worker_actor.py],
      [worker_dev_kit.py]; Ray's actors are a parameter.
    - [ApiRoutes.v]: [api/dependencies.py], [api/routes/tasks.py],
      [api/routes/tenants.py], [scheduler_task_api/dependencies.py].
    - [SdkClient.v]: [sdk/client.py], and the path table of [main_tasks.py].
    - [OpsOverview.v]: the probes of [api/routes/health.py],
      [ops_overview_routes.py], and the debug route of [ops_replay_routes.py].
    - [Isolation.v]: the keys of one tenant, and the rules for programs that touch no
      others.  [ResourceRoutes.v]: [api/routes/capabilities.py], [clusters.py],
      [nodes.py], [schedules.py], [dags.py]; [serve] dispatches over all handlers.
    - [CliClient.v]: [cli/client.py], [cli/base.py] and the paths of [cli/commands].
    - [CommandApi.v]: the routes and the class of [proxy/async_command_proxy.py].
    - [Background.v]: [start], [stop] and the loop tasks of the reconciler, the
      compensation service, the callback dispatcher and the cron scheduler as one step
      machine over asyncio tasks with cancellation; the class [Background] says what
      one kind of service does, [Guarded] what the theorems need of it.
    - [LazyClients.v]: the clients the completion node and the DAG engine make on
      first use.  [Draining.v]: [start] and [stop] of the consumer with [shutdown] of
      the executor, interleaved with the polling loop and the executions.
    - [Metrics.v], [CommonMetrics.v]: [monitoring/metrics.py], [common/metrics.py]; a
      metric is the sequence of its samples.
    - [HttpMiddleware.v]: [api/middleware.py], [middleware/metrics_middleware.py] and
      the exception handlers, composed as the applications do.
    - [Logging.v]: [common/logging_config.py].
    - [Connections.v]: [common/redis_client.py] and the attribute wrapper of
      [redis_ha.py], [common/async_db.py], [common/http_client.py].
    - [Wiring.v]: [platform/container.py], [api/app_runtime.py], the start-up and
      shutdown of [main.py], [main_tasks.py] and of the control plane
      ([packages/runtime-core]), and the containers of the [scheduler_*] packages.
      An object is known by how it was built.
    - [Bundler.v]: [scripts/bundle_package.py], [scripts/verify_manifest.py].
    - [EndToEnd.v]: the task table under any interleaving of all operations that
      write it.

    ** What the theorems show
    - Queue: [enqueue_correct], [dequeue_correct] relate the scripts to an abstract
      queue; [consumers_disjoint] is at-most-once hand-out under any interleaving;
      [score_encoding], [concurrency_limits] are the bounds; [delayed_task_lost]
      is the effect of the pending set's time to live.
    - Breaker: [breaker_refines] is a refinement of an abstract two-state breaker;
      [breaker_trips], [breaker_open_window], [half_open_unreachable] follow.
    - Creation and repair: [write_atomic_mysql_first],
      [compensation_failure_raises], [created_is_durable],
      [idempotent_retry_fails], [tx_record_roundtrip], [compensation_repairs].
    - Execution: [execute_excluded], [release_is_compare_and_delete],
      [renewal_keeps_lock], [consumer_bounded], [task_lifecycle].
    - Reconciler: [single_leader], [stuck_selection],
      [rebuild_indexes_task], [phase1_never_persists].
    - DAG engine: [topo_sort_levels], [topo_sort_complete] (the waves are the
      greedy levels, and all steps exactly when the graph is well founded);
      [condition_semantics], [condition_fail_open]; [dag_bounded_and_live],
      [dag_run_correct] (any interleaving); [retry_correct], [map_correct],
      [unschedulable_completes].
    - Completion and callbacks: [completion_writes], [due_callback_outcome],
      [bare_member_dropped], [outbox_pass].
    - Application services: [tenant_isolation] (for [list_tasks] up to the collation;
      [tenants_differ_by_case] shows what that means), [pagination_complete].
    - Rate limiter: [rate_limiter_refines] (a set of admitted seconds, with every
      number of the answers),
      [wide_limit_never_rejects], [fail_open_loses_answer].
    - Registries: [registry_refines_map] (a finite map per tenant),
      [api_key_lifecycle], [health_refines] (a three-state machine),
      [unhealthy_not_found], [health_check_loses_untagged], [select_cluster_best],
      [resources_roundtrip], [reserve_exclusive] (any interleaving),
      [select_nodes_fewest] (the greedy choice is optimal), [node_updates_lost].
    - Schedules: [list_due_correct], [fired_until_next], [cron_two_leaders],
      [created_schedule_never_due].
    - Access and operators: [authenticate_correct] (equal to a reference verdict),
      [replay_rate_limited] (one after another, and overlapping, where
      [replays_overlap] reaches the weaker bound), [force_operation_guarded],
      [force_eviction_unreachable], [operator_queries_correct].
    - Worker pool: [select_worker_least_loaded], [pool_round_robin]; [pool_invariant]
      (any interleaving of its tasks), [faults_not_recorded].
    - Lifecycle: [shutdown_ordered], [cron_blocks_startup].
    - Redis client: [ha_call_outcome], [no_write_lost], [degraded_lock_granted],
      [breaker_stuck_open].
    - Code packages: [download_verified], [artifact_cache_safe] (whatever the servers
      send), [gc_removes_oldest], [fetch_then_hit].
    - DAG store and executors: [registered_dag_roundtrip], [updated_dag_roundtrip],
      [deleted_dag_returns], [list_dags_spec]; [sync_step_retries],
      [async_step_ends], [map_step_gathers] (any interleaving).
    - Alerts: [route_alert_spec], [default_routes_redundant], [notify_sends_nothing],
      [alert_history_bounded].
    - Agent: [ownership_exclusive] (any order of commands), [heartbeat_ownership],
      [agent_state_machine], [joined_not_recorded].
    - Command proxy: [command_proxy_results] (rule induction over every
      interleaving), [can_finish_active], [cancelled_job_still_runs],
      [late_cancel_hides_result], [failed_expire_hides_result],
      [bad_command_never_answers].
    - Service proxy: [proxy_answers_own_request] (any interleaving, by [respects]),
      [result_delivered], [submission_roundtrip], [wait_times_out],
      [input_overrides_path], [workers_share_first_proxy].
    - Scheduler actor: [recovery_consistent], [recovery_confuses_pools],
      [local_pool_unusable], [namespaces_separate], [scheduler_actor_located].
    - Routes: [tenant_requests_fail], [task_api_scoped], [create_errors],
      [tenant_routes_guarded], [issued_key_authenticates] (registration, key and
      authentication together); [readiness_correct], [overview_never_degraded],
      [debug_finds_nothing].
    - Resource routes: [resource_isolation] (non-interference of tenants, by relating
      two runs), [schedule_captured] (where it ends).
    - Clients: [wait_ends], [submission_fails]; [cli_request_outcome],
      [cli_list_create_fail]; [execute_argv], [command_result_roundtrip].
    - Background services: [background_single_loop] (at most one loop runs, and a
      stop can always be completed), [dead_loop_not_revived], [compensation_stays_live],
      [dispatcher_client]; [consumer_stop], [lost_slots_starve], [work_after_stop];
      [completion_client], [engine_close_releases].
    - Observation: [queue_gauges_never_set], [measured_once], [request_answered],
      [log_line_roundtrip].
    - Connections and processes: [ha_client_always], [documented_url_refused],
      [session_all_or_last_commit], [http_client_open], [ha_scripts_not_callable];
      [processes_wired], [ops_api_wiring], [task_api_wiring], [control_plane_wiring],
      [packages_wired_alike], [close_once].
    - Bundler: [manifest_exact] (the loop ends and computes, in whatever order, the
      closure of an import relation defined from the meaning of the statements), [bundler_restores], [bundle_complete],
      [verifier_accepts].
    - The whole platform: [no_task_ever_recorded] (any interleaving of creation,
      cancellation, execution, completion, callbacks, reconciliation and
      compensation).

    ** Conventions, bounds and fuel
    - Times are integers of milliseconds; a Python [float] and a sorted-set score
      are counts of thousandths, the resolution of what the code stores.  Scores are
      exact: Redis keeps doubles, which hold every integer below [2^53], and
      [score_encoding] shows that the queue's scores stay below that for the five
      priorities and times below [10^13]; what larger numbers would be rounded to is
      not modelled.
    - Comparisons of texts in a WHERE clause go through the server's collation
      ([text_eq]), and so does the uniqueness of a task's primary key; a row asked
      for by its primary key ([session.get], or a WHERE on it) is looked up by the
      exact text: asking for a stored identifier in another spelling that the
      collation takes for the same is not modelled (the platform's own identifiers
      are lower-case hexadecimal).
    - Every service call takes an arbitrary non-negative [delay]; the jitter and
      time-outs of the sources are part of it.
    - [topo_sort] runs at most [S (length steps)] waves; [waves_fuel] proves that
      this is enough for every input.  The streaming loop is bounded by the
      code's own [max_chunks].  A cursor scan ([scan_all]) and the lock renewal
      loop take a number of rounds, since the source's loops end only when Redis
      answers cursor 0, or when they are cancelled.
    - A condition is the syntax tree that [ast.parse] gives for its text; a text
      that does not parse is [None].
    - Strings are byte strings, compared in byte order (the primary-key order of
      [list_tasks]).
    - In [DagEngine.v] a wave is a set of threads; a scheduler names the thread
      that takes the next step, so that every interleaving is some schedule.

    - [retry_loop] of [RedisHA.v] takes fuel, because the source's loop goes
      through a list its body may extend; [no_write_lost] shows that one step per
      entry is enough on a healthy server.
    - [blpop] of [ServiceProxy.v] looks at the list a given number of times before
      its time-out; [wait_loop] of [SdkClient.v] takes a number of rounds, and
      [wait_ends] proves how many are enough.
    - [manifest_loop] of [Bundler.v] takes one round per file at most;
      [manifest_exact] proves that its fuel is enough for every repository.
    - [settled] says that no key expires while a reading operation runs, [prompt]
      that service calls succeed and take no time (so that the calls of one check
      see one instant); both are conditions of the theorems that name them.

    ** Not modelled
    Tracing ([common/tracing.py], calls of an optional library); option parsing of the
    command line; parsing of settings, request bodies and stored models by pydantic;
    the read-only pages of the operators that only rename columns, and the pages that
    print process metrics; [agent/resource_detector.py], which nothing calls; the
    scripts that drive a deployed system ([scripts/dag_deploy_verify.py] and the like)
    or rewrite version numbers; and the modules under [packages/] and the
    [scheduler_*] directories that repeat modelled ones statement by statement
    (registries, authentication, lifecycle, error handling, routes).  They are input
    and output around the modelled components, or say the same again. *)

From Stdlib Require Import Ascii String DecimalString DecimalN DecimalPos.
From stdpp Require Import base gmap strings list sorting.

(** ** Tactics *)

(** Destruct the scrutinee of the outermost [match] of the goal, remembering
    its value. *)
Ltac break_match :=
  match goal with
  | |- context [match ?e with _ => _ end] =>
      lazymatch e with
      | context [match _ with _ => _ end] => fail
      | _ => let E := fresh "E" in destruct e eqn:E
      end
  end.

(** The same in a hypothesis. *)
Ltac break_match_in H :=
  match type of H with
  | context [match ?e with _ => _ end] =>
      lazymatch e with
      | context [match _ with _ => _ end] => fail
      | _ => let E := fresh "E" in destruct e eqn:E
      end
  end.

Ltac break_all := repeat (break_match; simplify_eq/=).

(** Turn boolean comparisons on [Z] in the context into propositions. *)
Ltac bool_to_prop :=
  repeat match goal with
  | H : (_ <=? _)%Z = true |- _ => apply Z.leb_le in H
  | H : (_ <=? _)%Z = false |- _ => apply Z.leb_gt in H
  | H : (_ <? _)%Z = true |- _ => apply Z.ltb_lt in H
  | H : (_ <? _)%Z = false |- _ => apply Z.ltb_ge in H
  | H : (_ =? _)%Z = true |- _ => apply Z.eqb_eq in H
  | H : (_ =? _)%Z = false |- _ => apply Z.eqb_neq in H
  | H : (_ >=? _)%Z = true |- _ => rewrite Z.geb_leb in H; apply Z.leb_le in H
  | H : (_ >=? _)%Z = false |- _ => rewrite Z.geb_leb in H; apply Z.leb_gt in H
  | H : (_ >? _)%Z = true |- _ => rewrite Z.gtb_ltb in H; apply Z.ltb_lt in H
  | H : (_ >? _)%Z = false |- _ => rewrite Z.gtb_ltb in H; apply Z.ltb_ge in H
  | H : (_ && _) = true |- _ => apply andb_prop in H as [? ?]
  | H : (_ || _) = false |- _ => apply orb_false_elim in H as [? ?]
  | H : negb _ = true |- _ => apply negb_true_iff in H
  | H : negb _ = false |- _ => apply negb_false_iff in H
  | H : bool_decide _ = true |- _ => apply bool_decide_eq_true in H
  | H : bool_decide _ = false |- _ => apply bool_decide_eq_false in H
  end.

Open Scope char_scope.
Close Scope char_scope.

Create HintDb sched discriminated.

(** ** Decimal numerals, as Python's [str(int)] and Lua's [tostring] print them *)

Definition dec_of_N (n : N) : string := NilZero.string_of_uint (N.to_uint n).

Definition N_of_dec (s : string) : option N :=
  N.of_uint <$> NilZero.uint_of_string s.

Definition dec_of_Z (z : Z) : string :=
  match z with
  | Zneg p => String "-"%char (dec_of_N (Npos p))
  | _ => dec_of_N (Z.to_N z)
  end.

Definition Z_of_dec (s : string) : option Z :=
  match s with
  | String "-"%char s' => (λ n, - Z.of_N n)%Z <$> N_of_dec s'
  | _ => Z.of_N <$> N_of_dec s
  end.

(** ** Strings *)

Fixpoint string_forall (P : Ascii.ascii -> bool) (s : string) : bool :=
  match s with
  | EmptyString => true
  | String c s' => P c && string_forall P s'
  end.

(** [no_char c s]: the character [c] does not occur in [s]. *)
Definition no_char (c : Ascii.ascii) (s : string) : bool :=
  string_forall (λ d, negb (bool_decide (d = c))) s.

Definition is_digit (c : Ascii.ascii) : bool :=
  let n := Ascii.nat_of_ascii c in (48 <=? n)%nat && (n <=? 57)%nat.

(** Python's [s[:n]]. *)
Fixpoint str_take (n : nat) (s : string) : string :=
  match n, s with
  | S n', String c s' => String c (str_take n' s')
  | _, _ => EmptyString
  end.

(** Python's [s.replace(c, d)] for single characters. *)
Fixpoint str_replace_char (c d : Ascii.ascii) (s : string) : string :=
  match s with
  | EmptyString => EmptyString
  | String x s' =>
      String (if bool_decide (x = c) then d else x) (str_replace_char c d s')
  end.

Definition str_upper (s : string) : string :=
  String.string_of_list_ascii (map (λ c,
    let n := nat_of_ascii c in
    if (97 <=? n)%nat && (n <=? 122)%nat then ascii_of_nat (n - 32) else c) (String.list_ascii_of_string s)).

(** Python's [str.lower] on ASCII text. *)
Definition lower_ascii (c : Ascii.ascii) : Ascii.ascii :=
  let n := Ascii.nat_of_ascii c in
  if ((65 <=? n) && (n <=? 90))%nat then Ascii.ascii_of_nat (n + 32) else c.

Fixpoint str_lower (s : string) : string :=
  match s with
  | EmptyString => EmptyString
  | String c s' => String (lower_ascii c) (str_lower s')
  end.

(** [s.startswith(p)] *)
Fixpoint starts_with (p s : string) : bool :=
  match p, s with
  | EmptyString, _ => true
  | String c p', String d s' => bool_decide (c = d) && starts_with p' s'
  | _, EmptyString => false
  end.

Lemma starts_with_app p s : starts_with p (p +:+ s) = true.
Proof. induction p as [|c p IH]; simpl; [done|]. by rewrite bool_decide_true, IH. Qed.

Lemma starts_with_inv p s : starts_with p s = true -> ∃ r, s = p +:+ r.
Proof.
  revert s. induction p as [|c p IH]; intros s; [by exists s|]. destruct s as [|d s]; simpl; [done|].
  intros [Hc Hs]%andb_prop. apply bool_decide_eq_true in Hc as ->. destruct (IH _ Hs) as [r ->]. by exists r.
Qed.

(** [p in s] on strings *)
Fixpoint str_contains (p s : string) : bool :=
  starts_with p s || match s with EmptyString => false | String _ s' => str_contains p s' end.

(** [s.endswith(p)] *)
Fixpoint ends_with (p s : string) : bool :=
  bool_decide (s = p) || match s with EmptyString => false | String _ s' => ends_with p s' end.

(** What follows the prefix [p] of [s] *)
Fixpoint strip_prefix (p s : string) : option string :=
  match p, s with
  | EmptyString, _ => Some s
  | String c p', String d s' => if decide (c = d) then strip_prefix p' s' else None
  | String _ _, EmptyString => None
  end.

Lemma strip_prefix_app p s : strip_prefix p (p +:+ s) = Some s.
Proof. induction p as [|c p IH]; simpl; [done|]. by rewrite decide_True. Qed.

Lemma strip_prefix_Some p s r : strip_prefix p s = Some r -> s = p +:+ r.
Proof.
  revert s. induction p as [|c p IH]; intros [|d s]; simpl; intros H; simplify_eq; [done|done|].
  destruct (decide (c = d)) as [-> |]; [|done]. by rewrite (IH s).
Qed.

(** [s.rstrip(":")] *)
Fixpoint rstrip_colon (s : string) : string :=
  match s with
  | EmptyString => EmptyString
  | String c s' =>
      match rstrip_colon s' with
      | EmptyString => if bool_decide (c = ":"%char) then EmptyString else String c EmptyString
      | r => String c r
      end
  end.

(** [s.partition(c)]: the text before the first [c], and the text after it *)
Fixpoint str_cut (c : Ascii.ascii) (s : string) : string * option string :=
  match s with
  | EmptyString => (EmptyString, None)
  | String d s' =>
      if decide (d = c) then (EmptyString, Some s')
      else let '(a, b) := str_cut c s' in (String d a, b)
  end.

(** The text after the last [c] *)
Fixpoint after_last (c : Ascii.ascii) (s : string) : string :=
  match s with
  | EmptyString => EmptyString
  | String d s' =>
      match (str_cut c s').2 with
      | Some _ => after_last c s'
      | None => if decide (d = c) then s' else s
      end
  end.

(** ** Lemmas *)

#[local] Arguments String.append !s1 s2 : simpl nomatch.

Lemma break_sum {A B} (x : A + B) : (exists a, x = inl a) \/ (exists b, x = inr b).
Proof. destruct x; eauto. Qed.

Lemma string_app_nil_r (s : string) : s +:+ "" = s.
Proof. induction s as [|c s IH]; simpl; [done|]. by rewrite IH. Qed.

Lemma string_app_assoc (a b c : string) : a +:+ (b +:+ c) = (a +:+ b) +:+ c.
Proof. induction a as [|x a IH]; simpl; [done|]. by rewrite IH. Qed.

Lemma string_forall_app P a b :
  string_forall P (a +:+ b) = string_forall P a && string_forall P b.
Proof. induction a as [|c a IH]; simpl; [done|]. by rewrite IH, andb_assoc. Qed.

(** Splitting at the first separator: a text of the form [a ++ c ++ b] with no
    [c] in [a] determines [a] and [b].  Redis keys are built this way. *)
Lemma split_at_char (c : Ascii.ascii) (a a' b b' : string) :
  no_char c a -> no_char c a' ->
  a +:+ String c b = a' +:+ String c b' -> a = a' /\ b = b'.
Proof.
  revert a'; induction a as [|x a IH]; intros [|y a'] Ha Ha' E; simpl in *.
  - by simplify_eq.
  - injection E as <- _. unfold no_char in Ha'; simpl in Ha'.
    rewrite bool_decide_eq_true_2 in Ha' by done. done.
  - injection E as -> _. unfold no_char in Ha; simpl in Ha.
    rewrite bool_decide_eq_true_2 in Ha by done. done.
  - injection E as -> E. unfold no_char in Ha, Ha'; simpl in Ha, Ha'.
    apply andb_True in Ha as [_ Ha]. apply andb_True in Ha' as [_ Ha'].
    destruct (IH a' Ha Ha' E) as [-> ->]. done.
Qed.

Lemma string_app_inj_l (s a b : string) : s +:+ a = s +:+ b -> a = b.
Proof. induction s as [|c s IH]; simpl; [done|]. intros [= E]. by apply IH. Qed.

(** ** Decimal round trip *)

Lemma string_of_uint_digits d : string_forall is_digit (NilEmpty.string_of_uint d).
Proof. induction d; simpl; try done; by rewrite IHd. Qed.

Lemma dec_of_N_digits n : string_forall is_digit (dec_of_N n).
Proof.
  unfold dec_of_N, NilZero.string_of_uint.
  destruct (N.to_uint n) eqn:E; [done|..]; rewrite <-E; apply string_of_uint_digits.
Qed.

Lemma dec_of_N_nonempty n : dec_of_N n <> EmptyString.
Proof. unfold dec_of_N, NilZero.string_of_uint. by destruct (N.to_uint n). Qed.

Lemma N_of_dec_of_N n : N_of_dec (dec_of_N n) = Some n.
Proof.
  unfold N_of_dec, dec_of_N. rewrite NilZero.usu.
  - simpl. by rewrite DecimalN.Unsigned.of_to.
  - destruct n as [|p]; [done|]. apply DecimalPos.Unsigned.to_uint_nonnil.
Qed.

Lemma dec_of_N_head n : exists c s, dec_of_N n = String c s /\ is_digit c.
Proof.
  pose proof (dec_of_N_digits n) as Hd. pose proof (dec_of_N_nonempty n).
  destruct (dec_of_N n) as [|c s]; [done|]. exists c, s. split; [done|].
  simpl in Hd. by apply andb_True in Hd as [? _].
Qed.

Lemma Z_of_dec_of_Z z : Z_of_dec (dec_of_Z z) = Some z.
Proof.
  destruct z as [|p|p]; [done| |].
  - unfold dec_of_Z, Z_of_dec. change (Z.to_N (Z.pos p)) with (Npos p).
    destruct (dec_of_N_head (Npos p)) as (c & s & E & Hc).
    pose proof (N_of_dec_of_N (Npos p)) as R. rewrite E in *.
    destruct c as [[] [] [] [] [] [] [] []]; try done; by rewrite R.
  - unfold dec_of_Z, Z_of_dec. by rewrite N_of_dec_of_N.
Qed.

Lemma dec_of_Z_inj a b : dec_of_Z a = dec_of_Z b -> a = b.
Proof. intros E%(f_equal Z_of_dec). rewrite !Z_of_dec_of_Z in E. by simplify_eq. Qed.

(** ** Deleting several keys *)

Section DeleteAll.
Context {A : Type}.
Implicit Types (m : gmap string A) (ks : list string).

Definition delete_all ks m : gmap string A := foldr (λ k m, delete k m) m ks.

Lemma lookup_delete_all ks m k x : delete_all ks m !! k = Some x <-> m !! k = Some x /\ k ∉ ks.
Proof.
  induction ks as [|y ks IH]; simpl; [set_solver|].
  rewrite lookup_delete_Some, IH, not_elem_of_cons. naive_solver.
Qed.

Lemma size_delete_all ks m :
  NoDup ks -> (∀ k, k ∈ ks -> is_Some (m !! k)) -> (size (delete_all ks m) + length ks = size m)%nat.
Proof.
  induction 1 as [|k ks Hk Hn IH]; intros Hin; simpl; [lia|].
  destruct (Hin k) as [x Hx]; [by left|]. rewrite <-IH by set_solver.
  assert (delete_all ks m !! k = Some x) as Hl by by apply lookup_delete_all.
  rewrite map_size_delete_Some by by exists x.
  assert (size (delete_all ks m) <> 0%nat); [|lia].
  intros Hz%map_size_empty_inv. by rewrite Hz in Hl.
Qed.

Lemma delete_all_filter (P : string * A -> Prop) `{∀ x, Decision (P x)} ks m :
  filter P (delete_all ks m) = delete_all ks (filter P m).
Proof. induction ks as [|x ks IH]; simpl; [done|]. rewrite <-IH. apply map_filter_delete. Qed.
End DeleteAll.
