(* ===== verification/PyValue.v ===== *)
(** * Python values and exceptions

    The values the platform moves around: what [json] and [orjson] can carry,
    with Python's truthiness, equality and dictionary operations, and the
    exceptions its code raises.  A Python [float] is kept as a count of
    thousandths, the resolution of the clock readings the code stores. *)

From stdpp Require Import base gmap strings list.
From S2P Require Import Prelude.

Inductive value :=
| VNone
| VBool (b : bool)
| VInt (z : Z)
| VFloat (milli : Z)
| VStr (s : string)
| VList (l : list value)
| VDict (d : list (string * value)).

(** ** Exceptions *)

Inductive exn_class :=
| RuntimeError | ValueError | KeyError | IndexError | TypeError | AttributeError
| TimeoutError | ConnectionError | ResponseError | IntegrityError
| HTTPStatusError | ExternalServiceError | SystemError | BusinessError
| InvalidTaskTransition | MultipleResultsFound | NotImplementedError | ArtifactError
| ProxySubmitError | ProxyTimeoutError | ProxyBackendError | RequestError | ClickException | UnboundLocalError | CancelledError.

Inductive exn :=
| Exn (c : exn_class) (msg : string)
| HTTPException (status_code : Z) (detail : string).

#[global] Instance exn_class_eq_dec : EqDecision exn_class.
Proof. solve_decision. Defined.

#[global] Instance exn_eq_dec : EqDecision exn.
Proof. solve_decision. Defined.

(** [str(exc)] *)
Definition exn_str (e : exn) : string :=
  match e with
  | Exn _ m => m
  | HTTPException c d => dec_of_Z c +:+ ": " +:+ d
  end.

(** ** Dictionaries

    A [dict] is its item list in insertion order.  [dict_get] reads the last
    binding of a key, so that a text with a repeated key denotes the dictionary
    Python's parser builds from it. *)

Fixpoint dict_get {A} (k : string) (d : list (string * A)) : option A :=
  match d with
  | [] => None
  | (k', v) :: d' =>
      match dict_get k d' with
      | Some x => Some x
      | None => if decide (k = k') then Some v else None
      end
  end.

Definition dict_has {A} (k : string) (d : list (string * A)) : bool :=
  match dict_get k d with Some _ => true | None => false end.

(** [d[k] = v]: overwrite in place, or append. *)
Fixpoint dict_replace {A} (k : string) (v : A) (d : list (string * A)) : list (string * A) :=
  match d with
  | [] => []
  | (k', v') :: d' =>
      (if decide (k = k') then (k', v) else (k', v')) :: dict_replace k v d'
  end.

Definition dict_set {A} (k : string) (v : A) (d : list (string * A)) : list (string * A) :=
  if dict_has k d then dict_replace k v d else d ++ [(k, v)].

(** [{**d, **e}] *)
Definition dict_update {A} (d e : list (string * A)) : list (string * A) :=
  foldl (λ acc kv, dict_set kv.1 kv.2 acc) d e.

Definition dict_del {A} (k : string) (d : list (string * A)) : list (string * A) :=
  filter (λ kv, kv.1 <> k) d.

(** [d.get(k, default)] on dictionaries of values *)
Definition dict_get_or (k : string) (dflt : value) (d : list (string * value)) : value :=
  default dflt (dict_get k d).

(** ** Truthiness: [bool(v)] *)

Definition truthy (v : value) : bool :=
  match v with
  | VNone => false
  | VBool b => b
  | VInt z => negb (z =? 0)%Z
  | VFloat m => negb (m =? 0)%Z
  | VStr s => negb (bool_decide (s = ""))
  | VList l => negb (bool_decide (length l = 0))
  | VDict d => negb (bool_decide (length d = 0))
  end.

(** [a or b] *)
Definition py_or (a b : value) : value := if truthy a then a else b.

(** ** Equality: numbers compare across [bool], [int] and [float]; dictionaries
    compare as maps. *)

Definition as_milli (v : value) : option Z :=
  match v with
  | VBool b => Some (if b then 1000 else 0)%Z
  | VInt z => Some (z * 1000)%Z
  | VFloat m => Some m
  | _ => None
  end.

Fixpoint py_eq (a b : value) {struct a} : bool :=
  match a with
  | VNone => match b with VNone => true | _ => false end
  | VBool _ | VInt _ | VFloat _ =>
      match as_milli a, as_milli b with
      | Some x, Some y => (x =? y)%Z
      | _, _ => false
      end
  | VStr s => match b with VStr t => bool_decide (s = t) | _ => false end
  | VList l =>
      match b with
      | VList l' =>
          (fix go (xs ys : list value) : bool :=
             match xs, ys with
             | [], [] => true
             | x :: xs', y :: ys' => py_eq x y && go xs' ys'
             | _, _ => false
             end) l l'
      | _ => false
      end
  | VDict d =>
      match b with
      | VDict d' =>
          (length d =? length d')%nat &&
          (fix go (kvs : list (string * value)) : bool :=
             match kvs with
             | [] => true
             | (k, v) :: kvs' =>
                 match dict_get k d' with
                 | Some v' => py_eq v v' && go kvs'
                 | None => false
                 end
             end) d
      | _ => false
      end
  end.

(** ** Lemmas *)

Section DictLemmas.
Context {A : Type}.
Implicit Types (d e : list (string * A)) (k : string) (v : A).

Lemma dict_get_app k d e :
  dict_get k (d ++ e) = match dict_get k e with Some x => Some x | None => dict_get k d end.
Proof.
  induction d as [|[k' v'] d IH]; simpl; [by destruct (dict_get k e)|].
  rewrite IH. by destruct (dict_get k e), (dict_get k d).
Qed.

Lemma dict_get_replace_eq k v d :
  dict_get k (dict_replace k v d) = (λ _, v) <$> dict_get k d.
Proof.
  induction d as [|[k' v'] d IH]; simpl; [done|].
  destruct (decide (k = k')) as [<-|Hne]; simpl; rewrite IH;
    destruct (dict_get k d); simpl; repeat case_decide; naive_solver.
Qed.

Lemma dict_get_replace_ne k k' v d :
  k <> k' -> dict_get k' (dict_replace k v d) = dict_get k' d.
Proof.
  intros Hne. induction d as [|[k1 v1] d IH]; simpl; [done|].
  destruct (decide (k = k1)) as [<-|Hne1]; simpl; rewrite IH;
    destruct (dict_get k' d); simpl; repeat case_decide; naive_solver.
Qed.

Lemma dict_get_set_eq k v d : dict_get k (dict_set k v d) = Some v.
Proof.
  unfold dict_set, dict_has. destruct (dict_get k d) eqn:E.
  - by rewrite dict_get_replace_eq, E.
  - rewrite dict_get_app. simpl. by rewrite decide_True.
Qed.

Lemma dict_get_set_ne k k' v d :
  k <> k' -> dict_get k' (dict_set k v d) = dict_get k' d.
Proof.
  intros Hne. unfold dict_set, dict_has. destruct (dict_get k d) eqn:E.
  - by apply dict_get_replace_ne.
  - rewrite dict_get_app. simpl. by rewrite decide_False by done.
Qed.

Lemma dict_get_set k k' v d :
  dict_get k' (dict_set k v d) = if decide (k = k') then Some v else dict_get k' d.
Proof.
  case_decide; subst; [apply dict_get_set_eq | by apply dict_get_set_ne].
Qed.

(** [{**d, **e}[k]] is [e]'s binding when it has one, [d]'s otherwise. *)
Lemma dict_get_update k d e :
  dict_get k (dict_update d e) = match dict_get k e with Some x => Some x | None => dict_get k d end.
Proof.
  unfold dict_update. revert d.
  induction e as [|[k' v'] e IH]; intros d; simpl; [done|].
  rewrite IH, dict_get_set. simpl.
  destruct (dict_get k e); [done|]. repeat case_decide; naive_solver.
Qed.
End DictLemmas.

#[export] Hint Rewrite @dict_get_set_eq : sched.

(** Induction over nested values. *)
Lemma value_nested_ind (P : value -> Prop) :
  P VNone -> (∀ b, P (VBool b)) -> (∀ z, P (VInt z)) -> (∀ m, P (VFloat m)) ->
  (∀ s, P (VStr s)) ->
  (∀ l, Forall P l -> P (VList l)) ->
  (∀ d, Forall (λ kv, P kv.2) d -> P (VDict d)) ->
  ∀ v, P v.
Proof.
  intros HN HB HI HF HS HL HD. fix IH 1. intros [|b|z|m|s|l|d];
    [exact HN | apply HB | apply HI | apply HF | apply HS | |].
  - apply HL. induction l as [|x l IHl]; constructor; [apply IH | exact IHl].
  - apply HD. induction d as [|[k x] d IHd]; constructor; [apply IH | exact IHd].
Qed.
