(* ===== verification/Json.v ===== *)
(** * JSON text

    [json.dumps], [json.loads] (Python's standard library) and the compact
    encoder [orjson.dumps] that the platform uses to store values in Redis and
    in MySQL text columns.  The encoder is parametric in its separators:
    [json.dumps] writes [", "] and [": "], [orjson.dumps] writes [","] and
    [":"].  Strings are byte strings; bytes of 128 and above are copied. *)

From Stdlib Require Import Ascii.
From stdpp Require Import base gmap strings list.
From S2P Require Import Prelude PyValue.

#[local] Arguments String.append !s1 s2 : simpl nomatch.

Definition dquote : ascii := ascii_of_nat 34.
Definition backslash : ascii := ascii_of_nat 92.

(** ** Encoder *)

Definition hex_digit (n : nat) : ascii :=
  if (n <? 10)%nat then ascii_of_nat (48 + n) else ascii_of_nat (87 + n).

Definition escape_char (c : ascii) (rest : string) : string :=
  let n := nat_of_ascii c in
  if (n =? 34)%nat then String backslash (String dquote rest)
  else if (n =? 92)%nat then String backslash (String backslash rest)
  else if (n =? 10)%nat then String backslash (String "n"%char rest)
  else if (n =? 13)%nat then String backslash (String "r"%char rest)
  else if (n =? 9)%nat then String backslash (String "t"%char rest)
  else if (n =? 8)%nat then String backslash (String "b"%char rest)
  else if (n =? 12)%nat then String backslash (String "f"%char rest)
  else if (n <? 32)%nat then
    String backslash (String "u"%char (String "0"%char (String "0"%char
      (String (hex_digit (n / 16)) (String (hex_digit (n mod 16)) rest)))))
  else String c rest.

Fixpoint escape (s : string) (rest : string) : string :=
  match s with
  | EmptyString => rest
  | String c s' => escape_char c (escape s' rest)
  end.

Definition print_str (s : string) : string :=
  String dquote (escape s (String dquote EmptyString)).

Definition print_milli (m : Z) : string :=
  let a := Z.to_N (Z.abs m) in
  (if (m <? 0)%Z then "-" else "") +:+ dec_of_N (a / 1000) +:+ "." +:+
  String (hex_digit (N.to_nat (a mod 1000 / 100)))
    (String (hex_digit (N.to_nat (a mod 100 / 10)))
      (String (hex_digit (N.to_nat (a mod 10))) "")).

Section Encoder.
Context (isep ksep : string).

Fixpoint print_value (v : value) : string :=
  match v with
  | VNone => "null"
  | VBool true => "true"
  | VBool false => "false"
  | VInt z => dec_of_Z z
  | VFloat m => print_milli m
  | VStr s => print_str s
  | VList l =>
      "[" +:+
      (fix items (l : list value) : string :=
         match l with
         | [] => ""
         | [x] => print_value x
         | x :: l' => print_value x +:+ isep +:+ items l'
         end) l +:+ "]"
  | VDict d =>
      "{" +:+
      (fix members (d : list (string * value)) : string :=
         match d with
         | [] => ""
         | [(k, x)] => print_str k +:+ ksep +:+ print_value x
         | (k, x) :: d' =>
             print_str k +:+ ksep +:+ print_value x +:+ isep +:+ members d'
         end) d +:+ "}"
  end.
End Encoder.

Definition json_dumps : value -> string := print_value ", " ": ".
Definition orjson_dumps : value -> string := print_value "," ":".

(** ** Decoder *)

Definition is_ws (c : ascii) : bool :=
  let n := nat_of_ascii c in
  (n =? 32)%nat || (n =? 9)%nat || (n =? 10)%nat || (n =? 13)%nat.

Fixpoint skip_ws (s : string) : string :=
  match s with
  | String c s' => if is_ws c then skip_ws s' else s
  | EmptyString => s
  end.

Definition hex_value (c : ascii) : option nat :=
  let n := nat_of_ascii c in
  if ((48 <=? n) && (n <=? 57))%nat then Some (n - 48)
  else if ((97 <=? n) && (n <=? 102))%nat then Some (n - 87)
  else if ((65 <=? n) && (n <=? 70))%nat then Some (n - 55)
  else None.

Definition unescape_char (c : ascii) : option ascii :=
  let n := nat_of_ascii c in
  if (n =? 34)%nat then Some dquote
  else if (n =? 92)%nat then Some backslash
  else if (n =? 47)%nat then Some c
  else if (n =? 110)%nat then Some (ascii_of_nat 10)
  else if (n =? 114)%nat then Some (ascii_of_nat 13)
  else if (n =? 116)%nat then Some (ascii_of_nat 9)
  else if (n =? 98)%nat then Some (ascii_of_nat 8)
  else if (n =? 102)%nat then Some (ascii_of_nat 12)
  else None.

(** The rest of a string literal, after its opening quote. *)
Fixpoint parse_body (s : string) : option (string * string) :=
  match s with
  | EmptyString => None
  | String c s1 =>
      let n := nat_of_ascii c in
      if (n =? 34)%nat then Some (EmptyString, s1)
      else if (n =? 92)%nat then
        match s1 with
        | String e s2 =>
            if (nat_of_ascii e =? 117)%nat then
              match s2 with
              | String h1 (String h2 (String h3 (String h4 s3))) =>
                  match hex_value h1, hex_value h2, hex_value h3, hex_value h4 with
                  | Some 0%nat, Some 0%nat, Some a, Some b =>
                      '(t, rest) ← parse_body s3;
                      Some (String (ascii_of_nat (16 * a + b)) t, rest)
                  | _, _, _, _ => None
                  end
              | _ => None
              end
            else
              c' ← unescape_char e;
              '(t, rest) ← parse_body s2;
              Some (String c' t, rest)
        | EmptyString => None
        end
      else if (n <? 32)%nat then None
      else '(t, rest) ← parse_body s1; Some (String c t, rest)
  end.

Fixpoint span_digits (s : string) : string * string :=
  match s with
  | String c s' =>
      if is_digit c then let '(d, r) := span_digits s' in (String c d, r)
      else (EmptyString, s)
  | EmptyString => (EmptyString, s)
  end.

Definition digit_value (c : ascii) : Z := Z.of_nat (nat_of_ascii c) - 48.

(** A number after its optional minus sign: digits, then an optional fraction
    of three digits. *)
Definition parse_number (neg : bool) (s : string) : option (value * string) :=
  let '(ds, r) := span_digits s in
  n ← N_of_dec ds;
  let sign := if neg then (-1)%Z else 1%Z in
  match r with
  | String p (String a (String b (String c r'))) =>
      if (nat_of_ascii p =? 46)%nat then
        if is_digit a && is_digit b && is_digit c then
          Some (VFloat (sign * (Z.of_N n * 1000 + digit_value a * 100 +
                                digit_value b * 10 + digit_value c))%Z, r')
        else None
      else Some (VInt (sign * Z.of_N n)%Z, r)
  | _ => Some (VInt (sign * Z.of_N n)%Z, r)
  end.

Definition strip (p s : string) : option string :=
  (fix go (p s : string) : option string :=
     match p, s with
     | EmptyString, _ => Some s
     | String c p', String d s' => if decide (c = d) then go p' s' else None
     | _, EmptyString => None
     end) p s.

Fixpoint parse_value (fuel : nat) (s : string) : option (value * string) :=
  match fuel with
  | O => None
  | S f =>
      match skip_ws s with
      | EmptyString => None
      | String c s' =>
          let n := nat_of_ascii c in
          if (n =? 34)%nat then
            '(t, r) ← parse_body s'; Some (VStr t, r)
          else if (n =? 91)%nat then
            match strip "]" (skip_ws s') with
            | Some r => Some (VList [], r)
            | None => '(l, r) ← parse_items f s'; Some (VList l, r)
            end
          else if (n =? 123)%nat then
            match strip "}" (skip_ws s') with
            | Some r => Some (VDict [], r)
            | None => '(d, r) ← parse_members f s'; Some (VDict d, r)
            end
          else if (n =? 116)%nat then r ← strip "rue" s'; Some (VBool true, r)
          else if (n =? 102)%nat then r ← strip "alse" s'; Some (VBool false, r)
          else if (n =? 110)%nat then r ← strip "ull" s'; Some (VNone, r)
          else if (n =? 45)%nat then parse_number true s'
          else parse_number false (String c s')
      end
  end
with parse_items (fuel : nat) (s : string) : option (list value * string) :=
  match fuel with
  | O => None
  | S f =>
      '(v, r) ← parse_value f s;
      match skip_ws r with
      | String c r' =>
          let n := nat_of_ascii c in
          if (n =? 93)%nat then Some ([v], r')
          else if (n =? 44)%nat then
            '(l, r'') ← parse_items f r'; Some (v :: l, r'')
          else None
      | EmptyString => None
      end
  end
with parse_members (fuel : nat) (s : string) : option (list (string * value) * string) :=
  match fuel with
  | O => None
  | S f =>
      match skip_ws s with
      | String q s' =>
          if (nat_of_ascii q =? 34)%nat then
            '(k, r) ← parse_body s';
            match skip_ws r with
            | String c r' =>
                if (nat_of_ascii c =? 58)%nat then
                  '(v, r2) ← parse_value f r';
                  match skip_ws r2 with
                  | String e r3 =>
                      let n := nat_of_ascii e in
                      if (n =? 125)%nat then Some ([(k, v)], r3)
                      else if (n =? 44)%nat then
                        '(d, r4) ← parse_members f r3; Some ((k, v) :: d, r4)
                      else None
                  | EmptyString => None
                  end
                else None
            | EmptyString => None
            end
          else None
      | EmptyString => None
      end
  end.

(** [json.loads]; [None] is a [JSONDecodeError].  The fuel is the length of
    the text, which every nesting level consumes at least one character of. *)
Definition json_loads (s : string) : option value :=
  '(v, r) ← parse_value (String.length s) s;
  if decide (skip_ws r = EmptyString) then Some v else None.

(** ** Round trip *)

(** What may follow a printed value: the end of the text or a character that
    cannot extend a number. *)
Definition delim (r : string) : bool :=
  match r with
  | EmptyString => true
  | String c _ => negb (is_digit c) && negb (nat_of_ascii c =? 46)%nat
  end.

Lemma parse_body_escape s rest :
  parse_body (escape s (String dquote rest)) = Some (s, rest).
Proof.
  induction s as [|c s IH]; [done|].
  cbn [escape]. revert IH. generalize (escape s (String dquote rest)).
  intros t IH. destruct c as [[] [] [] [] [] [] [] []]; simpl; by rewrite IH.
Qed.

Lemma escape_app s a b : escape s a +:+ b = escape s (a +:+ b).
Proof.
  induction s as [|c s IH]; [done|]. simpl. rewrite <-IH.
  unfold escape_char. by repeat case_match.
Qed.

Lemma print_str_app s rest :
  print_str s +:+ rest = String dquote (escape s (String dquote rest)).
Proof. unfold print_str. simpl. by rewrite escape_app. Qed.

Lemma span_digits_app ds r :
  string_forall is_digit ds -> delim r -> span_digits (ds +:+ r) = (ds, r).
Proof.
  intros Hd Hr. induction ds as [|c ds IH]; simpl in *.
  - destruct r as [|c r]; [done|]. simpl in *. destruct (is_digit c); done.
  - apply andb_True in Hd as [Hc Hd]. destruct (is_digit c); [|done].
    by rewrite (IH Hd).
Qed.

Lemma span_digits_dot ds r :
  string_forall is_digit ds ->
  span_digits (ds +:+ String "."%char r) = (ds, String "."%char r).
Proof.
  intros Hd. induction ds as [|c ds IH]; simpl in *; [done|].
  apply andb_True in Hd as [Hc Hd]. destruct (is_digit c); [|done].
  by rewrite (IH Hd).
Qed.

Lemma parse_number_int neg n r :
  delim r ->
  parse_number neg (dec_of_N n +:+ r) =
    Some (VInt ((if neg then -1 else 1) * Z.of_N n), r).
Proof.
  intros Hr. unfold parse_number.
  rewrite span_digits_app by (done || apply dec_of_N_digits).
  rewrite N_of_dec_of_N. simpl.
  destruct r as [|p [|a [|b [|c r]]]]; try done.
  simpl in Hr. destruct (nat_of_ascii p =? 46)%nat eqn:E; [|done].
  destruct (is_digit p); done.
Qed.

Lemma digit_value_hex n : (n < 10)%nat ->
  is_digit (hex_digit n) = true /\ digit_value (hex_digit n) = Z.of_nat n.
Proof. intros H. do 10 (destruct n as [|n]; [done|]). lia. Qed.

Lemma parse_number_milli neg n r :
  parse_number neg
    (dec_of_N (n / 1000) +:+ "." +:+
     String (hex_digit (N.to_nat (n mod 1000 / 100)))
       (String (hex_digit (N.to_nat (n mod 100 / 10)))
         (String (hex_digit (N.to_nat (n mod 10))) r))) =
  Some (VFloat ((if neg then -1 else 1) * Z.of_N n), r).
Proof.
  unfold parse_number. cbn [String.append].
  rewrite span_digits_dot by apply dec_of_N_digits.
  rewrite N_of_dec_of_N. simpl.
  pose proof (N.mod_upper_bound n 1000 ltac:(done)).
  pose proof (N.mod_upper_bound n 100 ltac:(done)).
  pose proof (N.mod_upper_bound n 10 ltac:(done)).
  destruct (digit_value_hex (N.to_nat (n mod 1000 / 100))) as [-> ->].
  { assert (n mod 1000 / 100 < 10)%N by (apply N.Div0.div_lt_upper_bound; lia); lia. }
  destruct (digit_value_hex (N.to_nat (n mod 100 / 10))) as [-> ->].
  { assert (n mod 100 / 10 < 10)%N by (apply N.Div0.div_lt_upper_bound; lia); lia. }
  destruct (digit_value_hex (N.to_nat (n mod 10))) as [-> ->]; [lia|].
  simpl. do 4 f_equal. rewrite !N_nat_Z.
  zify. Z.to_euclidean_division_equations. lia.
Qed.

Lemma dec_of_Z_parse z f r :
  delim r -> (1 <= f)%nat -> parse_value f (dec_of_Z z +:+ r) = Some (VInt z, r).
Proof.
  intros Hr Hf. destruct f as [|f]; [lia|].
  assert (Hnn : forall n, parse_value (S f) (dec_of_N n +:+ r) = Some (VInt (Z.of_N n), r)).
  { intros n. pose proof (parse_number_int false n r Hr) as E.
    destruct (dec_of_N_head n) as (c & s & Es & Hc). rewrite Es in *.
    cbn [String.append] in *.
    destruct c as [[] [] [] [] [] [] [] []]; try done; simpl in *; rewrite E;
      by destruct (Z.of_N n). }
  destruct z as [|p|p]; simpl dec_of_Z.
  - apply (Hnn 0%N).
  - apply (Hnn (Npos p)).
  - pose proof (parse_number_int true (Npos p) r Hr) as E. simpl in *. by rewrite E.
Qed.

Lemma print_milli_parse m f r :
  delim r -> (1 <= f)%nat -> parse_value f (print_milli m +:+ r) = Some (VFloat m, r).
Proof.
  intros Hr Hf. destruct f as [|f]; [lia|]. unfold print_milli.
  set (n := Z.to_N (Z.abs m)).
  pose proof (parse_number_milli (m <? 0)%Z n r) as E.
  replace (VFloat ((if (m <? 0)%Z then -1 else 1) * Z.of_N n)) with (VFloat m) in E
    by (f_equal; unfold n; destruct (Z.ltb_spec m 0); lia).
  rewrite <-!string_app_assoc. destruct (m <? 0)%Z; cbn [String.append] in *.
  - simpl. exact E.
  - destruct (dec_of_N_head (n / 1000)) as (c & s & Es & Hc). rewrite Es in *.
    cbn [String.append] in *.
    destruct c as [[] [] [] [] [] [] [] []]; try done; simpl in *; exact E.
Qed.

Section RoundTrip.
Context (isep ksep : string).
Context (Hisep : isep = "," \/ isep = ", ") (Hksep : ksep = ":" \/ ksep = ": ").
Abbreviation pv := (print_value isep ksep).

Fixpoint items (l : list value) : string :=
  match l with
  | [] => ""
  | [x] => pv x
  | x :: l' => pv x +:+ isep +:+ items l'
  end.

Fixpoint members (d : list (string * value)) : string :=
  match d with
  | [] => ""
  | [(k, x)] => print_str k +:+ ksep +:+ pv x
  | (k, x) :: d' => print_str k +:+ ksep +:+ pv x +:+ isep +:+ members d'
  end.

Lemma items_cons2 x y l : items (x :: y :: l) = pv x +:+ isep +:+ items (y :: l).
Proof. done. Qed.

Lemma members_cons2 k x kv d :
  members ((k, x) :: kv :: d) =
    print_str k +:+ ksep +:+ pv x +:+ isep +:+ members (kv :: d).
Proof. done. Qed.

Definition parses (v : value) : Prop :=
  forall f r, (String.length (pv v) <= f)%nat -> delim r ->
    parse_value f (pv v +:+ r) = Some (v, r).

Lemma length_app_str a b :
  String.length (a +:+ b) = (String.length a + String.length b)%nat.
Proof. induction a as [|c a IH]; simpl; [done|]. by rewrite IH. Qed.

Lemma pv_length_pos v : (1 <= String.length (pv v))%nat.
Proof.
  destruct v as [|[]|z|m|s|l|d]; simpl; try lia.
  - destruct z as [|p|p]; simpl; [lia| |lia].
    destruct (dec_of_N_head (Npos p)) as (c & s & -> & _). simpl. lia.
  - unfold print_milli. rewrite !length_app_str. simpl. lia.
Qed.

Lemma parse_value_skip f c s :
  is_ws c -> parse_value f (String c s) = parse_value f s.
Proof. intros Hc. destruct f; [done|]. simpl. by destruct (is_ws c). Qed.

Lemma parse_items_skip f c s :
  is_ws c -> parse_items f (String c s) = parse_items f s.
Proof.
  intros Hc. destruct f; [done|]. cbn [parse_items]. by rewrite parse_value_skip.
Qed.

Lemma parse_members_skip f c s :
  is_ws c -> parse_members f (String c s) = parse_members f s.
Proof. intros Hc. destruct f; [done|]. simpl. by destruct (is_ws c). Qed.

Lemma isep_text t :
  (1 <= String.length isep)%nat /\
  (isep +:+ t = String ","%char t \/ isep +:+ t = String ","%char (String " "%char t)).
Proof using Hisep. destruct Hisep as [E | E]; rewrite E; simpl; auto with lia. Qed.

Lemma ksep_text t :
  ksep +:+ t = String ":"%char t \/ ksep +:+ t = String ":"%char (String " "%char t).
Proof using Hksep. destruct Hksep as [E | E]; rewrite E; simpl; auto. Qed.

Lemma parse_items_last f s v r :
  parse_value f s = Some (v, String "]"%char r) -> parse_items (S f) s = Some ([v], r).
Proof. intros E. cbn [parse_items]. by rewrite E. Qed.

Lemma parse_items_more f s v t l r :
  parse_value f s = Some (v, String ","%char t) ->
  parse_items f t = Some (l, r) -> parse_items (S f) s = Some (v :: l, r).
Proof. intros E E'. cbn [parse_items]. rewrite E. simpl. by rewrite E'. Qed.

Lemma parse_items_ok l f r :
  l <> [] -> Forall parses l -> (String.length (items l) + 1 <= f)%nat ->
  parse_items f (items l +:+ String "]"%char r) = Some (l, r).
Proof using Hisep.
  intros Hne Hl. revert f.
  induction Hl as [|x l Hx Hl IH]; intros f Hf; [done|].
  destruct f as [|f]; [simpl in Hf; lia|].
  destruct l as [|y l].
  - apply parse_items_last. apply Hx; [simpl in Hf; lia | done].
  - rewrite items_cons2 in Hf |- *. rewrite !length_app_str in Hf.
    rewrite <-!string_app_assoc. pose proof (pv_length_pos x).
    destruct (isep_text (items (y :: l) +:+ String "]"%char r)) as [Hs [E | E]];
      rewrite E; (eapply parse_items_more; [apply Hx; [lia|done] |]);
      rewrite ?parse_items_skip by done; by apply IH; [|lia].
Qed.

Lemma parse_members_last f k x s r :
  parse_value f s = Some (x, String "}"%char r) ->
  parse_members (S f) (print_str k +:+ ksep +:+ s) = Some ([(k, x)], r).
Proof using Hksep.
  intros E. rewrite print_str_app. simpl. rewrite parse_body_escape. simpl.
  destruct (ksep_text s) as [Es | Es]; rewrite Es; simpl;
    rewrite ?parse_value_skip by done; by rewrite E.
Qed.

Lemma parse_members_more f k x s t d r :
  parse_value f s = Some (x, String ","%char t) ->
  parse_members f t = Some (d, r) ->
  parse_members (S f) (print_str k +:+ ksep +:+ s) = Some ((k, x) :: d, r).
Proof using Hksep.
  intros E E'. rewrite print_str_app. simpl. rewrite parse_body_escape. simpl.
  destruct (ksep_text s) as [Es | Es]; rewrite Es; simpl;
    rewrite ?parse_value_skip by done; rewrite E; simpl; by rewrite E'.
Qed.

Lemma parse_members_ok d f r :
  d <> [] -> Forall (fun kv => parses kv.2) d -> (String.length (members d) + 1 <= f)%nat ->
  parse_members f (members d +:+ String "}"%char r) = Some (d, r).
Proof using Hisep Hksep.
  intros Hne Hd. revert f.
  induction Hd as [|[k x] d Hx Hd IH]; intros f Hf; [done|]. simpl in Hx.
  destruct f as [|f]; [simpl in Hf; lia|].
  destruct d as [|kv d].
  - cbn [members] in *. rewrite !length_app_str in Hf. rewrite <-!string_app_assoc.
    apply parse_members_last, Hx; [lia | done].
  - rewrite members_cons2 in Hf |- *. rewrite !length_app_str in Hf.
    rewrite <-!string_app_assoc. pose proof (pv_length_pos x).
    destruct (isep_text (members (kv :: d) +:+ String "}"%char r)) as [Hs [E | E]];
      rewrite E; (eapply parse_members_more; [apply Hx; [lia|done] |]);
      rewrite ?parse_members_skip by done; by apply IH; [|lia].
Qed.

#[local] Arguments strip : simpl never.

Lemma parse_value_list f s l r :
  strip "]" (skip_ws s) = None -> parse_items f s = Some (l, r) ->
  parse_value (S f) (String "["%char s) = Some (VList l, r).
Proof. intros E1 E2. cbn [parse_value]. simpl. by rewrite E1, E2. Qed.

Lemma parse_value_dict f s d r :
  strip "}" (skip_ws s) = None -> parse_members f s = Some (d, r) ->
  parse_value (S f) (String "{"%char s) = Some (VDict d, r).
Proof. intros E1 E2. cbn [parse_value]. simpl. by rewrite E1, E2. Qed.

(** No printed value starts with a closing bracket, so a non-empty list or
    dictionary is never mistaken for an empty one. *)
Lemma pv_head v : exists c s, pv v = String c s /\ is_ws c = false /\
  c <> "]"%char /\ c <> "}"%char.
Proof.
  destruct v as [|[]|z|m|s|l|d]; simpl; try (by do 2 eexists).
  - destruct z as [|p|p]; simpl; try (by do 2 eexists).
    destruct (dec_of_N_head (Npos p)) as (c & s & -> & Hc). exists c, s.
    by destruct c as [[] [] [] [] [] [] [] []].
  - unfold print_milli. destruct (m <? 0)%Z; cbn [String.append]; [by do 2 eexists|].
    destruct (dec_of_N_head (Z.to_N (Z.abs m) / 1000)) as (c & s & -> & Hc).
    cbn [String.append]. do 2 eexists. split; [done|].
    by destruct c as [[] [] [] [] [] [] [] []].
Qed.

Theorem parses_all v : parses v.
Proof using Hisep Hksep.
  induction v as [| b | z | m | s | l IH | d IH] using value_nested_ind; intros f r Hf Hr.
  - destruct f; [simpl in Hf; lia|]. done.
  - destruct f; [destruct b; simpl in Hf; lia|]. by destruct b.
  - apply dec_of_Z_parse; [done|]. pose proof (pv_length_pos (VInt z)). lia.
  - apply print_milli_parse; [done|]. pose proof (pv_length_pos (VFloat m)). lia.
  - destruct f; [simpl in Hf; lia|]. change (pv (VStr s)) with (print_str s).
    rewrite print_str_app. simpl. by rewrite parse_body_escape.
  - change (pv (VList l)) with ("[" +:+ items l +:+ "]") in *.
    rewrite !length_app_str in Hf. simpl in Hf. destruct f as [|f]; [lia|].
    rewrite <-!string_app_assoc. destruct l as [|x l]; [done|].
    apply parse_value_list; [|by apply parse_items_ok; [| |lia]].
    destruct (pv_head x) as (c & t & Ex & Hws & Hc & _).
    destruct l as [|y l]; simpl; rewrite Ex; cbn [String.append]; simpl;
      rewrite Hws; unfold strip; by rewrite decide_False by done.
  - change (pv (VDict d)) with ("{" +:+ members d +:+ "}") in *.
    rewrite !length_app_str in Hf. simpl in Hf. destruct f as [|f]; [lia|].
    rewrite <-!string_app_assoc. destruct d as [|[k x] d]; [done|].
    apply parse_value_dict; [|by apply parse_members_ok; [| |lia]].
    by destruct d as [|[k2 y] d].
Qed.
End RoundTrip.

Lemma loads_print isep ksep v :
  (isep = "," \/ isep = ", ") -> (ksep = ":" \/ ksep = ": ") ->
  json_loads (print_value isep ksep v) = Some v.
Proof.
  intros Hi Hk. unfold json_loads.
  pose proof (parses_all isep ksep Hi Hk v (String.length (print_value isep ksep v)) ""
                ltac:(done) ltac:(done)) as E.
  rewrite string_app_nil_r in E. by rewrite E.
Qed.

(** Reading back what either encoder wrote gives the value. *)
Lemma loads_json_dumps v : json_loads (json_dumps v) = Some v.
Proof. apply loads_print; auto. Qed.

Lemma loads_orjson_dumps v : json_loads (orjson_dumps v) = Some v.
Proof. apply loads_print; auto. Qed.

Lemma json_dumps_inj v w : json_dumps v = json_dumps w -> v = w.
Proof. intros E%(f_equal json_loads). rewrite !loads_json_dumps in E. by simplify_eq. Qed.

Lemma dumps_nonempty isep ksep v : print_value isep ksep v <> "".
Proof. intros E. pose proof (pv_length_pos isep ksep v) as H. rewrite E in H. simpl in H. lia. Qed.

#[global] Opaque json_dumps orjson_dumps json_loads.
#[export] Hint Rewrite loads_json_dumps loads_orjson_dumps : sched.
