(* ===== verification/Sha256.v ===== *)
(** * SHA-256

    Python's [hashlib.sha256(data).hexdigest()] (FIPS 180-4), which the platform
    uses for deterministic task identifiers and for artifact integrity.  Words
    are 32-bit, kept as [N] below [2^32]. *)

From Stdlib Require Import Ascii.
From stdpp Require Import base strings list.
From S2P Require Import Prelude.

#[local] Open Scope N_scope.

Definition w32 (n : N) : N := n mod 4294967296.
Definition add32 (a b : N) : N := w32 (a + b).
Definition rotr (k n : N) : N := N.lor (N.shiftr n k) (w32 (N.shiftl n (32 - k))).
Definition not32 (n : N) : N := N.lxor n 4294967295.

Definition ch (x y z : N) : N := N.lxor (N.land x y) (N.land (not32 x) z).
Definition maj (x y z : N) : N := N.lxor (N.lxor (N.land x y) (N.land x z)) (N.land y z).
Definition bsig0 (x : N) : N := N.lxor (N.lxor (rotr 2 x) (rotr 13 x)) (rotr 22 x).
Definition bsig1 (x : N) : N := N.lxor (N.lxor (rotr 6 x) (rotr 11 x)) (rotr 25 x).
Definition ssig0 (x : N) : N := N.lxor (N.lxor (rotr 7 x) (rotr 18 x)) (N.shiftr x 3).
Definition ssig1 (x : N) : N := N.lxor (N.lxor (rotr 17 x) (rotr 19 x)) (N.shiftr x 10).

(** The constants of the standard: the first 32 bits of the fractional parts of
    the cube roots of the first 64 primes (rounds) and of the square roots of the
    first eight (initial value).  [root k n bits] is the integer [k]-th root of
    [n], bit by bit from [2^(bits-1)] down. *)
Fixpoint root (k n : N) (bits : nat) (acc : N) : N :=
  match bits with
  | O => acc
  | S i =>
      let x := acc + 2 ^ N.of_nat i in
      root k n i (if x ^ k <=? n then x else acc)
  end.

Definition frac_root (k p : N) : N := w32 (root k (p * 2 ^ (32 * k)) 40 0).

Definition is_prime (n : N) : bool :=
  forallb (λ d, negb (n mod N.of_nat d =? 0)) (seq 2 (N.to_nat n - 2)).

Definition primes_below (m : nat) : list N :=
  List.filter is_prime (N.of_nat <$> seq 2 (m - 2)).

(** 311 is the 64th prime. *)
Definition round_constants : list N := Eval vm_compute in frac_root 3 <$> primes_below 312.

Definition initial_hash : list N := Eval vm_compute in frac_root 2 <$> primes_below 20.

(** Message padding: a one bit, zeros, and the length in bits. *)
Definition bytes_of (s : string) : list N := N_of_ascii <$> String.list_ascii_of_string s.

Fixpoint be_bytes (k : nat) (n : N) : list N :=
  match k with O => [] | S k' => be_bytes k' (n / 256) ++ [n mod 256] end.

Definition pad (msg : list N) : list N :=
  let l := length msg in
  let zeros := ((64 - (l + 9) mod 64) mod 64)%nat in
  msg ++ [128] ++ repeat 0 zeros ++ be_bytes 8 (8 * N.of_nat l).

Definition be_word (b : list N) : N := foldl (λ acc x, acc * 256 + x) 0 b.

Fixpoint chunks {A} (fuel : nat) (k : nat) (l : list A) : list (list A) :=
  match fuel with
  | O => []
  | S fuel' => match l with [] => [] | _ => take k l :: chunks fuel' k (drop k l) end
  end.

(** The message schedule, most recent word first. *)
Fixpoint schedule (n : nat) (rev_ws : list N) : list N :=
  match n with
  | O => rev rev_ws
  | S n' =>
      let w t := nth t rev_ws 0 in
      let x := add32 (add32 (ssig1 (w 1%nat)) (w 6%nat)) (add32 (ssig0 (w 14%nat)) (w 15%nat)) in
      schedule n' (x :: rev_ws)
  end.

Definition round (st : list N) (kw : N * N) : list N :=
  match st with
  | [a; b; c; d; e; f; g; h] =>
      let t1 := add32 (add32 (add32 h (bsig1 e)) (ch e f g)) (add32 kw.1 kw.2) in
      let t2 := add32 (bsig0 a) (maj a b c) in
      [add32 t1 t2; a; b; c; add32 d t1; e; f; g]
  | _ => st
  end.

Definition compress (h : list N) (block : list N) : list N :=
  let ws := schedule 48 (rev (be_word <$> chunks 16 4 block)) in
  zip_with add32 h (foldl round h (zip round_constants ws)).

Definition hex_char (n : N) : ascii :=
  ascii_of_N (if n <? 10 then 48 + n else 87 + n).

Definition hex_byte (n : N) : list ascii := [hex_char (n / 16); hex_char (n mod 16)].

Definition sha256_hexdigest (s : string) : string :=
  let padded := pad (bytes_of s) in
  let blocks := chunks (length padded) 64 padded in
  let h := foldl compress initial_hash blocks in
  String.string_of_list_ascii (flat_map (λ w, flat_map hex_byte (be_bytes 4 w)) h).

(** The published test vectors. *)
Example sha256_abc : sha256_hexdigest "abc" =
  "ba7816bf8f01cfea414140de5dae2223b00361a396177a9cb410ff61f20015ad".
Proof. vm_compute. reflexivity. Qed.

Example sha256_empty : sha256_hexdigest EmptyString =
  "e3b0c44298fc1c149afbf4c8996fb92427ae41e4649b934ca495991b7852b855".
Proof. vm_compute. reflexivity. Qed.

Example sha256_two_blocks :
  sha256_hexdigest "abcdbcdecdefdefgefghfghighijhijkijkljklmklmnlmnomnopnopq" =
  "248d6a61d20638b8e5c026930c3e6039a33ce45964ff2167f6ecedd419db06c1".
Proof. vm_compute. reflexivity. Qed.

#[global] Opaque sha256_hexdigest.
