(* ===== verification/Datetime.v ===== *)
(** * Dates

    The proleptic Gregorian calendar of Python's [datetime]: the civil date of a
    day number counted from 1970-01-01 and the text [str(datetime)] prints for a
    time without fraction of a second. *)

From stdpp Require Import base strings list.
From S2P Require Import Prelude.

Open Scope Z_scope.

Record civil := { c_year : Z; c_month : Z; c_day : Z }.

(** Day count of a civil date. *)
Definition days_from_civil (y m d : Z) : Z :=
  let y' := if m <=? 2 then y - 1 else y in
  let era := y' / 400 in
  let yoe := y' - era * 400 in
  let mp := (m + 9) mod 12 in
  let doy := (153 * mp + 2) / 5 + d - 1 in
  let doe := yoe * 365 + yoe / 4 - yoe / 100 + doy in
  era * 146097 + doe - 719468.

Definition civil_from_days (z : Z) : civil :=
  let z' := z + 719468 in
  let era := z' / 146097 in
  let doe := z' - era * 146097 in
  let yoe := (doe - doe / 1460 + doe / 36524 - doe / 146096) / 365 in
  let doy := doe - (365 * yoe + yoe / 4 - yoe / 100) in
  let mp := (5 * doy + 2) / 153 in
  let m := if mp <? 10 then mp + 3 else mp - 9 in
  {| c_year := yoe + era * 400 + (if m <=? 2 then 1 else 0); c_month := m;
     c_day := doy - (153 * mp + 2) / 5 + 1 |}.

(** Zero-padded decimal. *)
Definition pad2 (n : Z) : string := if n <? 10 then "0" +:+ dec_of_Z n else dec_of_Z n.
Definition pad4 (n : Z) : string :=
  if n <? 10 then "000" +:+ dec_of_Z n else if n <? 100 then "00" +:+ dec_of_Z n
  else if n <? 1000 then "0" +:+ dec_of_Z n else dec_of_Z n.

(** [str(datetime)] of a time in milliseconds, whole seconds. *)
Definition datetime_str (ms : Z) : string :=
  let secs := ms / 1000 in
  let days := secs / 86400 in
  let s := secs mod 86400 in
  let c := civil_from_days days in
  pad4 (c_year c) +:+ "-" +:+ pad2 (c_month c) +:+ "-" +:+ pad2 (c_day c) +:+ " " +:+
  pad2 (s / 3600) +:+ ":" +:+ pad2 (s / 60 mod 60) +:+ ":" +:+ pad2 (s mod 60).

(** [.weekday()]: Monday is 0. *)
Definition weekday (days : Z) : Z := (days + 3) mod 7.

Example epoch_str : datetime_str 0 = "1970-01-01 00:00:00".
Proof. reflexivity. Qed.

Example leap_str : datetime_str 1709208000000 = "2024-02-29 12:00:00".
Proof. reflexivity. Qed.
