(* ===== verification/IsoTime.v ===== *)
(** * ISO 8601 texts of [datetime]

    [datetime.isoformat] of a UTC time and [datetime.fromisoformat] on the
    extended format: a date, optionally a separator and a time of one to three
    fields with a fraction, optionally [Z] or an offset of hours and minutes.
    (Python's parser also takes the basic format and week dates, which the
    platform never writes.)  Times are milliseconds since the epoch. *)

From Stdlib Require Import Ascii.
From stdpp Require Import base strings list.
From S2P Require Import Prelude Datetime.

Open Scope Z_scope.

(** ** Printing *)

(** Zero-padded decimal of [n] digits. *)
Definition digit_char (d : Z) : ascii := ascii_of_nat (Z.to_nat (48 + d)).

Fixpoint zpad (n : nat) (v : Z) : string :=
  match n with
  | O => ""
  | S n' => zpad n' (v / 10) +:+ String (digit_char (v mod 10)) ""
  end.

(** [datetime.fromtimestamp(ms / 1000, tz=utc).isoformat()]: the fraction has six
    digits and is left out when zero. *)
Definition isoformat (ms : Z) : string :=
  let days := ms / 86400000 in
  let r := ms mod 86400000 in
  let c := civil_from_days days in
  zpad 4 (c_year c) +:+ "-" +:+ zpad 2 (c_month c) +:+ "-" +:+ zpad 2 (c_day c) +:+ "T" +:+
  zpad 2 (r / 3600000) +:+ ":" +:+ zpad 2 (r / 60000 mod 60) +:+ ":" +:+ zpad 2 (r / 1000 mod 60) +:+
  (if r mod 1000 =? 0 then "" else "." +:+ zpad 3 (r mod 1000) +:+ "000") +:+ "+00:00".

(** ** Parsing *)

Definition digit_val (c : ascii) : option Z :=
  if is_digit c then Some (Z.of_nat (nat_of_ascii c) - 48) else None.

(** Exactly [n] digits. *)
Fixpoint take_digits (n : nat) (acc : Z) (s : string) : option (Z * string) :=
  match n with
  | O => Some (acc, s)
  | S n' =>
      match s with
      | String c s' =>
          match digit_val c with Some d => take_digits n' (acc * 10 + d) s' | None => None end
      | EmptyString => None
      end
  end.

(** The given character, then the rest. *)
Definition expect (c : ascii) (s : string) : option string :=
  match s with String d s' => if decide (d = c) then Some s' else None | EmptyString => None end.

Definition is_leap (y : Z) : bool := (y mod 4 =? 0) && (negb (y mod 100 =? 0) || (y mod 400 =? 0)).

Definition days_in_month (y m : Z) : Z :=
  if m =? 2 then (if is_leap y then 29 else 28)
  else if (m =? 4) || (m =? 6) || (m =? 9) || (m =? 11) then 30 else 31.

Definition valid_date (y m d : Z) : bool :=
  (1 <=? y) && (1 <=? m) && (m <=? 12) && (1 <=? d) && (d <=? days_in_month y m).

Definition parse_date (s : string) : option (Z * string) :=
  '(y, s) ← take_digits 4 0 s; s ← expect "-"%char s;
  '(m, s) ← take_digits 2 0 s; s ← expect "-"%char s;
  '(d, s) ← take_digits 2 0 s;
  if valid_date y m d then Some (days_from_civil y m d, s) else None.

(** A run of digits after the decimal point, as thousandths. *)
Fixpoint skip_digits (s : string) : string :=
  match s with
  | String c s' => if is_digit c then skip_digits s' else s
  | EmptyString => s
  end.

Definition parse_fraction (s : string) : option (Z * string) :=
  match take_digits 3 0 s with
  | Some (n, s') => Some (n, skip_digits s')
  | None =>
      match take_digits 2 0 s with
      | Some (n, s') => Some (n * 10, s')
      | None => '(n, s') ← take_digits 1 0 s; Some (n * 100, s')
      end
  end.

(** Milliseconds of the day. *)
Definition parse_time (s : string) : option (Z * string) :=
  '(h, s) ← take_digits 2 0 s;
  '(mi, s) ← match expect ":"%char s with
             | Some s' => take_digits 2 0 s'
             | None => Some (0, s)
             end;
  '(se, s) ← match expect ":"%char s with
             | Some s' => take_digits 2 0 s'
             | None => Some (0, s)
             end;
  '(fr, s) ← match expect "."%char s with
             | Some s' => parse_fraction s'
             | None => Some (0, s)
             end;
  if (h <? 24) && (mi <? 60) && (se <? 60)
  then Some (h * 3600000 + mi * 60000 + se * 1000 + fr, s) else None.

(** The offset in milliseconds; [None] inside for a time without one. *)
Definition parse_offset (s : string) : option (option Z) :=
  if decide (s = "") then Some None
  else if decide (s = "Z") then Some (Some 0)
  else
    '(sign, s) ← match expect "+"%char s with
                 | Some s' => Some (1, s')
                 | None => s' ← expect "-"%char s; Some (-1, s')
                 end;
    '(h, s) ← take_digits 2 0 s; s ← expect ":"%char s;
    '(mi, s) ← take_digits 2 0 s;
    if bool_decide (s = "") && (h <? 24) && (mi <? 60)
    then Some (Some (sign * (h * 3600000 + mi * 60000))) else None.

(** The time and whether it had an offset; a time without one is read as UTC,
    which is what the callers make of it. *)
Definition fromisoformat (s : string) : option (Z * bool) :=
  '(days, s) ← parse_date s;
  match s with
  | EmptyString => Some (days * 86400000, false)
  | String _ s =>
      '(t, s) ← parse_time s;
      off ← parse_offset s;
      match off with
      | Some o => Some (days * 86400000 + t - o, true)
      | None => Some (days * 86400000 + t, false)
      end
  end.

Example iso_plain : isoformat 1709208000000 = "2024-02-29T12:00:00+00:00".
Proof. reflexivity. Qed.
Example iso_fraction : fromisoformat "2024-02-29T12:00:00.250Z" = Some (1709208000250, true).
Proof. reflexivity. Qed.
Example iso_offset : fromisoformat "2024-02-29 14:00+02:00" = Some (1709208000000, true).
Proof. reflexivity. Qed.
Example iso_bad : fromisoformat "2023-02-29" = None.
Proof. reflexivity. Qed.

(** ** Round trip *)

Lemma digit_val_char d : 0 <= d < 10 -> digit_val (digit_char d) = Some d.
Proof.
  intros Hd. assert (d = 0 \/ d = 1 \/ d = 2 \/ d = 3 \/ d = 4 \/ d = 5 \/ d = 6 \/ d = 7 \/ d = 8 \/
    d = 9) as H by lia. by destruct_or! H; subst d.
Qed.

(** [m] digits are read as [n] digits and then the others. *)
Lemma take_digits_snoc n : ∀ acc s v d r,
  take_digits n acc s = Some (v, String (digit_char d) r) -> 0 <= d < 10 ->
  take_digits (S n) acc s = Some (v * 10 + d, r).
Proof.
  induction n as [|n IH]; intros acc s v d r Ht Hd.
  - injection Ht as -> ->. cbn [take_digits]. by rewrite digit_val_char.
  - destruct s as [|c s]; [done|]. cbn [take_digits] in Ht |- *.
    destruct (digit_val c) as [x|]; [|done]. by apply (IH _ _ _ _ _ Ht).
Qed.

Lemma read_zpad n : ∀ v r,
  0 <= v < 10 ^ Z.of_nat n -> take_digits n 0 (zpad n v +:+ r) = Some (v, r).
Proof.
  induction n as [|n IH]; intros v r Hv.
  { simpl in Hv. assert (v = 0) as -> by lia. done. }
  rewrite Nat2Z.inj_succ, Z.pow_succ_r in Hv by lia.
  assert (Hd : 0 <= v / 10 < 10 ^ Z.of_nat n)
    by (split; [apply Z.div_pos; lia|apply Z.div_lt_upper_bound; lia]).
  assert (Hm : 0 <= v mod 10 < 10) by (apply Z.mod_pos_bound; lia).
  cbn [zpad]. rewrite <-string_app_assoc.
  change (String (digit_char (v mod 10)) "" +:+ r) with (String (digit_char (v mod 10)) r).
  rewrite (take_digits_snoc n 0 _ _ _ _ (IH _ _ Hd) Hm). do 2 f_equal.
  rewrite (Z.div_mod v 10) at 3 by lia. lia.
Qed.

Lemma read_pad2 v r : 0 <= v < 100 -> take_digits 2 0 (zpad 2 v +:+ r) = Some (v, r).
Proof. apply (read_zpad 2). Qed.
Lemma read_pad3 v r : 0 <= v < 1000 -> take_digits 3 0 (zpad 3 v +:+ r) = Some (v, r).
Proof. apply (read_zpad 3). Qed.
Lemma read_pad4 v r : 0 <= v < 10000 -> take_digits 4 0 (zpad 4 v +:+ r) = Some (v, r).
Proof. apply (read_zpad 4). Qed.

#[local] Arguments take_digits : simpl never.
#[local] Arguments zpad : simpl never.
#[local] Arguments Z.mul : simpl never.
#[local] Arguments Z.add : simpl never.
#[local] Arguments Z.div : simpl never.
#[local] Arguments Z.modulo : simpl never.

(** *** The calendar *)

Section Calendar.
Context (doe : Z) (Hdoe : 0 <= doe < 146097).

Definition yoe_of : Z := (doe - doe / 1460 + doe / 36524 - doe / 146096) / 365.
Definition doy_of : Z := doe - (365 * yoe_of + yoe_of / 4 - yoe_of / 100).

Lemma yoe_bounds : 0 <= yoe_of < 400.
Proof using Hdoe. unfold yoe_of. Z.to_euclidean_division_equations; lia. Qed.

Lemma doy_bounds : 0 <= doy_of <= 365.
Proof using Hdoe. unfold doy_of, yoe_of. Z.to_euclidean_division_equations; lia. Qed.

(** The 366th day of a year that starts in March is the 29th of February. *)
Lemma doy_leap : doy_of = 365 ->
  (yoe_of + 1) mod 4 = 0 /\ ((yoe_of + 1) mod 100 <> 0 \/ yoe_of = 399).
Proof using Hdoe. unfold doy_of, yoe_of. intros. Z.to_euclidean_division_equations; lia. Qed.
End Calendar.

(** Month and day of the day [doy] of a year that starts in March. *)
Definition month_ok (doy : Z) : bool :=
  let mp := (5 * doy + 2) / 153 in
  let m := if mp <? 10 then mp + 3 else mp - 9 in
  let d := doy - (153 * mp + 2) / 5 + 1 in
  (0 <=? mp) && (mp <=? 11) && (1 <=? m) && (m <=? 12) && (1 <=? d) && ((m + 9) mod 12 =? mp) &&
  (d <=? (if m =? 2 then (if doy =? 365 then 29 else 28)
          else if (m =? 4) || (m =? 6) || (m =? 9) || (m =? 11) then 30 else 31)).

Lemma months_ok doy : 0 <= doy <= 365 -> month_ok doy = true.
Proof.
  assert (forallb month_ok (seqZ 0 366) = true) as Hall by (vm_compute; reflexivity).
  rewrite forallb_forall in Hall. intros H. apply Hall.
  rewrite <-list_elem_of_In, elem_of_seqZ. lia.
Qed.

Lemma is_leap_period y e : is_leap (y + e * 400) = is_leap y.
Proof.
  unfold is_leap.
  replace ((y + e * 400) mod 4) with (y mod 4) by (Z.to_euclidean_division_equations; lia).
  replace ((y + e * 400) mod 100) with (y mod 100) by (Z.to_euclidean_division_equations; lia).
  by rewrite Z.mod_add by lia.
Qed.

Lemma civil_roundtrip z :
  let c := civil_from_days z in
  days_from_civil (c_year c) (c_month c) (c_day c) = z /\
  1 <= c_month c <= 12 /\ 1 <= c_day c <= days_in_month (c_year c) (c_month c) /\ c_day c <= 31.
Proof.
  unfold civil_from_days. set (era := (z + 719468) / 146097).
  set (doe := z + 719468 - era * 146097).
  assert (Hdoe : 0 <= doe < 146097)
    by (subst doe era; Z.to_euclidean_division_equations; lia).
  fold (yoe_of doe). fold (doy_of doe).
  pose proof (yoe_bounds doe Hdoe) as Hy. pose proof (doy_leap doe Hdoe) as Hl.
  pose proof (months_ok _ (doy_bounds doe Hdoe)) as Hm.
  assert (Hdef : doy_of doe = doe - (365 * yoe_of doe + yoe_of doe / 4 - yoe_of doe / 100)) by done.
  set (yoe := yoe_of doe) in *. set (doy := doy_of doe) in *. clearbody yoe doy.
  unfold month_ok in Hm. cbv beta iota zeta delta [c_year c_month c_day].
  set (mp := (5 * doy + 2) / 153) in *. set (m := if mp <? 10 then mp + 3 else mp - 9) in *.
  set (d := doy - (153 * mp + 2) / 5 + 1) in *. bool_to_prop. split_and!; [|lia..| |].
  - unfold days_from_civil.
    set (y' := if m <=? 2 then _ else _).
    assert (Hy' : y' = yoe + era * 400) by (subst y'; destruct (m <=? 2); lia).
    rewrite Hy'. rewrite Z.div_add by lia. rewrite (Z.div_small yoe 400) by lia.
    replace ((m + 9) mod 12) with mp by done.
    replace (yoe + era * 400 - (0 + era) * 400) with yoe by lia. subst d. lia.
  - etrans; [eassumption|]. unfold days_in_month. destruct (m =? 2) eqn:E2; [|done].
    bool_to_prop. rewrite (proj2 (Z.leb_le m 2)) by lia.
    destruct (doy =? 365) eqn:Ed; [|destruct (is_leap _); lia]. bool_to_prop.
    replace (yoe + era * 400 + 1) with ((yoe + 1) + era * 400) by lia. rewrite is_leap_period.
    destruct (Hl Ed) as [Hq4 Hq]. unfold is_leap. rewrite Hq4. simpl.
    destruct Hq as [Hq| ->]; [|done].
    rewrite (proj2 (Z.eqb_neq _ _) Hq). done.
  - repeat case_match; lia.
Qed.

(** The years [datetime] knows. *)
Definition in_years (ms : Z) : Prop := 1 <= c_year (civil_from_days (ms / 86400000)) <= 9999.

Lemma expect_sep c r : expect c (String c "" +:+ r) = Some r.
Proof. change (String c "" +:+ r) with (String c r). simpl. by rewrite decide_True. Qed.

Ltac iso_step :=
  cbn [mbind option_bind];
  first [ rewrite read_pad4 by lia | rewrite read_pad2 by lia | rewrite read_pad3 by lia
        | rewrite expect_sep ].

Lemma parse_date_iso y m d r :
  1 <= y <= 9999 -> 1 <= m <= 12 -> 1 <= d <= days_in_month y m -> d <= 31 ->
  parse_date (zpad 4 y +:+ "-" +:+ zpad 2 m +:+ "-" +:+ zpad 2 d +:+ r) = Some (days_from_civil y m d, r).
Proof.
  intros Hy Hm Hday H31. unfold parse_date. repeat iso_step. cbn [mbind option_bind].
  unfold valid_date. by rewrite !(proj2 (Z.leb_le _ _)) by lia.
Qed.

Lemma parse_time_iso h mi se fr :
  0 <= h < 24 -> 0 <= mi < 60 -> 0 <= se < 60 -> 0 <= fr < 1000 ->
  parse_time (zpad 2 h +:+ ":" +:+ zpad 2 mi +:+ ":" +:+ zpad 2 se +:+
              (if fr =? 0 then "" else "." +:+ zpad 3 fr +:+ "000") +:+ "+00:00") =
  Some (h * 3600000 + mi * 60000 + se * 1000 + fr, "+00:00").
Proof.
  intros H1 H2 H3 H4. unfold parse_time. repeat iso_step. cbn [mbind option_bind].
  destruct (fr =? 0) eqn:E0; bool_to_prop.
  - subst fr. change (expect "."%char ("" +:+ "+00:00")) with (@None string). cbn [mbind option_bind].
    by rewrite !(proj2 (Z.ltb_lt _ _)) by lia.
  - rewrite <-!string_app_assoc, expect_sep. unfold parse_fraction. iso_step.
    change (skip_digits ("000" +:+ "+00:00")) with "+00:00". cbn [mbind option_bind].
    by rewrite !(proj2 (Z.ltb_lt _ _)) by lia.
Qed.

(** Every UTC time of the years 1 to 9999, to the millisecond, is read back
    from the text [isoformat] prints. *)
Theorem iso_roundtrip ms : in_years ms -> fromisoformat (isoformat ms) = Some (ms, true).
Proof.
  intros Hy. unfold fromisoformat, isoformat.
  destruct (civil_roundtrip (ms / 86400000)) as (Hd & Hm & Hday & H31). unfold in_years in Hy.
  set (c := civil_from_days (ms / 86400000)) in *. clearbody c.
  rewrite parse_date_iso by done. rewrite Hd. cbn [mbind option_bind].
  set (t := ms mod 86400000).
  assert (Ht : 0 <= t < 86400000) by (apply Z.mod_pos_bound; lia).
  assert (Hms : ms = ms / 86400000 * 86400000 + t) by (subst t; Z.to_euclidean_division_equations; lia).
  clearbody t. change (?a +:+ ?b) with (String.append a b).
  match goal with |- context [String.append "T" ?x] =>
    change (String.append "T" x) with (String "T"%char x) end. cbv iota.
  rewrite parse_time_iso by (try apply Z.mod_pos_bound; Z.to_euclidean_division_equations; lia).
  cbn [mbind option_bind]. change (parse_offset "+00:00") with (Some (Some 0)). cbn [mbind option_bind].
  do 2 f_equal. Z.to_euclidean_division_equations; lia.
Qed.

Lemma iso_roundtrip_witness : fromisoformat (isoformat 1709208000250) = Some (1709208000250, true).
Proof. apply iso_roundtrip. vm_compute. split; discriminate. Defined.
