(* ===== verification/Redis.v ===== *)
(** * Redis: the documented command semantics the platform relies on

    Redis is a service the repository only calls.  This file states what the
    platform relies on: a keyspace of typed values with expiry times, and for
    every command used under [src/] its documented effect on the addressed key
    and its reply.  A server is any implementation whose observable keyspace
    follows these equations (class [Services] in [Effects.v]); the keyspace
    itself is one such server.

    Times are milliseconds.  Sorted-set scores are doubles in Redis; every
    score the code writes is a whole number or a [time.time()] reading, so a
    score is kept as a count of thousandths ([of_int n] is the score [n]). *)

From stdpp Require Import base gmap strings list sorting.
From S2P Require Import Prelude PyValue.

Open Scope Z_scope.

(** ** The keyspace *)

Inductive rval :=
| RStr (s : string)
| RZset (z : gmap string Z)
| RHash (h : gmap string string)
| RSet (m : gset string)
| RList (l : list string).

Record rentry := REntry { re_val : rval; re_exp : option Z }.

Abbreviation keyspace := (gmap string rentry).

Definition of_int (n : Z) : Z := n * 1000.

Definition expired (now : Z) (e : rentry) : bool :=
  match re_exp e with Some t => t <=? now | None => false end.

(** The entry a command issued at [now] finds under a key. *)
Definition live (now : Z) (ks : keyspace) (k : string) : option rentry :=
  match ks !! k with
  | Some e => if expired now e then None else Some e
  | None => None
  end.

Definition put (k : string) (e : option rentry) (ks : keyspace) : keyspace :=
  match e with Some e => <[k := e]> ks | None => delete k ks end.

(** ** Sorted sets in Redis order: by score, then by member *)

Definition zle (a b : string * Z) : Prop :=
  a.2 < b.2 \/ (a.2 = b.2 /\ String.le a.1 b.1).

#[global] Instance zle_dec : RelDecision zle.
Proof. intros a b. unfold zle. apply _. Defined.

Definition zsorted (z : gmap string Z) : list (string * Z) :=
  merge_sort zle (map_to_list z).

Definition in_range (lo hi : option Z) (s : Z) : bool :=
  match lo with Some l => l <=? s | None => true end &&
  match hi with Some h => s <=? h | None => true end.

Definition zrange_by (lo hi : option Z) (z : gmap string Z) : list (string * Z) :=
  filter (λ ms, Is_true (in_range lo hi ms.2)) (zsorted z).

(** Ranks from [start] to [stop], counted from the end when negative *)
Definition rank_slice {A} (start stop : Z) (l : list A) : list A :=
  let n := Z.of_nat (length l) in
  let s := Z.max 0 (if start <? 0 then start + n else start) in
  let e := if stop <? 0 then stop + n else stop in
  take (Z.to_nat (e - s + 1)) (drop (Z.to_nat s) l).

(** ** Commands on one key *)

Inductive act : Type -> Type :=
| GET : act (option string)
| SET (v : string) (px : option Z) (nx : bool) : act bool
| DEL : act Z
| EXISTS : act Z
| TTL : act Z
| EXPIRE (sec : Z) : act Z
| PEXPIRE (ms : Z) : act Z
| INCR : act Z
| ZADD (score : Z) (m : string) : act Z
| ZREM (m : string) : act Z
| ZCARD : act Z
| ZSCORE (m : string) : act (option Z)
| ZRANK (m : string) : act (option Z)
| ZRANGEBYSCORE (lo hi : option Z) (limit : option nat) : act (list (string * Z))
| ZREMRANGEBYSCORE (lo hi : option Z) : act Z
| ZRANGE (start stop : nat) : act (list (string * Z))
| ZREVRANGE (start stop : Z) : act (list (string * Z))
| ZREMRANGEBYRANK (start stop : Z) : act Z
| HGET (f : string) : act (option string)
| HSET (fvs : list (string * string)) : act Z
| HINCRBY (f : string) (n : Z) : act Z
| HDEL (f : string) : act Z
| HGETALL : act (gmap string string)
| SADD (ms : list string) : act Z
| SREM (m : string) : act Z
| SMEMBERS : act (gset string)
| LPUSH (v : string) : act Z
| LINDEX (n : nat) : act (option string)
| LPOP : act (option string).

Definition wrongtype : exn :=
  Exn ResponseError "WRONGTYPE Operation against a key holding the wrong kind of value".

Definition not_integer : exn :=
  Exn ResponseError "ERR value is not an integer or out of range".

(** Redis removes a collection that becomes empty. *)
Definition keep (v : rval) (exp : option Z) : option rentry :=
  let empty :=
    match v with
    | RStr _ => false
    | RZset z => bool_decide (z = ∅)
    | RHash h => bool_decide (h = ∅)
    | RSet m => bool_decide (m = ∅)
    | RList l => bool_decide (l = [])
    end in
  if empty then None else Some (REntry v exp).

Definition zset_of (e : option rentry) : option (gmap string Z) :=
  match e with
  | None => Some ∅
  | Some (REntry (RZset z) _) => Some z
  | _ => None
  end.

Definition hash_of (e : option rentry) : option (gmap string string) :=
  match e with
  | None => Some ∅
  | Some (REntry (RHash h) _) => Some h
  | _ => None
  end.

Definition set_of (e : option rentry) : option (gset string) :=
  match e with
  | None => Some ∅
  | Some (REntry (RSet m) _) => Some m
  | _ => None
  end.

Definition list_of (e : option rentry) : option (list string) :=
  match e with
  | None => Some []
  | Some (REntry (RList l) _) => Some l
  | _ => None
  end.

Definition exp_of (e : option rentry) : option Z := e ≫= re_exp.

(** What a read-only or updating command on a collection does: [f] maps the
    content to the new content and the reply. *)
Definition on_zset {X} (e : option rentry) (f : gmap string Z -> gmap string Z * X) :
    option rentry * (exn + X) :=
  match zset_of e with
  | Some z => let '(z', x) := f z in (keep (RZset z') (exp_of e), inr x)
  | None => (e, inl wrongtype)
  end.

Definition on_hash {X} (e : option rentry)
    (f : gmap string string -> gmap string string * (exn + X)) :
    option rentry * (exn + X) :=
  match hash_of e with
  | Some h => let '(h', x) := f h in (keep (RHash h') (exp_of e), x)
  | None => (e, inl wrongtype)
  end.

Definition on_set {X} (e : option rentry) (f : gset string -> gset string * X) :
    option rentry * (exn + X) :=
  match set_of e with
  | Some m => let '(m', x) := f m in (keep (RSet m') (exp_of e), inr x)
  | None => (e, inl wrongtype)
  end.

Definition on_list {X} (e : option rentry) (f : list string -> list string * X) :
    option rentry * (exn + X) :=
  match list_of e with
  | Some l => let '(l', x) := f l in (keep (RList l') (exp_of e), inr x)
  | None => (e, inl wrongtype)
  end.

(** A read leaves the entry alone. *)
Definition read_zset {X} (e : option rentry) (f : gmap string Z -> X) : option rentry * (exn + X) :=
  (e, match zset_of e with Some z => inr (f z) | None => inl wrongtype end).

Definition read_hash {X} (e : option rentry) (f : gmap string string -> X) :
    option rentry * (exn + X) :=
  (e, match hash_of e with Some h => inr (f h) | None => inl wrongtype end).

Definition read_set {X} (e : option rentry) (f : gset string -> X) : option rentry * (exn + X) :=
  (e, match set_of e with Some m => inr (f m) | None => inl wrongtype end).

Definition read_list {X} (e : option rentry) (f : list string -> X) : option rentry * (exn + X) :=
  (e, match list_of e with Some l => inr (f l) | None => inl wrongtype end).

Definition zflag {A} (o : option A) : Z := match o with Some _ => 1 | None => 0 end.

Definition set_expiry (now ms : Z) (e : option rentry) : option rentry * (exn + Z) :=
  match e with
  | None => (None, inr 0)
  | Some (REntry v _) =>
      if ms <=? 0 then (None, inr 1) else (Some (REntry v (Some (now + ms))), inr 1)
  end.

(** The effect of a command on the live entry of its key, and its reply. *)
Definition act_doc (now : Z) {X} (a : act X) :
    option rentry -> option rentry * (exn + X) :=
  match a in act X return option rentry -> option rentry * (exn + X) with
  | GET => λ e,
      match e with
      | None => (e, inr None)
      | Some (REntry (RStr s) _) => (e, inr (Some s))
      | _ => (e, inl wrongtype)
      end
  | SET v px nx => λ e,
      match e with
      | Some _ => if nx then (e, inr false)
                  else (Some (REntry (RStr v) ((λ d, now + d) <$> px)), inr true)
      | None => (Some (REntry (RStr v) ((λ d, now + d) <$> px)), inr true)
      end
  | DEL => λ e, (None, inr (zflag e))
  | EXISTS => λ e, (e, inr (zflag e))
  | TTL => λ e,
      (e, inr (match e with
               | None => -2
               | Some (REntry _ None) => -1
               | Some (REntry _ (Some t)) => (t - now + 500) / 1000
               end))
  | EXPIRE sec => set_expiry now (sec * 1000)
  | PEXPIRE ms => set_expiry now ms
  | INCR => λ e,
      match e with
      | None => (Some (REntry (RStr (dec_of_Z 1)) None), inr 1)
      | Some (REntry (RStr s) t) =>
          match Z_of_dec s with
          | Some n => (Some (REntry (RStr (dec_of_Z (n + 1))) t), inr (n + 1))
          | None => (e, inl not_integer)
          end
      | _ => (e, inl wrongtype)
      end
  | ZADD s m => λ e, on_zset e (λ z, (<[m := s]> z, 1 - zflag (z !! m)))
  | ZREM m => λ e, on_zset e (λ z, (delete m z, zflag (z !! m)))
  | ZCARD => λ e, read_zset e (λ z, Z.of_nat (size z))
  | ZSCORE m => λ e, read_zset e (λ z, z !! m)
  | ZRANK m => λ e, read_zset e (λ z, Z.of_nat ∘ fst <$> list_find (λ ms, ms.1 = m) (zsorted z))
  | ZRANGEBYSCORE lo hi lim => λ e,
      read_zset e (λ z,
        match lim with
        | Some n => take n (zrange_by lo hi z)
        | None => zrange_by lo hi z
        end)
  | ZREMRANGEBYSCORE lo hi => λ e,
      on_zset e (λ z,
        (filter (λ ms : string * Z, ~ Is_true (in_range lo hi ms.2)) z,
         Z.of_nat (length (zrange_by lo hi z))))
  | ZRANGE i j => λ e, read_zset e (λ z, take (S j - i) (drop i (zsorted z)))
  | ZREVRANGE i j => λ e, read_zset e (λ z, rank_slice i j (reverse (zsorted z)))
  | ZREMRANGEBYRANK i j => λ e,
      on_zset e (λ z,
        (foldr (λ ms z, delete ms.1 z) z (rank_slice i j (zsorted z)),
         Z.of_nat (length (rank_slice i j (zsorted z)))))
  | HGET f => λ e, read_hash e (λ h, h !! f)
  | HSET fvs => λ e,
      on_hash e (λ h,
        (foldl (λ h fv, <[fv.1 := fv.2]> h) h fvs,
         inr (Z.of_nat (length (filter (λ fv : string * string, h !! fv.1 = None) fvs)))))
  | HINCRBY f n => λ e,
      on_hash e (λ h,
        match h !! f with
        | None => (<[f := dec_of_Z n]> h, inr n)
        | Some s =>
            match Z_of_dec s with
            | Some m => (<[f := dec_of_Z (m + n)]> h, inr (m + n))
            | None => (h, inl not_integer)
            end
        end)
  | HDEL f => λ e, on_hash e (λ h, (delete f h, inr (zflag (h !! f))))
  | HGETALL => λ e, read_hash e (λ h, h)
  | SADD ms => λ e,
      on_set e (λ m, (m ∪ list_to_set ms, Z.of_nat (size ((list_to_set ms : gset string) ∖ m))))
  | SREM x => λ e, on_set e (λ m, (m ∖ {[x]}, if decide (x ∈ m) then 1 else 0))
  | SMEMBERS => λ e, read_set e (λ m, m)
  | LPUSH v => λ e, on_list e (λ l, (v :: l, Z.of_nat (S (length l))))
  | LINDEX n => λ e, read_list e (λ l, l !! n)
  | LPOP => λ e, on_list e (λ l, (tail l, head l))
  end.

(** ** Commands, and atomic command sequences (Lua scripts and [MULTI]
    pipelines) *)

Inductive rcmd : Type -> Type :=
| Key {X} (k : string) (a : act X) : rcmd X
| Keys (pattern : string -> bool) : rcmd (list string).

Definition rcmd_doc (now : Z) {X} (c : rcmd X) : keyspace -> keyspace * (exn + X) :=
  match c in rcmd X return keyspace -> keyspace * (exn + X) with
  | Key k a => λ ks,
      let '(e, x) := act_doc now a (live now ks k) in (put k e ks, x)
  | Keys p => λ ks,
      (ks, inr (filter (λ k, Is_true (p k) /\ live now ks k <> None) (map_to_list ks).*1))
  end.

(** A Lua script or a [MULTI] pipeline: its commands in order.  [LCall] hands
    the reply, error replies included, to the rest; [call] is [redis.call],
    which raises on an error reply and so aborts the script, keeping the writes
    already made. *)
Inductive lua (A : Type) : Type :=
| LRet (a : A)
| LFail (e : exn)
| LCall {X} (c : rcmd X) (k : exn + X -> lua A).
Arguments LRet {_}.
Arguments LFail {_}.
Arguments LCall {_ _}.

Fixpoint lua_bind {A B} (m : lua A) (f : A -> lua B) : lua B :=
  match m with
  | LRet a => f a
  | LFail e => LFail e
  | LCall c k => LCall c (λ x, lua_bind (k x) f)
  end.

Definition lua_raise {X} (r : exn + X) : lua X :=
  match r with inr x => LRet x | inl e => LFail e end.

Definition pcall {X} (k : string) (a : act X) : lua (exn + X) := LCall (Key k a) LRet.

Definition call {X} (k : string) (a : act X) : lua X := LCall (Key k a) lua_raise.

Fixpoint lua_run (now : Z) {A} (m : lua A) (ks : keyspace) : keyspace * (exn + A) :=
  match m with
  | LRet a => (ks, inr a)
  | LFail e => (ks, inl e)
  | LCall c k => let '(ks', r) := rcmd_doc now c ks in lua_run now (k r) ks'
  end.

(** A pipeline executes every queued command and then raises the first error
    ([Pipeline.execute] of redis-py with [transaction=True]). *)
Fixpoint pipe_all {X} (cs : list (string * act X)) : lua (list (exn + X)) :=
  match cs with
  | [] => LRet []
  | (k, a) :: cs' =>
      lua_bind (pcall k a) (λ r, lua_bind (pipe_all cs') (λ rs, LRet (r :: rs)))
  end.

Fixpoint first_error {X} (rs : list (exn + X)) : exn + list X :=
  match rs with
  | [] => inr []
  | inl e :: _ => inl e
  | inr x :: rs' => match first_error rs' with inr xs => inr (x :: xs) | inl e => inl e end
  end.

(** [pipe = r.pipeline(); ...; await pipe.execute()] for commands of one reply
    type. *)
Definition pipeline {X} (cs : list (string * act X)) : lua (list X) :=
  lua_bind (pipe_all cs) (λ rs, lua_raise (first_error rs)).

Declare Scope lua_scope.
Delimit Scope lua_scope with lua.
Notation "'let+' x := m 'in' k" := (lua_bind m (λ x, k))
  (at level 200, x binder, m at level 200, k at level 200) : lua_scope.
Notation "'do+' m 'in' k" := (lua_bind m (λ _, k))
  (at level 200, m at level 200, k at level 200) : lua_scope.

(** Lua's [tonumber] on the decimal integers Redis hashes hold. *)
Definition tonumber (s : string) : option Z := Z_of_dec s.

(** ** Observations: what a key holds at a given time (empty when absent or of
    another type) *)

Definition zset_at (now : Z) (ks : keyspace) (k : string) : gmap string Z :=
  default ∅ (zset_of (live now ks k)).

Definition hash_at (now : Z) (ks : keyspace) (k : string) : gmap string string :=
  default ∅ (hash_of (live now ks k)).

Definition set_at (now : Z) (ks : keyspace) (k : string) : gset string :=
  default ∅ (set_of (live now ks k)).

Definition str_at (now : Z) (ks : keyspace) (k : string) : option string :=
  match live now ks k with Some (REntry (RStr s) _) => Some s | _ => None end.

(** The key is free for, or already holds, a value of the given kind. *)
Definition is_zset (now : Z) (ks : keyspace) (k : string) : Prop :=
  zset_of (live now ks k) = Some (zset_at now ks k).
Definition is_hash (now : Z) (ks : keyspace) (k : string) : Prop :=
  hash_of (live now ks k) = Some (hash_at now ks k).
Definition is_set (now : Z) (ks : keyspace) (k : string) : Prop :=
  set_of (live now ks k) = Some (set_at now ks k).
Definition is_str (now : Z) (ks : keyspace) (k : string) : Prop :=
  match live now ks k with
  | None | Some (REntry (RStr _) _) => True
  | _ => False
  end.

(** ** Lemmas *)

#[global] Opaque act_doc.
#[global] Arguments put : simpl never.
#[global] Arguments call : simpl never.
#[global] Arguments pcall : simpl never.
#[global] Arguments lua_bind : simpl never.
#[global] Arguments lua_run : simpl never.
#[global] Arguments live : simpl never.

(** An entry a command may leave: absent, or not yet expired. *)
Definition fresh (now : Z) (e : option rentry) : Prop :=
  match e with Some e => expired now e = false | None => True end.

Section Frame.
Implicit Types (now : Z) (ks : keyspace) (k : string) (e : option rentry).

Lemma live_fresh now ks k : fresh now (live now ks k).
Proof. unfold live, fresh. repeat case_match; naive_solver. Qed.

Lemma live_put_eq now k e ks : fresh now e -> live now (put k e ks) k = e.
Proof.
  unfold live, put, fresh. destruct e; intros H; simplify_map_eq; [|done].
  by rewrite H.
Qed.

Lemma live_put_ne now k k' e ks : k <> k' -> live now (put k e ks) k' = live now ks k'.
Proof. intros. unfold live, put. destruct e; by simplify_map_eq. Qed.

Lemma live_put_read now ks k k' : live now (put k (live now ks k) ks) k' = live now ks k'.
Proof.
  destruct (decide (k = k')) as [<-|Hne].
  - apply live_put_eq, live_fresh.
  - by apply live_put_ne.
Qed.

Lemma live_later now now' ks k :
  now <= now' -> live now' ks k =
  match live now ks k with
  | Some e => if expired now' e then None else Some e
  | None => None
  end.
Proof.
  intros L. unfold live. destruct (ks !! k) as [e|]; [|done].
  destruct (expired now e) eqn:E1; [|done].
  unfold expired in *. destruct (re_exp e); [|done]. bool_to_prop.
  by rewrite (proj2 (Z.leb_le _ _)) by lia.
Qed.

Lemma lookup_put_ne k k' e ks : k <> k' -> put k e ks !! k' = ks !! k'.
Proof. unfold put. intros. destruct e; by simplify_map_eq. Qed.

Lemma lookup_put_eq k e ks : put k e ks !! k = e.
Proof. unfold put. destruct e; [apply lookup_insert_eq|apply lookup_delete_eq]. Qed.

Lemma put_put k e e' ks : put k e (put k e' ks) = put k e ks.
Proof.
  destruct e, e'; simpl.
  - apply insert_insert_eq.
  - apply insert_delete_eq.
  - apply delete_insert_eq.
  - apply delete_delete_eq.
Qed.

Lemma fresh_keep now v e : fresh now e -> fresh now (keep v (exp_of e)).
Proof.
  unfold keep, exp_of. intros H.
  match goal with |- context [if ?b then _ else _] => destruct b end; [done|].
  by destruct e as [[w t]|].
Qed.

Lemma lua_run_call now {X A} k (a : act X) (f : X -> lua A) ks :
  lua_run now (lua_bind (call k a) f) ks =
  match act_doc now a (live now ks k) with
  | (e, inr x) => lua_run now (f x) (put k e ks)
  | (e, inl err) => (put k e ks, inl err)
  end.
Proof.
  unfold call. cbv beta iota delta [lua_bind lua_run rcmd_doc].
  destruct (act_doc now a (live now ks k)) as [e [err|x]]; done.
Qed.

Lemma lua_run_call1 now {X} k (a : act X) ks :
  lua_run now (call k a) ks =
  let '(e, r) := act_doc now a (live now ks k) in (put k e ks, r).
Proof.
  unfold call. cbv beta iota delta [lua_bind lua_run rcmd_doc].
  destruct (act_doc now a (live now ks k)) as [e [err|x]]; done.
Qed.

Lemma lua_run_bind now {A B} (m : lua A) (f : A -> lua B) ks :
  lua_run now (lua_bind m f) ks =
  match lua_run now m ks with
  | (ks', inr a) => lua_run now (f a) ks'
  | (ks', inl err) => (ks', inl err)
  end.
Proof.
  revert ks. induction m as [a|err|X c k IH]; intros ks; [done..|].
  change (lua_bind (LCall c k) f) with (LCall c (λ x, lua_bind (k x) f)).
  unfold lua_run; fold @lua_run. destruct (rcmd_doc now c ks) as [ks' r]. apply IH.
Qed.

(** *** Pipelines: the commands one after the other *)
Fixpoint pipe_run now {X} (cs : list (string * act X)) ks : keyspace * list (exn + X) :=
  match cs with
  | [] => (ks, [])
  | (k, a) :: cs' =>
      let '(e, r) := act_doc now a (live now ks k) in
      let '(ks', rs) := pipe_run now cs' (put k e ks) in (ks', r :: rs)
  end.

Lemma lua_run_pipe_all now {X} (cs : list (string * act X)) ks :
  lua_run now (pipe_all cs) ks = let '(ks', rs) := pipe_run now cs ks in (ks', inr rs).
Proof.
  revert ks. induction cs as [|[k a] cs IH]; intros ks; [done|].
  simpl pipe_all. rewrite lua_run_bind. unfold pcall.
  cbv beta iota delta [lua_run rcmd_doc]; fold @lua_run. simpl pipe_run.
  destruct (act_doc now a (live now ks k)) as [e r].
  rewrite lua_run_bind, IH. by destruct (pipe_run now cs (put k e ks)).
Qed.

Lemma lua_run_pipeline now {X} (cs : list (string * act X)) ks :
  lua_run now (pipeline cs) ks = let '(ks', rs) := pipe_run now cs ks in (ks', first_error rs).
Proof.
  unfold pipeline. rewrite lua_run_bind, lua_run_pipe_all.
  destruct (pipe_run now cs ks) as [ks' rs]. by destruct (first_error rs).
Qed.

(** *** Contents of a collection after [keep] *)
Lemma zset_of_keep z t : zset_of (keep (RZset z) t) = Some z.
Proof. unfold keep. case_bool_decide; simplify_eq/=; done. Qed.
Lemma hash_of_keep h t : hash_of (keep (RHash h) t) = Some h.
Proof. unfold keep. case_bool_decide; simplify_eq/=; done. Qed.
Lemma set_of_keep m t : set_of (keep (RSet m) t) = Some m.
Proof. unfold keep. case_bool_decide; simplify_eq/=; done. Qed.
Lemma list_of_keep l t : list_of (keep (RList l) t) = Some l.
Proof. unfold keep. case_bool_decide; simplify_eq/=; done. Qed.

Lemma zset_of_is e z : zset_of e = Some z -> e = keep (RZset z) (exp_of e) \/ z = ∅.
Proof.
  destruct e as [[[] t]|]; simpl; intros; simplify_eq; [|by right].
  unfold keep. case_bool_decide; [by right|by left].
Qed.
End Frame.

(** Replies and effects of the commands on a key of the right type. *)
Section Replies.
Context (now : Z).
Implicit Types (e : option rentry).

Lemma act_ZADD e z s m : zset_of e = Some z ->
  act_doc now (ZADD s m) e = (keep (RZset (<[m := s]> z)) (exp_of e), inr (1 - zflag (z !! m))).
Proof. Transparent act_doc. simpl. unfold on_zset. by intros ->. Qed.
Lemma act_ZREM e z m : zset_of e = Some z ->
  act_doc now (ZREM m) e = (keep (RZset (delete m z)) (exp_of e), inr (zflag (z !! m))).
Proof. simpl. unfold on_zset. by intros ->. Qed.
Lemma act_ZCARD e z : zset_of e = Some z ->
  act_doc now ZCARD e = (e, inr (Z.of_nat (size z))).
Proof. simpl. unfold read_zset. by intros ->. Qed.
Lemma act_ZSCORE e z m : zset_of e = Some z ->
  act_doc now (ZSCORE m) e = (e, inr (z !! m)).
Proof. simpl. unfold read_zset. by intros ->. Qed.
Lemma act_ZRANGEBYSCORE e z lo hi n : zset_of e = Some z ->
  act_doc now (ZRANGEBYSCORE lo hi (Some n)) e =
  (e, inr (take n (zrange_by lo hi z))).
Proof. simpl. unfold read_zset. by intros ->. Qed.
Lemma act_ZRANGEBYSCORE_all e z lo hi : zset_of e = Some z ->
  act_doc now (ZRANGEBYSCORE lo hi None) e =
  (e, inr (zrange_by lo hi z)).
Proof. simpl. unfold read_zset. by intros ->. Qed.
Lemma act_ZREMRANGEBYSCORE e z lo hi : zset_of e = Some z ->
  exists n, act_doc now (ZREMRANGEBYSCORE lo hi) e =
  (keep (RZset (filter (λ ms : string * Z, ~ Is_true (in_range lo hi ms.2)) z)) (exp_of e), inr n).
Proof. simpl. unfold on_zset. intros ->. eexists. done. Qed.
Lemma act_ZRANGE e z i j : zset_of e = Some z ->
  act_doc now (ZRANGE i j) e = (e, inr (take (S j - i) (drop i (zsorted z)))).
Proof. simpl. unfold read_zset. by intros ->. Qed.
Lemma act_ZREVRANGE e z i j : zset_of e = Some z ->
  act_doc now (ZREVRANGE i j) e = (e, inr (rank_slice i j (reverse (zsorted z)))).
Proof. simpl. unfold read_zset. by intros ->. Qed.
Lemma act_ZREMRANGEBYRANK e z i j : zset_of e = Some z ->
  exists n, act_doc now (ZREMRANGEBYRANK i j) e =
  (keep (RZset (foldr (λ ms z, delete ms.1 z) z (rank_slice i j (zsorted z)))) (exp_of e), inr n).
Proof. simpl. unfold on_zset. intros ->. eexists. done. Qed.
Lemma act_HGET e h f : hash_of e = Some h ->
  act_doc now (HGET f) e = (e, inr (h !! f)).
Proof. simpl. unfold read_hash. by intros ->. Qed.
Lemma act_HSET1 e h f v : hash_of e = Some h ->
  exists n, act_doc now (HSET [(f, v)]) e = (keep (RHash (<[f := v]> h)) (exp_of e), inr n).
Proof. simpl. unfold on_hash. intros ->. eexists. done. Qed.
Lemma act_HDEL e h f : hash_of e = Some h ->
  act_doc now (HDEL f) e = (keep (RHash (delete f h)) (exp_of e), inr (zflag (h !! f))).
Proof. simpl. unfold on_hash. by intros ->. Qed.
Lemma act_HSET e h fvs : hash_of e = Some h ->
  exists n, act_doc now (HSET fvs) e =
  (keep (RHash (foldl (λ h fv, <[fv.1 := fv.2]> h) h fvs)) (exp_of e), inr n).
Proof. simpl. unfold on_hash. intros ->. eexists. done. Qed.
Lemma act_HGETALL e h : hash_of e = Some h ->
  act_doc now HGETALL e = (e, inr h).
Proof. simpl. unfold read_hash. by intros ->. Qed.
Lemma act_SADD e m ms : set_of e = Some m ->
  exists n, act_doc now (SADD ms) e = (keep (RSet (m ∪ list_to_set ms)) (exp_of e), inr n).
Proof. simpl. unfold on_set. intros ->. eexists. done. Qed.
Lemma act_SREM e m x : set_of e = Some m ->
  act_doc now (SREM x) e =
  (keep (RSet (m ∖ {[x]})) (exp_of e), inr (if decide (x ∈ m) then 1 else 0)).
Proof. simpl. unfold on_set. by intros ->. Qed.
Lemma act_SMEMBERS e m : set_of e = Some m ->
  act_doc now SMEMBERS e = (e, inr m).
Proof. simpl. unfold read_set. by intros ->. Qed.

(** The value a counter field holds: absent counts as zero. *)
Definition counter (h : gmap string string) (f : string) : option Z :=
  match h !! f with None => Some 0 | Some s => Z_of_dec s end.

Lemma act_HINCRBY e h f n c : hash_of e = Some h -> counter h f = Some c ->
  act_doc now (HINCRBY f n) e = (keep (RHash (<[f := dec_of_Z (c + n)]> h)) (exp_of e), inr (c + n)).
Proof.
  simpl. unfold on_hash, counter. intros -> Hc.
  destruct (h !! f) as [s|]; simplify_eq; rewrite ?Hc; [done|]. by rewrite Z.add_0_l.
Qed.

Lemma act_GET e : is_Some e -> act_doc now GET e =
  (e, match e with Some (REntry (RStr s) _) => inr (Some s) | _ => inl wrongtype end).
Proof. by intros [[[] t] ->]. Qed.
Lemma act_GET_none : act_doc now GET None = (None, inr None).
Proof. done. Qed.
Lemma act_GET_str s t :
  act_doc now GET (Some (REntry (RStr s) t)) = (Some (REntry (RStr s) t), inr (Some s)).
Proof. done. Qed.
Lemma act_SET e v px : 
  act_doc now (SET v px false) e = (Some (REntry (RStr v) ((λ d, now + d) <$> px)), inr true).
Proof. by destruct e. Qed.
Lemma act_SETNX_some e v px : is_Some e -> act_doc now (SET v px true) e = (e, inr false).
Proof. by intros [? ->]. Qed.
Lemma act_SETNX_none v px :
  act_doc now (SET v px true) None = (Some (REntry (RStr v) ((λ d, now + d) <$> px)), inr true).
Proof. done. Qed.
Lemma act_DEL e : act_doc now DEL e = (None, inr (zflag e)).
Proof. done. Qed.
Lemma act_EXISTS e : act_doc now EXISTS e = (e, inr (zflag e)).
Proof. done. Qed.
Lemma act_EXPIRE e s : act_doc now (EXPIRE s) e = set_expiry now (s * 1000) e.
Proof. done. Qed.
Lemma act_PEXPIRE e s : act_doc now (PEXPIRE s) e = set_expiry now s e.
Proof. done. Qed.
Lemma act_TTL e : act_doc now TTL e =
  (e, inr (match e with
           | None => -2
           | Some (REntry _ None) => -1
           | Some (REntry _ (Some t)) => (t - now + 500) / 1000
           end)).
Proof. done. Qed.
Opaque act_doc.
End Replies.

(** Reduce the match on a command's known outcome. *)
Ltac lua_beta := cbv beta iota zeta; cbn [from_option id].

(** *** Sorted sets *)

#[global] Instance zle_trans : Transitive zle.
Proof.
  intros [m1 s1] [m2 s2] [m3 s3]. unfold zle; simpl.
  intros [?|[-> H1]] [?|[-> H2]]; try (left; lia). right. split; [done|]. by etrans.
Qed.

#[global] Instance zle_total : Total zle.
Proof.
  intros [m1 s1] [m2 s2]. unfold zle; simpl.
  destruct (Z.lt_trichotomy s1 s2) as [?|[->|?]]; [by left; left| |by right; left].
  destruct (total String.le m1 m2); [left|right]; by right.
Qed.

Lemma zsorted_perm z : zsorted z ≡ₚ map_to_list z.
Proof. apply merge_sort_Permutation. Qed.

Lemma zsorted_sorted z : StronglySorted zle (zsorted z).
Proof. apply StronglySorted_merge_sort; apply _. Qed.

Lemma elem_of_zsorted z m s : (m, s) ∈ zsorted z <-> z !! m = Some s.
Proof. rewrite zsorted_perm. apply elem_of_map_to_list. Qed.

Lemma length_zsorted z : length (zsorted z) = size z.
Proof. by rewrite zsorted_perm, length_map_to_list. Qed.

Lemma zrange_by_all z : zrange_by None None z = zsorted z.
Proof.
  unfold zrange_by. generalize (zsorted z). intros l.
  induction l as [|x l IH]; [done|]. rewrite filter_cons_True by done. by rewrite IH.
Qed.

Lemma elem_of_zrange_by lo hi z m s :
  (m, s) ∈ zrange_by lo hi z <-> z !! m = Some s /\ in_range lo hi s.
Proof. unfold zrange_by. rewrite list_elem_of_filter, elem_of_zsorted. simpl. tauto. Qed.

Lemma StronglySorted_split {A} (R : relation A) (l1 : list A) x l2 :
  StronglySorted R (l1 ++ x :: l2) -> Forall (R x) l2.
Proof.
  induction l1 as [|y l1 IH]; simpl; inversion 1; subst; [done|]. by apply IH.
Qed.

(** *** Contents of a key, and what the commands do to them *)

Definition Zs (now : Z) (ks : keyspace) (k : string) (z : gmap string Z) : Prop :=
  zset_of (live now ks k) = Some z.
Definition Hs (now : Z) (ks : keyspace) (k : string) (h : gmap string string) : Prop :=
  hash_of (live now ks k) = Some h.

(** Simplify what a key holds after a chain of writes; key disequalities come
    from the hint database. *)
Ltac live_simp :=
  repeat first
    [ rewrite live_put_read
    | rewrite live_put_eq by
        (first [ assumption | apply live_fresh | done
               | apply fresh_keep; first [ apply live_fresh | assumption ] ])
    | rewrite live_put_ne by (first [ assumption | apply not_eq_sym; assumption
                                    | by auto with sched
                                    | apply not_eq_sym; by auto with sched ]) ].
