(* ===== verification/TaskModel.v ===== *)
(** * Task domain model and lifecycle state machine

    [src/models/task.py] (statuses, priorities) and
    [src/platform/task_state_machine.py] (events, the [_ALLOWED] table and
    [TaskStateMachine.transition]). *)

From stdpp Require Import base strings list relations.
From S2P Require Import Prelude PyValue.

Inductive TaskStatus :=
| PENDING | SCHEDULED | QUEUED | RUNNING | COMPLETED | FAILED | CANCELLED.

Inductive TaskPriority := VERY_HIGH | HIGH | NORMAL | LOW | TIDE.

Inductive TaskEvent :=
| CREATE | SCHEDULE | ENQUEUE | START | COMPLETE | FAIL | CANCEL | REQUEUE | STALE_FAIL.

#[global] Instance TaskStatus_eq_dec : EqDecision TaskStatus.
Proof. solve_decision. Defined.
#[global] Instance TaskPriority_eq_dec : EqDecision TaskPriority.
Proof. solve_decision. Defined.
#[global] Instance TaskEvent_eq_dec : EqDecision TaskEvent.
Proof. solve_decision. Defined.

(** The enum members' [.value]. *)
Definition status_value (s : TaskStatus) : string :=
  match s with
  | PENDING => "pending" | SCHEDULED => "scheduled" | QUEUED => "queued"
  | RUNNING => "running" | COMPLETED => "completed" | FAILED => "failed"
  | CANCELLED => "cancelled"
  end.

Definition all_statuses : list TaskStatus :=
  [PENDING; SCHEDULED; QUEUED; RUNNING; COMPLETED; FAILED; CANCELLED].

(** [TaskStatus(s)]; [None] is Python's [ValueError]. *)
Definition status_of_value (s : string) : option TaskStatus :=
  list_find (λ st, status_value st = s) all_statuses ≫= λ p, Some p.2.

Definition priority_value (p : TaskPriority) : string :=
  match p with
  | VERY_HIGH => "very_high" | HIGH => "high" | NORMAL => "normal"
  | LOW => "low" | TIDE => "tide"
  end.

Definition all_priorities : list TaskPriority := [VERY_HIGH; HIGH; NORMAL; LOW; TIDE].

Definition priority_of_value (s : string) : option TaskPriority :=
  list_find (λ p, priority_value p = s) all_priorities ≫= λ p, Some p.2.

(** [TaskPriority.weight] *)
Definition weight (p : TaskPriority) : Z :=
  match p with VERY_HIGH => 1 | HIGH => 2 | NORMAL => 3 | LOW => 4 | TIDE => 5 end.

Definition event_value (e : TaskEvent) : string :=
  match e with
  | CREATE => "create" | SCHEDULE => "schedule" | ENQUEUE => "enqueue"
  | START => "start" | COMPLETE => "complete" | FAIL => "fail"
  | CANCEL => "cancel" | REQUEUE => "requeue" | STALE_FAIL => "stale_fail"
  end.

(** ** The transition table *)

Definition ALLOWED : list ((TaskStatus * TaskEvent) * TaskStatus) :=
  [((PENDING, SCHEDULE), SCHEDULED);
   ((PENDING, ENQUEUE), QUEUED);
   ((SCHEDULED, ENQUEUE), QUEUED);
   ((QUEUED, START), RUNNING);
   ((RUNNING, COMPLETE), COMPLETED);
   ((RUNNING, FAIL), FAILED);
   ((RUNNING, STALE_FAIL), FAILED);
   ((RUNNING, REQUEUE), QUEUED);
   ((QUEUED, CANCEL), CANCELLED)].

Definition allowed_get (s : TaskStatus) (e : TaskEvent) : option TaskStatus :=
  list_find (λ row, row.1 = (s, e)) ALLOWED ≫= λ p, Some p.2.2.

Record TransitionResult :=
  { previous : TaskStatus; event : TaskEvent; current : TaskStatus }.

Definition transition (cur : TaskStatus) (e : TaskEvent) : exn + TransitionResult :=
  match allowed_get cur e with
  | None =>
      inl (Exn InvalidTaskTransition
             ("illegal task transition: " +:+ status_value cur +:+ " --" +:+
              event_value e +:+ "--> ?"))
  | Some nxt => inr {| previous := cur; event := e; current := nxt |}
  end.

(** ** The lifecycle as a relation *)

(** One legal step of a task's status. *)
Inductive lifecycle : TaskStatus -> TaskEvent -> TaskStatus -> Prop :=
| lc_schedule : lifecycle PENDING SCHEDULE SCHEDULED
| lc_enqueue_pending : lifecycle PENDING ENQUEUE QUEUED
| lc_enqueue_scheduled : lifecycle SCHEDULED ENQUEUE QUEUED
| lc_start : lifecycle QUEUED START RUNNING
| lc_complete : lifecycle RUNNING COMPLETE COMPLETED
| lc_fail : lifecycle RUNNING FAIL FAILED
| lc_stale : lifecycle RUNNING STALE_FAIL FAILED
| lc_requeue : lifecycle RUNNING REQUEUE QUEUED
| lc_cancel : lifecycle QUEUED CANCEL CANCELLED.

(** A task history: the statuses after each event, from a start status. *)
Inductive history : TaskStatus -> list (TaskEvent * TaskStatus) -> TaskStatus -> Prop :=
| hist_nil s : history s [] s
| hist_cons s e s' h t r :
    transition s e = inr r -> current r = s' -> history s' h t ->
    history s ((e, s') :: h) t.

Definition terminal (s : TaskStatus) : bool :=
  match s with COMPLETED | FAILED | CANCELLED => true | _ => false end.

(** Every event sequence driven through [transition], stopping at the first
    illegal one. *)
Fixpoint drive (s : TaskStatus) (es : list TaskEvent) : exn + TaskStatus :=
  match es with
  | [] => inr s
  | e :: es' =>
      match transition s e with
      | inr r => drive (current r) es'
      | inl x => inl x
      end
  end.

(** ** Lemmas *)

Lemma status_of_value_of s : status_of_value (status_value s) = Some s.
Proof. by destruct s. Qed.

Lemma status_value_inj : Inj (=) (=) status_value.
Proof. intros x y E. apply (f_equal status_of_value) in E.
  rewrite !status_of_value_of in E. by simplify_eq. Qed.

Lemma priority_of_value_of p : priority_of_value (priority_value p) = Some p.
Proof. by destruct p. Qed.

Lemma transition_lifecycle s e r :
  transition s e = inr r <->
  lifecycle s e (current r) /\ previous r = s /\ event r = e.
Proof.
  split.
  - destruct s, e; vm_compute; intros E; simplify_eq/=; repeat split; constructor.
  - destruct r as [p ev c]; simpl. intros ([] & -> & ->); reflexivity.
Qed.

Lemma terminal_stuck s e : terminal s -> exists x, transition s e = inl x.
Proof. destruct s; simpl; try done; intros _; destruct e; eexists; vm_compute; reflexivity. Qed.

Lemma drive_history s es t :
  drive s es = inr t <-> exists h, history s h t /\ h.*1 = es.
Proof.
  split.
  - revert s. induction es as [|e es IH]; simpl; intros s E.
    + simplify_eq. exists []. split; [constructor|done].
    + destruct (transition s e) as [x|r] eqn:T; [done|].
      destruct (IH _ E) as (h & Hh & <-). exists ((e, current r) :: h).
      split; [econstructor; eauto | done].
  - intros (h & Hh & <-). induction Hh as [|s e s' h t r T <- _ IH]; simpl; [done|].
    by rewrite T.
Qed.

(** Where a task ends without having run: never [COMPLETED] or [FAILED]. *)
Lemma history_no_start s h t :
  history s h t -> START ∉ h.*1 -> s <> RUNNING -> s <> COMPLETED -> s <> FAILED ->
  t <> RUNNING /\ t <> COMPLETED /\ t <> FAILED.
Proof.
  intros Hh. induction Hh as [s|s e s' h t r T <- Hh IH]; simpl; intros Hn H1 H2 H3; [done|].
  apply not_elem_of_cons in Hn as [Hne Hn].
  apply transition_lifecycle in T as (L & _ & _).
  apply IH; [done|..]; by destruct L.
Qed.

(** Lifecycle progress: a status that has no exit is terminal. *)
Lemma nonterminal_progress s : terminal s = false -> exists e s', lifecycle s e s'.
Proof. destruct s; intros; try done; do 2 eexists; constructor. Qed.

#[export] Hint Constructors lifecycle history : sched.
#[export] Hint Resolve terminal_stuck : sched.

Lemma drive_app s es1 es2 :
  drive s (es1 ++ es2) = match drive s es1 with inr t => drive t es2 | inl x => inl x end.
Proof.
  revert s. induction es1 as [|e es1 IH]; intros s; simpl; [done|].
  destruct (transition s e); [done|apply IH].
Qed.

(** ** Properties *)

(** The state machine admits exactly the documented lifecycle.  Every event
    of an accepted sequence is a legal step out of a status that is not final; a
    task that ends [COMPLETED] or [FAILED] was started; nothing is accepted after
    a final status. *)
Theorem task_lifecycle (es : list TaskEvent) (t : TaskStatus) (H : drive PENDING es = inr t) :
  (∀ pre e post, es = pre ++ e :: post -> exists s s',
     drive PENDING pre = inr s /\ lifecycle s e s' /\ drive PENDING (pre ++ [e]) = inr s' /\
     terminal s = false) /\
  (t = COMPLETED \/ t = FAILED -> START ∈ es) /\
  (terminal t -> ∀ e, exists x, drive PENDING (es ++ [e]) = inl x).
Proof.
  split; [|split].
  - intros pre e post ->. rewrite drive_app in H. destruct (drive PENDING pre) as [x|s] eqn:Hp; [done|].
    simpl in H. destruct (transition s e) as [x|r] eqn:Ht; [done|].
    exists s, (current r). pose proof (proj1 (transition_lifecycle _ _ _) Ht) as (L & _ & _).
    split; [done|]. split; [done|]. split; [by rewrite drive_app, Hp; simpl; rewrite Ht|]. by destruct L.
  - intros Hf. destruct (decide (START ∈ es)) as [|Hn]; [done|]. exfalso.
    apply drive_history in H as (h & Hh & <-).
    apply history_no_start in Hh as (_ & H1 & H2); [|done..]. by destruct Hf.
  - intros Hf e. rewrite drive_app, H. simpl. destruct (terminal_stuck t e Hf) as [x ->]. eauto.
Qed.

Lemma task_lifecycle_witness : START ∈ [ENQUEUE; START; REQUEUE; START; COMPLETE].
Proof. apply (task_lifecycle [ENQUEUE; START; REQUEUE; START; COMPLETE] COMPLETED); [reflexivity|left; reflexivity]. Defined.
