(* ===== verification/Tables.v ===== *)
(** * The relational schema

    The SQLAlchemy models of [src/models/*.py] that the services write, as a
    record of tables.  A [DateTime] column is a number of milliseconds.  How the
    server compares texts (its collation) and in which order it returns the rows of a
    query without ORDER BY are parameters.  The
    database itself is a service the repository calls: class [Services] of
    [Effects.v] states what a committed transaction does to these tables. *)

From stdpp Require Import base gmap strings list.
From S2P Require Import Prelude PyValue TaskModel.

Open Scope Z_scope.

Inductive CallbackDeliveryStatus := CB_PENDING | CB_DELIVERED | CB_FAILED | CB_DEAD_LETTER.

#[global] Instance CallbackDeliveryStatus_eq_dec : EqDecision CallbackDeliveryStatus.
Proof. solve_decision. Defined.

(** [tasks]; [task_type] is [None] where the code builds a record without it. *)
Record TaskRecord := {
  task_id : string;
  tenant_id : string;
  task_type : option string;
  dag_id : option string;
  status : TaskStatus;
  priority : TaskPriority;
  cluster_id : option string;
  current_step : option string;
  input_data : option string;
  output_data : option string;
  error_message : option string;
  metadata_json : option string;
  callback_url : option string;
  idempotency_key : option string;
  timeout_seconds : Z;
  max_retries : Z;
  attempt : Z;
  scheduled_at : option string;
  cron_expr : option string;
  created_at : Z;
  updated_at : Z
}.

Record CallbackOutboxRecord := {
  cb_id : Z;
  cb_task_id : string;
  cb_tenant_id : string;
  cb_callback_url : string;
  cb_payload_json : string;
  cb_delivery_status : CallbackDeliveryStatus;
  cb_attempt_count : Z;
  cb_next_attempt_at : option Z;
  cb_last_error : option string;
  cb_acknowledged_by : option string;
  cb_acknowledged_at : option Z
}.

Record TaskRunRecord := {
  run_task_id : string;
  run_run_key : string;
  run_tenant_id : string;
  run_status : string;
  run_attempt : Z;
  run_worker_id : option string;
  run_lease_id : option string;
  run_created_at : Z
}.

Record DagRunRecord := {
  dr_dag_id : string;
  dr_run_key : string;
  dr_tenant_id : string;
  dr_status : string;
  dr_trigger_source : option string;
  dr_input_json : option string;
  dr_created_at : Z
}.

Record TaskEventRecord := {
  ev_task_id : string;
  ev_run_key : option string;
  ev_event_type : string;
  ev_event_payload : option string;
  ev_created_at : Z
}.

Record OperatorActionRecord := {
  oa_actor : string;
  oa_action_type : string;
  oa_target_type : string;
  oa_target_id : string;
  oa_reason : option string;
  oa_payload_json : option string;
  oa_created_at : Z
}.

(** [server_default=func.now()] of a [DateTime] column: whole seconds. *)
Definition server_now (now : Z) : Z := now / 1000 * 1000.

(** How the MySQL server is set up.  Two texts are equal in a statement when their
    keys under the collation are, and are ordered by these keys: the repository's
    compose files choose [utf8mb4_unicode_ci], whose keys ignore case.  The rows of
    a query without ORDER BY come in an order of the server's own. *)
Record mysql_server := {
  collate : string -> string;
  scan_order : ∀ A, list A -> list A;
  scan_perm : ∀ A (l : list A), scan_order A l ≡ₚ l
}.

(** A binary collation, and rows in the order they were added. *)
Definition plain_server : mysql_server :=
  {| collate := λ s, s; scan_order := λ A l, l; scan_perm := λ A l, reflexivity l |}.

(** Rows of the autoincrement tables are kept in [id] order. *)
Record tables := {
  db_server : mysql_server;
  db_tasks : gmap string TaskRecord;
  db_outbox : list CallbackOutboxRecord;
  db_task_runs : list TaskRunRecord;
  db_dag_runs : list DagRunRecord;
  db_events : list TaskEventRecord;
  db_actions : list OperatorActionRecord
}.

Definition empty_tables : tables :=
  {| db_server := plain_server; db_tasks := ∅; db_outbox := []; db_task_runs := []; db_dag_runs := [];
     db_events := []; db_actions := [] |}.

Definition set_tasks (f : gmap string TaskRecord -> gmap string TaskRecord) (t : tables) : tables :=
  {| db_server := db_server t; db_tasks := f (db_tasks t); db_outbox := db_outbox t; db_task_runs := db_task_runs t;
     db_dag_runs := db_dag_runs t; db_events := db_events t; db_actions := db_actions t |}.

Definition set_outbox (f : list CallbackOutboxRecord -> list CallbackOutboxRecord) (t : tables) : tables :=
  {| db_server := db_server t; db_tasks := db_tasks t; db_outbox := f (db_outbox t); db_task_runs := db_task_runs t;
     db_dag_runs := db_dag_runs t; db_events := db_events t; db_actions := db_actions t |}.

Definition add_task_run (r : TaskRunRecord) (t : tables) : tables :=
  {| db_server := db_server t; db_tasks := db_tasks t; db_outbox := db_outbox t; db_task_runs := db_task_runs t ++ [r];
     db_dag_runs := db_dag_runs t; db_events := db_events t; db_actions := db_actions t |}.

Definition add_dag_run (r : DagRunRecord) (t : tables) : tables :=
  {| db_server := db_server t; db_tasks := db_tasks t; db_outbox := db_outbox t; db_task_runs := db_task_runs t;
     db_dag_runs := db_dag_runs t ++ [r]; db_events := db_events t; db_actions := db_actions t |}.

Definition add_event (r : TaskEventRecord) (t : tables) : tables :=
  {| db_server := db_server t; db_tasks := db_tasks t; db_outbox := db_outbox t; db_task_runs := db_task_runs t;
     db_dag_runs := db_dag_runs t; db_events := db_events t ++ [r]; db_actions := db_actions t |}.

Definition add_action (r : OperatorActionRecord) (t : tables) : tables :=
  {| db_server := db_server t; db_tasks := db_tasks t; db_outbox := db_outbox t; db_task_runs := db_task_runs t;
     db_dag_runs := db_dag_runs t; db_events := db_events t; db_actions := db_actions t ++ [r] |}.

(** ** Statements *)

(** [column == text] in a statement *)
Definition text_eq (m : mysql_server) (a b : string) : bool :=
  bool_decide (collate m a = collate m b).

(** The rows of a query without ORDER BY *)
Definition unordered {A} (t : tables) (l : list A) : list A := scan_order (db_server t) A l.

(** [session.add(record)] then [commit]: the NOT NULL, length and primary-key
    constraints of [tasks], the last under the collation. *)
Definition insert_task (r : TaskRecord) (t : tables) : exn + tables :=
  match task_type r with
  | None => inl (Exn IntegrityError "Column 'task_type' cannot be null")
  | Some ty =>
      if (64 <? String.length (task_id r))%nat then
        inl (Exn IntegrityError "Data too long for column 'task_id'")
      else if (128 <? String.length ty)%nat then
        inl (Exn IntegrityError "Data too long for column 'task_type'")
      else
        if existsb (text_eq (db_server t) (task_id r)) (map_to_list (db_tasks t)).*1 then
          inl (Exn IntegrityError "Duplicate entry for key 'PRIMARY'")
        else inr (set_tasks (<[task_id r := r]>) t)
  end.

(** Several [session.add]s and one [commit]: all rows or none. *)
Fixpoint insert_tasks (rs : list TaskRecord) (t : tables) : exn + tables :=
  match rs with
  | [] => inr t
  | r :: rs' =>
      match insert_task r t with
      | inl e => inl e
      | inr t' => insert_tasks rs' t'
      end
  end.

(** [UPDATE tasks SET ... WHERE task_id = id]; no row is no error. *)
Definition update_task (id : string) (f : TaskRecord -> TaskRecord) (t : tables) : tables :=
  set_tasks (alter f id) t.

(** The rows of [tasks] that satisfy a predicate. *)
Definition select_tasks (p : TaskRecord -> bool) (t : tables) : list TaskRecord :=
  filter (λ r, Is_true (p r)) (map_to_list (db_tasks t)).*2.

(** ** Lemmas *)

Lemma text_eq_refl m a : text_eq m a a = true.
Proof. by apply bool_decide_eq_true. Qed.

Lemma unordered_perm {A} t (l : list A) : unordered t l ≡ₚ l.
Proof. apply scan_perm. Qed.

Lemma insert_task_inr r t t' :
  insert_task r t = inr t' ->
  t' = set_tasks (<[task_id r := r]>) t /\ db_tasks t !! task_id r = None /\
  is_Some (task_type r) /\ (String.length (task_id r) <= 64)%nat.
Proof.
  unfold insert_task. intros E. break_match_in E; [|done].
  break_match_in E; [done|]. break_match_in E; [done|].
  break_match_in E; simplify_eq. apply Nat.ltb_ge in E1. split_and!; [done| |done..].
  destruct (db_tasks t !! task_id r) as [r'|] eqn:Er; [exfalso|done].
  rewrite <-not_true_iff_false, existsb_exists in E3. apply E3. exists (task_id r).
  split; [|apply text_eq_refl]. apply list_elem_of_In, list_elem_of_fmap.
  exists (task_id r, r'). split; [done|]. by apply elem_of_map_to_list.
Qed.

Lemma select_tasks_spec p t r :
  r ∈ select_tasks p t <-> p r /\ exists k, db_tasks t !! k = Some r.
Proof.
  unfold select_tasks. rewrite list_elem_of_filter.
  rewrite list_elem_of_fmap. split.
  - intros [Hp ([k r'] & -> & H%elem_of_map_to_list)]. eauto.
  - intros [Hp (k & H%elem_of_map_to_list)]. split; [done|]. by exists (k, r).
Qed.
