(* ===== verification/Effects.v ===== *)
(** * Effects: the platform's programs and the services they call

    The asynchronous code of the platform is a program in the free monad
    [prog] over one signature [eff]: a Redis script or command, a database
    transaction (given the server's clock), a clock reading, a fresh UUID, a sleep, an HTTP request, and a
    call of code that is not part of the repository (a worker actor, a user
    callback).  [M A] adds Python exceptions.

    Redis, the database and the outside world are parameters:
    - class [Services] holds a Redis server and a database as abstract state
      machines, with the laws that their observable contents follow the
      documented command semantics of [Redis.v] and transactional updates of
      [Tables.v];
    - class [Env] holds what no law constrains: how long each call takes, which
      calls fail with a connection error, the UUIDs drawn, and the answers of
      HTTP peers and of user code.

    [run] executes a program; [run_view] transfers a run over any services to
    the run over their observable contents ([doc_services]), which is where the
    components' lemmas compute. *)

From stdpp Require Import base gmap strings list.
From S2P Require Import Prelude PyValue Redis TaskModel Tables.

Open Scope Z_scope.

(** ** Signature *)

Record http_request := {
  req_method : string;
  req_url : string;
  req_headers : list (string * string);
  req_body : string
}.

Record http_response := { resp_status : Z; resp_body : string }.

Inductive eff : Type -> Type :=
| ERedis {X} (m : lua X) : eff (exn + X)
| ESql {X} (tx : Z -> tables -> exn + (tables * X)) : eff (exn + X)
| ETime : eff Z
| EUuid : eff string
| ESleep (ms : Z) : eff unit
| EScan (cursor : Z) (pattern : string -> bool) (count : nat) : eff (exn + (Z * list string))
| EHttp (r : http_request) : eff (exn + http_response)
| EInvoke (what : string) (arg : value) : eff (exn + value).

Inductive prog (A : Type) : Type :=
| Ret (a : A)
| Vis {X} (e : eff X) (k : X -> prog A).
Arguments Ret {_}.
Arguments Vis {_ _}.

Fixpoint pbind {A B} (m : prog A) (f : A -> prog B) : prog B :=
  match m with
  | Ret a => f a
  | Vis e k => Vis e (λ x, pbind (k x) f)
  end.

(** ** Exceptions *)

Definition M (A : Type) : Type := prog (exn + A).

Definition ret {A} (a : A) : M A := Ret (inr a).
Definition raise {A} (e : exn) : M A := Ret (inl e).

Definition bind {A B} (m : M A) (f : A -> M B) : M B :=
  pbind m (λ r, match r with inr a => f a | inl e => Ret (inl e) end).

(** [try: m except BaseException as e: h(e)] *)
Definition catch {A} (m : M A) (h : exn -> M A) : M A :=
  pbind m (λ r, match r with inr a => ret a | inl e => h e end).

(** [asyncio.CancelledError] is not an [Exception]. *)
Definition is_exception (e : exn) : bool :=
  match e with Exn CancelledError _ => false | _ => true end.

(** [try: m except Exception as e: h(e)], cancellation passing through *)
Definition except {A} (m : M A) (h : exn -> M A) : M A :=
  catch m (λ e, if is_exception e then h e else raise e).

(** The outcome as a value, for [try ... finally] and [return_exceptions]. *)
Definition attempt_ {A} (m : M A) : M (exn + A) := pbind m (λ r, ret r).

(** [asyncio.gather] of two tasks: their calls interleave, [turn] telling whose the
    next one is while both go on; [n] counts them. *)
Fixpoint gather_from {A B} (turn : nat -> bool) (p : prog A) {struct p} : nat -> prog B -> prog (A * B) :=
  fix right (n : nat) (q : prog B) {struct q} : prog (A * B) :=
    match p with
    | Ret a => pbind q (λ b, Ret (a, b))
    | Vis e k =>
        match q with
        | Ret b => pbind p (λ a, Ret (a, b))
        | Vis e' k' =>
            if turn n then Vis e (λ x, gather_from turn (k x) (S n) q)
            else Vis e' (λ x, right (S n) (k' x))
        end
    end.

(** With [return_exceptions=True]: the outcomes are values. *)
Definition gather {A B} (turn : nat -> bool) (p : M A) (q : M B) : M ((exn + A) * (exn + B)) :=
  pbind (gather_from turn p 0 q) (λ r, Ret (inr r)).

Definition of_sum {A} (r : exn + A) : M A := Ret r.

Definition eff_ {X} (e : eff X) : M X := Vis e (λ x, ret x).
Definition effx {X} (e : eff (exn + X)) : M X := Vis e (λ x, Ret x).

Definition redis {X} (k : string) (a : act X) : M X := effx (ERedis (call k a)).
Definition script {X} (m : lua X) : M X := effx (ERedis m).
Definition sql {X} (tx : Z -> tables -> exn + (tables * X)) : M X := effx (ESql tx).
Definition sql_read {X} (q : tables -> X) : M X := sql (λ _ t, inr (t, q t)).
Definition time_ms : M Z := eff_ ETime.
Definition uuid4 : M string := eff_ EUuid.
Definition sleep (ms : Z) : M unit := eff_ (ESleep ms).
Definition scan (cursor : Z) (pattern : string -> bool) (count : nat) : M (Z * list string) :=
  effx (EScan cursor pattern count).
Definition http (r : http_request) : M http_response := effx (EHttp r).
Definition invoke (what : string) (arg : value) : M value := effx (EInvoke what arg).

(** [resp.raise_for_status()] of [httpx]: anything but 2xx raises. *)
Definition is_success (r : http_response) : bool := (200 <=? resp_status r) && (resp_status r <? 300).

Definition raise_for_status (r : http_response) : M unit :=
  if is_success r then ret tt else raise (Exn HTTPStatusError (dec_of_Z (resp_status r))).

Declare Scope prog_scope.
Delimit Scope prog_scope with prog.
Notation "'let*' x := m 'in' k" := (bind m (λ x, k))
  (at level 200, x binder, m at level 200, k at level 200) : prog_scope.
Notation "'do*' m 'in' k" := (bind m (λ _, k))
  (at level 200, m at level 200, k at level 200) : prog_scope.
Open Scope prog_scope.

(** [for x in xs: body(x)] *)
Fixpoint for_each {A} (xs : list A) (body : A -> M unit) : M unit :=
  match xs with
  | [] => ret tt
  | x :: xs' => do* body x in for_each xs' body
  end.

(** A loop that threads the local variables it updates. *)
Fixpoint fold_m {A S} (xs : list A) (body : S -> A -> M S) (s : S) : M S :=
  match xs with
  | [] => ret s
  | x :: xs' => let* s' := body s x in fold_m xs' body s'
  end.

(** The keys that match a pattern. *)
Definition scan_cmd (pattern : string -> bool) : lua (list string) :=
  LCall (Keys pattern) lua_raise.
#[global] Arguments scan_cmd : simpl never.

(** ** Services *)

Class Services := {
  rstate : Type;
  rview : rstate -> keyspace;
  rexec : ∀ {X}, Z -> lua X -> rstate -> rstate * (exn + X);
  (** Redis runs a script atomically, as documented. *)
  rexec_ok : ∀ X now (m : lua X) s,
    (rview (rexec now m s).1, (rexec now m s).2) = lua_run now m (rview s);
  dbstate : Type;
  dbview : dbstate -> tables;
  dbexec : ∀ {X}, (tables -> exn + (tables * X)) -> dbstate -> dbstate * (exn + X);
  (** A transaction commits all of its updates, or raises and rolls back. *)
  dbexec_ok : ∀ X (tx : tables -> exn + (tables * X)) s,
    (dbview (dbexec tx s).1, (dbexec tx s).2) =
    match tx (dbview s) with
    | inr (t, x) => (t, inr x)
    | inl e => (dbview s, inl e)
    end
}.

Class Env := {
  delay : nat -> N;
  redis_fault : nat -> option exn;
  db_fault : nat -> option exn;
  uuid_at : nat -> string;
  (** the keys, among those that match, one SCAN call returns, and its cursor *)
  scan_slice : nat -> Z -> nat -> list string -> Z * list string;
  http_answer : nat -> http_request -> exn + http_response;
  invoke_answer : nat -> string -> value -> exn + value
}.

(** The services' own contents, observed directly. *)
Definition doc_services : Services := {|
  rstate := keyspace;
  rview := λ ks, ks;
  rexec := λ X now m ks, lua_run now m ks;
  rexec_ok := λ X now m ks, eq_sym (surjective_pairing _);
  dbstate := tables;
  dbview := λ t, t;
  dbexec := λ X tx t, match tx t with
                      | inr (t', x) => (t', inr x)
                      | inl e => (t, inl e)
                      end;
  dbexec_ok := λ X tx t, eq_sym (surjective_pairing _)
|}.

(** ** The world and execution *)

Inductive output :=
| OHttp (r : http_request)
| OInvoke (what : string) (arg : value).

Record world (S : Services) := World {
  w_redis : rstate;
  w_db : dbstate;
  w_now : Z;
  w_tick : nat;
  w_log : list output
}.
Arguments World {_}.
Arguments w_redis {_}.
Arguments w_db {_}.
Arguments w_now {_}.
Arguments w_tick {_}.
Arguments w_log {_}.

Section Run.
Context {S : Services} {E : Env}.

(** The world after an effect that took its time. *)
Definition advance (r : rstate) (d : dbstate) (l : list output) (w : world S) : world S :=
  World r d (w_now w + Z.of_N (delay (w_tick w))) (Datatypes.S (w_tick w)) (w_log w ++ l).

Definition step {X} (e : eff X) (w : world S) : world S * X :=
  match e in eff X return world S * X with
  | ERedis m =>
      match redis_fault (w_tick w) with
      | Some x => (advance (w_redis w) (w_db w) [] w, inl x)
      | None => let '(r, x) := rexec (w_now w) m (w_redis w) in
                (advance r (w_db w) [] w, x)
      end
  | ESql tx =>
      match db_fault (w_tick w) with
      | Some x => (advance (w_redis w) (w_db w) [] w, inl x)
      | None => let '(d, x) := dbexec (tx (w_now w)) (w_db w) in
                (advance (w_redis w) d [] w, x)
      end
  | ETime => (advance (w_redis w) (w_db w) [] w, w_now w)
  | EUuid => (advance (w_redis w) (w_db w) [] w, uuid_at (w_tick w))
  | ESleep ms =>
      let w' := advance (w_redis w) (w_db w) [] w in
      (World (w_redis w') (w_db w') (w_now w' + Z.max 0 ms) (w_tick w') (w_log w'), tt)
  | EScan cursor p count =>
      match redis_fault (w_tick w) with
      | Some x => (advance (w_redis w) (w_db w) [] w, inl x)
      | None =>
          let '(r, x) := rexec (w_now w) (scan_cmd p) (w_redis w) in
          (advance r (w_db w) [] w,
           match x with
           | inl e => inl e
           | inr ks => inr (scan_slice (w_tick w) cursor count ks)
           end)
      end
  | EHttp r =>
      (advance (w_redis w) (w_db w) [OHttp r] w, http_answer (w_tick w) r)
  | EInvoke what arg =>
      (advance (w_redis w) (w_db w) [OInvoke what arg] w, invoke_answer (w_tick w) what arg)
  end.

Fixpoint run {A} (p : prog A) (w : world S) : world S * A :=
  match p with
  | Ret a => (w, a)
  | Vis e k => let '(w', x) := step e w in run (k x) w'
  end.

(** Interleaving: [sched] names the program that performs the next effect; a
    finished or missing one is skipped. *)
Definition thread_step {A} (ps : list (prog A)) (w : world S) (i : nat) :
    list (prog A) * world S :=
  match ps !! i with
  | Some (Vis e k) => let '(w', x) := step e w in (<[i := k x]> ps, w')
  | _ => (ps, w)
  end.

Fixpoint interleave {A} (sched : list nat) (ps : list (prog A)) (w : world S) :
    list (prog A) * world S :=
  match sched with
  | [] => (ps, w)
  | i :: sched' => let '(ps', w') := thread_step ps w i in interleave sched' ps' w'
  end.

Lemma run_pbind {A B} (m : prog A) (f : A -> prog B) w :
  run (pbind m f) w = let '(w', a) := run m w in run (f a) w'.
Proof.
  revert w. induction m as [a|X e k IH]; intros w; simpl; [done|].
  destruct (step e w) as [w' x]. apply IH.
Qed.

Lemma run_bind {A B} (m : M A) (f : A -> M B) w :
  run (bind m f) w =
  match run m w with
  | (w', inr a) => run (f a) w'
  | (w', inl e) => (w', inl e)
  end.
Proof. unfold bind. rewrite run_pbind. by destruct (run m w) as [w' [e|a]]. Qed.

Lemma run_catch {A} (m : M A) h w :
  run (catch m h) w =
  match run m w with
  | (w', inr a) => (w', inr a)
  | (w', inl e) => run (h e) w'
  end.
Proof. unfold catch. rewrite run_pbind. by destruct (run m w) as [w' [e|a]]. Qed.

Lemma run_except {A} (m : M A) h w :
  run (except m h) w =
  match run m w with
  | (w', inr a) => (w', inr a)
  | (w', inl e) => if is_exception e then run (h e) w' else (w', inl e)
  end.
Proof.
  unfold except. rewrite run_catch. destruct (run m w) as [w' [e|a]]; [|done].
  by destruct (is_exception e).
Qed.

Lemma run_attempt_ {A} (m : M A) w :
  run (attempt_ m) w = let '(w', r) := run m w in (w', inr r).
Proof. unfold attempt_. rewrite run_pbind. by destruct (run m w). Qed.

Lemma bind_assoc {A B C} (m : M A) (f : A -> M B) (g : B -> M C) w :
  run (bind (bind m f) g) w = run (bind m (λ x, bind (f x) g)) w.
Proof.
  rewrite !run_bind. destruct (run m w) as [w' [e|a]]; [done|]. by rewrite run_bind.
Qed.

(** Time never runs backwards. *)
Lemma step_time {X} (e : eff X) w : w_now w <= w_now (step e w).1.
Proof.
  destruct e; simpl; try lia.
  - destruct (redis_fault _); [simpl; lia|]. destruct (rexec _ _ _); simpl; lia.
  - destruct (db_fault _); [simpl; lia|]. destruct (dbexec _ _); simpl; lia.
  - destruct (redis_fault _); [simpl; lia|]. destruct (rexec _ _ _); simpl; lia.
Qed.

Lemma run_time {A} (p : prog A) w : w_now w <= w_now (run p w).1.
Proof.
  revert w. induction p as [a|X e k IH]; intros w; simpl; [lia|].
  pose proof (step_time e w). destruct (step e w) as [w' x]; simpl in *.
  specialize (IH x w'). lia.
Qed.
End Run.

(** ** Transfer to the observable contents *)

Definition wview {S : Services} (w : world S) : world doc_services :=
  World (S := doc_services) (rview (w_redis w)) (dbview (w_db w)) (w_now w) (w_tick w) (w_log w).

Section Transfer.
Context {S : Services} {E : Env}.

Lemma step_view {X} (e : eff X) (w : world S) :
  step (S := doc_services) e (wview w) = (wview (step e w).1, (step e w).2).
Proof.
  destruct e; simpl; try done.
  - destruct (redis_fault _); [done|].
    pose proof (rexec_ok _ (w_now w) m (w_redis w)) as H.
    destruct (rexec _ _ _) as [r x]; simpl in *. by rewrite <-H.
  - destruct (db_fault _); [done|].
    pose proof (dbexec_ok _ (tx (w_now w)) (w_db w)) as H.
    destruct (dbexec _ _) as [d x]; simpl in *.
    by destruct (tx (w_now w) (dbview (w_db w))) as [e|[t y]]; injection H as <- ->.
  - destruct (redis_fault _); [done|].
    pose proof (rexec_ok _ (w_now w) (scan_cmd pattern) (w_redis w)) as H.
    destruct (rexec _ _ _) as [r x]. simpl in H. injection H as Hr ->.
    unfold wview, advance; simpl. by rewrite Hr.
Qed.

Lemma run_view {A} (p : prog A) (w : world S) :
  run (S := doc_services) p (wview w) = (wview (run p w).1, (run p w).2).
Proof.
  revert w. induction p as [a|X e k IH]; intros w; simpl; [done|].
  rewrite step_view. destruct (step e w) as [w' x]; simpl. apply IH.
Qed.

Lemma interleave_view {A} sched : ∀ (ps : list (prog A)) (w : world S),
  interleave (S := doc_services) sched ps (wview w) =
  ((interleave sched ps w).1, wview (interleave sched ps w).2).
Proof.
  induction sched as [|i sched IH]; intros ps w; simpl; [done|]. unfold thread_step.
  destruct (ps !! i) as [[a|X e k]|]; [apply IH| |apply IH].
  rewrite step_view. destruct (step e w) as [w' x]; simpl. apply IH.
Qed.

(** What a property of runs over the documented contents says of any
    services. *)
Lemma run_any {A} (p : prog A) (w : world S) (P : world doc_services -> A -> Prop) :
  (let '(w', a) := run (S := doc_services) p (wview w) in P w' a) ->
  P (wview (run p w).1) (run p w).2.
Proof. by rewrite run_view. Qed.
End Transfer.

(** ** Quiet environments: no call fails *)

Definition quiet (E : Env) : Prop :=
  (∀ n, redis_fault n = None) /\ (∀ n, db_fault n = None).

(** A concrete environment, used to evaluate programs: instantaneous calls, no
    faults, numbered UUIDs, peers that answer 200. *)
Definition calm : Env := {|
  delay := λ _, 0%N;
  redis_fault := λ _, None;
  db_fault := λ _, None;
  uuid_at := λ n, "uuid-" +:+ dec_of_N (N.of_nat n);
  scan_slice := λ _ _ _ ks, (0, ks);
  http_answer := λ _ _, inr {| resp_status := 200; resp_body := "" |};
  invoke_answer := λ _ _ v, inr v
|}.

Lemma calm_quiet : quiet calm.
Proof. by split. Qed.

Definition world0 (now : Z) : world doc_services :=
  World (S := doc_services) (∅ : keyspace) empty_tables now 0%nat [].

(** ** Computing runs over the documented contents *)

Section DocRun.
Context {E : Env}.
Notation W := (world doc_services).

Definition after (ks : keyspace) (t : tables) (w : W) : W :=
  advance (S := doc_services) ks t [] w.

Lemma run_ret {A} (a : A) (w : W) : run (ret a) w = (w, inr a).
Proof. done. Qed.

Lemma run_raise {A} e (w : W) : run (raise e : M A) w = (w, inl e).
Proof. done. Qed.

Lemma run_script {X} (m : lua X) (w : W) :
  run (script m) w =
  match redis_fault (w_tick w) with
  | Some e => (after (w_redis w) (w_db w) w, inl e)
  | None => let '(ks, r) := lua_run (w_now w) m (w_redis w) in (after ks (w_db w) w, r)
  end.
Proof. simpl. destruct (redis_fault _); [done|]. by destruct (lua_run _ _ _). Qed.

Lemma run_redis {X} k (a : act X) (w : W) :
  run (redis k a) w =
  match redis_fault (w_tick w) with
  | Some e => (after (w_redis w) (w_db w) w, inl e)
  | None => let '(e, r) := act_doc (w_now w) a (live (w_now w) (w_redis w) k) in
            (after (put k e (w_redis w)) (w_db w) w, r)
  end.
Proof.
  unfold redis. change (effx (ERedis (call k a))) with (script (call k a)).
  rewrite run_script, lua_run_call1. destruct (redis_fault _); [done|].
  by destruct (act_doc _ _ _).
Qed.

Lemma run_sql {X} tx (w : W) :
  run (sql (X := X) tx) w =
  match db_fault (w_tick w) with
  | Some e => (after (w_redis w) (w_db w) w, inl e)
  | None => match tx (w_now w) (w_db w) with
            | inr (t, x) => (after (w_redis w) t w, inr x)
            | inl e => (after (w_redis w) (w_db w) w, inl e)
            end
  end.
Proof.
  simpl. destruct (db_fault _); [done|]. by destruct (tx _ _) as [|[]].
Qed.

Lemma run_time_ms (w : W) : run time_ms w = (after (w_redis w) (w_db w) w, inr (w_now w)).
Proof. done. Qed.

Lemma run_uuid4 (w : W) : run uuid4 w = (after (w_redis w) (w_db w) w, inr (uuid_at (w_tick w))).
Proof. done. Qed.
End DocRun.

#[global] Opaque redis script sql time_ms uuid4.

(** What an observer sees of a world's services. *)
Definition ks_of {S : Services} (w : world S) : keyspace := rview (w_redis w).
Definition db_of {S : Services} (w : world S) : tables := dbview (w_db w).

(** [transfer H]: close a goal about [run p w] over any services with the
    statement [H] of the same fact over [wview w]. *)
Ltac transfer H :=
  let T := fresh "T" in
  pose proof H as T; rewrite !run_view in T;
  repeat match type of T with
  | context [run ?p ?w] => destruct (run p w) as [? ?]
  end; exact T.

(** Rewrite the next effect of a run over the documented contents. *)
Ltac run_step :=
  first [ rewrite run_bind | rewrite run_except | rewrite run_catch | rewrite run_attempt_
        | rewrite run_time_ms | rewrite run_uuid4
        | rewrite run_redis | rewrite run_script | rewrite run_sql ].

(** ** Programs that leave a part of the database alone *)

Definition db_keeps {E : Env} {X A} (f : tables -> X) (p : prog A) : Prop :=
  ∀ w : world doc_services, f (w_db (run p w).1) = f (w_db w).

Section Keeps.
Context {E : Env} {X : Type} (f : tables -> X).

Lemma keeps_ret {A} (a : A) : db_keeps f (ret a).
Proof. by intros w. Qed.
Lemma keeps_raise {A} e : db_keeps f (raise e : M A).
Proof. by intros w. Qed.
Lemma keeps_of_sum {A} (r : exn + A) : db_keeps f (of_sum r).
Proof. by intros w. Qed.
Lemma keeps_bind {A B} (m : M A) (k : A -> M B) :
  db_keeps f m -> (∀ a, db_keeps f (k a)) -> db_keeps f (bind m k).
Proof.
  intros Hm Hk w. rewrite run_bind. specialize (Hm w).
  destruct (run m w) as [w' [e|a]]; simpl in *; [done|]. by rewrite Hk.
Qed.
Lemma keeps_except {A} (m : M A) (h : exn -> M A) :
  db_keeps f m -> (∀ e, db_keeps f (h e)) -> db_keeps f (except m h).
Proof.
  intros Hm Hk w. rewrite run_except. specialize (Hm w).
  destruct (run m w) as [w' [e|a]]; simpl in *; [|done].
  destruct (is_exception e); [|done]. by rewrite Hk.
Qed.
Lemma keeps_catch {A} (m : M A) (h : exn -> M A) :
  db_keeps f m -> (∀ e, db_keeps f (h e)) -> db_keeps f (catch m h).
Proof.
  intros Hm Hk w. rewrite run_catch. specialize (Hm w).
  destruct (run m w) as [w' [e|a]]; simpl in *; [|done]. by rewrite Hk.
Qed.
Lemma keeps_script {A} (m : lua A) : db_keeps f (script m).
Proof.
  intros w. rewrite run_script. destruct (redis_fault _); [done|].
  by destruct (lua_run _ _ _).
Qed.
Lemma keeps_redis {A} k (a : act A) : db_keeps f (redis k a).
Proof. apply keeps_script. Qed.
Lemma keeps_time : db_keeps f time_ms.
Proof. by intros w. Qed.
Lemma keeps_uuid : db_keeps f uuid4.
Proof. by intros w. Qed.
Lemma keeps_sleep ms : db_keeps f (sleep ms).
Proof. by intros w. Qed.
Lemma keeps_http r : db_keeps f (http r).
Proof. by intros w. Qed.
Lemma keeps_invoke what v : db_keeps f (invoke what v).
Proof. by intros w. Qed.
Lemma keeps_sql {A} (tx : Z -> tables -> exn + (tables * A)) :
  (∀ now t t' a, tx now t = inr (t', a) -> f t' = f t) -> db_keeps f (sql tx).
Proof.
  intros H w. rewrite run_sql. destruct (db_fault _); [done|].
  destruct (tx _ _) as [e|[t' a]] eqn:Et; [done|]. by apply H in Et.
Qed.
Lemma keeps_sql_read {A} (q : tables -> A) : db_keeps f (sql_read q).
Proof. apply keeps_sql. intros now t t' a [= <- _]. done. Qed.
Lemma keeps_for_each {A} (xs : list A) body :
  (∀ x, db_keeps f (body x)) -> db_keeps f (for_each xs body).
Proof.
  intros H. induction xs as [|x xs IH]; [apply keeps_ret|].
  apply keeps_bind; [apply H|done].
Qed.
Lemma keeps_fold_m {A S'} (xs : list A) (body : S' -> A -> M S') s :
  (∀ s x, db_keeps f (body s x)) -> db_keeps f (fold_m xs body s).
Proof.
  intros H. revert s. induction xs as [|x xs IH]; intros s; [apply keeps_ret|].
  apply keeps_bind; [apply H|done].
Qed.
End Keeps.

#[export] Hint Resolve keeps_ret keeps_raise keeps_of_sum keeps_script keeps_redis keeps_time
  keeps_uuid keeps_sleep keeps_http keeps_invoke keeps_sql_read : sched.

(** Show that a program keeps a part of the database by following its syntax. *)
Ltac keeps_tac :=
  repeat first
    [ progress intros
    | solve [auto with sched]
    | apply keeps_bind | apply keeps_except | apply keeps_catch
    | apply keeps_for_each | apply keeps_fold_m
    | progress cbv beta iota zeta
    | match goal with
      | |- db_keeps _ (match ?x with _ => _ end) => destruct x
      | |- db_keeps _ (if ?x then _ else _) => destruct x
      end ].

(** ** Programs that leave a key alone

    [leaves k p]: no effect of [p] writes the Redis key [k], whatever others do in
    between, so that the key can be reasoned about while [p] is interleaved. *)

Section Leaves.
#[local] Transparent redis script sql time_ms.
Context {E : Env} (k : string).
Notation W := (world doc_services).

Fixpoint leaves {A} (p : prog A) : Prop :=
  match p with
  | Ret _ => True
  | Vis e f => (∀ w : W, w_redis (step e w).1 !! k = w_redis w !! k) /\ ∀ x, leaves (f x)
  end.

Lemma leaves_pbind {A B} (m : prog A) (f : A -> prog B) :
  leaves m -> (∀ a, leaves (f a)) -> leaves (pbind m f).
Proof. intros Hm Hf. induction m as [a|X e g IH]; [apply Hf|]. destruct Hm as [He Hg]. split; auto. Qed.

Lemma leaves_bind {A B} (m : M A) (f : A -> M B) :
  leaves m -> (∀ a, leaves (f a)) -> leaves (bind m f).
Proof. intros Hm Hf. apply leaves_pbind; [done|]. intros [e|a]; [done|apply Hf]. Qed.

Lemma leaves_script {X} (m : lua X) :
  (∀ now ks, (lua_run now m ks).1 !! k = ks !! k) -> leaves (script m).
Proof.
  intros Hm. split; [|done]. intros w. simpl. destruct (redis_fault _); [done|].
  specialize (Hm (w_now w) (w_redis w)). by destruct (lua_run _ _ _).
Qed.

Lemma leaves_run {A} (p : prog A) : leaves p -> ∀ w : W, w_redis (run p w).1 !! k = w_redis w !! k.
Proof.
  induction p as [a|X e f IH]; intros Hp w; [done|]. destruct Hp as [He Hf]. simpl. specialize (He w).
  destruct (step e w) as [w' x]. simpl in He. by rewrite (IH x (Hf x)).
Qed.
End Leaves.

(** ** Postconditions

    Whatever the world and the answers, when the program returns, its value satisfies
    [Q]; an exception is let through. *)

Section Ensures.
Context {S : Services} {E : Env}.

Definition ensures {A} (m : M A) (Q : A -> Prop) : Prop :=
  ∀ w : world S, match run m w with (_, inr a) => Q a | (_, inl _) => True end.

Lemma ensures_ret {A} (a : A) (Q : A -> Prop) : Q a -> ensures (ret a) Q.
Proof. by intros HQ w. Qed.

Lemma ensures_bind {A B} (m : M A) (f : A -> M B) (P : A -> Prop) (Q : B -> Prop) :
  ensures m P -> (∀ a, P a -> ensures (f a) Q) -> ensures (bind m f) Q.
Proof.
  intros Hm Hf w. rewrite run_bind. specialize (Hm w).
  destruct (run m w) as [w' [e|a]]; [done|]. by apply Hf.
Qed.

Lemma ensures_any {A B} (m : M A) (f : A -> M B) (Q : B -> Prop) :
  (∀ a, ensures (f a) Q) -> ensures (bind m f) Q.
Proof. intros Hf. apply (ensures_bind _ _ (λ _, True)); [|auto]. intros w. by destruct (run m w) as [? []]. Qed.

Lemma ensures_weaken {A} (m : M A) (P Q : A -> Prop) : ensures m P -> (∀ a, P a -> Q a) -> ensures m Q.
Proof. intros Hm Hi w. specialize (Hm w). destruct (run m w) as [? [?|?]]; auto. Qed.

Lemma ensures_fold_m {A T} (Inv : T -> Prop) (xs : list A) (body : T -> A -> M T) :
  (∀ s x, Inv s -> ensures (body s x) Inv) -> ∀ s, Inv s -> ensures (fold_m xs body s) Inv.
Proof.
  intros Hb. induction xs as [|x xs IH]; intros s Hs; [by apply ensures_ret|].
  apply (ensures_bind _ _ Inv); auto.
Qed.
End Ensures.

(** ** Programs over a shared invariant

    [respects I Q p]: from every keyspace that satisfies [I], each effect of [p] leads to
    one that does, whatever others have done in between, and when [p] ends its result
    satisfies [Q].  Programs that respect one invariant can be interleaved. *)

Section Respects.
#[local] Transparent redis script sql time_ms.
Context {E : Env}.
Notation W := (world doc_services).

Fixpoint respects (I : keyspace -> Prop) {A} (Q : A -> Prop) (p : prog A) : Prop :=
  match p with
  | Ret a => Q a
  | Vis e k => ∀ w : W, I (w_redis w) -> I (w_redis (step e w).1) /\ respects I Q (k (step e w).2)
  end.

Lemma respects_weaken I {A} (P Q : A -> Prop) (p : prog A) :
  respects I P p -> (∀ a, P a -> Q a) -> respects I Q p.
Proof.
  intros Hp HQ. induction p as [a|X e k IH]; simpl in *; [auto|]. intros w Hw. destruct (Hp w Hw). auto.
Qed.

Lemma respects_pbind I {A B} (P : A -> Prop) (Q : B -> Prop) (m : prog A) (f : A -> prog B) :
  respects I P m -> (∀ a, P a -> respects I Q (f a)) -> respects I Q (pbind m f).
Proof.
  intros Hm Hf. induction m as [a|X e k IH]; simpl in *; [auto|].
  intros w Hw. destruct (Hm w Hw). auto.
Qed.

(** Exceptions that [m] may raise must satisfy [Q] as they are. *)
Lemma respects_bind I {A B} (P : A -> Prop) (Q : exn + B -> Prop) (m : M A) (f : A -> M B) :
  respects I (λ r, match r with inr a => P a | inl e => Q (inl e) end) m ->
  (∀ a, P a -> respects I Q (f a)) -> respects I Q (bind m f).
Proof. intros Hm Hf. eapply respects_pbind; [exact Hm|]. intros [e|a] H; [done|auto]. Qed.

Lemma respects_time I (Q : exn + Z -> Prop) : (∀ t, Q (inr t)) -> respects I Q time_ms.
Proof. intros HQ. unfold time_ms, eff_. simpl. auto. Qed.

Lemma respects_http I r (Q : exn + http_response -> Prop) :
  (∀ n, Q (http_answer n r)) -> respects I Q (http r).
Proof. intros HQ. unfold http, effx. simpl. auto. Qed.

(** A command on one key: what it makes of the key's live entry, and what it answers. *)
Lemma respects_redis I k {X} (a : act X) (Q : exn + X -> Prop) :
  (∀ now ks, I ks -> I (put k (act_doc now a (live now ks k)).1 ks)) ->
  (∀ now ks, I ks -> Q (act_doc now a (live now ks k)).2) -> (∀ n e, redis_fault n = Some e -> Q (inl e)) ->
  respects I Q (redis k a).
Proof.
  intros HI HQ Hf. unfold redis, effx. cbn [respects]. intros w Hw. unfold step. destruct (redis_fault (w_tick w)) eqn:Ef.
  - simpl. split; [done|]. by eapply Hf.
  - cbn [rexec doc_services]. rewrite lua_run_call1.
    specialize (HI (w_now w) _ Hw). specialize (HQ (w_now w) _ Hw). by destruct (act_doc _ _ _).
Qed.

Lemma respects_script I {X} (m : lua X) (Q : exn + X -> Prop) :
  (∀ now ks, I ks -> I (lua_run now m ks).1) -> (∀ now ks, I ks -> Q (lua_run now m ks).2) ->
  (∀ n e, redis_fault n = Some e -> Q (inl e)) -> respects I Q (script m).
Proof.
  intros HI HQ Hf. unfold script, effx. cbn [respects]. intros w Hw. unfold step.
  destruct (redis_fault (w_tick w)) eqn:Ef; [simpl; split; [done|by eapply Hf]|]. cbn [rexec doc_services].
  specialize (HI (w_now w) _ Hw). specialize (HQ (w_now w) _ Hw). by destruct (lua_run _ _ _).
Qed.

Lemma respects_sql I {X} (tx : Z -> tables -> exn + (tables * X)) (Q : exn + X -> Prop) :
  (∀ now t, Q (match tx now t with inr (_, x) => inr x | inl e => inl e end)) ->
  (∀ n e, db_fault n = Some e -> Q (inl e)) -> respects I Q (sql tx).
Proof.
  intros HQ Hf. unfold sql, effx. cbn [respects]. intros w Hw. unfold step.
  destruct (db_fault (w_tick w)) eqn:Ef; [simpl; split; [done|by eapply Hf]|]. cbn [dbexec doc_services].
  specialize (HQ (w_now w) (w_db w)). by destruct (tx _ _) as [|[]].
Qed.

(** A program on its own *)
Lemma run_respects I {A} (Q : A -> Prop) (p : prog A) : ∀ w : W,
  respects I Q p -> I (w_redis w) -> Q (run p w).2 /\ I (w_redis (run p w).1).
Proof.
  induction p as [a|X e k IH]; intros w Hp Hw; [done|]. simpl. destruct (Hp w Hw) as [HI Hk].
  destruct (step e w) as [w' x]. by apply IH.
Qed.

Lemma interleave_respects I {A} (Q : nat -> A -> Prop) sched : ∀ (ps : list (prog A)) (w : W),
  (∀ i p, ps !! i = Some p -> respects I (Q i) p) -> I (w_redis w) ->
  (∀ i p, (interleave sched ps w).1 !! i = Some p -> respects I (Q i) p).
Proof.
  induction sched as [|t sched IH]; intros ps w Hp Hw; simpl; [done|].
  unfold thread_step. destruct (ps !! t) as [[a|X e k]|] eqn:Et; [by apply IH| |by apply IH].
  destruct (Hp t _ Et w Hw) as [HI Hk]. destruct (step e w) as [w' x].
  apply IH; [|done]. intros i p [(<- & <- & _)|[_ Hi]]%list_lookup_insert_Some; [done|by apply Hp].
Qed.

End Respects.
#[global] Opaque redis script sql time_ms.
