(* ===== verification/QueueKeys.v ===== *)
(** * Redis key names

    [src/platform/queue_keys.py], with the lemmas that keep the keys of
    different roles and of different capabilities apart. *)

From Stdlib Require Import Ascii.
From stdpp Require Import base strings.
From S2P Require Import Prelude.

Definition pending (capability : string) : string := "{queue:" +:+ capability +:+ "}:pending".
Definition running (capability : string) : string := "{queue:" +:+ capability +:+ "}:running".
Definition stats (capability : string) : string := "{queue:" +:+ capability +:+ "}:stats".
Definition config (capability : string) : string := "{queue:" +:+ capability +:+ "}:config".
Definition slot_running (capability : string) : string := "{slot:" +:+ capability +:+ "}:running".
Definition slot_config (capability : string) : string := "{slot:" +:+ capability +:+ "}:config".
Definition callback_retry : string := "callback:retry:pending".
Definition callback_done (task_id : string) : string := "callback:done:" +:+ task_id.
Definition callback_dlq : string := "callback:dlq".

(** The part of a key Redis Cluster hashes: the text between the first [{] and
    the first [}] after it. *)
Fixpoint until_brace (s : string) : option string :=
  match s with
  | EmptyString => None
  | String c s' =>
      if bool_decide (c = "}"%char) then Some "" else String c <$> until_brace s'
  end.

Fixpoint hash_tag (s : string) : option string :=
  match s with
  | EmptyString => None
  | String c s' => if bool_decide (c = "{"%char) then until_brace s' else hash_tag s'
  end.

(** ** Lemmas *)

#[local] Arguments String.append !s1 s2 : simpl nomatch.

(** Two keys with a common part: strip it and compare what is left. *)
Ltac key_neq :=
  let E := fresh "E" in
  intros E;
  repeat (apply string_app_inj_l in E);
  first [ discriminate E | injection E; intros; discriminate | done ].

Lemma pending_running c : pending c <> running c.
Proof. unfold pending, running. key_neq. Qed.
Lemma pending_stats c : pending c <> stats c.
Proof. unfold pending, stats. key_neq. Qed.
Lemma pending_config c : pending c <> config c.
Proof. unfold pending, config. key_neq. Qed.
Lemma running_stats c : running c <> stats c.
Proof. unfold running, stats. key_neq. Qed.
Lemma running_config c : running c <> config c.
Proof. unfold running, config. key_neq. Qed.
Lemma stats_config c : stats c <> config c.
Proof. unfold stats, config. key_neq. Qed.
Lemma slot_running_config c : slot_running c <> slot_config c.
Proof. unfold slot_running, slot_config. key_neq. Qed.

#[export] Hint Resolve pending_running pending_stats pending_config running_stats
  running_config stats_config slot_running_config : sched.

(** The capability is recovered from the key when it has no brace. *)
Lemma until_brace_app c rest :
  no_char "}"%char c -> until_brace (c +:+ String "}"%char rest) = Some c.
Proof.
  induction c as [|x c IH]; simpl; [done|]. unfold no_char; simpl.
  intros [H1 H2]%andb_True. rewrite bool_decide_eq_false_2 by (by apply negb_True in H1; destruct (bool_decide_reflect (x = "}"%char))).
  unfold no_char in IH. by rewrite IH.
Qed.

Lemma hash_tag_queue cap suffix :
  no_char "}"%char cap ->
  hash_tag ("{queue:" +:+ cap +:+ String "}"%char suffix) = Some ("queue:" +:+ cap).
Proof. intros H. simpl. by rewrite (until_brace_app cap). Qed.

Lemma pending_inj c c' :
  no_char "}"%char c -> no_char "}"%char c' -> pending c = pending c' -> c = c'.
Proof.
  unfold pending. intros H H' E%string_app_inj_l.
  by eapply split_at_char in E as [? _].
Qed.

(** A key of one capability in one role is none of another capability's keys. *)
Lemma queue_key_apart c c' s s' :
  no_char "}"%char c -> no_char "}"%char c' -> c <> c' ->
  "{queue:" +:+ c +:+ String "}"%char s <> "{queue:" +:+ c' +:+ String "}"%char s'.
Proof.
  intros H H' Hne E%string_app_inj_l. by eapply split_at_char in E as [? _].
Qed.
