(* ===== verification/CircuitBreaker.v ===== *)
(** * Circuit breaker

    [src/platform/circuit_breaker.py]: the three Lua scripts and the methods of
    [CircuitBreaker].  The abstract specification is a two-state machine with a
    failure counter ([breaker], [on_failure], [on_success], [age]); the
    refinement lemmas show that the Redis-backed code implements it.  The
    documented third state [half_open] is never entered. *)

From Stdlib Require Import Ascii.
From stdpp Require Import base gmap strings list.
From S2P Require Import Prelude PyValue Redis TaskModel Tables Effects QueueKeys.

Open Scope Z_scope.

Record CircuitBreaker := {
  cb_prefix : string;
  cb_threshold : Z;
  cb_open_duration : Z;
  cb_half_open_max : Z
}.

Definition CircuitBreaker_init (key_prefix : string)
    (failure_threshold open_duration_seconds half_open_max : Z) : CircuitBreaker :=
  {| cb_prefix := rstrip_colon key_prefix; cb_threshold := failure_threshold;
     cb_open_duration := open_duration_seconds; cb_half_open_max := half_open_max |}.

(** ** Lua scripts *)

Definition lua_record_failure (state_key count_key : string) (threshold open_ttl : Z) : lua string :=
  (let+ st := call state_key GET in
   let state := default "closed" st in
   if decide (state = "open") then LRet state else
   let+ count := call count_key INCR in
   do+ call count_key (EXPIRE (open_ttl * 4)) in
   if (count >=? threshold) || bool_decide (state = "half_open") then
     do+ call state_key (SET "open" None false) in
     do+ call state_key (EXPIRE open_ttl) in
     do+ call count_key DEL in
     LRet "open"
   else LRet "closed")%lua.

Definition lua_record_success (state_key count_key : string) : lua string :=
  (let+ st := call state_key GET in
   let state := default "closed" st in
   if decide (state = "half_open") then
     do+ call state_key (SET "closed" None false) in
     do+ call count_key DEL in
     LRet "closed"
   else
     do+ call count_key DEL in
     LRet state)%lua.

Definition lua_check_state (state_key ho_key : string) (ho_max : Z) : lua string :=
  (let+ st := call state_key GET in
   match st with
   | None => LRet "closed"
   | Some state =>
       if decide (state = "open") then LRet "open"
       else if decide (state = "half_open") then
         let+ a := call ho_key GET in
         match tonumber (default "0" a) with
         | None => LFail (Exn ResponseError "attempt to compare nil with number")
         | Some attempts =>
             if attempts >=? ho_max then LRet "open" else
             do+ call ho_key INCR in
             do+ call ho_key (EXPIRE 120) in
             LRet "half_open"
         end
       else LRet "closed"
   end)%lua.

(** ** Methods *)

Section Methods.
Context (cb : CircuitBreaker).

Definition state_key (capability : string) : string :=
  cb_prefix cb +:+ ":" +:+ capability +:+ ":cb:state".
Definition count_key (capability : string) : string :=
  cb_prefix cb +:+ ":" +:+ capability +:+ ":cb:failures".
Definition half_open_key (capability : string) : string :=
  cb_prefix cb +:+ ":" +:+ capability +:+ ":cb:half_open".

Definition record_failure (capability : string) : M string :=
  let* _now := time_ms in
  script (lua_record_failure (state_key capability) (count_key capability)
            (cb_threshold cb) (cb_open_duration cb)).

Definition record_success (capability : string) : M string :=
  script (lua_record_success (state_key capability) (count_key capability)).

Definition get_state (capability : string) : M string :=
  script (lua_check_state (state_key capability) (half_open_key capability)
            (cb_half_open_max cb)).

Definition is_open (capability : string) : M bool :=
  let* state := get_state capability in
  ret (bool_decide (state = "open")).

Definition allow_request (capability : string) : M bool :=
  let* state := get_state capability in
  ret (bool_decide (state = "closed") || bool_decide (state = "half_open")).

Definition get_stats : list (string * value) :=
  [("failure_threshold", VInt (cb_threshold cb));
   ("open_duration_seconds", VInt (cb_open_duration cb));
   ("half_open_max", VInt (cb_half_open_max cb))].

(** ** Abstract specification *)

(** [Closed n until]: [n] consecutive failures, forgotten at [until];
    [Open until]: requests are rejected until then. *)
Inductive breaker :=
| Closed (n : Z) (until : Z)
| Open (until : Z).

Definition age (now : Z) (b : breaker) : breaker :=
  match b with
  | Closed n t => if t <=? now then Closed 0 0 else b
  | Open t => if t <=? now then Closed 0 0 else b
  end.

Definition on_failure (now : Z) (b : breaker) : breaker :=
  match b with
  | Open t => Open t
  | Closed n _ =>
      if n + 1 >=? cb_threshold cb then Open (now + cb_open_duration cb * 1000)
      else Closed (n + 1) (now + cb_open_duration cb * 4 * 1000)
  end.

Definition on_success (b : breaker) : breaker :=
  match b with Open t => Open t | Closed _ _ => Closed 0 0 end.

Definition state_name (b : breaker) : string :=
  match b with Open _ => "open" | Closed _ _ => "closed" end.

(** The keyspace holds the breaker of [capability]. *)
Definition rep (capability : string) (now : Z) (ks : keyspace) (b : breaker) : Prop :=
  match b with
  | Open t =>
      live now ks (state_key capability) = Some (REntry (RStr "open") (Some t)) /\
      live now ks (count_key capability) = None
  | Closed n t =>
      0 <= n /\
      live now ks (state_key capability) = None /\
      if n =? 0 then live now ks (count_key capability) = None
      else live now ks (count_key capability) = Some (REntry (RStr (dec_of_Z n)) (Some t))
  end.

(** No key holds the text [half_open]. *)
Definition no_half_open (ks : keyspace) : Prop :=
  ∀ k e, ks !! k = Some e -> re_val e <> RStr "half_open".

(** ** Lemmas *)

Lemma state_count c : state_key c <> count_key c.
Proof. unfold state_key, count_key. key_neq. Qed.

Lemma rep_age c now now' ks b :
  now <= now' -> rep c now ks b -> rep c now' ks (age now' b).
Proof.
  intros L. destruct b as [n t|t]; simpl; [intros (H0 & H1 & H2)|intros [H1 H2]].
  - destruct (t <=? now') eqn:E; simpl; rewrite !(live_later now now'), H1 by done;
      (split; [done|split; [done|]]); destruct (n =? 0); rewrite H2; simpl; try done;
      unfold expired; simpl; by rewrite E.
  - destruct (t <=? now') eqn:E; simpl; rewrite !(live_later now now'), H1, H2 by done;
      unfold expired; simpl; by rewrite E.
Qed.

Lemma rep_failure c now ks b :
  0 < cb_open_duration cb -> rep c now ks b ->
  exists ks', lua_run now (lua_record_failure (state_key c) (count_key c)
                 (cb_threshold cb) (cb_open_duration cb)) ks
              = (ks', inr (state_name (on_failure now b))) /\
              rep c now ks' (on_failure now b).
Proof.
  intros Hd. pose proof (state_count c) as Hne.
  unfold lua_record_failure. rewrite lua_run_call.
  destruct b as [n t|t]; simpl; [intros (H0 & H1 & H2)|intros [H1 H2]]; rewrite H1.
  2:{ rewrite act_GET_str; lua_beta. simpl. eexists. split; [done|]. simpl.
      rewrite live_put_eq, live_put_ne by (done || rewrite <-H1; apply live_fresh). done. }
  rewrite act_GET_none; lua_beta. rewrite decide_False by done.
  rewrite lua_run_call, live_put_ne by done.
  assert (Hincr : act_doc now INCR (live now ks (count_key c)) =
    (Some (REntry (RStr (dec_of_Z (n + 1))) (if n =? 0 then None else Some t)), inr (n + 1))).
  { destruct (n =? 0) eqn:En; rewrite H2.
    - apply Z.eqb_eq in En as ->. done.
    - Transparent act_doc. simpl. by rewrite Z_of_dec_of_Z. Opaque act_doc. }
  assert (Hfr : fresh now (Some (REntry (RStr (dec_of_Z (n + 1))) (if n =? 0 then None else Some t)))).
  { destruct (n =? 0); [done|]. pose proof (live_fresh now ks (count_key c)) as F.
    rewrite H2 in F. done. }
  rewrite Hincr; lua_beta. rewrite lua_run_call, live_put_eq by done.
  rewrite act_EXPIRE. unfold set_expiry at 1. rewrite (proj2 (Z.leb_gt _ _)) by lia. lua_beta.
  rewrite put_put. rewrite bool_decide_eq_false_2, orb_false_r by done.
  destruct (n + 1 >=? cb_threshold cb) eqn:Et.
  - rewrite lua_run_call, act_SET; lua_beta. rewrite lua_run_call, live_put_eq by done.
    rewrite act_EXPIRE. unfold set_expiry. rewrite (proj2 (Z.leb_gt _ _)) by lia. lua_beta.
    rewrite lua_run_call, act_DEL. simpl. eexists. split; [done|]. simpl. split.
    + rewrite live_put_ne by done. apply live_put_eq. simpl.
      apply Z.leb_gt. lia.
    + by apply live_put_eq.
  - simpl. eexists. split; [done|]. split; [lia|]. split.
    + rewrite live_put_ne by done. by apply live_put_eq.
    + rewrite (proj2 (Z.eqb_neq _ _)) by lia.
      apply live_put_eq. apply Z.leb_gt. lia.
Qed.

Lemma rep_success c now ks b :
  rep c now ks b ->
  exists ks', lua_run now (lua_record_success (state_key c) (count_key c)) ks
              = (ks', inr (state_name (on_success b))) /\
              rep c now ks' (on_success b).
Proof.
  pose proof (state_count c) as Hne. unfold lua_record_success. rewrite lua_run_call.
  destruct b as [n t|t]; simpl; [intros (H0 & H1 & H2)|intros [H1 H2]]; rewrite H1.
  - rewrite act_GET_none; lua_beta. rewrite decide_False by done.
    rewrite lua_run_call, act_DEL. simpl. eexists. split; [done|].
    rewrite live_put_ne, !live_put_eq by done. done.
  - rewrite act_GET_str; lua_beta. rewrite decide_False by done.
    rewrite lua_run_call, act_DEL. simpl. eexists. split; [done|].
    rewrite live_put_ne, !live_put_eq by (done || rewrite <-H1; apply live_fresh). done.
Qed.

Lemma rep_check c now ks b :
  rep c now ks b ->
  exists ks', lua_run now (lua_check_state (state_key c) (half_open_key c) (cb_half_open_max cb)) ks
              = (ks', inr (state_name b)) /\ rep c now ks' b.
Proof.
  pose proof (state_count c) as Hne. unfold lua_check_state. rewrite lua_run_call.
  destruct b as [n t|t]; simpl; [intros (H0 & H1 & H2)|intros [H1 H2]]; rewrite H1.
  - rewrite act_GET_none; lua_beta. eexists. split; [done|].
    rewrite live_put_eq, live_put_ne by done. done.
  - rewrite act_GET_str; lua_beta. rewrite decide_True by done. eexists. split; [done|].
    rewrite live_put_eq, live_put_ne by (done || rewrite <-H1; apply live_fresh). done.
Qed.

(** A breaker never used is closed. *)
Lemma rep_fresh c now ks :
  ks !! state_key c = None -> ks !! count_key c = None -> rep c now ks (Closed 0 0).
Proof. unfold rep, live. by intros -> ->. Qed.

(** *** [half_open] is never written *)

Lemma no_half_open_put k e ks :
  no_half_open ks -> (∀ x, e = Some x -> re_val x <> RStr "half_open") ->
  no_half_open (put k e ks).
Proof.
  intros H He k' x. unfold put. destruct e as [e|].
  - rewrite lookup_insert_Some. intros [[_ <-]|[_ Hx]]; [by apply He | by eapply H].
  - rewrite lookup_delete_Some. intros [_ Hx]. by eapply H.
Qed.

Lemma live_val k now ks x : no_half_open ks -> live now ks k = Some x -> re_val x <> RStr "half_open".
Proof.
  unfold live. intros H. destruct (ks !! k) as [e|] eqn:E; [|done].
  case_match; intros; simplify_eq. by eapply H.
Qed.

Lemma dec_not_half_open n : dec_of_Z n <> "half_open".
Proof. intros E%(f_equal Z_of_dec). rewrite Z_of_dec_of_Z in E. vm_compute in E. done. Qed.

(** The commands the scripts use keep it so, whatever the key holds. *)
Lemma act_no_half_open {X} (a : act X) now e e' r :
  match a with
  | GET | DEL | INCR | EXPIRE _ => True
  | SET v _ _ => v <> "half_open"
  | _ => False
  end ->
  (∀ x, e = Some x -> re_val x <> RStr "half_open") ->
  act_doc now a e = (e', r) ->
  ∀ x, e' = Some x -> re_val x <> RStr "half_open".
Proof.
  Transparent act_doc.
  destruct a; try done; simpl; intros Ha He Hact x ->; unfold set_expiry in *;
    repeat case_match; simplify_eq/=;
    first [ exact (He _ eq_refl)
          | congruence
          | intros [= E]; exact (dec_not_half_open _ E) ].
  Opaque act_doc.
Qed.

Lemma GET_no_half_open now e e' s :
  (∀ x, e = Some x -> re_val x <> RStr "half_open") ->
  act_doc now GET e = (e', inr (Some s)) -> s <> "half_open".
Proof.
  Transparent act_doc.
  intros He. simpl. repeat case_match; intros; simplify_eq. intros ->.
  by eapply (He (REntry (RStr "half_open") _)).
  Opaque act_doc.
Qed.

Lemma call_no_half_open {X A} now k (a : act X) (f : X -> lua A) ks (Q : exn + A -> Prop) :
  match a with
  | GET | DEL | INCR | EXPIRE _ => True
  | SET v _ _ => v <> "half_open"
  | _ => False
  end ->
  no_half_open ks ->
  (∀ e, Q (inl e)) ->
  (∀ ks' x e, act_doc now a (live now ks k) = (e, inr x) -> no_half_open ks' ->
     no_half_open (lua_run now (f x) ks').1 /\ Q (lua_run now (f x) ks').2) ->
  no_half_open (lua_run now (lua_bind (call k a) f) ks).1 /\
  Q (lua_run now (lua_bind (call k a) f) ks).2.
Proof.
  intros Ha Hks HQ Hf. rewrite lua_run_call.
  destruct (act_doc now a (live now ks k)) as [e r] eqn:Ea.
  assert (no_half_open (put k e ks)) as Hp.
  { apply no_half_open_put; [done|].
    eapply act_no_half_open; [exact Ha| |exact Ea]. intros x Hx. by eapply live_val. }
  destruct r as [err|x]; simpl; [done|]. eapply Hf; done.
Qed.

Definition never_half (r : exn + string) : Prop := r <> inr "half_open".

Ltac nh_step :=
  apply (call_no_half_open _ _ _ _ _ never_half);
    [ done | done | done
    | let Hx := fresh "Hx" in let Hk := fresh "Hk" in
      intros ? ? ? Hx Hk; lua_beta ].

Lemma failure_no_half_open now sk ck th ttl ks :
  no_half_open ks ->
  no_half_open (lua_run now (lua_record_failure sk ck th ttl) ks).1 /\
  never_half (lua_run now (lua_record_failure sk ck th ttl) ks).2.
Proof.
  intros H. unfold lua_record_failure. nh_step.
  case_decide as Hs; [rewrite Hs; done|]. do 2 nh_step.
  match goal with |- context [if ?b then _ else _] => destruct b end; [do 3 nh_step|]; done.
Qed.

Lemma success_no_half_open now sk ck ks :
  no_half_open ks ->
  no_half_open (lua_run now (lua_record_success sk ck) ks).1 /\
  never_half (lua_run now (lua_record_success sk ck) ks).2.
Proof.
  intros H. unfold lua_record_success. nh_step.
  case_decide as Hs; [do 2 nh_step; done|]. nh_step. split; [done|].
  unfold lua_run, never_half. naive_solver.
Qed.

Lemma check_no_half_open now sk hk m ks :
  no_half_open ks ->
  no_half_open (lua_run now (lua_check_state sk hk m) ks).1 /\
  never_half (lua_run now (lua_check_state sk hk m) ks).2.
Proof.
  intros H. unfold lua_check_state. nh_step. destruct x as [s|]; [|done].
  case_decide; [done|]. rewrite decide_False; [done|].
  refine (GET_no_half_open _ _ _ _ _ Hx). intros y. by apply live_val.
Qed.
End Methods.

(** ** Operation sequences *)

Inductive cb_op := OpFailure | OpSuccess | OpCheck.

Definition cb_call (cb : CircuitBreaker) (c : string) (op : cb_op) : M string :=
  match op with
  | OpFailure => record_failure cb c
  | OpSuccess => record_success cb c
  | OpCheck => get_state cb c
  end.

Fixpoint cb_calls (cb : CircuitBreaker) (c : string) (ops : list cb_op) : M (list string) :=
  match ops with
  | [] => ret []
  | op :: ops' =>
      let* s := cb_call cb c op in
      let* ss := cb_calls cb c ops' in
      ret (s :: ss)
  end.

Definition spec_step (cb : CircuitBreaker) (t : Z) (op : cb_op) (b : breaker) : breaker :=
  match op with
  | OpFailure => on_failure cb t (age t b)
  | OpSuccess => on_success (age t b)
  | OpCheck => age t b
  end.

(** The abstract machine: every operation happens at some time not before the
    previous one. *)
Inductive spec_run (cb : CircuitBreaker) :
    Z -> breaker -> list cb_op -> list string -> Z -> breaker -> Prop :=
| spec_nil t b : spec_run cb t b [] [] t b
| spec_cons t t1 t2 b b2 op ops ss :
    t <= t1 ->
    spec_run cb t1 (spec_step cb t1 op b) ops ss t2 b2 ->
    spec_run cb t b (op :: ops) (state_name (spec_step cb t1 op b) :: ss) t2 b2.

Section Runs.
Context {E : Env} (Hq : quiet E) (cb : CircuitBreaker) (Hd : 0 < cb_open_duration cb).

Lemma script_step {X} (m : lua X) (w : world doc_services) ks x :
  lua_run (w_now w) m (w_redis w) = (ks, inr x) ->
  run (script m) w = (after ks (w_db w) w, inr x).
Proof using Hq. intros H. rewrite run_script, (proj1 Hq), H. done. Qed.

Lemma cb_call_spec c op (w : world doc_services) t b :
  t <= w_now w -> rep cb c t (w_redis w) b ->
  exists w' t1, run (cb_call cb c op) w = (w', inr (state_name (spec_step cb t1 op b))) /\
    t <= t1 <= w_now w' /\ rep cb c t1 (w_redis w') (spec_step cb t1 op b).
Proof using Hq Hd.
  intros Ht Hr. destruct op; simpl.
  - unfold record_failure. rewrite run_bind, run_time_ms. cbv beta iota.
    set (w1 := after (w_redis w) (w_db w) w).
    assert (t <= w_now w1) as Ht1. { subst w1; simpl; lia. }
    destruct (rep_failure cb c (w_now w1) (w_redis w1) (age (w_now w1) b)) as (ks & Hk & Hr');
      [done| by eapply rep_age |].
    do 2 eexists. rewrite (script_step _ _ _ _ Hk). split; [done|]. simpl. split; [lia|done].
  - destruct (rep_success cb c (w_now w) (w_redis w) (age (w_now w) b)) as (ks & Hk & Hr');
      [by eapply rep_age|].
    exists (after ks (w_db w) w), (w_now w). unfold record_success.
    rewrite (script_step _ _ _ _ Hk). split; [done|]. simpl. split; [lia|done].
  - destruct (rep_check cb c (w_now w) (w_redis w) (age (w_now w) b)) as (ks & Hk & Hr');
      [by eapply rep_age|].
    exists (after ks (w_db w) w), (w_now w). unfold get_state.
    rewrite (script_step _ _ _ _ Hk). split; [done|]. simpl. split; [lia|done].
Qed.

Lemma cb_calls_spec c ops : ∀ (w : world doc_services) t b,
  t <= w_now w -> rep cb c t (w_redis w) b ->
  let '(w', r) := run (cb_calls cb c ops) w in
  exists ss t' b', r = inr ss /\ spec_run cb t b ops ss t' b' /\
    t' <= w_now w' /\ rep cb c t' (w_redis w') b'.
Proof using Hq Hd.
  induction ops as [|op ops IH]; intros w t b Ht Hr; simpl.
  - exists [], t, b. split; [done|]. split; [constructor|done].
  - destruct (cb_call_spec c op w t b Ht Hr) as (w1 & t1 & Hrun & [Hl Hu] & Hr1).
    rewrite run_bind, Hrun, run_bind. specialize (IH w1 t1 _ Hu Hr1).
    destruct (run (cb_calls cb c ops) w1) as [w2 r].
    destruct IH as (ss & t' & b' & -> & Hs & H1 & H2).
    exists (state_name (spec_step cb t1 op b) :: ss), t', b'. split; [done|].
    split; [by econstructor | done].
Qed.

Lemma allow_spec c (w : world doc_services) t b :
  t <= w_now w -> rep cb c t (w_redis w) b ->
  exists w', run (allow_request cb c) w =
    (w', inr (match age (w_now w) b with Closed _ _ => true | Open _ => false end)).
Proof using Hq.
  intros Ht Hr.
  destruct (rep_check cb c (w_now w) (w_redis w) (age (w_now w) b)) as (ks & Hk & Hr');
    [by eapply rep_age|].
  unfold allow_request, get_state. rewrite run_bind, (script_step _ _ _ _ Hk).
  eexists. simpl. by destruct (age (w_now w) b).
Qed.
End Runs.

(** Failures in a row, closer together than the counter's lifetime. *)
Lemma spec_failures cb k : ∀ t0 t ss t' b' n u,
  0 < cb_open_duration cb -> 0 <= n -> n + Z.of_nat k = cb_threshold cb -> (0 < k)%nat ->
  (n = 0 \/ u > t0 + cb_open_duration cb * 1000) -> t0 <= t ->
  spec_run cb t (Closed n u) (repeat OpFailure k) ss t' b' -> t' <= t0 + cb_open_duration cb * 1000 ->
  exists tn, t <= tn <= t' /\ b' = Open (tn + cb_open_duration cb * 1000).
Proof.
  induction k as [|k IH]; intros t0 t ss t' b' n u Hd Hn Hk H0 Hu Ht Hs Ht'; [lia|].
  assert (Hmono : forall a b1 ops s1 c b2, spec_run cb a b1 ops s1 c b2 -> a <= c)
    by (clear; induction 1; lia).
  inversion Hs as [|? t1 ? ? ? ? ? ss1 Hle Hs1]; subst.
  pose proof (Hmono _ _ _ _ _ _ Hs1) as Hle1.
  assert (spec_step cb t1 OpFailure (Closed n u) = on_failure cb t1 (Closed n 0)) as Hstep.
  { simpl. destruct (u <=? t1) eqn:E; [|done]. bool_to_prop. assert (n = 0) as -> by lia. done. }
  rewrite Hstep in *. simpl in *.
  destruct (n + 1 >=? cb_threshold cb) eqn:E; bool_to_prop.
  - assert (k = 0%nat) as -> by lia. simpl in Hs1. inversion Hs1; subst.
    exists t'. split; [lia|done].
  - destruct (IH t0 t1 ss1 t' b' (n + 1) (t1 + cb_open_duration cb * 4 * 1000) Hd) as (tn & H1 & H2); try done; try lia.
    exists tn. split; [lia|done].
Qed.

(** ** Properties *)

(** C4: the Redis-backed breaker refines the abstract two-state machine: for
    every sequence of [record_failure], [record_success] and [get_state] calls,
    over any Redis server and any timing, the states returned are those of the
    abstract breaker run at some non-decreasing times, and the keyspace
    afterwards represents the abstract breaker reached. *)
Theorem breaker_refines (S : Services) (E : Env) cb c ops (w : world S) b :
  quiet E -> 0 < cb_open_duration cb ->
  rep cb c (w_now w) (ks_of w) b ->
  let '(w', r) := run (cb_calls cb c ops) w in
  exists ss t' b', r = inr ss /\ spec_run cb (w_now w) b ops ss t' b' /\
    t' <= w_now w' /\ rep cb c t' (ks_of w') b'.
Proof.
  intros Hq Hd Hr.
  transfer (cb_calls_spec Hq cb Hd c ops (wview w) (w_now w) b (Z.le_refl _) Hr).
Qed.

Definition cb_demo : CircuitBreaker := CircuitBreaker_init "circuit:" 3 60 1.

Lemma breaker_refines_witness :
  let '(w', r) := run (S := doc_services) (E := calm)
                      (cb_calls cb_demo "ocr" [OpFailure; OpSuccess; OpFailure; OpFailure; OpFailure; OpCheck])
                      (world0 1000) in
  exists ss t' b', r = inr ss /\
    spec_run cb_demo 1000 (Closed 0 0)
      [OpFailure; OpSuccess; OpFailure; OpFailure; OpFailure; OpCheck] ss t' b' /\
    t' <= w_now w' /\ rep cb_demo "ocr" t' (ks_of w') b'.
Proof.
  apply (breaker_refines doc_services calm cb_demo "ocr" _ (world0 1000) (Closed 0 0)).
  - apply calm_quiet.
  - reflexivity.
  - apply rep_fresh; reflexivity.
Defined.

(** As many consecutive failures as the threshold, recorded within the open
    duration, trip a fresh breaker: the next request is rejected as long as the
    open duration has not passed since the first of them. *)
Theorem breaker_trips (S : Services) (E : Env) cb c (w : world S) :
  quiet E -> 0 < cb_open_duration cb -> 0 < cb_threshold cb ->
  rep cb c (w_now w) (ks_of w) (Closed 0 0) ->
  let '(w', r) := run (do* cb_calls cb c (repeat OpFailure (Z.to_nat (cb_threshold cb))) in
                       allow_request cb c) w in
  w_now w' < w_now w + cb_open_duration cb * 1000 -> r = inr false.
Proof.
  intros Hq Hd Hth Hr.
  assert (let '(w', r) := run (S := doc_services)
            (do* cb_calls cb c (repeat OpFailure (Z.to_nat (cb_threshold cb))) in
             allow_request cb c) (wview w) in
          w_now w' < w_now w + cb_open_duration cb * 1000 -> r = inr false) as H;
    [|transfer H].
  rewrite run_bind.
  pose proof (cb_calls_spec Hq cb Hd c (repeat OpFailure (Z.to_nat (cb_threshold cb)))
                (wview w) (w_now w) (Closed 0 0) (Z.le_refl _) Hr) as H.
  destruct (run (cb_calls cb c _) (wview w)) as [w1 r1].
  destruct H as (ss & t' & b' & -> & Hs & Ht' & Hr').
  destruct (allow_spec Hq cb c w1 t' b' Ht' Hr') as (w2 & Ha).
  pose proof (run_time (S := doc_services) (allow_request cb c) w1) as Hmono.
  rewrite Ha in *. simpl in Hmono. intros Hlt.
  destruct (spec_failures cb (Z.to_nat (cb_threshold cb)) (w_now w) (w_now w)
              ss t' b' 0 0) as (tn & Hn & ->); try done; try lia.
  simpl. rewrite (proj2 (Z.leb_gt _ _)) by lia. done.
Qed.

Lemma breaker_trips_witness :
  let '(w', r) := run (S := doc_services) (E := calm)
                      (do* cb_calls cb_demo "ocr" (repeat OpFailure (Z.to_nat (cb_threshold cb_demo))) in
                       allow_request cb_demo "ocr") (world0 1000) in
  w_now w' < 1000 + 60 * 1000 -> r = inr false.
Proof.
  apply (breaker_trips doc_services calm cb_demo "ocr" (world0 1000)).
  - apply calm_quiet.
  - reflexivity.
  - reflexivity.
  - apply rep_fresh; reflexivity.
Defined.

(** A tripped breaker rejects every request until its expiry time and admits
    the first request from that time on. *)
Theorem breaker_open_window (S : Services) (E : Env) cb c (w : world S) t :
  quiet E -> rep cb c (w_now w) (ks_of w) (Open t) ->
  (run (allow_request cb c) w).2 = inr (t <=? w_now w).
Proof.
  intros Hq Hr.
  destruct (allow_spec Hq cb c (wview w) (w_now w) (Open t) (Z.le_refl _) Hr) as (w' & H).
  rewrite run_view in H. apply (f_equal snd) in H. simpl in H. rewrite H. by destruct (t <=? w_now w).
Qed.

Definition w_tripped : world doc_services :=
  World (S := doc_services)
    (<[state_key cb_demo "ocr" := REntry (RStr "open") (Some 61000)]> (∅ : keyspace))
    empty_tables 60999 0%nat [].

Lemma breaker_open_window_witness :
  (run (S := doc_services) (E := calm) (allow_request cb_demo "ocr") w_tripped).2
  = inr (61000 <=? w_now w_tripped).
Proof.
  apply (breaker_open_window doc_services calm cb_demo "ocr" w_tripped 61000).
  - apply calm_quiet.
  - split; reflexivity.
Defined.

(** The documented HALF_OPEN state is unreachable.  Starting from a keyspace
    in which no key holds [half_open], whatever operations run on whatever
    capabilities, and whatever calls fail, no operation ever returns
    [half_open] and none ever stores it; an expired OPEN goes straight to
    CLOSED. *)
Theorem half_open_unreachable (S : Services) (E : Env) cb (calls : list (string * cb_op)) (w : world S) :
  no_half_open (ks_of w) ->
  let '(w', rs) := run (fold_m calls (λ acc co,
                          let* r := attempt_ (cb_call cb co.1 co.2) in ret (acc ++ [r])) []) w in
  no_half_open (ks_of w') /\
  match rs with inr rs => inr "half_open" ∉ rs | inl _ => True end.
Proof.
  assert (Hone : ∀ c op (w : world doc_services), no_half_open (w_redis w) ->
            let '(w', r) := run (cb_call cb c op) w in
            no_half_open (w_redis w') /\ r <> inr "half_open").
  { clear. intros c op w Hw.
    destruct op; simpl; unfold record_failure, record_success, get_state;
      rewrite ?run_bind, ?run_time_ms; cbv beta iota; rewrite run_script;
      destruct (redis_fault _); try done.
    - destruct (failure_no_half_open (w_now (after (w_redis w) (w_db w) w)) (state_key cb c)
        (count_key cb c) (cb_threshold cb) (cb_open_duration cb)
        (w_redis (after (w_redis w) (w_db w) w)) Hw).
      by destruct (lua_run _ _ _).
    - destruct (success_no_half_open (w_now w) (state_key cb c) (count_key cb c) (w_redis w) Hw).
      by destruct (lua_run _ _ _).
    - destruct (check_no_half_open (w_now w) (state_key cb c) (half_open_key cb c)
        (cb_half_open_max cb) (w_redis w) Hw).
      by destruct (lua_run _ _ _). }
  assert (H : ∀ acc (w : world doc_services), no_half_open (w_redis w) -> inr "half_open" ∉ acc ->
      let '(w', rs) := run (fold_m calls (λ acc co,
                          let* r := attempt_ (cb_call cb co.1 co.2) in ret (acc ++ [r])) acc) w in
      no_half_open (w_redis w') /\
      match rs with inr rs => inr "half_open" ∉ rs | inl _ => True end).
  { induction calls as [|[c op] calls IH]; intros acc v Hv Hacc; simpl; [done|].
    rewrite run_bind, run_bind, run_attempt_. specialize (Hone c op v Hv). simpl in Hone.
    destruct (run (cb_call cb c op) v) as [v1 r]. destruct Hone as [H1 H2].
    rewrite run_ret. apply IH; [done|].
    rewrite not_elem_of_app, list_elem_of_singleton. naive_solver. }
  intros Hw. transfer (H [] (wview w) Hw (not_elem_of_nil _)).
Qed.

Lemma half_open_unreachable_witness :
  let '(w', rs) := run (S := doc_services) (E := calm)
                       (fold_m [("ocr", OpFailure); ("ocr", OpFailure); ("ocr", OpFailure); ("ocr", OpCheck)]
                          (λ acc co, let* r := attempt_ (cb_call cb_demo co.1 co.2) in ret (acc ++ [r])) [])
                       (world0 1000) in
  no_half_open (ks_of w') /\
  match rs with inr rs => inr "half_open" ∉ rs | inl _ => True end.
Proof.
  apply (half_open_unreachable doc_services calm cb_demo _ (world0 1000)).
  intros k e. unfold ks_of, world0; simpl. rewrite lookup_empty. discriminate.
Defined.
