(* ===== verification/QueueManager.v ===== *)
(** * Queue manager

    [src/platform/queue_manager.py]: the seven Lua scripts and the methods of
    [QueueManager].  Each capability has a pending and a running sorted set, a
    statistics hash and a configuration hash.  The circuit breaker is reached
    through the interface [Breaker]. *)

From Stdlib Require Import Ascii.
From stdpp Require Import base gmap strings list sorting.
From S2P Require Import Prelude PyValue Redis TaskModel Tables Effects QueueKeys CircuitBreaker.

Open Scope Z_scope.

Definition CAPABILITIES_KEY : string := "queue:capabilities:registry".
Definition STATS_CACHE_MAX_CAPABILITIES : nat := 2000.
Definition SCORE_BASE : Z := 10000000000000.

(** ** Lua scripts *)

(** [tonumber(redis.call('HGET', key, field) or default)] *)
Definition hget_number (key field : string) (dflt : Z) : lua (option Z) :=
  (let+ v := call key (HGET field) in
   LRet (match v with Some s => tonumber s | None => Some dflt end))%lua.

(** [if not x or x <= 0 then x = default end] *)
Definition positive_or (dflt : Z) (x : option Z) : Z :=
  match x with Some n => if n <=? 0 then dflt else n | None => dflt end.

(** The conditional TTL refresh of one key. *)
Definition refresh_ttl (ttl : Z) (k : string) : lua unit :=
  (let+ remaining := call k TTL in
   if (remaining =? -1) || (2 * remaining <? ttl) then
     do+ call k (EXPIRE ttl) in LRet tt
   else LRet tt)%lua.

Definition lua_enqueue (pending_key stats_key config_key : string)
    (task_id : string) (score default_depth ttl : Z) : lua (Z * Z) :=
  (let+ d := hget_number config_key "max_queue_depth" default_depth in
   let max_depth := positive_or default_depth d in
   let+ cur := call pending_key ZCARD in
   if cur >=? max_depth then LRet (-1, cur) else
   do+ call pending_key (ZADD (of_int score) task_id) in
   do+ call stats_key (HINCRBY "total_enqueued" 1) in
   let+ cnt := call pending_key ZCARD in
   do+ refresh_ttl ttl pending_key in
   do+ refresh_ttl ttl stats_key in
   do+ refresh_ttl ttl config_key in
   LRet (cur + 1, cnt))%lua.

(** The [for i = 1, #candidates, 2] loop of the dequeue script. *)
Fixpoint dequeue_scan (pending_key running_key stats_key : string) (now_ms : Z)
    (candidates : list (string * Z)) : lua (option string) :=
  match candidates with
  | [] => LRet None
  | (tid, sc) :: rest =>
      let ts := sc mod of_int SCORE_BASE in
      if ts <=? of_int now_ms then
        (do+ call pending_key (ZREM tid) in
         do+ call running_key (ZADD (of_int now_ms) tid) in
         do+ call stats_key (HINCRBY "total_dequeued" 1) in
         LRet (Some tid))%lua
      else dequeue_scan pending_key running_key stats_key now_ms rest
  end.

Definition lua_dequeue_ready (pending_key running_key stats_key config_key : string)
    (default_mc now_ms : Z) (scan_limit : nat) : lua (option string) :=
  (let+ m := hget_number config_key "max_concurrent" default_mc in
   let max_concurrent := positive_or default_mc m in
   let+ running_cnt := call running_key ZCARD in
   if running_cnt >=? max_concurrent then LRet None else
   let+ candidates := call pending_key (ZRANGEBYSCORE None None (Some scan_limit)) in
   dequeue_scan pending_key running_key stats_key now_ms candidates)%lua.

Definition lua_cancel (pending_key running_key task_id : string) : lua Z :=
  (let+ removed := call pending_key (ZREM task_id) in
   if removed =? 1 then LRet 1 else call running_key (ZREM task_id))%lua.

Definition lua_complete (running_key stats_key task_id counter : string) : lua Z :=
  (do+ call running_key (ZREM task_id) in
   do+ call stats_key (HINCRBY counter 1) in
   LRet 1)%lua.

Definition lua_adjust_concurrent (config_key : string) (delta default_val : Z) : lua Z :=
  (let+ c := hget_number config_key "max_concurrent" default_val in
   let cur := default default_val c in
   let new_val := Z.max 1 (cur + delta) in
   do+ call config_key (HSET [("max_concurrent", dec_of_Z new_val)]) in
   LRet new_val)%lua.

Definition lua_acquire_slot (running_key config_key slot_id : string)
    (default_mc now_ts ttl : Z) : lua Z :=
  (let+ m := hget_number config_key "max_concurrent" default_mc in
   let max_concurrent := default default_mc m in
   let+ cur := call running_key ZCARD in
   if cur >=? max_concurrent then LRet (-1) else
   do+ call running_key (ZADD (of_int now_ts) slot_id) in
   let+ remaining := call running_key TTL in
   if (remaining =? -1) || (2 * remaining <? ttl) then
     do+ call running_key (EXPIRE ttl) in
     do+ call config_key (EXPIRE ttl) in
     LRet 1
   else LRet 1)%lua.

Definition lua_recover_concurrent (config_key : string) (default_baseline : Z) : lua Z :=
  (let+ b := hget_number config_key "max_concurrent_baseline" default_baseline in
   let baseline := default default_baseline b in
   let+ c := hget_number config_key "max_concurrent" baseline in
   let cur := default baseline c in
   if cur <? baseline then
     let new_val := cur + 1 in
     do+ call config_key (HSET [("max_concurrent", dec_of_Z new_val)]) in
     LRet new_val
   else LRet cur)%lua.

(** ** The breaker interface *)

(** What the queue manager asks of a circuit breaker: its three operations, and
    that they touch no key outside the breaker's own. *)
Class Breaker (B : Type) := {
  b_allow : B -> string -> M bool;
  b_success : B -> string -> M string;
  b_failure : B -> string -> M string;
  b_owns : B -> string -> string -> Prop;
  b_allow_frame : ∀ (E : Env) b cap k, ~ b_owns b cap k -> leaves k (b_allow b cap);
  b_allow_db : ∀ (E : Env) b cap, db_keeps (λ t, t) (b_allow b cap)
}.

(** ** State *)

Record qstats := {
  qs_pending : Z; qs_running : Z; qs_enqueued : Z; qs_dequeued : Z;
  qs_completed : Z; qs_failed : Z
}.

Definition zero_stats : qstats :=
  {| qs_pending := 0; qs_running := 0; qs_enqueued := 0; qs_dequeued := 0;
     qs_completed := 0; qs_failed := 0 |}.

(** [decode_responses] is the Redis client's setting: whether replies are [str]
    or [bytes]. *)
Record QueueManager (B : Type) := {
  qm_cb : option B;
  qm_default_depth : Z;
  qm_default_mc : Z;
  qm_ttl : Z;
  qm_scan_limit : nat;
  qm_decode_responses : bool
}.
Arguments qm_cb {_}.
Arguments qm_default_depth {_}.
Arguments qm_default_mc {_}.
Arguments qm_ttl {_}.
Arguments qm_scan_limit {_}.
Arguments qm_decode_responses {_}.

(** The mutable attributes: the statistics cache and its refresh time. *)
Record qm_cache := { stats_cache : list (string * qstats); stats_cache_time : Z }.

Definition STATS_REFRESH_INTERVAL : Z := 10000.

Record enqueue_result := { accepted : bool; queue_position : Z; pending_count : Z }.

(** ** Methods *)

Section Methods.
Context {B : Type} {BI : Breaker B} (qm : QueueManager B).

Definition cb_allows (capability : string) : M bool :=
  match qm_cb qm with
  | Some cb => b_allow cb capability
  | None => ret true
  end.

(** [priority * 10_000_000_000_000 + ts] *)
Definition encode_score (priority ts : Z) : Z := priority * SCORE_BASE + ts.

Definition invalidate_stats_cache (c : qm_cache) : qm_cache :=
  {| stats_cache := stats_cache c; stats_cache_time := 0 |}.

Definition enqueue (c : qm_cache) (capability task_id : string)
    (priority execute_after_ms : Z) : M (qm_cache * enqueue_result) :=
  let* ok := cb_allows capability in
  if negb ok then
    raise (Exn RuntimeError
      ("Circuit breaker open for capability '" +:+ capability +:+ "' — enqueue rejected"))
  else
  let* now_ms := time_ms in
  let ts := if execute_after_ms >? now_ms then execute_after_ms else now_ms in
  let score := encode_score priority ts in
  let* result := script (lua_enqueue (pending capability) (stats capability)
                           (config capability) task_id score
                           (qm_default_depth qm) (qm_ttl qm)) in
  if result.1 =? -1 then
    ret (c, {| accepted := false; queue_position := -1; pending_count := result.2 |})
  else
  do* redis CAPABILITIES_KEY (SADD [capability]) in
  ret (invalidate_stats_cache c,
       {| accepted := true; queue_position := result.1; pending_count := result.2 |}).

Definition dequeue_ready (capability : string) : M (option string) :=
  let* ok := cb_allows capability in
  if negb ok then ret None else
  let* now_ms := time_ms in
  script (lua_dequeue_ready (pending capability) (running capability) (stats capability)
            (config capability) (qm_default_mc qm) now_ms (qm_scan_limit qm)).

Definition cancel (capability task_id : string) : M bool :=
  let* removed := script (lua_cancel (pending capability) (running capability) task_id) in
  ret (negb (removed =? 0)).

Definition complete (c : qm_cache) (capability task_id : string) : M (qm_cache * bool) :=
  do* script (lua_complete (running capability) (stats capability) task_id "total_completed") in
  do* match qm_cb qm with Some cb => b_success cb capability | None => ret "" end in
  ret (invalidate_stats_cache c, true).

Definition fail (c : qm_cache) (capability task_id : string) : M (qm_cache * bool) :=
  do* script (lua_complete (running capability) (stats capability) task_id "total_failed") in
  do* match qm_cb qm with Some cb => b_failure cb capability | None => ret "" end in
  ret (invalidate_stats_cache c, true).

Definition release_running_slot (capability task_id : string) : M bool :=
  do* redis (running capability) (ZREM task_id) in ret true.

Definition adjust_concurrent (capability : string) (delta : Z) (slot : bool) : M Z :=
  let cfg_key := if slot then slot_config capability else config capability in
  script (lua_adjust_concurrent cfg_key delta (qm_default_mc qm)).

Definition try_recover_concurrent (capability : string) : M Z :=
  script (lua_recover_concurrent (config capability) (qm_default_mc qm)).

(** [max_concurrent or self._default_mc] *)
Definition slot_limit (max_concurrent : option Z) : Z :=
  match max_concurrent with
  | Some n => if n =? 0 then qm_default_mc qm else n
  | None => qm_default_mc qm
  end.

Definition acquire_concurrency_slot (capability slot_id : string)
    (max_concurrent : option Z) : M bool :=
  let* now_ts := time_ms in
  let* result := script (lua_acquire_slot (slot_running capability) (slot_config capability)
                           slot_id (slot_limit max_concurrent) now_ts (qm_ttl qm)) in
  ret (result =? 1).

Definition release_slot (capability slot_id : string) : M bool :=
  do* redis (slot_running capability) (ZREM slot_id) in ret true.

(** [max_age] in milliseconds. *)
Definition cleanup_stale (key : string) (max_age : Z) : M Z :=
  let* now := time_ms in
  let cutoff_ms := now - max_age in
  let* stale := redis key (ZRANGEBYSCORE None (Some (of_int cutoff_ms)) None) in
  match stale with
  | [] => ret 0
  | _ =>
      do* script (pipeline (map (λ ms, (key, ZREM ms.1)) stale)) in
      ret (Z.of_nat (length stale))
  end.

Definition cleanup_stale_running (capability : string) (max_age : Z) : M Z :=
  cleanup_stale (running capability) max_age.

Definition cleanup_stale_slots (capability : string) (max_age : Z) : M Z :=
  cleanup_stale (slot_running capability) max_age.

(** [int(raw or default)] on a hash field's text *)
Definition int_or (raw : option string) (dflt : Z) : exn + Z :=
  match raw with
  | None => inr dflt
  | Some s => if bool_decide (s = "") then inr dflt else
              match Z_of_dec s with
              | Some n => inr n
              | None => inl (Exn ValueError "invalid literal for int() with base 10")
              end
  end.

Record snapshot := {
  sn_pending : Z; sn_running : Z; sn_max_queue_depth : Z; sn_max_concurrent : Z
}.

Definition get_queue_snapshot (capability : string) : M snapshot :=
  let* r := script (
    let+ p := pcall (pending capability) ZCARD in
    let+ q := pcall (running capability) ZCARD in
    let+ d := pcall (config capability) (HGET "max_queue_depth") in
    let+ m := pcall (config capability) (HGET "max_concurrent") in
    let+ p := lua_raise p in let+ q := lua_raise q in
    let+ d := lua_raise d in let+ m := lua_raise m in
    LRet (p, q, d, m))%lua in
  let '(p, q, d, m) := r in
  let* depth := of_sum (int_or d (qm_default_depth qm)) in
  let* mc := of_sum (int_or m (qm_default_mc qm)) in
  ret {| sn_pending := p; sn_running := q; sn_max_queue_depth := depth; sn_max_concurrent := mc |}.

(** *** Capability discovery *)

(** [s.lstrip(chars)] *)
Fixpoint lstrip (chars : list ascii) (s : string) : string :=
  match s with
  | EmptyString => EmptyString
  | String c s' => if decide (c ∈ chars) then lstrip chars s' else s
  end.

Fixpoint rstrip (chars : list ascii) (s : string) : string :=
  match s with
  | EmptyString => EmptyString
  | String c s' =>
      match rstrip chars s' with
      | EmptyString => if decide (c ∈ chars) then EmptyString else String c EmptyString
      | r => String c r
      end
  end.

(** [s.split("}")[0]] *)
Fixpoint before_brace (s : string) : string :=
  match s with
  | EmptyString => EmptyString
  | String c s' => if decide (c = "}"%char) then EmptyString else String c (before_brace s')
  end.

Fixpoint ends_with_pending (s : string) : bool :=
  bool_decide (s = ":pending") ||
  match s with EmptyString => false | String _ s' => ends_with_pending s' end.

Definition queue_chars : list ascii := String.list_ascii_of_string "{queue:".

Definition cap_of_key (key_str : string) : string :=
  let s := lstrip queue_chars (before_brace key_str) in
  let s := lstrip (String.list_ascii_of_string "queue:") s in
  rstrip ["{"%char] (lstrip ["{"%char] s).

(** [scan_iter("*:pending")] is taken as one reading of the keyspace. *)
Definition discover_queue_capabilities : M (list string) :=
  let* members := redis CAPABILITIES_KEY SMEMBERS in
  if negb (bool_decide (members = ∅)) then ret (elements members) else
  let* keys := script (scan_cmd ends_with_pending) in
  let caps : gset string :=
    list_to_set (filter (λ c, c <> "") (map cap_of_key keys)) in
  if bool_decide (caps = ∅) then ret [] else
  do* redis CAPABILITIES_KEY (SADD (elements caps)) in
  ret (elements caps).

(** *** Statistics cache *)

Fixpoint stats_pipe (caps : list string) :
    lua (list ((exn + Z) * (exn + Z) * (exn + gmap string string))) :=
  match caps with
  | [] => LRet []
  | cap :: caps' =>
      (let+ p := pcall (pending cap) ZCARD in
       let+ q := pcall (running cap) ZCARD in
       let+ h := pcall (stats cap) HGETALL in
       let+ rest := stats_pipe caps' in
       LRet ((p, q, h) :: rest))%lua
  end.

(** [{k.decode(): int(v) for k, v in stats_raw.items()} if stats_raw else {}] *)
Definition decode_stats (h : gmap string string) : exn + list (string * Z) :=
  if bool_decide (h = ∅) then inr []
  else if qm_decode_responses qm then
    inl (Exn AttributeError "'str' object has no attribute 'decode'")
  else
    (fix go kvs := match kvs with
     | [] => inr []
     | (k, v) :: kvs' =>
         match Z_of_dec v with
         | None => inl (Exn ValueError "invalid literal for int() with base 10")
         | Some n => match go kvs' with inr r => inr ((k, n) :: r) | inl e => inl e end
         end
     end) (map_to_list h).

Definition stats_entry (p q : Z) (d : list (string * Z)) : qstats :=
  let get k := default 0 (dict_get k d) in
  {| qs_pending := p; qs_running := q; qs_enqueued := get "total_enqueued";
     qs_dequeued := get "total_dequeued"; qs_completed := get "total_completed";
     qs_failed := get "total_failed" |}.

Fixpoint build_cache (caps : list string)
    (rs : list ((exn + Z) * (exn + Z) * (exn + gmap string string))) :
    exn + list (string * qstats) :=
  match caps, rs with
  | cap :: caps', (inr p, inr q, inr h) :: rs' =>
      match decode_stats h with
      | inl e => inl e
      | inr d =>
          match build_cache caps' rs' with
          | inl e => inl e
          | inr c => inr ((cap, stats_entry p q d) :: c)
          end
      end
  | _, _ => inr []
  end.

(** The first error reply of the pipeline, in command order. *)
Fixpoint pipe_error (rs : list ((exn + Z) * (exn + Z) * (exn + gmap string string))) : option exn :=
  match rs with
  | [] => None
  | (inl e, _, _) :: _ => Some e
  | (_, inl e, _) :: _ => Some e
  | (_, _, inl e) :: _ => Some e
  | _ :: rs' => pipe_error rs'
  end.

Definition refresh_stats_cache (c : qm_cache) : M qm_cache :=
  let* caps := discover_queue_capabilities in
  let caps := take STATS_CACHE_MAX_CAPABILITIES caps in
  match caps with
  | [] => ret {| stats_cache := []; stats_cache_time := stats_cache_time c |}
  | _ =>
      let* rs := script (let+ rs := stats_pipe caps in
                         match pipe_error rs with
                         | Some e => LFail e
                         | None => LRet rs
                         end)%lua in
      let* cache := of_sum (build_cache caps rs) in
      let* now := time_ms in
      ret {| stats_cache := cache; stats_cache_time := now |}
  end.

Definition stale_cache (now : Z) (c : qm_cache) : bool :=
  bool_decide (length (stats_cache c) = 0%nat) ||
  (now - stats_cache_time c >? STATS_REFRESH_INTERVAL).

Definition get_queue_stats (c : qm_cache) (capability : string) : M (qm_cache * qstats) :=
  let* now := time_ms in
  let* c := if stale_cache now c then refresh_stats_cache c else ret c in
  ret (c, default zero_stats (dict_get capability (stats_cache c))).

Definition get_all_queue_stats (c : qm_cache) : M (qm_cache * list (string * qstats)) :=
  let* now := time_ms in
  let* c := if stale_cache now c then refresh_stats_cache c else ret c in
  ret (c, stats_cache c).

Definition dequeue (capability : string) : M (option (list (string * value))) :=
  let* task_id := dequeue_ready capability in
  ret ((λ t, [("task_id", VStr t); ("capability", VStr capability)]) <$> task_id).
End Methods.

(** ** Script lemmas *)

Definition refreshed (now ttl : Z) (x : option Z) : option Z :=
  match x with
  | None => Some (now + ttl * 1000)
  | Some t => if 2 * ((t - now + 500) / 1000) <? ttl then Some (now + ttl * 1000) else Some t
  end.

(** What the conditional refresh makes of an entry. *)
Definition refresh_entry (now ttl : Z) (e : option rentry) : option rentry :=
  (λ e, REntry (re_val e) (refreshed now ttl (re_exp e))) <$> e.

Lemma fresh_refresh now ttl e : 0 < ttl -> fresh now e -> fresh now (refresh_entry now ttl e).
Proof.
  intros Ht. destruct e as [[v [t|]]|]; simpl; unfold expired; simpl; [|intros _; apply Z.leb_gt; lia|done].
  intros H. destruct (_ <? ttl); [apply Z.leb_gt; lia|done].
Qed.

Lemma zset_of_refresh now ttl e : zset_of (refresh_entry now ttl e) = zset_of e.
Proof. by destruct e as [[[] ?]|]. Qed.
Lemma hash_of_refresh now ttl e : hash_of (refresh_entry now ttl e) = hash_of e.
Proof. by destruct e as [[[] ?]|]. Qed.

Lemma run_refresh_ttl now {A} ttl k (f : unit -> lua A) ks :
  0 < ttl ->
  lua_run now (lua_bind (refresh_ttl ttl k) f) ks =
  lua_run now (f tt) (put k (refresh_entry now ttl (live now ks k)) ks).
Proof.
  intros Ht. rewrite lua_run_bind. unfold refresh_ttl. rewrite lua_run_call, act_TTL; lua_beta.
  pose proof (live_fresh now ks k) as Hf.
  destruct (live now ks k) as [[v [t|]]|] eqn:El.
  - simpl. set (rem := (t - now + 500) / 1000).
    assert (0 <= rem) as Hrem.
    { simpl in Hf. unfold expired in Hf; simpl in Hf. bool_to_prop.
      apply Z.div_pos; lia. }
    rewrite (proj2 (Z.eqb_neq rem (-1))) by lia. simpl.
    destruct (2 * rem <? ttl).
    + rewrite lua_run_call, live_put_eq by done. rewrite act_EXPIRE. unfold set_expiry.
      rewrite (proj2 (Z.leb_gt _ _)) by lia. lua_beta. by rewrite put_put.
    + done.
  - lua_beta. change (-1 =? -1) with true. rewrite orb_true_l.
    rewrite lua_run_call, live_put_eq by done. rewrite act_EXPIRE. unfold set_expiry.
    rewrite (proj2 (Z.leb_gt _ _)) by lia. lua_beta. by rewrite put_put.
  - lua_beta. rewrite (proj2 (Z.ltb_lt (2 * -2) ttl)) by lia. rewrite orb_true_r.
    rewrite lua_run_call, live_put_eq by done. rewrite act_EXPIRE.
    unfold set_expiry. lua_beta. by rewrite put_put.
Qed.

(** The limit a configuration hash sets. *)
Definition limit_of (h : gmap string string) (field : string) (dflt : Z) : option Z :=
  match h !! field with Some s => tonumber s | None => Some dflt end.

Lemma run_hget_number now {A} k field dflt h (f : option Z -> lua A) ks :
  Hs now ks k h ->
  lua_run now (lua_bind (hget_number k field dflt) f) ks =
  lua_run now (f (limit_of h field dflt)) (put k (live now ks k) ks).
Proof.
  intros H. rewrite lua_run_bind. unfold hget_number.
  rewrite lua_run_call, (act_HGET _ _ h) by done. done.
Qed.

(** The contents of one capability's four keys. *)
Record queue := {
  q_pending : gmap string Z;
  q_running : gmap string Z;
  q_stats : gmap string string;
  q_config : gmap string string
}.

Definition holds (now : Z) (ks : keyspace) (c : string) (q : queue) : Prop :=
  Zs now ks (pending c) (q_pending q) /\ Zs now ks (running c) (q_running q) /\
  Hs now ks (stats c) (q_stats q) /\ Hs now ks (config c) (q_config q).

Definition max_depth (dflt : Z) (q : queue) : Z :=
  positive_or dflt (limit_of (q_config q) "max_queue_depth" dflt).

Definition max_running (dflt : Z) (q : queue) : Z :=
  positive_or dflt (limit_of (q_config q) "max_concurrent" dflt).

Definition counters_ok (q : queue) : Prop :=
  ∀ f, is_Some (counter (q_stats q) f).

Definition count_of (q : queue) (f : string) : Z := default 0 (counter (q_stats q) f).

Definition bump (f : string) (q : queue) : gmap string string :=
  <[f := dec_of_Z (count_of q f + 1)]> (q_stats q).

(** Abstract queue operations. *)
Definition q_enqueue (t : string) (score : Z) (q : queue) : queue :=
  {| q_pending := <[t := of_int score]> (q_pending q); q_running := q_running q;
     q_stats := bump "total_enqueued" q; q_config := q_config q |}.

Definition q_dequeue (t : string) (now_ms : Z) (q : queue) : queue :=
  {| q_pending := delete t (q_pending q);
     q_running := <[t := of_int now_ms]> (q_running q);
     q_stats := bump "total_dequeued" q; q_config := q_config q |}.

Lemma counter_bump q f : counters_ok q -> ∀ g, counter (bump f q) g =
  Some (if decide (f = g) then count_of q f + 1 else count_of q g).
Proof.
  intros H g. unfold counter, bump. destruct (decide (f = g)) as [<-|Hne].
  - rewrite lookup_insert_eq. apply Z_of_dec_of_Z.
  - rewrite lookup_insert_ne by done. unfold count_of. destruct (H g) as [n Hn].
    by rewrite Hn; unfold counter in Hn; rewrite Hn.
Qed.

(** Entries outside one capability's keys. *)
Definition untouched (c : string) (ks ks' : keyspace) : Prop :=
  ∀ k, k <> pending c -> k <> running c -> k <> stats c -> k <> config c -> ks' !! k = ks !! k.

Ltac untouched_tac := intros ? ? ? ? ?; rewrite ?lookup_put_ne by done; done.

Lemma enqueue_script_full now ks c q t score depth ttl :
  holds now ks c q -> Z.of_nat (size (q_pending q)) >= max_depth depth q ->
  exists ks', lua_run now (lua_enqueue (pending c) (stats c) (config c) t score depth ttl) ks
    = (ks', inr (-1, Z.of_nat (size (q_pending q)))) /\
    holds now ks' c q /\ untouched c ks ks'.
Proof.
  intros (Hp & Hr & Hst & Hc) Hfull. unfold lua_enqueue.
  rewrite (run_hget_number now _ _ _ (q_config q)) by done. lua_beta.
  rewrite lua_run_call, live_put_read, (act_ZCARD _ _ _ Hp). lua_beta.
  unfold max_depth in Hfull. rewrite Z.geb_leb, (proj2 (Z.leb_le _ _)) by lia.
  eexists. split; [done|]. split; [|untouched_tac].
  unfold holds, Zs, Hs. live_simp. done.
Qed.

Lemma enqueue_script_ok now ks c q t score depth ttl :
  holds now ks c q -> counters_ok q -> 0 < ttl ->
  Z.of_nat (size (q_pending q)) < max_depth depth q ->
  exists ks', lua_run now (lua_enqueue (pending c) (stats c) (config c) t score depth ttl) ks
    = (ks', inr (Z.of_nat (size (q_pending q)) + 1,
                 Z.of_nat (size (q_pending (q_enqueue t score q))))) /\
    holds now ks' c (q_enqueue t score q) /\ untouched c ks ks' /\
    live now ks' (pending c) =
      refresh_entry now ttl (keep (RZset (q_pending (q_enqueue t score q)))
                               (exp_of (live now ks (pending c)))).
Proof.
  intros (Hp & Hr & Hst & Hc) Hcnt Httl Hroom. unfold lua_enqueue.
  rewrite (run_hget_number now _ _ _ (q_config q)) by done. lua_beta.
  rewrite lua_run_call, live_put_read, (act_ZCARD _ _ _ Hp). lua_beta.
  unfold max_depth in Hroom. rewrite Z.geb_leb, (proj2 (Z.leb_gt _ _)) by lia.
  rewrite lua_run_call. live_simp. rewrite (act_ZADD _ _ _ _ _ Hp). lua_beta.
  rewrite lua_run_call. live_simp.
  destruct (Hcnt "total_enqueued") as [n Hn].
  rewrite (act_HINCRBY _ _ _ _ _ n Hst Hn). lua_beta.
  rewrite lua_run_call. live_simp.
  rewrite (act_ZCARD _ _ (<[t := of_int score]> (q_pending q))) by apply zset_of_keep. lua_beta.
  rewrite !run_refresh_ttl by done.
  assert (Hf1 : fresh now (refresh_entry now ttl (keep (RZset (<[t:=of_int score]> (q_pending q)))
            (exp_of (live now ks (pending c)))))).
  { apply fresh_refresh; [done|]. apply fresh_keep, live_fresh. }
  assert (Hf2 : fresh now (refresh_entry now ttl (keep (RHash (<["total_enqueued":=dec_of_Z (n + 1)]>
            (q_stats q))) (exp_of (live now ks (stats c)))))).
  { apply fresh_refresh; [done|]. apply fresh_keep, live_fresh. }
  assert (Hf3 : fresh now (refresh_entry now ttl (live now ks (config c)))).
  { apply fresh_refresh; [done|]. apply live_fresh. }
  live_simp.
  eexists. split; [done|]. unfold holds, Zs, Hs. live_simp.
  rewrite !zset_of_refresh, !hash_of_refresh, zset_of_keep, hash_of_keep.
  unfold q_enqueue, bump, count_of; simpl. rewrite Hn. split; [done|].
  split; [untouched_tac|done].
Qed.

(** Whether a stored score is due at [now_ms]. *)
Definition ready (now_ms sc : Z) : bool := sc mod of_int SCORE_BASE <=? of_int now_ms.

Fixpoint first_ready (now_ms : Z) (l : list (string * Z)) : option (string * Z) :=
  match l with
  | [] => None
  | ms :: l' => if ready now_ms ms.2 then Some ms else first_ready now_ms l'
  end.

(** The task a dequeue at [now_ms] selects: the first due one among the
    [limit] lowest scores. *)
Definition q_pick (now_ms : Z) (limit : nat) (q : queue) : option (string * Z) :=
  first_ready now_ms (take limit (zsorted (q_pending q))).

Lemma first_ready_some now_ms l x :
  first_ready now_ms l = Some x ->
  exists l1 l2, l = l1 ++ x :: l2 /\ ready now_ms x.2 /\
    Forall (λ y, ready now_ms y.2 = false) l1.
Proof.
  induction l as [|y l IH]; simpl; [done|]. destruct (ready now_ms y.2) eqn:E.
  - intros [= <-]. exists [], l. split; [done|]. split; [by rewrite E|done].
  - intros (l1 & l2 & -> & Hr & Hl)%IH. exists (y :: l1), l2. split; [done|].
    split; [done|by constructor].
Qed.

Lemma first_ready_none now_ms l :
  first_ready now_ms l = None <-> Forall (λ y, ready now_ms y.2 = false) l.
Proof.
  induction l as [|y l IH]; simpl; [done|]. destruct (ready now_ms y.2) eqn:E; split.
  - done.
  - inversion 1; congruence.
  - intros H. constructor; [done|by apply IH].
  - inversion 1; by apply IH.
Qed.

Lemma dequeue_scan_none now ks pk rk sk now_ms l :
  first_ready now_ms l = None -> lua_run now (dequeue_scan pk rk sk now_ms l) ks = (ks, inr None).
Proof.
  induction l as [|[t s] l IH]; simpl; [done|]. unfold ready; simpl.
  destruct (_ <=? _); [done|]. apply IH.
Qed.

Lemma dequeue_scan_some now ks c q now_ms l t s :
  first_ready now_ms l = Some (t, s) -> holds now ks c q -> counters_ok q ->
  exists ks', lua_run now (dequeue_scan (pending c) (running c) (stats c) now_ms l) ks
    = (ks', inr (Some t)) /\ holds now ks' c (q_dequeue t now_ms q) /\ untouched c ks ks'.
Proof.
  intros Hl (Hp & Hr & Hst & Hc) Hcnt.
  induction l as [|[t' s'] l IH]; simpl in *; [done|]. unfold ready in Hl; simpl in Hl.
  destruct (_ <=? _); [|by apply IH]. simplify_eq. clear IH.
  rewrite lua_run_call, (act_ZREM _ _ _ _ Hp). lua_beta.
  rewrite lua_run_call. live_simp. rewrite (act_ZADD _ _ _ _ _ Hr). lua_beta.
  destruct (Hcnt "total_dequeued") as [n Hn].
  rewrite lua_run_call. live_simp. rewrite (act_HINCRBY _ _ _ _ _ n Hst Hn). lua_beta.
  eexists. split; [done|]. split; [|untouched_tac].
  unfold holds, Zs, Hs. live_simp. rewrite !zset_of_keep, hash_of_keep.
  unfold q_dequeue, bump, count_of; simpl. by rewrite Hn.
Qed.

(** What [_LUA_DEQUEUE_READY] returns. *)
Definition q_dequeue_result (mc now_ms : Z) (limit : nat) (q : queue) : option (string * Z) :=
  if Z.of_nat (size (q_running q)) >=? max_running mc q then None else q_pick now_ms limit q.

Definition q_after (now_ms : Z) (r : option (string * Z)) (q : queue) : queue :=
  match r with Some (t, _) => q_dequeue t now_ms q | None => q end.

Lemma dequeue_script_spec now ks c q mc now_ms limit :
  holds now ks c q -> counters_ok q ->
  exists ks', lua_run now (lua_dequeue_ready (pending c) (running c) (stats c) (config c)
                             mc now_ms limit) ks
    = (ks', inr (fst <$> q_dequeue_result mc now_ms limit q)) /\
    holds now ks' c (q_after now_ms (q_dequeue_result mc now_ms limit q) q) /\
    untouched c ks ks'.
Proof.
  intros (Hp & Hr & Hst & Hc) Hcnt. unfold lua_dequeue_ready, q_dequeue_result, max_running.
  rewrite (run_hget_number now _ _ _ (q_config q)) by done. lua_beta.
  rewrite lua_run_call, live_put_read, (act_ZCARD _ _ _ Hr). lua_beta.
  destruct (_ >=? _).
  { eexists. split; [done|]. split; [|untouched_tac].
    unfold holds, Zs, Hs. live_simp. done. }
  rewrite lua_run_call. live_simp.
  rewrite (act_ZRANGEBYSCORE _ _ _ _ _ _ Hp), zrange_by_all. lua_beta.
  set (ks1 := put _ _ _). assert (holds now ks1 c q) as Hh.
  { subst ks1. unfold holds, Zs, Hs. live_simp. done. }
  assert (untouched c ks ks1) as Hu by (subst ks1; untouched_tac).
  unfold q_pick. destruct (first_ready now_ms _) as [[t s]|] eqn:Ef; simpl.
  - destruct (dequeue_scan_some now ks1 c q now_ms _ t s Ef Hh Hcnt) as (ks' & -> & ? & Hu').
    eexists. split; [done|]. split; [done|]. intros k ? ? ? ?.
    rewrite Hu' by done. by apply Hu.
  - rewrite dequeue_scan_none by done. eauto.
Qed.

(** The candidate taken is the best one: it is due, and every due task of the
    scan window has a score at least as large. *)
Lemma q_pick_best now_ms limit q t s :
  q_pick now_ms limit q = Some (t, s) ->
  q_pending q !! t = Some s /\ ready now_ms s /\
  ∀ t' s', (t', s') ∈ take limit (zsorted (q_pending q)) -> ready now_ms s' -> zle (t, s) (t', s').
Proof.
  intros (l1 & l2 & Hl & Hr & Hno)%first_ready_some.
  assert (zsorted (q_pending q) = l1 ++ (t, s) :: l2 ++ drop limit (zsorted (q_pending q))) as Hz.
  { rewrite <-(take_drop limit (zsorted (q_pending q))) at 1. rewrite Hl. by rewrite <-!app_assoc. }
  split; [|split; [done|]].
  - apply elem_of_zsorted. rewrite Hz. set_solver.
  - intros t' s' Hin Hr'. rewrite Hl in Hin. apply elem_of_app in Hin as [Hin|Hin].
    + rewrite Forall_forall in Hno. apply Hno in Hin. simpl in Hin. by rewrite Hin in Hr'.
    + apply elem_of_cons in Hin as [->|Hin]; [right; split; [done|by simpl]|].
      pose proof (zsorted_sorted (q_pending q)) as Hs. rewrite Hz in Hs.
      apply StronglySorted_split in Hs. rewrite Forall_forall in Hs. apply Hs. set_solver.
Qed.

Lemma q_pick_none now_ms limit q :
  q_pick now_ms limit q = None -> (size (q_pending q) <= limit)%nat ->
  ∀ t s, q_pending q !! t = Some s -> ready now_ms s = false.
Proof.
  unfold q_pick. intros H Hl t s Hs%elem_of_zsorted.
  rewrite take_ge in H by (by rewrite length_zsorted).
  apply first_ready_none in H. rewrite Forall_forall in H. by apply (H (t, s)).
Qed.

(** *** Score encoding *)

Lemma encode_score_order p p' ts ts' :
  0 <= ts < SCORE_BASE -> 0 <= ts' < SCORE_BASE ->
  encode_score p ts < encode_score p' ts' <-> p < p' \/ p = p' /\ ts < ts'.
Proof. unfold encode_score, SCORE_BASE. nia. Qed.

Lemma ready_encode now_ms p ts :
  0 <= ts < SCORE_BASE -> ready now_ms (of_int (encode_score p ts)) = (ts <=? now_ms).
Proof.
  intros H. unfold ready, encode_score, of_int.
  replace ((p * SCORE_BASE + ts) * 1000) with (ts * 1000 + p * (SCORE_BASE * 1000)) by ring.
  rewrite Z.mod_add by (by unfold SCORE_BASE).
  rewrite Z.mod_small by (unfold SCORE_BASE in *; lia).
  apply Bool.eq_iff_eq_true. rewrite !Z.leb_le. lia.
Qed.

(** *** Concurrent consumers *)

Definition pending_at (c : string) (t : Z) (ks : keyspace) : gmap string Z :=
  zset_at t ks (pending c).

(** From [now] on, [ks'] has no pending task that [ks] does not have. *)
Definition shrinks (c : string) (now : Z) (ks ks' : keyspace) : Prop :=
  ∀ t, now <= t -> pending_at c t ks' ⊆ pending_at c t ks.

Definition gone (c : string) (now : Z) (tid : string) (ks : keyspace) : Prop :=
  ∀ t, now <= t -> pending_at c t ks !! tid = None.

Lemma pending_put_ne c t k e ks :
  k <> pending c -> pending_at c t (put k e ks) = pending_at c t ks.
Proof. intros. unfold pending_at, zset_at. by rewrite live_put_ne. Qed.

Lemma pending_put_read c now t k ks :
  now <= t -> pending_at c t (put k (live now ks k) ks) = pending_at c t ks.
Proof.
  intros Ht. destruct (decide (k = pending c)) as [->|]; [|by apply pending_put_ne].
  unfold pending_at, zset_at. rewrite !(live_later now t) by done.
  by rewrite live_put_eq by apply live_fresh.
Qed.

Lemma pending_put_keep c now t z ks :
  now <= t -> zset_of (live now ks (pending c)) = Some z ->
  ∀ f : gmap string Z -> gmap string Z, f ∅ = ∅ ->
  pending_at c t (put (pending c) (keep (RZset (f z)) (exp_of (live now ks (pending c)))) ks)
  = f (pending_at c t ks).
Proof.
  intros Ht Hz f Hf. unfold pending_at, zset_at. rewrite !(live_later now t) by done.
  rewrite live_put_eq by apply fresh_keep, live_fresh.
  destruct (live now ks (pending c)) as [[v x]|]; simpl in *.
  - destruct v; simplify_eq. unfold keep.
    destruct (bool_decide (f z = ∅)) eqn:Eb.
    + apply bool_decide_eq_true in Eb. unfold expired; simpl.
      destruct x as [x|]; [destruct (x <=? t)|]; simpl; done.
    + unfold expired; simpl. destruct x as [x|]; [destruct (x <=? t)|]; simpl; done.
  - simplify_eq. rewrite Hf. unfold keep. by rewrite bool_decide_eq_true_2.
Qed.

(** The outcome of a script that may remove one pending task and returns it. *)
Definition takes_one (c : string) (now : Z) (ks : keyspace)
    (out : keyspace * (exn + option string)) : Prop :=
  shrinks c now ks out.1 /\
  ∀ tid, out.2 = inr (Some tid) -> is_Some (pending_at c now ks !! tid) /\ gone c now tid out.1.

Lemma takes_one_other {X} c now ks k (a : act X) (f : X -> lua (option string)) :
  k <> pending c ->
  (∀ ks' x, (∀ t, now <= t -> pending_at c t ks' = pending_at c t ks) ->
     takes_one c now ks' (lua_run now (f x) ks')) ->
  takes_one c now ks (lua_run now (lua_bind (call k a) f) ks).
Proof.
  intros Hk Hf. rewrite lua_run_call. destruct (act_doc _ _ _) as [e [err|x]].
  - split; [|done]. intros t Ht. simpl. by rewrite pending_put_ne.
  - destruct (Hf (put k e ks) x) as [H1 H2]; [by intros; apply pending_put_ne|].
    split.
    + intros t Ht. rewrite <-(pending_put_ne c t k e ks) by done. by apply H1.
    + intros tid Ht. destruct (H2 tid Ht) as [H3 H4]. split; [|done].
      by rewrite pending_put_ne in H3.
Qed.

(** Once a task is gone from pending, commands on other keys return it at most. *)
Lemma gone_other {X} c now ks tid k (a : act X) (f : X -> lua (option string)) :
  k <> pending c ->
  (∀ e x, let out := lua_run now (f x) (put k e ks) in
     (∀ t, now <= t -> pending_at c t out.1 = pending_at c t (put k e ks)) /\
     (out.2 = inr (Some tid) \/ exists e', out.2 = inl e')) ->
  let out := lua_run now (lua_bind (call k a) f) ks in
  (∀ t, now <= t -> pending_at c t out.1 = pending_at c t ks) /\
  (out.2 = inr (Some tid) \/ exists e', out.2 = inl e').
Proof.
  intros Hk Hf. simpl. rewrite lua_run_call. destruct (act_doc _ _ _) as [e [err|x]].
  - split; [|eauto]. intros t Ht. simpl. by apply pending_put_ne.
  - destruct (Hf e x) as [H1 H2]. split; [|done].
    intros t Ht. rewrite H1 by done. by apply pending_put_ne.
Qed.

Lemma dequeue_scan_takes c now ks now_ms l z :
  zset_of (live now ks (pending c)) = Some z ->
  Forall (λ x, z !! x.1 = Some x.2) l ->
  takes_one c now ks
    (lua_run now (dequeue_scan (pending c) (running c) (stats c) now_ms l) ks).
Proof.
  intros Hz. induction l as [|[t s] l IH]; intros Hl; simpl.
  { split; [|done]. by intros ? ?. }
  inversion Hl as [|? ? Hts Hl']; subst. destruct (_ <=? _); [|by apply IH].
  rewrite lua_run_call, (act_ZREM _ _ _ _ Hz). lua_beta.
  set (ks1 := put _ _ _).
  assert (∀ t', now <= t' -> pending_at c t' ks1 = delete t (pending_at c t' ks)) as Hd.
  { intros t' Ht'. subst ks1. by apply (pending_put_keep c now t' z ks Ht' Hz (delete t)). }
  set (out := lua_run _ _ _).
  assert ((∀ t', now <= t' -> pending_at c t' out.1 = pending_at c t' ks1) /\
          (out.2 = inr (Some t) \/ exists e', out.2 = inl e')) as [H1 H2].
  { subst out. apply (gone_other c now ks1 t); [apply not_eq_sym; auto with sched|].
    intros e x. apply (gone_other c now _ t); [apply not_eq_sym; auto with sched|].
    intros e' x'. simpl. by split; [|left]. }
  split.
  - intros t' Ht'. rewrite H1, Hd by done. apply delete_subseteq.
  - intros tid Htid. destruct H2 as [H2|[e' H2]]; rewrite H2 in Htid; simplify_eq. split.
    + unfold pending_at, zset_at. rewrite Hz. simpl in *. rewrite Hts. done.
    + intros t' Ht'. rewrite H1, Hd by done. apply lookup_delete_eq.
Qed.

Lemma dequeue_script_takes c now ks mc now_ms limit :
  takes_one c now ks
    (lua_run now (lua_dequeue_ready (pending c) (running c) (stats c) (config c) mc now_ms limit) ks).
Proof.
  unfold lua_dequeue_ready, hget_number.
  assert (∀ (g : option Z -> lua (option string)) k f ks,
    lua_run now (lua_bind (lua_bind (call k (HGET f)) (λ v, LRet (match v with
       Some s => tonumber s | None => Some mc end))) g) ks =
    lua_run now (lua_bind (call k (HGET f)) (λ v, g (match v with
       Some s => tonumber s | None => Some mc end))) ks) as Hassoc.
  { intros. rewrite !lua_run_bind.
    destruct (lua_run now (call k (HGET f)) ks0) as [ks1 [e|x]]; done. }
  rewrite Hassoc.
  apply takes_one_other; [apply not_eq_sym; auto with sched|]. intros ks1 x H1.
  apply takes_one_other; [apply not_eq_sym; auto with sched|]. intros ks2 n H2.
  destruct (_ >=? _); [split; [by intros ? ?|done]|].
  rewrite lua_run_call.
  destruct (zset_of (live now ks2 (pending c))) as [z|] eqn:Hz.
  - rewrite (act_ZRANGEBYSCORE _ _ _ _ _ _ Hz), zrange_by_all. lua_beta.
    set (ks3 := put _ _ _).
    assert (∀ t, now <= t -> pending_at c t ks3 = pending_at c t ks2) as H3
      by (intros; by apply pending_put_read).
    destruct (dequeue_scan_takes c now ks3 now_ms (take limit (zsorted z)) z) as [H4 H5].
    { subst ks3. by rewrite live_put_read. }
    { apply Forall_forall. intros [t s] Hin%elem_of_take. destruct Hin as (i & Hi & _).
      apply list_elem_of_lookup_2 in Hi. by apply elem_of_zsorted in Hi. }
    split.
    + intros t Ht. rewrite <-H3 by done. by apply H4.
    + intros tid Ht. rewrite <-H3 by lia. by apply H5.
  - Transparent act_doc. simpl. unfold read_zset. rewrite Hz. Opaque act_doc.
    split; [|done]. intros t Ht. simpl. by rewrite pending_put_read.
Qed.

(** ** The circuit breaker implements the interface *)

Lemma check_frame now sk hk m ks k :
  k <> sk -> k <> hk -> (lua_run now (lua_check_state sk hk m) ks).1 !! k = ks !! k.
Proof.
  intros H1 H2. unfold lua_check_state. rewrite lua_run_call.
  destruct (act_doc _ _ _) as [e [err|[s|]]]; [by apply lookup_put_ne| |by apply lookup_put_ne].
  case_decide; [by apply lookup_put_ne|]. case_decide; [|by apply lookup_put_ne].
  rewrite lua_run_call. destruct (act_doc _ _ _) as [e1 [err|a]];
    [simpl; by rewrite !lookup_put_ne|].
  destruct (tonumber _); [|simpl; by rewrite !lookup_put_ne].
  case_match; [simpl; by rewrite !lookup_put_ne|].
  rewrite lua_run_call. destruct (act_doc _ _ _) as [e2 [err|x]]; [simpl; by rewrite !lookup_put_ne|].
  rewrite lua_run_call. destruct (act_doc _ _ _) as [e3 [err|y]]; simpl; by rewrite !lookup_put_ne.
Qed.

#[global] Program Instance CircuitBreaker_breaker : Breaker CircuitBreaker := {|
  b_allow := allow_request;
  b_success := record_success;
  b_failure := record_failure;
  b_owns := λ cb cap k, k = state_key cb cap \/ k = half_open_key cb cap
|}.
Next Obligation.
  intros E cb cap k Hk. apply leaves_bind; [|done]. apply leaves_script. intros now ks.
  pose proof (check_frame now (state_key cb cap) (half_open_key cb cap) (cb_half_open_max cb) ks k) as H.
  destruct (lua_run _ _ _) as [ks' [e|s]]; simpl in *; naive_solver.
Qed.
Next Obligation. intros E cb cap. unfold allow_request, get_state. keeps_tac. Qed.
