(* ===== verification/QueueProps.v ===== *)
(** * Properties of the queue manager

    Theorems about the methods of [QueueManager.v], over any Redis server and
    any timing: enqueue and dequeue against the abstract queue, the priority
    order, concurrent consumers, limits, expiry of delayed work and capability
    discovery. *)

From Stdlib Require Import Ascii.
From stdpp Require Import base gmap strings list sorting.
From S2P Require Import Prelude PyValue Redis TaskModel Tables Effects QueueKeys CircuitBreaker QueueManager.

Open Scope Z_scope.

(** ** Enqueue *)

(** The queue of [c] has the contents [q] throughout a period. *)
Definition steady (t0 t1 : Z) (ks : keyspace) (c : string) (q : queue) : Prop :=
  ∀ t, t0 <= t <= t1 -> holds t ks c q /\ is_Some (set_of (live t ks CAPABILITIES_KEY)).

Lemma capabilities_apart c :
  CAPABILITIES_KEY <> pending c /\ CAPABILITIES_KEY <> running c /\
  CAPABILITIES_KEY <> stats c /\ CAPABILITIES_KEY <> config c.
Proof. repeat split; by intros [=]. Qed.

Lemma live_same_entry t ks ks' k : ks' !! k = ks !! k -> live t ks' k = live t ks k.
Proof. unfold live. by intros ->. Qed.

Lemma steady_frame t0 t1 ks ks' c q :
  (∀ k, k ∈ [pending c; running c; stats c; config c; CAPABILITIES_KEY] -> ks' !! k = ks !! k) ->
  steady t0 t1 ks c q -> steady t0 t1 ks' c q.
Proof.
  intros Hf Hsteady t Ht. destruct (Hsteady t Ht) as [(H1 & H2 & H3 & H4) H5].
  unfold holds, Zs, Hs in *. rewrite !(live_same_entry t ks ks') by (apply Hf; set_solver). done.
Qed.

Lemma fresh_earlier t t' e : t <= t' -> fresh t' e -> fresh t e.
Proof.
  intros Ht. destruct e as [[v [x|]]|]; simpl; try done. unfold expired; simpl.
  intros H. bool_to_prop. apply Z.leb_gt. lia.
Qed.

Lemma set_of_later t t' ks k :
  t <= t' -> is_Some (set_of (live t ks k)) -> is_Some (set_of (live t' ks k)).
Proof.
  intros Ht. rewrite (live_later t t') by done. destruct (live t ks k) as [e|]; [|done].
  destruct (expired t' e); [by eexists|done].
Qed.

Section Enqueue.
Context {B : Type} {BI : Breaker B} {E : Env} (Hq : quiet E) (qm : QueueManager B).

(** The breaker's keys are none of the queue's. *)
Definition breaker_apart (c : string) : Prop :=
  match qm_cb qm with
  | None => True
  | Some b => ∀ k, k ∈ [pending c; running c; stats c; config c; CAPABILITIES_KEY] -> ~ b_owns b c k
  end.

Lemma cb_allows_frame c (w : world doc_services) k :
  breaker_apart c -> k ∈ [pending c; running c; stats c; config c; CAPABILITIES_KEY] ->
  w_redis (run (cb_allows qm c) w).1 !! k = w_redis w !! k.
Proof.
  unfold breaker_apart, cb_allows. intros H Hk. destruct (qm_cb qm) as [b|]; [|done].
  apply leaves_run, b_allow_frame. by apply H.
Qed.

(** The outcome of [enqueue] in terms of the abstract queue, at the time [t1]
    its script runs. *)
Definition enqueue_outcome (cache : qm_cache) (c t : string) (prio after : Z) (q : queue)
    (t0 t1 : Z) (ks' : keyspace) (r : exn + (qm_cache * enqueue_result)) : Prop :=
  if Z.of_nat (size (q_pending q)) >=? max_depth (qm_default_depth qm) q then
    r = inr (cache, {| accepted := false; queue_position := -1;
                       pending_count := Z.of_nat (size (q_pending q)) |}) /\
    holds t1 ks' c q
  else
    let q' := q_enqueue t (encode_score prio (Z.max after t0)) q in
    r = inr (invalidate_stats_cache cache,
             {| accepted := true; queue_position := Z.of_nat (size (q_pending q)) + 1;
                pending_count := Z.of_nat (size (q_pending q')) |}) /\
    holds t1 ks' c q' /\
    is_Some (set_of (live t1 ks' CAPABILITIES_KEY)).

Lemma enqueue_rest cache c t score q (w w' : world doc_services) r :
  holds (w_now w) (w_redis w) c q -> is_Some (set_of (live (w_now w) (w_redis w) CAPABILITIES_KEY)) ->
  counters_ok q -> 0 < qm_ttl qm ->
  run (let* result := script (lua_enqueue (pending c) (stats c) (config c) t score
                                (qm_default_depth qm) (qm_ttl qm)) in
       if result.1 =? -1 then
         ret (cache, {| accepted := false; queue_position := -1; pending_count := result.2 |})
       else
       do* redis CAPABILITIES_KEY (SADD [c]) in
       ret (invalidate_stats_cache cache,
            {| accepted := true; queue_position := result.1; pending_count := result.2 |})) w = (w', r) ->
  if Z.of_nat (size (q_pending q)) >=? max_depth (qm_default_depth qm) q then
    r = inr (cache, {| accepted := false; queue_position := -1;
                       pending_count := Z.of_nat (size (q_pending q)) |}) /\
    holds (w_now w) (w_redis w') c q
  else
    r = inr (invalidate_stats_cache cache,
             {| accepted := true; queue_position := Z.of_nat (size (q_pending q)) + 1;
                pending_count := Z.of_nat (size (q_pending (q_enqueue t score q))) |}) /\
    holds (w_now w) (w_redis w') c (q_enqueue t score q) /\
    is_Some (set_of (live (w_now w) (w_redis w') CAPABILITIES_KEY)).
Proof using Hq.
  intros Hh Hset Hcnt Httl. rewrite run_bind, run_script, (proj1 Hq).
  destruct (capabilities_apart c) as (Hc1 & Hc2 & Hc3 & Hc4).
  destruct (_ >=? _) eqn:Ed; bool_to_prop.
  - destruct (enqueue_script_full (w_now w) (w_redis w) c q t score (qm_default_depth qm)
                (qm_ttl qm) Hh) as (ks & -> & Hk & _); [lia|]. simpl.
    intros [= <- <-]. done.
  - destruct (enqueue_script_ok (w_now w) (w_redis w) c q t score (qm_default_depth qm)
                (qm_ttl qm) Hh Hcnt Httl) as (ks & -> & (H1 & H2 & H3 & H4) & Hu & _); [lia|].
    lua_beta. cbn [fst snd]. rewrite (proj2 (Z.eqb_neq _ _)) by lia.
    rewrite run_bind, run_redis, (proj1 Hq).
    set (w3 := Effects.after ks (w_db w) w).
    assert (is_Some (set_of (live (w_now w3) (w_redis w3) CAPABILITIES_KEY))) as Hs3.
    { apply (set_of_later (w_now w)); [simpl; lia|].
      rewrite (live_same_entry _ (w_redis w)); [done|]. by apply Hu. }
    destruct Hs3 as [m Hm]. destruct (act_SADD (w_now w3) _ m [c] Hm) as [n ->].
    intros [= <- <-]. split; [done|]. simpl.
    unfold holds, Zs, Hs. rewrite !live_put_ne by done. split; [done|].
    eexists. rewrite live_put_eq; [apply set_of_keep|].
    apply (fresh_earlier _ (w_now w3)); [simpl; lia|]. apply fresh_keep, live_fresh.
Qed.

Lemma enqueue_doc cache c t prio exec_after q (w : world doc_services) :
  breaker_apart c -> counters_ok q -> 0 < qm_ttl qm ->
  let '(w1, ok) := run (cb_allows qm c) w in
  let '(w', r) := run (enqueue qm cache c t prio exec_after) w in
  steady (w_now w) (w_now w') (w_redis w) c q ->
  match ok with
  | inl e => r = inl e
  | inr false => exists m, r = inl (Exn RuntimeError m)
  | inr true => exists t0 t1, w_now w <= t0 <= t1 /\ t1 <= w_now w' /\
      enqueue_outcome cache c t prio exec_after q t0 t1 (w_redis w') r
  end.
Proof using Hq.
  intros Hb Hcnt Httl. pose proof (cb_allows_frame c w) as Hfr.
  pose proof (run_time (cb_allows qm c) w) as Hm0.
  unfold enqueue. rewrite run_bind. destruct (run (cb_allows qm c) w) as [w1 [e|ok]];
    [done|]. simpl in Hfr, Hm0.
  destruct ok; simpl; [|by intros _; eexists].
  rewrite run_bind, run_time_ms. lua_beta.
  set (w2 := Effects.after (w_redis w1) (w_db w1) w1).
  assert (w_now w1 <= w_now w2) as Hm1 by (subst w2; simpl; lia).
  assert (w_redis w2 = w_redis w1) as Hw2 by done. clearbody w2.
  set (ts := if exec_after >? w_now w1 then exec_after else w_now w1).
  assert (ts = Z.max exec_after (w_now w1)) as Hts.
  { subst ts. destruct (exec_after >? w_now w1) eqn:Eg; bool_to_prop; lia. }
  match goal with |- context [run ?p w2] =>
    pose proof (run_time p w2) as Hm2; destruct (run p w2) as [w' r] eqn:Erest end.
  simpl in Hm2. intros Hst. exists (w_now w1), (w_now w2).
  split; [lia|]. split; [done|].
  pose proof (steady_frame _ _ _ (w_redis w1) _ _ (λ k Hk, Hfr k Hb Hk) Hst) as Hst1.
  destruct (Hst1 (w_now w2)) as [Hh Hset]; [lia|]. rewrite <-Hw2 in Hh, Hset.
  apply (enqueue_rest cache c t (encode_score prio ts) q w2 w' r Hh Hset Hcnt Httl) in Erest.
  unfold enqueue_outcome. rewrite <-Hts. done.
Qed.
End Enqueue.

(** ** Dequeue *)

Section Dequeue.
Context {B : Type} {BI : Breaker B} {E : Env} (Hq : quiet E) (qm : QueueManager B).

Lemma dequeue_doc c q (w : world doc_services) :
  breaker_apart qm c -> counters_ok q ->
  let '(w1, ok) := run (cb_allows qm c) w in
  let '(w', r) := run (dequeue_ready qm c) w in
  steady (w_now w) (w_now w') (w_redis w) c q ->
  match ok with
  | inl e => r = inl e /\ holds (w_now w') (w_redis w') c q
  | inr false => r = inr None /\ holds (w_now w') (w_redis w') c q
  | inr true => exists t0 t1, w_now w <= t0 <= t1 /\ t1 <= w_now w' /\
      let res := q_dequeue_result (qm_default_mc qm) t0 (qm_scan_limit qm) q in
      r = inr (fst <$> res) /\ holds t1 (w_redis w') c (q_after t0 res q)
  end.
Proof using Hq.
  intros Hb Hcnt. pose proof (cb_allows_frame qm c w) as Hfr.
  pose proof (run_time (cb_allows qm c) w) as Hm0.
  unfold dequeue_ready. rewrite run_bind. destruct (run (cb_allows qm c) w) as [w1 rb].
  simpl in Hfr, Hm0.
  assert (Hkept : steady (w_now w) (w_now w1) (w_redis w) c q -> holds (w_now w1) (w_redis w1) c q).
  { intros Hst. apply (steady_frame _ _ _ (w_redis w1) _ _ (λ k Hk, Hfr k Hb Hk) Hst). lia. }
  destruct rb as [e|[]]; simpl; [by auto| |by auto].
  rewrite run_bind, run_time_ms. lua_beta.
  set (w2 := Effects.after (w_redis w1) (w_db w1) w1).
  assert (w_now w1 <= w_now w2) as Hm1 by (subst w2; simpl; lia).
  assert (w_redis w2 = w_redis w1) as Hw2 by done. clearbody w2.
  match goal with |- context [run ?p w2] =>
    pose proof (run_time p w2) as Hm2; destruct (run p w2) as [w' r] eqn:Erest end.
  simpl in Hm2. intros Hst. exists (w_now w1), (w_now w2).
  split; [lia|]. split; [done|].
  pose proof (steady_frame _ _ _ (w_redis w1) _ _ (λ k Hk, Hfr k Hb Hk) Hst) as Hst1.
  destruct (Hst1 (w_now w2)) as [Hh Hset]; [lia|]. rewrite <-Hw2 in Hh, Hset.
  rewrite run_script, (proj1 Hq) in Erest.
  destruct (dequeue_script_spec (w_now w2) (w_redis w2) c q (qm_default_mc qm) (w_now w1)
              (qm_scan_limit qm) Hh Hcnt) as (ks & Hrun & Hh' & _).
  rewrite Hrun in Erest. injection Erest as <- <-. done.
Qed.
End Dequeue.

(** ** Concurrent consumers *)

Section Consumers.
Context {E : Env} {B : Type} {BI : Breaker B} (qm : QueueManager B) (c : string)
  (Hcb : breaker_apart qm c).

Notation thread := (prog (exn + option string)).

(** A consumer waits for the breaker's answer, which leaves the queue alone, then
    reads the clock, then runs the script. *)
Definition th_mid (now_ms : Z) : thread :=
  script (lua_dequeue_ready (pending c) (running c) (stats c) (config c)
            (qm_default_mc qm) now_ms (qm_scan_limit qm)).
Definition th_admitted (ok : bool) : thread :=
  if negb ok then ret None else bind time_ms th_mid.

Definition th_ok (p : thread) : Prop :=
  (exists m, leaves (pending c) m /\ p = bind m th_admitted) \/
  (exists n, p = th_mid n) \/ (exists r, p = Ret r).

Lemma th_start_ok : th_ok (dequeue_ready qm c).
Proof using Hcb.
  left. exists (cb_allows qm c). split; [|done]. unfold cb_allows, breaker_apart in *.
  destruct (qm_cb qm); [|done]. apply b_allow_frame, Hcb. set_solver.
Qed.

Lemma th_admitted_eq : th_admitted true = Vis ETime th_mid.
Proof. Transparent time_ms. reflexivity. Opaque time_ms. Qed.

Lemma th_mid_eq n : th_mid n =
  Vis (ERedis (lua_dequeue_ready (pending c) (running c) (stats c) (config c)
                 (qm_default_mc qm) n (qm_scan_limit qm))) Ret.
Proof. Transparent script. reflexivity. Opaque script. Qed.

Definition got (p : thread) (tid : string) : Prop := p = Ret (inr (Some tid)).

Lemma waiting_not_got m tid : ~ got (bind m th_admitted) tid.
Proof.
  destruct m as [[e|[]]|X e k]; [done| |done|done].
  change (~ got (th_admitted true) tid). by rewrite th_admitted_eq.
Qed.

(** Tasks already handed out are no longer pending, and no two threads hold the
    same one. *)
Definition disjoint_inv (ps : list thread) (w : world doc_services) : Prop :=
  Forall th_ok ps /\
  (∀ i p tid, ps !! i = Some p -> got p tid -> gone c (w_now w) tid (w_redis w)) /\
  (∀ i j p p' tid, ps !! i = Some p -> ps !! j = Some p' -> got p tid -> got p' tid -> i = j).

Lemma gone_later now now' tid ks : now <= now' -> gone c now tid ks -> gone c now' tid ks.
Proof. intros Hl H t Ht. apply H. lia. Qed.

Lemma gone_frame now tid ks ks' : ks' !! pending c = ks !! pending c -> gone c now tid ks -> gone c now tid ks'.
Proof.
  intros Hk H t Ht. specialize (H t Ht). unfold pending_at, zset_at in *. by rewrite (live_same_entry t ks ks').
Qed.

(** A step of thread [i] after which it holds a task that was pending before, or
    none, and which adds nothing to the pending set, keeps the invariant. *)
Lemma disjoint_insert ps (w w' : world doc_services) i p :
  disjoint_inv ps w -> th_ok p ->
  (∀ tid, gone c (w_now w) tid (w_redis w) -> gone c (w_now w') tid (w_redis w')) ->
  (∀ tid, got p tid -> ~ gone c (w_now w) tid (w_redis w) /\ gone c (w_now w') tid (w_redis w')) ->
  disjoint_inv (<[i := p]> ps) w'.
Proof.
  intros (Hok & Hg & Hd) Hp Hold Hnew. split; [by apply Forall_insert|]. split.
  - intros j x tid Hj Hgot. apply list_lookup_insert_Some in Hj as [(_ & <- & _)|[_ Hj]]; [by apply Hnew|].
    apply Hold. by eapply Hg.
  - assert (Hfresh : ∀ j x tid, ps !! j = Some x -> got x tid -> got p tid -> False).
    { intros j x tid Hj Hx Hi. apply (Hnew tid Hi). by eapply Hg. }
    intros j j' x x' tid Hj Hj' Hx Hx'.
    apply list_lookup_insert_Some in Hj as [(<- & <- & _)|[_ Hj]];
      apply list_lookup_insert_Some in Hj' as [(<- & <- & _)|[_ Hj']]; [done|exfalso; eauto|exfalso; eauto|].
    by eapply Hd.
Qed.

(** Before its script has run a thread only waits, and the pending set stays. *)
Lemma disjoint_wait ps (w w' : world doc_services) i p :
  disjoint_inv ps w -> th_ok p -> (∀ tid, ~ got p tid) -> w_now w <= w_now w' ->
  w_redis w' !! pending c = w_redis w !! pending c -> disjoint_inv (<[i := p]> ps) w'.
Proof.
  intros H Hp Hno Ht Hk. apply (disjoint_insert ps w); [done|done| |by intros tid []%Hno].
  intros tid Hg. apply (gone_frame _ _ (w_redis w)); [done|]. by apply (gone_later (w_now w)).
Qed.

Lemma disjoint_script ps (w : world doc_services) i n :
  disjoint_inv ps w -> ps !! i = Some (th_mid n) ->
  disjoint_inv (thread_step ps w i).1 (thread_step ps w i).2.
Proof.
  intros H Ei. unfold thread_step. rewrite Ei, th_mid_eq. simpl.
  destruct (redis_fault (w_tick w)) as [x|]; simpl.
  { apply (disjoint_wait _ w); [done| |done|simpl; lia|done]. right; right. by eexists. }
  destruct (dequeue_script_takes c (w_now w) (w_redis w) (qm_default_mc qm) n (qm_scan_limit qm))
    as [Hshrink Htake].
  destruct (lua_run _ _ _) as [ks r]; simpl in *.
  apply (disjoint_insert _ w); [done|by right; right; eexists| |].
  - intros tid Hgone t Ht. simpl in Ht. eapply lookup_weaken_None; [|apply Hshrink; lia]. apply Hgone; lia.
  - intros tid Hgot. injection Hgot as ->. destruct (Htake tid eq_refl) as [[s Hs] Hgone]. split.
    + intros Hg. specialize (Hg (w_now w) (Z.le_refl _)). congruence.
    + apply (gone_later (w_now w)); [simpl; lia|done].
Qed.

Lemma disjoint_step ps w i :
  disjoint_inv ps w -> disjoint_inv (thread_step ps w i).1 (thread_step ps w i).2.
Proof.
  intros H. unfold thread_step. destruct (ps !! i) as [p|] eqn:Ei; [|done].
  assert (th_ok p) as Hp by (destruct H as [H _]; by eapply Forall_lookup_1).
  destruct Hp as [(m & Hm & ->)|[[n ->]|[r ->]]].
  - destruct m as [[e|[]]|X e k].
    + done.
    + change (bind (Ret (inr true)) th_admitted) with (th_admitted true). rewrite th_admitted_eq. simpl.
      apply (disjoint_wait _ w); [done| | |simpl; lia|done]; rewrite ?th_mid_eq; [|by intros tid].
      right; left. eexists. by rewrite <-th_mid_eq.
    + done.
    + destruct Hm as [Hs Hk]. simpl. pose proof (step_time e w) as Ht. specialize (Hs w).
      destruct (step e w) as [w' x]. simpl in *.
      apply (disjoint_wait _ w); [done| |apply waiting_not_got|done|done]. left. by exists (k x).
  - pose proof (disjoint_script ps w i n H Ei) as Hs. unfold thread_step in Hs. by rewrite Ei in Hs.
  - done.
Qed.

Lemma disjoint_interleave sched : ∀ ps w,
  disjoint_inv ps w -> disjoint_inv (interleave sched ps w).1 (interleave sched ps w).2.
Proof.
  induction sched as [|i sched IH]; intros ps w H; simpl; [done|].
  pose proof (disjoint_step ps w i H) as Hs. destruct (thread_step ps w i). by apply IH.
Qed.
End Consumers.

(** ** Limits *)

Lemma adjust_script now ks k h delta mc :
  Hs now ks k h ->
  exists ks', lua_run now (lua_adjust_concurrent k delta mc) ks =
    (ks', inr (Z.max 1 (default mc (limit_of h "max_concurrent" mc) + delta))) /\
    Hs now ks' k (<["max_concurrent" :=
      dec_of_Z (Z.max 1 (default mc (limit_of h "max_concurrent" mc) + delta))]> h).
Proof.
  intros Hh. unfold lua_adjust_concurrent.
  rewrite (run_hget_number now _ _ _ h) by done. lua_beta.
  rewrite lua_run_call, live_put_read.
  destruct (act_HSET1 now _ h "max_concurrent"
    (dec_of_Z (Z.max 1 (default mc (limit_of h "max_concurrent" mc) + delta))) Hh) as [n ->].
  lua_beta. eexists. split; [done|]. unfold Hs. live_simp. apply hash_of_keep.
Qed.

Lemma recover_script now ks k h mc :
  Hs now ks k h ->
  let base := default mc (limit_of h "max_concurrent_baseline" mc) in
  let cur := default base (limit_of h "max_concurrent" base) in
  exists ks', lua_run now (lua_recover_concurrent k mc) ks =
    (ks', inr (if cur <? base then cur + 1 else cur)) /\
    Hs now ks' k (if cur <? base then <["max_concurrent" := dec_of_Z (cur + 1)]> h else h).
Proof.
  intros Hh base cur. unfold lua_recover_concurrent.
  rewrite (run_hget_number now _ _ _ h) by done. lua_beta. fold base.
  rewrite (run_hget_number now _ _ _ h) by (unfold Hs; by rewrite live_put_read). lua_beta. fold cur.
  destruct (cur <? base).
  - rewrite lua_run_call. live_simp.
    destruct (act_HSET1 now _ h "max_concurrent" (dec_of_Z (cur + 1)) Hh) as [n ->].
    lua_beta. eexists. split; [done|]. unfold Hs. live_simp. apply hash_of_keep.
  - eexists. split; [done|]. unfold Hs. live_simp. done.
Qed.

Lemma acquire_script now ks c z h slot mc now_ts ttl :
  Zs now ks (slot_running c) z -> Hs now ks (slot_config c) h -> 0 < ttl ->
  let lim := default mc (limit_of h "max_concurrent" mc) in
  exists ks', lua_run now (lua_acquire_slot (slot_running c) (slot_config c) slot mc now_ts ttl) ks =
    (ks', inr (if Z.of_nat (size z) >=? lim then -1 else 1)) /\
    Zs now ks' (slot_running c)
      (if Z.of_nat (size z) >=? lim then z else <[slot := of_int now_ts]> z).
Proof.
  intros Hz Hh Httl lim. unfold lua_acquire_slot.
  rewrite (run_hget_number now _ _ _ h) by done. lua_beta. fold lim.
  rewrite lua_run_call, live_put_read, (act_ZCARD _ _ _ Hz). lua_beta.
  destruct (_ >=? _).
  { eexists. split; [done|]. unfold Zs. live_simp. done. }
  rewrite lua_run_call. live_simp. rewrite (act_ZADD _ _ _ _ _ Hz). lua_beta.
  rewrite lua_run_call, act_TTL. live_simp. lua_beta.
  set (e := keep _ _). set (b := (_ || _)).
  assert (fresh now e) as He by (apply fresh_keep, live_fresh).
  assert (zset_of e = Some (<[slot:=of_int now_ts]> z)) as Hze by apply zset_of_keep.
  destruct b.
  - rewrite lua_run_call. live_simp. rewrite act_EXPIRE. unfold set_expiry at 1.
    destruct e as [[v x]|].
    + rewrite (proj2 (Z.leb_gt _ _)) by lia. lua_beta.
      rewrite lua_run_call, act_EXPIRE. destruct (set_expiry _ _ _) as [e2 r2] eqn:Es.
      assert (exists n, r2 = inr n) as [n ->].
      { unfold set_expiry in Es. repeat case_match; simplify_eq; eauto. }
      lua_beta. eexists. split; [done|]. unfold Zs.
      rewrite live_put_ne by (apply not_eq_sym; auto with sched).
      rewrite live_put_eq by (apply Z.leb_gt; lia). done.
    + lua_beta. rewrite lua_run_call, act_EXPIRE. destruct (set_expiry _ _ _) as [e2 r2] eqn:Es.
      assert (exists n, r2 = inr n) as [n ->].
      { unfold set_expiry in Es. repeat case_match; simplify_eq; eauto. }
      lua_beta. eexists. split; [done|]. unfold Zs.
      rewrite live_put_ne by (apply not_eq_sym; auto with sched).
      by rewrite live_put_eq.
  - lua_beta. eexists. split; [done|]. unfold Zs. by rewrite !live_put_eq.
Qed.

(** ** Properties *)

(** C2: [enqueue] over any Redis server and any timing.  When the breaker
    admits the request, a queue at its depth limit rejects the task and is left
    as it was; otherwise the task is stored under the score
    [priority * 10^13 + max(execute_after, now)], [queue_position] is the number of
    tasks that were pending plus one (whatever the task's place in the order),
    [pending_count] the number pending afterwards, [total_enqueued] goes up by one,
    and running set and configuration stay.  When the breaker rejects,
    [RuntimeError] is raised, and when the breaker's own call raises, [enqueue]
    raises the same.  No Redis call fails, and no key of the queue expires during
    the call. *)
Theorem enqueue_correct (S : Services) (E : Env) (B : Type) (BI : Breaker B)
    (qm : QueueManager B) cache c t prio exec_after q (w : world S) :
  quiet E -> breaker_apart qm c -> counters_ok q -> 0 < qm_ttl qm ->
  let '(_, ok) := run (cb_allows qm c) w in
  let '(w', r) := run (enqueue qm cache c t prio exec_after) w in
  steady (w_now w) (w_now w') (ks_of w) c q ->
  match ok with
  | inl e => r = inl e
  | inr false => exists m, r = inl (Exn RuntimeError m)
  | inr true => exists t0 t1, w_now w <= t0 <= t1 /\ t1 <= w_now w' /\
      enqueue_outcome qm cache c t prio exec_after q t0 t1 (ks_of w') r
  end.
Proof.
  intros Hq Hb Hc Ht.
  transfer (enqueue_doc Hq qm cache c t prio exec_after q (wview w) Hb Hc Ht).
Qed.

Definition qm_demo : QueueManager CircuitBreaker :=
  {| qm_cb := Some cb_demo; qm_default_depth := 2; qm_default_mc := 8; qm_ttl := 3600;
     qm_scan_limit := 50; qm_decode_responses := true |}.

Definition empty_queue : queue :=
  {| q_pending := ∅; q_running := ∅; q_stats := ∅; q_config := ∅ |}.

Definition cache0 : qm_cache := {| stats_cache := []; stats_cache_time := 0 |}.

Lemma demo_apart : breaker_apart qm_demo "ocr".
Proof.
  intros k Hk. unfold b_owns; simpl. intros Hown.
  repeat (apply elem_of_cons in Hk as [->|Hk]; [destruct Hown as [H|H]; vm_compute in H; discriminate H|]).
  by apply elem_of_nil in Hk.
Qed.

Lemma empty_counters : counters_ok empty_queue.
Proof. intros f. unfold counter; simpl. rewrite lookup_empty. by eexists. Qed.

Lemma empty_steady t0 t1 c : steady t0 t1 (∅ : keyspace) c empty_queue.
Proof. intros t _. repeat split; try reflexivity. by eexists. Qed.

Lemma demo_allows w : w_redis w = ∅ ->
  (run (S := doc_services) (E := calm) (cb_allows qm_demo "ocr") w).2 = inr true.
Proof. destruct w as [ks d now tick l]; simpl. intros ->. reflexivity. Qed.

Lemma enqueue_correct_witness :
  let '(w', r) := run (S := doc_services) (E := calm)
                      (enqueue qm_demo cache0 "ocr" "t-1" 3 0) (world0 1000) in
  exists t0 t1, 1000 <= t0 <= t1 /\ t1 <= w_now w' /\
    enqueue_outcome qm_demo cache0 "ocr" "t-1" 3 0 empty_queue t0 t1 (ks_of w') r.
Proof.
  pose proof (enqueue_correct doc_services calm CircuitBreaker _ qm_demo cache0 "ocr" "t-1" 3 0
           empty_queue (world0 1000) calm_quiet demo_apart empty_counters eq_refl) as H.
  pose proof (demo_allows (world0 1000) eq_refl) as Hok.
  destruct (run (cb_allows qm_demo "ocr") (world0 1000)) as [w1 ok].
  destruct (run (enqueue qm_demo cache0 "ocr" "t-1" 3 0) (world0 1000)) as [w' r].
  simpl in Hok. rewrite Hok in H. apply H. apply empty_steady.
Defined.

(** C1: [dequeue_ready] returns the task the abstract queue selects.  When the
    breaker rejects the request it returns nothing, and when the breaker's own call
    raises it raises the same; the queue is as it was.  When the breaker admits the
    request it returns nothing if the running set is at its limit or no due task is
    in the scan window, and otherwise the due task with the least score (priority
    first, then time) of the window, which has moved from pending to running.  No Redis call
    fails, and no key of the queue expires during the call. *)
Theorem dequeue_correct (S : Services) (E : Env) (B : Type) (BI : Breaker B)
    (qm : QueueManager B) c q (w : world S) :
  quiet E -> breaker_apart qm c -> counters_ok q ->
  let '(_, ok) := run (cb_allows qm c) w in
  let '(w', r) := run (dequeue_ready qm c) w in
  steady (w_now w) (w_now w') (ks_of w) c q ->
  match ok with
  | inl e => r = inl e /\ holds (w_now w') (ks_of w') c q
  | inr false => r = inr None /\ holds (w_now w') (ks_of w') c q
  | inr true =>
      exists t0 t1, w_now w <= t0 <= t1 /\ t1 <= w_now w' /\
        match r with
        | inl _ => False
        | inr None =>
            holds t1 (ks_of w') c q /\
            (max_running (qm_default_mc qm) q <= Z.of_nat (size (q_running q)) \/
             ∀ t s, (t, s) ∈ take (qm_scan_limit qm) (zsorted (q_pending q)) -> ready t0 s = false)
        | inr (Some t) =>
            holds t1 (ks_of w') c (q_dequeue t t0 q) /\
            Z.of_nat (size (q_running q)) < max_running (qm_default_mc qm) q /\
            exists s, (t, s) ∈ take (qm_scan_limit qm) (zsorted (q_pending q)) /\
              q_pending q !! t = Some s /\ ready t0 s /\
              ∀ t' s', (t', s') ∈ take (qm_scan_limit qm) (zsorted (q_pending q)) ->
                ready t0 s' -> zle (t, s) (t', s')
        end
  end.
Proof.
  intros Hq Hb Hc. pose proof (dequeue_doc Hq qm c q (wview w) Hb Hc) as H.
  rewrite !run_view in H. destruct (run (cb_allows qm c) w) as [w1 ok].
  destruct (run (dequeue_ready qm c) w) as [w' r]. intros Hst. specialize (H Hst). simpl in H.
  destruct ok as [e|[]]; [exact H| |exact H].
  destruct H as (t0 & t1 & H1 & H2 & Hr & Hh). exists t0, t1. subst r.
  split; [done|]. split; [done|]. unfold q_dequeue_result in *.
  destruct (_ >=? _) eqn:Ef; bool_to_prop; simpl; [split; [done|left; lia]|].
  destruct (q_pick t0 (qm_scan_limit qm) q) as [[t s]|] eqn:Ep; simpl.
  - split; [done|]. split; [done|]. exists s. split; [|by apply q_pick_best].
    unfold q_pick in Ep. apply first_ready_some in Ep as (l1 & l2 & -> & _). set_solver.
  - split; [done|]. right. unfold q_pick in Ep. apply first_ready_none in Ep.
    rewrite Forall_forall in Ep. intros t s Hin. by apply (Ep (t, s)).
Qed.

Definition queue2 : queue :=
  {| q_pending := {["a" := of_int (encode_score 4 900); "b" := of_int (encode_score 3 950);
                    "c" := of_int (encode_score 1 5000)]};
     q_running := ∅; q_stats := ∅; q_config := ∅ |}.

Definition w_queue2 : world doc_services :=
  World (S := doc_services)
    (<[pending "ocr" := REntry (RZset (q_pending queue2)) (Some 9000000)]> (∅ : keyspace))
    empty_tables 1000 0%nat [].

Lemma queue2_steady t0 t1 : t1 < 9000000 -> steady t0 t1 (ks_of w_queue2) "ocr" queue2.
Proof.
  intros Ht t [_ Hu]. unfold holds, Zs, Hs, live, ks_of, w_queue2; simpl.
  rewrite lookup_insert_eq, !lookup_insert_ne by (intros H; vm_compute in H; discriminate H).
  unfold expired; simpl. rewrite (proj2 (Z.leb_gt _ _)) by lia.
  repeat split; try reflexivity. by eexists.
Qed.

Lemma dequeue_correct_witness :
  let '(w', r) := run (S := doc_services) (E := calm) (dequeue_ready qm_demo "ocr") w_queue2 in
  r = inr (Some "b") /\
  exists t0 t1, 1000 <= t0 <= t1 /\ t1 <= w_now w' /\
    match r with
    | inl _ => False
    | inr None =>
        holds t1 (ks_of w') "ocr" queue2 /\
        (max_running 8 queue2 <= Z.of_nat (size (q_running queue2)) \/
         ∀ t s, (t, s) ∈ take 50 (zsorted (q_pending queue2)) -> ready t0 s = false)
    | inr (Some t) =>
        holds t1 (ks_of w') "ocr" (q_dequeue t t0 queue2) /\
        Z.of_nat (size (q_running queue2)) < max_running 8 queue2 /\
        exists s, (t, s) ∈ take 50 (zsorted (q_pending queue2)) /\
          q_pending queue2 !! t = Some s /\ ready t0 s /\
          ∀ t' s', (t', s') ∈ take 50 (zsorted (q_pending queue2)) ->
            ready t0 s' -> zle (t, s) (t', s')
    end.
Proof.
  pose proof (dequeue_correct doc_services calm CircuitBreaker _ qm_demo "ocr" queue2 w_queue2
                calm_quiet demo_apart empty_counters) as H.
  assert ((run (S := doc_services) (E := calm) (cb_allows qm_demo "ocr") w_queue2).2 = inr true)
    as Hok by (vm_compute; reflexivity).
  assert ((run (S := doc_services) (E := calm) (dequeue_ready qm_demo "ocr") w_queue2).2
          = inr (Some "b")) as Hr by (vm_compute; reflexivity).
  assert (w_now (run (S := doc_services) (E := calm) (dequeue_ready qm_demo "ocr") w_queue2).1
          = 1000) as Hn by (vm_compute; reflexivity).
  destruct (run (cb_allows qm_demo "ocr") w_queue2) as [w1 ok].
  destruct (run (dequeue_ready qm_demo "ocr") w_queue2) as [w' r].
  split; [exact Hr|]. simpl in Hok. subst ok. apply H.
  apply queue2_steady. simpl in Hn. rewrite Hn. reflexivity.
Defined.

(** C6: at-most-once hand-out.  However many consumers poll one capability, in
    whatever order their effects interleave, whatever the breaker answers and
    whichever Redis calls fail, no task is handed to two of them, and a task
    handed out is no longer pending.  The breaker, if the queue has one, keeps its
    state under keys that are not the queue's. *)
Theorem consumers_disjoint (S : Services) (E : Env) (B : Type) (BI : Breaker B)
    (qm : QueueManager B) c n (sched : list nat) (w : world S) :
  breaker_apart qm c ->
  let '(ps, w') := interleave sched (repeat (dequeue_ready qm c) n) w in
  (∀ i tid, ps !! i = Some (Ret (inr (Some tid))) -> gone c (w_now w') tid (ks_of w')) /\
  (∀ i j tid, ps !! i = Some (Ret (inr (Some tid))) -> ps !! j = Some (Ret (inr (Some tid))) -> i = j).
Proof.
  intros Hcb. pose proof (disjoint_interleave (E := E) qm c sched
    (repeat (dequeue_ready qm c) n) (wview w)) as H.
  rewrite interleave_view in H. destruct (interleave sched _ w) as [ps w'].
  assert (Hno : ∀ i p tid, repeat (dequeue_ready qm c) n !! i = Some p -> ~ got p tid).
  { intros i p tid Hi. apply list_elem_of_lookup_2, list_elem_of_In, repeat_spec in Hi as ->.
    apply waiting_not_got. }
  destruct H as (_ & H2 & H3).
  { split; [|split].
    - apply Forall_forall. intros p ->%list_elem_of_In%repeat_spec. by apply th_start_ok.
    - intros i p tid Hi []%(Hno i p tid Hi).
    - intros i j p p' tid Hi _ []%(Hno i p tid Hi). }
  split; intros; [by eapply H2 | by eapply H3].
Qed.

Lemma consumers_disjoint_witness :
  let '(ps, w') := interleave (S := doc_services) (E := calm) [0; 1; 2; 1; 0; 2; 2; 1; 0]%nat
                     (repeat (dequeue_ready qm_demo "ocr") 3) w_queue2 in
  (∀ i tid, ps !! i = Some (Ret (inr (Some tid))) -> gone "ocr" (w_now w') tid (ks_of w')) /\
  (∀ i j tid, ps !! i = Some (Ret (inr (Some tid))) -> ps !! j = Some (Ret (inr (Some tid))) -> i = j).
Proof.
  apply (consumers_disjoint doc_services calm CircuitBreaker _ qm_demo "ocr" 3
           [0; 1; 2; 1; 0; 2; 2; 1; 0]%nat w_queue2 demo_apart).
Defined.

Definition qm_plain : QueueManager CircuitBreaker :=
  {| qm_cb := None; qm_default_depth := 2; qm_default_mc := 8; qm_ttl := 3600;
     qm_scan_limit := 50; qm_decode_responses := true |}.

(** The score encoding orders tasks by priority first and by time within a
    priority, its time part is what the dequeue script's [sc % 10^13] recovers,
    and for the five priorities and any time below [10^13] the score is below
    [2^53], so a Redis double holds it exactly. *)
Theorem score_encoding p p' ts ts' now_ms :
  0 <= ts < SCORE_BASE -> 0 <= ts' < SCORE_BASE ->
  (encode_score (weight p) ts < encode_score (weight p') ts' <->
     weight p < weight p' \/ p = p' /\ ts < ts') /\
  ready now_ms (of_int (encode_score (weight p) ts)) = (ts <=? now_ms) /\
  0 <= encode_score (weight p) ts < 2 ^ 53.
Proof.
  intros H H'. split; [|split].
  - rewrite encode_score_order by done. split; (intros [?|[He ?]]; [by left|right]).
    + split; [|done]. destruct p, p'; simpl in He; done.
    + subst. done.
  - by apply ready_encode.
  - unfold encode_score, SCORE_BASE in *. destruct p; simpl weight; lia.
Qed.

Lemma score_encoding_witness :
  (encode_score (weight HIGH) 500 < encode_score (weight NORMAL) 400 <->
     weight HIGH < weight NORMAL \/ HIGH = NORMAL /\ 500 < 400) /\
  ready 450 (of_int (encode_score (weight HIGH) 500)) = (500 <=? 450) /\
  0 <= encode_score (weight HIGH) 500 < 2 ^ 53.
Proof. apply (score_encoding HIGH NORMAL 500 400 450); unfold SCORE_BASE; lia. Defined.

(** *** Delayed work and the queue's time to live *)

Section Expiry.
Context {B : Type} {BI : Breaker B} {E : Env} (Hq : quiet E) (qm : QueueManager B)
  (Hcb : qm_cb qm = None).

Lemma enqueue_fresh cache c t prio exec_after q (w : world doc_services) :
  live (w_now (Effects.after (w_redis w) (w_db w) w)) (w_redis w) (pending c) = None ->
  counters_ok q -> 0 < qm_ttl qm -> 0 < max_depth (qm_default_depth qm) q ->
  (∀ t, w_now w <= t -> holds t (w_redis w) c q /\ is_Some (set_of (live t (w_redis w) CAPABILITIES_KEY))) ->
  let '(w', r) := run (enqueue qm cache c t prio exec_after) w in
  (exists cache' res, r = inr (cache', res) /\ accepted res = true) /\
  ∀ t', w_now w' + qm_ttl qm * 1000 <= t' -> pending_at c t' (w_redis w') = ∅.
Proof using Hq Hcb.
  intros Hlive Hcnt Httl Hroom Hst. unfold enqueue, cb_allows. rewrite Hcb.
  rewrite run_bind, run_ret. lua_beta. simpl negb. lua_beta.
  rewrite run_bind, run_time_ms. lua_beta.
  set (w2 := Effects.after (w_redis w) (w_db w) w) in *.
  assert (w_now w <= w_now w2) as Hm by (subst w2; simpl; lia).
  assert (w_redis w2 = w_redis w) as Hw2 by done. clearbody w2. rewrite <-Hw2 in *.
  match goal with |- context [encode_score prio ?x] => set (ts := x) end.
  destruct (Hst (w_now w2) Hm) as [Hh Hset].
  assert (q_pending q = ∅) as Hemp.
  { destruct Hh as (Hp & _). unfold Zs in Hp. rewrite Hlive in Hp. by simplify_eq/=. }
  destruct (enqueue_script_ok (w_now w2) (w_redis w2) c q t (encode_score prio ts)
              (qm_default_depth qm) (qm_ttl qm) Hh Hcnt Httl) as (ks & Hrun & _ & Hu & Hl).
  { rewrite Hemp, map_size_empty. lia. }
  rewrite Hemp, map_size_empty in Hrun.
  rewrite run_bind, run_script, (proj1 Hq), Hrun. lua_beta. cbn [fst snd].
  rewrite (proj2 (Z.eqb_neq _ _)) by lia.
  rewrite run_bind, run_redis, (proj1 Hq).
  set (w3 := Effects.after ks (w_db w2) w2).
  assert (is_Some (set_of (live (w_now w3) (w_redis w3) CAPABILITIES_KEY))) as Hs3.
  { apply (set_of_later (w_now w2)); [simpl; lia|].
    rewrite (live_same_entry _ (w_redis w2)); [done|]. by apply Hu. }
  destruct Hs3 as [m Hm3]. destruct (act_SADD (w_now w3) _ m [c] Hm3) as [n ->].
  lua_beta. rewrite run_ret. split; [by do 2 eexists|].
  intros t' Ht'. simpl. rewrite pending_put_ne by (by intros [=]).
  unfold pending_at, zset_at. rewrite (live_later (w_now w2)).
  2:{ simpl in Ht'. lia. }
  simpl in Ht' |- *. rewrite Hl, Hlive. unfold q_enqueue; simpl.
  unfold keep. rewrite bool_decide_eq_false_2 by (apply insert_non_empty). simpl.
  unfold expired; simpl. rewrite (proj2 (Z.leb_le _ _)) by lia. done.
Qed.

Lemma dequeue_empty c (w : world doc_services) :
  (∀ t, w_now w <= t -> pending_at c t (w_redis w) = ∅) ->
  ∀ tid, (run (dequeue_ready qm c) w).2 <> inr (Some tid).
Proof using Hq Hcb.
  intros He tid. unfold dequeue_ready, cb_allows. rewrite Hcb.
  rewrite run_bind, run_ret. lua_beta. simpl negb. lua_beta.
  rewrite run_bind, run_time_ms. lua_beta. rewrite run_script, (proj1 Hq).
  set (w2 := Effects.after (w_redis w) (w_db w) w).
  destruct (dequeue_script_takes c (w_now w2) (w_redis w2) (qm_default_mc qm) (w_now w)
              (qm_scan_limit qm)) as [_ Ht].
  destruct (lua_run _ _ _) as [ks r]; simpl in *. intros ->.
  destruct (Ht tid eq_refl) as [[s Hs] _]. rewrite He in Hs by lia. by rewrite lookup_empty in Hs.
Qed.
End Expiry.

(** A delayed task can outlive its queue.  The enqueue script gives the
    pending set a time to live; a task accepted into a fresh queue whose
    activity then stops for that long is gone when its delay ends, however long
    the delay: dequeueing after the time to live never returns a task. *)
Theorem delayed_task_lost (S : Services) (E : Env) (B : Type) (BI : Breaker B)
    (qm : QueueManager B) cache c t prio exec_after wait (w : world S) :
  quiet E -> qm_cb qm = None -> 0 < qm_ttl qm -> 0 < qm_default_depth qm ->
  ks_of w = ∅ -> qm_ttl qm * 1000 <= wait ->
  let '(w', r) := run (enqueue qm cache c t prio exec_after) w in
  (exists cache' res, r = inr (cache', res) /\ accepted res = true) /\
  ∀ tid, (run (do* sleep wait in dequeue_ready qm c) w').2 <> inr (Some tid).
Proof.
  intros Hq Hcb Httl Hdep Hks Hwait.
  assert (let '(w', r) := run (S := doc_services) (enqueue qm cache c t prio exec_after) (wview w) in
    (exists cache' res, r = inr (cache', res) /\ accepted res = true) /\
    ∀ tid, (run (do* sleep wait in dequeue_ready qm c) w').2 <> inr (Some tid)) as H.
  { pose proof (enqueue_fresh Hq qm Hcb cache c t prio exec_after empty_queue (wview w)) as H.
    destruct (run _ _) as [w' r]. destruct H as [H1 H2].
    - simpl. unfold ks_of in Hks. rewrite Hks. done.
    - apply empty_counters.
    - done.
    - unfold max_depth, limit_of; simpl. rewrite lookup_empty. simpl. by destruct (_ <=? 0).
    - intros t' _. simpl. unfold ks_of in Hks. rewrite Hks. by apply (empty_steady t' t').
    - split; [done|]. intros tid. rewrite run_bind. Transparent sleep. simpl. Opaque sleep.
      apply (dequeue_empty Hq qm Hcb c). simpl. intros t' Ht'. apply H2. lia. }
  rewrite run_view in H. destruct (run (enqueue qm cache c t prio exec_after) w) as [w' r].
  destruct H as [H1 H2]. split; [exact H1|]. intros tid Htid. apply (H2 tid).
  cbn [fst]. rewrite run_view. exact Htid.
Qed.

Lemma delayed_task_lost_witness :
  let '(w', r) := run (S := doc_services) (E := calm)
                      (enqueue qm_plain cache0 "ocr" "report" 3 (1000 + 7200000)) (world0 1000) in
  (exists cache' res, r = inr (cache', res) /\ accepted res = true) /\
  ∀ tid, (run (E := calm) (do* sleep 7200000 in dequeue_ready qm_plain "ocr") w').2 <> inr (Some tid).
Proof.
  apply (delayed_task_lost doc_services calm CircuitBreaker _ qm_plain cache0 "ocr" "report" 3
           (1000 + 7200000) 7200000 (world0 1000) calm_quiet); try reflexivity.
  vm_compute. discriminate.
Defined.

(** *** Capability discovery *)

#[local] Arguments String.append !s1 s2 : simpl nomatch.

Lemma before_brace_app cap rest :
  no_char "}"%char cap -> before_brace (cap +:+ String "}"%char rest) = cap.
Proof.
  induction cap as [|x cap IH]; simpl; [done|]. unfold no_char; simpl.
  intros [H1 H2]%andb_True. destruct (decide (x = "}"%char)) as [->|].
  - by rewrite bool_decide_eq_true_2 in H1.
  - f_equal. by apply IH.
Qed.

Lemma rstrip_id chars s :
  (∀ c, c ∈ chars -> no_char c s) -> rstrip chars s = s.
Proof.
  induction s as [|x s IH]; simpl; [done|]. intros H. rewrite IH.
  - destruct s; [|done]. rewrite decide_False; [done|]. intros Hx. specialize (H x Hx).
    unfold no_char in H; simpl in H. by rewrite bool_decide_eq_true_2 in H.
  - intros c Hc. specialize (H c Hc). unfold no_char in *; simpl in H.
    by apply andb_True in H as [_ H].
Qed.

Lemma lstrip_id chars x s : x ∉ chars -> lstrip chars (String x s) = String x s.
Proof. intros. simpl. by rewrite decide_False. Qed.

(** The SCAN fallback of [discover_queue_capabilities] recovers a capability
    from its pending key exactly when the name keeps all its characters under
    the fallback's [lstrip]: for a name without braces, the key
    [{queue:NAME}:pending] yields [NAME] if and only if [NAME] does not start
    with one of [q u e :] (so [email] is registered as [mail]). *)
Theorem discovery_roundtrip x name :
  no_char "}"%char (String x name) -> no_char "{"%char (String x name) ->
  cap_of_key (pending (String x name)) = String x name <->
  x ∉ String.list_ascii_of_string "queue:".
Proof.
  intros H1 H2. unfold cap_of_key, pending.
  assert (before_brace ("{queue:" +:+ String x name +:+ "}:pending") = "{queue:" +:+ String x name) as ->.
  { rewrite string_app_assoc.
    apply (before_brace_app ("{queue:" +:+ String x name) ":pending"). exact H1. }
  assert (lstrip queue_chars ("{queue:" +:+ String x name) = lstrip queue_chars (String x name)) as ->
    by done.
  assert (x <> "{"%char) as Hx.
  { intros ->. unfold no_char in H2; simpl in H2. done. }
  split.
  - intros Heq Hin.
    assert (Hlen : ∀ chars s, (String.length (lstrip chars s) <= String.length s)%nat).
    { clear. intros chars s. induction s as [|c s IH]; simpl; [done|]. case_decide; simpl; lia. }
    assert (Hrlen : ∀ chars s, (String.length (rstrip chars s) <= String.length s)%nat).
    { clear. intros chars s. induction s as [|c s IH]; simpl; [done|].
      destruct (rstrip chars s); [case_decide; simpl; lia|simpl in *; lia]. }
    apply (f_equal String.length) in Heq. simpl in Heq.
    rewrite decide_True in Heq by (unfold queue_chars; set_solver).
    match type of Heq with String.length (rstrip ?a (lstrip ?b (lstrip ?d (lstrip ?e ?s)))) = _ =>
      pose proof (Hrlen a (lstrip b (lstrip d (lstrip e s)))); pose proof (Hlen b (lstrip d (lstrip e s)));
      pose proof (Hlen d (lstrip e s)); pose proof (Hlen e s) end. lia.
  - intros Hnin. rewrite !lstrip_id by (unfold queue_chars in *; set_solver).
    apply rstrip_id. intros c Hc. apply list_elem_of_singleton in Hc as ->. done.
Qed.

Lemma discovery_roundtrip_witness :
  (cap_of_key (pending "email") = "email" <-> "e"%char ∉ String.list_ascii_of_string "queue:") /\
  cap_of_key (pending "email") = "mail" /\ cap_of_key (pending "ocr") = "ocr".
Proof.
  split; [|split; reflexivity].
  apply (discovery_roundtrip "e"%char "mail"); vm_compute; exact I.
Defined.

(** The concurrency limits.  [adjust_concurrent] stores a limit of at least
    one; [try_recover_concurrent] moves the limit towards the baseline by at
    most one and never past it; [acquire_concurrency_slot] admits a slot only
    below the configured limit, so the slot set never grows beyond it. *)
Theorem concurrency_limits (S : Services) (E : Env) (B : Type) (BI : Breaker B)
    (qm : QueueManager B) c slot_id delta mc h hs z (w : world S) :
  quiet E -> 0 < qm_ttl qm ->
  Hs (w_now w) (ks_of w) (config c) h ->
  (∀ t, w_now w <= t -> Hs t (ks_of w) (slot_config c) hs /\ Zs t (ks_of w) (slot_running c) z) ->
  (let '(w', r) := run (adjust_concurrent qm c delta false) w in
   exists n, r = inr n /\ 1 <= n /\
     Hs (w_now w) (ks_of w') (config c) (<["max_concurrent" := dec_of_Z n]> h)) /\
  (let base := default (qm_default_mc qm) (limit_of h "max_concurrent_baseline" (qm_default_mc qm)) in
   let cur := default base (limit_of h "max_concurrent" base) in
   let '(w', r) := run (try_recover_concurrent qm c) w in
   exists n, r = inr n /\ cur <= n <= cur + 1 /\ n <= Z.max cur base) /\
  (let lim := default (slot_limit qm mc) (limit_of hs "max_concurrent" (slot_limit qm mc)) in
   let '(w', r) := run (acquire_concurrency_slot qm c slot_id mc) w in
   exists b t z', r = inr b /\ Zs t (ks_of w') (slot_running c) z' /\
     if b then Z.of_nat (size z) < lim /\ is_Some (z' !! slot_id) /\
               Z.of_nat (size z') <= Z.max (Z.of_nat (size z)) lim
     else z' = z /\ lim <= Z.of_nat (size z)).
Proof.
  intros Hq Httl Hh Hslot. split; [|split].
  - assert (let '(w', r) := run (S := doc_services) (adjust_concurrent qm c delta false) (wview w) in
      exists n, r = inr n /\ 1 <= n /\
        Hs (w_now w) (w_redis w') (config c) (<["max_concurrent" := dec_of_Z n]> h)) as H; [|transfer H].
    unfold adjust_concurrent. rewrite run_script, (proj1 Hq).
    destruct (adjust_script (w_now w) (ks_of w) (config c) h delta (qm_default_mc qm) Hh)
      as (ks' & Hrun & Hh').
    simpl. unfold ks_of in Hrun. rewrite Hrun. eexists. split; [done|]. split; [lia|exact Hh'].
  - intros base cur.
    assert (let '(w', r) := run (S := doc_services) (try_recover_concurrent qm c) (wview w) in
      exists n, r = inr n /\ cur <= n <= cur + 1 /\ n <= Z.max cur base) as H; [|transfer H].
    unfold try_recover_concurrent. rewrite run_script, (proj1 Hq).
    destruct (recover_script (w_now w) (ks_of w) (config c) h (qm_default_mc qm) Hh)
      as (ks' & Hrun & _).
    simpl. unfold ks_of in Hrun. rewrite Hrun. eexists. split; [done|].
    fold base. fold cur. destruct (cur <? base) eqn:El; bool_to_prop; lia.
  - intros lim.
    assert (let '(w', r) := run (S := doc_services) (acquire_concurrency_slot qm c slot_id mc) (wview w) in
      exists b t z', r = inr b /\ Zs t (w_redis w') (slot_running c) z' /\
        if b then Z.of_nat (size z) < lim /\ is_Some (z' !! slot_id) /\
                  Z.of_nat (size z') <= Z.max (Z.of_nat (size z)) lim
        else z' = z /\ lim <= Z.of_nat (size z)) as H; [|transfer H].
    unfold acquire_concurrency_slot. rewrite run_bind, run_time_ms. lua_beta.
    set (w2 := Effects.after _ _ _).
    destruct (Hslot (w_now w2)) as [Hhs Hzs]; [subst w2; simpl; lia|].
    destruct (acquire_script (w_now w2) (ks_of w) c z hs slot_id (slot_limit qm mc) (w_now w)
                (qm_ttl qm) Hzs Hhs Httl) as (ks' & Hrun & Hz').
    rewrite run_bind, run_script, (proj1 Hq). change (w_redis w2) with (ks_of w).
    change (w_now (wview w)) with (w_now w). rewrite Hrun. lua_beta. rewrite run_ret.
    do 3 eexists. split; [done|]. split; [exact Hz'|]. fold lim.
    destruct (_ >=? lim) eqn:Eg; bool_to_prop; simpl; [split; [done|lia]|].
    split; [lia|]. split; [rewrite lookup_insert_eq; by eexists|].
    destruct (z !! slot_id) as [s|] eqn:Ez.
    + rewrite map_size_insert_Some by (by eexists). lia.
    + rewrite map_size_insert_None by done. lia.
Qed.

Lemma concurrency_limits_witness :
  (let '(w', r) := run (S := doc_services) (E := calm) (adjust_concurrent qm_plain "ocr" (-20) false) (world0 1000) in
   exists n, r = inr n /\ 1 <= n /\
     Hs 1000 (ks_of w') (config "ocr") (<["max_concurrent" := dec_of_Z n]> ∅)) /\
  (let base := default 8 (limit_of ∅ "max_concurrent_baseline" 8) in
   let cur := default base (limit_of ∅ "max_concurrent" base) in
   let '(w', r) := run (S := doc_services) (E := calm) (try_recover_concurrent qm_plain "ocr") (world0 1000) in
   exists n, r = inr n /\ cur <= n <= cur + 1 /\ n <= Z.max cur base) /\
  (let lim := default (slot_limit qm_plain (Some 2)) (limit_of ∅ "max_concurrent" (slot_limit qm_plain (Some 2))) in
   let '(w', r) := run (S := doc_services) (E := calm) (acquire_concurrency_slot qm_plain "ocr" "s1" (Some 2)) (world0 1000) in
   exists b t z', r = inr b /\ Zs t (ks_of w') (slot_running "ocr") z' /\
     if b then Z.of_nat (size (∅ : gmap string Z)) < lim /\ is_Some (z' !! "s1") /\
               Z.of_nat (size z') <= Z.max (Z.of_nat (size (∅ : gmap string Z))) lim
     else z' = ∅ /\ lim <= Z.of_nat (size (∅ : gmap string Z))).
Proof.
  apply (concurrency_limits doc_services calm CircuitBreaker _ qm_plain "ocr" "s1" (-20) (Some 2)
           ∅ ∅ ∅ (world0 1000) calm_quiet); [reflexivity | reflexivity |].
  intros t _. split; reflexivity.
Defined.
