(* ===== verification/ErrorHandling.v ===== *)
(** * Error handling

    [src/common/error_handling.py]: the [log_errors] decorator in its two uses,
    [suppress_errors], and the exception handlers' HTTP answers. *)

From stdpp Require Import base strings list.
From S2P Require Import Prelude PyValue Redis TaskModel Tables Effects.

Open Scope Z_scope.

(** [isinstance(exc, (BusinessError, HTTPException, ValueError))];
    [InvalidTaskTransition] is a [ValueError]. *)
Definition passes_through (e : exn) : bool :=
  match e with
  | HTTPException _ _ => true
  | Exn BusinessError _ | Exn ValueError _ | Exn InvalidTaskTransition _ => true
  | Exn _ _ => false
  end.

(** What [@log_errors(raise_exception=True)] makes of an exception. *)
Definition wrap_error (e : exn) : exn :=
  if passes_through e then e else Exn SystemError (exn_str e).

Definition log_errors {A} (m : M A) : M A := except m (λ e, raise (wrap_error e)).

(** [@log_errors(raise_exception=False)] on a function that returns nothing. *)
Definition log_errors_quiet (m : M unit) : M unit :=
  except m (λ e, if passes_through e then raise e else ret tt).

(** [@log_errors(raise_exception=True, exception_type=c)] *)
Definition log_errors_as {A} (c : exn_class) (m : M A) : M A :=
  except m (λ e, raise (if passes_through e then e else Exn c (exn_str e))).

(** [@log_errors(raise_exception=False)] on a function with a result: [none]
    stands for the [None] it returns instead. *)
Definition log_errors_none {A} (none : A) (m : M A) : M A :=
  except m (λ e, if passes_through e then raise e else ret none).

(** [with suppress_errors():] *)
Definition suppress_errors (m : M unit) : M unit := except m (λ _, ret tt).

(** The status code the registered handlers answer with; [None] where no handler
    of this module applies. *)
Definition handler_status (e : exn) : option Z :=
  match e with
  | Exn SystemError _ => Some 500
  | Exn BusinessError _ => Some 400
  | Exn ExternalServiceError _ => Some 503
  | HTTPException c _ => Some c
  | _ => None
  end.

Lemma run_log_errors {S : Services} {E : Env} {A} (m : M A) (w : world S) :
  run (log_errors m) w =
  match run m w with
  | (w', inr a) => (w', inr a)
  | (w', inl e) => (w', inl (if is_exception e then wrap_error e else e))
  end.
Proof.
  unfold log_errors. rewrite run_except. destruct (run m w) as [w' [e|a]]; [|done].
  by destruct (is_exception e).
Qed.

Section Decorated.
Context {S : Services} {E : Env} {A : Type}.

(** The decorators do not touch a call that succeeds. *)
Lemma run_log_errors_as_ok c (m : M A) (w w' : world S) a :
  run m w = (w', inr a) -> run (log_errors_as c m) w = (w', inr a).
Proof. intros H. unfold log_errors_as. by rewrite run_except, H. Qed.

Lemma run_log_errors_none_ok none (m : M A) (w w' : world S) a :
  run m w = (w', inr a) -> run (log_errors_none none m) w = (w', inr a).
Proof. intros H. unfold log_errors_none. by rewrite run_except, H. Qed.
End Decorated.
