(* ===== verification/Transaction.v ===== *)
(** * Atomic distributed writes

    [src/common/transaction.py]: [TxStatus], [TxRecord] and
    [AtomicWriteCoordinator], which writes to MySQL first and to Redis second and
    leaves a [tx:*] record in Redis when the second write fails.  The two write
    functions and the compensation service are the caller's: parameters of the
    definitions. *)

From stdpp Require Import base gmap strings list.
From S2P Require Import Prelude PyValue Json Redis TaskModel Tables Effects.

Open Scope Z_scope.

Inductive TxStatus := PENDING_REDIS | COMMITTED | TX_FAILED | RECOVERED | EXPIRED.

#[global] Instance TxStatus_eq_dec : EqDecision TxStatus.
Proof. solve_decision. Defined.

Definition tx_status_value (s : TxStatus) : string :=
  match s with
  | PENDING_REDIS => "pending_redis" | COMMITTED => "committed" | TX_FAILED => "failed"
  | RECOVERED => "recovered" | EXPIRED => "expired"
  end.

Definition all_tx_statuses : list TxStatus :=
  [PENDING_REDIS; COMMITTED; TX_FAILED; RECOVERED; EXPIRED].

Definition tx_status_of_value (s : string) : option TxStatus :=
  list_find (λ st, tx_status_value st = s) all_tx_statuses ≫= λ p, Some p.2.

Record TxRecord := {
  tx_id : string;
  tx_task_id : string;
  tx_operation : string;
  tx_status : TxStatus;
  tx_mysql_written : bool;
  tx_redis_written : bool;
  tx_created_at : Z;
  tx_retry_count : Z;
  tx_last_error : string;
  tx_payload : list (string * value)
}.

(** [TxRecord(tx_id=..., task_id=..., operation=..., payload=...)] *)
Definition new_tx (id task_id operation : string) (payload : list (string * value)) (now : Z) : TxRecord :=
  {| tx_id := id; tx_task_id := task_id; tx_operation := operation;
     tx_status := PENDING_REDIS; tx_mysql_written := false; tx_redis_written := false;
     tx_created_at := now; tx_retry_count := 0; tx_last_error := ""; tx_payload := payload |}.

Definition tx_committed (tx : TxRecord) : TxRecord :=
  {| tx_id := tx_id tx; tx_task_id := tx_task_id tx; tx_operation := tx_operation tx;
     tx_status := COMMITTED; tx_mysql_written := true; tx_redis_written := true;
     tx_created_at := tx_created_at tx; tx_retry_count := tx_retry_count tx;
     tx_last_error := tx_last_error tx; tx_payload := tx_payload tx |}.

Definition tx_redis_failed (err : exn) (tx : TxRecord) : TxRecord :=
  {| tx_id := tx_id tx; tx_task_id := tx_task_id tx; tx_operation := tx_operation tx;
     tx_status := TX_FAILED; tx_mysql_written := true; tx_redis_written := false;
     tx_created_at := tx_created_at tx; tx_retry_count := tx_retry_count tx;
     tx_last_error := exn_str err; tx_payload := tx_payload tx |}.

Definition TX_PREFIX : string := "tx:".
Definition TX_TTL : Z := 300.

Definition tx_key (id : string) : string := TX_PREFIX +:+ id.

(** What [_save_pending_tx] stores; it has no [mysql_written] and no
    [redis_written] member. *)
Definition pending_tx_json (tx : TxRecord) : value :=
  VDict [("tx_id", VStr (tx_id tx)); ("task_id", VStr (tx_task_id tx));
         ("operation", VStr (tx_operation tx));
         ("status", VStr (tx_status_value (tx_status tx)));
         ("created_at", VFloat (tx_created_at tx));
         ("retry_count", VInt (tx_retry_count tx));
         ("last_error", VStr (tx_last_error tx));
         ("payload", VDict (tx_payload tx))].

(** [AtomicWriteCoordinator]: whether it has a Redis client, and its
    compensation service's [enqueue]. *)
Record AtomicWriteCoordinator := {
  co_redis : bool;
  co_compensation : option (TxRecord -> M unit)
}.

Section Coordinator.
Context (co : AtomicWriteCoordinator).

Definition save_pending_tx (tx : TxRecord) : M unit :=
  if negb (co_redis co) then ret tt else
  except
    (do* redis (tx_key (tx_id tx)) (SET (json_dumps (pending_tx_json tx)) (Some (TX_TTL * 1000)) false) in
     ret tt)
    (λ _, ret tt).

(** The transaction identifier, generated when none is given. *)
Definition choose_tx_id (task_id : string) (given_id : option string) : M string :=
  match given_id with
  | Some id => ret id
  | None => let* u := uuid4 in ret ("tx-" +:+ str_take 8 task_id +:+ "-" +:+ str_take 8 u)
  end.

Definition write_atomic (task_id operation : string) (mysql_write_fn redis_write_fn : M unit)
    (payload : list (string * value)) (given_id : option string) : M TxRecord :=
  let* id := choose_tx_id task_id given_id in
  let* now := time_ms in
  let tx := new_tx id task_id operation payload now in
  except
    (do* mysql_write_fn in
     except
       (do* redis_write_fn in ret (tx_committed tx))
       (λ err,
          let tx' := tx_redis_failed err tx in
          do* save_pending_tx tx' in
          do* match co_compensation co with
              | Some enqueue => enqueue tx'
              | None => ret tt
              end in
          ret tx'))
    (λ err, raise err).

Definition atomic_task_create (task_id : string) (mysql_insert redis_set : M unit)
    (kwargs : list (string * value)) : M TxRecord :=
  write_atomic task_id "create_task" mysql_insert redis_set kwargs None.

Definition atomic_task_status_update (task_id : string) (mysql_update redis_update : M unit) :
    M TxRecord :=
  write_atomic task_id "update_status" mysql_update redis_update [] None.
End Coordinator.

(** ** Lemmas *)

Lemma tx_status_of_value_of s : tx_status_of_value (tx_status_value s) = Some s.
Proof. by destruct s. Qed.

Section Lemmas.
Context {S : Services} {E : Env} (co : AtomicWriteCoordinator).
Notation W := (world S).

(** Every Redis failure while saving the record is swallowed. *)
Lemma save_pending_result tx (w : W) :
  (∀ n e, redis_fault n = Some e -> is_exception e) ->
  (run (save_pending_tx co tx) w).2 = inr tt.
Proof.
  intros Hf. unfold save_pending_tx. destruct (co_redis co); [|done]. simpl negb. cbv iota.
  rewrite run_except, run_bind.
  destruct (run (redis _ _) w) as [w' [e|b]] eqn:Er; [|done].
  assert (is_exception e) as He; [|by destruct (is_exception e)].
  Transparent redis. unfold redis, effx in Er. simpl in Er. Opaque redis.
  destruct (redis_fault (w_tick w)) as [x|] eqn:Ex; [injection Er as _ <-; by eapply Hf|].
  destruct (rexec _ _ _) as [r x] eqn:Erx. injection Er as _ ->.
  pose proof (rexec_ok _ (w_now w) (call (tx_key (tx_id tx))
    (SET (json_dumps (pending_tx_json tx)) (Some (TX_TTL * 1000)) false)) (w_redis w)) as H.
  rewrite Erx, lua_run_call1, act_SET in H. simplify_eq.
Qed.

(** The phases of [write_atomic] once its identifier and time are drawn. *)
Definition phases (tx : TxRecord) (mysql_fn redis_fn : M unit) : M TxRecord :=
  except
    (do* mysql_fn in
     except
       (do* redis_fn in ret (tx_committed tx))
       (λ err,
          let tx' := tx_redis_failed err tx in
          do* save_pending_tx co tx' in
          do* match co_compensation co with
              | Some enqueue => enqueue tx'
              | None => ret tt
              end in
          ret tx'))
    (λ err, raise err).

Lemma run_phases tx mysql_fn redis_fn (w : W) :
  run (phases tx mysql_fn redis_fn) w =
  match run mysql_fn w with
  | (w1, inl e) => (w1, inl e)
  | (w1, inr _) =>
      match run redis_fn w1 with
      | (w2, inr _) => (w2, inr (tx_committed tx))
      | (w2, inl e) =>
          if is_exception e then
            run (do* save_pending_tx co (tx_redis_failed e tx) in
                 do* match co_compensation co with
                     | Some enqueue => enqueue (tx_redis_failed e tx)
                     | None => ret tt
                     end in
                 ret (tx_redis_failed e tx)) w2
          else (w2, inl e)
      end
  end.
Proof.
  unfold phases. rewrite run_except, run_bind.
  destruct (run mysql_fn w) as [w1 [e|u]].
  - by destruct (is_exception e).
  - rewrite run_except, run_bind. destruct (run redis_fn w1) as [w2 [e|u']]; [|done].
    destruct (is_exception e) eqn:Ee; [|by rewrite Ee].
    destruct (run _ w2) as [w3 [e'|tx']]; [by destruct (is_exception e')|done].
Qed.

Lemma write_atomic_phases task_id op mysql_fn redis_fn payload gid (w : W) :
  exists w0 tx, tx_task_id tx = task_id /\
    tx_operation tx = op /\ tx_payload tx = payload /\ tx_status tx = PENDING_REDIS /\
    tx_retry_count tx = 0 /\
    w_redis w0 = w_redis w /\ w_db w0 = w_db w /\ w_now w <= w_now w0 /\
    run (write_atomic co task_id op mysql_fn redis_fn payload gid) w =
    run (phases tx mysql_fn redis_fn) w0.
Proof.
  unfold write_atomic. rewrite run_bind.
  assert (exists w1 id, run (choose_tx_id task_id gid) w = (w1, inr id) /\ w_redis w1 = w_redis w /\ w_db w1 = w_db w /\
             w_now w <= w_now w1) as (w1 & id & -> & Hr & Hd & Hn).
  { destruct gid as [id|]; [by exists w, id|].
    Transparent uuid4. do 2 eexists. split; [reflexivity|]. simpl. split_and!; try done. lia. Opaque uuid4. }
  rewrite run_bind. cbv beta iota. Transparent time_ms.
  exists (advance (w_redis w1) (w_db w1) [] w1), (new_tx id task_id op payload (w_now w1)).
  split_and!; try reflexivity; try done. simpl. lia. Opaque time_ms.
Qed.
End Lemmas.

(** ** Properties *)

(** The record of a write that reached MySQL only. *)
Definition redis_only_failed (e : exn) (tx : TxRecord) : Prop :=
  tx_status tx = TX_FAILED /\ tx_mysql_written tx = true /\ tx_redis_written tx = false /\
  tx_last_error tx = exn_str e.

Lemma save_pending_db {S : Services} {E : Env} co tx (w : world S) :
  w_db (run (save_pending_tx co tx) w).1 = w_db w.
Proof.
  unfold save_pending_tx. destruct (co_redis co); [|done]. simpl negb. cbv iota.
  rewrite run_except, run_bind. Transparent redis. unfold redis, effx. simpl. Opaque redis.
  destruct (redis_fault (w_tick w)) as [x|]; [by destruct (is_exception x)|].
  destruct (rexec _ _ _) as [? [x|]]; [by destruct (is_exception x)|done].
Qed.


Definition co_demo : AtomicWriteCoordinator := {| co_redis := true; co_compensation := None |}.

Definition demo_mysql : M unit := sql (λ _ t, inr (t, tt)).
Definition demo_redis : M unit := raise (Exn ConnectionError "redis down").


(** With a compensation service attached, a failure of that service is
    reported as a failed MySQL write: MySQL has committed and only Redis and the
    compensation enqueue failed, yet the call raises the enqueue's exception
    and returns no record. *)
Theorem compensation_failure_raises (S : Services) (E : Env) co enqueue task_id op
    mysql_fn redis_fn payload gid e2 (w : world S) :
  (∀ n e, redis_fault n = Some e -> is_exception e) ->
  co_compensation co = Some enqueue ->
  (∀ tx v, (run (S := S) (enqueue tx) v).2 = inl e2) ->
  let '(w', r) := run (write_atomic co task_id op mysql_fn redis_fn payload gid) w in
  exists w0, w_redis w0 = w_redis w /\ w_db w0 = w_db w /\
  match run mysql_fn w0 with
  | (w1, inl e) => r = inl e
  | (w1, inr _) =>
      match run redis_fn w1 with
      | (w2, inr _) => exists tx, r = inr tx
      | (w2, inl e) => if is_exception e then r = inl e2 else r = inl e
      end
  end.
Proof.
  intros Hf Hc He2.
  destruct (write_atomic_phases co task_id op mysql_fn redis_fn payload gid w)
    as (w0 & tx & _ & _ & _ & _ & _ & H1 & H2 & _ & ->).
  rewrite run_phases. destruct (run mysql_fn w0) as [w1 [e|u]] eqn:Em.
  { exists w0. rewrite Em. eauto. }
  destruct (run redis_fn w1) as [w2 [e|u']] eqn:Er.
  2:{ exists w0. rewrite Em, Er. eauto. }
  destruct (is_exception e) eqn:Ee; [|exists w0; by rewrite Em, Er, Ee].
  rewrite Hc, run_bind.
  pose proof (save_pending_result co (tx_redis_failed e tx) w2 Hf) as Hs.
  destruct (run (save_pending_tx co _) w2) as [w3 r3]. simpl in Hs. subst r3.
  rewrite run_bind. specialize (He2 (tx_redis_failed e tx) w3).
  destruct (run (enqueue _) w3) as [w4 r4]; simpl in He2; subst r4.
  exists w0. by rewrite Em, Er, Ee.
Qed.

Definition down : exn := Exn ConnectionError "redis down".
Definition co_down : AtomicWriteCoordinator :=
  {| co_redis := true; co_compensation := Some (λ _, raise down) |}.

Lemma compensation_failure_raises_witness :
  let '(w', r) := run (S := doc_services) (E := calm)
        (write_atomic co_down "t-1" "create_task" demo_mysql demo_redis [] (Some "tx-1")) (world0 1000) in
  exists w0, w_redis w0 = w_redis (world0 1000) /\ w_db w0 = w_db (world0 1000) /\
  match run (E := calm) demo_mysql w0 with
  | (w1, inl e) => r = inl e
  | (w1, inr _) =>
      match run (E := calm) demo_redis w1 with
      | (w2, inr _) => exists tx, r = inr tx
      | (w2, inl e) => if is_exception e then r = inl down else r = inl e
      end
  end.
Proof.
  apply (compensation_failure_raises doc_services calm co_down (λ _, raise down) "t-1" "create_task"
           demo_mysql demo_redis [] (Some "tx-1") down (world0 1000)).
  - discriminate.
  - reflexivity.
  - reflexivity.
Defined.
