(* ===== verification/Tracking.v ===== *)
(** * Run tracking, task timeline and operator audit

    [src/services/run_tracking.py], [task_timeline.py] and
    [operator_actions.py]: each appends rows to one table.  [db] says whether
    the service has a session factory. *)

From stdpp Require Import base gmap strings list.
From S2P Require Import Prelude PyValue Json Redis TaskModel Tables Effects.

Open Scope Z_scope.

Definition create_task_run (db : bool) (task_id : string) (attempt : Z) (status : string)
    (worker_id lease_id run_key : option string) : M (option string) :=
  if negb db then ret None else
  let* key := match run_key with
              | Some k => ret k
              | None => let* u := uuid4 in
                        ret ("taskrun-" +:+ str_take 8 task_id +:+ "-" +:+ str_take 8 u)
              end in
  do* sql (λ now t, inr (add_task_run
        {| run_task_id := task_id; run_run_key := key; run_tenant_id := ""; run_status := status;
           run_attempt := attempt; run_worker_id := worker_id; run_lease_id := lease_id;
           run_created_at := server_now now |} t, tt)) in
  ret (Some key).

Definition create_dag_run (db : bool) (dag_id tenant_id status : string)
    (trigger_source input_json run_key : option string) : M (option string) :=
  if negb db then ret None else
  let* key := match run_key with
              | Some k => ret k
              | None => let* u := uuid4 in
                        ret ("dagrun-" +:+ str_take 8 dag_id +:+ "-" +:+ str_take 8 u)
              end in
  do* sql (λ now t, inr (add_dag_run
        {| dr_dag_id := dag_id; dr_run_key := key; dr_tenant_id := tenant_id; dr_status := status;
           dr_trigger_source := trigger_source; dr_input_json := input_json;
           dr_created_at := server_now now |} t, tt)) in
  ret (Some key).

(** [TaskTimelineService.emit] *)
Definition emit (db : bool) (task_id event_type : string) (payload : list (string * value))
    (run_key : option string) : M unit :=
  if negb db then ret tt else
  sql (λ now t, inr (add_event
        {| ev_task_id := task_id; ev_run_key := run_key; ev_event_type := event_type;
           ev_event_payload := Some (json_dumps (VDict payload));
           ev_created_at := server_now now |} t, tt)).

Definition opt_value (o : option string) : value :=
  match o with Some s => VStr s | None => VNone end.

(** [OperatorActionService.record]; the returned row id is the position of the
    row in its table. *)
Definition record_action (db : bool) (actor action_type target_type target_id : string)
    (reason : option string) (payload : list (string * value)) (task_id : option string) :
    M (option Z) :=
  if negb db then ret None else
  let* id := sql (λ now t, inr (add_action
        {| oa_actor := actor; oa_action_type := action_type; oa_target_type := target_type;
           oa_target_id := target_id; oa_reason := reason;
           oa_payload_json := Some (json_dumps (VDict payload)); oa_created_at := server_now now |} t,
        Z.of_nat (S (length (db_actions t))))) in
  do* match task_id with
      | Some tid =>
          if bool_decide (tid = "") then ret tt else
          emit db tid ("operator_" +:+ action_type)
            (dict_update [("actor", VStr actor); ("reason", VStr (default "" reason))] payload) None
      | None => ret tt
      end in
  ret (Some id).
