(* ===== verification/TaskCreator.v ===== *)
(** * Task creation

    [src/platform/task_creator.py]: [TaskCreator.create_task], from the template
    dictionary to the MySQL row, the Redis record, the queue entry, the run and
    the timeline event.  The queue is reached through the interface
    [TaskQueue]. *)

From Stdlib Require Import Ascii.
From stdpp Require Import base gmap strings list.
From S2P Require Import Prelude PyValue Json Sha256 Redis TaskModel Tables Effects.
From S2P Require Import QueueKeys CircuitBreaker QueueManager ErrorHandling Transaction Tracking.

Open Scope Z_scope.

(** What the creator asks of a queue: [enqueue], which leaves the database
    alone. *)
Class TaskQueue (Q : Type) := {
  tq_enqueue : Q -> string -> string -> Z -> Z -> M (Q * enqueue_result);
  tq_db : ∀ (E : Env) q cap id prio at_ms (w : world doc_services),
    w_db (run (tq_enqueue q cap id prio at_ms) w).1 = w_db w
}.

Record TaskCreator := {
  tc_db : bool;
  tc_coordinator : option AtomicWriteCoordinator
}.

(** [TaskCreator.__init__]: a coordinator is created when there is a database
    and none is given. *)
Definition TaskCreator_init (db : bool) (coordinator : option AtomicWriteCoordinator) : TaskCreator :=
  {| tc_db := db;
     tc_coordinator :=
       match coordinator with
       | Some co => Some co
       | None => if db then Some {| co_redis := true; co_compensation := None |} else None
       end |}.

Record create_result := {
  cr_task_id : string;
  cr_accepted : bool;
  cr_queue_position : Z;
  cr_pending_count : Z;
  cr_idempotent_reused : bool
}.

Definition priority_map (s : string) : Z :=
  match priority_of_value s with Some p => weight p | None => 3 end.

(** The deterministic identifier of an idempotent task. *)
Definition idempotent_id (key : string) : string :=
  let safe_key := str_take 60 (str_replace_char ":"%char "-"%char key) in
  let key_hash := str_take 16 (sha256_hexdigest key) in
  "cron-" +:+ safe_key +:+ "-" +:+ key_hash.

(** Column values from template members: [None] and absent are NULL; a value of
    another type is refused by the driver. *)
Definition column_str (v : option value) : exn + option string :=
  match v with
  | None | Some VNone => inr None
  | Some (VStr s) => inr (Some s)
  | _ => inl (Exn TypeError "column expects str")
  end.

Definition column_int (v : option value) (dflt : Z) : exn + Z :=
  match v with
  | None => inr dflt
  | Some (VInt n) => inr n
  | Some (VBool b) => inr (if b then 1 else 0)
  | _ => inl (Exn TypeError "column expects int")
  end.

(** Python's [a >> b] on the error side: the first error wins. *)
Definition sum_bind {A B} (x : exn + A) (f : A -> exn + B) : exn + B :=
  match x with inr a => f a | inl e => inl e end.

(** The row [mysql_write] adds; [idempotency_key] is looked up in [kwargs],
    which never contains it, being a named parameter of [create_task]. *)
Definition new_row (task_id tenant_id capability : string) (kwargs : list (string * value)) (now : Z) :
    exn + TaskRecord :=
  sum_bind (match dict_get_or "priority" (VStr "normal") kwargs with
            | VStr s => match priority_of_value s with
                        | Some p => inr p
                        | None => inl (Exn ValueError (s +:+ " is not a valid TaskPriority"))
                        end
            | _ => inl (Exn ValueError "not a valid TaskPriority")
            end) (λ prio,
  sum_bind (column_str (dict_get "callback_url" kwargs)) (λ url,
  sum_bind (column_str (dict_get "idempotency_key" kwargs)) (λ ikey,
  sum_bind (column_int (dict_get "timeout_seconds" kwargs) 3600) (λ timeout,
  sum_bind (column_int (dict_get "max_retries" kwargs) 3) (λ retries,
  sum_bind (column_str (dict_get "scheduled_at" kwargs)) (λ sched,
  sum_bind (column_str (dict_get "cron_expr" kwargs)) (λ cron,
  inr {| Tables.task_id := task_id; Tables.tenant_id := tenant_id;
         Tables.task_type := Some capability; Tables.dag_id := None;
         Tables.status := QUEUED; Tables.priority := prio;
         Tables.cluster_id := None; Tables.current_step := None;
         Tables.input_data := Some (json_dumps (dict_get_or "input_data" (VDict []) kwargs));
         Tables.output_data := None; Tables.error_message := None;
         Tables.metadata_json := Some (json_dumps (dict_get_or "metadata" (VDict []) kwargs));
         Tables.callback_url := url; Tables.idempotency_key := ikey;
         Tables.timeout_seconds := timeout; Tables.max_retries := retries; Tables.attempt := 0;
         Tables.scheduled_at := sched;
         Tables.cron_expr := cron; Tables.created_at := now; Tables.updated_at := now |}))))))).

(** [_find_existing]: [scalar_one_or_none] raises on several rows. *)
Definition find_existing (db : bool) (tenant key : string) : M (option TaskRecord) :=
  if negb db then ret None else
  let* rows := sql_read (λ t, select_tasks (λ r,
       text_eq (db_server t) (Tables.tenant_id r) tenant &&
       match Tables.idempotency_key r with Some k => text_eq (db_server t) k key | None => false end) t) in
  match rows with
  | [] => ret None
  | [r] => ret (Some r)
  | _ => raise (Exn MultipleResultsFound "Multiple rows were found when one or none was required")
  end.

Section Create.
Context {Q : Type} {TQ : TaskQueue Q} (tc : TaskCreator).

Definition mysql_write (task_id tenant_id capability : string) (kwargs : list (string * value)) : M unit :=
  sql (λ now t,
    sum_bind (new_row task_id tenant_id capability kwargs now) (λ row,
    sum_bind (insert_task row t) (λ t', inr (t', tt)))).

Definition redis_write (task_id : string) (record : list (string * value)) : M unit :=
  do* redis ("task:" +:+ task_id) (SET (orjson_dumps (VDict record)) (Some (86400 * 1000)) false) in
  ret tt.

(** The member of [kwargs] that names the capability. *)
Definition capability_of (kwargs : list (string * value)) : exn + string :=
  match dict_get_or "task_type" (dict_get_or "capability" (VStr "") kwargs) kwargs with
  | VStr s => if bool_decide (s = "") then
                inl (Exn ValueError "task_type or capability must be provided in template")
              else inr s
  | v => if truthy v then inl (Exn TypeError "task_type must be str")
         else inl (Exn ValueError "task_type or capability must be provided in template")
  end.

(** [delay_seconds] in milliseconds, when given and positive. *)
Definition delay_of (kwargs : list (string * value)) : exn + option Z :=
  let v := dict_get_or "delay_seconds" VNone kwargs in
  if negb (truthy v) then inr None else
  match as_milli v with
  | Some ms => inr (if 0 <? ms then Some ms else None)
  | None => inl (Exn TypeError "'>' not supported between instances of 'str' and 'int'")
  end.

(** The dictionary stored in Redis under [task:ID]. *)
Definition redis_record (task_id tenant_id capability : string) (now priority : Z)
    (kwargs : list (string * value)) : list (string * value) :=
  dict_update
    [("task_id", VStr task_id); ("tenant_id", VStr tenant_id); ("status", VStr "queued");
     ("created_at_ts", VFloat now); ("capability", VStr capability);
     ("priority_rank", VInt priority)] kwargs.

(** The durable write, or the Redis-only fallback. *)
Definition store_task (task_id tenant_id capability : string) (record kwargs : list (string * value)) :
    M unit :=
  match tc_coordinator tc with
  | Some co =>
      if tc_db tc && truthy (dict_get_or "persist_to_db" (VBool true) kwargs) then
        do* write_atomic co task_id "create_task"
              (mysql_write task_id tenant_id capability kwargs)
              (redis_write task_id record)
              [("tenant_id", VStr tenant_id); ("capability", VStr capability)] None in
        ret tt
      else except (redis_write task_id record) (λ _, ret tt)
  | None => except (redis_write task_id record) (λ _, ret tt)
  end.

(** The run and timeline rows of a new task. *)
Definition track_task (task_id tenant_id capability : string) (kwargs : list (string * value)) : M unit :=
  if negb (tc_db tc) then ret tt else
  let* attempt := of_sum (column_int (dict_get "attempt" kwargs) 0) in
  let* run_key := create_task_run (tc_db tc) task_id attempt "created" None None None in
  let* dag := of_sum (column_str (dict_get "dag_id" kwargs)) in
  do* match dag with
      | Some d => if bool_decide (d = "") then ret None
                  else create_dag_run (tc_db tc) d tenant_id "created" None None None
      | None => ret None
      end in
  emit (tc_db tc) task_id "task_created"
    [("tenant_id", VStr tenant_id); ("capability", VStr capability)] run_key.

(** Everything after the identifier is known. *)
Definition create_fresh (q : Q) (task_id tenant_id capability : string)
    (kwargs : list (string * value)) : M (Q * create_result) :=
  let* prio_str := match dict_get_or "priority" (VStr "normal") kwargs with
                   | VStr s => ret (str_lower s)
                   | _ => raise (Exn AttributeError "object has no attribute 'lower'")
                   end in
  let priority := priority_map prio_str in
  let* delay := of_sum (delay_of kwargs) in
  let* execute_after_ms := match delay with
                           | Some ms => let* now := time_ms in ret (now + ms)
                           | None => ret 0
                           end in
  let* now := time_ms in
  let record := redis_record task_id tenant_id capability now priority kwargs in
  do* store_task task_id tenant_id capability record kwargs in
  let* qr := tq_enqueue q capability task_id priority execute_after_ms in
  do* track_task task_id tenant_id capability kwargs in
  ret (qr.1, {| cr_task_id := task_id; cr_accepted := accepted qr.2;
                cr_queue_position := queue_position qr.2;
                cr_pending_count := pending_count qr.2; cr_idempotent_reused := false |}).

Definition create_task_body (q : Q) (tenant_id : string) (idempotency_key : option string)
    (kwargs : list (string * value)) : M (Q * create_result) :=
  let* capability := of_sum (capability_of kwargs) in
  let key := match idempotency_key with
             | Some k => if bool_decide (k = "") then None else Some k
             | None => None
             end in
  let* existing := match key with
                   | Some k => if tc_db tc then find_existing (tc_db tc) tenant_id k else ret None
                   | None => ret None
                   end in
  match existing with
  | Some row =>
      ret (q, {| cr_task_id := Tables.task_id row; cr_accepted := true; cr_queue_position := -1;
                 cr_pending_count := 0; cr_idempotent_reused := true |})
  | None =>
      let* task_id := match key with
                      | Some k => ret (idempotent_id k)
                      | None => uuid4
                      end in
      create_fresh q task_id tenant_id capability kwargs
  end.

(** [@log_errors(log_level="ERROR", raise_exception=True)] *)
Definition create_task (q : Q) (tenant_id : string) (idempotency_key : option string)
    (kwargs : list (string * value)) : M (Q * create_result) :=
  log_errors (create_task_body q tenant_id idempotency_key kwargs).
End Create.

(** ** Lemmas *)

Section Lemmas.
Context {E : Env} {Q : Type} {TQ : TaskQueue Q} (tc : TaskCreator).

Lemma save_pending_keeps {X} (f : tables -> X) co tx : db_keeps f (save_pending_tx co tx).
Proof. unfold save_pending_tx. keeps_tac. Qed.

Lemma redis_write_keeps {X} (f : tables -> X) id r : db_keeps f (redis_write id r).
Proof. unfold redis_write. keeps_tac. Qed.

Lemma emit_keeps_tasks db id ty payload key : db_keeps db_tasks (emit db id ty payload key).
Proof. unfold emit. keeps_tac. apply keeps_sql. by intros ? ? ? ? [= <-]. Qed.

Lemma task_run_keeps db id a st wk l key : db_keeps db_tasks (create_task_run db id a st wk l key).
Proof. unfold create_task_run. keeps_tac. apply keeps_sql. by intros ? ? ? ? [= <-]. Qed.

Lemma dag_run_keeps db d t st ts ij key : db_keeps db_tasks (create_dag_run db d t st ts ij key).
Proof. unfold create_dag_run. keeps_tac. apply keeps_sql. by intros ? ? ? ? [= <-]. Qed.

Lemma track_keeps id tenant cap kwargs : db_keeps db_tasks (track_task tc id tenant cap kwargs).
Proof.
  unfold track_task. keeps_tac; auto using task_run_keeps, dag_run_keeps, emit_keeps_tasks.
Qed.

(** The stored row of a template, apart from its times. *)
Definition is_new_row (id tenant cap : string) (kwargs : list (string * value))
    (row : TaskRecord) : Prop :=
  column_str (dict_get "idempotency_key" kwargs) = inr (Tables.idempotency_key row) /\
  Tables.task_id row = id /\ Tables.tenant_id row = tenant /\
  Tables.task_type row = Some cap /\ Tables.status row = QUEUED /\ Tables.attempt row = 0.

Lemma new_row_is id tenant cap kwargs now row :
  new_row id tenant cap kwargs now = inr row -> is_new_row id tenant cap kwargs row.
Proof.
  unfold new_row, sum_bind. intros H. repeat (break_match_in H; try done). by simplify_eq.
Qed.

(** [mysql_write] either adds the row or changes nothing. *)
Lemma run_mysql_write id tenant cap kwargs (w : world doc_services) :
  let '(w', r) := run (mysql_write id tenant cap kwargs) w in
  match r with
  | inl _ => w_db w' = w_db w
  | inr _ => exists row, is_new_row id tenant cap kwargs row /\ db_tasks (w_db w) !! id = None /\
      db_tasks (w_db w') = <[id := row]> (db_tasks (w_db w)) /\ w_redis w' = w_redis w
  end.
Proof.
  unfold mysql_write. rewrite run_sql. destruct (db_fault _); [done|].
  destruct (new_row id tenant cap kwargs (w_now w)) as [e|row] eqn:En; simpl; [done|].
  pose proof (new_row_is _ _ _ _ _ _ En) as Hn.
  destruct (insert_task row (w_db w)) as [e|t'] eqn:Ei; simpl; [done|].
  apply insert_task_inr in Ei as (-> & Hfresh & _ & _). exists row.
  destruct Hn as (Hk & Hid & Hn). rewrite Hid in *. done.
Qed.

(** Whether [create_task] writes a MySQL row or only the Redis record. *)
Definition persistent (kwargs : list (string * value)) : bool :=
  match tc_coordinator tc with
  | Some _ => tc_db tc && truthy (dict_get_or "persist_to_db" (VBool true) kwargs)
  | None => false
  end.

(** The compensation service, if the coordinator has one, leaves the task rows
    alone when a transaction is handed to it. *)
Definition compensation_apart : Prop :=
  ∀ co enqueue tx, tc_coordinator tc = Some co -> co_compensation co = Some enqueue ->
    db_keeps db_tasks (enqueue tx).

(** The task table after a creation: with a row for [id] added, or as it was. *)
Definition stored (id tenant cap : string) (kwargs : list (string * value))
    (ts ts' : gmap string TaskRecord) : Prop :=
  if persistent kwargs
  then exists row, is_new_row id tenant cap kwargs row /\ ts !! id = None /\ ts' = <[id := row]> ts
  else ts' = ts.

Lemma store_task_stores id tenant cap record kwargs (w w' : world doc_services) :
  compensation_apart -> run (store_task tc id tenant cap record kwargs) w = (w', inr tt) ->
  stored id tenant cap kwargs (db_tasks (w_db w)) (db_tasks (w_db w')).
Proof.
  intros Hca. unfold stored, persistent, store_task.
  assert (Hfall : db_keeps db_tasks (except (redis_write id record) (λ _, ret tt)))
    by (apply keeps_except; [apply redis_write_keeps|auto with sched]).
  assert (Hfallback : run (except (redis_write id record) (λ _, ret tt)) w = (w', inr tt) ->
            db_tasks (w_db w') = db_tasks (w_db w)) by (intros Hr; specialize (Hfall w); by rewrite Hr in Hfall).
  destruct (tc_coordinator tc) as [co|] eqn:Eco; [|done].
  destruct (tc_db tc && _) eqn:Ep; cbv iota; [|done]. rewrite run_bind.
  match goal with |- context [write_atomic co id ?op ?f ?g ?pl ?gid] =>
    destruct (write_atomic_phases co id op f g pl gid w)
      as (w0 & tx & _ & _ & _ & _ & _ & Hr & Hd & _ & ->) end.
  rewrite run_phases. pose proof (run_mysql_write id tenant cap kwargs w0) as Hm.
  destruct (run (mysql_write id tenant cap kwargs) w0) as [w1 [e|u]]; [done|].
  destruct Hm as (row & Hrow & Hfresh & Hins & _). rewrite Hd in *.
  pose proof (redis_write_keeps db_tasks id record w1) as Hk.
  destruct (run (redis_write id record) w1) as [w2 [e|u']]; simpl in Hk.
  2:{ intros [= <-]. exists row. by rewrite Hk. }
  destruct (is_exception e); [|done]. rewrite run_bind.
  pose proof (save_pending_keeps db_tasks co (tx_redis_failed e tx) w2) as Hs.
  destruct (run (save_pending_tx co _) w2) as [w3 [e'|u'']]; simpl in Hs; [done|]. rewrite run_bind.
  match goal with |- context [run ?p w3] => assert (Hc : db_keeps db_tasks p)
    by (destruct (co_compensation co) eqn:Ec; [by eapply Hca|auto with sched]) end.
  specialize (Hc w3). destruct (run _ w3) as [w4 [e'|u3]]; [done|]. simpl in Hc.
  intros [= <-]. exists row. by rewrite Hc, Hs, Hk.
Qed.

Lemma create_fresh_stores q id tenant cap kwargs (w w' : world doc_services) q' res :
  compensation_apart -> run (create_fresh tc q id tenant cap kwargs) w = (w', inr (q', res)) ->
  cr_task_id res = id /\ cr_idempotent_reused res = false /\
  stored id tenant cap kwargs (db_tasks (w_db w)) (db_tasks (w_db w')).
Proof.
  intros Hca. unfold create_fresh.
  rewrite run_bind. destruct (dict_get_or "priority" _ kwargs); try done.
  rewrite run_ret. cbv beta iota zeta. rewrite run_bind.
  destruct (delay_of kwargs) as [e|d]; [done|]. simpl (run (of_sum (inr d)) w). cbv beta iota.
  rewrite run_bind.
  match goal with |- context [run ?p w] =>
    assert (db_keeps (λ t, t) p) as Hk1 by keeps_tac; specialize (Hk1 w);
    destruct (run p w) as [w1 [e|at_ms]]; [done|] end. simpl in Hk1.
  rewrite run_bind, run_time_ms. cbv beta iota. rewrite run_bind.
  set (w2 := after (w_redis w1) (w_db w1) w1).
  destruct (run (store_task tc id tenant cap _ kwargs) w2) as [w3 [e|[]]] eqn:Est; [done|].
  apply (store_task_stores _ _ _ _ _ _ _ Hca) in Est. simpl in Est. rewrite Hk1 in Est.
  rewrite run_bind. match goal with |- context [run (tq_enqueue ?q ?c ?i ?p ?a) w3] =>
    pose proof (tq_db _ q c i p a w3) as Hq;
    destruct (run (tq_enqueue q c i p a) w3) as [w4 [e|qr]]; [done|] end. simpl in Hq.
  rewrite run_bind. pose proof (track_keeps id tenant cap kwargs w4) as Ht.
  destruct (run (track_task tc id tenant cap kwargs) w4) as [w5 [e|u]]; [done|]. simpl in Ht.
  rewrite run_ret. intros [= <- _ <-]. simpl. split; [done|]. split; [done|]. by rewrite Ht, Hq.
Qed.

(** The row of an earlier request of the tenant with this key, as MySQL compares
    texts. *)
Definition same_request (m : mysql_server) (tenant k : string) (row : TaskRecord) : Prop :=
  text_eq m (Tables.tenant_id row) tenant = true /\
  exists k', Tables.idempotency_key row = Some k' /\ text_eq m k' k = true.

Lemma find_existing_some tenant k (w w' : world doc_services) row :
  run (find_existing true tenant k) w = (w', inr (Some row)) ->
  exists id, db_tasks (w_db w) !! id = Some row /\ same_request (db_server (w_db w)) tenant k row.
Proof.
  unfold find_existing. simpl negb. cbv iota. rewrite run_bind. unfold sql_read. rewrite run_sql.
  destruct (db_fault _); [done|]. cbv beta iota zeta.
  destruct (select_tasks _ (w_db w)) as [|r [|]] eqn:Es; [done| |done].
  rewrite run_ret. intros [= _ <-].
  assert (r ∈ [r]) as Hin by set_solver. rewrite <-Es in Hin.
  apply select_tasks_spec in Hin as [Hp [id Hid]]. exists id. split; [done|].
  apply andb_True in Hp as [H1%Is_true_true H2]. split; [done|].
  destruct (Tables.idempotency_key r) as [k'|]; [|done]. exists k'. split; [done|]. by apply Is_true_true.
Qed.

Lemma create_task_stores q tenant key kwargs (w w' : world doc_services) q' res :
  compensation_apart -> run (create_task tc q tenant key kwargs) w = (w', inr (q', res)) ->
  (cr_idempotent_reused res = true /\ tc_db tc = true /\ w_db w' = w_db w /\
   exists k id row, key = Some k /\ db_tasks (w_db w) !! id = Some row /\ cr_task_id res = Tables.task_id row /\
     same_request (db_server (w_db w)) tenant k row) \/
  cr_idempotent_reused res = false /\
  (∀ k, key = Some k -> k <> "" -> cr_task_id res = idempotent_id k) /\
  exists cap, capability_of kwargs = inr cap /\
    stored (cr_task_id res) tenant cap kwargs (db_tasks (w_db w)) (db_tasks (w_db w')).
Proof.
  intros Hca. unfold create_task. rewrite run_log_errors.
  destruct (run (create_task_body tc q tenant key kwargs) w) as [w1 [e|[q1 r1]]] eqn:Eb;
    [by destruct (is_exception e)|]. intros [= <- <- <-].
  revert Eb. unfold create_task_body. rewrite run_bind.
  destruct (capability_of kwargs) as [e|cap]; [done|]. simpl (run (of_sum _) w). cbv beta iota zeta.
  set (k' := match key with Some k => if bool_decide (k = "") then None else Some k | None => None end).
  rewrite run_bind.
  match goal with |- context [run ?p w] =>
    assert (db_keeps (λ t, t) p) as Hk1
      by (unfold find_existing; keeps_tac; apply (keeps_sql_read (λ t, t)));
    specialize (Hk1 w); destruct (run p w) as [w2 [e|ex]] eqn:Eex; [done|] end. simpl in Hk1.
  destruct ex as [row|].
  { rewrite run_ret. intros [= <- _ <-]. left. split; [done|].
    destruct k' as [k|] eqn:Ek; [|done]. destruct (tc_db tc); [|done]. split; [done|]. split; [done|].
    apply find_existing_some in Eex as (id & Hid & Ht & Hi).
    exists k, id, row. split; [|done]. subst k'. destruct key as [k0|]; [|done].
    by case_bool_decide; simplify_eq. }
  rewrite run_bind.
  match goal with |- context [run ?p w2] =>
    assert (db_keeps (λ t, t) p) as Hk2 by keeps_tac;
    specialize (Hk2 w2); destruct (run p w2) as [w3 [e|id]] eqn:Eid; [done|] end. simpl in Hk2.
  intros (Hid & Hre & Hst)%create_fresh_stores; [|done].
  right. split; [done|]. rewrite Hid. split.
  - intros k -> Hk. subst k'. rewrite bool_decide_eq_false_2 in Eid by done. by injection Eid as _ <-.
  - exists cap. split; [done|]. by rewrite Hk2, Hk1 in Hst.
Qed.
End Lemmas.

(** ** The queue manager is a task queue *)

#[global] Program Instance QueueManager_queue {B} {BI : Breaker B} :
    TaskQueue (QueueManager B * qm_cache) := {|
  tq_enqueue := λ q cap id prio at_ms,
    let* r := enqueue q.1 q.2 cap id prio at_ms in ret ((q.1, r.1), r.2)
|}.
Next Obligation.
  intros B BI E [qm c] cap id prio at_ms w.
  assert (db_keeps (λ t, t) (let* r := enqueue qm c cap id prio at_ms in ret ((qm, r.1), r.2))) as H.
  { unfold enqueue, cb_allows. keeps_tac. apply b_allow_db. }
  apply H.
Qed.

(** ** Properties *)

(** C5: durability of task creation.  Whatever calls fail and whatever the queue
    answers, if [create_task] returns a result, then either it reports reuse of an
    existing row whose tenant and key MySQL finds equal to the caller's and the
    database is unchanged; or a new
    task was made: with a database, a coordinator and [persist_to_db] not switched
    off, MySQL holds exactly one new row, QUEUED, for the reported identifier with
    the caller's tenant and capability, and every other task row is as before, and
    without one of these (the Redis-only mode) no task row is written.  A
    compensation service given to the coordinator leaves the task rows alone. *)
Theorem created_is_durable (S : Services) (E : Env) (Q : Type) (TQ : TaskQueue Q)
    tc (q q' : Q) tenant key kwargs res (w w' : world S) :
  compensation_apart tc ->
  run (create_task tc q tenant key kwargs) w = (w', inr (q', res)) ->
  (cr_idempotent_reused res = true /\ tc_db tc = true /\ db_of w' = db_of w /\
   exists k id row, key = Some k /\ db_tasks (db_of w) !! id = Some row /\ cr_task_id res = Tables.task_id row /\
     same_request (db_server (db_of w)) tenant k row) \/
  (cr_idempotent_reused res = false /\
   exists cap, capability_of kwargs = inr cap /\
     if persistent tc kwargs then
       exists row, is_new_row (cr_task_id res) tenant cap kwargs row /\
         db_tasks (db_of w) !! cr_task_id res = None /\
         db_tasks (db_of w') = <[cr_task_id res := row]> (db_tasks (db_of w))
     else db_tasks (db_of w') = db_tasks (db_of w)).
Proof.
  intros Hca Hrun. pose proof (run_view (create_task tc q tenant key kwargs) w) as Hv.
  rewrite Hrun in Hv.
  destruct (create_task_stores tc q tenant key kwargs (wview w) (wview w') q' res Hca Hv)
    as [H|(Ha & _ & Hb)]; [left; exact H|right; split; [exact Ha|exact Hb]].
Qed.

Definition tc_demo : TaskCreator := TaskCreator_init true None.

Definition qm_demo0 : QueueManager CircuitBreaker :=
  {| qm_cb := None; qm_default_depth := 2; qm_default_mc := 8; qm_ttl := 3600;
     qm_scan_limit := 50; qm_decode_responses := true |}.

Definition kwargs_demo : list (string * value) :=
  [("task_type", VStr "ocr"); ("priority", VStr "high"); ("input_data", VDict [("page", VInt 1)])].

Definition created (out : world doc_services * (exn + (QueueManager CircuitBreaker * qm_cache * create_result))) :
    option create_result :=
  match out.2 with inr (_, r) => Some r | inl _ => None end.

Definition q_demo : QueueManager CircuitBreaker * qm_cache :=
  (qm_demo0, {| stats_cache := []; stats_cache_time := 0 |}).

Definition create_demo (key : option string) : M (QueueManager CircuitBreaker * qm_cache * create_result) :=
  create_task tc_demo q_demo "acme" key kwargs_demo.

Lemma init_apart {E : Env} db : compensation_apart (TaskCreator_init db None).
Proof. intros co enqueue tx Hco Hc. destruct db; [|done]. simpl in Hco. by injection Hco as <-. Qed.

Lemma created_is_durable_witness :
  match run (S := doc_services) (E := calm) (create_demo None) (world0 1000) with
  | (w', inr (_, res)) =>
      (cr_idempotent_reused res = true /\ tc_db tc_demo = true /\ db_of w' = db_of (world0 1000) /\
       exists k id row, None = Some k /\ db_tasks (db_of (world0 1000)) !! id = Some row /\
         cr_task_id res = Tables.task_id row /\
         same_request (db_server (db_of (world0 1000))) "acme" k row) \/
      (cr_idempotent_reused res = false /\
       exists cap, capability_of kwargs_demo = inr cap /\
         exists row, is_new_row (cr_task_id res) "acme" cap kwargs_demo row /\
         db_tasks (db_of (world0 1000)) !! cr_task_id res = None /\
         db_tasks (db_of w') = <[cr_task_id res := row]> (db_tasks (db_of (world0 1000))))
  | _ => False
  end.
Proof.
  assert (created (run (S := doc_services) (E := calm) (create_demo None) (world0 1000)) <> None) as Hok
    by (vm_compute; discriminate).
  destruct (run (create_demo None) (world0 1000)) as [w' [e|[q' res]]] eqn:Er;
    [exfalso; apply Hok; reflexivity|].
  apply (created_is_durable doc_services calm _ _ tc_demo
           q_demo q' "acme" None kwargs_demo res (world0 1000) w' (init_apart true) Er).
Defined.

(** The documented idempotency does not hold.  [idempotency_key] is a named
    parameter, so the stored row never carries it and the look-up never finds a
    row this code created: once a task was created under a key, no later
    [create_task] of the same tenant and key succeeds, whatever else happens to
    the calls, until its row is removed.  (In a database where no row carries a key, as
    this code leaves it.) *)
Theorem idempotent_retry_fails (S : Services) (E : Env) (Q : Type) (TQ : TaskQueue Q)
    tc (q1 q2 q1' : Q) tenant k kwargs res (w w1 w2 : world S) r :
  compensation_apart tc -> persistent tc kwargs = true -> dict_get "idempotency_key" kwargs = None -> k <> "" ->
  (∀ id row, db_tasks (db_of w) !! id = Some row -> Tables.idempotency_key row = None) ->
  run (create_task tc q1 tenant (Some k) kwargs) w = (w1, inr (q1', res)) ->
  run (create_task tc q2 tenant (Some k) kwargs) w1 = (w2, r) ->
  exists e, r = inl e.
Proof.
  intros Hca Hp Hnk Hk Hno Hrun1 Hrun2.
  pose proof (run_view (create_task tc q1 tenant (Some k) kwargs) w) as Hv1. rewrite Hrun1 in Hv1.
  pose proof (run_view (create_task tc q2 tenant (Some k) kwargs) w1) as Hv2. rewrite Hrun2 in Hv2.
  destruct r as [e|[q2' res2]]; [by exists e|]. exfalso.
  destruct (create_task_stores tc q1 tenant (Some k) kwargs (wview w) (wview w1) q1' res Hca Hv1)
    as [(_ & _ & _ & k0 & id & row & [= <-] & Hid & _ & _ & k1 & Hi & _)|(_ & Hid1 & cap & _ & Hst)];
    [apply Hno in Hid; congruence|].
  unfold stored in Hst. rewrite Hp in Hst. destruct Hst as (row & Hrow & Hf & Hins).
  destruct Hrow as (Hik & _). rewrite Hnk in Hik. injection Hik as Hik.
  destruct (create_task_stores tc q2 tenant (Some k) kwargs (wview w1) (wview w2) q2' res2 Hca Hv2)
    as [(_ & _ & _ & k0 & id & row' & [= <-] & Hid & _ & _ & k1 & Hi & _)|(_ & Hid2 & cap' & _ & Hst)].
  - rewrite Hins, lookup_insert_Some in Hid. destruct Hid as [[_ <-]|[_ Hid]]; [congruence|].
    apply Hno in Hid. congruence.
  - unfold stored in Hst. rewrite Hp in Hst. destruct Hst as (row' & _ & Hf' & _).
    rewrite (Hid2 k eq_refl Hk), <-(Hid1 k eq_refl Hk), Hins, lookup_insert_eq in Hf'. done.
Qed.

Lemma idempotent_retry_fails_witness :
  match run (S := doc_services) (E := calm) (create_demo (Some "job:42")) (world0 1000) with
  | (w1, inr (_, res)) =>
      exists e, (run (S := doc_services) (E := calm) (create_demo (Some "job:42")) w1).2 = inl e
  | _ => False
  end.
Proof.
  assert (created (run (S := doc_services) (E := calm) (create_demo (Some "job:42")) (world0 1000)) <> None)
    as Hok by (vm_compute; discriminate).
  destruct (run (create_demo (Some "job:42")) (world0 1000)) as [w1 [e|[q' res]]] eqn:Er;
    [exfalso; apply Hok; reflexivity|].
  destruct (run (create_demo (Some "job:42")) w1) as [w2 r] eqn:Er2.
  apply (idempotent_retry_fails doc_services calm _ _ tc_demo
           q_demo q_demo q' "acme" "job:42" kwargs_demo res (world0 1000) w1 w2 r
           (init_apart true) eq_refl eq_refl); [discriminate | | exact Er | exact Er2].
  intros id row Hin. unfold db_of, world0 in Hin. simpl in Hin. rewrite lookup_empty in Hin. discriminate Hin.
Defined.
