(* ===== verification/Compensation.v ===== *)
(** * Compensation service

    [src/services/compensation.py]: scanning Redis for unfinished transactions
    and MySQL for active tasks missing from Redis, and repairing both. *)

From stdpp Require Import base gmap strings list.
From S2P Require Import Prelude PyValue Json Redis TaskModel Tables Effects Transaction.

Open Scope Z_scope.

Record CompensationService := {
  cs_redis : bool;
  cs_scan_interval : Z;
  cs_batch_size : nat;
  cs_max_retries : Z
}.

Definition TASK_REDIS_TTL : Z := 86400.

Definition task_key (id : string) : string := "task:" +:+ id.

(** What [_save_transaction] stores. *)
Definition tx_json (tx : TxRecord) : value :=
  VDict [("tx_id", VStr (tx_id tx)); ("task_id", VStr (tx_task_id tx));
         ("operation", VStr (tx_operation tx));
         ("status", VStr (tx_status_value (tx_status tx)));
         ("mysql_written", VBool (tx_mysql_written tx));
         ("redis_written", VBool (tx_redis_written tx));
         ("created_at", VFloat (tx_created_at tx));
         ("retry_count", VInt (tx_retry_count tx));
         ("last_error", VStr (tx_last_error tx));
         ("payload", VDict (tx_payload tx))].

(** ** Reading a transaction record back *)

Definition need {A} (k : string) (d : list (string * value)) (f : value -> option A) : exn + A :=
  match dict_get k d with
  | None => inl (Exn KeyError k)
  | Some v => match f v with Some a => inr a | None => inl (Exn TypeError k) end
  end.

Definition may {A} (k : string) (d : list (string * value)) (dflt : A) (f : value -> option A) : exn + A :=
  match dict_get k d with
  | None => inr dflt
  | Some v => match f v with Some a => inr a | None => inl (Exn TypeError k) end
  end.

Definition as_str (v : value) : option string := match v with VStr s => Some s | _ => None end.
Definition as_bool (v : value) : option bool := match v with VBool b => Some b | _ => None end.
Definition as_int (v : value) : option Z := match v with VInt n => Some n | _ => None end.
Definition as_dict (v : value) : option (list (string * value)) :=
  match v with VDict d => Some d | _ => None end.

(** The [TxRecord(...)] expression of [_scan_pending_transactions], on records
    whose members have the types the two writers give them. *)
Definition parse_tx (v : value) : exn + TxRecord :=
  match v with
  | VDict d =>
      match need "tx_id" d as_str, need "task_id" d as_str, need "operation" d as_str,
            need "status" d (λ v, as_str v ≫= tx_status_of_value),
            may "mysql_written" d false as_bool, may "redis_written" d false as_bool,
            need "created_at" d as_milli, may "retry_count" d 0 as_int,
            may "last_error" d "" as_str, may "payload" d [] as_dict with
      | inr id, inr task, inr op, inr st, inr mw, inr rw, inr at_, inr rc, inr le, inr pl =>
          inr {| tx_id := id; tx_task_id := task; tx_operation := op; tx_status := st;
                 tx_mysql_written := mw; tx_redis_written := rw; tx_created_at := at_;
                 tx_retry_count := rc; tx_last_error := le; tx_payload := pl |}
      | _, _, _, _, _, _, _, _, _, _ => inl (Exn ValueError "malformed transaction record")
      end
  | _ => inl (Exn TypeError "transaction record is not a dict")
  end.

Definition unfinished (tx : TxRecord) : bool :=
  bool_decide (tx_status tx = PENDING_REDIS) || bool_decide (tx_status tx = TX_FAILED).

Definition with_status (s : TxStatus) (tx : TxRecord) : TxRecord :=
  {| tx_id := tx_id tx; tx_task_id := tx_task_id tx; tx_operation := tx_operation tx;
     tx_status := s; tx_mysql_written := tx_mysql_written tx;
     tx_redis_written := tx_redis_written tx; tx_created_at := tx_created_at tx;
     tx_retry_count := tx_retry_count tx; tx_last_error := tx_last_error tx;
     tx_payload := tx_payload tx |}.

Definition repaired (tx : TxRecord) : TxRecord :=
  {| tx_id := tx_id tx; tx_task_id := tx_task_id tx; tx_operation := tx_operation tx;
     tx_status := COMMITTED; tx_mysql_written := tx_mysql_written tx;
     tx_redis_written := true; tx_created_at := tx_created_at tx;
     tx_retry_count := tx_retry_count tx; tx_last_error := tx_last_error tx;
     tx_payload := tx_payload tx |}.

Definition retried (err : exn) (tx : TxRecord) : TxRecord :=
  {| tx_id := tx_id tx; tx_task_id := tx_task_id tx; tx_operation := tx_operation tx;
     tx_status := tx_status tx; tx_mysql_written := tx_mysql_written tx;
     tx_redis_written := tx_redis_written tx; tx_created_at := tx_created_at tx;
     tx_retry_count := tx_retry_count tx + 1; tx_last_error := exn_str err;
     tx_payload := tx_payload tx |}.

(** The Redis record rebuilt from a row. *)
Definition rebuilt_record (r : TaskRecord) : value :=
  VDict [("task_id", VStr (task_id r)); ("tenant_id", VStr (tenant_id r));
         ("status", VStr (status_value (status r)));
         ("created_at_ts", VFloat (created_at r));
         ("capability", match task_type r with Some t => VStr t | None => VNone end);
         ("priority_rank", VInt 3)].

Section Service.
Context (cs : CompensationService).

Definition save_transaction (tx : TxRecord) : M unit :=
  if negb (cs_redis cs) then ret tt else
  match tx_status tx with
  | COMMITTED | EXPIRED => do* redis (tx_key (tx_id tx)) DEL in ret tt
  | _ =>
      do* redis (tx_key (tx_id tx)) (SET (json_dumps (tx_json tx)) (Some (300 * 1000)) false) in
      ret tt
  end.

(** A command through [self._redis], which may be [None]. *)
Definition self_redis {X} (k : string) (a : act X) : M X :=
  if cs_redis cs then redis k a
  else raise (Exn AttributeError "'NoneType' object has no attribute").

(** The repair methods mutate the record they are given before they save it, and
    [_repair_transaction] goes on with the mutated record when they raise: a
    method gives the record as it left it, and its outcome. *)
Definition tx_method : Type := M (TxRecord * (exn + unit)).

(** [m] raises with the record as it is, or the method goes on. *)
Definition tx_try {A} (tx : TxRecord) (m : M A) (k : A -> tx_method) : tx_method :=
  let* r := attempt_ m in
  match r with inl e => ret (tx, inl e) | inr a => k a end.

Definition tx_save (tx : TxRecord) : tx_method := tx_try tx (save_transaction tx) (λ _, ret (tx, inr tt)).

(** [tx.status = TxStatus.EXPIRED; await self._save_transaction(tx)] *)
Definition mark_expired (tx : TxRecord) : tx_method := tx_save (with_status EXPIRED tx).

(** [CompensationService.enqueue] *)
Definition comp_enqueue (tx : TxRecord) : M unit := save_transaction tx.

Definition find_task (id : string) : M (option TaskRecord) :=
  sql_read (λ t, db_tasks t !! id).

Definition retry_create_task (tx : TxRecord) : tx_method :=
  tx_try tx (find_task (tx_task_id tx)) (λ task,
  match task with
  | None => mark_expired tx
  | Some r =>
      tx_try tx (self_redis (task_key (tx_task_id tx))
                   (SET (json_dumps (rebuilt_record r)) (Some (TASK_REDIS_TTL * 1000)) false)) (λ _,
      tx_save (repaired tx))
  end).

(** The cached record with the row's status, when there is one. *)
Definition refresh_status (id : string) (r : TaskRecord) : M unit :=
  let* data := self_redis (task_key id) GET in
  match data with
  | Some text =>
      if bool_decide (text = "") then ret tt else
      match json_loads text with
      | Some (VDict d) =>
          do* self_redis (task_key id)
                (SET (json_dumps (VDict (dict_set "status" (VStr (status_value (status r))) d)))
                     (Some (TASK_REDIS_TTL * 1000)) false) in ret tt
      | Some _ => raise (Exn TypeError "object does not support item assignment")
      | None => raise (Exn ValueError "Expecting value")
      end
  | None => ret tt
  end.

Definition retry_update_status (tx : TxRecord) : tx_method :=
  tx_try tx (find_task (tx_task_id tx)) (λ task,
  match task with
  | None => mark_expired tx
  | Some r => tx_try tx (refresh_status (tx_task_id tx) r) (λ _, tx_save (repaired tx))
  end).

Definition repair_transaction (tx : TxRecord) : M unit :=
  if tx_retry_count tx >=? cs_max_retries cs
  then let* r := mark_expired tx in of_sum r.2
  else
  let* r := if decide (tx_operation tx = "create_task") then retry_create_task tx
            else if decide (tx_operation tx = "update_status") then retry_update_status tx
            else mark_expired tx in
  match r.2 with
  | inr _ => ret tt
  | inl err => if is_exception err then save_transaction (retried err r.1) else raise err
  end.

(** The SCAN loop; a documented SCAN iteration ends with cursor 0. *)
Fixpoint scan_all (fuel : nat) (cursor : Z) (pattern : string -> bool) : M (list string) :=
  match fuel with
  | O => raise (Exn RuntimeError "SCAN iteration does not end")
  | S fuel' =>
      let* r := scan cursor pattern (cs_batch_size cs) in
      if r.1 =? 0 then ret r.2 else
      let* rest := scan_all fuel' r.1 pattern in
      ret (r.2 ++ rest)
  end.

Definition read_tx (key : string) : M (option TxRecord) :=
  except
    (let* data := redis key GET in
     match data with
     | None => ret None
     | Some text =>
         if bool_decide (text = "") then ret None else
         match json_loads text with
         | None => raise (Exn ValueError "Expecting value")
         | Some v => let* tx := of_sum (parse_tx v) in ret (Some tx)
         end
     end)
    (λ _, ret None).

Definition scan_pending_transactions (fuel : nat) : M (list TxRecord) :=
  if negb (cs_redis cs) then ret [] else
  except
    (let* keys := scan_all fuel 0 (starts_with "tx:") in
     let* txs := fold_m keys (λ acc k, let* r := read_tx k in
                                       ret (acc ++ match r with Some tx => [tx] | None => [] end)) [] in
     ret (filter (λ tx, Is_true (unfinished tx)) txs))
    (λ _, ret []).

Definition active (now : Z) (r : TaskRecord) : bool :=
  (bool_decide (status r = QUEUED) || bool_decide (status r = RUNNING) ||
   bool_decide (status r = SCHEDULED)) && (now - 24 * 3600 * 1000 <=? updated_at r).

Definition scan_missing_redis_tasks : M (list TaskRecord) :=
  let* now := time_ms in
  let* tasks := sql_read (λ t, take (cs_batch_size cs) (unordered t (select_tasks (active now) t))) in
  match tasks with
  | [] => ret []
  | _ =>
      if negb (cs_redis cs) then raise (Exn AttributeError "'NoneType' object has no attribute 'pipeline'") else
      let* ex := script (pipeline (map (λ r, (task_key (task_id r), EXISTS)) tasks)) in
      ret (map fst (filter (λ p, p.2 = 0) (zip tasks ex)))
  end.

Definition repair_missing_task (r : TaskRecord) : M unit :=
  except
    (do* self_redis (task_key (task_id r))
          (SET (json_dumps (rebuilt_record r)) (Some (TASK_REDIS_TTL * 1000)) false) in ret tt)
    (λ _, ret tt).

Definition scan_and_repair (fuel : nat) : M unit :=
  let* txs := scan_pending_transactions fuel in
  do* for_each txs repair_transaction in
  let* missing := scan_missing_redis_tasks in
  for_each missing repair_missing_task.

(** One iteration of [_run_loop]. *)
Definition comp_loop_body (fuel : nat) : M unit :=
  except
    (do* scan_and_repair fuel in sleep (cs_scan_interval cs * 1000))
    (λ _, sleep (Z.min 300 (cs_scan_interval cs * 2) * 1000)).
End Service.

(** ** Lemmas *)

Lemma parse_tx_json tx : parse_tx (tx_json tx) = inr tx.
Proof.
  destruct tx as [id task op st mw rw at_ rc le pl]. unfold parse_tx, tx_json, need, may; simpl.
  by rewrite tx_status_of_value_of.
Qed.

Lemma parse_pending_tx_json tx :
  parse_tx (pending_tx_json tx) = inr
    {| tx_id := tx_id tx; tx_task_id := tx_task_id tx; tx_operation := tx_operation tx;
       tx_status := tx_status tx; tx_mysql_written := false; tx_redis_written := false;
       tx_created_at := tx_created_at tx; tx_retry_count := tx_retry_count tx;
       tx_last_error := tx_last_error tx; tx_payload := tx_payload tx |}.
Proof.
  unfold parse_tx, pending_tx_json, need, may; simpl. by rewrite tx_status_of_value_of.
Qed.

Lemma tx_task_apart id id' : tx_key id <> task_key id'.
Proof. unfold tx_key, task_key, TX_PREFIX. by intros [=]. Qed.

#[export] Hint Resolve tx_task_apart : sched.

Section Runs.
Context {E : Env} (Hq : quiet E).
Notation W := (world doc_services).

Lemma run_set k v px (w : W) :
  run (redis k (SET v (Some px) false)) w =
  (after (put k (Some (REntry (RStr v) (Some (w_now w + px)))) (w_redis w)) (w_db w) w, inr true).
Proof using Hq. rewrite run_redis, (proj1 Hq), act_SET. done. Qed.

Lemma run_del k (w : W) :
  run (redis k DEL) w =
  (after (put k None (w_redis w)) (w_db w) w, inr (zflag (live (w_now w) (w_redis w) k))).
Proof using Hq. rewrite run_redis, (proj1 Hq), act_DEL. done. Qed.

Lemma run_find_task id (w : W) :
  run (find_task id) w = (after (w_redis w) (w_db w) w, inr (db_tasks (w_db w) !! id)).
Proof using Hq. unfold find_task, sql_read. by rewrite run_sql, (proj2 Hq). Qed.

Lemma str_at_put_eq t k v x ks :
  t < x -> str_at t (put k (Some (REntry (RStr v) (Some x))) ks) k = Some v.
Proof.
  intros H. unfold str_at. rewrite live_put_eq; [done|]. apply Z.leb_gt. done.
Qed.

Lemma str_at_put_ne t k k' e ks : k <> k' -> str_at t (put k e ks) k' = str_at t ks k'.
Proof. intros H. unfold str_at. by rewrite live_put_ne. Qed.

(** What [repair_transaction] does to a [create_task] record whose row exists. *)
Lemma repair_create cs tx row (w : W) :
  cs_redis cs = true -> tx_operation tx = "create_task" ->
  tx_retry_count tx < cs_max_retries cs -> db_tasks (w_db w) !! tx_task_id tx = Some row ->
  let '(w', r) := run (repair_transaction cs tx) w in
  r = inr tt /\ w_db w' = w_db w /\
  w_redis w' !! tx_key (tx_id tx) = None /\
  exists t0, w_now w <= t0 <= w_now w' /\
    w_redis w' !! task_key (tx_task_id tx) =
      Some (REntry (RStr (json_dumps (rebuilt_record row))) (Some (t0 + TASK_REDIS_TTL * 1000))).
Proof using Hq.
  intros Hr Hop Hrc Hrow. unfold repair_transaction.
  rewrite Z.geb_leb, (proj2 (Z.leb_gt _ _)) by done. rewrite run_bind, decide_True by done.
  unfold retry_create_task, tx_try at 1. rewrite run_bind, run_attempt_, run_find_task, Hrow. cbv beta iota.
  unfold tx_save, tx_try, self_redis. rewrite run_bind, run_attempt_, Hr, run_set. cbv beta iota.
  rewrite run_bind, run_attempt_. unfold save_transaction, repaired; simpl tx_status.
  rewrite Hr. simpl negb. cbv iota. rewrite run_bind, run_del. cbv beta iota. rewrite !run_ret.
  split; [done|]. split; [done|]. simpl w_redis.
  split; [apply lookup_put_eq|].
  exists (w_now (after (w_redis w) (w_db w) w)). split; [simpl; lia|].
  rewrite lookup_put_ne by auto with sched. apply lookup_put_eq.
Qed.
End Runs.

(** ** Properties *)

(** Transaction records survive the trip through Redis: what
    [_save_transaction] and [_save_pending_tx] write, [_scan_pending_transactions]
    reads back.  The first is the identity; the second loses exactly the two
    written flags, so a pending record always comes back as not written to
    MySQL although it was. *)
Theorem tx_record_roundtrip tx :
  (exists v, json_loads (json_dumps (tx_json tx)) = Some v /\ parse_tx v = inr tx) /\
  (exists v tx', json_loads (json_dumps (pending_tx_json tx)) = Some v /\ parse_tx v = inr tx' /\
     tx_id tx' = tx_id tx /\ tx_task_id tx' = tx_task_id tx /\ tx_operation tx' = tx_operation tx /\
     tx_status tx' = tx_status tx /\ tx_created_at tx' = tx_created_at tx /\
     tx_retry_count tx' = tx_retry_count tx /\ tx_last_error tx' = tx_last_error tx /\
     tx_payload tx' = tx_payload tx /\
     tx_mysql_written tx' = false /\ tx_redis_written tx' = false).
Proof.
  split.
  - exists (tx_json tx). split; [apply loads_json_dumps | apply parse_tx_json].
  - do 2 eexists. split; [apply loads_json_dumps|]. split; [apply parse_pending_tx_json|].
    split_and!; reflexivity.
Qed.

(** A failed [create_task] whose row is in MySQL is repaired in one pass, over
    any services without faults: the Redis record is rebuilt from the row with
    its 24 hour lifetime, the transaction record is removed, and the database is
    left alone. *)
Theorem compensation_repairs (S : Services) (E : Env) cs tx row (w : world S) :
  quiet E -> cs_redis cs = true -> tx_operation tx = "create_task" ->
  tx_retry_count tx < cs_max_retries cs -> db_tasks (db_of w) !! tx_task_id tx = Some row ->
  let '(w', r) := run (repair_transaction cs tx) w in
  r = inr tt /\ db_of w' = db_of w /\
  ks_of w' !! tx_key (tx_id tx) = None /\
  exists t0, w_now w <= t0 <= w_now w' /\
    ks_of w' !! task_key (tx_task_id tx) =
      Some (REntry (RStr (json_dumps (rebuilt_record row))) (Some (t0 + TASK_REDIS_TTL * 1000))).
Proof.
  intros Hq H1 H2 H3 H4. transfer (repair_create Hq cs tx row (wview w) H1 H2 H3 H4).
Qed.

Definition cs_demo : CompensationService :=
  {| cs_redis := true; cs_scan_interval := 60; cs_batch_size := 100; cs_max_retries := 3 |}.

Definition row_demo : TaskRecord :=
  {| task_id := "t-1"; tenant_id := "acme"; task_type := Some "ocr"; dag_id := None;
     status := QUEUED; priority := NORMAL; cluster_id := None; current_step := None;
     input_data := None; output_data := None; error_message := None; metadata_json := None;
     callback_url := None; idempotency_key := None; timeout_seconds := 3600; max_retries := 3;
     attempt := 0; scheduled_at := None; cron_expr := None; created_at := 900; updated_at := 900 |}.

Definition w_row : world doc_services :=
  World (S := doc_services) (∅ : keyspace)
    (set_tasks (λ m, <["t-1" := row_demo]> m) empty_tables) 1000 0%nat [].

Definition tx_demo : TxRecord := new_tx "tx-1" "t-1" "create_task" [] 950.

Lemma compensation_repairs_witness :
  let '(w', r) := run (S := doc_services) (E := calm) (repair_transaction cs_demo tx_demo) w_row in
  r = inr tt /\ db_of w' = db_of w_row /\
  ks_of w' !! tx_key "tx-1" = None /\
  exists t0, 1000 <= t0 <= w_now w' /\
    ks_of w' !! task_key "t-1" =
      Some (REntry (RStr (json_dumps (rebuilt_record row_demo))) (Some (t0 + TASK_REDIS_TTL * 1000))).
Proof.
  apply (compensation_repairs doc_services calm cs_demo tx_demo row_demo w_row calm_quiet);
    reflexivity.
Defined.
