(* ===== verification/TaskExecutor.v ===== *)
(** * Task execution under a distributed lock

    [src/platform/task_executor.py]: the lock scripts and [TaskExecutor]'s
    [execute], renewal loop and release.  The DAG engine's entry point and the
    completion callback are the objects the constructor is given: parameters. *)

From stdpp Require Import base gmap strings list.
From S2P Require Import Prelude PyValue Redis TaskModel Tables Effects.

Open Scope Z_scope.

Definition lock_key (task_id : string) : string := "task_lock:" +:+ task_id.
Definition cancel_key (task_id : string) : string := "task_cancel:" +:+ task_id.
Definition LOCK_RENEWAL_INTERVAL : Z := 10.

Definition lua_lock_release (key val : string) : lua Z :=
  (let+ v := call key GET in
   if decide (v = Some val) then call key DEL else LRet 0)%lua.

Definition lua_lock_renew (key val : string) (ttl : Z) : lua string :=
  (let+ v := call key GET in
   if decide (v = Some val) then do+ call key (PEXPIRE ttl) in LRet "ok" else LRet "lost")%lua.

Record TaskExecutor := {
  ex_dag : option (value -> value -> M value);
  ex_callback : option (string -> list (string * value) -> M unit);
  ex_lock_ttl_ms : Z
}.

Section Executor.
Context (ex : TaskExecutor).

Definition release_lock (key val : string) : M unit :=
  except (do* script (lua_lock_release key val) in ret tt) (λ _, ret tt).

(** [_renew_lock_loop], for a number of rounds: it stops when the lock is lost
    and is cancelled when the task ends. *)
Fixpoint renew_lock_loop (rounds : nat) (key val : string) : M unit :=
  match rounds with
  | O => ret tt
  | S rounds' =>
      do* sleep (LOCK_RENEWAL_INTERVAL * 1000) in
      let* status := script (lua_lock_renew key val (ex_lock_ttl_ms ex)) in
      if decide (status = "lost") then ret tt else renew_lock_loop rounds' key val
  end.

(** The [try] body: the result dictionary. *)
Definition execute_body (task_id : string) (dag_definition context : value) :
    M (list (string * value)) :=
  let* cancelled := redis (cancel_key task_id) GET in
  if negb (bool_decide (default "" cancelled = "")) then ret [("status", VStr "cancelled")] else
  match ex_dag ex with
  | Some dag =>
      let* r := dag dag_definition context in
      ret [("status", VStr "completed"); ("dag_result", r)]
  | None => ret [("status", VStr "completed")]
  end.

(** The value of [result] when the [finally] clause runs. *)
Definition result_of (r : exn + list (string * value)) : list (string * value) :=
  match r with
  | inr d => d
  | inl e => if is_exception e then [("status", VStr "failed"); ("error", VStr (exn_str e))]
             else [("status", VStr "cancelled")]
  end.

(** [renewal]: the exception the renewal task has ended with by the time the body
    is over, if any; [None] when it is still running, and then cancelled, or has
    found the lock lost.  [await renewal_task] in the [finally] clause raises it. *)
Definition execute (renewal : option exn) (task_id : string) (dag_definition context : value) :
    M (list (string * value)) :=
  let* lock_val := uuid4 in
  let key := lock_key task_id in
  let* acquired := redis key (SET lock_val (Some (ex_lock_ttl_ms ex)) true) in
  if negb acquired then
    raise (Exn RuntimeError ("TaskExecutor: failed to acquire lock for task_id=" +:+ task_id))
  else
  let* outcome := attempt_ (execute_body task_id dag_definition context) in
  let result := result_of outcome in
  do* match renewal with
      | Some e => if is_exception e then raise e else ret tt
      | None => ret tt
      end in
  do* release_lock key lock_val in
  do* match ex_callback ex with
      | Some cb => except (cb task_id result) (λ _, ret tt)
      | None => ret tt
      end in
  match outcome with
  | inl e => if is_exception e then ret result else raise e
  | inr _ => ret result
  end.
End Executor.

(** ** Lemmas *)

(** The lock as an entry of the keyspace. *)
Definition held (now : Z) (ks : keyspace) (key val : string) (until : Z) : Prop :=
  live now ks key = Some (REntry (RStr val) (Some until)).

Lemma release_own now ks key val until :
  held now ks key val until ->
  exists ks' n, lua_run now (lua_lock_release key val) ks = (ks', inr n) /\ ks' !! key = None /\
    ∀ k, k <> key -> ks' !! k = ks !! k.
Proof.
  intros H. unfold lua_lock_release. rewrite lua_run_call, H, act_GET_str; lua_beta.
  rewrite decide_True by done. rewrite lua_run_call1, act_DEL.
  do 2 eexists. split; [done|]. split; [apply lookup_put_eq|].
  intros k Hk. by rewrite !lookup_put_ne.
Qed.

Lemma release_other now ks key val val' until :
  held now ks key val' until -> val' <> val ->
  exists ks', lua_run now (lua_lock_release key val) ks = (ks', inr 0) /\
    held now ks' key val' until /\ ∀ k, k <> key -> ks' !! k = ks !! k.
Proof.
  intros H Hne. unfold lua_lock_release. rewrite lua_run_call, H, act_GET_str; lua_beta.
  rewrite decide_False by congruence. eexists. split; [done|]. split.
  - unfold held. apply live_put_eq. rewrite <-H. apply live_fresh.
  - intros k Hk. by rewrite lookup_put_ne.
Qed.

Lemma renew_own now ks key val until ttl :
  0 < ttl -> held now ks key val until ->
  exists ks', lua_run now (lua_lock_renew key val ttl) ks = (ks', inr "ok") /\
    held now ks' key val (now + ttl).
Proof.
  intros Ht H. unfold lua_lock_renew. rewrite lua_run_call, H, act_GET_str; lua_beta.
  rewrite decide_True by done. rewrite lua_run_call, live_put_eq by (rewrite <-H; apply live_fresh).
  rewrite act_PEXPIRE. unfold set_expiry. rewrite (proj2 (Z.leb_gt _ _)) by lia. lua_beta.
  eexists. split; [done|]. unfold held. apply live_put_eq. apply Z.leb_gt. lia.
Qed.

Lemma held_later now now' ks key val until :
  now <= now' < until -> held now ks key val until -> held now' ks key val until.
Proof.
  intros [Hl Hu] H. unfold held. rewrite (live_later now now'), H by done.
  unfold expired; simpl. by rewrite (proj2 (Z.leb_gt _ _)) by lia.
Qed.

(** Writing back a live entry changes nothing. *)
Lemma put_live now ks k : is_Some (live now ks k) -> put k (live now ks k) ks = ks.
Proof.
  unfold live. intros [e He]. destruct (ks !! k) as [e'|] eqn:Ek; [|done]. simpl in *.
  destruct (expired now e'); [done|]. unfold put. by rewrite insert_id.
Qed.

Section Runs.
Context {E : Env} (Hq : quiet E).
Notation W := (world doc_services).

(** Renewal outpaces expiry when a round takes less than the lock's lifetime. *)
Lemma renew_rounds_keep ex key val slack n : ∀ (w : W) until,
  (∀ t, Z.of_N (delay t) <= slack) -> 0 < ex_lock_ttl_ms ex ->
  LOCK_RENEWAL_INTERVAL * 1000 + 2 * slack < ex_lock_ttl_ms ex ->
  held (w_now w) (w_redis w) key val until ->
  w_now w + LOCK_RENEWAL_INTERVAL * 1000 + slack < until ->
  let '(w', r) := run (renew_lock_loop ex n key val) w in
  r = inr tt /\ exists until', held (w_now w') (w_redis w') key val until'.
Proof using Hq.
  unfold LOCK_RENEWAL_INTERVAL.
  induction n as [|n IH]; intros w until Hd Httl Hs Hh Hu; simpl; [eauto|].
  rewrite run_bind. Transparent sleep. simpl (run (sleep _) w). Opaque sleep. cbv beta iota.
  set (w1 := World _ _ _ _ _). pose proof (Hd (w_tick w)) as Hd1.
  assert (w_now w1 = w_now w + Z.of_N (delay (w_tick w)) + 10 * 1000) as Hn1 by reflexivity.
  assert (held (w_now w1) (w_redis w1) key val until) as Hh1.
  { apply (held_later (w_now w)); [lia|done]. }
  clearbody w1. rewrite run_script, (proj1 Hq).
  destruct (renew_own (w_now w1) (w_redis w1) key val until (ex_lock_ttl_ms ex) Httl Hh1)
    as (ks & -> & Hh2). cbv beta iota. rewrite decide_False by done.
  pose proof (Hd (w_tick w1)) as Hd2.
  apply (IH _ (w_now w1 + ex_lock_ttl_ms ex)); try done.
  - simpl. apply (held_later (w_now w1)); [lia|done].
  - simpl. lia.
Qed.

Lemma execute_locked ex rn task_id d c (w : W) val until :
  held (w_now w + Z.of_N (delay (w_tick w))) (w_redis w) (lock_key task_id) val until ->
  let '(w', r) := run (execute ex rn task_id d c) w in
  r = inl (Exn RuntimeError ("TaskExecutor: failed to acquire lock for task_id=" +:+ task_id)) /\
  w_log w' = w_log w /\ w_db w' = w_db w /\ w_redis w' = w_redis w.
Proof using Hq.
  intros H. unfold execute. rewrite run_bind, run_uuid4. cbv beta iota zeta.
  rewrite run_bind, run_redis, (proj1 Hq).
  change (w_redis (after (w_redis w) (w_db w) w)) with (w_redis w).
  change (w_now (after (w_redis w) (w_db w) w)) with (w_now w + Z.of_N (delay (w_tick w))).
  unfold held in *. rewrite H, act_SETNX_some by (by eexists). simpl negb. cbv beta iota.
  rewrite run_raise. split; [done|]. simpl. rewrite !app_nil_r. split; [done|]. split; [done|].
  rewrite <-H. apply put_live, (mk_is_Some _ _ H).
Qed.
End Runs.

(** ** Properties *)

(** C15: mutual exclusion at the lock.  While another executor holds a task's
    lock, at the time the lock is asked for, and no call fails, [execute] raises
    [RuntimeError] without running the DAG engine or calling back, and changes
    nothing in the database or in Redis: not one key, the lock and the cancellation
    flag included. *)
Theorem execute_excluded (S : Services) (E : Env) ex rn task_id d c (w : world S) val until :
  quiet E ->
  held (w_now w + Z.of_N (delay (w_tick w))) (ks_of w) (lock_key task_id) val until ->
  let '(w', r) := run (execute ex rn task_id d c) w in
  r = inl (Exn RuntimeError ("TaskExecutor: failed to acquire lock for task_id=" +:+ task_id)) /\
  w_log w' = w_log w /\ db_of w' = db_of w /\ ks_of w' = ks_of w.
Proof.
  intros Hq H. transfer (execute_locked Hq ex rn task_id d c (wview w) val until H).
Qed.

Definition ex_demo : TaskExecutor :=
  {| ex_dag := Some (λ d c, invoke "dag" c); ex_callback := None; ex_lock_ttl_ms := 30000 |}.

Definition w_locked : world doc_services :=
  World (S := doc_services)
    (<[lock_key "t-1" := REntry (RStr "other") (Some 31000)]> (∅ : keyspace)) empty_tables 1000 0%nat [].

Lemma execute_excluded_witness :
  let '(w', r) := run (S := doc_services) (E := calm) (execute ex_demo None "t-1" VNone VNone) w_locked in
  r = inl (Exn RuntimeError "TaskExecutor: failed to acquire lock for task_id=t-1") /\
  w_log w' = w_log w_locked /\ db_of w' = db_of w_locked /\ ks_of w' = ks_of w_locked.
Proof.
  apply (execute_excluded doc_services calm ex_demo None "t-1" VNone VNone w_locked "other" 31000);
    [apply calm_quiet | reflexivity].
Defined.

(** Compare-and-delete.  Releasing with a value that is not the stored one
    leaves the lock with its holder; releasing with the stored value removes it;
    in both cases no other key changes.  So an executor whose lock expired and
    was taken over never removes the new holder's lock. *)
Theorem release_is_compare_and_delete (S : Services) (E : Env) key val val' until (w : world S) :
  quiet E -> held (w_now w) (ks_of w) key val' until ->
  let '(w', r) := run (release_lock key val) w in
  r = inr tt /\ (∀ k, k <> key -> ks_of w' !! k = ks_of w !! k) /\
  if decide (val' = val) then ks_of w' !! key = None
  else held (w_now w) (ks_of w') key val' until.
Proof.
  intros Hq H.
  assert (let '(w', r) := run (S := doc_services) (release_lock key val) (wview w) in
    r = inr tt /\ (∀ k, k <> key -> w_redis w' !! k = w_redis (wview w) !! k) /\
    if decide (val' = val) then w_redis w' !! key = None
    else held (w_now w) (w_redis w') key val' until) as T; [|transfer T].
  unfold release_lock. rewrite run_except, run_bind, run_script, (proj1 Hq).
  case_decide as Hv.
  - subst. destruct (release_own _ _ _ _ _ H) as (ks & n & Hr & Hd & Hf).
    change (w_now (wview w)) with (w_now w). change (w_redis (wview w)) with (ks_of w).
    rewrite Hr. done.
  - destruct (release_other _ _ _ _ _ _ H Hv) as (ks & Hr & Hd & Hf).
    change (w_now (wview w)) with (w_now w). change (w_redis (wview w)) with (ks_of w).
    rewrite Hr. done.
Qed.

Lemma release_is_compare_and_delete_witness :
  let '(w', r) := run (S := doc_services) (E := calm) (release_lock (lock_key "t-1") "mine") w_locked in
  r = inr tt /\ (∀ k, k <> lock_key "t-1" -> ks_of w' !! k = ks_of w_locked !! k) /\
  if decide ("other" = "mine") then ks_of w' !! lock_key "t-1" = None
  else held 1000 (ks_of w') (lock_key "t-1") "other" 31000.
Proof.
  apply (release_is_compare_and_delete doc_services calm (lock_key "t-1") "mine" "other" 31000 w_locked);
    [apply calm_quiet | reflexivity].
Defined.

(** The heartbeat keeps the lock.  If no call takes longer than [slack] and
    ten seconds plus two calls fit in the lock's lifetime, then after any number
    of renewal rounds the executor still holds its lock. *)
Theorem renewal_keeps_lock (S : Services) (E : Env) ex key val slack n (w : world S) until :
  quiet E -> (∀ t, Z.of_N (delay t) <= slack) -> 0 < ex_lock_ttl_ms ex ->
  LOCK_RENEWAL_INTERVAL * 1000 + 2 * slack < ex_lock_ttl_ms ex ->
  held (w_now w) (ks_of w) key val until ->
  w_now w + LOCK_RENEWAL_INTERVAL * 1000 + slack < until ->
  let '(w', r) := run (renew_lock_loop ex n key val) w in
  r = inr tt /\ exists until', held (w_now w') (ks_of w') key val until'.
Proof.
  intros Hq H1 H2 H3 H4 H5.
  transfer (renew_rounds_keep Hq ex key val slack n (wview w) until H1 H2 H3 H4 H5).
Qed.

Lemma renewal_keeps_lock_witness :
  let '(w', r) := run (S := doc_services) (E := calm)
                      (renew_lock_loop ex_demo 100 (lock_key "t-1") "other") w_locked in
  r = inr tt /\ exists until', held (w_now w') (ks_of w') (lock_key "t-1") "other" until'.
Proof.
  apply (renewal_keeps_lock doc_services calm ex_demo (lock_key "t-1") "other" 0 100 w_locked 31000
           calm_quiet); [intros t; reflexivity | reflexivity..].
Defined.

(** A failed renewal call: the [finally] clause raises its exception, so the lock
    is not released (it stays until its lifetime ends) and the completion callback
    is not called, although the task has completed. *)
Example renewal_failure_leaks :
  let ex := {| ex_dag := None; ex_callback := Some (λ id r, do* invoke "callback" (VDict r) in ret tt);
               ex_lock_ttl_ms := 30000 |} in
  let '(w', r) := run (S := doc_services) (E := calm)
    (execute ex (Some (Exn ConnectionError "renew")) "t-1" VNone VNone) (world0 1000) in
  r = inl (Exn ConnectionError "renew") /\ w_log w' = [] /\
  held (w_now w') (ks_of w') (lock_key "t-1") (uuid_at (Env := calm) 0) 31000.
Proof. vm_compute. done. Qed.
