(* ===== verification/TaskConsumer.v ===== *)
(** * Task consumer

    [src/platform/task_consumer.py]: the polling loop with burst polling of
    active capabilities, the semaphore taken before a task is popped, and
    back-off, running concurrently with the tasks it dispatched.  The loop is a
    program over the consumer's attributes ([cprog]): an effect, or an update of
    the attributes that runs without suspension.  [machine_step] lets the loop or
    any dispatched task take its next step, so that a task can end at every point
    of a polling round.  The queue is reached through the interface [TaskSource]. *)

From stdpp Require Import base gmap strings list.
From S2P Require Import Prelude PyValue Redis TaskModel Tables Effects.
From S2P Require Import QueueKeys CircuitBreaker QueueManager TaskExecutor.

Open Scope Z_scope.

(** What the consumer asks of a queue. *)
Class TaskSource (Q : Type) := {
  ts_dequeue : Q -> string -> M (option (list (string * value)))
}.

#[global] Instance QueueManager_source {B} {BI : Breaker B} : TaskSource (QueueManager B) := {|
  ts_dequeue := λ qm cap, dequeue qm cap
|}.

Record consumer_config := {
  cc_executor : TaskExecutor;
  cc_capabilities : list string;
  cc_poll_interval : Z;
  cc_max_concurrent : Z
}.

Definition BURST_PER_ACTIVE : nat := 3.
Definition MAX_BACKOFF : Z := 8.

(** The consumer's attributes: the semaphore's value, the active capabilities
    with their consecutive empty rounds, the back-off state, and the dispatched
    tasks that have not ended, each with the program it still has to run. *)
Record consumer := {
  c_sem : Z;
  c_active : list (string * Z);
  c_backoff : Z;
  c_empty_rounds : Z;
  c_tasks : list (M unit)
}.

Definition consumer_init (cfg : consumer_config) : consumer :=
  {| c_sem := cc_max_concurrent cfg; c_active := []; c_backoff := 1; c_empty_rounds := 0;
     c_tasks := [] |}.

Definition set_active (f : list (string * Z) -> list (string * Z)) (st : consumer) : consumer :=
  {| c_sem := c_sem st; c_active := f (c_active st); c_backoff := c_backoff st;
     c_empty_rounds := c_empty_rounds st; c_tasks := c_tasks st |}.

Definition with_tasks (f : list (M unit) -> list (M unit)) (st : consumer) : consumer :=
  {| c_sem := c_sem st; c_active := c_active st; c_backoff := c_backoff st;
     c_empty_rounds := c_empty_rounds st; c_tasks := f (c_tasks st) |}.

(** [if self._semaphore._value <= 0: return False], then [acquire()], which does
    not suspend when the value is positive. *)
Definition try_acquire (st : consumer) : consumer * bool :=
  if c_sem st <=? 0 then (st, false)
  else ({| c_sem := c_sem st - 1; c_active := c_active st; c_backoff := c_backoff st;
           c_empty_rounds := c_empty_rounds st; c_tasks := c_tasks st |}, true).

(** [self._semaphore.release()] *)
Definition release (st : consumer) : consumer :=
  {| c_sem := c_sem st + 1; c_active := c_active st; c_backoff := c_backoff st;
     c_empty_rounds := c_empty_rounds st; c_tasks := c_tasks st |}.

(** A dispatched task ended: [_execute_task]'s [finally] and [tasks.discard]. *)
Definition task_done (i : nat) (st : consumer) : consumer := release (with_tasks (delete i) st).

Definition set_backoff (got_task : bool) (st : consumer) : consumer :=
  {| c_sem := c_sem st; c_active := c_active st;
     c_backoff := if got_task then 1 else Z.min MAX_BACKOFF (c_backoff st * 2);
     c_empty_rounds := if got_task then 0 else c_empty_rounds st + 1;
     c_tasks := c_tasks st |}.

(** ** Programs over the attributes *)

Inductive cprog (A : Type) :=
| CRet (a : A)
| CRaise (e : exn)
| CVis {X} (e : eff X) (k : X -> cprog A)
| CAct {X} (f : consumer -> consumer * X) (k : X -> cprog A).
Arguments CRet {_}.
Arguments CRaise {_}.
Arguments CVis {_ _}.
Arguments CAct {_ _}.

Fixpoint cbind {A B} (p : cprog A) (k : A -> cprog B) : cprog B :=
  match p with
  | CRet a => k a
  | CRaise e => CRaise e
  | CVis e h => CVis e (λ x, cbind (h x) k)
  | CAct f h => CAct f (λ x, cbind (h x) k)
  end.

Fixpoint clift {A B} (m : prog A) (k : A -> cprog B) : cprog B :=
  match m with
  | Ret a => k a
  | Vis e h => CVis e (λ x, clift (h x) k)
  end.

Definition update {A} (f : consumer -> consumer) (k : cprog A) : cprog A :=
  CAct (λ st, (f st, tt)) (λ _, k).

Section Consumer.
Context {Q : Type} {TS : TaskSource Q} (q : Q) (cfg : consumer_config).

(** [_execute_task], the program a dispatched task runs before its [finally]. *)
Definition execute_task (data : list (string * value)) : M unit :=
  let task_id := match dict_get_or "task_id" (VStr "unknown") data with VStr s => s | _ => "unknown" end in
  except (do* execute (cc_executor cfg) None task_id VNone (VDict data) in ret tt) (λ _, ret tt).

Definition try_dequeue (cap : string) : cprog bool :=
  CAct try_acquire (λ acquired,
  if negb acquired then CRet false else
  clift (ts_dequeue q cap) (λ r,
    match r with
    | inl e => update release (if is_exception e then CRet false else CRaise e)
    | inr None => update release (CRet false)
    | inr (Some data) => update (with_tasks (λ ts, ts ++ [execute_task data])) (CRet true)
    end)).

(** [self._active_caps[cap] += 1], and out after three empty rounds. *)
Definition count_empty (cap : string) (active : list (string * Z)) : list (string * Z) :=
  let cnt := default 0 (dict_get cap active) + 1 in
  if cnt >=? 3 then dict_del cap active else dict_set cap cnt active.

(** The inner [for _ in range(burst)] loop for one active capability. *)
Fixpoint burst (n : nat) (cap : string) (got : bool) : cprog bool :=
  match n with
  | O => CRet got
  | S n' =>
      cbind (try_dequeue cap) (λ ok : bool,
      if ok then update (set_active (dict_set cap 0)) (burst n' cap true)
      else update (set_active (count_empty cap)) (CRet got))
  end.

Fixpoint burst_phase (caps : list string) (got : bool) : cprog bool :=
  match caps with
  | [] => CRet got
  | cap :: caps' => cbind (burst BURST_PER_ACTIVE cap got) (burst_phase caps')
  end.

Fixpoint round_robin (caps : list string) (got : bool) : cprog bool :=
  match caps with
  | [] => CRet got
  | cap :: caps' =>
      CAct (λ st, (st, dict_has cap (c_active st))) (λ active : bool,
      if active then round_robin caps' got else
      cbind (try_dequeue cap) (λ ok : bool,
      if ok then update (set_active (dict_set cap 0)) (round_robin caps' true)
      else round_robin caps' got))
  end.

(** One iteration of [_poll_loop]. *)
Definition poll_round : cprog unit :=
  CAct (λ st, (st, (c_active st).*1)) (λ active,
  cbind (burst_phase active false) (λ got,
  cbind (round_robin (cc_capabilities cfg) got) (λ got,
  CAct (λ st, (set_backoff got st, c_backoff (set_backoff got st))) (λ backoff,
  clift (sleep (cc_poll_interval cfg * backoff)) (λ r,
    match r with inr _ => CRet tt | inl e => CRaise e end))))).
End Consumer.

(** ** The consumer and its tasks as a machine *)

Section Machine.
Context {Q : Type} {TS : TaskSource Q} (q : Q) (cfg : consumer_config).
Context {S : Services} {E : Env}.

Record machine := Machine {
  m_loop : cprog unit;
  m_state : consumer;
  m_world : world S
}.

(** Who moves next: the loop, the [i]-th dispatched task, or another process of
    the system, which may leave any world behind. *)
Inductive event := EvLoop | EvTask (i : nat) | EvOther (w : world S).

(** The loop starts a new round when one has ended; a loop that raised is dead. *)
Definition machine_step (m : machine) (ev : event) : machine :=
  match ev with
  | EvLoop =>
      match m_loop m with
      | CRet _ => Machine (poll_round q cfg) (m_state m) (m_world m)
      | CRaise _ => m
      | CVis e k => let '(w', x) := step e (m_world m) in Machine (k x) (m_state m) w'
      | CAct f k => let '(st', x) := f (m_state m) in Machine (k x) st' (m_world m)
      end
  | EvTask i =>
      match c_tasks (m_state m) !! i with
      | Some (Ret _) => Machine (m_loop m) (task_done i (m_state m)) (m_world m)
      | Some (Vis e k) =>
          let '(w', x) := step e (m_world m) in
          Machine (m_loop m) (with_tasks (λ ts, <[i := k x]> ts) (m_state m)) w'
      | None => m
      end
  | EvOther w' => Machine (m_loop m) (m_state m) w'
  end.

Definition machine_start (w : world S) : machine := Machine (poll_round q cfg) (consumer_init cfg) w.

Definition machine_run (evs : list event) (w : world S) : machine :=
  foldl machine_step (machine_start w) evs.

(** ** Invariant *)

(** [h]: the slots the loop itself holds, zero or one. *)
Definition slots (h : Z) (st : consumer) : Prop :=
  0 <= h <= 1 /\ 0 <= c_sem st /\
  c_sem st + Z.of_nat (length (c_tasks st)) + h = cc_max_concurrent cfg /\
  1 <= c_backoff st <= MAX_BACKOFF.

(** A program that holds [h] slots, accounts for every slot it takes or passes on,
    and ends with none. *)
Fixpoint accounts {A} (h : Z) (p : cprog A) : Prop :=
  match p with
  | CRet _ | CRaise _ => h = 0
  | CVis e k => ∀ x, accounts h (k x)
  | CAct f k => ∀ st, slots h st -> exists h', slots h' (f st).1 /\ accounts h' (k (f st).2)
  end.

Lemma accounts_bind {A B} (p : cprog A) (k : A -> cprog B) : ∀ h,
  accounts h p -> (∀ a, accounts 0 (k a)) -> accounts h (cbind p k).
Proof.
  induction p as [a|e|X e p IH|X f p IH]; intros h Hp Hk; simpl in *.
  - subst h. apply Hk.
  - done.
  - intros x. by apply IH.
  - intros st Hst. destruct (Hp st Hst) as (h' & Hs & Ha). exists h'. split; [done|]. by apply IH.
Qed.

Lemma accounts_lift {A B} (m : prog A) (k : A -> cprog B) h :
  (∀ a, accounts h (k a)) -> accounts h (clift m k).
Proof. intros Hk. induction m as [a|X e m IH]; simpl; [apply Hk|]. intros x. apply IH. Qed.

(** An update of the attributes that the invariant does not mention. *)
Lemma accounts_plain {A X} (f : consumer -> consumer * X) (k : X -> cprog A) h :
  (∀ st, slots h st -> slots h (f st).1) -> (∀ x, accounts h (k x)) -> accounts h (CAct f k).
Proof. intros Hf Hk st Hst. exists h. split; [by apply Hf|apply Hk]. Qed.

Lemma accounts_release {A} (k : cprog A) : accounts 0 k -> accounts 1 (update release k).
Proof.
  intros Hk st (H1 & H2 & H3 & H4). exists 0. split; [|done]. unfold slots; simpl. lia.
Qed.

Lemma accounts_dequeue cap : accounts 0 (try_dequeue q cfg cap).
Proof.
  intros st Hst. unfold try_acquire. destruct (c_sem st <=? 0) eqn:Es; [by exists 0|]. bool_to_prop.
  exists 1. split; [destruct Hst as (H1 & H2 & H3 & H4); unfold slots; simpl; lia|].
  apply accounts_lift. intros [e|[data|]].
  - apply accounts_release. by destruct (is_exception e).
  - intros st' (H1 & H2 & H3 & H4). exists 0. split; [|done].
    unfold slots; simpl. rewrite length_app; simpl. lia.
  - by apply accounts_release.
Qed.

Lemma accounts_burst n cap : ∀ got, accounts 0 (burst q cfg n cap got).
Proof.
  induction n as [|n IH]; intros got; [done|]. cbn [burst].
  apply accounts_bind; [apply accounts_dequeue|]. intros [|]; by apply accounts_plain.
Qed.

Lemma accounts_burst_phase caps : ∀ got, accounts 0 (burst_phase q cfg caps got).
Proof.
  induction caps as [|cap caps IH]; intros got; [done|]. cbn [burst_phase].
  apply accounts_bind; [apply accounts_burst|done].
Qed.

Lemma accounts_round_robin caps : ∀ got, accounts 0 (round_robin q cfg caps got).
Proof.
  induction caps as [|cap caps IH]; intros got; [done|]. cbn [round_robin].
  apply accounts_plain; [done|]. intros [|]; [apply IH|].
  apply accounts_bind; [apply accounts_dequeue|]. intros [|]; [by apply accounts_plain|apply IH].
Qed.

Lemma accounts_round : accounts 0 (poll_round q cfg).
Proof.
  apply accounts_plain; [done|]. intros active.
  apply accounts_bind; [apply accounts_burst_phase|]. intros got.
  apply accounts_bind; [apply accounts_round_robin|]. intros got'.
  apply accounts_plain.
  - intros st (H1 & H2 & H3 & H4). unfold slots, MAX_BACKOFF in *.
    unfold set_backoff; cbn [fst c_sem c_tasks c_backoff]. destruct got'; unfold MAX_BACKOFF; lia.
  - intros b. apply accounts_lift. by intros [e|u].
Qed.

Definition machine_ok (m : machine) : Prop :=
  exists h, slots h (m_state m) /\ accounts h (m_loop m).

Lemma machine_step_ok m ev : machine_ok m -> machine_ok (machine_step m ev).
Proof.
  intros (h & Hs & Ha). destruct m as [p st w], ev as [|i|w']; simpl in *.
  - destruct p as [a|e|X e k|X f k]; simpl in *.
    + subst h. exists 0. split; [done|apply accounts_round].
    + by exists h.
    + destruct (step e w) as [w' x]. exists h. split; [done|apply Ha].
    + destruct (Ha st Hs) as (h' & Hs' & Ha'). destruct (f st) as [st' x]. by exists h'.
  - destruct (c_tasks st !! i) as [[r|X e k]|] eqn:Ei; [| |by exists h].
    + exists h. split; [|done]. destruct Hs as (H1 & H2 & H3 & H4).
      unfold slots, task_done; simpl. apply lookup_lt_Some in Ei as Hlt.
      rewrite length_delete by (by eexists).
      unfold M in *. lia.
    + destruct (step e w) as [w' x]. exists h. split; [|done].
      destruct Hs as (H1 & H2 & H3 & H4). unfold slots; simpl. by rewrite length_insert.
  - by exists h.
Qed.

Lemma machine_run_ok evs w : 0 <= cc_max_concurrent cfg -> machine_ok (machine_run evs w).
Proof.
  intros Hm. unfold machine_run.
  assert (machine_ok (machine_start w)) as H0.
  { exists 0. split; [|apply accounts_round]. unfold slots, MAX_BACKOFF; simpl. lia. }
  revert H0. generalize (machine_start w). induction evs as [|ev evs IH]; intros m H0; [done|].
  simpl. by apply IH, machine_step_ok.
Qed.
End Machine.
Arguments Machine {_}.
Arguments m_loop {_}.
Arguments m_state {_}.
Arguments m_world {_}.
Arguments EvLoop {_}.
Arguments EvTask {_}.
Arguments EvOther {_}.

(** ** Properties *)

(** C23: bounded consumption.  Whatever the order in which the polling loop, the
    dispatched tasks and the rest of the system move, over any queue and any
    failures: the semaphore is never negative; free slots, tasks in flight and the
    at most one slot the loop holds while it pops a task add up to
    [max_concurrent], so no task is popped that cannot run and no slot leaks; at
    the end of a round the loop holds none; the back-off factor stays between 1
    and 8. *)
Theorem consumer_bounded (Q : Type) (TS : TaskSource Q) (q : Q) cfg (S : Services) (E : Env)
    (w : world S) evs :
  0 <= cc_max_concurrent cfg ->
  let m := machine_run q cfg evs w in
  let st := m_state m in
  let used := c_sem st + Z.of_nat (length (c_tasks st)) in
  0 <= c_sem st /\ cc_max_concurrent cfg - 1 <= used <= cc_max_concurrent cfg /\
  1 <= c_backoff st <= MAX_BACKOFF /\
  (∀ u, m_loop m = CRet u -> used = cc_max_concurrent cfg).
Proof.
  intros Hm m st used. destruct (machine_run_ok q cfg evs w Hm) as (h & (H1 & H2 & H3 & H4) & Ha).
  fold m in H2, H3, H4, Ha. fold st in H2, H3, H4.
  split; [done|]. split; [unfold used; lia|]. split; [done|].
  intros u Hu. rewrite Hu in Ha. simpl in Ha. unfold used. lia.
Qed.

Definition cfg_demo : consumer_config :=
  {| cc_executor := ex_demo; cc_capabilities := ["ocr"]; cc_poll_interval := 1000;
     cc_max_concurrent := 2 |}.

#[global] Instance endless : TaskSource unit := {|
  ts_dequeue := λ _ cap, ret (Some [("task_id", VStr "t"); ("capability", VStr cap)])
|}.

(** Two rounds of the loop with the first task moving in between. *)
Definition evs_demo : list (event (S := doc_services)) :=
  repeat EvLoop 8 ++ [EvTask 0; EvTask 0] ++ repeat EvLoop 12.

Lemma consumer_bounded_witness :
  let st := m_state (machine_run (E := calm) tt cfg_demo evs_demo (world0 1000)) in
  0 <= c_sem st /\ c_sem st + Z.of_nat (length (c_tasks st)) <= 2 /\ length (c_tasks st) = 2%nat.
Proof.
  destruct (consumer_bounded unit endless tt cfg_demo doc_services calm (world0 1000) evs_demo)
    as (H1 & [_ H2] & _); [discriminate|].
  split; [exact H1|]. split; [exact H2|]. vm_compute. reflexivity.
Defined.
