(* ===== verification/TaskReconciler.v ===== *)
(** * Task reconciler

    [src/platform/task_reconciler.py]: leader election, the rebuild of the Redis
    cache from MySQL (phase 0), double-write repair (phase 1), stuck-task
    recovery (phase 2) and lost-callback recovery (phase 3). *)

From stdpp Require Import base gmap strings list.
From S2P Require Import Prelude PyValue Json Datetime Redis TaskModel Tables Effects.
From S2P Require Import QueueKeys QueueManager ErrorHandling Transaction TaskCreator Compensation.

Open Scope Z_scope.

Definition LOCK_KEY (task_id : string) : string := "task_lock:" +:+ task_id.
Definition CALLBACK_DONE_KEY (task_id : string) : string := "callback:done:" +:+ task_id.
Definition CALLBACK_RETRY_KEY : string := "callback:retry:pending".
Definition REQUEUE_DEDUP_KEY (task_id : string) : string := "requeue_dedup:" +:+ task_id.
Definition REQUEUE_DEDUP_TTL : Z := 300.
Definition RECONCILE_LEADER_KEY : string := "reconcile_leader".
Definition CALLBACK_RETRY_PAYLOAD_TTL : Z := 3600.

Definition lua_renew_leader (key id : string) (ttl : Z) : lua Z :=
  (let+ cur := call key GET in
   match cur with
   | Some c => if decide (c = id) then call key (EXPIRE ttl) else LRet 0
   | None => LRet 0
   end)%lua.

(** [TaskReconciler]: which collaborators it was given, and its settings.
    [max_age] is in milliseconds. *)
Record TaskReconciler := {
  rc_redis : bool;
  rc_db : bool;
  rc_qm : bool;
  rc_interval : Z;
  rc_stuck_max : nat;
  rc_stuck_max_age : Z;
  rc_batch_size : nat;
  rc_instance_id : string;
  rc_leader_ttl : Z;
  rc_compensation : option (TxRecord -> M unit)
}.

Abbreviation task := (list (string * value)).

(** ** Phase 0 *)

(** [_json_load_or_default] on a text column *)
Definition json_load_or_default (v : option string) (dflt : value) : value :=
  match v with
  | None => dflt
  | Some s => if bool_decide (s = "") then dflt else default dflt (json_loads s)
  end.

Definition or_int (n dflt : Z) : value := VInt (if n =? 0 then dflt else n).
Definition str_or_none (o : option string) : value :=
  match o with Some s => VStr s | None => VNone end.

(** The cache entry rebuilt from a row. *)
Definition rebuild_payload (r : TaskRecord) : task :=
  [("task_id", VStr (task_id r)); ("tenant_id", VStr (tenant_id r));
   ("status", VStr (status_value (status r)));
   ("capability", VStr (default "" (task_type r)));
   ("priority", VStr (priority_value (priority r)));
   ("input_data", json_load_or_default (input_data r) (VDict []));
   ("output", json_load_or_default (output_data r) (VDict []));
   ("error_message", str_or_none (error_message r));
   ("metadata", json_load_or_default (metadata_json r) (VDict []));
   ("callback_url", VStr (default "" (callback_url r)));
   ("idempotency_key", str_or_none (idempotency_key r));
   ("timeout_seconds", or_int (timeout_seconds r) 3600);
   ("max_retries", or_int (max_retries r) 3);
   ("attempt", VInt (attempt r));
   ("scheduled_at", match scheduled_at r with
                    | Some s => if bool_decide (s = "") then VNone else VStr s
                    | None => VNone
                    end);
   ("cron_expr", str_or_none (cron_expr r));
   ("created_at", VStr (datetime_str (created_at r)));
   ("updated_at", VStr (datetime_str (updated_at r)))].

(** The index part: restore pending membership of a task in neither set. *)
Definition rebuild_index (id cap : string) : M unit :=
  let* in_pending := redis (pending cap) (ZSCORE id) in
  let* in_running := redis (running cap) (ZSCORE id) in
  match in_pending, in_running with
  | None, None =>
      let* now := time_ms in
      do* redis (pending cap) (ZADD now id) in ret tt
  | _, _ => ret tt
  end.

Definition rebuild_row (r : TaskRecord) : M unit :=
  if bool_decide (task_id r = "") then ret tt else
  let key := "task:" +:+ task_id r in
  let* existing := redis key GET in
  do* (if bool_decide (default "" existing = "") then
         do* redis key (SET (json_dumps (VDict (rebuild_payload r))) (Some (86400 * 1000)) false) in ret tt
       else ret tt) in
  let cap := default "" (task_type r) in
  if negb (bool_decide (cap = "")) &&
     (bool_decide (status r = QUEUED) || bool_decide (status r = SCHEDULED)) then
    rebuild_index (task_id r) cap
  else ret tt.

Section Reconciler.
Context {Q : Type} {TQ : TaskQueue Q} (rc : TaskReconciler).

(** [_try_become_leader] *)
Definition try_become_leader : M bool :=
  if negb (rc_redis rc) then ret true else
  let* ok := redis RECONCILE_LEADER_KEY
               (SET (rc_instance_id rc) (Some (rc_leader_ttl rc * 1000)) true) in
  if ok then ret true else
  let* renewed := script (lua_renew_leader RECONCILE_LEADER_KEY (rc_instance_id rc) (rc_leader_ttl rc)) in
  ret (renewed =? 1).

Definition rebuild_redis_from_mysql : M unit :=
  if negb (rc_db rc) || negb (rc_redis rc) then ret tt else
  except
    (let* rows := sql_read (select_tasks (λ _, true)) in
     for_each rows rebuild_row)
    (λ _, ret tt).

(** [_scan_task_batch]: the cursor is the reconciler's state. *)
Definition scan_task_batch (cursor : Z) : M (Z * list task) :=
  if negb (rc_redis rc) then ret (cursor, []) else
  let* r := attempt_ (scan cursor (starts_with "task:") (rc_batch_size rc)) in
  match r with
  | inl e => if is_exception e then ret (cursor, []) else raise e
  | inr (cursor', []) => ret (cursor', [])
  | inr (cursor', keys) =>
      let* raws := script (pipeline (map (λ k, (k, GET)) keys)) in
      ret (cursor', omap (λ raw, match raw with
                                 | Some text => if bool_decide (text = "") then None else
                                                match json_loads text with
                                                | Some (VDict d) => Some d
                                                | _ => None
                                                end
                                 | None => None
                                 end) raws)
  end.

(** [t.get("status", "").lower()] *)
Definition status_lower (t : task) : exn + string :=
  match dict_get_or "status" (VStr "") t with
  | VStr s => inr (str_lower s)
  | _ => inl (Exn AttributeError "object has no attribute 'lower'")
  end.

(** [[t for t in batch if t.get("status", "").lower() in names]] *)
Fixpoint with_status_in (names : list string) (batch : list task) : exn + list task :=
  match batch with
  | [] => inr []
  | t :: batch' =>
      sum_bind (status_lower t) (λ s,
      sum_bind (with_status_in names batch') (λ rest,
      inr (if decide (s ∈ names) then t :: rest else rest)))
  end.

(** ** Phase 1 *)

(** [t.get("task_id", "")]; the identifiers the platform writes are texts. *)
Definition id_text (t : task) : string :=
  match dict_get_or "task_id" (VStr "") t with VStr s => s | _ => "" end.

(** [TaskRecord(task_id=..., tenant_id=..., status=..., output_data=...)]: no
    [task_type] is given. *)
Definition phase1_row (t : task) (now : Z) : TaskRecord :=
  {| task_id := id_text t;
     tenant_id := match dict_get_or "tenant_id" (VStr "") t with VStr s => s | _ => "" end;
     task_type := None; dag_id := None;
     status := match dict_get_or "status" (VStr "unknown") t with
               | VStr s => default PENDING (status_of_value (str_lower s))
               | _ => PENDING
               end;
     priority := NORMAL; cluster_id := None; current_step := None; input_data := None;
     output_data := if truthy (dict_get_or "output" VNone t)
                    then Some (json_dumps (dict_get_or "output" VNone t)) else None;
     error_message := None; metadata_json := None; callback_url := None;
     idempotency_key := None; timeout_seconds := 3600; max_retries := 3; attempt := 0;
     scheduled_at := None; cron_expr := None; created_at := now; updated_at := now |}.

(** The session block: select the persisted ids, insert the missing rows, commit.
    It returns the rows' tasks. *)
Definition phase1_session (terminal : list task) (now : Z) (db : tables) :
    exn + (tables * list task) :=
  match list_find (λ t, dict_get "task_id" t = None) terminal with
  | Some _ => inl (Exn KeyError "'task_id'")
  | None =>
      let missing := filter (λ t, db_tasks db !! id_text t = None) terminal in
      match missing with
      | [] => inr (db, [])
      | _ => sum_bind (insert_tasks (map (λ t, phase1_row t now) missing) db) (λ db',
             inr (db', missing))
      end
  end.

Definition phase1_double_write (batch : list task) : M unit :=
  if negb (rc_db rc) then ret tt else
  let* terminal := of_sum (with_status_in ["completed"; "failed"; "cancelled"] batch) in
  if bool_decide (omap (λ t, dict_get "task_id" t) (filter (λ t, Is_true
       (truthy (dict_get_or "task_id" VNone t))) terminal) = []) then ret tt else
  except
    (let* missing := sql (phase1_session terminal) in
     match rc_compensation rc with
     | None => ret tt
     | Some enqueue =>
         for_each missing (λ t,
           let* now := time_ms in
           except (enqueue {| tx_id := "reconciler-" +:+ str_take 8 (id_text t);
                              tx_task_id := id_text t; tx_operation := "create_task";
                              tx_status := TX_FAILED; tx_mysql_written := true;
                              tx_redis_written := false; tx_created_at := now; tx_retry_count := 0;
                              tx_last_error := "detected by reconciler phase1"; tx_payload := [] |})
             (λ _, ret tt))
     end)
    (λ _, ret tt).

(** ** Phase 2 *)

Record requeue := {
  rq_task_id : string; rq_attempt : Z; rq_capability : string; rq_priority : exn + Z
}.

Definition get_int (k : string) (dflt : Z) (t : task) : exn + Z :=
  match dict_get_or k (VInt dflt) t with
  | VInt n => inr n
  | VBool b => inr (if b then 1 else 0)
  | _ => inl (Exn TypeError k)
  end.

Definition get_text (v : value) : string := match v with VStr s => s | _ => "" end.

(** [float(v)] in thousandths *)
Definition py_float (v : value) : exn + Z :=
  match as_milli v, v with
  | Some ms, _ => inr ms
  | None, VStr s => match json_loads s ≫= as_milli with
                    | Some ms => inr ms
                    | None => inl (Exn ValueError "could not convert string to float")
                    end
  | None, _ => inl (Exn TypeError "float() argument must be a string or a real number")
  end.

(** [created_ts and (now - float(created_ts)) < max_age] *)
Definition too_young (now : Z) (t : task) : exn + bool :=
  let v := dict_get_or "created_at_ts" (VInt 0) t in
  if negb (truthy v) then inr false
  else sum_bind (py_float v) (λ ms, inr (now - ms <? rc_stuck_max_age rc)).

(** [self._qm and attempt < max_retries]: the attempt number to requeue with *)
Definition may_retry (t : task) : exn + option Z :=
  if negb (rc_qm rc) then inr None else
  sum_bind (get_int "max_retries" 0 t) (λ max_retries,
  sum_bind (get_int "attempt" 0 t) (λ attempt,
  inr (if attempt <? max_retries then Some attempt else None))).

Definition requeue_of (t : task) (attempt : Z) : requeue :=
  {| rq_task_id := id_text t; rq_attempt := attempt;
     rq_capability := get_text (dict_get_or "capability" (dict_get_or "task_type" (VStr "") t) t);
     rq_priority := get_int "priority_rank" 3 t |}.

(** The selection loop: tasks without a lock, old enough and not being handled
    by another reconciler, at most [stuck_max_per_tick] of them. *)
Fixpoint select_stuck (now : Z) (tasks : list (task * Z)) (count : nat)
    (rqs : list requeue) (fails : list string) : M (list requeue * list string) :=
  match tasks with
  | [] => ret (rqs, fails)
  | (t, lock_exists) :: tasks' =>
      if (rc_stuck_max rc <=? count)%nat then ret (rqs, fails) else
      let tid := id_text t in
      if bool_decide (tid = "") then select_stuck now tasks' count rqs fails else
      if negb (lock_exists =? 0) then select_stuck now tasks' count rqs fails else
      let* young := of_sum (too_young now t) in
      if young : bool then select_stuck now tasks' count rqs fails else
      let* set_result := redis (REQUEUE_DEDUP_KEY tid) (SET "1" (Some (REQUEUE_DEDUP_TTL * 1000)) true) in
      if negb set_result then select_stuck now tasks' count rqs fails else
      let* again := of_sum (may_retry t) in
      match again with
      | Some attempt => select_stuck now tasks' (S count) (rqs ++ [requeue_of t attempt]) fails
      | None => select_stuck now tasks' (S count) rqs (fails ++ [tid])
      end
  end.

(** [min(600_000, 10_000 * (2 ** attempt))], for the non-negative attempt
    counter *)
Definition requeue_delay (attempt : Z) : Z := Z.min 600000 (10000 * 2 ^ attempt).

Definition bump_attempts (ids : list string) (now : Z) (t : tables) : exn + (tables * unit) :=
  inr (set_tasks (λ m, map_imap (λ id (r : TaskRecord),
         Some (if decide (id ∈ ids) then
                 {| task_id := task_id r; tenant_id := tenant_id r; task_type := task_type r;
                    dag_id := dag_id r; status := status r; priority := priority r;
                    cluster_id := cluster_id r; current_step := current_step r;
                    input_data := input_data r; output_data := output_data r;
                    error_message := error_message r; metadata_json := metadata_json r;
                    callback_url := callback_url r; idempotency_key := idempotency_key r;
                    timeout_seconds := timeout_seconds r; max_retries := max_retries r;
                    attempt := attempt r + 1; scheduled_at := scheduled_at r;
                    cron_expr := cron_expr r; created_at := created_at r; updated_at := now |}
               else r)) m) t, tt).

Fixpoint requeue_all (q : Q) (now_ms : Z) (rqs : list requeue) : M Q :=
  match rqs with
  | [] => ret q
  | r :: rqs' =>
      if bool_decide (rq_capability r = "") then requeue_all q now_ms rqs' else
      let* prio := of_sum (rq_priority r) in
      let* qr := tq_enqueue q (rq_capability r) (rq_task_id r) prio
                   (now_ms + requeue_delay (rq_attempt r)) in
      requeue_all qr.1 now_ms rqs'
  end.

(** The rewritten cache entry of a failed task; [None] where the entry cannot be
    read. *)
Definition failed_entry (raw : option string) : option string :=
  match raw with
  | Some text =>
      if bool_decide (text = "") then None else
      match json_loads text with
      | Some (VDict d) =>
          match transition RUNNING STALE_FAIL with
          | inr r =>
              Some (json_dumps (VDict (dict_set "error" (VStr "reconciler: stuck task, lock expired")
                      (dict_set "status" (VStr (status_value (current r))) d))))
          | inl _ => None
          end
      | _ => None
      end
  | None => None
  end.

Definition fail_all (ids : list string) : M unit :=
  match ids with
  | [] => ret tt
  | _ =>
      let keys := map (λ id, "task:" +:+ id) ids in
      let* raws := script (pipeline (map (λ k, (k, GET)) keys)) in
      do* script (pipeline (omap (λ kr, (λ text, (kr.1, SET text None false)) <$> failed_entry kr.2)
                              (zip keys raws))) in
      ret tt
  end.

Definition phase2_stuck_recovery (q : Q) (batch : list task) : M Q :=
  if negb (rc_redis rc) then ret q else
  let* tasks := of_sum (with_status_in ["running"; "queued"] batch) in
  match tasks with
  | [] => ret q
  | _ =>
      let* now := time_ms in
      let* locks := script (pipeline (map (λ t, (LOCK_KEY (id_text t), EXISTS)) tasks)) in
      let* sel := select_stuck now (zip tasks locks) 0 [] [] in
      do* (if rc_db rc && negb (bool_decide (length sel.1 = 0%nat)) then
             except (sql (bump_attempts (map rq_task_id sel.1))) (λ _, ret tt)
           else ret tt) in
      let* now_ms := time_ms in
      let* q' := requeue_all q now_ms sel.1 in
      do* fail_all sel.2 in
      ret q'
  end.

(** ** Phase 3 *)

Definition retry_event (t : task) : value :=
  VDict [("task_id", VStr (id_text t)); ("callback_url", dict_get_or "callback_url" (VStr "") t);
         ("payload", VDict [("task_id", VStr (id_text t));
                            ("status", dict_get_or "status" VNone t);
                            ("result", dict_get_or "output" VNone t)]);
         ("attempt", VInt 1)].

Definition phase3_one (ti : task * Z) : M unit :=
  let '(t, is_done) := ti in
  if negb (is_done =? 0) then ret tt else
  let tid := id_text t in
  if negb (truthy (dict_get_or "callback_url" (VStr "") t)) then ret tt else
  let* queued := redis CALLBACK_RETRY_KEY (ZSCORE tid) in
  match queued with
  | Some _ => ret tt
  | None =>
      let* now := time_ms in
      let next_retry_ts := now + 10000 in
      do* script (let+ a := pcall CALLBACK_RETRY_KEY (ZADD next_retry_ts tid) in
                  let+ b := pcall ("callback:retry:payload:" +:+ tid)
                              (SET (json_dumps (retry_event t)) (Some (CALLBACK_RETRY_PAYLOAD_TTL * 1000)) false) in
                  do+ lua_raise a in do+ lua_raise b in LRet tt)%lua in
      ret tt
  end.

Definition phase3_lost_callback (batch : list task) : M unit :=
  if negb (rc_redis rc) then ret tt else
  let* terminal := of_sum (with_status_in ["completed"; "failed"] batch) in
  let terminal := filter (λ t, Is_true (truthy (dict_get_or "callback_url" (VStr "") t))) terminal in
  match terminal with
  | [] => ret tt
  | _ =>
      let* done := script (pipeline (map (λ t, (CALLBACK_DONE_KEY (id_text t), EXISTS)) terminal)) in
      for_each (zip terminal done) phase3_one
  end.

(** One iteration of [_loop]; the three phases run concurrently, their calls
    interleaved as [turn1] and [turn2] say, and [return_exceptions=True] keeps an
    exception of one from stopping the others.  [q] carries the queue manager's
    statistics cache only. *)
Definition reconcile_once (turn1 turn2 : nat -> bool) (q : Q) (cursor : Z) : M (Q * Z) :=
  let* leader := try_become_leader in
  if negb leader then do* sleep (rc_interval rc) in ret (q, cursor) else
  do* rebuild_redis_from_mysql in
  let* b := scan_task_batch cursor in
  match b.2 with
  | [] => do* sleep (rc_interval rc) in ret (q, b.1)
  | batch =>
      let* r := gather turn1 (phase1_double_write batch)
                  (gather turn2 (phase2_stuck_recovery q batch) (phase3_lost_callback batch)) in
      do* sleep (rc_interval rc) in
      ret (match r.2 with inr (inr q', _) => q' | _ => q end, b.1)
  end.
End Reconciler.
