(* ===== verification/ReconcilerProps.v ===== *)
(** * Properties of the reconciler

    Theorems about [TaskReconciler.v]: a single leader, the effect of the
    rebuild on one row, the double-write phase, and the selection of stuck
    tasks. *)

From stdpp Require Import base gmap strings list.
From S2P Require Import Prelude PyValue Json Redis TaskModel Tables Effects.
From S2P Require Import QueueKeys QueueManager ErrorHandling Transaction TaskCreator Compensation TaskReconciler.

Open Scope Z_scope.

(** ** Leader election *)

Section Leader.
Context {E : Env}.
Notation thread := (prog (exn + bool)).

Definition ld_mid (rc : TaskReconciler) : thread :=
  Vis (ERedis (lua_renew_leader RECONCILE_LEADER_KEY (rc_instance_id rc) (rc_leader_ttl rc)))
    (λ x, match x with inr n => ret (n =? 1) | inl e => Ret (inl e) end).

Definition ld_start (rc : TaskReconciler) : thread :=
  Vis (ERedis (call RECONCILE_LEADER_KEY (SET (rc_instance_id rc) (Some (rc_leader_ttl rc * 1000)) true)))
    (λ x, match x with
          | inr ok => if ok then ret true else ld_mid rc
          | inl e => Ret (inl e)
          end).

Lemma try_become_leader_eq rc : rc_redis rc = true -> try_become_leader rc = ld_start rc.
Proof.
  intros H. unfold try_become_leader. rewrite H.
  Transparent redis script. reflexivity. Opaque redis script.
Qed.

(** The leader key holds [id] until [u]. *)
Definition leads (now : Z) (ks : keyspace) (id : string) (u : Z) : Prop :=
  live now ks RECONCILE_LEADER_KEY = Some (REntry (RStr id) (Some u)).

Definition ld_ok (rc : TaskReconciler) (p : thread) : Prop :=
  p = ld_start rc \/ p = ld_mid rc \/ exists r, p = Ret r.

(** Until [t1], whoever was told it leads is the stored leader. *)
Definition leader_inv (rcs : list TaskReconciler) (t1 : Z) (ps : list thread) (w : world doc_services) : Prop :=
  Forall2 ld_ok rcs ps /\ 
  ∀ i rc, rcs !! i = Some rc -> ps !! i = Some (Ret (inr true)) -> w_now w < t1 ->
    exists u, t1 <= u /\ leads (w_now w) (w_redis w) (rc_instance_id rc) u.

Lemma leads_later now now' ks id u : now <= now' < u -> leads now ks id u -> leads now' ks id u.
Proof.
  intros [H1 H2] H. unfold leads. rewrite (live_later now now'), H by done.
  unfold expired; simpl. by rewrite (proj2 (Z.leb_gt _ _)) by lia.
Qed.

(** Someone leading for the whole window blocks every other claim and keeps its
    own. *)
Lemma set_nx_leads now ks id u v px :
  leads now ks id u -> lua_run now (call RECONCILE_LEADER_KEY (SET v (Some px) true)) ks =
    (put RECONCILE_LEADER_KEY (live now ks RECONCILE_LEADER_KEY) ks, inr false).
Proof. intros H. rewrite lua_run_call1, H, act_SETNX_some by (by eexists). done. Qed.

Lemma leads_read now ks id u :
  leads now ks id u -> leads now (put RECONCILE_LEADER_KEY (live now ks RECONCILE_LEADER_KEY) ks) id u.
Proof. intros H. unfold leads. by rewrite live_put_read. Qed.

Lemma renew_other now ks id u id' ttl :
  leads now ks id u -> id' <> id ->
  exists ks', lua_run now (lua_renew_leader RECONCILE_LEADER_KEY id' ttl) ks = (ks', inr 0) /\ leads now ks' id u.
Proof.
  intros H Hne. unfold lua_renew_leader. rewrite lua_run_call, H, act_GET_str; lua_beta.
  rewrite decide_False by congruence. eexists. split; [done|].
  rewrite <-H. by apply leads_read.
Qed.

Lemma renew_self now ks id u ttl :
  0 < ttl -> leads now ks id u ->
  exists ks', lua_run now (lua_renew_leader RECONCILE_LEADER_KEY id ttl) ks = (ks', inr 1) /\
    leads now ks' id (now + ttl * 1000).
Proof.
  intros Ht H. unfold lua_renew_leader. rewrite lua_run_call, H, act_GET_str; lua_beta.
  rewrite decide_True by done. rewrite lua_run_call1, live_put_eq by (rewrite <-H; apply live_fresh).
  rewrite act_EXPIRE. unfold set_expiry. rewrite (proj2 (Z.leb_gt _ _)) by lia.
  eexists. split; [done|]. unfold leads. rewrite live_put_eq; [done|]. apply Z.leb_gt. lia.
Qed.

(** A claim that succeeds stores the claimant for its time to live. *)
Lemma set_nx_wins now ks id px ks' :
  0 < px -> lua_run now (call RECONCILE_LEADER_KEY (SET id (Some px) true)) ks = (ks', inr true) ->
  leads now ks' id (now + px).
Proof.
  intros Hp. rewrite lua_run_call1. destruct (live now ks RECONCILE_LEADER_KEY) as [e|] eqn:El.
  - rewrite act_SETNX_some by (by eexists). done.
  - rewrite act_SETNX_none. intros [= <-]. unfold leads. rewrite live_put_eq; [done|].
    apply Z.leb_gt. lia.
Qed.

Lemma renew_wins now ks id ttl ks' :
  0 < ttl -> lua_run now (lua_renew_leader RECONCILE_LEADER_KEY id ttl) ks = (ks', inr 1) ->
  leads now ks' id (now + ttl * 1000).
Proof.
  intros Ht. unfold lua_renew_leader. rewrite lua_run_call.
  destruct (live now ks RECONCILE_LEADER_KEY) as [[v x]|] eqn:El.
  - destruct v as [s|?|?|?|?]; [|rewrite act_GET by (by eexists); done..].
    rewrite act_GET_str; lua_beta. case_decide as Hs; [|done].
    rewrite lua_run_call1, live_put_eq by (rewrite <-El; apply live_fresh).
    rewrite act_EXPIRE. unfold set_expiry. rewrite (proj2 (Z.leb_gt _ _)) by lia.
    intros [= <-]. unfold leads. rewrite live_put_eq; [by rewrite Hs|]. apply Z.leb_gt. lia.
  - rewrite act_GET_none; lua_beta. done.
Qed.

(** The atomic step of thread [i]: what its script does to a leader in office and
    what it means when it returns true. *)
Lemma claim_step rcs rc i t0 T (m : lua bool) (w : world doc_services) :
  NoDup (map rc_instance_id rcs) -> rcs !! i = Some rc -> 0 < T -> T <= rc_leader_ttl rc * 1000 ->
  (m = call RECONCILE_LEADER_KEY (SET (rc_instance_id rc) (Some (rc_leader_ttl rc * 1000)) true) \/
   m = lua_bind (lua_renew_leader RECONCILE_LEADER_KEY (rc_instance_id rc) (rc_leader_ttl rc))
         (λ n, LRet (n =? 1))) ->
  t0 <= w_now w ->
  let '(ks', r) := lua_run (w_now w) m (w_redis w) in
  (r = inr true -> leads (w_now w) ks' (rc_instance_id rc) (w_now w + rc_leader_ttl rc * 1000)) /\
  (∀ j rcj u, rcs !! j = Some rcj -> j <> i -> leads (w_now w) (w_redis w) (rc_instance_id rcj) u ->
     leads (w_now w) ks' (rc_instance_id rcj) u /\ r <> inr true).
Proof.
  intros Hnd Hi HT Hle Hm Ht0.
  assert (Hids : ∀ j rcj, rcs !! j = Some rcj -> j <> i -> rc_instance_id rc <> rc_instance_id rcj).
  { intros j rcj Hj Hne Heq. apply Hne. eapply (NoDup_lookup _ _ _ (rc_instance_id rcj) Hnd).
    - by rewrite list_lookup_fmap, Hj.
    - rewrite list_lookup_fmap, Hi. simpl. by rewrite Heq. }
  destruct Hm as [->| ->].
  - destruct (lua_run _ _ _) as [ks' r] eqn:Er. split.
    + intros ->. apply set_nx_wins in Er; [done|lia].
    + intros j rcj u Hj Hne Hl. rewrite (set_nx_leads _ _ _ _ _ _ Hl) in Er. injection Er as <- <-.
      split; [by apply leads_read|done].
  - destruct (lua_run (w_now w) (lua_renew_leader RECONCILE_LEADER_KEY (rc_instance_id rc)
      (rc_leader_ttl rc)) (w_redis w)) as [ks' r] eqn:Er.
    rewrite lua_run_bind, Er.
    replace (match r with inr a => lua_run (w_now w) (LRet (a =? 1)) ks' | inl e => (ks', inl e) end)
      with (ks', match r with inr a => inr (a =? 1) | inl e => inl e end) by (by destruct r).
    split.
    + destruct r as [e|n]; [done|]. intros [= Hn]. apply Z.eqb_eq in Hn as ->.
      by apply renew_wins in Er; [|lia].
    + intros j rcj u Hj Hne Hl.
      destruct (renew_other _ _ _ _ (rc_instance_id rc) (rc_leader_ttl rc) Hl (Hids j rcj Hj Hne)) as (k' & Hr & Hl').
      rewrite Hr in Er. by simplify_eq.
Qed.

(** One effect of one contender preserves the invariant. *)
Lemma leader_step rcs t0 T ps w i :
  NoDup (map rc_instance_id rcs) -> 0 < T -> (∀ rc, rc ∈ rcs -> T <= rc_leader_ttl rc * 1000) ->
  t0 <= w_now w -> leader_inv rcs (t0 + T) ps w ->
  leader_inv rcs (t0 + T) (thread_step ps w i).1 (thread_step ps w i).2 /\
  t0 <= w_now (thread_step ps w i).2.
Proof.
  intros Hnd HT Hle Ht0 [Hok Hw]. unfold thread_step.
  destruct (ps !! i) as [p|] eqn:Ei; [|done].
  destruct (Forall2_lookup_r _ _ _ _ _ Hok Ei) as (rc & Hrc & Hp).
  assert (T <= rc_leader_ttl rc * 1000) as HleT by (apply Hle; by eapply list_elem_of_lookup_2).
  (* the two scripts, seen as one *)
  assert (Hcommon : ∀ (m : lua bool) ks' (r : exn + bool) p' (w' : world doc_services),
    (m = call RECONCILE_LEADER_KEY (SET (rc_instance_id rc) (Some (rc_leader_ttl rc * 1000)) true) \/
     m = lua_bind (lua_renew_leader RECONCILE_LEADER_KEY (rc_instance_id rc) (rc_leader_ttl rc))
           (λ n, LRet (n =? 1))) ->
    lua_run (w_now w) m (w_redis w) = (ks', r) ->
    (p' = Ret (inr true) -> r = inr true) -> ld_ok rc p' -> (∀ b, p <> Ret b) ->
    w_redis w' = ks' -> w_now w <= w_now w' ->
    leader_inv rcs (t0 + T) (<[i := p']> ps) w' /\ t0 <= w_now w').
  { intros m ks' r p' w' Hm Hrun Hp' Hok' Hnret Hks Hnow. split; [|lia]. split.
    - rewrite <-(list_insert_id rcs i rc Hrc). by apply Forall2_insert.
    - pose proof (claim_step rcs rc i t0 T m w Hnd Hrc HT HleT Hm Ht0) as Hc. rewrite Hrun in Hc.
      destruct Hc as [Hwin Hother]. intros j rcj Hj Hjp Hlt. rewrite Hks.
      apply list_lookup_insert_Some in Hjp as [(<- & -> & _)|[Hne Hjp]].
      + simplify_eq. eexists. split; [|apply (leads_later (w_now w)); [|apply Hwin; auto]]; lia.
      + destruct (Hw j rcj Hj Hjp) as (u & Hu & Hl); [lia|].
        destruct (Hother j rcj u Hj (not_eq_sym Hne) Hl) as [Hl' _].
        exists u. split; [done|]. apply (leads_later (w_now w)); [lia|done]. }
  assert (Hfault : ∀ e (w' : world doc_services), (∀ b, p <> Ret b) -> w_redis w' = w_redis w -> w_now w <= w_now w' ->
    leader_inv rcs (t0 + T) (<[i := Ret (inl e)]> ps) w' /\ t0 <= w_now w').
  { intros e w' Hnret Hks Hnow. split; [|lia]. split.
    - rewrite <-(list_insert_id rcs i rc Hrc). apply Forall2_insert; [done|].
      right; right. by eexists.
    - intros j rcj Hj Hjp Hlt. apply list_lookup_insert_Some in Hjp as [(<- & ? & _)|[Hne Hjp]]; [done|].
      destruct (Hw j rcj Hj Hjp) as (u & Hu & Hl); [lia|].
      exists u. split; [done|]. rewrite Hks. apply (leads_later (w_now w)); [lia|done]. }
  destruct Hp as [->|[->|[r ->]]]; [| |done].
  - unfold ld_start at 1. cbn -[lua_run]. destruct (redis_fault (w_tick w)) as [x|]; simpl.
    { apply Hfault; [done|done|simpl; lia]. }
    destruct (lua_run _ _ _) as [ks' r] eqn:Er.
    eapply (Hcommon _ ks' r); [by left|exact Er| | |done|done|simpl; lia].
    + destruct r as [e|[]]; [done|done|]. by intros H.
    + destruct r as [e|[]]; [right; right; by eexists|right; right; by eexists|by right; left].
  - unfold ld_mid at 1. cbn -[lua_run]. destruct (redis_fault (w_tick w)) as [x|]; simpl.
    { apply Hfault; [done|done|simpl; lia]. }
    destruct (lua_run _ _ _) as [ks' r] eqn:Er.
    eapply (Hcommon _ ks' (match r with inr n => inr (n =? 1) | inl e => inl e end));
      [by right| | | |done|done|simpl; lia].
    + rewrite lua_run_bind, Er. by destruct r.
    + destruct r as [e|n]; [done|]. by intros [= ->].
    + destruct r as [e|n]; right; right; by eexists.
Qed.

Lemma leader_interleave rcs t0 T sched : ∀ ps w,
  NoDup (map rc_instance_id rcs) -> 0 < T -> (∀ rc, rc ∈ rcs -> T <= rc_leader_ttl rc * 1000) ->
  t0 <= w_now w -> leader_inv rcs (t0 + T) ps w ->
  leader_inv rcs (t0 + T) (interleave sched ps w).1 (interleave sched ps w).2.
Proof.
  induction sched as [|i sched IH]; intros ps w Hnd HT Hle Ht0 H; simpl; [done|].
  destruct (leader_step rcs t0 T ps w i Hnd HT Hle Ht0 H) as [H1 H2].
  destruct (thread_step ps w i). by apply IH.
Qed.
End Leader.

(** ** Properties *)

(** C21: a single reconciler leads.  Any number of instances with distinct
    identifiers contend for leadership, their Redis calls interleaved in any
    order and any of them failing: as long as less than the shortest leader time
    to live has passed, at most one of them is told it is the leader. *)
Theorem single_leader (S : Services) (E : Env) rcs sched T (w : world S) :
  NoDup (map rc_instance_id rcs) -> 0 < T ->
  (∀ rc, rc ∈ rcs -> rc_redis rc = true /\ T <= rc_leader_ttl rc * 1000) ->
  let '(ps, w') := interleave sched (map (λ rc, try_become_leader rc) rcs) w in
  w_now w' < w_now w + T ->
  ∀ i j, ps !! i = Some (Ret (inr true)) -> ps !! j = Some (Ret (inr true)) -> i = j.
Proof.
  intros Hnd HT Hrcs.
  assert (map (λ rc, try_become_leader rc) rcs = map ld_start rcs) as ->.
  { apply map_ext_in. intros rc Hin%list_elem_of_In. apply try_become_leader_eq. by apply Hrcs. }
  pose proof (leader_interleave (E := E) rcs (w_now w) T sched (map ld_start rcs) (wview w) Hnd HT
    (λ rc Hin, proj2 (Hrcs rc Hin)) (Z.le_refl _)) as H.
  rewrite interleave_view in H. destruct (interleave sched _ w) as [ps w'].
  destruct H as [Hok Hl].
  { split.
    - apply Forall2_fmap_r. apply Forall_Forall2_diag, Forall_forall. intros rc _. by left.
    - intros i rc _ Hi. rewrite list_lookup_fmap in Hi. by destruct (rcs !! i). }
  simpl in *. intros Hlt i j Hi Hj.
  destruct (Forall2_lookup_r _ _ _ _ _ Hok Hi) as (rci & Hri & _).
  destruct (Forall2_lookup_r _ _ _ _ _ Hok Hj) as (rcj & Hrj & _).
  destruct (Hl i rci Hri Hi Hlt) as (u & _ & Hu). destruct (Hl j rcj Hrj Hj Hlt) as (v & _ & Hv).
  unfold leads in *. rewrite Hu in Hv. injection Hv as Hid _.
  eapply (NoDup_lookup _ _ _ (rc_instance_id rci) Hnd); rewrite list_lookup_fmap;
    [by rewrite Hri | rewrite Hrj; simpl; by rewrite Hid].
Qed.

Definition rc_demo (id : string) : TaskReconciler :=
  {| rc_redis := true; rc_db := true; rc_qm := true; rc_interval := 15000; rc_stuck_max := 20;
     rc_stuck_max_age := 300000; rc_batch_size := 100; rc_instance_id := id; rc_leader_ttl := 90;
     rc_compensation := None |}.

Lemma single_leader_witness :
  let '(ps, w') := interleave (S := doc_services) (E := calm) [1; 0; 0; 1]%nat
                     (map (λ rc, try_become_leader rc) [rc_demo "a"; rc_demo "b"]) (world0 1000) in
  w_now w' < 1000 + 90000 ->
  ∀ i j, ps !! i = Some (Ret (inr true)) -> ps !! j = Some (Ret (inr true)) -> i = j.
Proof.
  apply (single_leader doc_services calm [rc_demo "a"; rc_demo "b"] [1; 0; 0; 1]%nat 90000 (world0 1000)).
  - apply (bool_decide_unpack _). vm_compute. exact I.
  - reflexivity.
  - intros rc Hin. apply elem_of_cons in Hin as [->|Hin]; [split; [reflexivity|discriminate]|].
    apply list_elem_of_singleton in Hin as ->. split; [reflexivity|discriminate].
Defined.

(** ** Phase 0 *)

Lemma task_queue_apart id c : "task:" +:+ id <> pending c /\ "task:" +:+ id <> running c.
Proof. split; by intros [=]. Qed.

Section Rebuild.
Context {E : Env} (Hq : quiet E).
Notation W := (world doc_services).

(** From [now] on the key is free for, or holds, a sorted set. *)
Definition zset_from (now : Z) (ks : keyspace) (k : string) : Prop :=
  ∀ t, now <= t -> is_Some (zset_of (live t ks k)).

Lemma zset_from_put_ne now k k' e ks :
  k <> k' -> zset_from now ks k' -> zset_from now (put k e ks) k'.
Proof. intros Hne H t Ht. rewrite live_put_ne by done. by apply H. Qed.

Lemma zset_from_read now t k ks :
  now <= t -> zset_from now ks k -> zset_from t (put k (live t ks k) ks) k.
Proof.
  intros Hl H t' Ht'. rewrite (live_later t t'), live_put_read by done.
  rewrite <-(live_later t t') by done. apply H. lia.
Qed.

Lemma zset_from_later now now' ks k : now <= now' -> zset_from now ks k -> zset_from now' ks k.
Proof. intros Hl H t Ht. apply H. lia. Qed.

(** The task is indexed: pending at [t0], or running at [t1]. *)
Definition indexed (id cap : string) (t0 t1 : Z) (ks : keyspace) : Prop :=
  is_Some (zset_at t0 ks (pending cap) !! id) \/ is_Some (zset_at t1 ks (running cap) !! id).

Lemma rebuild_index_spec id cap (w : W) :
  zset_from (w_now w) (w_redis w) (pending cap) -> zset_from (w_now w) (w_redis w) (running cap) ->
  let '(w', r) := run (rebuild_index id cap) w in
  r = inr tt /\ w_db w' = w_db w /\
  (∀ k, k <> pending cap -> k <> running cap -> w_redis w' !! k = w_redis w !! k) /\
  exists t0 t1, w_now w <= t0 <= w_now w' /\ w_now w <= t1 <= w_now w' /\
    ((indexed id cap t0 t1 (w_redis w) /\ indexed id cap t0 t1 (w_redis w')) \/
     exists s, zset_at t0 (w_redis w') (pending cap) !! id = Some s /\ w_now w <= s <= w_now w').
Proof using Hq.
  intros Hp Hr. unfold rebuild_index. pose proof (pending_running cap) as Hne.
  rewrite run_bind, run_redis, (proj1 Hq).
  destruct (Hp (w_now w) (Z.le_refl _)) as [zp Hzp]. rewrite (act_ZSCORE _ _ _ _ Hzp). cbv beta iota.
  set (w1 := after _ _ w).
  assert (w_now w <= w_now w1) as Hm1 by (subst w1; simpl; lia).
  assert (w_redis w1 = put (pending cap) (live (w_now w) (w_redis w) (pending cap)) (w_redis w)) as Hr1 by done.
  assert (w_db w1 = w_db w) as Hd1 by done. clearbody w1.
  rewrite run_bind, run_redis, (proj1 Hq), Hr1, live_put_ne by done.
  destruct (Hr (w_now w1) Hm1) as [zr Hzr]. rewrite (act_ZSCORE _ _ _ _ Hzr). cbv beta iota.
  rewrite Hd1. set (w2 := after _ _ w1).
  assert (w_now w1 <= w_now w2) as Hm2 by (subst w2; simpl; lia).
  assert (w_redis w2 = put (running cap) (live (w_now w1) (w_redis w) (running cap))
    (put (pending cap) (live (w_now w) (w_redis w) (pending cap)) (w_redis w))) as Hr2 by done.
  assert (w_db w2 = w_db w) as Hd2 by done. clearbody w2.
  assert (Hframe : ∀ k, k <> pending cap -> k <> running cap -> w_redis w2 !! k = w_redis w !! k).
  { intros k H1 H2. rewrite Hr2, !lookup_put_ne by done. done. }
  assert (Hlp : live (w_now w) (w_redis w2) (pending cap) = live (w_now w) (w_redis w) (pending cap)).
  { rewrite Hr2, live_put_ne by done. apply live_put_read. }
  assert (Hlr : live (w_now w1) (w_redis w2) (running cap) = live (w_now w1) (w_redis w) (running cap)).
  { rewrite Hr2. apply live_put_eq, live_fresh. }
  destruct (zp !! id) as [sp|] eqn:Ep.
  { rewrite run_ret. split; [done|]. split; [done|]. split; [done|].
    exists (w_now w), (w_now w1). split; [lia|]. split; [lia|]. left. split; left.
    - unfold zset_at. rewrite Hzp. simpl. by rewrite Ep.
    - unfold zset_at. rewrite Hlp, Hzp. simpl. by rewrite Ep. }
  destruct (zr !! id) as [sr|] eqn:Es.
  { rewrite run_ret. split; [done|]. split; [done|]. split; [done|].
    exists (w_now w), (w_now w1). split; [lia|]. split; [lia|]. left. split; right.
    - unfold zset_at. rewrite Hzr. simpl. by rewrite Es.
    - unfold zset_at. rewrite Hlr, Hzr. simpl. by rewrite Es. }
  rewrite run_bind, run_time_ms. cbv beta iota.
  set (w3 := after (w_redis w2) (w_db w2) w2).
  assert (w_now w2 <= w_now w3) as Hm3 by (subst w3; simpl; lia).
  assert (w_redis w3 = w_redis w2 /\ w_db w3 = w_db w) as [Hr3 Hd3] by done. clearbody w3.
  rewrite run_bind, run_redis, (proj1 Hq).
  assert (exists z3, zset_of (live (w_now w3) (w_redis w3) (pending cap)) = Some z3) as [z3 Hz3].
  { rewrite Hr3, Hr2, live_put_ne, (live_later (w_now w) (w_now w3)), live_put_read by (done || lia).
    rewrite <-(live_later (w_now w) (w_now w3)) by lia. apply Hp. lia. }
  rewrite (act_ZADD _ _ _ _ _ Hz3). cbv beta iota. rewrite run_ret.
  split; [done|]. split; [simpl; congruence|]. split.
  { intros k H1 H2. simpl. rewrite lookup_put_ne by done. rewrite Hr3. by apply Hframe. }
  exists (w_now w3), (w_now w1). simpl. split; [lia|]. split; [lia|]. right.
  exists (w_now w2). split; [|lia]. unfold zset_at.
  rewrite live_put_eq by apply fresh_keep, live_fresh. rewrite zset_of_keep. simpl.
  apply lookup_insert_eq.
Qed.
End Rebuild.

(** What the index part of the rebuild does for a queued or scheduled task, over any
    services without faults: afterwards the task is in the pending or the running
    set; an entry that was there is kept; a new entry has the current time in
    seconds as its score, which is below the score of every task enqueued with a
    priority of one or more, and due at once.  So a rebuilt task overtakes all
    priorities and ignores its own delay. *)
Theorem rebuild_indexes_task (S : Services) (E : Env) id cap (w : world S) :
  quiet E ->
  zset_from (w_now w) (ks_of w) (pending cap) -> zset_from (w_now w) (ks_of w) (running cap) ->
  let '(w', r) := run (rebuild_index id cap) w in
  r = inr tt /\ db_of w' = db_of w /\
  exists t0 t1, w_now w <= t0 <= w_now w' /\ w_now w <= t1 <= w_now w' /\
    ((indexed id cap t0 t1 (ks_of w) /\ indexed id cap t0 t1 (ks_of w')) \/
     exists s, zset_at t0 (ks_of w') (pending cap) !! id = Some s /\
       (0 <= w_now w -> w_now w' < 1000 * SCORE_BASE ->
        (∀ p ts, 1 <= p -> 0 <= ts -> s < of_int (encode_score p ts)) /\
        ∀ t, w_now w' <= t -> ready t s)).
Proof.
  intros Hq Hp Hr.
  assert (let '(w', r) := run (S := doc_services) (rebuild_index id cap) (wview w) in
    r = inr tt /\ w_db w' = w_db (wview w) /\
    exists t0 t1, w_now w <= t0 <= w_now w' /\ w_now w <= t1 <= w_now w' /\
    ((indexed id cap t0 t1 (ks_of w) /\ indexed id cap t0 t1 (w_redis w')) \/
     exists s, zset_at t0 (w_redis w') (pending cap) !! id = Some s /\
       (0 <= w_now w -> w_now w' < 1000 * SCORE_BASE ->
        (∀ p ts, 1 <= p -> 0 <= ts -> s < of_int (encode_score p ts)) /\
        ∀ t, w_now w' <= t -> ready t s))) as H; [|transfer H].
  pose proof (rebuild_index_spec Hq id cap (wview w) Hp Hr) as H.
  destruct (run _ _) as [w' r]. destruct H as (-> & Hd & _ & t0 & t1 & H0 & H1 & H).
  split; [done|]. split; [done|]. exists t0, t1. split; [done|]. split; [done|].
  destruct H as [H|(s & Hs & Hb)]; [by left|]. right. exists s. split; [done|].
  change (w_now (wview w)) with (w_now w) in Hb. intros Hpos Hlim. split.
  - intros p ts Hp1 Hts. unfold of_int, encode_score, SCORE_BASE in *. nia.
  - intros t Ht. unfold ready, of_int, SCORE_BASE in *.
    rewrite Z.mod_small by lia. rewrite (proj2 (Z.leb_le _ _)) by lia. done.
Qed.

Lemma rebuild_indexes_task_witness :
  let '(w', r) := run (S := doc_services) (E := calm) (rebuild_index "t-1" "ocr") (world0 1000) in
  r = inr tt /\ db_of w' = db_of (world0 1000) /\
  exists t0 t1, 1000 <= t0 <= w_now w' /\ 1000 <= t1 <= w_now w' /\
    ((indexed "t-1" "ocr" t0 t1 (ks_of (world0 1000)) /\ indexed "t-1" "ocr" t0 t1 (ks_of w')) \/
     exists s, zset_at t0 (ks_of w') (pending "ocr") !! "t-1" = Some s /\
       (0 <= 1000 -> w_now w' < 1000 * SCORE_BASE ->
        (∀ p ts, 1 <= p -> 0 <= ts -> s < of_int (encode_score p ts)) /\
        ∀ t, w_now w' <= t -> ready t s)).
Proof.
  apply (rebuild_indexes_task doc_services calm "t-1" "ocr" (world0 1000) calm_quiet);
    intros t _; exists ∅; reflexivity.
Defined.

(** ** Phase 1 *)

Lemma phase1_session_keeps terminal now db db' missing :
  phase1_session terminal now db = inr (db', missing) -> db' = db.
Proof.
  unfold phase1_session. case_match; [done|].
  destruct (filter _ terminal) as [|t ts]; [by intros [= <- _]|].
  unfold sum_bind. simpl. done.
Qed.

(** The double-write phase never repairs anything.  The rows it builds have no
    [task_type], a NOT NULL column, so the commit always fails and is swallowed:
    whatever the batch, whatever else fails, the database is unchanged. *)
Theorem phase1_never_persists (S : Services) (E : Env) rc batch (w : world S) :
  rc_compensation rc = None ->
  db_of (run (phase1_double_write rc batch) w).1 = db_of w.
Proof.
  intros Hc. pose proof (run_view (phase1_double_write rc batch) w) as Hv.
  assert (db_keeps (λ t, t) (phase1_double_write rc batch)) as Hk.
  { unfold phase1_double_write. rewrite Hc. keeps_tac.
    apply keeps_sql. intros ? ? ? ?. apply phase1_session_keeps. }
  specialize (Hk (wview w)). rewrite Hv in Hk. exact Hk.
Qed.

Definition batch_demo : list (list (string * value)) :=
  [[("task_id", VStr "t-9"); ("status", VStr "completed"); ("output", VDict [("n", VInt 1)])]].

Lemma phase1_never_persists_witness :
  db_of (run (S := doc_services) (E := calm) (phase1_double_write (rc_demo "a") batch_demo) (world0 1000)).1
  = db_of (world0 1000).
Proof. apply (phase1_never_persists doc_services calm (rc_demo "a") batch_demo (world0 1000) eq_refl). Defined.

(** ** Phase 2 *)

Section Stuck.
Context {S : Services} {E : Env} (rc : TaskReconciler).

(** A task that may be declared stuck: unlocked and old enough. *)
Definition stuck (now : Z) (tl : list (string * value) * Z) : Prop :=
  tl.2 = 0 /\ id_text tl.1 <> "" /\ too_young rc now tl.1 = inr false.

#[global] Instance stuck_dec now tl : Decision (stuck now tl).
Proof. unfold stuck. apply _. Defined.

Definition sound_selection (now : Z) (tasks : list (list (string * value) * Z))
    (rqs : list requeue) (fails : list string) : Prop :=
  (length rqs + length fails <= rc_stuck_max rc)%nat /\
  (∀ id, id ∈ map rq_task_id rqs ++ fails -> exists tl, tl ∈ tasks /\ stuck now tl /\ id_text tl.1 = id).

(** One more task selected, for requeue or for failure. *)
Lemma sound_more now all rqs fails tl rqs' fails' :
  (length rqs + length fails < rc_stuck_max rc)%nat ->
  sound_selection now all rqs fails -> tl ∈ all -> stuck now tl ->
  map rq_task_id rqs' ++ fails' ≡ₚ id_text tl.1 :: map rq_task_id rqs ++ fails ->
  sound_selection now all rqs' fails'.
Proof.
  intros Hlt [Hlen Hall] Hin Hst Hp. split.
  - apply Permutation_length in Hp. simpl in Hp. rewrite !length_app, !length_map in Hp. lia.
  - intros id. rewrite Hp, elem_of_cons. intros [->|H]; [by exists tl|by apply Hall].
Qed.

Lemma requeue_more {A} (l r : list A) x : l ++ [x] ++ r ≡ₚ x :: l ++ r.
Proof. simpl. by rewrite <- Permutation_middle. Qed.

Lemma select_stuck_sound now all tasks : ∀ count rqs fails (w : world S),
  (∀ x, x ∈ tasks -> x ∈ all) ->
  count = (length rqs + length fails)%nat -> sound_selection now all rqs fails ->
  match run (select_stuck rc now tasks count rqs fails) w with
  | (_, inr (rqs', fails')) => sound_selection now all rqs' fails'
  | _ => True
  end.
Proof.
  induction tasks as [|[t lk] tasks IH]; intros count rqs fails w Hsub Hc Hs; simpl; [done|].
  assert (∀ x, x ∈ tasks -> x ∈ all) as Hsub' by set_solver.
  destruct (rc_stuck_max rc <=? count)%nat eqn:El; [done|]. apply Nat.leb_gt in El.
  case_bool_decide as Hid; [by apply IH|].
  destruct (lk =? 0) eqn:Elk; simpl negb; cbv iota; [|by apply IH]. apply Z.eqb_eq in Elk as ->.
  rewrite run_bind. destruct (too_young rc now t) as [e|[]] eqn:Ey; [done|by apply IH|].
  simpl (run (of_sum _) _). cbv beta iota.
  rewrite run_bind. destruct (run (redis _ _) w) as [w1 [e|[]]]; [done| |by apply IH].
  simpl negb. cbv iota. rewrite run_bind. destruct (may_retry rc t) as [e|[at_|]]; [done| |];
    simpl (run (of_sum _) _); cbv beta iota; (apply IH; [done|rewrite length_app; simpl; lia|]);
    (eapply (sound_more _ _ _ _ (t, 0)); [|exact Hs|apply Hsub; set_solver|done|]); try lia; simpl.
  - rewrite map_app, <- app_assoc. apply requeue_more.
  - rewrite app_assoc. by rewrite <- Permutation_cons_append.
Qed.
End Stuck.

(** No marker of an earlier recovery is stored for the tasks. *)
Definition unmarked (tasks : list (list (string * value) * Z)) (ks : keyspace) : Prop :=
  ∀ tl, tl ∈ tasks -> ks !! REQUEUE_DEDUP_KEY (id_text tl.1) = None.

(** The members the selection reads have the types the platform writes. *)
Definition well_typed (rc : TaskReconciler) (now : Z) (tl : list (string * value) * Z) : Prop :=
  (exists b, too_young rc now tl.1 = inr b) /\ (exists o, may_retry rc tl.1 = inr o).

Lemma dedup_key_inj a b : REQUEUE_DEDUP_KEY a = REQUEUE_DEDUP_KEY b -> a = b.
Proof. unfold REQUEUE_DEDUP_KEY. apply string_app_inj_l. Qed.

Definition ids_of (tasks : list (list (string * value) * Z)) : list string :=
  map (λ tl, id_text tl.1) tasks.

Lemma unmarked_set t lk tasks ks e : unmarked ((t, lk) :: tasks) ks -> id_text t ∉ ids_of tasks ->
  unmarked tasks (put (REQUEUE_DEDUP_KEY (id_text t)) e ks).
Proof.
  intros Hu Hn tl Htl. rewrite lookup_put_ne.
  - apply Hu. set_solver.
  - intros Heq%dedup_key_inj. apply Hn. rewrite Heq. by apply (list_elem_of_fmap_2 (λ tl, id_text tl.1)).
Qed.

(** One selected task in front of those selected from the rest. *)
Lemma selected_more {A} (a b : list A) x n l :
  a ≡ₚ x :: b -> a ++ take n l ≡ₚ b ++ take (S n) (x :: l).
Proof. intros ->. simpl. by rewrite <- Permutation_middle. Qed.

Lemma select_stuck_complete {E : Env} (Hq : quiet E) rc now tasks : ∀ count rqs fails (w : world doc_services),
  count = (length rqs + length fails)%nat ->
  NoDup (ids_of tasks) -> unmarked tasks (w_redis w) -> Forall (well_typed rc now) tasks ->
  exists rqs' fails', (run (select_stuck rc now tasks count rqs fails) w).2 = inr (rqs', fails') /\
    map rq_task_id rqs' ++ fails' ≡ₚ
    (map rq_task_id rqs ++ fails) ++ take (rc_stuck_max rc - count) (ids_of (filter (stuck rc now) tasks)).
Proof.
  induction tasks as [|[t lk] tasks IH]; intros count rqs fails w Hc Hnd Hu Ht.
  { exists rqs, fails. split; [done|]. change (ids_of (filter _ [])) with (@nil string). by rewrite take_nil, app_nil_r. }
  inversion Hnd as [|? ? Hni Hnd']; subst. inversion Ht as [|? ? [[b Hy] [o Ho]] Ht']; subst. simpl in Hy, Ho.
  assert (Hu' : unmarked tasks (w_redis w)) by (intros tl Htl; apply Hu; set_solver).
  cbn [select_stuck]. destruct (rc_stuck_max rc <=? _)%nat eqn:El.
  { apply Nat.leb_le in El. exists rqs, fails. split; [done|].
    replace (rc_stuck_max rc - _)%nat with 0%nat by lia. by rewrite take_0, app_nil_r. }
  apply Nat.leb_gt in El. rewrite filter_cons.
  case_bool_decide as Hid; [rewrite decide_False by (unfold stuck; simpl; naive_solver); by apply IH|].
  destruct (lk =? 0) eqn:Elk; simpl negb; cbv iota.
  2:{ apply Z.eqb_neq in Elk. rewrite decide_False by (unfold stuck; simpl; naive_solver). by apply IH. }
  apply Z.eqb_eq in Elk as ->. rewrite run_bind, Hy. simpl (run (of_sum _) _). cbv beta iota.
  destruct b; [rewrite decide_False by (unfold stuck; simpl; naive_solver congruence); by apply IH|].
  rewrite decide_True by done.
  assert (Hl : live (w_now w) (w_redis w) (REQUEUE_DEDUP_KEY (id_text t)) = None)
    by (unfold live; pose proof (Hu (t, 0) (list_elem_of_here _ _)) as Hk; simpl in Hk; by rewrite Hk).
  rewrite run_bind, run_redis, (proj1 Hq), Hl, act_SETNX_none. cbv beta iota.
  set (w1 := after _ _ w). assert (Hu1 : unmarked tasks (w_redis w1)) by (by eapply unmarked_set).
  clearbody w1. simpl negb. cbv iota. rewrite run_bind, Ho. simpl (run (of_sum _) _). cbv beta iota.
  replace (rc_stuck_max rc - _)%nat with (S (rc_stuck_max rc - S (length rqs + length fails)))%nat by lia.
  destruct o as [at_|].
  - destruct (IH (S (length rqs + length fails)) (rqs ++ [requeue_of t at_]) fails w1) as (rqs' & fails' & Hr & Hp);
      [rewrite length_app; simpl; lia|done|done|done|].
    exists rqs', fails'. split; [exact Hr|]. rewrite Hp. apply selected_more.
    rewrite map_app, <- app_assoc. apply requeue_more.
  - destruct (IH (S (length rqs + length fails)) rqs (fails ++ [id_text t]) w1) as (rqs' & fails' & Hr & Hp);
      [rewrite length_app; simpl; lia|done|done|done|].
    exists rqs', fails'. split; [exact Hr|]. rewrite Hp. apply selected_more.
    rewrite app_assoc. by rewrite <- Permutation_cons_append.
Qed.

(** The stuck-task selection.  Whatever the batch and whichever calls fail, at
    most [stuck_max_per_tick] tasks are selected, and each was seen without an
    execution lock and is at least [stuck_task_max_age] old (or of unknown age).
    Conversely, when no call fails, the members have their types and no earlier
    recovery has left its marker, exactly the first [stuck_max_per_tick] such
    tasks are selected.  The requeue delay stays between 10 seconds and 10
    minutes. *)
Theorem stuck_selection (S : Services) (E : Env) rc now tasks (w : world S) :
  match run (select_stuck rc now tasks 0 [] []) w with
  | (_, inr (rqs, fails)) =>
      (length rqs + length fails <= rc_stuck_max rc)%nat /\
      ∀ id, id ∈ map rq_task_id rqs ++ fails -> exists tl, tl ∈ tasks /\ stuck rc now tl /\ id_text tl.1 = id
  | _ => True
  end /\
  (quiet E -> NoDup (ids_of tasks) -> unmarked tasks (ks_of w) -> Forall (well_typed rc now) tasks ->
   exists rqs fails, (run (select_stuck rc now tasks 0 [] []) w).2 = inr (rqs, fails) /\
     map rq_task_id rqs ++ fails ≡ₚ take (rc_stuck_max rc) (ids_of (filter (stuck rc now) tasks))) /\
  ∀ n, 0 <= n -> 10000 <= requeue_delay n <= 600000.
Proof.
  split; [|split].
  - apply (select_stuck_sound rc now tasks tasks 0 [] [] w); [done|done|].
    split; [simpl; lia|]. simpl. intros id H. by apply elem_of_nil in H.
  - intros Hq Hnd Hu Ht.
    destruct (select_stuck_complete Hq rc now tasks 0 [] [] (wview w) eq_refl Hnd Hu Ht) as (rqs & fails & Hr & Hp).
    rewrite run_view in Hr. exists rqs, fails. split; [exact Hr|]. by rewrite Hp, Nat.sub_0_r.
  - intros n Hn. unfold requeue_delay.
    assert (1 <= 2 ^ n) by (apply (Z.pow_le_mono_r 2 0 n); lia). lia.
Qed.

(** Two old tasks, one of them locked, and a young one. *)
Definition stuck_batch : list (list (string * value) * Z) :=
  [([("task_id", VStr "t-1"); ("created_at_ts", VFloat 1000); ("max_retries", VInt 3)], 0);
   ([("task_id", VStr "t-2"); ("created_at_ts", VFloat 1000)], 1);
   ([("task_id", VStr "t-3"); ("created_at_ts", VFloat 9999000)], 0)].

Lemma stuck_selection_witness : exists rqs fails,
  (run (S := doc_services) (E := calm) (select_stuck (rc_demo "a") 10000000 stuck_batch 0 [] []) (world0 1000)).2
    = inr (rqs, fails) /\ map rq_task_id rqs ++ fails ≡ₚ ["t-1"].
Proof.
  destruct (stuck_selection doc_services calm (rc_demo "a") 10000000 stuck_batch (world0 1000)) as (_ & H & _).
  apply H.
  - apply calm_quiet.
  - vm_compute. repeat constructor; set_solver.
  - intros tl _. exact (lookup_empty (M := gmap string) _).
  - repeat (apply Forall_cons; split; [split; eexists; vm_compute; reflexivity|]). apply Forall_nil. done.
Defined.
