(* ===== verification/DagModel.v ===== *)
(** * DAG domain model

    [src/models/dag.py]: enumerations, step definitions and the execution
    context.  A step's condition is given as the syntax tree Python's [ast.parse]
    returns for its text ([None] for a text that does not parse). *)

From stdpp Require Import base strings list.
From S2P Require Import Prelude PyValue.

Inductive ExecutionMode := SYNC | ASYNC | FLASK_WRAPPED.
Inductive OnFailureAction := ABORT | SKIP | FALLBACK.
Inductive MapErrorPolicy := ABORT_ALL | CONTINUE.
Inductive StepKind := KTASK | KDISPATCH | KCOLLECTOR | KMAP | KSTREAMING.
Inductive DagStatus := DAG_PENDING | DAG_RUNNING | DAG_COMPLETED | DAG_FAILED | DAG_CANCELLED.

#[global] Instance OnFailureAction_eq_dec : EqDecision OnFailureAction.
Proof. solve_decision. Defined.
#[global] Instance MapErrorPolicy_eq_dec : EqDecision MapErrorPolicy.
Proof. solve_decision. Defined.
#[global] Instance StepKind_eq_dec : EqDecision StepKind.
Proof. solve_decision. Defined.
#[global] Instance DagStatus_eq_dec : EqDecision DagStatus.
Proof. solve_decision. Defined.

(** ** Condition syntax trees *)

Inductive cmpop := OpEq | OpNotEq | OpLt | OpLtE | OpGt | OpGtE | OpIn | OpNotIn | OpIs.
Inductive unop := UNot | UAdd | USub | UInvert.

(** [EConstOther]: a constant of a type outside [_ALLOWED_CONST_TYPES] (bytes,
    complex, Ellipsis); [EUnsupported]: any other node (call, subscript, ...). *)
Inductive expr :=
| EConst (v : value)
| EConstOther
| EName (id : string)
| ECompare (left : expr) (rest : list (cmpop * expr))
| EBoolAnd (es : list expr)
| EBoolOr (es : list expr)
| EUnary (op : unop) (e : expr)
| EAttribute (e : expr) (attr : string)
| EUnsupported.

(** ** Steps and contexts *)

Record RetryPolicy := { max_retries : Z; retry_delay_ms : Z }.

Record StreamingTrigger := {
  buffer_key : string;
  flush_on_complete : bool;
  downstream_steps : list string
}.

Record DagStep := {
  step_name : string;
  capability : string;
  step_kind : StepKind;
  depends_on : list string;
  execution_mode : ExecutionMode;
  timeout_seconds : Z;
  retry_policy : RetryPolicy;
  input_mapping : list (string * string);
  output_mapping : list (string * string);
  condition : option (option expr);
  on_failure : OnFailureAction;
  fallback : option (list (string * string));
  flask_url : option string;
  map_over : option string;
  max_concurrency : Z;
  map_error_policy : MapErrorPolicy;
  streaming_trigger : option StreamingTrigger
}.

(** A step with the field defaults of the model. *)
Definition DagStep_default (name cap : string) (deps : list string) : DagStep :=
  {| step_name := name; capability := cap; step_kind := KTASK; depends_on := deps;
     execution_mode := SYNC; timeout_seconds := 60;
     retry_policy := {| max_retries := 0; retry_delay_ms := 1000 |};
     input_mapping := []; output_mapping := []; condition := None;
     on_failure := ABORT; fallback := None; flask_url := None; map_over := None;
     max_concurrency := 0; map_error_policy := ABORT_ALL; streaming_trigger := None |}.

Record DagDefinition := {
  dag_id : string;
  dag_tenant_id : string;
  steps : list DagStep;
  dag_max_concurrent : option Z
}.

Record DagContext := {
  ctx_task_id : string;
  ctx_dag_id : string;
  ctx_tenant_id : string;
  ctx_input_data : list (string * value);
  ctx_context : list (string * value);
  ctx_step_results : list (string * value);
  ctx_completed_steps : list string;
  ctx_status : DagStatus
}.

Definition with_dag_status (s : DagStatus) (c : DagContext) : DagContext :=
  {| ctx_task_id := ctx_task_id c; ctx_dag_id := ctx_dag_id c; ctx_tenant_id := ctx_tenant_id c;
     ctx_input_data := ctx_input_data c; ctx_context := ctx_context c;
     ctx_step_results := ctx_step_results c; ctx_completed_steps := ctx_completed_steps c;
     ctx_status := s |}.

Definition with_context (f : list (string * value) -> list (string * value)) (c : DagContext) : DagContext :=
  {| ctx_task_id := ctx_task_id c; ctx_dag_id := ctx_dag_id c; ctx_tenant_id := ctx_tenant_id c;
     ctx_input_data := ctx_input_data c; ctx_context := f (ctx_context c);
     ctx_step_results := ctx_step_results c; ctx_completed_steps := ctx_completed_steps c;
     ctx_status := ctx_status c |}.

Definition with_result (name : string) (v : value) (c : DagContext) : DagContext :=
  {| ctx_task_id := ctx_task_id c; ctx_dag_id := ctx_dag_id c; ctx_tenant_id := ctx_tenant_id c;
     ctx_input_data := ctx_input_data c; ctx_context := ctx_context c;
     ctx_step_results := dict_set name v (ctx_step_results c);
     ctx_completed_steps := ctx_completed_steps c; ctx_status := ctx_status c |}.

Definition with_completed (name : string) (c : DagContext) : DagContext :=
  {| ctx_task_id := ctx_task_id c; ctx_dag_id := ctx_dag_id c; ctx_tenant_id := ctx_tenant_id c;
     ctx_input_data := ctx_input_data c; ctx_context := ctx_context c;
     ctx_step_results := ctx_step_results c; ctx_completed_steps := ctx_completed_steps c ++ [name];
     ctx_status := ctx_status c |}.
