(* ===== verification/DagTopo.v ===== *)
(** * Topological levels

    [DagEngine._topo_sort] of [src/platform/dag_engine.py]: Kahn's algorithm by
    waves.  The specification: a wave holds the steps whose dependencies all lie
    in earlier waves; the algorithm schedules exactly the steps that can be
    reached that way, each once. *)

From stdpp Require Import base gmap strings list.
From S2P Require Import Prelude DagModel.

Open Scope Z_scope.

(** The keys of [{s.step_name: ... for s in steps}], in insertion order. *)
Fixpoint dedup_names (seen : list string) (ns : list string) : list string :=
  match ns with
  | [] => []
  | n :: ns' => if decide (n ∈ seen) then dedup_names seen ns' else n :: dedup_names (n :: seen) ns'
  end.

Definition in_degrees (ss : list DagStep) : gmap string Z :=
  foldl (λ m s, <[step_name s := Z.of_nat (length (depends_on s))]> m) ∅ ss.

Definition adj_init (ss : list DagStep) : gmap string (list string) :=
  foldl (λ m s, <[step_name s := []]> m) ∅ ss.

(** [if dep in adj: adj[dep].append(s.step_name)] *)
Definition adj_add (m : gmap string (list string)) (dep name : string) : gmap string (list string) :=
  match m !! dep with Some l => <[dep := l ++ [name]]> m | None => m end.

Definition adjacency (ss : list DagStep) : gmap string (list string) :=
  foldl (λ m s, foldl (λ m d, adj_add m d (step_name s)) m (depends_on s)) (adj_init ss) ss.

(** [in_degree[nbr] -= 1; if in_degree[nbr] == 0: next_q.append(nbr)] *)
Definition relax (st : gmap string Z * list string) (nbr : string) : gmap string Z * list string :=
  let d := default 0 (st.1 !! nbr) - 1 in
  (<[nbr := d]> st.1, if d =? 0 then st.2 ++ [nbr] else st.2).

Fixpoint waves_loop (fuel : nat) (adj : gmap string (list string)) (deg : gmap string Z)
    (queue : list string) : list (list string) :=
  match fuel, queue with
  | O, _ | _, [] => []
  | S fuel', _ =>
      let '(deg', next_q) := foldl relax (deg, []) (concat (map (λ sn, default [] (adj !! sn)) queue)) in
      queue :: waves_loop fuel' adj deg' next_q
  end.

Definition initial_queue (ss : list DagStep) : list string :=
  filter (λ n, in_degrees ss !! n = Some 0) (dedup_names [] (map step_name ss)).

(** One wave per step is always enough ([topo_sort_complete]). *)
Definition topo_sort (ss : list DagStep) : list (list string) :=
  waves_loop (S (length ss)) (adjacency ss) (in_degrees ss) (initial_queue ss).

Lemma elem_of_map {A B} (f : A -> B) l y : y ∈ map f l <-> ∃ x, y = f x /\ x ∈ l.
Proof. apply (list_elem_of_fmap f l y). Qed.

(** ** Counting occurrences *)

Definition cnt (n : string) (l : list string) : Z := Z.of_nat (length (filter (λ x, x = n) l)).

Lemma cnt_nil n : cnt n [] = 0.
Proof. done. Qed.

Lemma cnt_cons n x l : cnt n (x :: l) = (if decide (x = n) then 1 else 0) + cnt n l.
Proof. unfold cnt. rewrite filter_cons. case_decide; simpl; lia. Qed.

Lemma cnt_app n l1 l2 : cnt n (l1 ++ l2) = cnt n l1 + cnt n l2.
Proof. unfold cnt. rewrite filter_app, length_app. lia. Qed.

Lemma cnt_nonneg n l : 0 <= cnt n l.
Proof. unfold cnt. lia. Qed.

Lemma cnt_pos n l : n ∈ l <-> 0 < cnt n l.
Proof.
  induction l as [|x l IH].
  - rewrite cnt_nil. split; [by intros ?%elem_of_nil|lia].
  - rewrite cnt_cons, elem_of_cons, IH. pose proof (cnt_nonneg n l).
    destruct (decide (x = n)); split; naive_solver lia.
Qed.

(** Occurrences in [l] of the members of a duplicate-free list. *)
Lemma cnt_sum_filter l q : NoDup q ->
  foldr (λ sn acc, cnt sn l + acc) 0 q = Z.of_nat (length (filter (λ d, d ∈ q) l)).
Proof.
  intros Hnd. induction l as [|x l IH].
  - induction q as [|y q IHq]; simpl; [done|]. rewrite cnt_nil, IHq; [done|]. by inversion Hnd.
  - rewrite filter_cons.
    assert (foldr (λ sn acc, cnt sn (x :: l) + acc) 0 q =
            (if decide (x ∈ q) then 1 else 0) + foldr (λ sn acc, cnt sn l + acc) 0 q) as ->.
    { clear IH. induction q as [|y q IHq]; [done|]. inversion Hnd as [|? ? Hy Hq]; subst.
      simpl. rewrite cnt_cons, IHq by done.
      repeat case_decide; subst; set_solver by lia. }
    rewrite IH. case_decide; simpl length; lia.
Qed.

(** ** The relaxation fold *)

Lemma relax_fold l : ∀ deg nq deg' nq',
  foldl relax (deg, nq) l = (deg', nq') ->
  (∀ n, default 0 (deg' !! n) = default 0 (deg !! n) - cnt n l) /\
  (∀ n, n ∈ nq' <-> n ∈ nq \/ (1 <= default 0 (deg !! n) <= cnt n l)) /\
  (NoDup nq -> (∀ n, n ∈ nq -> default 0 (deg !! n) <= 0) -> NoDup nq').
Proof.
  induction l as [|x l IH]; intros deg nq deg' nq'; simpl.
  - intros [= <- <-]. split; [intros n; rewrite cnt_nil; lia|]. split; [|done].
    intros n. rewrite cnt_nil. split; [auto|]. intros [?|?]; [done|lia].
  - unfold relax at 2. simpl. set (d := default 0 (deg !! x) - 1). intros Hf.
    destruct (IH _ _ _ _ Hf) as (H1 & H2 & H3). clear IH Hf.
    assert (Hx : ∀ n, default 0 (<[x := d]> deg !! n) = default 0 (deg !! n) - (if decide (x = n) then 1 else 0)).
    { intros n. destruct (decide (x = n)) as [<-|]; [by rewrite lookup_insert_eq|].
      rewrite lookup_insert_ne by done. lia. }
    split; [|split].
    + intros n. rewrite H1, Hx, cnt_cons. lia.
    + intros n. rewrite H2, Hx, cnt_cons. pose proof (cnt_nonneg n l).
      destruct (d =? 0) eqn:Ed; bool_to_prop.
      * rewrite elem_of_app, list_elem_of_singleton.
        destruct (decide (x = n)) as [<-|Hn]; [subst d; naive_solver lia|].
        assert (n <> x) by done. naive_solver lia.
      * destruct (decide (x = n)) as [<-|Hn]; [subst d; naive_solver lia|naive_solver lia].
    + intros Hnd Hle. apply H3.
      * destruct (d =? 0) eqn:Ed; bool_to_prop; [|done].
        apply NoDup_app. split; [done|]. split; [|apply NoDup_singleton].
        intros n Hn ->%list_elem_of_singleton. apply Hle in Hn. subst d. lia.
      * intros n Hn. rewrite Hx. destruct (d =? 0) eqn:Ed; bool_to_prop.
        -- apply elem_of_app in Hn as [Hn| ->%list_elem_of_singleton].
           ++ apply Hle in Hn. case_decide; lia.
           ++ rewrite decide_True by done. subst d. lia.
        -- apply Hle in Hn. case_decide; lia.
Qed.

(** ** Reading the tables the loop starts from *)

Lemma in_degrees_lookup ss s : NoDup (map step_name ss) -> s ∈ ss ->
  in_degrees ss !! step_name s = Some (Z.of_nat (length (depends_on s))).
Proof.
  unfold in_degrees. generalize (∅ : gmap string Z). induction ss as [|t ss IH]; intros m Hnd Hs.
  - by apply elem_of_nil in Hs.
  - simpl in *. inversion Hnd as [|? ? Hnot Hnd']; subst. apply elem_of_cons in Hs as [->|Hs]; [|by apply IH].
    clear IH Hnd. revert m. induction ss as [|u ss IHu] using rev_ind; intros m; simpl.
    + by rewrite lookup_insert_eq.
    + rewrite foldl_app. simpl. rewrite map_app in Hnot, Hnd'. simpl in Hnot.
      rewrite lookup_insert_ne by set_solver. apply IHu; [set_solver|].
      by apply NoDup_app in Hnd' as [? _].
Qed.

Lemma dedup_names_id ns : ∀ seen, NoDup ns -> (∀ n, n ∈ ns -> n ∉ seen) -> dedup_names seen ns = ns.
Proof.
  induction ns as [|n ns IH]; intros seen Hnd Hs; simpl; [done|].
  inversion Hnd; subst. rewrite decide_False by (apply Hs; set_solver). f_equal.
  apply IH; [done|]. intros m Hm. apply not_elem_of_cons. split; [set_solver|]. apply Hs. set_solver.
Qed.

Lemma adj_add_lookup m d nm k :
  default [] (adj_add m d nm !! k) =
  default [] (m !! k) ++ (if decide (d = k /\ is_Some (m !! k)) then [nm] else []).
Proof.
  unfold adj_add. destruct (m !! d) as [l|] eqn:E.
  - destruct (decide (d = k)) as [<-|Hne].
    + rewrite lookup_insert_eq, E, decide_True by (split; [done|eauto]). done.
    + rewrite lookup_insert_ne by done. rewrite decide_False by naive_solver. by rewrite app_nil_r.
  - rewrite decide_False, app_nil_r; [done|]. intros [<- H]. rewrite E in H. by apply is_Some_None in H.
Qed.

Lemma adj_add_dom m d nm k : is_Some (adj_add m d nm !! k) <-> is_Some (m !! k).
Proof.
  unfold adj_add. destruct (m !! d) as [l|] eqn:E; [|done].
  destruct (decide (d = k)) as [<-|Hne]; [|by rewrite lookup_insert_ne].
  rewrite lookup_insert_eq, E. split; eauto.
Qed.

(** One step's contribution: each known dependency records the step's name as
    often as the step lists it. *)
Lemma adj_step nm ds : ∀ m k, is_Some (m !! k) ->
  let m' := foldl (λ m d, adj_add m d nm) m ds in
  is_Some (m' !! k) /\
  ∀ n, cnt n (default [] (m' !! k)) =
       cnt n (default [] (m !! k)) + (if decide (nm = n) then cnt k ds else 0).
Proof.
  induction ds as [|d ds IH]; intros m k Hk; simpl.
  - split; [done|]. intros n. rewrite cnt_nil. case_decide; lia.
  - destruct (IH (adj_add m d nm) k) as [H1 H2]; [by apply adj_add_dom|].
    split; [done|]. intros n. rewrite H2, adj_add_lookup, cnt_app, cnt_cons.
    destruct (decide (d = k)) as [->|].
    + rewrite decide_True by done. rewrite cnt_cons, cnt_nil. repeat case_decide; lia.
    + rewrite (decide_False (P := d = k /\ _)) by naive_solver. rewrite cnt_nil. repeat case_decide; lia.
Qed.

Lemma adj_init_lookup ss k : k ∈ map step_name ss -> adj_init ss !! k = Some [].
Proof.
  unfold adj_init. intros Hk. induction ss as [|u ss IH] using rev_ind.
  - by apply elem_of_nil in Hk.
  - rewrite foldl_app. simpl. destruct (decide (step_name u = k)) as [<-|Hne]; [by rewrite lookup_insert_eq|].
    rewrite lookup_insert_ne by done. apply IH. rewrite map_app in Hk. set_solver.
Qed.

(** The number of times [n] is listed behind [k]: over the steps named [n],
    the occurrences of [k] among their dependencies. *)
Definition edge_count (ss : list DagStep) (k n : string) : Z :=
  foldr (λ s acc, (if decide (step_name s = n) then cnt k (depends_on s) else 0) + acc) 0 ss.

Lemma adjacency_cnt ss k : k ∈ map step_name ss ->
  ∀ n, cnt n (default [] (adjacency ss !! k)) = edge_count ss k n.
Proof.
  intros Hk. unfold adjacency. assert (Hs : adj_init ss !! k = Some []) by by apply adj_init_lookup.
  revert Hs. generalize (adj_init ss). clear Hk. intros m Hm n.
  assert (G : ∀ m, is_Some (m !! k) ->
    cnt n (default [] (foldl (λ m s, foldl (λ m d, adj_add m d (step_name s)) m (depends_on s)) m ss !! k)) =
    cnt n (default [] (m !! k)) + edge_count ss k n).
  { clear m Hm. induction ss as [|s ss IH]; intros m Hm; simpl; [lia|].
    destruct (adj_step (step_name s) (depends_on s) m k Hm) as [H1 H2].
    rewrite IH by done. rewrite H2. lia. }
  rewrite G by (rewrite Hm; eauto). rewrite Hm. simpl. rewrite cnt_nil. lia.
Qed.

Lemma edge_count_notin ss k n : n ∉ map step_name ss -> edge_count ss k n = 0.
Proof.
  induction ss as [|t ss IH]; intros Hn; simpl in *; [done|]. apply not_elem_of_cons in Hn as [Hne Hn].
  rewrite decide_False by done. rewrite IH by done. done.
Qed.

Lemma edge_count_unique ss s k : NoDup (map step_name ss) -> s ∈ ss ->
  edge_count ss k (step_name s) = cnt k (depends_on s).
Proof.
  induction ss as [|t ss IH]; intros Hnd Hs; [by apply elem_of_nil in Hs|].
  simpl in *. inversion Hnd as [|? ? Hnot Hnd']; subst.
  apply elem_of_cons in Hs as [->|Hs].
  - rewrite decide_True by done. rewrite edge_count_notin by done. lia.
  - rewrite decide_False, IH by (done || (intros E; apply Hnot; rewrite E; by apply list_elem_of_fmap_2)). lia.
Qed.

(** ** The greedy layering *)

(** A step is ready when it is not yet scheduled and all it depends on is. *)
Definition is_ready (fin : list string) (s : DagStep) : bool :=
  bool_decide (step_name s ∉ fin) && bool_decide (Forall (λ d, d ∈ fin) (depends_on s)).

Definition ready_names (ss : list DagStep) (fin : list string) : list string :=
  map step_name (filter (λ s, is_ready fin s = true) ss).

(** The specification: schedule every ready step, repeat until none is. *)
Fixpoint greedy_levels (fuel : nat) (ss : list DagStep) (fin : list string) : list (list string) :=
  match fuel, ready_names ss fin with
  | O, _ | _, [] => []
  | S fuel', r => r :: greedy_levels fuel' ss (fin ++ r)
  end.

Lemma elem_of_ready ss fin n :
  n ∈ ready_names ss fin <->
  ∃ s, s ∈ ss /\ step_name s = n /\ n ∉ fin /\ (∀ d, d ∈ depends_on s -> d ∈ fin).
Proof.
  assert (Hr : ∀ s, is_ready fin s = true <->
    step_name s ∉ fin /\ (∀ d, d ∈ depends_on s -> d ∈ fin)).
  { intros s. unfold is_ready. by rewrite andb_true_iff, !bool_decide_eq_true, Forall_forall. }
  unfold ready_names. rewrite elem_of_map. split.
  - intros (s & -> & [H1%Hr H2]%list_elem_of_filter). naive_solver.
  - intros (s & H1 & <- & H2 & H3). exists s. split; [done|]. apply list_elem_of_filter.
    split; [by apply Hr|done].
Qed.

Lemma elem_of_ready_perm ss d1 d2 n : (∀ x, x ∈ d1 <-> x ∈ d2) ->
  n ∈ ready_names ss d1 <-> n ∈ ready_names ss d2.
Proof. intros H. rewrite !elem_of_ready. by setoid_rewrite H. Qed.

Lemma NoDup_map_filter {A B} (f : A -> B) (P : A -> Prop) `{!∀ x, Decision (P x)} l :
  NoDup (map f l) -> NoDup (map f (filter P l)).
Proof.
  induction l as [|x l IH]; intros Hnd; [done|]. simpl in Hnd. inversion Hnd as [|? ? Hn Hnd']; subst.
  rewrite filter_cons. case_decide; [|by apply IH]. simpl. constructor; [|by apply IH].
  intros (y & E & [_ Hy]%list_elem_of_filter)%elem_of_map. apply Hn. apply elem_of_map. eauto.
Qed.

Lemma NoDup_ready ss fin : NoDup (map step_name ss) -> NoDup (ready_names ss fin).
Proof. apply NoDup_map_filter. Qed.

Lemma filter_notin_app (fin q ds : list string) : (∀ n, n ∈ q -> n ∉ fin) ->
  Z.of_nat (length (filter (λ d, d ∉ fin ++ q) ds)) =
  Z.of_nat (length (filter (λ d, d ∉ fin) ds)) - Z.of_nat (length (filter (λ d, d ∈ q) ds)).
Proof.
  intros Hq. induction ds as [|d ds IH]; [done|]. rewrite !filter_cons.
  destruct (decide (d ∈ fin)), (decide (d ∈ q)).
  - exfalso. naive_solver.
  - rewrite (decide_False (P := d ∉ fin ++ q)), (decide_False (P := d ∉ fin)) by set_solver. done.
  - rewrite (decide_False (P := d ∉ fin ++ q)), (decide_True (P := d ∉ fin)) by set_solver.
    cbn [length]. lia.
  - rewrite (decide_True (P := d ∉ fin ++ q)), (decide_True (P := d ∉ fin)) by set_solver.
    cbn [length]. lia.
Qed.

Lemma filter_nil_Forall (fin ds : list string) :
  length (filter (λ d, d ∉ fin) ds) = 0%nat <-> ∀ d, d ∈ ds -> d ∈ fin.
Proof.
  split.
  - intros H%nil_length_inv d Hd. destruct (decide (d ∈ fin)); [done|].
    assert (d ∈ filter (λ d, d ∉ fin) ds) as Hf by by apply list_elem_of_filter.
    rewrite H in Hf. by apply elem_of_nil in Hf.
  - intros H. induction ds as [|d ds IH]; [done|]. rewrite filter_cons, decide_False by (intros Hn; apply Hn, H; set_solver).
    apply IH. set_solver.
Qed.

(** ** The loop invariant *)

Section Loop.
Context (ss : list DagStep) (Hnd : NoDup (map step_name ss)).

(** [deg] counts, for each step, the dependencies not scheduled yet; the queue
    holds the ready steps; scheduled steps have all their dependencies scheduled. *)
Record loop_inv (fin : list string) (deg : gmap string Z) (queue : list string) : Prop := {
  inv_deg : ∀ s, s ∈ ss ->
    default 0 (deg !! step_name s) = Z.of_nat (length (filter (λ d, d ∉ fin) (depends_on s)));
  inv_queue : queue ≡ₚ ready_names ss fin;
  inv_done : ∀ s, s ∈ ss -> step_name s ∈ fin -> ∀ d, d ∈ depends_on s -> d ∈ fin
}.

Lemma step_by_name s t : s ∈ ss -> t ∈ ss -> step_name s = step_name t -> s = t.
Proof using Hnd.
  clear -Hnd. induction ss as [|u l IH]; intros Hs Ht E; [by apply elem_of_nil in Hs|].
  simpl in Hnd. inversion Hnd as [|? ? Hn Hnd']; subst.
  apply elem_of_cons in Hs, Ht. destruct Hs as [->|Hs], Ht as [->|Ht]; auto; exfalso; apply Hn.
  - rewrite E. by apply list_elem_of_fmap_2.
  - rewrite <- E. by apply list_elem_of_fmap_2.
Qed.

Lemma loop_inv_init : loop_inv [] (in_degrees ss) (initial_queue ss).
Proof using Hnd.
  split.
  - intros s Hs. rewrite in_degrees_lookup by done. simpl. f_equal. f_equal.
    induction (depends_on s) as [|d ds IH]; [done|]. rewrite filter_cons, decide_True by set_solver. by f_equal.
  - unfold initial_queue. rewrite dedup_names_id by (done || set_solver).
    apply NoDup_Permutation; [by apply NoDup_filter|by apply NoDup_ready|]. intros n.
    rewrite list_elem_of_filter, elem_of_ready. split.
    + intros (H & (s & -> & Hs)%elem_of_map). exists s. split_and!; try done; [set_solver|].
      rewrite in_degrees_lookup in H by done. intros d Hd. destruct (depends_on s); [done|].
      simpl in H. naive_solver lia.
    + intros (s & Hs & <- & _ & Hd). split; [|by apply list_elem_of_fmap_2].
      rewrite in_degrees_lookup by done. destruct (depends_on s) as [|d ds]; [done|].
      specialize (Hd d). set_solver.
  - intros s _ H. by apply elem_of_nil in H.
Qed.

Lemma neighbours_cnt queue n : NoDup queue -> (∀ k, k ∈ queue -> k ∈ map step_name ss) ->
  cnt n (concat (map (λ sn, default [] (adjacency ss !! sn)) queue)) =
  foldr (λ sn acc, edge_count ss sn n + acc) 0 queue.
Proof using Hnd.
  intros _. induction queue as [|k q IH]; intros Hk; [done|]. simpl.
  rewrite cnt_app, adjacency_cnt by set_solver. rewrite IH by set_solver. done.
Qed.

Lemma neighbours_step queue s : NoDup queue -> (∀ k, k ∈ queue -> k ∈ map step_name ss) -> s ∈ ss ->
  cnt (step_name s) (concat (map (λ sn, default [] (adjacency ss !! sn)) queue)) =
  Z.of_nat (length (filter (λ d, d ∈ queue) (depends_on s))).
Proof using Hnd.
  intros Hq Hk Hs. rewrite neighbours_cnt by done. rewrite <- cnt_sum_filter by done.
  clear -Hnd Hs. induction queue as [|k q IH]; [done|]. simpl. by rewrite edge_count_unique, IH.
Qed.

Lemma loop_inv_step fin deg queue deg' next_q :
  loop_inv fin deg queue ->
  foldl relax (deg, []) (concat (map (λ sn, default [] (adjacency ss !! sn)) queue)) = (deg', next_q) ->
  loop_inv (fin ++ queue) deg' next_q.
Proof using Hnd.
  intros [Hdeg Hqueue Hdone] Hf.
  assert (Hq : NoDup queue) by (rewrite Hqueue; by apply NoDup_ready).
  assert (Hin : ∀ n, n ∈ queue <-> n ∈ ready_names ss fin) by (intros n; by rewrite Hqueue).
  assert (Hknown : ∀ k, k ∈ queue -> k ∈ map step_name ss).
  { intros k (s & Hs & <- & _)%Hin%elem_of_ready. by apply list_elem_of_fmap_2. }
  assert (Hdisj : ∀ n, n ∈ queue -> n ∉ fin) by (intros n (s & _ & _ & H & _)%Hin%elem_of_ready; done).
  destruct (relax_fold _ _ _ _ _ Hf) as (H1 & H2 & H3).
  assert (Hdeg' : ∀ s, s ∈ ss ->
    default 0 (deg' !! step_name s) = Z.of_nat (length (filter (λ d, d ∉ fin ++ queue) (depends_on s)))).
  { intros s Hs. rewrite H1, Hdeg, neighbours_step, filter_notin_app by done. done. }
  split; [done| |].
  - apply NoDup_Permutation; [apply H3; [constructor|set_solver]|by apply NoDup_ready|].
    intros n. rewrite H2, elem_of_ready. split.
    + intros [Hnil|Hn]; [by apply elem_of_nil in Hnil|].
      destruct (decide (n ∈ map step_name ss)) as [(s & -> & Hs)%elem_of_map|Hnot].
      * exists s. specialize (Hdeg' s Hs). rewrite H1 in Hdeg'.
        assert (H0 : length (filter (λ d, d ∉ fin ++ queue) (depends_on s)) = 0%nat) by lia.
        split_and!; [done|done| |by apply filter_nil_Forall].
        assert (length (filter (λ d, d ∉ fin) (depends_on s)) <> 0%nat) as Hpos.
        { specialize (Hdeg s Hs). lia. }
        intros [Hd|Hd]%elem_of_app.
        -- apply Hpos, filter_nil_Forall. by apply Hdone.
        -- apply Hin, elem_of_ready in Hd as (t & Ht & E & _ & Hd).
           apply Hpos, filter_nil_Forall. by rewrite <- (step_by_name t s).
      * rewrite neighbours_cnt in Hn by done. exfalso.
        assert (foldr (λ sn acc, edge_count ss sn n + acc) 0 queue = 0); [|lia].
        clear -Hnot. induction queue as [|k q IH]; [done|]. simpl. by rewrite edge_count_notin.
    + intros (s & Hs & <- & Hn & Hd). right.
      apply filter_nil_Forall in Hd. specialize (Hdeg' s Hs). rewrite Hd, H1 in Hdeg'.
      assert (length (filter (λ d, d ∉ fin) (depends_on s)) <> 0%nat); [|specialize (Hdeg s Hs); lia].
      intros H0. assert (Hall : ∀ d, d ∈ depends_on s -> d ∈ fin) by (by apply filter_nil_Forall). apply Hn, elem_of_app. right. apply Hin, elem_of_ready. set_solver.
  - intros s Hs [Hd|Hd]%elem_of_app d Hdep; apply elem_of_app; left; [by eapply Hdone|].
    apply Hin, elem_of_ready in Hd as (t & Ht & E & _ & Hd). apply Hd. by rewrite (step_by_name t s).
Qed.

Lemma waves_greedy fuel : ∀ fin fin' deg queue, (∀ n, n ∈ fin <-> n ∈ fin') -> loop_inv fin deg queue ->
  Forall2 Permutation (waves_loop fuel (adjacency ss) deg queue) (greedy_levels fuel ss fin').
Proof using Hnd.
  induction fuel as [|fuel IH]; intros fin fin' deg queue Hd Hinv; [done|].
  assert (Hq : queue ≡ₚ ready_names ss fin').
  { rewrite (inv_queue _ _ _ Hinv). apply NoDup_Permutation; try by apply NoDup_ready.
    intros n. by apply elem_of_ready_perm. }
  cbn [waves_loop greedy_levels]. destruct (foldl relax _ _) as [deg' nq] eqn:Hf.
  destruct queue as [|k q].
  - apply Permutation_nil_l in Hq. by rewrite <- Hq.
  - destruct (ready_names ss fin') as [|r rs] eqn:Hr; [by apply Permutation_nil_r in Hq|].
    constructor; [done|]. eapply (IH (fin ++ k :: q)); [|by eapply loop_inv_step].
    intros n. rewrite !elem_of_app, Hd, Hq. done.
Qed.

Lemma topo_greedy : Forall2 Permutation (topo_sort ss) (greedy_levels (S (length ss)) ss []).
Proof using Hnd. by apply (waves_greedy _ [] []), loop_inv_init. Qed.
End Loop.

(** ** Termination: any input, duplicate names and cycles included *)

Definition waiting (deg : gmap string Z) : gset string := dom (filter (λ kv, 1 <= kv.2) deg).

Lemma elem_of_waiting deg n : n ∈ waiting deg <-> 1 <= default 0 (deg !! n).
Proof.
  unfold waiting. rewrite elem_of_dom. unfold is_Some. setoid_rewrite map_lookup_filter_Some. simpl.
  destruct (deg !! n) as [z|]; simpl; split; [naive_solver|naive_solver|naive_solver|lia].
Qed.

Lemma waiting_shrinks l deg deg' nq : foldl relax (deg, []) l = (deg', nq) -> nq <> [] ->
  (size (waiting deg') < size (waiting deg))%nat.
Proof.
  intros Hf Hne. destruct (relax_fold _ _ _ _ _ Hf) as (H1 & H2 & _).
  destruct nq as [|n nq]; [done|]. apply subset_size. split.
  - intros m. rewrite !elem_of_waiting, H1. pose proof (cnt_nonneg m l). lia.
  - intros Hsub. assert (Hn : n ∈ n :: nq) by set_solver. apply H2 in Hn as [Hn|Hn]; [by apply elem_of_nil in Hn|].
    specialize (Hsub n). rewrite !elem_of_waiting, H1 in Hsub. lia.
Qed.

Lemma waves_fuel adj : ∀ f1 f2 deg queue,
  (size (waiting deg) < f1)%nat -> (f1 <= f2)%nat -> waves_loop f1 adj deg queue = waves_loop f2 adj deg queue.
Proof.
  induction f1 as [|f1 IH]; intros f2 deg queue H1 H2; [lia|].
  destruct f2 as [|f2]; [lia|]. cbn [waves_loop]. destruct queue as [|k q]; [done|].
  destruct (foldl relax _ _) as [deg' nq] eqn:Hf. f_equal.
  destruct nq as [|n nq']; [destruct f1, f2; done|].
  apply IH; [|lia]. apply waiting_shrinks in Hf; [lia|done].
Qed.

Lemma waiting_in_degrees ss : (size (waiting (in_degrees ss)) <= length ss)%nat.
Proof.
  assert (waiting (in_degrees ss) ⊆ list_to_set (map step_name ss)) as Hsub.
  { intros n. rewrite elem_of_waiting, elem_of_list_to_set. unfold in_degrees.
    induction ss as [|u ss IH] using rev_ind; [done|]. rewrite foldl_app, map_app. simpl.
    destruct (decide (step_name u = n)) as [<-|]; [set_solver|]. rewrite lookup_insert_ne by done. set_solver. }
  apply subseteq_size in Hsub. etransitivity; [done|].
  clear. induction ss as [|s ss IH]; simpl; [done|].
  rewrite size_union_alt, size_singleton. simpl. apply le_n_S.
  etransitivity; [|exact IH]. apply subseteq_size. set_solver.
Qed.

(** ** Correctness of the layering *)

Section Correct.
Context (ss : list DagStep) (Hnd : NoDup (map step_name ss)).

Lemma waves_split fuel : ∀ fin deg queue pre w post,
  loop_inv ss fin deg queue ->
  waves_loop fuel (adjacency ss) deg queue = pre ++ w :: post ->
  w ≡ₚ ready_names ss (fin ++ concat pre).
Proof using Hnd.
  induction fuel as [|fuel IH]; intros fin deg queue pre w post Hinv E; [by destruct pre|].
  cbn [waves_loop] in E. destruct (foldl relax _ _) as [deg' nq] eqn:Hf.
  destruct queue as [|k q]; [by destruct pre|]. destruct pre as [|p pre]; simplify_eq/=.
  - rewrite app_nil_r. apply (inv_queue _ _ _ _ Hinv).
  - change (k :: q ++ concat pre) with ((k :: q) ++ concat pre). rewrite (app_assoc fin (k :: q)).
    eapply IH; [|done]. by eapply loop_inv_step.
Qed.

Lemma wave_ready pre w post : topo_sort ss = pre ++ w :: post -> w ≡ₚ ready_names ss (concat pre).
Proof using Hnd. intros E. apply (waves_split _ [] _ _ _ _ _ (loop_inv_init ss Hnd) E). Qed.

Lemma waves_nodup_prefix pre post : topo_sort ss = pre ++ post -> NoDup (concat pre).
Proof using Hnd.
  revert post. induction pre as [|w pre IH] using rev_ind; intros post E; [constructor|].
  rewrite <- app_assoc in E. rewrite concat_app. simpl. rewrite app_nil_r.
  apply NoDup_app. split; [by eapply IH|]. apply wave_ready in E. split.
  - intros n Hn. rewrite E, elem_of_ready. naive_solver.
  - rewrite E. by apply NoDup_ready.
Qed.

(** The loop stops only when nothing is ready. *)
Lemma waves_maximal fuel : ∀ fin deg queue,
  loop_inv ss fin deg queue -> (size (waiting deg) < fuel)%nat ->
  ready_names ss (fin ++ concat (waves_loop fuel (adjacency ss) deg queue)) = [].
Proof using Hnd.
  induction fuel as [|fuel IH]; intros fin deg queue Hinv Hfuel; [lia|].
  cbn [waves_loop]. destruct (foldl relax _ _) as [deg' nq] eqn:Hf.
  destruct queue as [|k q].
  - simpl. rewrite app_nil_r. symmetry. apply Permutation_nil_l, (inv_queue _ _ _ _ Hinv).
  - cbn [concat]. rewrite (app_assoc fin (k :: q)).
    pose proof (loop_inv_step ss Hnd _ _ _ _ _ Hinv Hf) as Hinv'.
    destruct nq as [|n nq].
    + assert (waves_loop fuel (adjacency ss) deg' [] = []) as -> by by destruct fuel.
      simpl. rewrite app_nil_r. symmetry. apply Permutation_nil_l, (inv_queue _ _ _ _ Hinv').
    + apply IH; [done|]. apply waiting_shrinks in Hf; [lia|done].
Qed.

Lemma topo_maximal : ready_names ss (concat (topo_sort ss)) = [].
Proof using Hnd.
  apply (waves_maximal _ [] _ _ (loop_inv_init ss Hnd)). pose proof (waiting_in_degrees ss). lia.
Qed.

Lemma topo_elem n : n ∈ concat (topo_sort ss) -> ∃ pre w post,
  topo_sort ss = pre ++ w :: post /\ n ∈ w.
Proof using Type.
  clear. intros (w & Hw & Hn)%list_elem_of_In%in_concat. apply in_split in Hw as (pre & post & E).
  exists pre, w, post. split; [done|]. by apply list_elem_of_In.
Qed.

Lemma topo_known n : n ∈ concat (topo_sort ss) -> n ∈ map step_name ss.
Proof using Hnd.
  intros (pre & w & post & E & Hn)%topo_elem. apply wave_ready in E. rewrite E in Hn.
  apply elem_of_ready in Hn as (s & Hs & <- & _). by apply list_elem_of_fmap_2.
Qed.
End Correct.

(** C18: the waves are computed correctly for uniquely named steps.  Wave by
    wave the result is the greedy layering; a wave holds exactly the steps not
    scheduled before whose dependencies all are (so a step never runs before, or
    together with, something it depends on); no step appears twice; a step that is
    left out waits for a dependency that is left out too or does not exist. *)
Theorem topo_sort_levels (ss : list DagStep) (Hnd : NoDup (map step_name ss)) :
  Forall2 Permutation (topo_sort ss) (greedy_levels (S (length ss)) ss []) /\
  (∀ pre w post, topo_sort ss = pre ++ w :: post -> ∀ s, s ∈ ss ->
     step_name s ∈ w <->
     step_name s ∉ concat pre /\ (∀ d, d ∈ depends_on s -> d ∈ concat pre)) /\
  NoDup (concat (topo_sort ss)) /\
  (∀ n, n ∈ concat (topo_sort ss) -> n ∈ map step_name ss) /\
  (∀ s, s ∈ ss -> step_name s ∉ concat (topo_sort ss) ->
     ∃ d, d ∈ depends_on s /\ d ∉ concat (topo_sort ss)).
Proof.
  split; [by apply topo_greedy|]. split; [|split; [|split]].
  - intros pre w post E s Hs. rewrite (wave_ready ss Hnd _ _ _ E), elem_of_ready. split.
    + intros (t & Ht & Et & Hn & Hd). assert (t = s) as -> by by apply (step_by_name ss Hnd). done.
    + intros [Hn Hd]. eauto.
  - apply (waves_nodup_prefix ss Hnd _ []). by rewrite app_nil_r.
  - intros n. by apply topo_known.
  - intros s Hs Hn.
    destruct (filter (λ d, d ∉ concat (topo_sort ss)) (depends_on s)) as [|d ds] eqn:Ef.
    + exfalso. assert (step_name s ∈ ready_names ss (concat (topo_sort ss))) as Hr.
      { apply elem_of_ready. exists s. split_and!; [done|done|done|].
        apply filter_nil_Forall. by rewrite Ef. }
      rewrite topo_maximal in Hr by done. by apply elem_of_nil in Hr.
    + assert (d ∈ filter (λ d, d ∉ concat (topo_sort ss)) (depends_on s)) as [??]%list_elem_of_filter
        by (rewrite Ef; set_solver). eauto.
Qed.

(** Dependencies that lie among the steps and strictly descend in some rank: the
    graph is acyclic and closed. *)
Definition well_founded_deps (ss : list DagStep) : Prop :=
  ∃ rank : string -> nat, ∀ s, s ∈ ss -> ∀ d, d ∈ depends_on s ->
    d ∈ map step_name ss /\ (rank d < rank (step_name s))%nat.

Lemma topo_all_if_wf ss : NoDup (map step_name ss) -> well_founded_deps ss ->
  ∀ s, s ∈ ss -> step_name s ∈ concat (topo_sort ss).
Proof.
  intros Hnd [rank Hrank].
  assert (G : ∀ k s, (rank (step_name s) < k)%nat -> s ∈ ss -> step_name s ∈ concat (topo_sort ss)).
  { induction k as [|k IH]; intros s Hk Hs; [lia|].
    destruct (decide (step_name s ∈ concat (topo_sort ss))) as [|Hn]; [done|exfalso].
    assert (step_name s ∈ ready_names ss (concat (topo_sort ss))) as Hr.
    { apply elem_of_ready. exists s. split_and!; [done|done|done|]. intros d Hd.
      destruct (Hrank s Hs d Hd) as [(t & -> & Ht)%elem_of_map Hlt]. apply IH; [lia|done]. }
    rewrite topo_maximal in Hr by done. by apply elem_of_nil in Hr. }
  intros s Hs. by apply (G (S (rank (step_name s)))); [lia|].
Qed.

(** The position of the wave that holds [n]. *)
Fixpoint level_of (n : string) (ws : list (list string)) : nat :=
  match ws with [] => O | w :: ws' => if decide (n ∈ w) then O else S (level_of n ws') end.

Lemma level_of_app n pre ws : n ∉ concat pre -> level_of n (pre ++ ws) = (length pre + level_of n ws)%nat.
Proof.
  induction pre as [|p pre IH]; simpl; [done|]. intros Hn. rewrite decide_False by set_solver.
  f_equal. apply IH. set_solver.
Qed.

Lemma level_of_lt n pre ws : n ∈ concat pre -> (level_of n (pre ++ ws) < length pre)%nat.
Proof.
  induction pre as [|p pre IH]; simpl; [by intros ?%elem_of_nil|]. intros [Hn|Hn]%elem_of_app.
  - rewrite decide_True by done. lia.
  - case_decide; [lia|]. apply IH in Hn. lia.
Qed.

(** For uniquely named steps, the scheduler reaches every step exactly when
    the dependency graph is acyclic and mentions only existing steps. *)
Theorem topo_sort_complete (ss : list DagStep) (Hnd : NoDup (map step_name ss)) :
  concat (topo_sort ss) ≡ₚ map step_name ss <-> well_founded_deps ss.
Proof.
  split.
  - intros Hall. exists (λ n, level_of n (topo_sort ss)). intros s Hs d Hd.
    assert (step_name s ∈ concat (topo_sort ss)) as (pre & w & post & E & Hw)%topo_elem
      by (rewrite Hall; by apply list_elem_of_fmap_2).
    assert (step_name s ∉ concat pre /\ d ∈ concat pre) as [Hn Hdp].
    { pose proof (wave_ready ss Hnd _ _ _ E) as Hr. rewrite Hr in Hw.
      apply elem_of_ready in Hw as (t & Ht & Et & Hn & Hdt).
      assert (t = s) as -> by by apply (step_by_name ss Hnd). auto. }
    split; [apply (topo_known ss Hnd); rewrite E, concat_app; set_solver|].
    rewrite E, (level_of_app (step_name s)) by done. pose proof (level_of_lt d pre (w :: post) Hdp). lia.
  - intros Hwf. apply NoDup_Permutation; [|done|].
    + apply (waves_nodup_prefix ss Hnd _ []). by rewrite app_nil_r.
    + intros n. split; [by apply topo_known|]. intros (s & -> & Hs)%elem_of_map. by apply topo_all_if_wf.
Qed.

(** ** Concrete graphs *)

Definition diamond : list DagStep :=
  [DagStep_default "merge" "c" ["left"; "right"]; DagStep_default "left" "c" ["load"];
   DagStep_default "right" "c" ["load"; "load"]; DagStep_default "load" "c" []].

Example diamond_waves : topo_sort diamond = [["load"]; ["left"; "right"]; ["merge"]].
Proof. reflexivity. Qed.

Example cycle_waves :
  topo_sort [DagStep_default "a" "c" ["b"]; DagStep_default "b" "c" ["a"]] = [].
Proof. reflexivity. Qed.

Lemma diamond_nodup : NoDup (map step_name diamond).
Proof. by apply (bool_decide_unpack _). Qed.

Lemma topo_sort_levels_witness :
  NoDup (concat (topo_sort diamond)) /\
  Forall2 Permutation (topo_sort diamond) (greedy_levels 5 diamond []).
Proof. destruct (topo_sort_levels diamond diamond_nodup) as (H1 & _ & H2 & _). split; [exact H2|exact H1]. Defined.

Lemma topo_sort_complete_witness : well_founded_deps diamond.
Proof. apply (topo_sort_complete diamond diamond_nodup). vm_compute. apply (bool_decide_unpack _). exact I. Defined.
