(* ===== verification/DagCondition.v ===== *)
(** * Step conditions

    [_eval_node], [_safe_eval_condition] and [_eval_condition] of
    [src/platform/dag_engine.py]: the safe evaluator of a step's condition over
    the run's variables.  Operands are all evaluated, in order; an error anywhere
    makes the condition true. *)

From stdpp Require Import base strings list.
From S2P Require Import Prelude PyValue DagModel.

Open Scope Z_scope.

(** ** Python's comparison operators on JSON values *)

(** Strings by code point. *)
Fixpoint str_compare (a b : string) : comparison :=
  match a, b with
  | EmptyString, EmptyString => Eq
  | EmptyString, _ => Lt
  | _, EmptyString => Gt
  | String c a', String d b' =>
      match (Ascii.nat_of_ascii c ?= Ascii.nat_of_ascii d)%nat with
      | Eq => str_compare a' b'
      | r => r
      end
  end.

(** Ordering: numbers, strings, and lists by their first unequal elements;
    [None] where Python raises [TypeError]. *)
Fixpoint py_compare (a b : value) {struct a} : option comparison :=
  match a, b with
  | VStr s, VStr t => Some (str_compare s t)
  | VList l, VList l' =>
      (fix go (xs ys : list value) : option comparison :=
         match xs, ys with
         | [], [] => Some Eq
         | [], _ => Some Lt
         | _, [] => Some Gt
         | x :: xs', y :: ys' => if py_eq x y then go xs' ys' else py_compare x y
         end) l l'
  | _, _ =>
      match as_milli a, as_milli b with
      | Some x, Some y => Some (x ?= y)
      | _, _ => None
      end
  end.

(** [a in b]; [None] is [TypeError]. *)
Definition py_in (a b : value) : option bool :=
  match b with
  | VStr t => match a with VStr s => Some (str_contains s t) | _ => None end
  | VList l => Some (existsb (py_eq a) l)
  | VDict d =>
      match a with
      | VStr s => Some (dict_has s d)
      | VList _ | VDict _ => None
      | _ => Some false
      end
  | _ => None
  end.

(** ** One comparison of a chain: [result and (left op right)] *)

Definition ordered (result : bool) (l r : value) (p : comparison -> bool) : exn + bool :=
  if result
  then match py_compare l r with
       | Some c => inr (p c)
       | None => inl (Exn TypeError "not supported between instances")
       end
  else inr false.

Definition apply_cmp (op : cmpop) (result : bool) (l r : value) : exn + bool :=
  match op with
  | OpEq => inr (result && py_eq l r)
  | OpNotEq => inr (result && negb (py_eq l r))
  | OpLt => ordered result l r (λ c, match c with Lt => true | _ => false end)
  | OpLtE => ordered result l r (λ c, match c with Gt => false | _ => true end)
  | OpGt => ordered result l r (λ c, match c with Gt => true | _ => false end)
  | OpGtE => ordered result l r (λ c, match c with Lt => false | _ => true end)
  | OpIn => inr (result && default false (py_in l r))
  | OpNotIn => inr (result && match py_in l r with Some b => negb b | None => false end)
  | OpIs => inl (Exn ValueError "Unsupported comparison op")
  end.

Definition is_scalar (v : value) : bool :=
  match v with VList _ | VDict _ => false | _ => true end.

Definition apply_unary (op : unop) (v : value) : exn + value :=
  match op with
  | UNot => inr (VBool (negb (truthy v)))
  | UAdd =>
      match v with
      | VBool b => inr (VInt (if b then 1 else 0))
      | VInt z => inr (VInt z)
      | VFloat m => inr (VFloat m)
      | _ => inl (Exn TypeError "bad operand type for unary +")
      end
  | USub =>
      match v with
      | VBool b => inr (VInt (if b then -1 else 0))
      | VInt z => inr (VInt (- z))
      | VFloat m => inr (VFloat (- m))
      | _ => inl (Exn TypeError "bad operand type for unary -")
      end
  | UInvert => inl (Exn ValueError "Unsupported unary op")
  end.

(** ** The evaluator *)

Section Operands.
Context (eval : expr -> exn + value).

(** [[self._eval_node(v, local_vars) for v in node.values]] *)
Fixpoint eval_values (es : list expr) : exn + list value :=
  match es with
  | [] => inr []
  | e :: es' => match eval e with
                | inl x => inl x
                | inr v => match eval_values es' with inl x => inl x | inr vs => inr (v :: vs) end
                end
  end.

(** The loop over [zip(node.ops, node.comparators)]. *)
Fixpoint eval_chain (result : bool) (lv : value) (rest : list (cmpop * expr)) : exn + value :=
  match rest with
  | [] => inr (VBool result)
  | (op, c) :: rest' =>
      match eval c with
      | inl x => inl x
      | inr rv => match apply_cmp op result lv rv with
                  | inl x => inl x
                  | inr result' => eval_chain result' rv rest'
                  end
      end
  end.
End Operands.

Fixpoint eval_node (e : expr) (vars : list (string * value)) {struct e} : exn + value :=
  match e with
  | EConst v => inr (if is_scalar v then v else VNone)
  | EConstOther => inr VNone
  | EName id => inr (dict_get_or id VNone vars)
  | ECompare lhs rest =>
      match eval_node lhs vars with
      | inl x => inl x
      | inr lv => eval_chain (λ c, eval_node c vars) true lv rest
      end
  | EBoolAnd es =>
      match eval_values (λ e, eval_node e vars) es with
      | inl x => inl x
      | inr vs => inr (VBool (forallb truthy vs))
      end
  | EBoolOr es =>
      match eval_values (λ e, eval_node e vars) es with
      | inl x => inl x
      | inr vs => inr (VBool (existsb truthy vs))
      end
  | EUnary op e => match eval_node e vars with inl x => inl x | inr v => apply_unary op v end
  | EAttribute e attr =>
      match eval_node e vars with
      | inl x => inl x
      | inr (VDict d) => inr (dict_get_or attr VNone d)
      | inr _ => inl (Exn ValueError "Attribute access only allowed on dicts")
      end
  | EUnsupported => inl (Exn ValueError "Unsupported AST node")
  end.

(** [{**ctx.context, **ctx.input_data}] *)
Definition condition_vars (ctx : DagContext) : list (string * value) :=
  dict_update (ctx_context ctx) (ctx_input_data ctx).

(** [_safe_eval_condition]; the text that does not parse is [None]. *)
Definition safe_eval_condition (c : option expr) (ctx : DagContext) : bool :=
  match c with
  | None => true
  | Some e => match eval_node e (condition_vars ctx) with inl _ => true | inr v => truthy v end
  end.

(** ** Evaluation is strict *)

(** [sub e f]: [e] occurs in [f]. *)
Inductive sub (e : expr) : expr -> Prop :=
| sub_refl : sub e e
| sub_left l rest : sub e l -> sub e (ECompare l rest)
| sub_rest l rest op c : (op, c) ∈ rest -> sub e c -> sub e (ECompare l rest)
| sub_and es f : f ∈ es -> sub e f -> sub e (EBoolAnd es)
| sub_or es f : f ∈ es -> sub e f -> sub e (EBoolOr es)
| sub_unary op f : sub e f -> sub e (EUnary op f)
| sub_attr f a : sub e f -> sub e (EAttribute f a).

Definition raises (e : expr) (vars : list (string * value)) : Prop := ∃ x, eval_node e vars = inl x.

Lemma eval_values_raises es vars f : f ∈ es -> raises f vars ->
  ∃ x, eval_values (λ e, eval_node e vars) es = inl x.
Proof.
  intros Hf [x Hx]. induction es as [|e es IH]; [by apply elem_of_nil in Hf|]. simpl.
  apply elem_of_cons in Hf as [->|Hf]; [rewrite Hx; eauto|].
  destruct (eval_node e vars) as [y|v]; [eauto|]. destruct (IH Hf) as [y ->]. eauto.
Qed.

Lemma eval_chain_raises vars rest op c : (op, c) ∈ rest -> raises c vars ->
  ∀ result lv, ∃ x, eval_chain (λ c, eval_node c vars) result lv rest = inl x.
Proof.
  intros Hc [x Hx]. induction rest as [|[op' c'] rest IH]; [by apply elem_of_nil in Hc|].
  intros result lv. simpl. apply elem_of_cons in Hc as [[= <- <-]|Hc]; [rewrite Hx; eauto|].
  destruct (eval_node c' vars) as [y|v]; [eauto|]. destruct (apply_cmp _ _ _ _); [eauto|]. by apply IH.
Qed.

Lemma raises_strict e f vars : sub e f -> raises e vars -> raises f vars.
Proof.
  intros Hs He. induction Hs as [|l rest Hs IH|l rest op c Hin Hs IH|es f Hin Hs IH|es f Hin Hs IH|op f Hs IH|f a Hs IH];
    [done| | | | | |]; unfold raises; simpl.
  - destruct IH as [x ->]. eauto.
  - destruct (eval_node l vars); [eauto|]. by eapply eval_chain_raises.
  - destruct (eval_values_raises _ _ _ Hin IH) as [x ->]. eauto.
  - destruct (eval_values_raises _ _ _ Hin IH) as [x ->]. eauto.
  - destruct IH as [x ->]. eauto.
  - destruct IH as [x ->]. eauto.
Qed.

(** Conditions fail open.  If any subexpression of a condition cannot be
    evaluated (an unsupported node, a type error, an attribute of a value that
    is not a dictionary), the condition is true and the step runs, whatever the
    rest of the expression says: there is no short-circuit that would skip the
    failing part. *)
Theorem condition_fail_open (e f : expr) (ctx : DagContext)
    (Hsub : sub e f) (He : raises e (condition_vars ctx)) :
  safe_eval_condition (Some f) ctx = true.
Proof. unfold safe_eval_condition. destruct (raises_strict _ _ _ Hsub He) as [x ->]. done. Qed.

Definition ctx_of (input context : list (string * value)) : DagContext :=
  {| ctx_task_id := "t"; ctx_dag_id := "d"; ctx_tenant_id := "";
     ctx_input_data := input; ctx_context := context; ctx_step_results := [];
     ctx_completed_steps := []; ctx_status := DAG_RUNNING |}.

(** [enabled and items()] with [enabled = False] *)
Lemma condition_fail_open_witness :
  safe_eval_condition (Some (EBoolAnd [EName "enabled"; EUnsupported]))
    (ctx_of [("enabled", VBool false)] []) = true.
Proof.
  apply (condition_fail_open EUnsupported).
  - apply (sub_and _ _ EUnsupported); [apply list_elem_of_In; simpl; auto|constructor].
  - eexists. reflexivity.
Defined.

(** ** Where nothing fails, the connectives are the logical ones *)

(** [truth e ctx]: the condition's value when its evaluation does not fail. *)
Definition truth (e : expr) (ctx : DagContext) : option bool :=
  match eval_node e (condition_vars ctx) with inl _ => None | inr v => Some (truthy v) end.

Lemma eval_values_truth es ctx bs : Forall2 (λ e b, truth e ctx = Some b) es bs ->
  ∃ vs, eval_values (λ e, eval_node e (condition_vars ctx)) es = inr vs /\ map truthy vs = bs.
Proof.
  induction 1 as [|e b es bs He Hes (vs & IH & Hvs)]; simpl; [by exists []|].
  unfold truth in He. destruct (eval_node e _) as [x|v]; simplify_eq.
  rewrite IH. exists (v :: vs). by subst.
Qed.

Lemma forallb_map_id (vs : list value) : forallb truthy vs = forallb id (map truthy vs).
Proof. induction vs as [|v vs IH]; simpl; [done|]. by rewrite IH. Qed.

Lemma existsb_map_id (vs : list value) : existsb truthy vs = existsb id (map truthy vs).
Proof. induction vs as [|v vs IH]; simpl; [done|]. by rewrite IH. Qed.

(** On conditions whose parts evaluate, [and], [or] and [not] are the
    boolean connectives, a comparison of two variables compares the values the
    run holds for them, and a variable reads the run's input before its
    accumulated context (so a context entry written by a step under the name of
    an input is not seen by conditions). *)
Theorem condition_semantics (ctx : DagContext) :
  (∀ es bs, Forall2 (λ e b, truth e ctx = Some b) es bs ->
     safe_eval_condition (Some (EBoolAnd es)) ctx = forallb id bs /\
     safe_eval_condition (Some (EBoolOr es)) ctx = existsb id bs) /\
  (∀ e b, truth e ctx = Some b -> safe_eval_condition (Some (EUnary UNot e)) ctx = negb b) /\
  (∀ x y, safe_eval_condition (Some (ECompare (EName x) [(OpEq, EName y)])) ctx =
     py_eq (dict_get_or x VNone (condition_vars ctx)) (dict_get_or y VNone (condition_vars ctx))) /\
  (∀ x v w, dict_get x (ctx_input_data ctx) = Some v ->
     safe_eval_condition (Some (EName x)) (with_context (dict_set x w) ctx) = truthy v).
Proof.
  split; [|split; [|split]].
  - intros es bs (vs & Hvs & <-)%eval_values_truth. unfold safe_eval_condition.
    simpl. rewrite Hvs. simpl. by rewrite forallb_map_id, existsb_map_id.
  - intros e b He. unfold truth in He. unfold safe_eval_condition. simpl.
    destruct (eval_node e _); by simplify_eq.
  - intros x y. reflexivity.
  - intros x v w Hv. unfold safe_eval_condition, condition_vars. simpl.
    unfold dict_get_or. by rewrite dict_get_update, Hv.
Qed.

Example chained_comparison :
  safe_eval_condition (Some (ECompare (EConst (VInt 1)) [(OpLt, EName "n"); (OpLtE, EConst (VInt 5))]))
    (ctx_of [] [("n", VInt 7)]) = false.
Proof. reflexivity. Qed.

Lemma condition_semantics_witness :
  safe_eval_condition (Some (EName "n")) (with_context (dict_set "n" (VInt 1)) (ctx_of [("n", VInt 0)] [])) = false.
Proof.
  destruct (condition_semantics (ctx_of [("n", VInt 0)] [])) as (_ & _ & _ & H).
  exact (H "n" (VInt 0) (VInt 1) eq_refl).
Defined.
