(* ===== verification/DagEngine.v ===== *)
(** * DAG execution

    [DagEngine.execute], [_run_step], [_run_streaming_step], [_redis_blpop_sync]
    and [_flask_dispatch] of [src/platform/dag_engine.py].

    A wave's steps run as concurrent threads over the shared [DagContext].  A
    thread starts by evaluating its condition and building its input, waits for
    the engine's semaphore, runs its section (dispatch with retries, MAP or
    STREAMING) one effect at a time, writes its result into the context and saves
    the context.  A schedule is a list of thread numbers: the thread named next
    takes its next atomic step, as the event loop runs a coroutine up to its next
    suspension point or sooner. *)

From stdpp Require Import base gmap strings list.
From S2P Require Import Prelude PyValue Json Redis Effects DagModel DagTopo DagCondition.

Open Scope Z_scope.

Definition dict := list (string * value).

(** ** Section programs: effects and updates of the shared context *)

Inductive sprog :=
| SRet (r : exn + value)
| SVis {X} (e : eff X) (k : X -> sprog)
| SCtx (f : DagContext -> DagContext) (k : sprog).

Fixpoint lift {A} (m : prog A) (k : A -> sprog) : sprog :=
  match m with
  | Ret a => k a
  | Vis e h => SVis e (λ x, lift (h x) k)
  end.

(** ** Engine configuration

    The context store and the streaming client are handed to the constructor by
    the caller; [AsyncClient] stands for a client with [async_blpop]. *)

Inductive stream_client := NoClient | AsyncClient | SyncClient.

Record engine := {
  has_store : bool;
  max_parallelism : Z;
  stream_redis : stream_client
}.

(** ** Calls to the outside *)

Definition dispatch (cap name : string) (input : dict) : M value :=
  invoke "dispatch" (VList [VStr cap; VStr name; VDict input]).

(** [_flask_dispatch]: POST, [raise_for_status], [json()]. *)
Definition flask_dispatch (url : string) (payload : dict) : M value :=
  let* resp := http {| req_method := "POST"; req_url := url; req_headers := [];
                       req_body := json_dumps (VDict payload) |} in
  do* raise_for_status resp in
  match json_loads (resp_body resp) with
  | Some v => ret v
  | None => raise (Exn ValueError "invalid JSON")
  end.

(** ** Steps: input and output mappings *)

(** [{**ctx.input_data}] extended by [ctx.context.get(src) or ctx.step_results.get(src)]. *)
Definition build_input (s : DagStep) (ctx : DagContext) : dict :=
  foldl (λ acc m,
    let '(dst, src) := m in
    match py_or (dict_get_or src VNone (ctx_context ctx)) (dict_get_or src VNone (ctx_step_results ctx)) with
    | VNone => acc
    | v => dict_set dst v acc
    end) (ctx_input_data ctx) (input_mapping s).

(** [if src in v: ... v[src]] *)
Definition lookup_in (src : string) (v : value) : exn + option value :=
  match v with
  | VDict d => inr (dict_get src d)
  | _ => match py_in (VStr src) v with
         | Some false => inr None
         | _ => inl (Exn TypeError "result is not a mapping")
         end
  end.

Fixpoint mapped (m : list (string * string)) (v : value) : exn + dict :=
  match m with
  | [] => inr []
  | (dst, src) :: m' =>
      match lookup_in src v with
      | inl e => inl e
      | inr o => match mapped m' v with
                 | inl e => inl e
                 | inr l => inr (match o with Some x => (dst, x) :: l | None => l end)
                 end
      end
  end.

(** What a failed section turns into: the fallback's mapping, nothing, or the
    exception again. *)
Definition on_exhausted (s : DagStep) (e : exn) : exn + value :=
  match on_failure s, fallback s with
  | FALLBACK, Some m => inr (VDict (map (λ kv, (kv.1, VStr kv.2)) m))
  | SKIP, _ => inr (VDict [])
  | _, _ => inl e
  end.

(** ** The normal section: dispatch with retries *)

Definition dispatch_once (s : DagStep) (input : dict) : M value :=
  match execution_mode s with
  | SYNC | ASYNC => dispatch (capability s) (step_name s) input
  | FLASK_WRAPPED => flask_dispatch (default "" (flask_url s)) input
  end.

(** [retries]: how many attempts may follow the current one. *)
Fixpoint attempts (s : DagStep) (input : dict) (retries : nat) : sprog :=
  lift (dispatch_once s input) (λ r,
    match r with
    | inr v => SRet (inr v)
    | inl e =>
        if is_exception e
        then match retries with
             | S n => lift (sleep (retry_delay_ms (retry_policy s))) (λ _, attempts s input n)
             | O => SRet (on_exhausted s e)
             end
        else SRet (inl e)
    end).

Definition normal_section (s : DagStep) (input : dict) : sprog :=
  if max_retries (retry_policy s) + 1 <=? 0 then SRet (inr (VDict []))
  else attempts s input (Z.to_nat (max_retries (retry_policy s))).

(** ** MAP: one dispatch per item

    The sub-tasks are created in item order and [map_semaphore] admits its waiters
    in that order, so the dispatches are called in item order, at most
    [max_concurrency or 16] of them open at a time.  A dispatch is one effect of
    the model (its call and its answer, time-outs included), so the sub-tasks
    appear in the order of their calls; other steps of the wave run between any
    two of them.  The answers depend on the effect number, hence on nothing the
    code fixes. *)

Definition map_items (s : DagStep) (key : string) (input : dict) (ctx : DagContext) : list value :=
  match py_or (dict_get_or key VNone input) (dict_get_or key (VList []) (ctx_context ctx)) with
  | VList l => l
  | v => [v]
  end.

Definition map_one (s : DagStep) (key : string) (input : dict) (idx : Z) (item : value) : M value :=
  except (dispatch (capability s) (step_name s)
            (dict_set "_map_index" (VInt idx) (dict_set key item input)))
    (λ e, match map_error_policy s with
          | CONTINUE => ret (VDict [("__map_error__", VStr (exn_str e)); ("_map_index", VInt idx)])
          | ABORT_ALL => raise e
          end).

Fixpoint map_gather (s : DagStep) (key : string) (input : dict) (idx : Z) (items : list value)
    (k : list (exn + value) -> sprog) : sprog :=
  match items with
  | [] => k []
  | x :: items' => lift (map_one s key input idx x) (λ r,
      map_gather s key input (idx + 1) items' (λ rs, k (r :: rs)))
  end.

(** [[r for r in map_results if not isinstance(r, Exception)]]: the object of a
    cancelled item is no [Exception] and stays in the list.  A dictionary stands for
    it, since the values of the model have no exception objects. *)
Definition exn_object (e : exn) : value := VDict [("__exception__", VStr (exn_str e))].

Definition results_ok (rs : list (exn + value)) : list value :=
  omap (λ r, match r with
             | inr v => Some v
             | inl e => if is_exception e then None else Some (exn_object e)
             end) rs.

Definition results_err (rs : list (exn + value)) : list exn :=
  omap (λ r, match r with inl e => if is_exception e then Some e else None | inr _ => None end) rs.

Definition map_collect (s : DagStep) (rs : list (exn + value)) : exn + value :=
  match results_err rs, map_error_policy s with
  | e :: _, ABORT_ALL => on_exhausted s e
  | _, _ => inr (VDict [("results", VList (results_ok rs))])
  end.

Definition map_section (s : DagStep) (key : string) (input : dict) (ctx : DagContext) : sprog :=
  map_gather s key input 0 (map_items s key input ctx) (λ rs, SRet (map_collect s rs)).

(** ** STREAMING *)

(** [s.replace(pat, rep)] for a non-empty pattern *)
Fixpoint str_replace_sub (pat rep s : string) (skip : nat) : string :=
  match s with
  | EmptyString => EmptyString
  | String c s' =>
      match skip with
      | S k => str_replace_sub pat rep s' k
      | O => if starts_with pat s
             then rep +:+ str_replace_sub pat rep s' (String.length pat - 1)
             else String c (str_replace_sub pat rep s' O)
      end
  end.

Definition stream_key (t : StreamingTrigger) (ctx : DagContext) : string :=
  str_replace_sub "{task_id}" (ctx_task_id ctx) (buffer_key t) O.

(** [if self._redis: await self._redis.delete(key)]; a synchronous client's reply
    cannot be awaited. *)
Definition stream_delete (eng : engine) (key : string) : M unit :=
  match stream_redis eng with
  | NoClient => ret tt
  | AsyncClient => do* invoke "redis.delete" (VStr key) in ret tt
  | SyncClient => do* invoke "redis.delete" (VStr key) in
                  raise (Exn TypeError "object int can't be used in 'await' expression")
  end.

(** The popped element: [item[1] if item else None].  A synchronous client's reply
    is unpacked by [_redis_blpop_sync], which also turns errors into [None], and
    then indexed once more. *)
Definition pop_chunk (eng : engine) (key : string) (timeout : Z) : M (option string) :=
  match stream_redis eng with
  | AsyncClient =>
      let* item := invoke "redis.async_blpop" (VList [VStr key; VInt timeout]) in
      ret (match item with VList [_; VStr raw] => Some raw | _ => None end)
  | SyncClient =>
      let* r := attempt_ (invoke "redis.blpop" (VList [VStr key; VInt timeout])) in
      match r with
      | inl e => if is_exception e then ret None else raise e
      | inr (VList [_; VStr v]) =>
          match v with
          | EmptyString => ret None
          | String _ EmptyString => raise (Exn IndexError "string index out of range")
          | String _ (String c _) => ret (Some (String c EmptyString))
          end
      | inr _ => ret None
      end
  | NoClient => ret None
  end.

(** [ctx.context[acc_key].append(ds_result)], the list created on first use. *)
Definition accumulate (ds : string) (v : value) (ctx : DagContext) : DagContext :=
  let key := "_streaming_results_" +:+ ds in
  with_context (λ c, match dict_get key c with
                     | None => dict_set key (VList [v]) c
                     | Some (VList l) => dict_set key (VList (l ++ [v])) c
                     | Some _ => c
                     end) ctx.

Fixpoint stream_downstream (s : DagStep) (chunk : value) (enriched : dict) (ds : list string)
    (k : exn + unit -> sprog) : sprog :=
  match ds with
  | [] => k (inr tt)
  | d :: ds' =>
      lift (dispatch (capability s) d (dict_update [("chunk", chunk)] enriched)) (λ r,
        match r with
        | inr v => SCtx (accumulate d v) (stream_downstream s chunk enriched ds' k)
        | inl e => if is_exception e then stream_downstream s chunk enriched ds' k else k (inl e)
        end)
  end.

(** [chunk.get("summary", {})] restricted to the step's output mapping *)
Definition stream_result (s : DagStep) (chunk : dict) : exn + value :=
  match mapped (output_mapping s) (dict_get_or "summary" (VDict []) chunk) with
  | inl e => inl e
  | inr l => inr (VDict (dict_update [] l))
  end.

(** The loop; [left] is the number of chunks still allowed ([max_chunks] minus
    [chunks_received]). *)
Fixpoint stream_loop (eng : engine) (s : DagStep) (t : StreamingTrigger) (key : string)
    (enriched : dict) (deadline : Z) (left : nat) (k : exn + value -> sprog) {struct left} : sprog :=
  lift time_ms (λ now,
    let remaining := deadline - default 0 (match now with inr z => Some z | inl _ => None end) in
    if remaining <=? 0
    then lift (stream_delete eng key) (λ r,
           k (inl (match r with inl e => e | inr _ => Exn TimeoutError "STREAMING step exceeded timeout" end)))
    else
    match left with
    | O => lift (stream_delete eng key) (λ r,
             k (inl (match r with inl e => e | inr _ => Exn RuntimeError "STREAMING step exceeded max_chunks" end)))
    | S left' =>
        lift (pop_chunk eng key (Z.min 30 (remaining / 1000 + 1))) (λ r,
          match r with
          | inl e => k (inl e)
          | inr None => k (inl (Exn TimeoutError "STREAMING: blpop timeout"))
          | inr (Some raw) =>
              match default (VDict [("__raw__", VStr raw)]) (json_loads raw) with
              | VDict chunk =>
                  if truthy (dict_get_or "__done__" VNone chunk)
                  then
                    if truthy (dict_get_or "__error__" VNone chunk)
                    then k (inl (Exn RuntimeError "STREAMING step error"))
                    else match stream_result s chunk with
                         | inl e => k (inl e)
                         | inr res =>
                             lift (if flush_on_complete t then stream_delete eng key else ret tt) (λ r,
                               k (match r with inl e => inl e | inr _ => inr res end))
                         end
                  else stream_downstream s (VDict chunk) enriched (downstream_steps t) (λ r,
                         match r with
                         | inl e => k (inl e)
                         | inr _ => stream_loop eng s t key enriched deadline left' k
                         end)
              | _ => k (inl (Exn AttributeError "chunk has no attribute 'get'"))
              end
          end)
    end).

Definition max_chunks : Z := 100000.
#[global] Opaque max_chunks.

(** [step.timeout_seconds or 3600] *)
Definition stream_timeout (s : DagStep) : Z :=
  if timeout_seconds s =? 0 then 3600 else timeout_seconds s.

Definition streaming_step (eng : engine) (s : DagStep) (t : StreamingTrigger) (ctx : DagContext)
    (input : dict) (k : exn + value -> sprog) : sprog :=
  let key := stream_key t ctx in
  let enriched := dict_set "_streaming_buffer_key" (VStr key) input in
  lift (dispatch (capability s) (step_name s) enriched) (λ r,
    match r with
    | inl e => k (inl e)
    | inr _ =>
        lift (do* sleep 0 in time_ms) (λ r,
          match r with
          | inl e => k (inl e)
          | inr now => stream_loop eng s t key enriched (now + stream_timeout s * 1000)
                         (Z.to_nat max_chunks) k
          end)
    end).

(** [except Exception]: drop the buffer, then the step's failure policy. *)
Definition stream_end (eng : engine) (s : DagStep) (t : StreamingTrigger) (ctx : DagContext)
    (r : exn + value) : sprog :=
  match r with
  | inr v => SRet (inr v)
  | inl e =>
      if is_exception e
      then lift (stream_delete eng (stream_key t ctx)) (λ d,
             SRet (match d with inl e' => inl e' | inr _ => on_exhausted s e end))
      else SRet (inl e)
  end.

Definition streaming_section (eng : engine) (s : DagStep) (t : StreamingTrigger) (input : dict)
    (ctx : DagContext) : sprog :=
  streaming_step eng s t ctx input (stream_end eng s t ctx).

(** The body of [async with semaphore]. *)
Definition section (eng : engine) (s : DagStep) (input : dict) (ctx : DagContext) : sprog :=
  match map_over s, step_kind s, streaming_trigger s with
  | Some (String c key), KMAP, _ => map_section s (String c key) input ctx
  | _, KSTREAMING, Some t => streaming_section eng s t input ctx
  | _, _, _ => normal_section s input
  end.

(** ** Finishing a step *)

(** Output mapping, [step_results] and [completed_steps]. *)
Definition record (s : DagStep) (res : value) (upd : dict) (ctx : DagContext) : DagContext :=
  with_completed (step_name s)
    (with_result (step_name s) res (with_context (λ c, dict_update c upd) ctx)).

Definition ctx_value (c : DagContext) : value :=
  VDict [("task_id", VStr (ctx_task_id c)); ("dag_id", VStr (ctx_dag_id c));
         ("tenant_id", VStr (ctx_tenant_id c)); ("input_data", VDict (ctx_input_data c));
         ("context", VDict (ctx_context c)); ("step_results", VDict (ctx_step_results c));
         ("completed_steps", VList (map VStr (ctx_completed_steps c)))].

(** [if self._store: await self._store.save(ctx)] *)
Definition save (eng : engine) (ctx : DagContext) (res : value) : prog (exn + value) :=
  if has_store eng
  then do* invoke "store.save" (ctx_value ctx) in ret res
  else ret res.

(** ** Threads *)

Inductive thread :=
| TNew
| TWait (input : dict)
| TRun (p : sprog)
| TSave (p : prog (exn + value))
| TDone (r : exn + value).

Definition is_running (t : DagStep * thread) : bool :=
  match t.2 with TRun _ => true | _ => false end.

Definition running (ts : list (DagStep * thread)) : nat := length (filter (λ t, is_running t = true) ts).

Section Machine.
Context {S : Services} {E : Env}.

Record wave_state := WaveState {
  ws_ctx : DagContext;
  ws_threads : list (DagStep * thread);
  ws_world : world S
}.

(** One atomic step of a thread. *)
Definition thread_next (eng : engine) (limit : nat) (n_running : nat) (s : DagStep) (t : thread)
    (ctx : DagContext) (w : world S) : thread * DagContext * world S :=
  match t with
  | TNew =>
      match condition s with
      | Some c =>
          if safe_eval_condition c ctx then (TWait (build_input s ctx), ctx, w)
          else (TDone (inr (VDict [])), with_completed (step_name s) ctx, w)
      | None => (TWait (build_input s ctx), ctx, w)
      end
  | TWait input =>
      if (n_running <? limit)%nat then (TRun (section eng s input ctx), ctx, w) else (t, ctx, w)
  | TRun (SVis e k) => let '(w', x) := step e w in (TRun (k x), ctx, w')
  | TRun (SCtx f k) => (TRun k, f ctx, w)
  | TRun (SRet (inl e)) => (TDone (inl e), ctx, w)
  | TRun (SRet (inr res)) =>
      match mapped (output_mapping s) res with
      | inl e => (TDone (inl e), ctx, w)
      | inr upd => (TSave (save eng (record s res upd ctx) res), record s res upd ctx, w)
      end
  | TSave (Vis e k) => let '(w', x) := step e w in (TSave (k x), ctx, w')
  | TSave (Ret r) => (TDone r, ctx, w)
  | TDone _ => (t, ctx, w)
  end.

Definition wave_step (eng : engine) (limit : nat) (st : wave_state) (i : nat) : wave_state :=
  match ws_threads st !! i with
  | Some (s, t) =>
      let '(t', ctx', w') := thread_next eng limit (running (ws_threads st)) s t (ws_ctx st) (ws_world st) in
      WaveState ctx' (<[i := (s, t')]> (ws_threads st)) w'
  | None => st
  end.

Definition wave_run (eng : engine) (limit : nat) (sched : list nat) (st : wave_state) : wave_state :=
  foldl (wave_step eng limit) st sched.

Definition outcomes (st : wave_state) : option (list (DagStep * (exn + value))) :=
  mapM (λ t, match t.2 with TDone r => Some (t.1, r) | _ => None end) (ws_threads st).

(** [isinstance(res, Exception)] of a step that aborts *)
Definition aborts (sr : DagStep * (exn + value)) : bool :=
  match on_failure sr.1, sr.2 with ABORT, inl e => is_exception e | _, _ => false end.

(** [step_map[sn] for sn in wave] *)
Definition step_of (ss : list DagStep) (sn : string) : option DagStep :=
  last (filter (λ s, step_name s = sn) ss).

Definition start_wave (ss : list DagStep) (wave : list string) : list (DagStep * thread) :=
  omap (λ sn, (λ s, (s, TNew)) <$> step_of ss sn) wave.

(** The loop over the waves, one schedule per wave; [None]: a schedule ends before
    its wave is done. *)
Fixpoint run_waves (eng : engine) (limit : nat) (ss : list DagStep) (waves : list (list string))
    (scheds : list (list nat)) (ctx : DagContext) (w : world S) : option (DagContext * world S) :=
  match waves with
  | [] => Some (with_dag_status DAG_COMPLETED ctx, w)
  | wave :: waves' =>
      match scheds with
      | [] => None
      | sched :: scheds' =>
          let st := wave_run eng limit sched (WaveState ctx (start_wave ss wave) w) in
          match outcomes st with
          | None => None
          | Some rs =>
              if existsb aborts rs then Some (with_dag_status DAG_FAILED (ws_ctx st), ws_world st)
              else run_waves eng limit ss waves' scheds' (ws_ctx st) (ws_world st)
          end
      end
  end.
End Machine.
Arguments WaveState {_}.
Arguments ws_ctx {_}.
Arguments ws_threads {_}.
Arguments ws_world {_}.

(** [min(self._max_parallelism, dag_def.max_concurrent or self._max_parallelism)] *)
Definition parallelism (eng : engine) (d : DagDefinition) : Z :=
  Z.min (max_parallelism eng)
        (match dag_max_concurrent d with Some 0 | None => max_parallelism eng | Some n => n end).

(** [(initial_context or {}).get("task_id") or dag_def.dag_id], a [str] field of the
    pydantic model: anything else that is truthy is refused. *)
Definition context_task_id (d : DagDefinition) (init : dict) : exn + string :=
  match py_or (dict_get_or "task_id" VNone init) (VStr (dag_id d)) with
  | VStr t => inr t
  | _ => inl (Exn ValueError "Input should be a valid string")
  end.

Definition initial_ctx (d : DagDefinition) (init : dict) : exn + DagContext :=
  match context_task_id d init with
  | inl e => inl e
  | inr t => inr {| ctx_task_id := t;
                    ctx_dag_id := dag_id d; ctx_tenant_id := dag_tenant_id d;
                    ctx_input_data := init; ctx_context := init; ctx_step_results := [];
                    ctx_completed_steps := []; ctx_status := DAG_RUNNING |}
  end.

(** [execute]; a negative semaphore value raises. *)
Definition execute_dag {S : Services} {E : Env} (eng : engine) (d : DagDefinition) (init : dict)
    (scheds : list (list nat)) (w : world S) : option ((exn + DagContext) * world S) :=
  match initial_ctx d init with
  | inl e => Some (inl e, w)
  | inr ctx0 =>
      match topo_sort (steps d) with
      | [] => Some (inr (with_dag_status DAG_COMPLETED ctx0), w)
      | order =>
          if parallelism eng d <? 0
          then Some (inl (Exn ValueError "Semaphore initial value must be >= 0"), w)
          else match run_waves eng (Z.to_nat (parallelism eng d)) (steps d) order scheds ctx0 w with
               | Some (ctx, w') => Some (inr ctx, w')
               | None => None
               end
      end
  end.
