(* ===== verification/DagProps.v ===== *)
(** * Properties of DAG execution

    For every environment and every interleaving of a wave's steps: the
    semaphore bounds the sections in progress, a wave can always be driven to its
    end, results are recorded in dependency order, and the run's final status says
    what happened to the aborting steps. *)

From stdpp Require Import base gmap strings list.
From S2P Require Import Prelude PyValue Json Redis Effects DagModel DagTopo DagCondition DagEngine.

Open Scope Z_scope.

Lemma running_insert ts i s t s' t' : ts !! i = Some (s, t) ->
  running (<[i := (s', t')]> ts) =
  (running ts - (if is_running (s, t) then 1 else 0) + (if is_running (s', t') then 1 else 0))%nat /\
  ((if is_running (s, t) then 1 else 0) <= running ts)%nat.
Proof.
  unfold running. revert i. induction ts as [|x ts IH]; intros [|i] H; simplify_eq/=.
  - rewrite !filter_cons. destruct (is_running (s, t)), (is_running (s', t')); simpl; lia.
  - rewrite !filter_cons. destruct (IH i H) as [IH1 IH2].
    destruct (is_running x); simpl in *; destruct (is_running (s, t)), (is_running (s', t')); simpl in *; lia.
Qed.

Section Bounded.
Context {S : Services} {E : Env} (eng : engine) (limit : nat).

Lemma wave_step_running (st : wave_state (S := S)) i :
  (running (ws_threads st) <= limit)%nat -> (running (ws_threads (wave_step eng limit st i)) <= limit)%nat.
Proof.
  intros Hle. unfold wave_step. destruct (ws_threads st !! i) as [[s t]|] eqn:Ei; [|done].
  destruct (thread_next _ _ _ _ _ _ _) as [[t' c'] w'] eqn:En. simpl.
  destruct (running_insert _ _ _ _ s t' Ei) as [-> Hpos].
  assert (is_running (s, t') = true -> is_running (s, t) = true \/ (running (ws_threads st) < limit)%nat) as Hr.
  { intros Hr. unfold thread_next in En. destruct t as [|inp|[[?|?]|? ? ?|? ?]|[?|? ? ?]|?]; simpl in *; auto.
    all: try (destruct (step _ _)); repeat case_match; simplify_eq; try done.
    right. by apply Nat.ltb_lt. }
  destruct (is_running (s, t')); [|lia]. destruct Hr as [Hx|Hlt]; [done|rewrite Hx in *; lia|].
  destruct (is_running (s, t)); lia.
Qed.

Lemma wave_run_running sched : ∀ st : wave_state (S := S),
  (running (ws_threads st) <= limit)%nat -> (running (ws_threads (wave_run eng limit sched st)) <= limit)%nat.
Proof.
  induction sched as [|i sched IH]; intros st H; [done|]. apply IH. by apply wave_step_running.
Qed.
End Bounded.

Lemma start_wave_new ss wave : Forall (λ t, t.2 = TNew) (start_wave ss wave).
Proof.
  unfold start_wave. induction wave as [|n wave IH]; [constructor|]. simpl.
  destruct (step_of ss n); simpl; [by constructor|done].
Qed.

Lemma start_wave_running ss wave : running (start_wave ss wave) = O.
Proof.
  pose proof (start_wave_new ss wave) as H. unfold running. induction H as [|[s t] ts Ht Hts IH]; [done|].
  simpl in Ht. subst. by rewrite filter_cons.
Qed.

(** ** No deadlock *)

Definition is_done (t : DagStep * thread) : bool := match t.2 with TDone _ => true | _ => false end.

Definition unfinished (ts : list (DagStep * thread)) : nat := length (filter (λ t, is_done t = false) ts).

Section Progress.
Context {S : Services} {E : Env} (eng : engine) (limit : nat).
Notation St := (wave_state (S := S)).

(** [drives i st]: scheduling thread [i] alone, often enough, ends it and leaves
    the other threads where they are. *)
Definition drives (i : nat) (st : St) : Prop :=
  ∃ sched s r, ws_threads (wave_run eng limit sched st) = <[i := (s, TDone r)]> (ws_threads st).

Lemma drives_step i st s t : ws_threads st !! i = Some (s, t) ->
  (∃ t', ws_threads (wave_step eng limit st i) = <[i := (s, t')]> (ws_threads st)) ->
  drives i (wave_step eng limit st i) -> drives i st.
Proof.
  intros Hi [t' Ht'] (sched & s' & r & Hd). exists (i :: sched), s', r. simpl.
  unfold wave_run in *. simpl. by rewrite Hd, Ht', list_insert_insert_eq.
Qed.

Lemma step_shape i st s t : ws_threads st !! i = Some (s, t) ->
  ∃ t', ws_threads (wave_step eng limit st i) = <[i := (s, t')]> (ws_threads st).
Proof.
  intros Hi. unfold wave_step. rewrite Hi.
  destruct (thread_next _ _ _ _ _ _ _) as [[t' c'] w']. simpl. eauto.
Qed.

Lemma drives_done i st s r : ws_threads st !! i = Some (s, TDone r) -> drives i st.
Proof. intros Hi. exists [], s, r. simpl. by rewrite list_insert_id. Qed.

Lemma lookup_step i st s t t' : ws_threads st !! i = Some (s, t) ->
  ws_threads (wave_step eng limit st i) = <[i := (s, t')]> (ws_threads st) ->
  ws_threads (wave_step eng limit st i) !! i = Some (s, t').
Proof. intros Hi ->. apply list_lookup_insert_eq. by eapply lookup_lt_Some. Qed.

Lemma drives_save p : ∀ i st s, ws_threads st !! i = Some (s, TSave p) -> drives i st.
Proof.
  induction p as [r|X e k IH]; intros i st s Hi; (eapply drives_step; [done|by eapply step_shape|]).
  - eapply drives_done. unfold wave_step. rewrite Hi. simpl. apply list_lookup_insert_eq. by eapply lookup_lt_Some.
  - destruct (step e (ws_world st)) as [w' x] eqn:Es. eapply (IH x). unfold wave_step. rewrite Hi. simpl.
    rewrite Es. simpl. apply list_lookup_insert_eq. by eapply lookup_lt_Some.
Qed.

Lemma drives_run p : ∀ i st s, ws_threads st !! i = Some (s, TRun p) -> drives i st.
Proof.
  induction p as [r|X e k IH|f k IH]; intros i st s Hi; (eapply drives_step; [done|by eapply step_shape|]).
  - assert (∃ t', ws_threads (wave_step eng limit st i) !! i = Some (s, t') /\
                  ((∃ r, t' = TDone r) \/ ∃ p, t' = TSave p)) as (t' & Ht' & Hcase).
    { unfold wave_step. rewrite Hi. simpl. destruct r as [e|res]; [|destruct (mapped _ _)]; simpl;
        (eexists; split; [apply list_lookup_insert_eq; by eapply lookup_lt_Some|eauto]). }
    destruct Hcase as [[? ->]|[? ->]]; [by eapply drives_done|by eapply drives_save].
  - destruct (step e (ws_world st)) as [w' x] eqn:Es. eapply (IH x). unfold wave_step. rewrite Hi. simpl.
    rewrite Es. simpl. apply list_lookup_insert_eq. by eapply lookup_lt_Some.
  - eapply IH. unfold wave_step. rewrite Hi. simpl. apply list_lookup_insert_eq. by eapply lookup_lt_Some.
Qed.

Lemma drives_wait i st s inp : ws_threads st !! i = Some (s, TWait inp) ->
  (running (ws_threads st) < limit)%nat -> drives i st.
Proof.
  intros Hi Hr. eapply drives_step; [done|by eapply step_shape|].
  eapply (drives_run (section eng s inp (ws_ctx st)) i _ s). unfold wave_step. rewrite Hi. simpl.
  apply Nat.ltb_lt in Hr. rewrite Hr. simpl. apply list_lookup_insert_eq. by eapply lookup_lt_Some.
Qed.

Lemma drives_new i st s : ws_threads st !! i = Some (s, TNew) ->
  (running (ws_threads st) < limit)%nat -> drives i st.
Proof.
  intros Hi Hr. eapply drives_step; [done|by eapply step_shape|].
  assert (∃ t', ws_threads (wave_step eng limit st i) = <[i := (s, t')]> (ws_threads st) /\
    ((∃ r, t' = TDone r) \/ ∃ p, t' = TWait p)) as (t' & Ht' & Hcase).
  { unfold wave_step. rewrite Hi. simpl.
    destruct (condition s) as [c|]; [destruct (safe_eval_condition _ _)|]; simpl; eauto 10. }
  pose proof (lookup_step _ _ _ _ _ Hi Ht') as Hl.
  destruct Hcase as [[? ->]|[? ->]]; [by eapply drives_done|]. eapply drives_wait; [done|].
  rewrite Ht'. edestruct (running_insert _ _ _ _ s (TWait x) Hi) as [-> _]. simpl. lia.
Qed.

Lemma drives_any i st s t : ws_threads st !! i = Some (s, t) ->
  is_running (s, t) = true \/ (running (ws_threads st) < limit)%nat -> drives i st.
Proof.
  intros Hi Hr. destruct t as [|inp|p|p|r].
  - eapply drives_new; [done|]. by destruct Hr.
  - eapply drives_wait; [done|]. by destruct Hr.
  - by eapply drives_run.
  - by eapply drives_save.
  - by eapply drives_done.
Qed.
End Progress.

Lemma unfinished_insert ts i s t s' r : ts !! i = Some (s, t) -> is_done (s, t) = false ->
  unfinished ts = Datatypes.S (unfinished (<[i := (s', TDone r)]> ts)).
Proof.
  unfold unfinished. revert i. induction ts as [|x ts IH]; intros [|i] H Hd; simplify_eq/=.
  - rewrite !filter_cons, Hd. done.
  - rewrite !filter_cons. destruct (is_done x); simpl; by rewrite (IH i).
Qed.

Lemma unfinished_pick ts : unfinished ts <> O ->
  ∃ i s t, ts !! i = Some (s, t) /\ is_done (s, t) = false /\
           (is_running (s, t) = true \/ running ts = O).
Proof.
  intros Hu. destruct (filter (λ t, is_running t = true) ts) as [|[s t] l] eqn:Er.
  - destruct (filter (λ t, is_done t = false) ts) as [|[s t] l] eqn:Ed.
    { unfold unfinished in Hu. by rewrite Ed in Hu. }
    assert ((s, t) ∈ filter (λ t, is_done t = false) ts) as [Hd Hin]%list_elem_of_filter by (rewrite Ed; set_solver).
    apply list_elem_of_lookup in Hin as [i Hi]. exists i, s, t. split_and!; [done|done|].
    right. unfold running. by rewrite Er.
  - assert ((s, t) ∈ filter (λ t, is_running t = true) ts) as [Hd Hin]%list_elem_of_filter by (rewrite Er; set_solver).
    apply list_elem_of_lookup in Hin as [i Hi]. exists i, s, t. split_and!; [done| |by left].
    unfold is_running, is_done in *. simpl in *. by destruct t.
Qed.

Lemma outcomes_all_done {S : Services} (st : wave_state (S := S)) :
  unfinished (ws_threads st) = O -> ∃ rs, outcomes st = Some rs.
Proof.
  unfold outcomes. destruct st as [c ts w]. simpl. unfold unfinished.
  induction ts as [|[s t] ts IH]; simpl; [eauto|]. rewrite filter_cons. unfold is_done at 1. simpl.
  destruct t; try done. simpl. intros H. destruct (IH H) as [rs ->]. simpl. eauto.
Qed.

Lemma wave_run_app {S : Services} {E : Env} eng limit l1 l2 (st : wave_state (S := S)) :
  wave_run eng limit (l1 ++ l2) st = wave_run eng limit l2 (wave_run eng limit l1 st).
Proof. apply foldl_app. Qed.

Lemma wave_finishes {S : Services} {E : Env} eng limit (Hl : (1 <= limit)%nat) :
  ∀ st : wave_state (S := S), ∃ sched rs, outcomes (wave_run eng limit sched st) = Some rs.
Proof.
  intros st. remember (unfinished (ws_threads st)) as n eqn:Hn. revert st Hn.
  induction n as [|n IH]; intros st Hn.
  - destruct (outcomes_all_done st) as [rs Hrs]; [done|]. by exists [], rs.
  - destruct (unfinished_pick (ws_threads st)) as (i & s & t & Hi & Hd & Hr); [lia|].
    destruct (drives_any eng limit i st s t Hi) as (sched & s' & r & Hdr).
    { destruct Hr as [|Hr]; [by left|right; lia]. }
    pose proof (unfinished_insert _ _ _ _ s' r Hi Hd) as Hu.
    destruct (IH (wave_run eng limit sched st)) as (sched' & rs & Hrs); [rewrite Hdr; lia|].
    exists (sched ++ sched'), rs. by rewrite wave_run_app.
Qed.

Lemma run_waves_finishes {S : Services} {E : Env} eng limit ss (Hl : (1 <= limit)%nat) waves :
  ∀ ctx (w : world S), ∃ scheds r, run_waves eng limit ss waves scheds ctx w = Some r.
Proof.
  induction waves as [|wave waves IH]; intros ctx w; [by exists []; eauto|].
  destruct (wave_finishes eng limit Hl (WaveState ctx (start_wave ss wave) w)) as (sched & rs & Hrs).
  destruct (existsb aborts rs) eqn:Ea.
  - exists [sched]. simpl. rewrite Hrs, Ea. eauto.
  - destruct (IH (ws_ctx (wave_run eng limit sched (WaveState ctx (start_wave ss wave) w)))
                 (ws_world (wave_run eng limit sched (WaveState ctx (start_wave ss wave) w)))) as (scheds & r & Hr).
    exists (sched :: scheds), r. simpl. by rewrite Hrs, Ea.
Qed.

(** C7: the engine's concurrency is bounded and cannot deadlock.  Whatever the
    interleaving, at most [limit] steps of a wave are inside the semaphore at a
    time; from every state a wave can reach, some continuation ends every step of
    it (retries, MAP and STREAMING loops included, a step that fails included); and
    so a run of any DAG with a positive parallelism has a completion, unless the
    task identifier in its initial context is refused, which ends it at once. *)
Theorem dag_bounded_and_live {S : Services} {E : Env} (eng : engine) (d : DagDefinition) (init : dict)
    (w : world S) (Hpar : 1 <= parallelism eng d) :
  let limit := Z.to_nat (parallelism eng d) in
  (∀ wave ctx w0 sched,
     (running (ws_threads (wave_run eng limit sched (WaveState ctx (start_wave (steps d) wave) w0))) <= limit)%nat) /\
  (∀ wave ctx w0 sched, ∃ sched' rs,
     outcomes (wave_run eng limit (sched ++ sched') (WaveState ctx (start_wave (steps d) wave) w0)) = Some rs) /\
  match initial_ctx d init with
  | inl e => ∀ scheds, execute_dag eng d init scheds w = Some (inl e, w)
  | inr _ => ∃ scheds ctx w', execute_dag eng d init scheds w = Some (inr ctx, w')
  end.
Proof.
  intros limit. assert (Hl : (1 <= limit)%nat) by lia. split; [|split].
  - intros wave ctx w0 sched. apply wave_run_running. simpl. rewrite start_wave_running. lia.
  - intros wave ctx w0 sched.
    destruct (wave_finishes eng limit Hl (wave_run eng limit sched (WaveState ctx (start_wave (steps d) wave) w0)))
      as (sched' & rs & H). exists sched', rs. by rewrite wave_run_app.
  - unfold execute_dag. destruct (initial_ctx d init) as [e|ctx0]; [done|].
    destruct (topo_sort (steps d)) as [|wv wvs] eqn:Et; [by exists [], (with_dag_status DAG_COMPLETED ctx0), w|].
    destruct (run_waves_finishes eng limit (steps d) Hl (wv :: wvs) ctx0 w) as (scheds & [c w'] & Hr).
    exists scheds, c, w'. destruct (_ <? 0) eqn:Elt; [apply Z.ltb_lt in Elt; lia|]. fold limit. by rewrite Hr.
Qed.

(** ** What a section may do: no cancellation out of nothing, no bookkeeping *)

(** An answer that is not a cancellation. *)
Definition calm_answer {X} (e : eff X) : X -> Prop :=
  match e in eff X return X -> Prop with
  | EHttp _ => λ x, ∀ c, x = inl c -> is_exception c = true
  | EInvoke _ _ => λ x, ∀ c, x = inl c -> is_exception c = true
  | _ => λ _, True
  end.

(** No call made by a step is cancelled. *)
Definition no_cancel (E : Env) : Prop :=
  (∀ n r c, http_answer n r = inl c -> is_exception c = true) /\
  (∀ n what v c, invoke_answer n what v = inl c -> is_exception c = true).

Lemma step_calm {S : Services} {E : Env} {X} (e : eff X) (w : world S) :
  no_cancel E -> calm_answer e (step e w).2.
Proof. intros [H1 H2]. destruct e; simpl; try done; intros c; [apply H1|apply H2]. Qed.

Section Tame.
Context (NC : Prop).

Inductive tame : sprog -> Prop :=
| tame_ok v : tame (SRet (inr v))
| tame_err e : (NC -> is_exception e = true) -> tame (SRet (inl e))
| tame_vis X (e : eff X) k : (∀ x, (NC -> calm_answer e x) -> tame (k x)) -> tame (SVis e k)
| tame_ctx f k : (∀ c, ctx_completed_steps (f c) = ctx_completed_steps c) -> tame k -> tame (SCtx f k).

Lemma tame_inv p : tame p ->
  match p with
  | SRet (inr _) => True
  | SRet (inl e) => NC -> is_exception e = true
  | SVis e k => ∀ x, (NC -> calm_answer e x) -> tame (k x)
  | SCtx f k => (∀ c, ctx_completed_steps (f c) = ctx_completed_steps c) /\ tame k
  end.
Proof. intros H. by destruct H. Qed.

(** [may m a]: the program can end with [a]. *)
Fixpoint may {A} (m : prog A) (a : A) : Prop :=
  match m with
  | Ret b => a = b
  | Vis e h => ∃ x, (NC -> calm_answer e x) /\ may (h x) a
  end.

Definition polite {A} (m : M A) : Prop := ∀ e, may m (inl e) -> NC -> is_exception e = true.

Lemma tame_lift {A} (m : prog A) k : (∀ a, may m a -> tame (k a)) -> tame (lift m k).
Proof.
  induction m as [a|X e h IH]; simpl; intros H; [by apply H|].
  constructor. intros x Hx. apply IH. intros a Ha. eauto.
Qed.

Lemma may_pbind {A B} (m : prog A) (f : A -> prog B) b : may (pbind m f) b -> ∃ a, may m a /\ may (f a) b.
Proof.
  induction m as [a|X e h IH]; simpl; [eauto|]. intros (x & Hx & Hb). destruct (IH x Hb) as (a & Ha & Hb'). eauto.
Qed.

Lemma polite_bind {A B} (m : M A) (f : A -> M B) : polite m -> (∀ a, polite (f a)) -> polite (bind m f).
Proof.
  intros Hm Hf e (r & Hr & He)%may_pbind. destruct r as [c|a]; [|by apply Hf in He].
  simpl in He. injection He as ->. by apply Hm.
Qed.

Lemma polite_raise {A} e : is_exception e = true -> polite (raise e : M A).
Proof. intros H c [= ->]. done. Qed.

Lemma polite_ret {A} (a : A) : polite (ret a).
Proof. by intros c [=]. Qed.

Lemma polite_invoke what v : polite (invoke what v).
Proof. intros e (x & Hx & <-) Hnc. by apply (Hx Hnc). Qed.

Lemma polite_http r : polite (http r).
Proof. intros e (x & Hx & <-) Hnc. by apply (Hx Hnc). Qed.

Lemma attempt_total {A} (m : M A) e : ~ may (attempt_ m) (inl e).
Proof. by intros (r & _ & [=])%may_pbind. Qed.

Lemma may_attempt {A} (m : M A) r : may (attempt_ m) (inr r) -> may m r.
Proof. by intros (r' & H & [= ->])%may_pbind. Qed.

Lemma polite_except {A} (m : M A) h : (∀ e, is_exception e = true -> polite (h e)) -> polite m -> polite (except m h).
Proof.
  intros Hh Hm e (r & Hr & He)%may_pbind Hnc. destruct r as [c|a]; [|done].
  pose proof (Hm c Hr Hnc) as Hc. rewrite Hc in He. by apply (Hh c Hc).
Qed.

Lemma polite_flask url payload : polite (flask_dispatch url payload).
Proof.
  apply polite_bind; [apply polite_http|]. intros a. apply polite_bind.
  - unfold raise_for_status. case_match; [apply polite_ret|by apply polite_raise].
  - intros _. case_match; [apply polite_ret|by apply polite_raise].
Qed.

Lemma polite_once s input : polite (dispatch_once s input).
Proof. unfold dispatch_once. destruct (execution_mode s); (apply polite_invoke || apply polite_flask). Qed.

Lemma polite_delete eng key : polite (stream_delete eng key).
Proof.
  unfold stream_delete. destruct (stream_redis eng); [apply polite_ret| |];
    (apply polite_bind; [apply polite_invoke|intros _]); [apply polite_ret|by apply polite_raise].
Qed.

Lemma polite_pop eng key t : polite (pop_chunk eng key t).
Proof.
  unfold pop_chunk. destruct (stream_redis eng); [apply polite_ret| |].
  - apply polite_bind; [apply polite_invoke|intros a; apply polite_ret].
  - intros e (r & Hr & He)%may_pbind Hnc. destruct r as [c|r]; [by apply attempt_total in Hr|].
    apply may_attempt in Hr. destruct r as [c|v].
    + pose proof (polite_invoke _ _ c Hr Hnc) as Hc. rewrite Hc in He. done.
    + repeat case_match; simplify_eq/=; try done.
Qed.

Lemma tame_exhausted s e : (NC -> is_exception e = true) -> tame (SRet (on_exhausted s e)).
Proof. intros H. unfold on_exhausted. repeat case_match; constructor; done. Qed.

Lemma tame_attempts s input n : tame (attempts s input n).
Proof.
  induction n as [|n IH]; simpl; apply tame_lift; intros [e|v] Hm; try constructor;
    pose proof (polite_once s input e Hm) as He; destruct (is_exception e) eqn:Ee;
    try (constructor; intros; naive_solver congruence).
  by apply tame_exhausted.
Qed.

Lemma tame_normal s input : tame (normal_section s input).
Proof. unfold normal_section. case_match; [constructor|apply tame_attempts]. Qed.

Lemma results_err_exn rs e l : results_err rs = e :: l -> is_exception e = true.
Proof.
  induction rs as [|[c|v] rs IH]; simpl; [done| |done].
  destruct (is_exception c) eqn:Ec; [|done]. by intros [= <- _].
Qed.

Lemma tame_map s key input items : ∀ idx k, (∀ rs, tame (k rs)) -> tame (map_gather s key input idx items k).
Proof.
  induction items as [|x items IH]; intros idx k Hk; cbn [map_gather]; [apply Hk|].
  apply tame_lift. intros r Hr. apply IH. intros rs. apply Hk.
Qed.

Lemma tame_map_section s key input ctx : tame (map_section s key input ctx).
Proof.
  apply tame_map. intros rs. unfold map_collect.
  destruct (results_err rs) eqn:Ee; [constructor|]. case_match; [|constructor].
  apply tame_exhausted. intros _. by eapply results_err_exn.
Qed.

Lemma accumulate_completed ds v c : ctx_completed_steps (accumulate ds v c) = ctx_completed_steps c.
Proof. done. Qed.

Lemma tame_downstream s chunk enriched ds k : (∀ r, (∀ e, r = inl e -> NC -> is_exception e = true) -> tame (k r)) ->
  tame (stream_downstream s chunk enriched ds k).
Proof.
  intros Hk. induction ds as [|d ds IH]; cbn [stream_downstream]; [by apply Hk|].
  apply tame_lift. intros [e|v] Hm.
  - destruct (is_exception e) eqn:Ee; [done|]. apply Hk. intros c [= <-]. by apply (polite_invoke _ _ e Hm).
  - constructor; [intros; apply accumulate_completed|done].
Qed.

Lemma mapped_exn m v e : mapped m v = inl e -> is_exception e = true.
Proof.
  induction m as [|[dst src] m IH]; simpl; [done|].
  destruct (lookup_in src v) as [c|o] eqn:El.
  - intros [= <-]. unfold lookup_in in El. repeat case_match; by simplify_eq.
  - destruct (mapped m v); [|done]. intros [= <-]. by apply IH.
Qed.

Lemma tame_stream_loop eng s t key enriched deadline k :
  (∀ r, (∀ e, r = inl e -> NC -> is_exception e = true) -> tame (k r)) ->
  ∀ n, tame (stream_loop eng s t key enriched deadline n k).
Proof.
  intros Hk. assert (Hdel : ∀ c, is_exception c = true -> tame (lift (stream_delete eng key)
    (λ r, k (inl (match r with inl e => e | inr _ => c end))))).
  { intros c Hc. apply tame_lift. intros [e|a] Hm; apply Hk; intros ? [= <-] Hnc; [|done].
    by eapply polite_delete. }
  induction n as [|n IH]; cbn [stream_loop]; apply tame_lift; intros now _; (destruct (_ <=? 0); [by apply Hdel|]); [by apply Hdel|].
  apply tame_lift. intros [e|[raw|]] Hm.
  - apply Hk. intros ? [= <-] Hnc. by eapply polite_pop.
  - destruct (default _ (json_loads raw)) as [| | | | | |chunk]; try (by apply Hk; intros ? [= <-]).
    destruct (truthy _); [destruct (truthy _); [by apply Hk; intros ? [= <-]|]|].
    + destruct (stream_result s chunk) as [e|res] eqn:Er.
      * apply Hk. intros ? [= <-] _. unfold stream_result in Er.
        destruct (mapped _ _) eqn:Em; simplify_eq. by eapply mapped_exn.
      * apply tame_lift. intros r Hr. apply Hk. intros e He Hnc. destruct r as [c|[]]; simplify_eq.
        destruct (flush_on_complete t); [by eapply polite_delete|by inversion Hr].
    + apply tame_downstream. intros [e|[]] He; [by apply Hk; intros ? [= <-]; apply He|apply IH].
  - by apply Hk; intros ? [= <-].
Qed.

Lemma tame_streaming eng s t input ctx : tame (streaming_section eng s t input ctx).
Proof.
  unfold streaming_section, streaming_step.
  assert (Hk : ∀ r, (∀ e, r = inl e -> NC -> is_exception e = true) -> tame (stream_end eng s t ctx r)).
  { intros [e|v] He; unfold stream_end; [|constructor].
    destruct (is_exception e) eqn:Ee; [|constructor; intros Hnc; by apply He].
    apply tame_lift. intros [c|[]] Hm; [constructor; by eapply polite_delete|by apply tame_exhausted]. }
  apply tame_lift. intros [e|v] Hm.
  - apply Hk. intros ? [= <-]. by apply (polite_invoke _ _ e Hm).
  - apply tame_lift. intros [e|now] Hm'; [|by apply tame_stream_loop].
    apply Hk. intros ? [= <-]. destruct Hm' as (x & _ & y & _ & [=]).
Qed.

Lemma tame_section eng s input ctx : tame (section eng s input ctx).
Proof.
  unfold section. repeat case_match; first [apply tame_normal|apply tame_map_section|apply tame_streaming].
Qed.
End Tame.

(** ** What a wave records *)

Definition tname (t : DagStep * thread) : string := step_name t.1.

Section Wave.
Context {S : Services} {E : Env} (eng : engine) (limit : nat) (NC : Prop) (HNC : NC -> no_cancel E).
Notation St := (wave_state (S := S)).

(** The steps recorded so far ([l]) against a thread's position. *)
Definition thread_ok (l : list string) (s : DagStep) (t : thread) : Prop :=
  match t with
  | TNew | TWait _ => step_name s ∉ l
  | TRun p => step_name s ∉ l /\ tame NC p
  | TSave p => step_name s ∈ l /\ polite NC p /\ (has_store eng = false -> ∀ e, ~ may NC p (inl e))
  | TDone (inr _) => step_name s ∈ l
  | TDone (inl e) => (NC -> is_exception e = true) /\ (has_store eng = false -> step_name s ∉ l)
  end.

Record wave_inv (base : list string) (st : St) (l : list string) : Prop := {
  wi_names : NoDup (map tname (ws_threads st));
  wi_completed : ctx_completed_steps (ws_ctx st) = base ++ l;
  wi_nodup : NoDup l;
  wi_known : ∀ n, n ∈ l -> n ∈ map tname (ws_threads st);
  wi_threads : ∀ i s t, ws_threads st !! i = Some (s, t) -> thread_ok l s t
}.

Lemma may_next {A X} (e : eff X) (k : X -> prog A) (w : world S) a :
  may NC (k (step e w).2) a -> may NC (Vis e k) a.
Proof using HNC. intros Ha. exists (step e w).2. split; [|done]. intros Hnc. by apply step_calm, HNC. Qed.

Lemma polite_save ctx res : polite NC (save eng ctx res).
Proof using Type.
  clear HNC. unfold save. case_match; [|apply polite_ret].
  apply polite_bind; [apply polite_invoke|intros; apply polite_ret].
Qed.

(** One thread step: the context's list grows by the step's own name, or not at
    all, and the thread keeps its relation to it. *)
Lemma thread_next_ok l s t ctx (w : world S) n t' ctx' w' :
  thread_next eng limit n s t ctx w = (t', ctx', w') -> thread_ok l s t ->
  (ctx_completed_steps ctx' = ctx_completed_steps ctx /\ thread_ok l s t') \/
  (ctx_completed_steps ctx' = ctx_completed_steps ctx ++ [step_name s] /\ step_name s ∉ l /\
   thread_ok (l ++ [step_name s]) s t').
Proof using HNC.
  intros Hn Hok. unfold thread_next in Hn.
  destruct t as [|inp|[[e|v]|X e k|f k]|[r|X e k]|r]; simpl in Hok.
  - assert (Hd : thread_ok (l ++ [step_name s]) s (TDone (inr (VDict [])))) by (simpl; set_solver).
    destruct (condition s) as [c|]; [destruct (safe_eval_condition _ _)|]; simplify_eq; auto.
  - destruct (_ <? _)%nat; simplify_eq; [|by auto]. left. split; [done|]. split; [done|apply tame_section].
  - simplify_eq. left. split; [done|]. destruct Hok as [Hs Ht]. by apply tame_inv in Ht.
  - destruct Hok as [Hs _]. destruct (mapped (output_mapping s) v) as [e|upd] eqn:Em; simplify_eq.
    + left. split; [done|]. split; [|done]. intros _. by eapply mapped_exn.
    + right. split; [done|]. split; [done|]. split; [set_solver|]. split; [apply polite_save|].
      unfold save. intros -> e. by intros [=].
  - destruct Hok as [Hs Ht]. pose proof (step_calm e w) as Hc. destruct (step e w) as [w1 x]; simplify_eq.
    left. split; [done|]. split; [done|].
    apply tame_inv in Ht. apply Ht. intros Hnc. by apply Hc, HNC.
  - destruct Hok as [Hs Ht]. simplify_eq. left. apply tame_inv in Ht as [Hf Hk]. by rewrite Hf.
  - destruct Hok as (Hs & Hp & Hns). simplify_eq. left. split; [done|].
    destruct r as [e|v]; [|done]. split; [intros Hnc; by apply (Hp e)|].
    intros H. by destruct (Hns H e).
  - destruct Hok as (Hs & Hp & Hns). pose proof (may_next e k w) as Hm.
    destruct (step e w) as [w1 x]; simplify_eq. left. split; [done|]. split; [done|]. simpl in Hm. split.
    + intros c Hc. by apply Hp, Hm.
    + intros H c Hc. by eapply (Hns H c), Hm.
  - simplify_eq. auto.
Qed.

Lemma thread_ok_other l s t n : n <> step_name s -> thread_ok l s t -> thread_ok (l ++ [n]) s t.
Proof using Type.
  clear HNC. intros Hne. destruct t as [| | | |[]]; simpl; set_solver.
Qed.

Lemma map_tname_insert ts i s t t' : ts !! i = Some (s, t) -> map tname (<[i := (s, t')]> ts) = map tname ts.
Proof using Type.
  clear HNC. intros H. rewrite (list_fmap_insert tname ts i). apply list_insert_id.
  rewrite list_lookup_fmap, H. done.
Qed.

Lemma wave_step_inv base st l i : wave_inv base st l ->
  ∃ l', wave_inv base (wave_step eng limit st i) l'.
Proof using HNC.
  intros [Hn Hc Hl Hk Ht]. unfold wave_step. destruct (ws_threads st !! i) as [[s t]|] eqn:Ei; [|by exists l].
  destruct (thread_next _ _ _ _ _ _ _) as [[t' c'] w'] eqn:En.
  pose proof (thread_next_ok l _ _ _ _ _ _ _ _ En (Ht _ _ _ Ei)) as Hcase.
  assert (Hi : (i < length (ws_threads st))%nat) by by eapply lookup_lt_Some.
  destruct Hcase as [[Hc' Hok]|(Hc' & Hnew & Hok)].
  - exists l. split; simpl; rewrite ?(map_tname_insert _ _ _ _ _ Ei), ?Hc'; try done.
    intros j s1 t1 [(<- & [= -> ->] & _)|[Hne Hj]]%list_lookup_insert_Some; [done|]. by eapply Ht.
  - exists (l ++ [step_name s]). split; simpl; rewrite ?(map_tname_insert _ _ _ _ _ Ei).
    + done.
    + by rewrite Hc', Hc, app_assoc.
    + apply NoDup_app. split; [done|]. split; [set_solver|apply NoDup_singleton].
    + intros n [Hnl| ->%list_elem_of_singleton]%elem_of_app; [by apply Hk|].
      apply (list_elem_of_fmap_2 tname _ (s, t)). by eapply list_elem_of_lookup_2.
    + intros j s1 t1 [(<- & [= <- <-] & _)|[Hne Hj]]%list_lookup_insert_Some; [done|].
      apply thread_ok_other; [|by eapply Ht]. intros Heq. apply Hne.
      eapply (NoDup_lookup (map tname (ws_threads st))); [done| |].
      * rewrite (list_lookup_fmap tname), Ei. simpl. done.
      * rewrite (list_lookup_fmap tname), Hj. simpl. unfold tname. simpl. by rewrite Heq.
Qed.

Lemma wave_run_inv base sched : ∀ st l, wave_inv base st l ->
  ∃ l', wave_inv base (wave_run eng limit sched st) l'.
Proof using HNC.
  induction sched as [|i sched IH]; intros st l H; [by exists l|].
  destruct (wave_step_inv base st l i H) as [l1 H1]. by apply (IH _ l1).
Qed.

Lemma wave_run_names sched : ∀ st : St,
  map fst (ws_threads (wave_run eng limit sched st)) = map fst (ws_threads st).
Proof using Type.
  clear HNC. induction sched as [|i sched IH]; intros st; [done|]. unfold wave_run. simpl.
  fold (wave_run eng limit sched (wave_step eng limit st i)). rewrite IH. unfold wave_step.
  destruct (ws_threads st !! i) as [[s t]|] eqn:Ei; [|done].
  destruct (thread_next _ _ _ _ _ _ _) as [[t' c'] w']. simpl.
  rewrite (list_fmap_insert fst). apply list_insert_id. by rewrite (list_lookup_fmap fst), Ei.
Qed.
End Wave.

(** ** Runs over all waves *)

Lemma step_of_spec ss n s : step_of ss n = Some s -> s ∈ ss /\ step_name s = n.
Proof.
  unfold step_of. intros [l Hl]%last_Some.
  assert (s ∈ filter (λ s, step_name s = n) ss) as [??]%list_elem_of_filter by (rewrite Hl; set_solver). done.
Qed.

Lemma step_of_known ss n : n ∈ map step_name ss -> is_Some (step_of ss n).
Proof.
  intros (s & -> & Hs)%elem_of_map. unfold step_of. apply last_is_Some. intros H.
  assert (s ∈ filter (λ t, step_name t = step_name s) ss) as Hf by by apply list_elem_of_filter.
  rewrite H in Hf. by apply elem_of_nil in Hf.
Qed.

Lemma start_wave_names ss wave : (∀ n, n ∈ wave -> n ∈ map step_name ss) ->
  map tname (start_wave ss wave) = wave.
Proof.
  unfold start_wave. induction wave as [|n wave IH]; intros Hk; [done|]. simpl.
  destruct (step_of_known ss n) as [s Hs]; [apply Hk; set_solver|]. rewrite Hs. simpl.
  apply step_of_spec in Hs as [_ Hn]. f_equal; [done|]. apply IH. set_solver.
Qed.

Lemma start_wave_steps ss wave s t : (s, t) ∈ start_wave ss wave -> s ∈ ss.
Proof.
  unfold start_wave. intros (n & Hn & Hs)%list_elem_of_omap. apply fmap_Some in Hs as (s' & Hs & [= -> _]).
  by apply step_of_spec in Hs as [? _].
Qed.

Lemma start_wave_inv {S : Services} (NC : Prop) eng ss wave ctx (w : world S) :
  NoDup wave -> (∀ n, n ∈ wave -> n ∈ map step_name ss) ->
  wave_inv eng NC (ctx_completed_steps ctx) (WaveState ctx (start_wave ss wave) w) [].
Proof.
  intros Hnd Hk. split; simpl.
  - by rewrite start_wave_names.
  - by rewrite app_nil_r.
  - constructor.
  - intros n Hn. by apply elem_of_nil in Hn.
  - intros i s t Hi. pose proof (start_wave_new ss wave) as Hf. rewrite Forall_lookup in Hf.
    apply Hf in Hi. simpl in Hi. subst. simpl. set_solver.
Qed.

Lemma outcomes_elem {S : Services} (st : wave_state (S := S)) rs : outcomes st = Some rs ->
  (∀ s r, (s, r) ∈ rs <-> (s, TDone r) ∈ ws_threads st) /\ map (step_name ∘ fst) rs = map tname (ws_threads st).
Proof.
  unfold outcomes. destruct st as [c ts w]. simpl. intros H%mapM_Some.
  induction H as [|[s t] [s' r'] ts rs Ht H IH]; [split; [set_solver|done]|].
  destruct t; simplify_eq/=. destruct IH as [IH1 IH2]. split; [|by rewrite IH2].
  intros s0 r0. rewrite !elem_of_cons, IH1. naive_solver.
Qed.

(** What [run_waves] establishes: [ls] are the names each executed wave recorded. *)
Record waves_spec (NC : Prop) (eng : engine) (ss : list DagStep) (waves : list (list string))
    (base : list string) (ctx : DagContext) (ls : list (list string)) : Prop := {
  sp_completed : ctx_completed_steps ctx = base ++ concat ls;
  sp_waves : Forall2 (λ l wv, NoDup l /\ ∀ n, n ∈ l -> n ∈ wv) ls (take (length ls) waves);
  sp_status :
    (ctx_status ctx = DAG_COMPLETED /\
     (NC -> ∀ s, s ∈ ss -> on_failure s = ABORT -> step_name s ∈ concat waves -> step_name s ∈ concat ls)) \/
    (ctx_status ctx = DAG_FAILED /\
     (has_store eng = false -> ∃ s, s ∈ ss /\ on_failure s = ABORT /\
        step_name s ∈ concat waves /\ step_name s ∉ concat ls))
}.

Section Runs.
Context {S : Services} {E : Env} (eng : engine) (limit : nat) (NC : Prop) (HNC : NC -> no_cancel E).
Context (ss : list DagStep) (Hss : NoDup (map step_name ss)).

Lemma wave_recorded wave sched ctx (w : world S) :
  NoDup wave -> (∀ n, n ∈ wave -> n ∈ map step_name ss) ->
  let st := wave_run eng limit sched (WaveState ctx (start_wave ss wave) w) in
  ∃ l, wave_inv eng NC (ctx_completed_steps ctx) st l /\ map tname (ws_threads st) = wave /\
       (∀ s t, (s, t) ∈ ws_threads st -> s ∈ ss).
Proof using HNC.
  intros Hnd Hk st.
  destruct (wave_run_inv eng limit NC HNC (ctx_completed_steps ctx) sched _ _
              (start_wave_inv NC eng ss wave ctx w Hnd Hk)) as [l Hl].
  pose proof (wave_run_names eng limit sched (WaveState ctx (start_wave ss wave) w)) as Hf. fold st in Hf, Hl.
  exists l. split; [done|]. split.
  - assert (Hm : ∀ ts, map tname ts = map step_name (map fst ts)) by (intros ts; by rewrite map_map).
    rewrite Hm, Hf, <- Hm. by apply start_wave_names.
  - intros s t Hst. assert (s ∈ map fst (ws_threads st)) as Hin by by apply (list_elem_of_fmap_2 fst _ (s, t)).
    rewrite Hf in Hin. apply elem_of_map in Hin as ([s' t'] & -> & Hin). by apply start_wave_steps in Hin.
Qed.

Lemma run_waves_spec waves : NoDup (concat waves) -> (∀ n, n ∈ concat waves -> n ∈ map step_name ss) ->
  ∀ scheds ctx (w : world S) ctx' w', run_waves eng limit ss waves scheds ctx w = Some (ctx', w') ->
  ∃ ls, waves_spec NC eng ss waves (ctx_completed_steps ctx) ctx' ls.
Proof using HNC Hss.
  induction waves as [|wave waves IH]; intros Hnd Hk scheds ctx w ctx' w' Hr; simpl in Hr.
  - simplify_eq. exists []. split; [by rewrite app_nil_r|constructor|left; split; [done|]].
    intros _ s _ _ Hn. by apply elem_of_nil in Hn.
  - destruct scheds as [|sched scheds]; [done|]. simpl in Hnd, Hk.
    apply NoDup_app in Hnd as (Hw & Hdisj & Hnd).
    destruct (wave_recorded wave sched ctx w Hw) as (l & Hinv & Hnames & Hsteps); [set_solver|].
    set (st := wave_run eng limit sched _) in *. destruct (outcomes st) as [rs|] eqn:Eo; [|done].
    destruct (outcomes_elem st rs Eo) as [Hrs _]. destruct Hinv as [Hn Hc Hl Hkn Ht]. rewrite Hnames in *.
    destruct (existsb aborts rs) eqn:Ea; simplify_eq.
    + exists [l]. split; simpl; [by rewrite app_nil_r|by repeat constructor|right; split; [done|]].
      intros Hst. apply existsb_exists in Ea as ([s r] & Hin%list_elem_of_In & Hab).
      unfold aborts in Hab. simpl in Hab. destruct (on_failure s) eqn:Ef, r as [e|v]; try done.
      apply Hrs in Hin. pose proof (Hsteps _ _ Hin) as Hs.
      assert (step_name s ∈ wave) by (rewrite <- Hnames; by apply (list_elem_of_fmap_2 tname _ (s, TDone (inl e)))).
      exists s. apply list_elem_of_lookup in Hin as [i Hi]. apply Ht in Hi as [_ Hi].
      rewrite app_nil_r. split_and!; [done|done|set_solver|auto].
    + destruct (IH Hnd ltac:(set_solver) _ _ _ _ _ Hr) as (ls & [Hc' Hw' Hs']).
      exists (l :: ls). split; simpl.
      * by rewrite Hc', Hc, app_assoc.
      * constructor; [done|apply Hw'].
      * assert (Hlate : ∀ n, n ∈ concat waves -> n ∉ l) by (intros n Hn1 Hn2; eapply Hdisj; [by apply Hkn|done]).
        destruct Hs' as [[Hst Hall]|[Hst Hex]]; [left|right]; split; try done.
        -- intros Hnc s Hs Hf [Hin|Hin]%elem_of_app; apply elem_of_app; [left|right; by apply Hall].
           rewrite <- Hnames in Hin. apply elem_of_map in Hin as ([s' t'] & Heq & Hin).
           assert (s' = s) as -> by (eapply (step_by_name ss Hss); [by eapply Hsteps|done|done]).
           apply list_elem_of_lookup in Hin as [i Hi]. pose proof (Ht _ _ _ Hi) as Hok.
           unfold outcomes in Eo. apply mapM_Some in Eo.
           eapply Forall2_lookup_l in Eo as ([s1 r1] & Hi1 & Hd1); [|exact Hi].
           simpl in Hd1. destruct t' as [| | | |[e|v]]; simplify_eq; [|done].
           destruct Hok as [He _]. assert (aborts (s1, inl e) = true) as Hab.
           { unfold aborts. simpl. rewrite Hf. by apply He. }
           assert (existsb aborts rs = true) as Hab'; [|by rewrite Hab' in Ea].
           apply existsb_exists. exists (s1, inl e). split; [|done].
           apply list_elem_of_In. by eapply list_elem_of_lookup_2.
        -- intros Hns. destruct (Hex Hns) as (s & H1 & H2 & H3 & H4). exists s. split_and!; set_solver.
Qed.
End Runs.

(** Along what the waves recorded, the level never goes down. *)
Lemma level_mono waves : NoDup (concat waves) -> ∀ ls,
  Forall2 (λ l wv, NoDup l /\ ∀ n, n ∈ l -> n ∈ wv) ls (take (length ls) waves) ->
  NoDup (concat ls) /\ (∀ n, n ∈ concat ls -> n ∈ concat waves) /\
  ∀ pre x post y, concat ls = pre ++ x :: post -> y ∈ post -> (level_of x waves <= level_of y waves)%nat.
Proof.
  induction waves as [|wv waves IH]; intros Hnd ls Hls.
  - destruct ls as [|l ls]; [|by inversion Hls]. simpl. split_and!; [constructor|done|].
    intros [|? ?]; done.
  - destruct ls as [|l ls]; [simpl; split_and!; [constructor|set_solver|intros [|? ?]; done]|].
    simpl in *. apply NoDup_app in Hnd as (Hw & Hdisj & Hnd). inversion Hls as [|? ? ? ? [Hl Hin] Hls']; subst.
    destruct (IH Hnd ls Hls') as (H1 & H2 & H3). split_and!.
    + apply NoDup_app. split; [done|]. split; [|done]. intros n Hn1 Hn2. eapply Hdisj; [by apply Hin|by apply H2].
    + intros n. rewrite !elem_of_app. naive_solver.
    + intros pre x post y Heq Hy. destruct (decide (x ∈ wv)) as [|Hx]; [lia|].
      apply app_eq_inv in Heq as [(k & Hk1 & Hk2)|(k & Hk1 & Hk2)].
      * destruct k as [|x' k]; simpl in Hk2.
        -- rewrite decide_False; [apply le_n_S; eapply (H3 [] x post); [by rewrite <- Hk2|done]|].
           intros Hyw. eapply Hdisj; [done|]. apply H2. rewrite <- Hk2. set_solver.
        -- simplify_eq. destruct Hx. apply Hin. set_solver.
      * assert (y ∉ wv) as Hyw.
        { intros Hyw. eapply Hdisj; [done|]. apply H2. rewrite Hk2. set_solver. }
        rewrite decide_False by done. apply le_n_S. by eapply H3.
Qed.

Lemma execute_spec {S : Services} {E : Env} eng d init scheds (w w' : world S) ctx :
  NoDup (map step_name (steps d)) -> execute_dag eng d init scheds w = Some (inr ctx, w') ->
  ∃ ls, waves_spec (no_cancel E) eng (steps d) (topo_sort (steps d)) [] ctx ls.
Proof.
  intros Hnd Hrun. pose proof (waves_nodup_prefix _ Hnd (topo_sort (steps d)) []) as Hw.
  pose proof (topo_known (steps d) Hnd) as Hk. rewrite app_nil_r in Hw. specialize (Hw eq_refl).
  unfold execute_dag, initial_ctx in Hrun. destruct (context_task_id d init) as [|tid]; [done|].
  destruct (topo_sort (steps d)) as [|wv wvs].
  - simplify_eq. exists []. split; [done|constructor|left; split; [done|]].
    intros _ s _ _ Hn. by apply elem_of_nil in Hn.
  - destruct (_ <? 0); [done|]. destruct (run_waves _ _ _ _ _ _ _) as [[c w1]|] eqn:Er; simplify_eq.
    by apply (run_waves_spec eng _ (no_cancel E) (λ H, H) (steps d) Hnd (wv :: wvs) Hw Hk) in Er.
Qed.

(** C3: a DAG run respects its dependencies and its status tells the truth,
    under every interleaving, for a DAG whose steps have different names and a run
    that returns a context.  Whatever the dispatches and the context store do: no
    step is recorded twice and only scheduled steps are; a step is never recorded
    before something it depends on (which is recorded earlier or not at all); the
    run ends COMPLETED or FAILED.  When no call of a step is answered with a
    cancellation, a COMPLETED run has recorded every scheduled step whose failure
    action is ABORT.  When the engine has no context store, whose own failure fails
    a step that is recorded already, a FAILED run has left some scheduled ABORT step
    unrecorded. *)
Theorem dag_run_correct {S : Services} {E : Env} (eng : engine) (d : DagDefinition) (init : dict)
    (scheds : list (list nat)) (w w' : world S) (ctx : DagContext)
    (Hnd : NoDup (map step_name (steps d)))
    (Hrun : execute_dag eng d init scheds w = Some (inr ctx, w')) :
  let recorded := ctx_completed_steps ctx in
  let scheduled := concat (topo_sort (steps d)) in
  NoDup recorded /\ (∀ n, n ∈ recorded -> n ∈ scheduled) /\
  (∀ s dep pre post, s ∈ steps d -> dep ∈ depends_on s ->
     recorded = pre ++ step_name s :: post -> dep ∉ step_name s :: post) /\
  ((ctx_status ctx = DAG_COMPLETED /\
    (no_cancel E -> ∀ s, s ∈ steps d -> on_failure s = ABORT ->
       step_name s ∈ scheduled -> step_name s ∈ recorded)) \/
   (ctx_status ctx = DAG_FAILED /\
    (has_store eng = false -> ∃ s, s ∈ steps d /\ on_failure s = ABORT /\
       step_name s ∈ scheduled /\ step_name s ∉ recorded))).
Proof.
  intros recorded scheduled.
  assert (Hw : NoDup scheduled) by (apply (waves_nodup_prefix _ Hnd _ []); by rewrite app_nil_r).
  destruct (execute_spec eng d init scheds w w' ctx Hnd Hrun) as (ls & [Hc Hls Hst]).
  simpl in Hc. destruct (level_mono _ Hw ls Hls) as (H1 & H2 & H3). subst recorded. rewrite Hc.
  split; [done|]. split; [done|]. split; [|done].
  intros s dep pre post Hs Hdep Heq Hin.
  assert (Hsch : step_name s ∈ scheduled) by (apply H2; rewrite Heq; set_solver).
  assert (level_of dep (topo_sort (steps d)) < level_of (step_name s) (topo_sort (steps d)))%nat as Hlt.
  { apply topo_elem in Hsch as (p & wv & q & E1 & Hwv). pose proof (wave_ready _ Hnd _ _ _ E1) as Hr.
    rewrite Hr in Hwv. apply elem_of_ready in Hwv as (t & Ht & Et & Hn & Hd).
    assert (t = s) as -> by by apply (step_by_name _ Hnd).
    rewrite E1, (level_of_app (step_name s)) by done. pose proof (level_of_lt dep p (wv :: q) (Hd _ Hdep)). lia. }
  apply elem_of_cons in Hin as [->|Hin]; [lia|]. pose proof (H3 _ _ _ _ Heq Hin). lia.
Qed.
