(* ===== verification/DagSections.v ===== *)
(** * What a step's section computes

    Retries and failure actions of the normal section, and scatter-gather of the
    MAP section, as functions of the answers the dispatches get. *)

From stdpp Require Import base gmap strings list.
From S2P Require Import Prelude PyValue Json Redis Effects DagModel DagTopo DagCondition DagEngine DagProps.

Open Scope Z_scope.

Section SRun.
Context {S : Services} {E : Env}.

(** A section run without interference. *)
Fixpoint srun (p : sprog) (ctx : DagContext) (w : world S) : DagContext * world S * (exn + value) :=
  match p with
  | SRet r => (ctx, w, r)
  | SVis e k => let '(w', x) := step e w in srun (k x) ctx w'
  | SCtx f k => srun k (f ctx) w
  end.

Lemma srun_lift {A} (m : prog A) k : ∀ ctx w,
  srun (lift m k) ctx w = let '(w', a) := run m w in srun (k a) ctx w'.
Proof.
  induction m as [a|X e h IH]; intros ctx w; simpl; [done|]. destruct (step e w) as [w' x]. apply IH.
Qed.

(** A thread whose turn it always is performs exactly this run. *)
Lemma srun_thread eng limit p : ∀ (st : wave_state (S := S)) i s,
  ws_threads st !! i = Some (s, TRun p) ->
  ∃ sched, let '(c', w', r) := srun p (ws_ctx st) (ws_world st) in
    wave_run eng limit sched st = WaveState c' (<[i := (s, TRun (SRet r))]> (ws_threads st)) w'.
Proof.
  assert (Hins : ∀ (st : wave_state (S := S)) i s t t' c w,
    ws_threads st !! i = Some (s, t) ->
    ws_threads (WaveState c (<[i := (s, t')]> (ws_threads st)) w) !! i = Some (s, t')).
  { intros st i s t t' c w Hi. simpl. apply list_lookup_insert_eq. by eapply lookup_lt_Some. }
  induction p as [r|X e k IH|f k IH]; intros st i s Hi.
  - exists []. simpl. rewrite list_insert_id by done. by destruct st.
  - simpl. destruct (step e (ws_world st)) as [w1 x] eqn:Es.
    pose proof (Hins st i s _ (TRun (k x)) (ws_ctx st) w1 Hi) as Hi'.
    destruct (IH x _ i s Hi') as [sched Hs]. simpl in Hs. exists (i :: sched).
    destruct (srun (k x) (ws_ctx st) w1) as [[c' w'] r]. unfold wave_run in *. simpl.
    unfold wave_step at 2. rewrite Hi. simpl. rewrite Es. rewrite Hs. by rewrite list_insert_insert_eq.
  - simpl. pose proof (Hins st i s _ (TRun k) (f (ws_ctx st)) (ws_world st) Hi) as Hi'.
    destruct (IH _ i s Hi') as [sched Hs]. simpl in Hs. exists (i :: sched).
    destruct (srun k (f (ws_ctx st)) (ws_world st)) as [[c' w'] r]. unfold wave_run in *. simpl.
    unfold wave_step at 2. rewrite Hi. simpl. rewrite Hs. by rewrite list_insert_insert_eq.
Qed.
End SRun.

(** ** Retries *)

Section Retry.
Context {S : Services} {E : Env}.

Definition dispatch_arg (s : DagStep) (input : dict) : value :=
  VList [VStr (capability s); VStr (step_name s); VDict input].

Definition answer (n : nat) (s : DagStep) (input : dict) : exn + value :=
  invoke_answer n "dispatch" (dispatch_arg s input).

(** Attempt [i] happens at tick [2 * i]: each failed one is followed by a sleep. *)
Record retry_spec (s : DagStep) (input : dict) (retries n : nat) (w w' : world S) (out : exn + value) : Prop := {
  rt_bound : (n <= retries)%nat;
  rt_failed : ∀ i, (i < n)%nat -> ∃ e, answer (w_tick w + 2 * i) s input = inl e /\ is_exception e = true;
  rt_out : match answer (w_tick w + 2 * n) s input with
           | inr v => out = inr v
           | inl e => if is_exception e then n = retries /\ out = on_exhausted s e else out = inl e
           end;
  rt_log : w_log w' = w_log w ++ repeat (OInvoke "dispatch" (dispatch_arg s input)) (Datatypes.S n);
  rt_time : w_now w + Z.of_nat n * Z.max 0 (retry_delay_ms (retry_policy s)) <= w_now w'
}.

Lemma srun_attempts s input : execution_mode s <> FLASK_WRAPPED ->
  ∀ retries ctx (w : world S), ∃ n w' out,
    srun (attempts s input retries) ctx w = (ctx, w', out) /\ retry_spec s input retries n w w' out.
Proof.
  intros Hm. assert (Hd : dispatch_once s input = dispatch (capability s) (step_name s) input).
  { unfold dispatch_once. by destruct (execution_mode s). }
  induction retries as [|retries IH]; intros ctx w; cbn [attempts]; rewrite srun_lift, Hd; simpl;
    change (invoke_answer (w_tick w) "dispatch" _) with (answer (w_tick w) s input);
    (assert (Ha : answer (w_tick w + 2 * 0) s input = answer (w_tick w) s input) by (f_equal; lia));
    destruct (answer (w_tick w) s input) as [e|v] eqn:Ea;
    try (exists O; eexists _, _; split; [reflexivity|]; split; rewrite ?Ha; simpl; first [done|lia]);
    destruct (is_exception e) eqn:Ee;
    try (exists O; eexists _, _; split; [reflexivity|]; split; rewrite ?Ha, ?Ee; simpl; first [done|lia]).
  simpl.
  match goal with |- context [srun (attempts s input retries) ctx ?w1] => set (w1' := w1) end.
  destruct (IH ctx w1') as (n & w2 & out & Hrun & [Hb Hf Ho Hlog Ht]).
  exists (Datatypes.S n), w2, out. split; [done|].
  assert (Htick : ∀ i, (w_tick w + 2 * Datatypes.S i)%nat = (w_tick w1' + 2 * i)%nat) by (intros i; simpl; lia).
  split.
  - lia.
  - intros [|i] Hi; [rewrite Ha; eauto|]. rewrite Htick. apply Hf. lia.
  - rewrite Htick. destruct (answer (w_tick w1' + 2 * n) s input) as [c|v]; [|done]. destruct (is_exception c); [|done].
    destruct Ho as [-> ->]. done.
  - rewrite Hlog. simpl. by rewrite <- !app_assoc.
  - assert (w_now w + Z.max 0 (retry_delay_ms (retry_policy s)) <= w_now w1') by (simpl; lia). lia.
Qed.
End Retry.

(** Retries of a step dispatched to a worker.  The section makes at most
    [max_retries + 1] dispatches, waiting the retry delay between them; it returns
    the first answer that is not an exception; when every attempt fails it applies
    the failure action to the last exception: the fallback's mapping, an empty
    result, or the exception itself. *)
Theorem retry_correct {S : Services} {E : Env} (s : DagStep) (input : dict) (ctx : DagContext) (w : world S)
    (Hmode : execution_mode s <> FLASK_WRAPPED) (Hret : 0 <= max_retries (retry_policy s)) :
  ∃ n w' out, srun (normal_section s input) ctx w = (ctx, w', out) /\
    retry_spec s input (Z.to_nat (max_retries (retry_policy s))) n w w' out.
Proof.
  unfold normal_section. destruct (_ <=? 0) eqn:El; [apply Z.leb_le in El; lia|]. by apply srun_attempts.
Qed.

(** ** Scatter-gather *)

Section Map.
Context {S : Services} {E : Env} (s : DagStep) (key : string) (input : dict).

Definition item_arg (idx : Z) (item : value) : value :=
  dispatch_arg s (dict_set "_map_index" (VInt idx) (dict_set key item input)).

(** The answers to the items' dispatches, one per tick. *)
Fixpoint item_answers (tick : nat) (idx : Z) (items : list value) : list (exn + value) :=
  match items with
  | [] => []
  | x :: items' =>
      invoke_answer tick "dispatch" (item_arg idx x) :: item_answers (Datatypes.S tick) (idx + 1) items'
  end.

Fixpoint item_log (idx : Z) (items : list value) : list output :=
  match items with
  | [] => []
  | x :: items' => OInvoke "dispatch" (item_arg idx x) :: item_log (idx + 1) items'
  end.

(** The place an exception takes in the results under the CONTINUE policy. *)
Definition error_marker (idx : Z) (e : exn) : value :=
  VDict [("__map_error__", VStr (exn_str e)); ("_map_index", VInt idx)].

Fixpoint marked (idx : Z) (answers : list (exn + value)) : list value :=
  match answers with
  | [] => []
  | a :: answers' => (match a with inr v => v | inl e => error_marker idx e end) :: marked (idx + 1) answers'
  end.

Definition settle (idx : Z) (a : exn + value) : exn + value :=
  match a with
  | inr v => inr v
  | inl e => if is_exception e
             then match map_error_policy s with CONTINUE => inr (error_marker idx e) | ABORT_ALL => inl e end
             else inl e
  end.

Fixpoint settled (idx : Z) (answers : list (exn + value)) : list (exn + value) :=
  match answers with
  | [] => []
  | a :: answers' => settle idx a :: settled (idx + 1) answers'
  end.

Lemma srun_gather items : ∀ idx k ctx (w : world S), ∃ w',
  srun (map_gather s key input idx items k) ctx w =
    srun (k (settled idx (item_answers (w_tick w) idx items))) ctx w' /\
  w_log w' = w_log w ++ item_log idx items.
Proof.
  induction items as [|x items IH]; intros idx k ctx w.
  - exists w. simpl. by rewrite app_nil_r.
  - cbn [map_gather]. rewrite srun_lift. unfold map_one. rewrite run_except. simpl.
    change (invoke_answer (w_tick w) "dispatch" _) with (invoke_answer (w_tick w) "dispatch" (item_arg idx x)).
    set (w1 := advance _ _ _ w). unfold settle.
    assert (Hw1 : w_log w1 = w_log w ++ [OInvoke "dispatch" (item_arg idx x)]) by done.
    assert (Ht1 : w_tick w1 = Datatypes.S (w_tick w)) by done. clearbody w1.
    destruct (invoke_answer (w_tick w) "dispatch" (item_arg idx x)) as [e|v];
      [destruct (is_exception e); [destruct (map_error_policy s)|]|]; simpl;
      match goal with |- context [λ rs, k (?r :: rs)] =>
        destruct (IH (idx + 1) (λ rs, k (r :: rs)) ctx w1) as (w' & Hrun & Hlog) end;
      exists w'; rewrite Ht1 in Hrun; rewrite Hrun, Hlog, Hw1, <- app_assoc; done.
Qed.

Lemma settled_continue answers : map_error_policy s = CONTINUE ->
  Forall (λ a, ∀ e, a = inl e -> is_exception e = true) answers ->
  ∀ idx, results_ok (settled idx answers) = marked idx answers /\ results_err (settled idx answers) = [].
Proof.
  intros Hp Hf. induction Hf as [|a answers Ha Hf IH]; intros idx; [done|]. simpl.
  destruct (IH (idx + 1)) as [IH1 IH2]. unfold settle. destruct a as [e|v]; simpl; [rewrite (Ha e eq_refl), Hp; simpl|];
    unfold results_ok, results_err in *; simpl; by rewrite ?IH1, ?IH2.
Qed.

Lemma settled_abort answers : map_error_policy s = ABORT_ALL -> ∀ idx, settled idx answers = answers.
Proof.
  intros Hp. induction answers as [|a answers IH]; intros idx; simpl; [done|]. rewrite IH. f_equal.
  unfold settle. destruct a as [e|v]; [|done]. rewrite Hp. by destruct (is_exception e).
Qed.

Lemma results_err_nil (answers : list (exn + value)) :
  Forall (λ a, ∃ v, a = inr v) answers -> results_err answers = [] /\
  map inr (results_ok answers) = answers.
Proof.
  induction 1 as [|a answers [v ->] Hf [IH1 IH2]]; [done|].
  change (results_err (inr v :: answers)) with (results_err answers).
  change (results_ok (inr v :: answers)) with (v :: results_ok answers). simpl. by rewrite IH1, IH2.
Qed.
End Map.

(** Scatter-gather.  A MAP step dispatches every item, in order and whether
    or not earlier ones failed, each with its index.  Under CONTINUE it succeeds
    with one result per item, in order, an error marker standing for a failed one;
    under ABORT_ALL it succeeds with all the answers when there are only answers,
    and otherwise applies the failure action to the first exception. *)
Theorem map_correct {S : Services} {E : Env} (s : DagStep) (key : string) (input : dict) (ctx : DagContext)
    (w : world S) (Hnc : no_cancel E) :
  let items := map_items s key input ctx in
  let answers := item_answers s key input (w_tick w) 0 items in
  ∃ w' out, srun (map_section s key input ctx) ctx w = (ctx, w', out) /\
    w_log w' = w_log w ++ item_log s key input 0 items /\
    (map_error_policy s = CONTINUE -> out = inr (VDict [("results", VList (marked 0 answers))])) /\
    (map_error_policy s = ABORT_ALL ->
       (∀ vs, answers = map inr vs -> out = inr (VDict [("results", VList vs)])) /\
       (∀ vs e rest, answers = map inr vs ++ inl e :: rest -> out = on_exhausted s e)).
Proof.
  intros items answers. unfold map_section.
  destruct (srun_gather s key input items 0 (λ rs, SRet (map_collect s rs)) ctx w) as (w' & Hrun & Hlog).
  fold items. fold answers in Hrun. simpl in Hrun. exists w', (map_collect s (settled s 0 answers)).
  split; [done|]. split; [done|].
  assert (Hex : Forall (λ a, ∀ e, a = inl e -> is_exception e = true) answers).
  { destruct Hnc as [_ Hnc]. subst answers. generalize 0, (w_tick w). clear -Hnc.
    induction items as [|x l IH]; intros z n; constructor; [by eauto|by apply IH]. }
  unfold map_collect. split.
  - intros Hp. destruct (settled_continue s answers Hp Hex 0) as [-> ->]. done.
  - intros Hp. rewrite (settled_abort s answers Hp 0), Hp. split.
    + intros vs ->. destruct (results_err_nil (map inr vs)) as [-> Hok].
      { apply Forall_forall. intros a (v & -> & _)%elem_of_map. eauto. }
      do 4 f_equal. clear -Hok. revert Hok. generalize (results_ok (map inr vs)).
      induction vs as [|v vs IH]; intros [|u us] Hok; simplify_eq/=; f_equal; auto.
    + intros vs e rest Ha. rewrite Ha in *.
      assert (is_exception e = true) as He by (rewrite Forall_app, Forall_cons in Hex; naive_solver).
      assert (results_err (map inr vs ++ inl e :: rest) = e :: results_err rest) as ->; [|done].
      clear -He. induction vs as [|v vs IH]; [unfold results_err; simpl; by rewrite He|exact IH].
Qed.

(** ** Concrete runs *)

(** A worker that fails in the first two ticks. *)
Definition flaky : Env := {|
  delay := λ _, 5%N;
  redis_fault := λ _, None;
  db_fault := λ _, None;
  uuid_at := λ _, "";
  scan_slice := λ _ _ _ ks, (0, ks);
  http_answer := λ _ _, inr {| resp_status := 200; resp_body := "{}" |};
  invoke_answer := λ n _ _, if (n <? 2)%nat then inl (Exn TimeoutError "") else inr (VDict [("n", VInt (Z.of_nat n))])
|}.

Lemma flaky_no_cancel : no_cancel flaky.
Proof. split; simpl; [done|]. intros n _ _ c. destruct (n <? 2)%nat; [by intros [= <-]|done]. Qed.

Definition retried_step : DagStep :=
  {| step_name := "load"; capability := "c"; step_kind := KTASK; depends_on := [];
     execution_mode := SYNC; timeout_seconds := 60;
     retry_policy := {| max_retries := 2; retry_delay_ms := 1000 |};
     input_mapping := []; output_mapping := [("m", "n")]; condition := None;
     on_failure := ABORT; fallback := None; flask_url := None; map_over := Some "xs";
     max_concurrency := 0; map_error_policy := CONTINUE; streaming_trigger := None |}.

Definition two_steps : DagDefinition :=
  {| dag_id := "d"; dag_tenant_id := "t"; dag_max_concurrent := None;
     steps := [DagStep_default "store" "c" ["load"]; retried_step] |}.

Definition test_engine : engine := {| has_store := false; max_parallelism := 8; stream_redis := NoClient |}.

Definition w_start : world doc_services := world0 0.

Lemma retry_correct_witness :
  ∃ n w' out, srun (E := flaky) (normal_section retried_step []) (ctx_of [] []) w_start =
    (ctx_of [] [], w', out) /\ retry_spec (E := flaky) retried_step [] 2 n w_start w' out.
Proof. apply (retry_correct (E := flaky) retried_step [] (ctx_of [] []) w_start); [done|simpl; lia]. Defined.

Lemma map_correct_witness :
  ∃ w' out, srun (E := flaky) (map_section retried_step "xs" [("xs", VList [VInt 1; VInt 2; VInt 3])] (ctx_of [] []))
    (ctx_of [] []) w_start = (ctx_of [] [], w', out) /\
    out = inr (VDict [("results", VList [error_marker 0 (Exn TimeoutError "");
                                         error_marker 1 (Exn TimeoutError "");
                                         VDict [("n", VInt 2)]])]).
Proof.
  destruct (map_correct (E := flaky) retried_step "xs" [("xs", VList [VInt 1; VInt 2; VInt 3])]
              (ctx_of [] []) w_start flaky_no_cancel) as (w' & out & Hrun & _ & Hc & _).
  exists w', out. split; [exact Hrun|exact (Hc eq_refl)].
Defined.

Definition two_run : option ((exn + DagContext) * world doc_services) :=
  execute_dag (E := flaky) test_engine two_steps [] [repeat O 20; repeat O 20] w_start.

Lemma two_run_value : ∃ ctx w', two_run = Some (inr ctx, w') /\ ctx_status ctx = DAG_COMPLETED /\
  ctx_completed_steps ctx = ["load"; "store"] /\ ctx_context ctx = [("m", VInt 2)].
Proof.
  assert (match two_run with
          | Some (inr ctx, _) => ctx_status ctx = DAG_COMPLETED /\
              ctx_completed_steps ctx = ["load"; "store"] /\ ctx_context ctx = [("m", VInt 2)]
          | _ => False
          end) as H by (vm_compute; auto).
  destruct two_run as [[[e|ctx] w']|]; [done| |done]. eauto.
Qed.

Lemma dag_run_correct_witness : ∃ ctx w', two_run = Some (inr ctx, w') /\ NoDup (ctx_completed_steps ctx).
Proof.
  destruct two_run_value as (ctx & w' & Hrun & _). exists ctx, w'. split; [exact Hrun|].
  assert (Hnd : NoDup (map step_name (steps two_steps))) by (apply (bool_decide_unpack _); exact I).
  exact (proj1 (dag_run_correct (E := flaky) test_engine two_steps [] _ w_start w' ctx Hnd Hrun)).
Defined.

Lemma dag_bounded_and_live_witness : ∃ scheds ctx w',
  execute_dag (E := flaky) test_engine two_steps [] scheds w_start = Some (inr ctx, w').
Proof.
  assert (Hpar : 1 <= parallelism test_engine two_steps) by (vm_compute; discriminate).
  exact (proj2 (proj2 (dag_bounded_and_live (E := flaky) test_engine two_steps [] w_start Hpar))).
Defined.

(** What the scheduler cannot order is dropped in silence: a DAG all of
    whose steps wait for a cycle or for a step that does not exist ends COMPLETED
    at once, with no step run, whatever the environment, for an initial context
    whose task identifier is accepted. *)
Theorem unschedulable_completes {S : Services} {E : Env} (eng : engine) (d : DagDefinition) (init : dict)
    (w : world S) (Hwait : ∀ s, s ∈ steps d -> depends_on s <> []) (Hid : ∃ tid, context_task_id d init = inr tid) :
  ∃ ctx, execute_dag eng d init [] w = Some (inr ctx, w) /\
    ctx_status ctx = DAG_COMPLETED /\ ctx_completed_steps ctx = [].
Proof.
  assert (Ht : topo_sort (steps d) = []).
  { unfold topo_sort. assert (initial_queue (steps d) = []) as ->; [|by destruct (length (steps d))].
    unfold initial_queue. destruct (filter _ _) as [|n l] eqn:Ef; [done|exfalso].
    assert (n ∈ n :: l) as Hn by set_solver. rewrite <- Ef in Hn.
    apply list_elem_of_filter in Hn as [Hn _]. revert Hn. unfold in_degrees.
    assert (∀ s, s ∈ steps d -> depends_on s <> []) as Hw by done. revert Hw. clear.
    induction (steps d) as [|u ss IH] using rev_ind; intros Hw; [done|]. rewrite foldl_app. simpl.
    destruct (decide (step_name u = n)) as [<-|].
    - rewrite lookup_insert_eq. intros [= H]. apply (Hw u); [set_solver|]. destruct (depends_on u); [done|simpl in H; lia].
    - rewrite lookup_insert_ne by done. apply IH. intros s Hs. apply Hw. set_solver. }
  unfold execute_dag, initial_ctx. rewrite Ht. destruct Hid as [tid ->].
  eexists. split; [reflexivity|done].
Qed.

Lemma unschedulable_completes_witness : ∃ ctx,
  execute_dag (E := flaky) test_engine
    {| dag_id := "d"; dag_tenant_id := "t"; dag_max_concurrent := None;
       steps := [DagStep_default "a" "c" ["b"]; DagStep_default "b" "c" ["a"]] |} [] [] w_start =
    Some (inr ctx, w_start) /\ ctx_status ctx = DAG_COMPLETED /\ ctx_completed_steps ctx = [].
Proof.
  apply (unschedulable_completes (E := flaky)); [|by eexists]. simpl. intros s Hs.
  apply elem_of_cons in Hs as [->|Hs]; [done|]. apply list_elem_of_singleton in Hs as ->. done.
Defined.
