(* ===== verification/TaskCompletion.v ===== *)
(** * Task completion

    [src/platform/task_completion_node.py]: the final state and the callback
    outbox row are written to the database, the callback is posted with inline
    retries and falls back to a durable retry queue in Redis, whose due events
    [process_due_callbacks] takes, posts again, reschedules or dead-letters. *)

From stdpp Require Import base gmap strings list.
From S2P Require Import Prelude PyValue Json Redis TaskModel Tables Effects QueueKeys Tracking.

Open Scope Z_scope.

Definition MAX_INLINE_RETRIES : Z := 3.
Definition MAX_DURABLE_ATTEMPTS : Z := 8.
Definition BASE_RETRY_DELAY : Z := 10.
Definition MAX_RETRY_DELAY : Z := 600.
Definition DLQ_TTL : Z := 30 * 86400.

Record TaskCompletionNode := {
  tc_db : bool;
  tc_redis : bool;
  inline_retries : nat;
  max_durable_attempts : Z
}.

Definition TaskCompletionNode_init (db redis : bool) : TaskCompletionNode :=
  {| tc_db := db; tc_redis := redis; inline_retries := Z.to_nat MAX_INLINE_RETRIES;
     max_durable_attempts := MAX_DURABLE_ATTEMPTS |}.

(** ** [str(value)] *)

Definition hex2 (n : nat) : string :=
  String (hex_digit (n / 16)) (String (hex_digit (n mod 16)) EmptyString).

(** One character of [repr(str)] inside the quote [q]. *)
Definition repr_char (q c : Ascii.ascii) : string :=
  let n := Ascii.nat_of_ascii c in
  if decide (c = backslash) then String backslash (String backslash EmptyString)
  else if decide (c = q) then String backslash (String q EmptyString)
  else if (n =? 10)%nat then String backslash "n"
  else if (n =? 13)%nat then String backslash "r"
  else if (n =? 9)%nat then String backslash "t"
  else if ((n <? 32) || (n =? 127))%nat then String backslash ("x" +:+ hex2 n)
  else String c EmptyString.

Fixpoint repr_chars (q : Ascii.ascii) (s : string) : string :=
  match s with EmptyString => EmptyString | String c s' => repr_char q c +:+ repr_chars q s' end.

Definition squote : Ascii.ascii := Ascii.ascii_of_nat 39.

Definition repr_str (s : string) : string :=
  let q := if negb (no_char squote s) && no_char dquote s then dquote else squote in
  String q (repr_chars q s +:+ String q EmptyString).

Fixpoint py_repr (v : value) : string :=
  match v with
  | VNone => "None"
  | VBool b => if b then "True" else "False"
  | VInt z => dec_of_Z z
  | VFloat m => print_milli m
  | VStr s => repr_str s
  | VList l => "[" +:+ (fix go (l : list value) : string :=
                 match l with
                 | [] => ""
                 | [x] => py_repr x
                 | x :: l' => py_repr x +:+ ", " +:+ go l'
                 end) l +:+ "]"
  | VDict d => "{" +:+ (fix go (d : list (string * value)) : string :=
                 match d with
                 | [] => ""
                 | [(k, x)] => repr_str k +:+ ": " +:+ py_repr x
                 | (k, x) :: d' => repr_str k +:+ ": " +:+ py_repr x +:+ ", " +:+ go d'
                 end) d +:+ "}"
  end.

Definition py_str (v : value) : string := match v with VStr s => s | _ => py_repr v end.

(** ** Persistence *)

(** The status the row gets: through the state machine for the two final
    statuses, as given otherwise. *)
Definition next_status (cur : TaskStatus) (target : string) : exn + TaskStatus :=
  if decide (target = "completed") then
    match transition cur COMPLETE with inl e => inl e | inr r => inr (current r) end
  else if decide (target = "failed") then
    match transition cur FAIL with inl e => inl e | inr r => inr (current r) end
  else match status_of_value target with
       | Some s => inr s
       | None => inl (Exn ValueError (target +:+ " is not among the defined enum values"))
       end.

(** [str(result.get("error", ""))[:2000]], when the task failed with a text *)
Definition error_of (status : string) (result : value) : option string :=
  match result with
  | VDict d =>
      if decide (status = "failed") then
        match py_str (dict_get_or "error" (VStr "") d) with
        | EmptyString => None
        | s => Some (str_take 2000 s)
        end
      else None
  | _ => None
  end.

Definition result_json (result : value) : option string :=
  match result with VNone => None | _ => Some (json_dumps result) end.

Definition completed_row (st : TaskStatus) (out err : option string) (now : Z) (r : TaskRecord) : TaskRecord :=
  {| task_id := task_id r; tenant_id := tenant_id r; task_type := task_type r; dag_id := dag_id r;
     status := st; priority := priority r; cluster_id := cluster_id r;
     current_step := current_step r; input_data := input_data r; output_data := out;
     error_message := match err with Some e => Some e | None => error_message r end;
     metadata_json := metadata_json r; callback_url := callback_url r;
     idempotency_key := idempotency_key r; timeout_seconds := timeout_seconds r;
     max_retries := max_retries r; attempt := attempt r; scheduled_at := scheduled_at r;
     cron_expr := cron_expr r; created_at := created_at r; updated_at := now |}.

(** [TaskRecord(task_id, tenant_id, status, output_data)]: a row without a type *)
Definition unknown_row (id tenant : string) (st : TaskStatus) (out err : option string) (now : Z) : TaskRecord :=
  {| task_id := id; tenant_id := tenant; task_type := None; dag_id := None; status := st;
     priority := NORMAL; cluster_id := None; current_step := None; input_data := None;
     output_data := out; error_message := err; metadata_json := None; callback_url := None;
     idempotency_key := None; timeout_seconds := 3600; max_retries := 3; attempt := 0;
     scheduled_at := None; cron_expr := None; created_at := now; updated_at := now |}.

Definition callback_payload (id status : string) (result : value) (now : Z) : value :=
  VDict [("task_id", VStr id); ("status", VStr status); ("result", result);
         ("timestamp", VInt (now / 1000))].

Definition outbox_row (id tenant url payload : string) (n : Z) : CallbackOutboxRecord :=
  {| cb_id := n; cb_task_id := id; cb_tenant_id := tenant; cb_callback_url := url;
     cb_payload_json := payload; cb_delivery_status := CB_PENDING; cb_attempt_count := 0;
     cb_next_attempt_at := None; cb_last_error := None; cb_acknowledged_by := None;
     cb_acknowledged_at := None |}.

(** [session.add(CallbackOutboxRecord(...))]: column lengths, next id *)
Definition insert_outbox (id tenant url payload : string) (t : tables) : exn + tables :=
  if (64 <? String.length id)%nat || (512 <? String.length url)%nat || (64 <? String.length tenant)%nat
  then inl (Exn IntegrityError "Data too long for column")
  else inr (set_outbox (λ l, l ++ [outbox_row id tenant url payload (Z.of_nat (S (length l)))]) t).

(** The session block of [_persist]; [ts] is the clock read for the payload. *)
Definition persist_tx (id status : string) (result : value) (tenant url : string) (ts now : Z)
    (t : tables) : exn + (tables * unit) :=
  let out := result_json result in
  let err := error_of status result in
  let stored :=
    match db_tasks t !! id with
    | Some row =>
        match next_status (Tables.status row) status with
        | inl e => inl e
        | inr st => inr (update_task id (completed_row st out err now) t)
        end
    | None =>
        match status_of_value status with
        | None => inl (Exn ValueError (status +:+ " is not among the defined enum values"))
        | Some st => insert_task (unknown_row id tenant st out err now) t
        end
    end in
  match stored with
  | inl e => inl e
  | inr t' =>
      if decide (url = "") then inr (t', tt)
      else match insert_outbox id tenant url (json_dumps (callback_payload id status result ts)) t' with
           | inl e => inl e
           | inr t'' => inr (t'', tt)
           end
  end.

Section Node.
Context (tc : TaskCompletionNode).

Definition persist (id status : string) (result : value) (tenant url : string) : M unit :=
  if negb (tc_db tc) then ret tt else
  let* ts := time_ms in
  do* sql (persist_tx id status result tenant url ts) in
  except (emit (tc_db tc) id ("task_" +:+ status) [("callback_url", VStr url)] None) (λ _, ret tt).

(** ** Callback: inline attempts *)

Definition callback_request (url : string) (payload : value) (id : string) (attempt : value) : http_request :=
  {| req_method := "POST"; req_url := url;
     req_headers := [("Idempotency-Key", id); ("X-Retry-Attempt", py_str attempt)];
     req_body := json_dumps payload |}.

Definition mark_done (id : string) : M unit :=
  if tc_redis tc then do* redis (callback_done id) (SET "1" (Some 86400000) false) in ret tt else ret tt.

Definition retry_delay (attempt : Z) : Z := Z.min MAX_RETRY_DELAY (BASE_RETRY_DELAY * 2 ^ (attempt - 1)).

Definition retry_event (id url payload : value) (attempt : Z) : value :=
  VDict [("task_id", id); ("callback_url", url); ("payload", payload); ("attempt", VInt attempt)].

Definition enqueue_callback_retry (id url payload : value) (attempt : Z) : M unit :=
  if negb (tc_redis tc) then ret tt else
  let* now := time_ms in
  do* redis callback_retry
        (ZADD (now + retry_delay attempt * 1000) (json_dumps (retry_event id url payload attempt))) in
  ret tt.

(** The loop over the attempts; [left] attempts remain, [n] is the number of the
    next one.  The random jitter of the pause is part of the time a call takes. *)
Fixpoint inline_attempts (id url : string) (payload : value) (n : Z) (left : nat) : M bool :=
  match left with
  | O => ret false
  | S left' =>
      let* sent := except
        (let* resp := http (callback_request url payload id (VInt n)) in
         do* raise_for_status resp in
         do* mark_done id in
         ret true)
        (λ _, if (n <? Z.of_nat (inline_retries tc))
              then do* sleep (Z.min (2 ^ n) 60 * 1000) in ret false
              else ret false) in
      if sent then ret true else inline_attempts id url payload (n + 1) left'
  end.

Definition trigger_callback (id status : string) (result : value) (url : string) : M unit :=
  if decide (url = "") then ret tt else
  let* now := time_ms in
  let payload := callback_payload id status result now in
  let* sent := inline_attempts id url payload 1 (inline_retries tc) in
  if sent then ret tt else enqueue_callback_retry (VStr id) (VStr url) payload 1.

(** [handle_completion]: both tasks run concurrently, their exceptions are only
    logged, and the answer is [True]. *)
Definition completion_tasks (id status : string) (result : value) (url tenant : string) : list (M unit) :=
  [persist id status result tenant url; trigger_callback id status result url].

(** ** The durable retry queue *)

Definition send_callback_once (url : value) (payload : value) (id : value) (attempt : value) : M bool :=
  match url, id with
  | VStr u, VStr i =>
      except (let* resp := http (callback_request u payload i attempt) in
              do* raise_for_status resp in
              ret true)
             (λ _, ret false)
  | _, _ => ret false
  end.

Definition text_of (v : value) : string := match v with VStr s => s | _ => "" end.

Definition dead_letter (event : string) : M unit :=
  let* now := time_ms in
  do* redis callback_dlq (ZADD now event) in
  do* redis callback_dlq (EXPIRE DLQ_TTL) in
  ret tt.

(** One event that was taken from the queue.  The attempt number of every event
    the platform writes is an integer. *)
Definition process_event (event_str : string) : M bool :=
  match json_loads event_str with
  | None => ret false
  | Some (VDict event) =>
      let id := dict_get_or "task_id" (VStr "") event in
      let url := dict_get_or "callback_url" (VStr "") event in
      let payload := dict_get_or "payload" (VDict []) event in
      let attempt := dict_get_or "attempt" (VInt 1) event in
      let* success := send_callback_once url payload id attempt in
      do* (if success then mark_done (text_of id)
           else match attempt with
                | VInt n =>
                    if n <? max_durable_attempts tc
                    then enqueue_callback_retry id url payload (n + 1)
                    else dead_letter event_str
                | _ => raise (Exn TypeError "'<' not supported")
                end) in
      ret true
  | Some _ => raise (Exn AttributeError "object has no attribute 'get'")
  end.

Definition process_one (n : Z) (ev : string * Z) : M Z :=
  let* removed := redis callback_retry (ZREM ev.1) in
  if removed =? 0 then ret n else
  let* counted := process_event ev.1 in
  ret (if counted : bool then n + 1 else n).

Definition process_due_callbacks (batch_size : nat) : M Z :=
  if negb (tc_redis tc) then ret 0 else
  let* now := time_ms in
  let* events := redis callback_retry (ZRANGEBYSCORE None (Some now) (Some batch_size)) in
  fold_m events process_one 0.
End Node.

(** ** Persisting the final state *)

(** What completing a task writes, over any services.  A [RUNNING] row gets
    its final status, its output and (with a callback address) a pending outbox
    row, in one transaction.  A row in any other status is refused by the state
    machine: nothing is written, not even the outbox row.  A task without a row
    is refused by the database, because the row built for it has no type.  (No
    operation of the platform moves a row to [RUNNING], and [handle_completion]
    reports success in every case.) *)
Theorem completion_writes (id : string) (ok : bool) (result : value) (tenant url : string) (ts now : Z) (t : tables)
    (Hid : (String.length id <= 64)%nat) (Hurl : (String.length url <= 512)%nat)
    (Hten : (String.length tenant <= 64)%nat) :
  let st := if ok then "completed" else "failed" in
  match db_tasks t !! id with
  | Some row =>
      match Tables.status row with
      | RUNNING =>
          exists t', persist_tx id st result tenant url ts now t = inr (t', tt) /\
            db_tasks t' = <[id := completed_row (if ok then COMPLETED else FAILED) (result_json result)
                                    (error_of st result) now row]> (db_tasks t) /\
            db_outbox t' = db_outbox t ++
              (if decide (url = "") then []
               else [outbox_row id tenant url (json_dumps (callback_payload id st result ts))
                       (Z.of_nat (S (length (db_outbox t))))])
      | _ => exists m, persist_tx id st result tenant url ts now t = inl (Exn InvalidTaskTransition m)
      end
  | None => exists m, persist_tx id st result tenant url ts now t = inl (Exn IntegrityError m)
  end.
Proof.
  intros st. unfold persist_tx.
  destruct (db_tasks t !! id) as [row|] eqn:Er.
  - assert (Hn : next_status (Tables.status row) st =
        match transition (Tables.status row) (if ok then COMPLETE else FAIL) with
        | inl e => inl e | inr r => inr (current r) end) by (by destruct ok).
    rewrite Hn. destruct (Tables.status row) eqn:Es; try (destruct ok; eexists; reflexivity).
    assert (Ht : match transition RUNNING (if ok then COMPLETE else FAIL) with
        | inl e => inl e | inr r => inr (current r) end = inr (if ok then COMPLETED else FAILED)) by (by destruct ok).
    rewrite Ht. simpl. unfold insert_outbox.
    rewrite !(proj2 (Nat.ltb_ge _ _)) by done. simpl.
    assert (Ha : ∀ f, alter f id (db_tasks t) = <[id := f row]> (db_tasks t)).
    { intros f. apply map_eq. intros k. destruct (decide (id = k)) as [<-|Hne].
      - by rewrite lookup_alter_eq, lookup_insert_eq, Er.
      - by rewrite lookup_alter_ne, lookup_insert_ne. }
    destruct (decide (url = "")); eexists; (split; [reflexivity|]); simpl;
      rewrite Ha; split; [done|by rewrite app_nil_r|done|done].
  - destruct ok; simpl; eexists; reflexivity.
Qed.

(** ** The durable retry queue *)

(** The key holds exactly this sorted set, without an expiry. *)
Definition perm_zset (ks : keyspace) (k : string) (z : gmap string Z) : Prop := ks !! k = keep (RZset z) None.

Lemma perm_zset_live now ks k z : perm_zset ks k z -> live now ks k = keep (RZset z) None.
Proof.
  unfold perm_zset, live. intros ->. unfold keep. by case_bool_decide.
Qed.

Section Durable.
Context {E : Env} (Hq : quiet E).
Notation W := (world doc_services).

Lemma exp_of_perm z : exp_of (keep (RZset z) None) = None.
Proof using Type. unfold keep. by case_bool_decide. Qed.

Lemma run_zadd_perm k s m z (w : W) : perm_zset (w_redis w) k z -> exists n,
  run (redis k (ZADD s m)) w =
  (after (put k (keep (RZset (<[m := s]> z)) None) (w_redis w)) (w_db w) w, inr n).
Proof using Hq.
  intros Hz. rewrite run_redis, (proj1 Hq), (perm_zset_live _ _ _ _ Hz).
  erewrite act_ZADD by apply zset_of_keep. rewrite exp_of_perm. eauto.
Qed.

Lemma run_zrem_perm k m z (w : W) : perm_zset (w_redis w) k z ->
  run (redis k (ZREM m)) w =
  (after (put k (keep (RZset (delete m z)) None) (w_redis w)) (w_db w) w, inr (zflag (z !! m))).
Proof using Hq.
  intros Hz. rewrite run_redis, (proj1 Hq), (perm_zset_live _ _ _ _ Hz).
  erewrite act_ZREM by apply zset_of_keep. by rewrite exp_of_perm.
Qed.

Lemma perm_zset_put ks k z : perm_zset (put k (keep (RZset z) None) ks) k z.
Proof using Type. apply lookup_put_eq. Qed.

(** A post and its verdict. *)
Definition verdict (n : nat) (r : http_request) : bool :=
  match http_answer n r with inr resp => is_success resp | inl _ => false end.

Lemma run_send_once u i payload attempt (w : W) :
  (∀ n r c, http_answer n r = inl c -> is_exception c = true) ->
  let req := callback_request u payload i (VInt attempt) in
  run (send_callback_once (VStr u) payload (VStr i) (VInt attempt)) w =
  (advance (S := doc_services) (w_redis w) (w_db w) [OHttp req] w, inr (verdict (w_tick w) req)).
Proof using Type.
  intros Hnc req. unfold send_callback_once. rewrite run_except, run_bind. simpl. fold req.
  unfold verdict. destruct (http_answer (w_tick w) req) as [c|resp] eqn:Ea.
  - by rewrite (Hnc _ _ _ Ea).
  - unfold raise_for_status. by destruct (is_success resp).
Qed.
End Durable.

Lemma keys_apart id : callback_done id <> callback_retry /\ callback_dlq <> callback_retry.
Proof. unfold callback_done, callback_retry, callback_dlq. split; by intros [=]. Qed.

(** What taking one due event leaves behind. *)
Definition event_outcome (tc : TaskCompletionNode) (id url : string) (payload : value) (attempt : Z)
    (z : gmap string Z) (sent : bool) (t0 t1 : Z) (ks' : keyspace) : Prop :=
  let ev := json_dumps (retry_event (VStr id) (VStr url) payload attempt) in
  let ev' := json_dumps (retry_event (VStr id) (VStr url) payload (attempt + 1)) in
  if sent then
    perm_zset ks' callback_retry (delete ev z) /\
    exists t, t0 <= t <= t1 /\ ks' !! callback_done id = Some (REntry (RStr "1") (Some (t + 86400000)))
  else if attempt <? max_durable_attempts tc then
    exists t, t0 <= t <= t1 /\
      perm_zset ks' callback_retry (<[ev' := t + retry_delay (attempt + 1) * 1000]> (delete ev z))
  else
    perm_zset ks' callback_retry (delete ev z) /\
    exists t zd, t0 <= t <= t1 /\ ks' !! callback_dlq = Some (REntry (RZset zd) (Some (t + DLQ_TTL * 1000))) /\
      is_Some (zd !! ev).

Section DurableRun.
Context {E : Env} (Hq : quiet E) (tc : TaskCompletionNode) (Htc : tc_redis tc = true).
Notation W := (world doc_services).

Lemma run_reschedule id url payload attempt z (w : W) : perm_zset (w_redis w) callback_retry z ->
  exists w', run (enqueue_callback_retry tc id url payload attempt) w = (w', inr tt) /\
    w_log w' = w_log w /\ exists t, w_now w <= t <= w_now w' /\
    perm_zset (w_redis w') callback_retry
      (<[json_dumps (retry_event id url payload attempt) := t + retry_delay attempt * 1000]> z).
Proof using Hq Htc.
  intros Hz. unfold enqueue_callback_retry. rewrite Htc. simpl negb. cbv iota.
  rewrite run_bind, run_time_ms. cbv beta iota. rewrite run_bind.
  set (w1 := after (w_redis w) (w_db w) w) in *. change (w_redis w) with (w_redis w1) in Hz.
  edestruct (run_zadd_perm Hq callback_retry (w_now w + retry_delay attempt * 1000)
    (json_dumps (retry_event id url payload attempt)) z w1 Hz) as [n' ->]. cbv beta iota.
  eexists. split; [reflexivity|]. split; [simpl; by rewrite !app_nil_r|].
  exists (w_now w). split; [simpl; lia|]. apply perm_zset_put.
Qed.

Lemma run_mark id (w : W) : exists w',
  run (mark_done tc id) w = (w', inr tt) /\ w_log w' = w_log w /\
  (∀ k, k <> callback_done id -> w_redis w' !! k = w_redis w !! k) /\
  exists t, w_now w <= t <= w_now w' /\
    w_redis w' !! callback_done id = Some (REntry (RStr "1") (Some (t + 86400000))).
Proof using Hq Htc.
  unfold mark_done. rewrite Htc, run_bind, run_redis, (proj1 Hq), act_SET. cbv beta iota.
  eexists. split; [reflexivity|]. split; [simpl; by rewrite app_nil_r|]. simpl. split.
  - intros k Hk. by apply lookup_put_ne.
  - exists (w_now w). split; [lia|]. apply lookup_put_eq.
Qed.

(** The dead-letter queue is absent or a sorted set that does not expire before
    [t1]. *)
Definition dlq_steady (t0 t1 : Z) (ks : keyspace) : Prop :=
  exists e, is_Some (zset_of e) /\ ∀ t, t0 <= t <= t1 -> live t ks callback_dlq = e.

Lemma steady_fresh t0 t1 ks e t : (∀ t, t0 <= t <= t1 -> live t ks callback_dlq = e) -> t0 <= t <= t1 ->
  match exp_of e with Some x => t < x | None => True end.
Proof using Type.
  clear. intros H Ht. specialize (H t Ht). pose proof (live_fresh t ks callback_dlq) as Hf. rewrite H in Hf.
  destruct e as [[v [x|]]|]; simpl in *; try done. unfold expired in Hf. simpl in Hf. by apply Z.leb_gt in Hf.
Qed.

Lemma run_dead_letter ev (w : W) :
  let '(w', r) := run (dead_letter ev) w in
  dlq_steady (w_now w) (w_now w') (w_redis w) ->
  r = inr tt /\ w_log w' = w_log w /\
  (∀ k, k <> callback_dlq -> w_redis w' !! k = w_redis w !! k) /\
  exists t zd, w_now w <= t <= w_now w' /\
    w_redis w' !! callback_dlq = Some (REntry (RZset zd) (Some (t + DLQ_TTL * 1000))) /\ is_Some (zd !! ev).
Proof using Hq.
  destruct (run (dead_letter ev) w) as [w' r] eqn:Hrun. intros (e & [z Hz] & Hst).
  unfold dead_letter in Hrun. rewrite run_bind, run_time_ms in Hrun. cbv beta iota in Hrun.
  set (w1 := after (w_redis w) (w_db w) w) in Hrun.
  assert (Hw1 : w_now w <= w_now w1 /\ w_log w1 = w_log w /\ w_redis w1 = w_redis w)
    by (simpl; rewrite app_nil_r; split; [lia|done]). clearbody w1. destruct Hw1 as (Hn1 & Hl1 & Hr1).
  assert (Hle1 : w_now w1 <= w_now w') by (replace w' with (w', r).1 by done; rewrite <- Hrun; apply run_time).
  rewrite run_bind, run_redis, (proj1 Hq), Hr1, Hst in Hrun by lia.
  erewrite act_ZADD in Hrun by exact Hz. cbv beta iota in Hrun.
  set (z' := <[ev := w_now w]> z) in Hrun.
  assert (Hk : keep (RZset z') (exp_of e) = Some (REntry (RZset z') (exp_of e)))
    by (unfold keep; by rewrite bool_decide_eq_false_2 by apply insert_non_empty). rewrite Hk in Hrun.
  set (w2 := after _ (w_db w1) w1) in Hrun.
  assert (Hw2 : w_now w1 <= w_now w2 /\ w_log w2 = w_log w1 /\
    w_redis w2 = put callback_dlq (Some (REntry (RZset z') (exp_of e))) (w_redis w))
    by (simpl; rewrite app_nil_r; split; [lia|done]). clearbody w2. destruct Hw2 as (Hn2 & Hl2 & Hr2).
  assert (Hle2 : w_now w2 <= w_now w') by (replace w' with (w', r).1 by done; rewrite <- Hrun; apply run_time).
  rewrite run_bind, run_redis, (proj1 Hq), Hr2 in Hrun.
  rewrite live_put_eq in Hrun.
  2:{ pose proof (steady_fresh _ _ _ _ (w_now w2) Hst ltac:(lia)) as Hf. unfold fresh, expired. simpl.
      destruct (exp_of e); [by apply Z.leb_gt|done]. }
  rewrite act_EXPIRE in Hrun. simpl in Hrun. injection Hrun as <- <-.
  split; [done|]. split; [simpl; rewrite app_nil_r; congruence|]. split.
  - intros k Hne. simpl. by rewrite !lookup_put_ne.
  - exists (w_now w2), z'. split; [simpl in *; lia|]. split; [apply lookup_put_eq|].
    subst z'. rewrite lookup_insert_eq. eauto.
Qed.
End DurableRun.

Lemma process_event_spec {E : Env} (Hq : quiet E) (tc : TaskCompletionNode) (Htc : tc_redis tc = true)
    (Hnc : ∀ n r c, http_answer n r = inl c -> is_exception c = true)
    id url payload attempt z (w : world doc_services) :
  let ev := json_dumps (retry_event (VStr id) (VStr url) payload attempt) in
  let req := callback_request url payload id (VInt attempt) in
  perm_zset (w_redis w) callback_retry (delete ev z) ->
  let '(w', r) := run (process_event tc ev) w in
  dlq_steady (w_now w) (w_now w') (w_redis w) ->
  r = inr true /\ w_log w' = w_log w ++ [OHttp req] /\
  event_outcome tc id url payload attempt z (verdict (w_tick w) req) (w_now w) (w_now w') (w_redis w').
Proof.
  intros ev req Hz. destruct (keys_apart id) as [Hd1 Hd2].
  destruct (run (process_event tc ev) w) as [w' r] eqn:Hrun. intros Hst.
  unfold process_event in Hrun. subst ev. rewrite loads_json_dumps in Hrun.
  unfold retry_event in Hrun at 1. cbv beta iota in Hrun.
  change (dict_get_or "attempt" _ _) with (VInt attempt) in Hrun.
  change (dict_get_or "task_id" _ _) with (VStr id) in Hrun.
  change (dict_get_or "callback_url" _ _) with (VStr url) in Hrun.
  change (dict_get_or "payload" _ _) with payload in Hrun. cbv iota beta in Hrun.
  rewrite run_bind, (run_send_once url id payload attempt w Hnc) in Hrun. fold req in Hrun. cbv beta iota in Hrun.
  set (w1 := advance _ _ _ w) in Hrun.
  assert (Hw1 : w_now w <= w_now w1 /\ w_log w1 = w_log w ++ [OHttp req] /\ w_redis w1 = w_redis w)
    by (simpl; split; [lia|done]). clearbody w1. destruct Hw1 as (Hn1 & Hl1 & Hr1).
  rewrite run_bind in Hrun. rewrite <- Hr1 in Hz. unfold event_outcome.
  destruct (verdict (w_tick w) req); [|destruct (attempt <? max_durable_attempts tc)].
  - destruct (run_mark Hq tc Htc (text_of (VStr id)) w1) as (w2 & Hm & Hl & Hother & t & Ht & Hdone).
    rewrite Hm in Hrun. injection Hrun as <- <-. split; [done|]. split; [congruence|]. split.
    + unfold perm_zset. by rewrite Hother by (simpl; congruence).
    + exists t. split; [lia|done].
  - destruct (run_reschedule Hq tc Htc (VStr id) (VStr url) payload (attempt + 1) _ w1 Hz) as (w2 & Hm & Hl & t & Ht & Hz').
    rewrite Hm in Hrun. injection Hrun as <- <-. split; [done|]. split; [congruence|]. exists t. split; [lia|done].
  - pose proof (run_dead_letter Hq (json_dumps (retry_event (VStr id) (VStr url) payload attempt)) w1) as Hm.
    destruct (run (dead_letter _) w1) as [w2 r2].
    assert (w2 = w') as -> by (destruct r2; by injection Hrun).
    destruct Hm as (-> & Hl & Hother & t & zd & Ht & Hdlq & Hev).
    { destruct Hst as (e & He & Hst). exists e. rewrite Hr1. split; [done|]. intros t Ht. apply Hst. lia. }
    injection Hrun as <-. split; [done|]. split; [congruence|]. split.
    + unfold perm_zset. by rewrite Hother.
    + exists t, zd. split; [lia|done].
Qed.

Lemma event_outcome_mono tc id url payload attempt z sent t0 t0' t1 ks :
  t0' <= t0 -> event_outcome tc id url payload attempt z sent t0 t1 ks ->
  event_outcome tc id url payload attempt z sent t0' t1 ks.
Proof.
  intros Hle. unfold event_outcome. destruct sent; [|destruct (_ <? _)].
  - intros [H (t & Ht & Hd)]. split; [done|]. exists t. split; [lia|done].
  - intros (t & Ht & Hz). exists t. split; [lia|done].
  - intros [H (t & zd & Ht & Hd)]. split; [done|]. exists t, zd. split; [lia|done].
Qed.

Lemma process_one_spec {E : Env} (Hq : quiet E) (tc : TaskCompletionNode) (Htc : tc_redis tc = true)
    (Hnc : ∀ n r c, http_answer n r = inl c -> is_exception c = true)
    id url payload attempt z n sc (w : world doc_services) :
  let ev := json_dumps (retry_event (VStr id) (VStr url) payload attempt) in
  let req := callback_request url payload id (VInt attempt) in
  perm_zset (w_redis w) callback_retry z -> z !! ev = Some sc ->
  let '(w', r) := run (process_one tc n (ev, sc)) w in
  dlq_steady (w_now w) (w_now w') (w_redis w) ->
  r = inr (n + 1) /\ w_log w' = w_log w ++ [OHttp req] /\
  event_outcome tc id url payload attempt z (verdict (S (w_tick w)) req) (w_now w) (w_now w') (w_redis w').
Proof.
  intros ev req Hz Hev. unfold process_one. simpl fst. rewrite run_bind, (run_zrem_perm Hq _ _ z) by done.
  rewrite Hev. cbv beta iota. change (zflag (Some sc) =? 0) with false. cbv iota. rewrite run_bind.
  set (w1 := after _ (w_db w) w).
  assert (Hw1 : w_now w <= w_now w1 /\ w_log w1 = w_log w /\ w_tick w1 = S (w_tick w) /\
    w_redis w1 = put callback_retry (keep (RZset (delete ev z)) None) (w_redis w))
    by (simpl; rewrite app_nil_r; split; [lia|done]). clearbody w1. destruct Hw1 as (Hn1 & Hl1 & Ht1 & Hr1).
  assert (Hz1 : perm_zset (w_redis w1) callback_retry (delete ev z)) by (rewrite Hr1; apply perm_zset_put).
  pose proof (process_event_spec Hq tc Htc Hnc id url payload attempt z w1 Hz1) as Hp. fold ev req in Hp.
  destruct (run (process_event tc ev) w1) as [w2 r2] eqn:Hrun. rewrite Ht1 in Hp.
  assert (Hle : dlq_steady (w_now w) (w_now w2) (w_redis w) -> dlq_steady (w_now w1) (w_now w2) (w_redis w1)).
  { intros (e & He & Hst). exists e. split; [done|]. intros t Ht. rewrite Hr1, live_put_ne by (intros H; by destruct (keys_apart id) as [_ []]).
    apply Hst. lia. }
  assert (Hgoal : dlq_steady (w_now w) (w_now w2) (w_redis w) ->
    r2 = inr true /\ w_log w2 = w_log w ++ [OHttp req] /\
    event_outcome tc id url payload attempt z (verdict (S (w_tick w)) req) (w_now w) (w_now w2) (w_redis w2)).
  { intros Hst%Hle. destruct (Hp Hst) as (-> & Hl & Ho). split; [done|]. split; [congruence|].
    by eapply event_outcome_mono. }
  destruct r2 as [x|b]; intros Hst; destruct (Hgoal Hst) as ([= ->] & Hl & Ho). done.
Qed.

(** C10: a due callback is never lost and never retried for ever.  Taking a due
    event off the durable queue posts it exactly once, with its attempt number; if
    the peer answers 2xx the done marker is set; otherwise the event goes back with
    the next attempt number and an exponential delay, or, once the attempts are
    used up, to the dead-letter queue; in each case the event itself is gone from
    the retry queue. *)
Theorem due_callback_outcome (S : Services) (E : Env) (tc : TaskCompletionNode) (id url : string)
    (payload : value) (attempt : Z) (z : gmap string Z) (n sc : Z) (w : world S)
    (Hq : quiet E) (Hnc : ∀ n r c, http_answer n r = inl c -> is_exception c = true)
    (Htc : tc_redis tc = true) (Hz : perm_zset (ks_of w) callback_retry z)
    (Hev : z !! json_dumps (retry_event (VStr id) (VStr url) payload attempt) = Some sc) :
  let req := callback_request url payload id (VInt attempt) in
  let '(w', r) := run (process_one tc n (json_dumps (retry_event (VStr id) (VStr url) payload attempt), sc)) w in
  dlq_steady (w_now w) (w_now w') (ks_of w) ->
  r = inr (n + 1) /\ w_log w' = w_log w ++ [OHttp req] /\
  event_outcome tc id url payload attempt z (verdict (Datatypes.S (w_tick w)) req)
    (w_now w) (w_now w') (ks_of w').
Proof.
  intros req. transfer (process_one_spec Hq tc Htc Hnc id url payload attempt z n sc (wview w) Hz Hev).
Qed.

(** A member of the retry queue that is not a JSON text, such as the bare
    task id that [phase3_lost_callback] of the reconciler adds, is removed by the
    processor without any post, marker, retry or dead letter: the callback the
    reconciler wanted to recover is dropped. *)
Theorem bare_member_dropped (S : Services) (E : Env) (tc : TaskCompletionNode) (m : string)
    (z : gmap string Z) (n sc : Z) (w : world S)
    (Hq : quiet E) (Hz : perm_zset (ks_of w) callback_retry z) (Hm : json_loads m = None) :
  let '(w', r) := run (process_one tc n (m, sc)) w in
  r = inr n /\ w_log w' = w_log w /\ perm_zset (ks_of w') callback_retry (delete m z) /\
  (∀ k, k <> callback_retry -> ks_of w' !! k = ks_of w !! k).
Proof.
  assert (H : let '(w', r) := run (process_one tc n (m, sc)) (wview w) in
    r = inr n /\ w_log w' = w_log (wview w) /\ perm_zset (ks_of w') callback_retry (delete m z) /\
    (∀ k, k <> callback_retry -> ks_of w' !! k = ks_of (wview w) !! k)); [|transfer H].
  unfold process_one. simpl fst. rewrite run_bind, (run_zrem_perm Hq _ _ z) by done. cbv beta iota.
  destruct (zflag (z !! m) =? 0); [|unfold process_event; rewrite run_bind, Hm]; simpl;
    (split; [done|]; split; [by rewrite app_nil_r|]; split; [apply perm_zset_put|]; intros k Hk; by apply lookup_put_ne).
Qed.

(** ** Concrete runs *)

Definition tc_demo : TaskCompletionNode := TaskCompletionNode_init true true.

Definition running_row : TaskRecord :=
  completed_row RUNNING None None 0 (unknown_row "t-1" "acme" RUNNING None None 0).

Definition t_running : tables := set_tasks (<["t-1" := running_row]>) empty_tables.

Lemma completion_writes_witness : exists t',
  persist_tx "t-1" "completed" (VInt 7) "acme" "http://cb" 5000 5000 t_running = inr (t', tt) /\
  length (db_outbox t') = 1%nat.
Proof.
  assert (Hlen : (String.length "t-1" <= 64)%nat /\ (String.length "http://cb" <= 512)%nat /\
                 (String.length "acme" <= 64)%nat) by (simpl; lia).
  destruct (completion_writes "t-1" true (VInt 7) "acme" "http://cb" 5000 5000 t_running
              (proj1 Hlen) (proj1 (proj2 Hlen)) (proj2 (proj2 Hlen))) as (t' & H1 & _ & H2).
  exists t'. split; [exact H1|]. rewrite H2. reflexivity.
Defined.

Definition demo_event : string := json_dumps (retry_event (VStr "t-1") (VStr "http://cb") (VDict []) 8).

Definition w_retry (m : string) : world doc_services :=
  World (S := doc_services) {[callback_retry := REntry (RZset {[m := 1000]}) None]} empty_tables 2000 O [].

(** The peer is down. *)
Definition deaf : Env := {|
  delay := λ _, 0%N; redis_fault := λ _, None; db_fault := λ _, None; uuid_at := λ _, "";
  scan_slice := λ _ _ _ ks, (0, ks);
  http_answer := λ _ _, inl (Exn ConnectionError "refused");
  invoke_answer := λ _ _ v, inr v
|}.

Lemma due_callback_outcome_witness :
  let '(w', r) := run (E := deaf) (process_one tc_demo 0 (demo_event, 1000)) (w_retry demo_event) in
  r = inr 1 /\ exists t zd, ks_of w' !! callback_dlq = Some (REntry (RZset zd) (Some (t + DLQ_TTL * 1000))) /\
    is_Some (zd !! demo_event).
Proof.
  assert (Hq : quiet deaf) by by split.
  assert (Hnc : ∀ n r c, http_answer (Env := deaf) n r = inl c -> is_exception c = true) by by intros n r c [= <-].
  pose proof (due_callback_outcome doc_services deaf tc_demo "t-1" "http://cb" (VDict []) 8 {[demo_event := 1000]}
    0 1000 (w_retry demo_event) Hq Hnc eq_refl eq_refl (lookup_singleton_eq _ _)) as H.
  fold demo_event in H. destruct (run _ _) as [w' r]. destruct H as (-> & _ & _ & t & zd & _ & H1 & H2).
  - exists None. split; [eexists; reflexivity|]. intros t _. reflexivity.
  - split; [reflexivity|]. exists t, zd. split; [exact H1|exact H2].
Defined.

Lemma bare_member_dropped_witness :
  let '(w', r) := run (E := deaf) (process_one tc_demo 0 ("task-1", 1000)) (w_retry "task-1") in
  r = inr 0 /\ w_log w' = [].
Proof.
  assert (Hq : quiet deaf) by by split.
  assert (Hm : json_loads "task-1" = None) by (vm_compute; reflexivity).
  pose proof (bare_member_dropped doc_services deaf tc_demo "task-1" {["task-1" := 1000]} 0 1000 (w_retry "task-1")
    Hq eq_refl Hm) as H.
  destruct (run _ _) as [w' r]. destruct H as (-> & Hl & _). split; [reflexivity|exact Hl].
Defined.
