(* ===== verification/CallbackOutbox.v ===== *)
(** * The callback outbox

    [src/services/callback_dispatcher.py], [callback_ops.py] and
    [callback_replay_policy.py] over the [callback_outbox] table: pending rows
    that are due are posted, retried with a growing pause and dead-lettered;
    operators acknowledge and replay dead letters under a policy. *)

From stdpp Require Import base gmap strings list.
From S2P Require Import Prelude PyValue Json Redis TaskModel Tables Effects Tracking.

Open Scope Z_scope.

(** ** The dispatcher *)

Definition BACKOFF_SECONDS : list Z := [10; 30; 60; 300; 900; 1800; 3600].

Definition next_attempt_delay (attempt_count : Z) : Z :=
  let idx := Z.min (attempt_count - 1) (Z.of_nat (length BACKOFF_SECONDS) - 1) in
  default 0 (BACKOFF_SECONDS !! Z.to_nat (Z.max 0 idx)).

(** [client]: the dispatcher was started. *)
Record CallbackDispatchService := {
  cd_db : bool;
  cd_client : bool;
  cd_max_attempts : Z;
  cd_poll_interval : Z
}.

Definition with_delivery (st : CallbackDeliveryStatus) (count : Z) (next : option Z) (err : option string)
    (r : CallbackOutboxRecord) : CallbackOutboxRecord :=
  {| cb_id := cb_id r; cb_task_id := cb_task_id r; cb_tenant_id := cb_tenant_id r;
     cb_callback_url := cb_callback_url r; cb_payload_json := cb_payload_json r;
     cb_delivery_status := st; cb_attempt_count := count; cb_next_attempt_at := next;
     cb_last_error := err; cb_acknowledged_by := cb_acknowledged_by r;
     cb_acknowledged_at := cb_acknowledged_at r |}.

Definition due (now : Z) (r : CallbackOutboxRecord) : bool :=
  bool_decide (cb_delivery_status r = CB_PENDING) &&
  match cb_next_attempt_at r with None => true | Some t => t <=? now end.

Definition outbox_request (r : CallbackOutboxRecord) : http_request :=
  {| req_method := "POST"; req_url := cb_callback_url r;
     req_headers := [("Content-Type", "application/json"); ("Idempotency-Key", cb_task_id r)];
     req_body := cb_payload_json r |}.

Section Dispatcher.
Context (cd : CallbackDispatchService).

(** The row's attributes after a post that raised. *)
Definition after_failure (now : Z) (e : exn) (r : CallbackOutboxRecord) : CallbackOutboxRecord :=
  let count := cb_attempt_count r + 1 in
  if count >=? cd_max_attempts cd
  then with_delivery CB_DEAD_LETTER count (cb_next_attempt_at r) (Some (exn_str e)) r
  else with_delivery CB_PENDING count (Some (now + next_attempt_delay count * 1000)) (Some (exn_str e)) r.

Definition after_success (r : CallbackOutboxRecord) : CallbackOutboxRecord :=
  with_delivery CB_DELIVERED (cb_attempt_count r + 1) (cb_next_attempt_at r) (cb_last_error r) r.

Definition post_row (now : Z) (r : CallbackOutboxRecord) : M CallbackOutboxRecord :=
  except (let* resp := http (outbox_request r) in
          do* raise_for_status resp in
          ret (after_success r))
         (λ e, ret (after_failure now e r)).

Fixpoint post_rows (now : Z) (rs : list CallbackOutboxRecord) : M (list CallbackOutboxRecord) :=
  match rs with
  | [] => ret []
  | r :: rs' => let* r' := post_row now r in let* rs'' := post_rows now rs' in ret (r' :: rs'')
  end.

(** [session.commit()]: each changed row is written under its id. *)
Definition write_rows (rs : list CallbackOutboxRecord) (l : list CallbackOutboxRecord) : list CallbackOutboxRecord :=
  map (λ r, match list_find (λ r', cb_id r' = cb_id r) rs with Some (_, r') => r' | None => r end) l.

Definition process_once : M Z :=
  if negb (cd_db cd && cd_client cd) then ret 0 else
  let* now := time_ms in
  let* rows := sql_read (λ t, take 50 (unordered t (filter (λ r, due now r = true) (db_outbox t)))) in
  let* rows' := post_rows now rows in
  do* sql (λ _ t, inr (set_outbox (write_rows rows') t, tt)) in
  ret (Z.of_nat (length rows)).
End Dispatcher.

(** ** Operator actions on dead letters *)

Definition find_row (id : Z) (t : tables) : option CallbackOutboxRecord :=
  snd <$> list_find (λ r, cb_id r = id) (db_outbox t).

Definition update_row (id : Z) (f : CallbackOutboxRecord -> CallbackOutboxRecord) (t : tables) : tables :=
  set_outbox (map (λ r, if decide (cb_id r = id) then f r else r)) t.

Definition list_dead_letters (db : bool) (limit : nat) : M (list CallbackOutboxRecord) :=
  if negb db then ret [] else
  sql_read (λ t, take limit (unordered t (filter (λ r, cb_delivery_status r = CB_DEAD_LETTER) (db_outbox t)))).

Definition acknowledged (actor : string) (now : Z) (r : CallbackOutboxRecord) : CallbackOutboxRecord :=
  {| cb_id := cb_id r; cb_task_id := cb_task_id r; cb_tenant_id := cb_tenant_id r;
     cb_callback_url := cb_callback_url r; cb_payload_json := cb_payload_json r;
     cb_delivery_status := cb_delivery_status r; cb_attempt_count := cb_attempt_count r;
     cb_next_attempt_at := cb_next_attempt_at r; cb_last_error := cb_last_error r;
     cb_acknowledged_by := Some actor; cb_acknowledged_at := Some now |}.

(** The row again pending, due at once; its attempts are not forgotten. *)
Definition replayed (r : CallbackOutboxRecord) : CallbackOutboxRecord :=
  {| cb_id := cb_id r; cb_task_id := cb_task_id r; cb_tenant_id := cb_tenant_id r;
     cb_callback_url := cb_callback_url r; cb_payload_json := cb_payload_json r;
     cb_delivery_status := CB_PENDING; cb_attempt_count := cb_attempt_count r;
     cb_next_attempt_at := None; cb_last_error := None;
     cb_acknowledged_by := None; cb_acknowledged_at := None |}.

(** The shared body: change the row, then leave an audit record. *)
Definition operate (db : bool) (id : Z) (actor : string) (reason : option string) (action : string)
    (f : Z -> CallbackOutboxRecord -> CallbackOutboxRecord) : M bool :=
  if negb db then ret false else
  let* row := sql (λ now t, match find_row id t with
                            | None => inr (t, None)
                            | Some r => inr (update_row id (f now) t, Some r)
                            end) in
  match row with
  | None => ret false
  | Some r =>
      do* except (do* record_action db actor action "callback_outbox" (dec_of_Z id) reason
                        [("outbox_id", VInt id)] (Some (cb_task_id r)) in ret tt) (λ _, ret tt) in
      ret true
  end.

Definition acknowledge_dead_letter (db : bool) (id : Z) (actor : string) (reason : option string) : M bool :=
  operate db id actor reason "dead_letter_acknowledged" (acknowledged actor).

Definition replay_dead_letter (db : bool) (id : Z) (actor : string) (reason : option string) : M bool :=
  operate db id actor reason "callback_replay_requested" (λ _, replayed).

(** ** Replay policy *)

Definition delivery_value (s : CallbackDeliveryStatus) : string :=
  match s with
  | CB_PENDING => "pending" | CB_DELIVERED => "delivered" | CB_FAILED => "failed" | CB_DEAD_LETTER => "dead_letter"
  end.

Record policy_answer := { pa_allowed : bool; pa_reasons : list string }.

Definition decide_callback_replay (reason : option string) (role : string) (status : option string) : policy_answer :=
  let no_reason := match reason with None | Some "" => true | _ => false end in
  let pending := bool_decide (status = Some "pending") in
  let delivered := bool_decide (status = Some "delivered") in
  let admin := bool_decide (role = "admin") in
  let reasons :=
    (if no_reason then ["replay reason is required"] else []) ++
    (if pending then ["callback is already pending delivery"] else []) ++
    (if delivered
     then if admin then ["admin override for replay of already-delivered callback"]
          else ["replay of already-delivered callback requires admin role"]
     else []) in
  {| pa_allowed := negb no_reason && negb pending && negb (delivered && negb admin);
     pa_reasons := match reasons with [] => ["allowed"] | _ => reasons end |}.

Definition check_callback_replay_allowed (db : bool) (id : Z) (reason : option string) (role : string)
    (current_status : option string) : M policy_answer :=
  match current_status, db with
  | None, true =>
      let* row := sql_read (find_row id) in
      match row with
      | None => ret {| pa_allowed := false; pa_reasons := ["callback outbox record not found"] |}
      | Some r => ret (decide_callback_replay reason role (Some (delivery_value (cb_delivery_status r))))
      end
  | _, _ => ret (decide_callback_replay reason role current_status)
  end.

(** ** One pass of the dispatcher *)

(** The row after the post made at tick [n]. *)
Definition outcome {E : Env} (cd : CallbackDispatchService) (now : Z) (n : nat) (r : CallbackOutboxRecord) :
    CallbackOutboxRecord :=
  match http_answer n (outbox_request r) with
  | inl e => after_failure cd now e r
  | inr resp => if is_success resp then after_success r
                else after_failure cd now (Exn HTTPStatusError (dec_of_Z (resp_status resp))) r
  end.

Lemma outcome_id {E : Env} cd now n r : cb_id (outcome cd now n r) = cb_id r.
Proof. unfold outcome, after_failure. repeat case_match; done. Qed.

Section Pass.
Context {E : Env} (Hq : quiet E) (Hnc : ∀ n r c, http_answer n r = inl c -> is_exception c = true).
Context (cd : CallbackDispatchService).
Notation W := (world doc_services).

Lemma run_post_row now r (w : W) :
  run (post_row cd now r) w =
  (advance (S := doc_services) (w_redis w) (w_db w) [OHttp (outbox_request r)] w, inr (outcome cd now (w_tick w) r)).
Proof using Hnc.
  unfold post_row, outcome. rewrite run_except, run_bind. simpl.
  destruct (http_answer (w_tick w) (outbox_request r)) as [c|resp] eqn:Ea; [by rewrite (Hnc _ _ _ Ea)|].
  unfold raise_for_status. by destruct (is_success resp).
Qed.

Lemma run_post_rows now rs : ∀ w : W, exists w',
  run (post_rows cd now rs) w = (w', inr (imap (λ i r, outcome cd now (w_tick w + i) r) rs)) /\
  w_db w' = w_db w /\ w_log w' = w_log w ++ map (λ r, OHttp (outbox_request r)) rs.
Proof using Hnc.
  induction rs as [|r rs IH]; intros w; cbn [post_rows].
  - exists w. simpl. by rewrite app_nil_r.
  - rewrite run_bind, run_post_row. cbv beta iota. set (w1 := advance _ _ _ w).
    assert (Hw1 : w_tick w1 = S (w_tick w) /\ w_db w1 = w_db w /\ w_log w1 = w_log w ++ [OHttp (outbox_request r)]) by done.
    clearbody w1. destruct Hw1 as (Ht & Hd & Hl). destruct (IH w1) as (w' & Hrun & Hd' & Hl').
    exists w'. rewrite run_bind, Hrun. cbv beta iota. split.
    + rewrite run_ret. f_equal. f_equal. simpl. rewrite Nat.add_0_r. f_equal. apply imap_ext.
      intros i x _. simpl. f_equal. rewrite Ht. lia.
    + split; [congruence|]. rewrite Hl', Hl. by rewrite <- app_assoc.
Qed.
End Pass.

Lemma find_by_id rs i r k : NoDup (map cb_id rs) -> rs !! i = Some r -> cb_id r = k ->
  list_find (λ r', cb_id r' = k) rs = Some (i, r).
Proof.
  intros Hnd Hi <-. apply list_find_Some. split; [done|]. split; [done|]. intros j y Hj Hlt Heq.
  assert (j = i) as ->; [|lia]. eapply (NoDup_lookup (map cb_id rs)); [done| |].
  - rewrite (list_lookup_fmap cb_id), Hj. simpl. by rewrite Heq.
  - by rewrite (list_lookup_fmap cb_id), Hi.
Qed.

Lemma find_no_id rs r : cb_id r ∉ map cb_id rs -> list_find (λ r', cb_id r' = cb_id r) rs = None.
Proof.
  intros Hn. apply list_find_None. apply Forall_forall. intros y Hy Heq. apply Hn. rewrite <- Heq.
  by apply list_elem_of_fmap_2.
Qed.

(** The rows a pass takes. *)
Definition taken (now : Z) (t : tables) : list CallbackOutboxRecord :=
  take 50 (unordered t (filter (λ r, due now r = true) (db_outbox t))).

Lemma process_once_spec {E : Env} cd (w : world doc_services) :
  quiet E -> (∀ n r c, http_answer n r = inl c -> is_exception c = true) ->
  cd_db cd = true -> cd_client cd = true ->
  let rows := taken (w_now w) (w_db w) in
  exists w', run (process_once cd) w = (w', inr (Z.of_nat (length rows))) /\
    w_log w' = w_log w ++ map (λ r, OHttp (outbox_request r)) rows /\
    db_outbox (w_db w') =
      write_rows (imap (λ i r, outcome cd (w_now w) (w_tick w + 2 + i) r) rows) (db_outbox (w_db w)).
Proof.
  intros Hq Hnc Hdb Hcl rows. unfold process_once. rewrite Hdb, Hcl. simpl negb. cbv iota.
  rewrite run_bind, run_time_ms. cbv beta iota. set (w1 := after (w_redis w) (w_db w) w).
  assert (Hw1 : w_tick w1 = S (w_tick w) /\ w_db w1 = w_db w /\ w_log w1 = w_log w)
    by (simpl; by rewrite app_nil_r). clearbody w1. destruct Hw1 as (Ht1 & Hd1 & Hl1).
  unfold sql_read. rewrite run_bind, run_sql, (proj2 Hq), Hd1. cbv beta iota. fold (taken (w_now w) (w_db w)). fold rows.
  set (w2 := after _ _ w1).
  assert (Hw2 : w_tick w2 = (w_tick w + 2)%nat /\ w_db w2 = w_db w /\ w_log w2 = w_log w)
    by (simpl; rewrite app_nil_r, Ht1; split; [lia|done]). clearbody w2. destruct Hw2 as (Ht2 & Hd2 & Hl2).
  rewrite run_bind. destruct (run_post_rows Hnc cd (w_now w) rows w2) as (w3 & -> & Hd3 & Hl3). cbv beta iota.
  rewrite run_bind, run_sql, (proj2 Hq). cbv beta iota. rewrite run_ret.
  eexists. split; [reflexivity|]. simpl. rewrite app_nil_r, Hl3, Hl2, Hd3, Hd2, Ht2. done.
Qed.

Lemma imap_ids {E : Env} cd now n rs : map cb_id (imap (λ i r, outcome cd now (n + i) r) rs) = map cb_id rs.
Proof.
  revert n. induction rs as [|r rs IH]; intros n; simpl; [done|]. rewrite outcome_id. f_equal.
  rewrite <- (IH (S n)). f_equal. apply imap_ext. intros i x _. simpl. f_equal. lia.
Qed.

Lemma taken_in now t r : r ∈ taken now t -> r ∈ db_outbox t /\ due now r = true.
Proof.
  unfold taken. intros H. apply (sublist_subseteq _ _ (sublist_take _ _)) in H. rewrite unordered_perm in H.
  by apply list_elem_of_filter in H as [? ?].
Qed.

Lemma NoDup_taken now t : NoDup (map cb_id (db_outbox t)) -> NoDup (map cb_id (taken now t)).
Proof.
  intros H. unfold taken. eapply (sublist_NoDup _ (map cb_id (unordered t (filter (λ r, due now r = true) (db_outbox t))))).
  - rewrite unordered_perm. eapply sublist_NoDup; [exact H|]. apply (fmap_sublist cb_id), sublist_filter.
  - apply (fmap_sublist cb_id), sublist_take.
Qed.

Lemma length_taken now t :
  length (taken now t) = Nat.min 50 (length (filter (λ r, due now r = true) (db_outbox t))).
Proof. unfold taken. by rewrite length_take, unordered_perm. Qed.

(** A row after an attempt: its peer answered 2xx, or the post failed with [e]. *)
Definition delivered (x x' : CallbackOutboxRecord) : Prop :=
  cb_delivery_status x' = CB_DELIVERED /\ cb_next_attempt_at x' = cb_next_attempt_at x /\
  cb_last_error x' = cb_last_error x.

Definition failed_attempt (max_attempts now : Z) (e : exn) (x x' : CallbackOutboxRecord) : Prop :=
  cb_last_error x' = Some (exn_str e) /\
  if max_attempts <=? cb_attempt_count x'
  then cb_delivery_status x' = CB_DEAD_LETTER
  else cb_delivery_status x' = CB_PENDING /\
       cb_next_attempt_at x' = Some (now + next_attempt_delay (cb_attempt_count x') * 1000).

Lemma outcome_attempt {E : Env} cd now n x :
  let x' := outcome cd now n x in
  cb_attempt_count x' = cb_attempt_count x + 1 /\
  match http_answer n (outbox_request x) with
  | inr resp => if is_success resp then delivered x x'
                else failed_attempt (cd_max_attempts cd) now (Exn HTTPStatusError (dec_of_Z (resp_status resp))) x x'
  | inl e => failed_attempt (cd_max_attempts cd) now e x x'
  end.
Proof.
  assert (H : ∀ e, cb_attempt_count (after_failure cd now e x) = cb_attempt_count x + 1 /\
            failed_attempt (cd_max_attempts cd) now e x (after_failure cd now e x)).
  { intros e. unfold failed_attempt, after_failure. rewrite Z.geb_leb.
    destruct (_ <=? _) eqn:El; simpl; by rewrite El. }
  intros x'. subst x'. unfold outcome. destruct (http_answer n (outbox_request x)) as [e|resp]; [apply H|].
  destruct (is_success resp); [done|apply H].
Qed.

(** C9: a pass of the dispatcher, over any services.  It takes fifty of the rows
    that are pending and due, or all when there are fewer, in the order the server
    returns them, and posts each once, in that order; every row that is not taken
    stays as it was; a taken row counts one more attempt and becomes DELIVERED if the
    peer answered 2xx; otherwise it keeps the error and becomes DEAD_LETTER if this
    was the last attempt, and stays PENDING until the back-off delay has passed if
    not.  The dispatcher is started and has a database, no statement fails and no
    post is cancelled. *)
Theorem outbox_pass (S : Services) (E : Env) (cd : CallbackDispatchService) (w : world S)
    (Hq : quiet E) (Hnc : ∀ n r c, http_answer n r = inl c -> is_exception c = true)
    (Hdb : cd_db cd = true) (Hcl : cd_client cd = true) (Hids : NoDup (map cb_id (db_outbox (db_of w)))) :
  let '(w', r) := run (process_once cd) w in
  exists rows, NoDup rows /\
  (∀ x, x ∈ rows -> x ∈ db_outbox (db_of w) /\ due (w_now w) x = true) /\
  length rows = Nat.min 50 (length (filter (λ x, due (w_now w) x = true) (db_outbox (db_of w)))) /\
  r = inr (Z.of_nat (length rows)) /\
  w_log w' = w_log w ++ map (λ r, OHttp (outbox_request r)) rows /\
  (∀ j x, db_outbox (db_of w) !! j = Some x -> x ∉ rows -> db_outbox (db_of w') !! j = Some x) /\
  (∀ i j x, rows !! i = Some x -> db_outbox (db_of w) !! j = Some x ->
     exists x', db_outbox (db_of w') !! j = Some x' /\ cb_id x' = cb_id x /\
       cb_attempt_count x' = cb_attempt_count x + 1 /\
       match http_answer (w_tick w + 2 + i) (outbox_request x) with
       | inr resp =>
           if is_success resp then delivered x x'
           else failed_attempt (cd_max_attempts cd) (w_now w) (Exn HTTPStatusError (dec_of_Z (resp_status resp))) x x'
       | inl e => failed_attempt (cd_max_attempts cd) (w_now w) e x x'
       end).
Proof.
  destruct (process_once_spec cd (wview w) Hq Hnc Hdb Hcl) as (w' & Hrun & Hlog & Hout).
  rewrite run_view in Hrun. destruct (run (process_once cd) w) as [w1 r]. simpl in Hrun. injection Hrun as <- ->.
  change (taken (w_now (wview w)) (w_db (wview w))) with (taken (w_now w) (db_of w)) in *.
  set (rows := taken (w_now w) (db_of w)) in *. exists rows.
  change (db_outbox (w_db (wview w1))) with (db_outbox (db_of w1)) in Hout.
  change (db_outbox (w_db (wview w))) with (db_outbox (db_of w)) in Hout.
  change (w_tick (wview w)) with (w_tick w) in Hout. change (w_now (wview w)) with (w_now w) in Hout.
  assert (Hnd : NoDup (map cb_id rows)) by by apply NoDup_taken.
  split; [by eapply NoDup_fmap_1|]. split; [intros x; apply taken_in|].
  split; [apply length_taken|]. split; [done|]. split; [done|]. rewrite Hout. unfold write_rows.
  set (rows' := imap _ rows). assert (Hi' : map cb_id rows' = map cb_id rows) by apply imap_ids. split.
  - intros j x Hj Hx. rewrite list_lookup_fmap, Hj. simpl. rewrite find_no_id; [done|]. rewrite Hi'.
    intros (y & Hy & Hin)%list_elem_of_fmap. apply Hx.
    assert (y = x) as <-; [|done]. apply taken_in in Hin as [Hin _].
    apply list_elem_of_lookup in Hin as [j' Hj'].
    assert (j = j') as <-; [|congruence]. eapply (NoDup_lookup (map cb_id (db_outbox (db_of w)))); [done| |].
    + by rewrite (list_lookup_fmap cb_id), Hj.
    + rewrite (list_lookup_fmap cb_id). rewrite Hj'. simpl. by rewrite Hy.
  - intros i j x Hi Hj. exists (outcome cd (w_now w) (w_tick w + 2 + i) x). rewrite list_lookup_fmap, Hj. simpl.
    assert (Hri : rows' !! i = Some (outcome cd (w_now w) (w_tick w + 2 + i) x)).
    { subst rows'. by rewrite list_lookup_imap, Hi. }
    assert (Hf : list_find (λ r', cb_id r' = cb_id x) rows' = Some (i, outcome cd (w_now w) (w_tick w + 2 + i) x)).
    { apply find_by_id; [by rewrite Hi'|done|apply outcome_id]. }
    rewrite Hf. split; [done|]. split; [apply outcome_id|]. apply outcome_attempt.
Qed.

(** A replayed dead letter keeps its attempt count: it is due at once, and one
    more failure dead-letters it again. *)
Lemma replayed_once cd now e r : cd_max_attempts cd <= cb_attempt_count r ->
  due now (replayed r) = true /\
  cb_delivery_status (after_failure cd now e (replayed r)) = CB_DEAD_LETTER.
Proof.
  intros H. split; [done|]. unfold after_failure. simpl. rewrite Z.geb_leb, (proj2 (Z.leb_le _ _)) by lia. done.
Qed.

(** The replay policy lets exactly these requests through. *)
Lemma callback_replay_allowed reason role status :
  pa_allowed (decide_callback_replay reason role status) = true <->
  (exists s, reason = Some s /\ s <> "") /\ status <> Some "pending" /\
  (status = Some "delivered" -> role = "admin").
Proof.
  unfold decide_callback_replay. simpl. rewrite !andb_true_iff, !negb_true_iff, andb_false_iff, negb_false_iff.
  rewrite !bool_decide_eq_false, bool_decide_eq_true.
  destruct reason as [[|c s]|]; split; try naive_solver.
  intros [_ [H1 H2]]. split; [done|]. destruct (decide (status = Some "delivered")); auto.
Qed.

Definition cd_demo : CallbackDispatchService :=
  {| cd_db := true; cd_client := true; cd_max_attempts := 8; cd_poll_interval := 5000 |}.

Definition demo_row (id : Z) (st : CallbackDeliveryStatus) : CallbackOutboxRecord :=
  {| cb_id := id; cb_task_id := "t"; cb_tenant_id := ""; cb_callback_url := "http://cb"; cb_payload_json := "{}";
     cb_delivery_status := st; cb_attempt_count := 0; cb_next_attempt_at := None; cb_last_error := None;
     cb_acknowledged_by := None; cb_acknowledged_at := None |}.

Definition w_outbox : world doc_services :=
  World (S := doc_services) (∅ : keyspace)
    (set_outbox (λ _, [demo_row 1 CB_DELIVERED; demo_row 2 CB_PENDING]) empty_tables) 1000 O [].

Lemma outbox_pass_witness :
  let '(w', r) := run (E := calm) (process_once cd_demo) w_outbox in
  exists rows, r = inr (Z.of_nat (length rows)) /\ length rows = 1%nat /\
    ∀ j x, rows !! O = Some x -> db_outbox (db_of w_outbox) !! j = Some x ->
      exists x', db_outbox (db_of w') !! j = Some x' /\ cb_delivery_status x' = CB_DELIVERED.
Proof.
  assert (Hnc : ∀ n r c, http_answer (Env := calm) n r = inl c -> is_exception c = true) by done.
  assert (Hids : NoDup (map cb_id (db_outbox (db_of w_outbox)))) by (apply (bool_decide_unpack _); exact I).
  pose proof (outbox_pass doc_services calm cd_demo w_outbox calm_quiet Hnc eq_refl eq_refl Hids) as H.
  destruct (run (process_once cd_demo) w_outbox) as [w' r].
  destruct H as (rows & _ & _ & Hlen & Hr & _ & _ & H). exists rows.
  split; [exact Hr|]. split; [exact Hlen|]. intros j x Hi Hj.
  destruct (H O j x Hi Hj) as (x' & Hx & _ & _ & Hd & _). exists x'. split; [exact Hx|exact Hd].
Defined.
