(* ===== verification/TaskApplication.v ===== *)
(** * Task application services

    [src/services/task_application.py] and [task_validation.py]: submission,
    cancellation, queries with cursor pagination, results, and the tenant check
    they share. *)

From stdpp Require Import base gmap strings list sorting.
From S2P Require Import Prelude PyValue Json Datetime Redis TaskModel Tables Effects.
From S2P Require Import QueueManager ErrorHandling TaskCreator DagCondition.

Open Scope Z_scope.

(** ** Validation *)

Definition validate_task_artifact (url sha : option string) : exn + unit :=
  match url, sha with
  | Some (String _ _), Some (String c s) =>
      if (String.length (String c s) =? 64)%nat then inr tt
      else inl (Exn ValueError "artifact_sha256 must be a 64-char hex string")
  | _, _ => inr tt
  end.

Definition validate_task_scheduling (scheduled_at : option string) (delay_seconds : option Z) : exn + unit :=
  match scheduled_at, delay_seconds with
  | Some _, Some _ => inl (Exn ValueError "Cannot specify both scheduled_at and delay_seconds; use only one.")
  | _, _ => inr tt
  end.

(** Empty lists back to empty dictionaries in the three object-valued members. *)
Definition fix_lua_cjson_empty_tables (values : list (string * value)) : list (string * value) :=
  foldl (λ d k, match dict_get k d with Some (VList []) => dict_set k (VDict []) d | _ => d end)
    values ["input_data"; "output_data"; "metadata_json"].

(** ** Access *)

(** A task of another tenant is reported exactly like a missing one. *)
Definition ensure_task_access (task : option TaskRecord) (tenant : string) (super : bool) : exn + TaskRecord :=
  match task with
  | None => inl (HTTPException 404 "Task not found")
  | Some r =>
      if negb super && negb (bool_decide (tenant_id r = tenant))
      then inl (HTTPException 404 "Task not found")
      else inr r
  end.

Definition get_task_record (id tenant : string) (super : bool) : M TaskRecord :=
  let* task := sql_read (λ t, db_tasks t !! id) in
  of_sum (ensure_task_access task tenant super).

(** ** Views of a row *)

(** [_to_json] *)
Definition to_json (v : option string) : value :=
  match v with
  | None => VDict []
  | Some s => default (VDict []) (json_loads s)
  end.

Definition as_object (v : value) : exn + list (string * value) :=
  match v with VDict d => inr d | _ => inl (Exn ValueError "Input should be a valid dictionary") end.

Record TaskInfo := {
  ti_task_id : string; ti_tenant_id : string; ti_task_type : string; ti_dag_id : option string;
  ti_status : TaskStatus; ti_priority : TaskPriority; ti_cluster_id : option string;
  ti_current_step : option string; ti_input_data : list (string * value);
  ti_output_data : list (string * value); ti_error_message : option string;
  ti_metadata_json : list (string * value); ti_callback_url : option string;
  ti_idempotency_key : option string; ti_timeout_seconds : Z; ti_max_retries : Z;
  ti_scheduled_at : option string; ti_cron_expr : option string;
  ti_created_at : string; ti_updated_at : string
}.

Definition or_else (n dflt : Z) : Z := if n =? 0 then dflt else n.

Definition some_text (o : option string) : option string :=
  match o with Some EmptyString => None | _ => o end.

(** [_to_task_info]; the error message is not copied. *)
Definition to_task_info (r : TaskRecord) : exn + TaskInfo :=
  sum_bind (as_object (to_json (input_data r))) (λ inp,
  sum_bind (as_object (to_json (output_data r))) (λ out,
  sum_bind (as_object (to_json (metadata_json r))) (λ meta,
  inr {| ti_task_id := task_id r; ti_tenant_id := tenant_id r; ti_task_type := default "" (task_type r);
         ti_dag_id := dag_id r; ti_status := status r; ti_priority := priority r;
         ti_cluster_id := cluster_id r; ti_current_step := current_step r;
         ti_input_data := inp; ti_output_data := out; ti_error_message := None;
         ti_metadata_json := meta; ti_callback_url := callback_url r;
         ti_idempotency_key := idempotency_key r;
         ti_timeout_seconds := or_else (timeout_seconds r) 3600;
         ti_max_retries := or_else (max_retries r) 3;
         ti_scheduled_at := some_text (scheduled_at r); ti_cron_expr := cron_expr r;
         ti_created_at := datetime_str (created_at r); ti_updated_at := datetime_str (updated_at r) |}))).

Record TaskSummary := {
  ts_task_id : string; ts_tenant_id : string; ts_task_type : string; ts_status : TaskStatus;
  ts_cluster_id : string; ts_created_at : string; ts_updated_at : string
}.

Definition to_task_summary (r : TaskRecord) : TaskSummary :=
  {| ts_task_id := task_id r; ts_tenant_id := tenant_id r; ts_task_type := default "" (task_type r);
     ts_status := status r; ts_cluster_id := default "" (cluster_id r);
     ts_created_at := datetime_str (created_at r); ts_updated_at := datetime_str (updated_at r) |}.

(** ** Queries *)

Definition get_task (id tenant : string) (super : bool) : M TaskInfo :=
  let* r := get_task_record id tenant super in
  of_sum (to_task_info r).

Record task_filter := {
  f_tenant : string; f_super : bool; f_status : option TaskStatus; f_type : option string
}.

(** The [WHERE] clause; texts are compared under the server's collation. *)
Definition matches (m : mysql_server) (f : task_filter) (r : TaskRecord) : bool :=
  (f_super f || text_eq m (tenant_id r) (f_tenant f)) &&
  match f_status f with None => true | Some s => bool_decide (status r = s) end &&
  match f_type f with None | Some EmptyString => true | Some ty => text_eq m (default "" (task_type r)) ty end.

(** The order of the primary key. *)
Definition id_key (m : mysql_server) (r : TaskRecord) : string := collate m (task_id r).

Definition id_le (m : mysql_server) (a b : TaskRecord) : Prop := str_compare (id_key m a) (id_key m b) <> Gt.

#[global] Instance id_le_dec m : RelDecision (id_le m).
Proof. intros a b. unfold id_le. destruct (str_compare _ _); [left|left|right]; by intros H. Defined.

Definition after_cursor (m : mysql_server) (cursor : option string) (r : TaskRecord) : bool :=
  match cursor with
  | None | Some EmptyString => true
  | Some c => bool_decide (str_compare (id_key m r) (collate m c) = Gt)
  end.

(** The rows of [query.order_by(task_id).limit(limit + 1)]. *)
Definition page_rows (f : task_filter) (limit : nat) (cursor : option string) (t : tables) : list TaskRecord :=
  let m := db_server t in
  take (S limit) (merge_sort (id_le m)
    (select_tasks (λ r, matches m f r && after_cursor m cursor r) t)).

Record task_page := { pg_items : list TaskSummary; pg_next : option string }.

Definition page_of (limit : nat) (rows : list TaskRecord) : task_page :=
  let items := take limit rows in
  {| pg_items := map to_task_summary items;
     pg_next := if (limit <? length rows)%nat then task_id <$> last items else None |}.

(** The two SQLAlchemy sessions the services accept ([maybe_await] takes the
    answer of either): only the synchronous one has a [query] method. *)
Inductive session := Session | AsyncSession.

Definition list_tasks (s : session) (f : task_filter) (limit : nat) (cursor : option string) : M task_page :=
  match s with
  | AsyncSession => raise (Exn AttributeError "'AsyncSession' object has no attribute 'query'")
  | Session =>
  let* rows := sql_read (page_rows f limit cursor) in
  ret (page_of limit rows)
  end.

Definition get_result (id tenant : string) (super : bool) :
    M (TaskStatus * list (string * value) * option string) :=
  let* r := get_task_record id tenant super in
  match status r with
  | COMPLETED | FAILED =>
      let* out := of_sum (as_object (match some_text (output_data r) with
                                     | None => VDict []
                                     | Some s => default (VDict []) (json_loads s)
                                     end)) in
      ret (status r, out, error_message r)
  | s => raise (HTTPException 409 ("Task is still " +:+ status_value s +:+ "; result not yet available"))
  end.

(** ** Cancellation *)

Definition with_task_status (s : TaskStatus) (now : Z) (r : TaskRecord) : TaskRecord :=
  {| task_id := task_id r; tenant_id := tenant_id r; task_type := task_type r; dag_id := dag_id r;
     status := s; priority := priority r; cluster_id := cluster_id r; current_step := current_step r;
     input_data := input_data r; output_data := output_data r; error_message := error_message r;
     metadata_json := metadata_json r; callback_url := callback_url r;
     idempotency_key := idempotency_key r; timeout_seconds := timeout_seconds r;
     max_retries := max_retries r; attempt := attempt r; scheduled_at := scheduled_at r;
     cron_expr := cron_expr r; created_at := created_at r; updated_at := now |}.

Record cancel_response := { cancelled : bool; prior_status : TaskStatus }.

Definition cancel_task (id tenant : string) (super : bool) : M cancel_response :=
  let* r := get_task_record id tenant super in
  let prior := status r in
  if terminal prior then ret {| cancelled := false; prior_status := prior |} else
  match transition prior CANCEL with
  | inl _ => ret {| cancelled := false; prior_status := prior |}
  | inr tr =>
      do* sql (λ now t, inr (update_task id (with_task_status (current tr) now) t, tt)) in
      ret {| cancelled := true; prior_status := prior |}
  end.

(** ** Submission *)

Record TaskCreate := {
  rq_task_type : string; rq_priority : TaskPriority; rq_input_data : list (string * value);
  rq_metadata : list (string * value); rq_callback_url : option string;
  rq_idempotency_key : option string; rq_timeout_seconds : Z; rq_max_retries : Z;
  rq_scheduled_at : option string; rq_delay_seconds : option Z; rq_cron_expr : option string;
  rq_artifact_url : option string; rq_artifact_sha256 : option string
}.

Definition opt_str (o : option string) : value := match o with Some s => VStr s | None => VNone end.

Definition when_text (k : string) (o : option string) : list (string * value) :=
  match some_text o with Some s => [(k, VStr s)] | None => [] end.

Definition submit_kwargs (rq : TaskCreate) : list (string * value) :=
  [("task_type", VStr (rq_task_type rq)); ("priority", VStr (priority_value (rq_priority rq)));
   ("input_data", VDict (rq_input_data rq)); ("metadata", VDict (rq_metadata rq));
   ("callback_url", opt_str (rq_callback_url rq)); ("timeout_seconds", VInt (rq_timeout_seconds rq));
   ("max_retries", VInt (rq_max_retries rq)); ("cron_expr", opt_str (rq_cron_expr rq));
   ("persist_to_db", VBool true)] ++
  when_text "scheduled_at" (rq_scheduled_at rq) ++
  match rq_delay_seconds rq with None | Some 0 => [] | Some n => [("delay_seconds", VInt n)] end ++
  when_text "artifact_url" (rq_artifact_url rq) ++ when_text "artifact_sha256" (rq_artifact_sha256 rq).

Record TaskCreateResponse := {
  rs_task_id : string; rs_tenant_id : string; rs_status : TaskStatus;
  rs_queue_position : Z; rs_idempotent_reused : bool
}.

(** The response says [QUEUED] whatever the queue answered. *)
Definition submit {Q} {TQ : TaskQueue Q} (tc : TaskCreator) (q : Q) (rq : TaskCreate) (tenant : string) :
    M (Q * TaskCreateResponse) :=
  do* of_sum (validate_task_artifact (rq_artifact_url rq) (rq_artifact_sha256 rq)) in
  do* of_sum (validate_task_scheduling (rq_scheduled_at rq) (rq_delay_seconds rq)) in
  let* r := create_task tc q tenant (rq_idempotency_key rq) (submit_kwargs rq) in
  let* tr := of_sum (transition PENDING ENQUEUE) in
  ret (r.1, {| rs_task_id := cr_task_id r.2; rs_tenant_id := tenant; rs_status := current tr;
               rs_queue_position := cr_queue_position r.2;
               rs_idempotent_reused := cr_idempotent_reused r.2 |}).

(** ** The key order *)

Lemma str_compare_refl a : str_compare a a = Eq.
Proof. induction a as [|c a IH]; simpl; [done|]. by rewrite Nat.compare_refl. Qed.

Lemma nat_of_ascii_inj c d : Ascii.nat_of_ascii c = Ascii.nat_of_ascii d -> c = d.
Proof. intros H. by rewrite <- (Ascii.ascii_nat_embedding c), <- (Ascii.ascii_nat_embedding d), H. Qed.

Lemma str_compare_eq a b : str_compare a b = Eq <-> a = b.
Proof.
  split; [|intros ->; apply str_compare_refl].
  revert b. induction a as [|c a IH]; intros [|d b]; simpl; try done.
  destruct (_ ?= _)%nat eqn:Ec; try done. intros H. apply Nat.compare_eq, nat_of_ascii_inj in Ec as ->.
  by rewrite (IH b).
Qed.

Lemma str_compare_opp a b : str_compare b a = CompOpp (str_compare a b).
Proof.
  revert b. induction a as [|c a IH]; intros [|d b]; simpl; try done.
  rewrite (Nat.compare_antisym (Ascii.nat_of_ascii c) (Ascii.nat_of_ascii d)).
  destruct (Ascii.nat_of_ascii c ?= Ascii.nat_of_ascii d)%nat; simpl; [apply IH|done|done].
Qed.

Lemma str_lt_trans a b c : str_compare a b = Lt -> str_compare b c = Lt -> str_compare a c = Lt.
Proof.
  revert b c. induction a as [|x a IH]; intros [|y b] [|z c]; simpl; try done.
  destruct (Nat.compare_spec (Ascii.nat_of_ascii x) (Ascii.nat_of_ascii y)) as [E1|E1|E1]; try done;
    destruct (Nat.compare_spec (Ascii.nat_of_ascii y) (Ascii.nat_of_ascii z)) as [E2|E2|E2]; try done; intros H1 H2.
  - rewrite E1, E2, Nat.compare_refl. by eapply IH.
  - rewrite E1, (proj2 (Nat.compare_lt_iff _ _)) by lia. done.
  - rewrite <- E2, (proj2 (Nat.compare_lt_iff _ _)) by lia. done.
  - rewrite (proj2 (Nat.compare_lt_iff _ _)) by lia. done.
Qed.

Lemma id_le_cases m a b : id_le m a b <-> str_compare (id_key m a) (id_key m b) = Lt \/ id_key m a = id_key m b.
Proof.
  unfold id_le. rewrite <- str_compare_eq. destruct (str_compare _ _); naive_solver.
Qed.

#[global] Instance id_le_trans m : Transitive (id_le m).
Proof.
  intros a b c. rewrite !id_le_cases. intros [H1|H1] [H2|H2].
  - left. by eapply str_lt_trans.
  - left. by rewrite <- H2.
  - left. by rewrite H1.
  - right. congruence.
Qed.

#[global] Instance id_le_total m : Total (id_le m).
Proof.
  intros a b. unfold id_le. rewrite (str_compare_opp (id_key m a) (id_key m b)).
  destruct (str_compare _ _); simpl; [left|left|right]; done.
Qed.

Lemma id_le_antisym m a b : id_le m a b -> id_le m b a -> id_key m a = id_key m b.
Proof.
  rewrite !id_le_cases. intros [H1|H1] [H2|H2]; try congruence.
  pose proof (str_lt_trans _ _ _ H1 H2) as H. by rewrite str_compare_refl in H.
Qed.

(** ** Rows by key *)

(** The primary key: every row is stored under its own id, and no two ids are equal
    under the collation. *)
Definition keyed (t : tables) : Prop :=
  (∀ k r, db_tasks t !! k = Some r -> task_id r = k) /\
  (∀ k k' r r', db_tasks t !! k = Some r -> db_tasks t !! k' = Some r' ->
     text_eq (db_server t) k k' = true -> k = k').

Lemma select_keys_nodup p t : keyed t -> NoDup (map (id_key (db_server t)) (select_tasks p t)).
Proof.
  intros [Hk Hu]. assert (Hnd : NoDup (map task_id (select_tasks p t))).
  { unfold select_tasks. apply sublist_NoDup with (l2 := map task_id (map_to_list (db_tasks t)).*2).
    - assert (map task_id (map_to_list (db_tasks t)).*2 = (map_to_list (db_tasks t)).*1) as ->; [|apply NoDup_fst_map_to_list].
      assert (∀ kr, kr ∈ map_to_list (db_tasks t) -> task_id kr.2 = kr.1) as H
        by (intros [k r] Hkr%elem_of_map_to_list; by apply Hk).
      revert H. induction (map_to_list (db_tasks t)) as [|kr l IH]; intros H; simpl; [done|].
      rewrite (H kr) by set_solver. f_equal. apply IH. set_solver.
    - apply (fmap_sublist task_id), sublist_filter. }
  assert (Hin : ∀ r, r ∈ select_tasks p t -> db_tasks t !! task_id r = Some r).
  { intros r (_ & k & Hr)%select_tasks_spec. by rewrite (Hk _ _ Hr). }
  revert Hnd Hin. induction (select_tasks p t) as [|r l IH]; intros Hnd Hin; simpl; constructor.
  - simpl in Hnd. inversion Hnd as [|? ? Hn _]; subst. intros (r' & Heq & Hr')%list_elem_of_fmap.
    apply Hn. apply list_elem_of_fmap. exists r'. split; [|done].
    apply (Hu _ _ r r'); [apply Hin; set_solver|apply Hin; set_solver|by apply bool_decide_eq_true].
  - apply IH; [by inversion Hnd|]. intros r' Hr'. apply Hin. set_solver.
Qed.

(** Sorted lists with distinct keys are determined by their members. *)
Lemma sorted_keys_unique m l1 l2 : StronglySorted (id_le m) l1 -> StronglySorted (id_le m) l2 ->
  NoDup (map (id_key m) l1) -> l1 ≡ₚ l2 -> l1 = l2.
Proof.
  revert l2. induction l1 as [|a l1 IH]; intros l2 H1 H2 Hnd Hp.
  - by apply Permutation_nil_l in Hp.
  - destruct l2 as [|b l2]; [by apply Permutation_nil_r in Hp|].
    apply StronglySorted_inv in H1 as [H1 F1], H2 as [H2 F2]. rewrite Forall_forall in F1, F2.
    simpl in Hnd. inversion Hnd as [|? ? Hna Hnd']; subst.
    assert (a = b) as <-.
    { assert (a ∈ b :: l2) as Ha by (rewrite <- Hp; set_solver).
      assert (b ∈ a :: l1) as Hb by (rewrite Hp; set_solver).
      apply elem_of_cons in Ha as [|Ha]; [done|]. apply elem_of_cons in Hb as [|Hb]; [done|].
      exfalso. apply Hna. rewrite (id_le_antisym m a b (F1 _ Hb) (F2 _ Ha)). by apply list_elem_of_fmap_2. }
    f_equal. apply IH; [done|done|done|]. by apply Permutation_cons_inv in Hp.
Qed.

(** ** Cursor pagination *)

(** A client that follows [next_cursor] until there is none. *)
Fixpoint fetch_all (fuel : nat) (f : task_filter) (limit : nat) (cursor : option string) : M (list TaskSummary) :=
  match fuel with
  | O => ret []
  | S fuel' =>
      let* p := list_tasks Session f limit cursor in
      match pg_next p with
      | None => ret (pg_items p)
      | Some c => let* rest := fetch_all fuel' f limit (Some c) in ret (pg_items p ++ rest)
      end
  end.

(** Every matching row, in id order. *)
Definition all_rows (f : task_filter) (t : tables) : list TaskRecord :=
  merge_sort (id_le (db_server t)) (select_tasks (matches (db_server t) f) t).

Lemma StronglySorted_filter {A} (R : relation A) (P : A -> Prop) `{!∀ x, Decision (P x)} l :
  StronglySorted R l -> StronglySorted R (filter P l).
Proof.
  induction 1 as [|x l Hl IH Hf]; [constructor|]. rewrite filter_cons. case_decide; [|done].
  constructor; [done|]. rewrite Forall_forall in *. intros y [_ Hy]%list_elem_of_filter. by apply Hf.
Qed.

Lemma select_filter p q t :
  select_tasks (λ r, p r && q r) t = filter (λ r, q r = true) (select_tasks p t).
Proof.
  unfold select_tasks. rewrite list_filter_filter. apply list_filter_iff.
  intros r. rewrite andb_True, !Is_true_true. naive_solver.
Qed.

Section Pages.
Context (f : task_filter) (t : tables) (Hk : keyed t).
Notation m := (db_server t).

Lemma all_rows_sorted : StronglySorted (id_le m) (all_rows f t).
Proof using Type. apply StronglySorted_merge_sort; apply _. Qed.

Lemma all_rows_nodup : NoDup (map (id_key m) (all_rows f t)).
Proof using Hk.
  unfold all_rows. rewrite (merge_sort_Permutation (id_le m) (select_tasks (matches m f) t)). by apply select_keys_nodup.
Qed.

Lemma page_rows_eq limit cursor :
  page_rows f limit cursor t = take (S limit) (filter (λ r, after_cursor m cursor r = true) (all_rows f t)).
Proof using Hk.
  unfold page_rows. f_equal. rewrite select_filter. apply (sorted_keys_unique m).
  - apply StronglySorted_merge_sort; apply _.
  - apply StronglySorted_filter, all_rows_sorted.
  - rewrite (merge_sort_Permutation (id_le m)). eapply sublist_NoDup; [|apply (fmap_sublist (id_key m)), sublist_filter].
    by apply select_keys_nodup.
  - rewrite (merge_sort_Permutation (id_le m)). unfold all_rows. by rewrite (merge_sort_Permutation (id_le m)).
Qed.

(** The rows after a row are the rest of the sorted list. *)
Lemma after_row pre r post : all_rows f t = pre ++ r :: post -> task_id r <> "" ->
  filter (λ x, after_cursor m (Some (task_id r)) x = true) (all_rows f t) = post.
Proof using Hk.
  intros E Hne. pose proof all_rows_sorted as Hs. pose proof all_rows_nodup as Hn. rewrite E in *. clear E.
  assert (Ha : ∀ x, after_cursor m (Some (task_id r)) x = true <-> str_compare (id_key m x) (id_key m r) = Gt).
  { intros x. unfold after_cursor, id_key. destruct (task_id r); [done|]. by rewrite bool_decide_eq_true. }
  rewrite filter_app, filter_cons, decide_False by (rewrite Ha, str_compare_refl; done).
  assert (filter (λ x, after_cursor m (Some (task_id r)) x = true) pre = []) as ->.
  { assert (∀ x, x ∈ pre -> after_cursor m (Some (task_id r)) x <> true) as Hpre;
      [|clear -Hpre; induction pre as [|y pre IH]; [done|]; rewrite filter_cons, decide_False by (apply Hpre; set_solver);
        apply IH; set_solver].
    intros x Hx. rewrite Ha. intros Hg. assert (id_le m x r) as Hle; [|by apply Hle].
    clear -Hs Hx. induction pre as [|y pre IH]; [by apply elem_of_nil in Hx|].
    simpl in Hs. apply StronglySorted_inv in Hs as [Hs Hf]. rewrite Forall_forall in Hf.
    apply elem_of_cons in Hx as [->|Hx]; [apply Hf; set_solver|by apply IH]. }
  simpl. clear -Hs Hn Ha.
  assert (StronglySorted (id_le m) (r :: post) /\ NoDup (map (id_key m) (r :: post))) as [Hs' Hn'].
  { induction pre as [|y pre IH]; [done|]. simpl in Hs, Hn.
    apply StronglySorted_inv in Hs as [Hs _]. inversion Hn; subst. by apply IH. }
  apply StronglySorted_inv in Hs' as [_ Hf]. simpl in Hn'. inversion Hn' as [|? ? Hr Hnd]; subst.
  rewrite Forall_forall in Hf.
  assert (∀ x, x ∈ post -> after_cursor m (Some (task_id r)) x = true) as Hall.
  { intros x Hx. apply Ha. rewrite str_compare_opp. pose proof (Hf x Hx) as Hle.
    apply id_le_cases in Hle as [->|Heq]; [done|]. exfalso. apply Hr. rewrite Heq. by apply list_elem_of_fmap_2. }
  clear -Hall. induction post as [|x post IH]; [done|]. rewrite filter_cons, decide_True by (apply Hall; set_solver).
  f_equal. apply IH. set_solver.
Qed.
End Pages.

Section Fetch.
Context {E : Env} (Hq : quiet E) (f : task_filter) (limit : nat) (Hl : (1 <= limit)%nat).
Notation W := (world doc_services).

Lemma run_list_tasks cursor (w : W) :
  run (list_tasks Session f limit cursor) w =
  (after (w_redis w) (w_db w) w, inr (page_of limit (page_rows f limit cursor (w_db w)))).
Proof using Hq. unfold list_tasks, sql_read. by rewrite run_bind, run_sql, (proj2 Hq). Qed.

Lemma run_fetch_all fuel : ∀ cursor pre rest (w : W),
  keyed (w_db w) -> (∀ r, r ∈ all_rows f (w_db w) -> task_id r <> "") ->
  all_rows f (w_db w) = pre ++ rest ->
  filter (λ r, after_cursor (db_server (w_db w)) cursor r = true) (all_rows f (w_db w)) = rest -> (length rest < fuel)%nat ->
  exists w', run (fetch_all fuel f limit cursor) w = (w', inr (map to_task_summary rest)) /\ w_db w' = w_db w.
Proof using Hq Hl.
  induction fuel as [|fuel IH]; intros cursor pre rest w Hk Hids E0 Hrest Hfuel; [lia|].
  cbn [fetch_all]. rewrite run_bind, run_list_tasks. cbv beta iota. rewrite page_rows_eq by done. rewrite Hrest.
  unfold page_of. cbn [pg_next pg_items].
  assert (Htt : take limit (take (S limit) rest) = take limit rest) by (rewrite take_take; f_equal; lia).
  rewrite Htt, length_take.
  set (w1 := after (w_redis w) (w_db w) w). assert (Hw1 : w_db w1 = w_db w) by done. clearbody w1.
  destruct (limit <? _)%nat eqn:El.
  2:{ apply Nat.ltb_ge in El. exists w1. split; [|done]. rewrite take_ge by lia. done. }
  apply Nat.ltb_lt in El. assert (Hlen : (limit < length rest)%nat) by lia.
  destruct (last (take limit rest)) as [r|] eqn:Elast.
  2:{ apply last_None in Elast. apply (f_equal length) in Elast. rewrite length_take in Elast. simpl in Elast. lia. }
  apply last_Some in Elast as [front Hfront]. simpl.
  assert (E1 : all_rows f (w_db w) = (pre ++ front) ++ r :: drop limit rest).
  { rewrite E0 at 1. rewrite <- (take_drop limit rest) at 1. rewrite Hfront, <- !app_assoc. done. }
  destruct (IH (Some (task_id r)) ((pre ++ front) ++ [r]) (drop limit rest) w1) as (w2 & Hrun & Hw2).
  - by rewrite Hw1.
  - by rewrite Hw1.
  - rewrite Hw1, E1, <- !app_assoc. done.
  - rewrite Hw1. apply (after_row f _ Hk (pre ++ front)); [done|]. apply Hids. rewrite E1. set_solver.
  - rewrite length_drop. lia.
  - exists w2. rewrite run_bind, Hrun. cbv beta iota. split; [|congruence].
    rewrite run_ret. by rewrite <- map_app, take_drop.
Qed.
End Fetch.

(** Cursor pagination is complete.  A client that follows [next_cursor]
    through [list_tasks] over an unchanging table receives every task that matches
    its filter exactly once, in id order, whatever the page size, when the service
    is given a synchronous session.  (Given the [AsyncSession] its type announces,
    [list_tasks] raises [AttributeError] on every call.) *)
Theorem pagination_complete (S : Services) (E : Env) (f : task_filter) (limit : nat) (w : world S)
    (Hq : quiet E) (Hl : (1 <= limit)%nat) (Hk : keyed (db_of w))
    (Hids : ∀ k r, db_tasks (db_of w) !! k = Some r -> k <> "") :
  exists rows, (run (fetch_all (Datatypes.S (length (all_rows f (db_of w)))) f limit None) w).2 =
      inr (map to_task_summary rows) /\
    StronglySorted (id_le (db_server (db_of w))) rows /\ NoDup (map task_id rows) /\
    (∀ r, r ∈ rows <-> matches (db_server (db_of w)) f r = true /\ exists k, db_tasks (db_of w) !! k = Some r) /\
    (∀ cursor, exists m, (run (list_tasks AsyncSession f limit cursor) w).2 = inl (Exn AttributeError m)).
Proof.
  exists (all_rows f (db_of w)).
  assert (Hmem : ∀ r, r ∈ all_rows f (db_of w) <-> matches (db_server (db_of w)) f r = true /\ exists k, db_tasks (db_of w) !! k = Some r).
  { intros r. unfold all_rows. rewrite (merge_sort_Permutation (id_le _)), select_tasks_spec. by rewrite Is_true_true. }
  destruct (run_fetch_all Hq f limit Hl (Datatypes.S (length (all_rows f (db_of w)))) None [] (all_rows f (db_of w)) (wview w))
    as (w' & Hrun & _); try done.
  - intros r (_ & k & Hr)%Hmem. rewrite (proj1 Hk _ _ Hr). by eapply Hids.
  - simpl. clear. induction (all_rows f _) as [|r l IH]; [done|]. rewrite filter_cons, decide_True by done. by f_equal.
  - lia.
  - rewrite run_view in Hrun. apply (f_equal snd) in Hrun. split; [exact Hrun|]. split; [apply all_rows_sorted|].
    split; [by apply (NoDup_fmap_1 (collate (db_server (db_of w)))); rewrite <-list_fmap_compose; apply all_rows_nodup|].
    split; [done|]. intros cursor. by eexists.
Qed.

(** ** Tenant isolation *)

(** The two tables hold the same rows of one tenant. *)
Definition same_tenant_rows (tenant : string) (t1 t2 : tables) : Prop :=
  ∀ k r, tenant_id r = tenant -> db_tasks t1 !! k = Some r <-> db_tasks t2 !! k = Some r.

(** The same, of every tenant whose name the collation does not tell from this one. *)
Definition same_collated_rows (tenant : string) (t1 t2 : tables) : Prop :=
  db_server t1 = db_server t2 /\
  ∀ k r, text_eq (db_server t1) (tenant_id r) tenant = true ->
    db_tasks t1 !! k = Some r <-> db_tasks t2 !! k = Some r.

Lemma collated_tenant tenant t1 t2 : same_collated_rows tenant t1 t2 -> same_tenant_rows tenant t1 t2.
Proof. intros [_ H] k r Hr. apply H. rewrite Hr. apply text_eq_refl. Qed.

Lemma access_same tenant t1 t2 k : same_tenant_rows tenant t1 t2 ->
  ensure_task_access (db_tasks t1 !! k) tenant false = ensure_task_access (db_tasks t2 !! k) tenant false.
Proof.
  intros H. unfold ensure_task_access. simpl.
  destruct (db_tasks t1 !! k) as [r1|] eqn:E1, (db_tasks t2 !! k) as [r2|] eqn:E2; [| | |done].
  - destruct (decide (tenant_id r1 = tenant)) as [Ht|Ht].
    + apply (H k r1 Ht) in E1. rewrite E1 in E2. by injection E2 as ->.
    + rewrite (bool_decide_eq_false_2 (tenant_id r1 = tenant)) by done.
      destruct (decide (tenant_id r2 = tenant)) as [Ht2|Ht2].
      * apply (H k r2 Ht2) in E2. congruence.
      * by rewrite (bool_decide_eq_false_2 (tenant_id r2 = tenant)).
  - case_bool_decide as Ht; [|done]. apply (H k r1 Ht) in E1. congruence.
  - case_bool_decide as Ht; [|done]. apply (H k r2 Ht) in E2. congruence.
Qed.

Lemma run_get_record {E : Env} (Hq : quiet E) id tenant super (w : world doc_services) :
  run (get_task_record id tenant super) w =
  (after (w_redis w) (w_db w) w, ensure_task_access (db_tasks (w_db w) !! id) tenant super).
Proof. unfold get_task_record, sql_read. by rewrite run_bind, run_sql, (proj2 Hq). Qed.

Lemma rows_same f t1 t2 : f_super f = false -> keyed t1 -> keyed t2 -> same_collated_rows (f_tenant f) t1 t2 ->
  all_rows f t1 = all_rows f t2.
Proof.
  intros Hf Hk1 Hk2 [Hm H]. set (m := db_server t1) in *.
  apply (sorted_keys_unique m); [apply all_rows_sorted|rewrite Hm; apply all_rows_sorted|by apply all_rows_nodup|].
  unfold all_rows. rewrite !(merge_sort_Permutation (id_le _)). fold m. rewrite <-Hm.
  assert (Hnd : NoDup (select_tasks (matches m f) t1) /\ NoDup (select_tasks (matches m f) t2)).
  { split; eapply NoDup_fmap_1; [apply (select_keys_nodup _ t1 Hk1)|apply (select_keys_nodup _ t2 Hk2)]. }
  apply NoDup_Permutation; [apply Hnd..|]. intros r. rewrite !select_tasks_spec, Is_true_true.
  assert (Ht : matches m f r = true -> text_eq m (tenant_id r) (f_tenant f) = true).
  { unfold matches. rewrite Hf. simpl. rewrite !andb_true_iff. naive_solver. }
  split; intros (Hr & k & Hrow); (split; [done|]); exists k; by apply (H k r (Ht Hr)).
Qed.

(** A query for a task of another tenant is answered before anything is done. *)
Lemma run_cancel_other {E : Env} (Hq : quiet E) id tenant r (w : world doc_services) :
  db_tasks (w_db w) !! id = Some r -> tenant_id r <> tenant ->
  run (cancel_task id tenant false) w =
  (after (w_redis w) (w_db w) w, inl (HTTPException 404 "Task not found")).
Proof.
  intros Hid Hten. unfold cancel_task. rewrite run_bind, (run_get_record Hq). cbv beta iota.
  rewrite Hid. unfold ensure_task_access. simpl. by rewrite bool_decide_eq_false_2.
Qed.

(** C19: tenant isolation.  For a caller that is not a super-admin, the answers of
    [get_task] and [get_result] depend only on the rows of the caller's tenant,
    errors included (so the existence of other tenants' tasks is not revealed), and
    the pages of [list_tasks] only on the rows of the tenants whose names are equal
    to the caller's under the collation of the MySQL server, which is the caller's
    tenant alone under a binary one.  A cancellation of a task of another tenant
    answers 404 and changes neither database nor Redis and calls nothing.  No call
    fails, and the primary key of the task table holds. *)
Theorem tenant_isolation (S : Services) (E : Env) (tenant : string) (w1 w2 : world S)
    (Hq : quiet E) (Hk1 : keyed (db_of w1)) (Hk2 : keyed (db_of w2))
    (Hsame : same_tenant_rows tenant (db_of w1) (db_of w2)) :
  (∀ id, (run (get_task id tenant false) w1).2 = (run (get_task id tenant false) w2).2) /\
  (∀ id, (run (get_result id tenant false) w1).2 = (run (get_result id tenant false) w2).2) /\
  (same_collated_rows tenant (db_of w1) (db_of w2) -> ∀ sess st ty limit cursor,
     let f := {| f_tenant := tenant; f_super := false; f_status := st; f_type := ty |} in
     (run (list_tasks sess f limit cursor) w1).2 = (run (list_tasks sess f limit cursor) w2).2) /\
  (∀ id r, db_tasks (db_of w1) !! id = Some r -> tenant_id r <> tenant ->
     let out := run (cancel_task id tenant false) w1 in
     out.2 = inl (HTTPException 404 "Task not found") /\
     db_of out.1 = db_of w1 /\ ks_of out.1 = ks_of w1 /\ w_log out.1 = w_log w1).
Proof.
  assert (Hv : ∀ A (p : prog A) (w : world S), (run p w).2 = (run p (wview w)).2) by (intros A p w; by rewrite run_view).
  split; [|split; [|split]].
  - intros id. rewrite !Hv. unfold get_task. rewrite !run_bind, !(run_get_record Hq). cbv beta iota.
    change (w_db (wview ?w)) with (db_of w). rewrite (access_same tenant _ _ id Hsame).
    destruct (ensure_task_access _ _ _) as [e|r]; [done|]. by destruct (to_task_info r).
  - intros id. rewrite !Hv. unfold get_result. rewrite !run_bind, !(run_get_record Hq). cbv beta iota.
    change (w_db (wview ?w)) with (db_of w). rewrite (access_same tenant _ _ id Hsame).
    destruct (ensure_task_access _ _ _) as [e|r]; [done|].
    destruct (status r); try done; rewrite !run_bind; by destruct (as_object _).
  - intros Hcol sess st ty limit cursor f. destruct sess; [|done].
    assert (Hf : f_super f = false /\ f_tenant f = tenant) by done.
    clearbody f. destruct Hf as [Hf <-]. rewrite !Hv, !(run_list_tasks Hq). cbn [snd].
    change (w_db (wview ?w)) with (db_of w).
    rewrite (page_rows_eq f _ Hk1), (page_rows_eq f _ Hk2), (rows_same f (db_of w1) (db_of w2)) by done.
    by rewrite (proj1 Hcol).
  - intros id r Hid Hten out. pose proof (run_cancel_other Hq id tenant r (wview w1) Hid Hten) as Hrun.
    rewrite run_view in Hrun. fold out in Hrun. destruct out as [w' a]. injection Hrun as Hr Hd Hn Ht Hl ->.
    split; [done|]. split; [exact Hd|]. split; [exact Hr|]. simpl in Hl. by rewrite app_nil_r in Hl.
Qed.

(** Cancelling is a matter of the database alone: neither the queue entry nor the
    executor's cancellation flag is touched. *)
Lemma cancel_keeps_redis (S : Services) (E : Env) id tenant super (w : world S) :
  ks_of (run (cancel_task id tenant super) w).1 = ks_of w.
Proof.
  assert (H : ∀ w : world doc_services, w_redis (run (cancel_task id tenant super) w).1 = w_redis w).
  { clear. intros w. unfold cancel_task, get_task_record, sql_read. rewrite run_bind, run_bind, run_sql.
    destruct (db_fault _); [done|]. simpl. destruct (ensure_task_access _ _ _) as [e|r]; [done|].
    destruct (terminal (status r)); [done|]. destruct (transition (status r) CANCEL); [done|].
    rewrite run_bind, run_sql. destruct (db_fault _); done. }
  specialize (H (wview w)). by rewrite run_view in H.
Qed.

(** ** Concrete runs *)

Definition plain_row (id tenant : string) : TaskRecord :=
  {| task_id := id; tenant_id := tenant; task_type := Some "c"; dag_id := None; status := QUEUED;
     priority := NORMAL; cluster_id := None; current_step := None; input_data := None;
     output_data := None; error_message := None; metadata_json := None; callback_url := None;
     idempotency_key := None; timeout_seconds := 3600; max_retries := 3; attempt := 0;
     scheduled_at := None; cron_expr := None; created_at := 0; updated_at := 0 |}.

Definition t_mixed : tables :=
  set_tasks (λ _, {["a" := plain_row "a" "acme"; "b" := plain_row "b" "other"; "c" := plain_row "c" "acme"]}) empty_tables.

Definition w_mixed : world doc_services := World (S := doc_services) (∅ : keyspace) t_mixed 0 O [].

Lemma keyed_mixed : keyed t_mixed.
Proof.
  split.
  - intros k r H. simpl in H. repeat (apply lookup_insert_Some in H as [[<- <-]|[_ H]]; [done|]).
    by apply lookup_singleton_Some in H as [<- <-].
  - intros k k' r r' _ _ H. by apply bool_decide_eq_true in H.
Qed.

Lemma pagination_complete_witness : exists rows,
  (run (E := calm) (fetch_all (S (length (all_rows {| f_tenant := "acme"; f_super := false; f_status := None; f_type := None |} t_mixed)))
     {| f_tenant := "acme"; f_super := false; f_status := None; f_type := None |} 1 None) w_mixed).2 = inr (map to_task_summary rows).
Proof.
  assert (Hids : ∀ k r, db_tasks t_mixed !! k = Some r -> k <> "").
  { intros k r H ->. revert H. vm_compute. discriminate. }
  destruct (pagination_complete doc_services calm {| f_tenant := "acme"; f_super := false; f_status := None; f_type := None |}
    1 w_mixed calm_quiet (Nat.le_refl 1) keyed_mixed Hids) as (rows & H & _).
  exists rows. exact H.
Defined.

Definition w_acme : world doc_services :=
  World (S := doc_services) (∅ : keyspace)
    (set_tasks (λ _, {["a" := plain_row "a" "acme"; "c" := plain_row "c" "acme"]}) empty_tables) 0 O [].

Lemma tenant_isolation_witness :
  (run (E := calm) (get_task "b" "acme" false) w_mixed).2 = (run (E := calm) (get_task "b" "acme" false) w_acme).2.
Proof.
  assert (Hk2 : keyed (db_of w_acme)).
  { split; [|intros k k' r r' _ _ H; by apply bool_decide_eq_true in H].
    intros k r H. simpl in H. apply lookup_insert_Some in H as [[<- <-]|[_ H]]; [done|].
    by apply lookup_singleton_Some in H as [<- <-]. }
  assert (Hs : same_tenant_rows "acme" (db_of w_mixed) (db_of w_acme)).
  { intros k r Ht. unfold db_of; simpl. split; intros H.
    - apply lookup_insert_Some in H as [[<- <-]|[Ha H]]; [by rewrite lookup_insert_eq|].
      rewrite lookup_insert_ne by done. apply lookup_insert_Some in H as [[<- <-]|[_ H]]; [done|]. done.
    - apply lookup_insert_Some in H as [[<- <-]|[Ha H]]; [by rewrite lookup_insert_eq|].
      rewrite lookup_insert_ne by done. apply lookup_singleton_Some in H as [<- <-].
      by rewrite lookup_insert_ne, lookup_singleton_eq. }
  exact (proj1 (tenant_isolation doc_services calm "acme" w_mixed w_acme calm_quiet keyed_mixed Hk2 Hs) "b").
Defined.

(** Under a collation that ignores case, as [utf8mb4_unicode_ci] does, tenant [acme]
    lists the tasks of tenant [ACME], which it may not read one by one. *)
Definition case_blind : mysql_server :=
  {| collate := str_lower; scan_order := λ A l, l; scan_perm := λ A l, reflexivity l |}.

Definition w_cases : world doc_services :=
  World (S := doc_services) (∅ : keyspace)
    {| db_server := case_blind; db_tasks := {["t1" := plain_row "t1" "ACME"]}; db_outbox := []; db_task_runs := [];
       db_dag_runs := []; db_events := []; db_actions := [] |} 0 O [].

Example tenants_differ_by_case :
  let f := {| f_tenant := "acme"; f_super := false; f_status := None; f_type := None |} in
  match (run (E := calm) (list_tasks Session f 10 None) w_cases).2 with
  | inr p => map ts_task_id (pg_items p)
  | inl _ => []
  end = ["t1"] /\
  (run (E := calm) (get_task "t1" "acme" false) w_cases).2 = inl (HTTPException 404 "Task not found").
Proof. split; vm_compute; reflexivity. Qed.
