(* ===== verification/RateLimiter.v ===== *)
(** * Rate limiter

    [src/middleware/rate_limit.py]: the sliding-window counter [RateLimiter] and
    the middleware that answers 429.  Each admitted request leaves the second of
    its arrival in a sorted set; a request is admitted while fewer than
    [max_requests] seconds of the window are recorded.  The FastAPI application
    behind the middleware is the parameter [call_next]. *)

From Stdlib Require Import Ascii.
From stdpp Require Import base gmap strings list sorting.
From S2P Require Import Prelude PyValue Redis TaskModel Tables Effects.

Open Scope Z_scope.

Definition metadata := list (string * value).

Section Limiter.
Context (key_prefix : string).

Definition limit_key (identifier : string) : string := key_prefix +:+ ":" +:+ identifier.

(** [int(oldest_entry[0][1] + window_seconds - now)], at least 1 *)
Definition retry_after_of (oldest_entry : list (string * Z)) (window_seconds now : Z) : Z :=
  match oldest_entry with
  | [] => 0
  | (_, score) :: _ => Z.max 1 (Z.quot (score + of_int (window_seconds - now)) 1000)
  end.

Definition rejected_meta (max_requests now retry_after : Z) : metadata :=
  [("limit", VInt max_requests); ("remaining", VInt 0);
   ("reset", VInt (now + retry_after)); ("retry_after", VInt retry_after)].

Definition allowed_meta (max_requests current_count now window_seconds : Z) : metadata :=
  [("limit", VInt max_requests); ("remaining", VInt (max_requests - current_count - 1));
   ("reset", VInt (now + window_seconds)); ("retry_after", VInt 0)].

Definition fail_open_meta (e : exn) : metadata :=
  [("error", VStr (exn_str e)); ("fail_open", VBool true)].

Definition check_window (identifier : string) (window_seconds max_requests : Z) :
    M (bool * metadata) :=
  let key := limit_key identifier in
  let* ms := time_ms in
  let now := Z.quot ms 1000 in
  let oldest := now - window_seconds in
  do* redis key (ZREMRANGEBYSCORE (Some (of_int 0)) (Some (of_int oldest))) in
  let* current_count := redis key ZCARD in
  if current_count >=? max_requests then
    let* oldest_entry := redis key (ZRANGE 0 0) in
    ret (false, rejected_meta max_requests now (retry_after_of oldest_entry window_seconds now))
  else
    do* redis key (ZADD (of_int now) (dec_of_Z now)) in
    do* redis key (EXPIRE window_seconds) in
    ret (true, allowed_meta max_requests current_count now window_seconds).

Definition is_allowed (identifier : string) (window_seconds max_requests : Z) :
    M (bool * metadata) :=
  except (check_window identifier window_seconds max_requests)
         (λ e, ret (true, fail_open_meta e)).
End Limiter.

(** ** Middleware *)

Record request := {
  rq_path : string;
  rq_method : string;
  rq_authorization : option string
}.

Record response := {
  rs_status : Z;
  rs_content : value;
  rs_headers : list (string * string)
}.

Record RateLimitMiddleware := {
  default_window : Z;
  default_limit : Z;
  exempt_paths : list string
}.

Definition RateLimitMiddleware_init (window limit : Z) (exempt : option (list string)) :
    RateLimitMiddleware :=
  {| default_window := window; default_limit := limit;
     exempt_paths := match exempt with
                     | Some (p :: ps) => p :: ps
                     | _ => ["/health"; "/docs"; "/redoc"; "/openapi.json"]
                     end |}.

(** [metadata[k]] *)
Definition meta_item (k : string) (m : metadata) : M value :=
  match dict_get k m with Some v => ret v | None => raise (Exn KeyError k) end.

(** [str(v)] of the numbers the metadata holds *)
Definition meta_str (v : value) : string :=
  match v with VInt z => dec_of_Z z | VStr s => s | _ => "" end.

Definition identifier_of (r : request) : string :=
  let tenant_id :=
    match rq_authorization r with
    | Some h => if starts_with "Bearer " h then "authenticated" else "anonymous"
    | None => "anonymous"
    end in
  tenant_id +:+ ":" +:+ rq_method r +:+ ":" +:+ str_replace_char "/"%char "_"%char (rq_path r).

Definition too_many (limit reset retry_after : value) : response :=
  {| rs_status := 429;
     rs_content :=
       VDict [("detail", VStr ("Rate limit exceeded. Try again in " +:+ meta_str retry_after +:+
                               " seconds."));
              ("retry_after", retry_after)];
     rs_headers := [("X-RateLimit-Limit", meta_str limit); ("X-RateLimit-Remaining", "0");
                    ("X-RateLimit-Reset", meta_str reset); ("Retry-After", meta_str retry_after)] |}.

Definition add_header (k : string) (v : value) (r : response) : response :=
  {| rs_status := rs_status r; rs_content := rs_content r;
     rs_headers := dict_set k (meta_str v) (rs_headers r) |}.

Section Dispatch.
Context (mw : RateLimitMiddleware) (call_next : request -> M response).

Definition dispatch (r : request) : M response :=
  if bool_decide (rq_path r ∈ exempt_paths mw) then call_next r else
  let* am := is_allowed "ratelimit" (identifier_of r) (default_window mw) (default_limit mw) in
  let '(allowed, m) := am in
  if negb allowed then
    let* limit := meta_item "limit" m in
    let* reset := meta_item "reset" m in
    let* retry_after := meta_item "retry_after" m in
    ret (too_many limit reset retry_after)
  else
    let* resp := call_next r in
    let* limit := meta_item "limit" m in
    let resp := add_header "X-RateLimit-Limit" limit resp in
    let* remaining := meta_item "remaining" m in
    let resp := add_header "X-RateLimit-Remaining" remaining resp in
    let* reset := meta_item "reset" m in
    ret (add_header "X-RateLimit-Reset" reset resp).
End Dispatch.

(** ** The recorded seconds *)

(** The sorted set that records the seconds [A]. *)
Definition window_map (A : gset Z) : gmap string Z :=
  list_to_map ((λ s, (dec_of_Z s, of_int s)) <$> elements A).

(** The seconds [ZREMRANGEBYSCORE 0 oldest] leaves. *)
Definition remaining (oldest : Z) (A : gset Z) : gset Z :=
  filter (λ s, ~ (0 <= s <= oldest)) A.

Lemma window_map_nodup (A : gset Z) : NoDup ((λ s, (dec_of_Z s, of_int s)) <$> elements A).*1.
Proof.
  rewrite <-list_fmap_compose. apply NoDup_fmap_2; [|apply NoDup_elements].
  intros a b. apply dec_of_Z_inj.
Qed.

Lemma lookup_window_map (A : gset Z) m x :
  window_map A !! m = Some x <-> exists s, s ∈ A /\ m = dec_of_Z s /\ x = of_int s.
Proof.
  unfold window_map. rewrite <-elem_of_list_to_map by apply window_map_nodup.
  rewrite list_elem_of_fmap. split.
  - intros (s & [= -> ->] & H%elem_of_elements). eauto.
  - intros (s & H & -> & ->). exists s. split; [done|]. by apply elem_of_elements.
Qed.

Lemma size_window_map A : size (window_map A) = size A.
Proof.
  unfold window_map. rewrite <-length_map_to_list, map_to_list_to_map by apply window_map_nodup.
  by rewrite length_fmap.
Qed.

Lemma insert_window_map A s :
  <[dec_of_Z s := of_int s]> (window_map A) = window_map ({[s]} ∪ A).
Proof.
  apply map_eq; intros m. apply option_eq; intros x.
  rewrite lookup_insert_Some, !lookup_window_map. setoid_rewrite elem_of_union.
  setoid_rewrite elem_of_singleton. split.
  - intros [[<- <-]|[Hne (t & Ht & -> & ->)]]; eauto.
  - intros (t & [->|Ht] & -> & ->); [by left|].
    destruct (decide (s = t)) as [->|Hne]; [by left|].
    right. split; [by intros ?%dec_of_Z_inj|eauto].
Qed.

Lemma filter_window_map A oldest :
  filter (λ ms : string * Z,
    ~ Is_true (in_range (Some (of_int 0)) (Some (of_int oldest)) ms.2)) (window_map A) =
  window_map (remaining oldest A).
Proof.
  apply map_eq; intros m. apply option_eq; intros x.
  rewrite map_lookup_filter_Some, !lookup_window_map. unfold remaining, in_range, of_int. simpl.
  split.
  - intros [(t & Ht & -> & ->) Hr]. exists t. rewrite elem_of_filter. split_and!; try done.
    intros [? ?]. apply Hr. apply andb_True. split; apply Is_true_true, Z.leb_le; lia.
  - intros (t & [Hr Ht]%elem_of_filter & -> & ->). split; [by eauto|].
    intros [H1%Is_true_true%Z.leb_le H2%Is_true_true%Z.leb_le]%andb_True. apply Hr. lia.
Qed.

(** ** The abstract limiter: a log of admitted seconds *)

Section Log.
Context (window max : Z).
Implicit Types (A P : gset Z) (e : option rentry).

Definition in_window (sec : Z) (P : gset Z) : gset Z := filter (λ s, sec - window < s) P.

(** A decision: the second of the request, the admitted seconds of the window that
    ends with it, and whether it is admitted. *)
Record decision := { d_second : Z; d_taken : gset Z; d_admitted : bool }.

(** The decisions on requests that arrive after the given gaps. *)
Fixpoint window_log (now : Z) (P : gset Z) (gaps : list Z) : list decision :=
  match gaps with
  | [] => []
  | g :: gaps' =>
      let now' := now + Z.max 0 g in
      let sec := Z.quot now' 1000 in
      let ok := Z.of_nat (size (in_window sec P)) <? max in
      {| d_second := sec; d_taken := in_window sec P; d_admitted := ok |} ::
      window_log now' (if ok then {[sec]} ∪ P else P) gaps'
  end.

(** How long a refused request has to wait: until the oldest admitted second leaves
    the window (0 when nothing was ever admitted, the limit being 0). *)
Definition wait_of (sec : Z) (taken : gset Z) (wait : Z) : Prop :=
  (taken = ∅ /\ wait = 0) \/
  exists oldest, oldest ∈ taken /\ (∀ s, s ∈ taken -> oldest <= s) /\ wait = oldest + window - sec.

(** The code's answer to a request that the abstract limiter decides: the verdict,
    and the limit, the free seconds left after this request, the time of the reset
    and the seconds to wait. *)
Definition answers (d : decision) (r : bool * metadata) : Prop :=
  r.1 = d_admitted d /\
  exists left reset wait,
    r.2 = [("limit", VInt max); ("remaining", VInt left); ("reset", VInt reset); ("retry_after", VInt wait)] /\
    if d_admitted d
    then left = max - Z.of_nat (size (d_taken d)) - 1 /\ reset = d_second d + window /\ wait = 0
    else left = 0 /\ wait_of (d_second d) (d_taken d) wait /\ reset = d_second d + wait.

(** The log [P] of admitted seconds is what the key remembers, up to seconds
    that have left the window. *)
Record remembers (now : Z) (e : option rentry) (P : gset Z) : Prop := {
  rem_zset : exists A, zset_of e = Some (window_map A) /\ A ⊆ P /\
             ∀ s, s ∈ P -> Z.quot now 1000 - window < s -> s ∈ A;
  rem_past : ∀ s, s ∈ P -> 0 <= s <= Z.quot now 1000;
  rem_exp : ∀ t, exp_of e = Some t -> ∀ s, s ∈ P -> of_int (s + window) <= t
}.

Lemma quot_mono a b : 0 <= a <= b -> 0 <= Z.quot a 1000 <= Z.quot b 1000.
Proof. intros. split; [apply Z.quot_pos; lia|apply Z.quot_le_mono; lia]. Qed.

Lemma remembers_later now now' e P :
  0 <= now <= now' -> remembers now e P ->
  remembers now' (e ≫= λ x, if expired now' x then None else Some x) P.
Proof.
  intros Hn [(A & HA & HAP & Hin) Hpast Hexp].
  pose proof (quot_mono _ _ Hn) as Hq.
  assert (Hpast' : ∀ s, s ∈ P -> 0 <= s <= Z.quot now' 1000) by (intros s Hs; specialize (Hpast s Hs); lia).
  destruct e as [x|]; simpl; [destruct (expired now' x) eqn:Ex|].
  - split; [|done|done]. exists ∅. split; [done|]. split; [set_solver|].
    intros s Hs Hw. exfalso. unfold expired in Ex.
    destruct (re_exp x) as [t|] eqn:Et; [|done]. bool_to_prop.
    assert (of_int (s + window) <= t) as Ht by (apply Hexp; [by simpl|done]).
    unfold of_int in Ht.
    assert (s + window <= Z.quot now' 1000) by (apply Z.quot_le_lower_bound; lia). lia.
  - split; [|done|done]. exists A. split_and!; try done. intros s Hs Hw. apply Hin; [done|lia].
  - split; [|done|done]. exists A. split_and!; try done. intros s Hs Hw. apply Hin; [done|lia].
Qed.

Lemma remaining_in_window now e P A :
  remembers now e P -> A ⊆ P ->
  (∀ s, s ∈ P -> Z.quot now 1000 - window < s -> s ∈ A) ->
  remaining (Z.quot now 1000 - window) A = in_window (Z.quot now 1000) P.
Proof.
  intros [_ Hpast _] HAP Hin. apply set_eq. intros s. unfold remaining, in_window.
  rewrite !elem_of_filter. split.
  - intros [Hr Hs]. specialize (Hpast s (HAP s Hs)). split; [lia|set_solver].
  - intros [Hr Hs]. split; [lia|by apply Hin].
Qed.

(** The seconds of the admitted requests. *)
Definition admitted_seconds (ds : list decision) : gset Z :=
  list_to_set (d_second <$> filter (λ d, d_admitted d = true) ds).

Definition within (t : Z) (P : gset Z) : gset Z := filter (λ s, t - window < s <= t) P.

Lemma window_log_bound gaps : ∀ now P,
  0 <= max -> 0 <= now -> (∀ s, s ∈ P -> s <= Z.quot now 1000) ->
  (∀ t, Z.of_nat (size (within t P)) <= max) ->
  ∀ t, Z.of_nat (size (within t (admitted_seconds (window_log now P gaps) ∪ P))) <= max.
Proof.
  induction gaps as [|g gaps IH]; intros now P Hmax Hnow Hpast HP t.
  { simpl. unfold admitted_seconds. simpl. rewrite union_empty_l_L. apply HP. }
  simpl window_log. set (now' := now + Z.max 0 g). set (sec := Z.quot now' 1000).
  assert (Hs : Z.quot now 1000 <= sec) by (apply quot_mono; lia).
  destruct (Z.of_nat (size (in_window sec P)) <? max) eqn:Hok; bool_to_prop.
  - assert (Hset : admitted_seconds ({| d_second := sec; d_taken := in_window sec P; d_admitted := true |} ::
                     window_log now' ({[sec]} ∪ P) gaps) ∪ P =
                   admitted_seconds (window_log now' ({[sec]} ∪ P) gaps) ∪ ({[sec]} ∪ P)).
    { unfold admitted_seconds. rewrite filter_cons_True by done. simpl. set_solver. }
    rewrite Hset. apply IH; [done|lia| |].
    + intros s [->%elem_of_singleton|H]%elem_of_union; [done|]. fold sec. specialize (Hpast s H). lia.
    + intros u. destruct (decide (u - window < sec <= u)) as [Hu|Hu].
      * etrans; [apply inj_le, subseteq_size with (Y := {[sec]} ∪ in_window sec P)|].
        { intros s. unfold within, in_window. rewrite elem_of_filter, !elem_of_union, elem_of_filter.
          intros [Hw [?|Hin]]; [by left|]. right. split; [lia|done]. }
        pose proof (size_union_alt {[sec]} (in_window sec P)) as Hsz.
        pose proof (subseteq_size (in_window sec P ∖ {[sec]}) (in_window sec P) ltac:(set_solver)).
        rewrite size_singleton in Hsz. lia.
      * etrans; [|apply (HP u)]. apply inj_le, subseteq_size. intros s. unfold within.
        rewrite !elem_of_filter, elem_of_union, elem_of_singleton. intros [Hw [->|Hin]]; [lia|done].
  - assert (Hset : admitted_seconds ({| d_second := sec; d_taken := in_window sec P; d_admitted := false |} ::
                     window_log now' P gaps) =
                   admitted_seconds (window_log now' P gaps))
      by (unfold admitted_seconds; by rewrite filter_cons_False).
    rewrite Hset. apply IH; [done|lia| |done].
    intros s Hin. fold sec. specialize (Hpast s Hin). lia.
Qed.

(** A window holds at most [window] whole seconds. *)
Lemma size_in_window sec P :
  0 < window -> (∀ s, s ∈ P -> s <= sec) -> Z.of_nat (size (in_window sec P)) <= window.
Proof.
  intros Hw HP.
  assert (in_window sec P ⊆ list_to_set (seqZ (sec - window + 1) window)) as Hsub%subseteq_size.
  { intros s [Hs Hin]%elem_of_filter. apply elem_of_list_to_set, elem_of_seqZ.
    specialize (HP s Hin). lia. }
  rewrite size_list_to_set in Hsub by apply NoDup_seqZ. rewrite length_seqZ in Hsub. lia.
Qed.

Lemma window_log_admits gaps : ∀ now P,
  0 < window < max -> 0 <= now -> (∀ s, s ∈ P -> s <= Z.quot now 1000) ->
  Forall (λ d, d_admitted d = true) (window_log now P gaps).
Proof.
  induction gaps as [|g gaps IH]; intros now P Hwm Hnow Hpast; [constructor|].
  simpl window_log. set (now' := now + Z.max 0 g). set (sec := Z.quot now' 1000).
  assert (Hs : Z.quot now 1000 <= sec) by (apply quot_mono; lia).
  assert (Hpast' : ∀ s, s ∈ P -> s <= sec) by (intros s Hin; specialize (Hpast s Hin); lia).
  pose proof (size_in_window sec P ltac:(lia) Hpast').
  rewrite (proj2 (Z.ltb_lt _ max)) by lia. constructor; [done|]. apply IH; [done|lia|].
  intros s [->%elem_of_singleton|Hin]%elem_of_union; [done|]. by apply Hpast'.
Qed.

Lemma length_window_log gaps now P : length (window_log now P gaps) = length gaps.
Proof. revert now P. induction gaps as [|g gs IH]; intros now P; simpl; [done|]. by rewrite IH. Qed.
End Log.

(** No call fails or takes time: seconds pass between requests only. *)
Definition prompt (E : Env) : Prop := quiet E /\ ∀ n, delay n = 0%N.

Section Window.
Context {E : Env} (HE : prompt E) (key_prefix identifier : string) (window max : Z).
Notation key := (limit_key key_prefix identifier).
Notation W := (world doc_services).
Implicit Types (w : W) (A : gset Z).

(** At time [now], the key of the limiter holds [e]. *)
Definition holds (now : Z) (w : W) (e : option rentry) : Prop :=
  w_now w = now /\ live now (w_redis w) key = e.

Lemma after_now ks t w : w_now (after ks t w) = w_now w.
Proof. unfold after, advance; simpl. destruct HE as [_ ->]. lia. Qed.

Lemma holds_time now w e : holds now w e ->
  exists w', run time_ms w = (w', inr now) /\ holds now w' e.
Proof.
  intros [H1 H2]. rewrite run_time_ms, H1. eexists. split; [done|].
  split; [by rewrite after_now|done].
Qed.

(** A command on the key of the limiter, which takes no time. *)
Lemma holds_redis {X} now w e (a : act X) e' r :
  holds now w e -> act_doc now a e = (e', inr r) -> fresh now e' ->
  exists w', run (redis key a) w = (w', inr r) /\ holds now w' e'.
Proof.
  intros [H1 H2] Ha Hf. rewrite run_redis. destruct HE as [[-> _] _].
  rewrite H1, H2, Ha. eexists. split; [done|].
  split; [by rewrite after_now|]. simpl. by apply live_put_eq.
Qed.

Lemma fresh_future v now d : 0 < d -> fresh now (Some (REntry v (Some (now + d)))).
Proof. intros. unfold fresh, expired; simpl. apply Z.leb_gt. lia. Qed.

(** The entry that records [L] and [sec], for one window from [now]. *)
Definition admitted (now : Z) (L : gset Z) : option rentry :=
  Some (REntry (RZset (window_map ({[Z.quot now 1000]} ∪ L))) (Some (now + of_int window))).

(** One check over the recorded seconds [A]: the expired ones are dropped; when
    [max] remain the request is refused, else its second is recorded and the
    whole set lives for one more window. *)
Lemma check_window_run now w e A :
  0 < window -> holds now w e -> zset_of e = Some (window_map A) ->
  let sec := Z.quot now 1000 in
  let L := remaining (sec - window) A in
  exists w' r,
    run (check_window key_prefix identifier window max) w = (w', inr r) /\
    if Z.of_nat (size L) <? max
    then holds now w' (admitted now L) /\
         r = (true, allowed_meta max (Z.of_nat (size L)) sec window)
    else holds now w' (keep (RZset (window_map L)) (exp_of e)) /\
         r = (false, rejected_meta max sec
                (retry_after_of (take 1 (zsorted (window_map L))) window sec)).
Proof.
  intros Hwin Hw HA sec L. unfold check_window.
  assert (Hf : fresh now e) by (destruct Hw as [_ <-]; apply live_fresh).
  destruct (holds_time _ _ _ Hw) as (w1 & R1 & Hw1). rewrite run_bind, R1. cbv beta iota.
  destruct (act_ZREMRANGEBYSCORE now e _ (Some (of_int 0)) (Some (of_int (sec - window))) HA)
    as [n Ha]. rewrite filter_window_map in Ha. fold L in Ha.
  set (e2 := keep (RZset (window_map L)) (exp_of e)) in *.
  assert (Hf2 : fresh now e2) by by apply fresh_keep.
  assert (He2 : zset_of e2 = Some (window_map L)) by apply zset_of_keep.
  destruct (holds_redis _ _ _ _ _ _ Hw1 Ha Hf2) as (w2 & R2 & Hw2).
  fold sec. rewrite run_bind, R2. cbv beta iota.
  destruct (holds_redis _ _ _ _ _ _ Hw2 (act_ZCARD now e2 _ He2) Hf2) as (w3 & R3 & Hw3).
  rewrite run_bind, R3. cbv beta iota. rewrite size_window_map, Z.geb_leb, Z.leb_antisym.
  destruct (Z.of_nat (size L) <? max) eqn:Hmax; simpl negb; cbv iota.
  - pose proof (act_ZADD now e2 _ (of_int sec) (dec_of_Z sec) He2) as Ha4.
    rewrite insert_window_map in Ha4.
    set (e4 := keep (RZset (window_map ({[sec]} ∪ L))) (exp_of e2)) in *.
    assert (Hf4 : fresh now e4) by by apply fresh_keep.
    destruct (holds_redis _ _ _ _ _ _ Hw3 Ha4 Hf4) as (w4 & R4 & Hw4).
    rewrite run_bind, R4. cbv beta iota.
    assert (Ha5 : act_doc now (EXPIRE window) e4 = (admitted now L, inr 1)).
    { rewrite act_EXPIRE. subst e4. unfold keep. rewrite bool_decide_eq_false_2.
      - simpl. rewrite (proj2 (Z.leb_gt _ _)) by lia. done.
      - intros Hn. assert (window_map ({[sec]} ∪ L) !! dec_of_Z sec = Some (of_int sec)) as Hs.
        { apply lookup_window_map. exists sec. split; [set_solver|done]. }
        by rewrite Hn in Hs. }
    destruct (holds_redis _ _ _ _ _ _ Hw4 Ha5 (fresh_future _ _ (of_int window) ltac:(unfold of_int; lia))) as (w5 & R5 & Hw5).
    rewrite run_bind, R5. eauto.
  - destruct (holds_redis _ _ _ _ _ _ Hw3 (act_ZRANGE now e2 _ 0 0 He2) Hf2) as (w4 & R4 & Hw4).
    rewrite run_bind, R4. cbv beta iota. eexists _, _. rewrite run_ret. split; [done|].
    split; [done|]. by rewrite drop_0.
Qed.

(** The first entry of the sorted set is the oldest second. *)
Lemma retry_after_wait sec L : (∀ s, s ∈ L -> sec - window < s) ->
  wait_of window sec L (retry_after_of (take 1 (zsorted (window_map L))) window sec).
Proof.
  intros HL. destruct (zsorted (window_map L)) as [|[m x] l] eqn:Ez; simpl.
  - left. split; [|done]. apply set_eq. intros s. split; [|set_solver]. intros Hs.
    assert (window_map L !! dec_of_Z s = Some (of_int s)) as Hm by (apply lookup_window_map; eauto).
    apply elem_of_zsorted in Hm. rewrite Ez in Hm. by apply elem_of_nil in Hm.
  - assert (window_map L !! m = Some x) as (o & Ho & -> & ->)%lookup_window_map.
    { apply elem_of_zsorted. rewrite Ez. set_solver. }
    right. exists o. split; [done|]. split.
    + intros s Hs. assert (window_map L !! dec_of_Z s = Some (of_int s)) as Hm by (apply lookup_window_map; eauto).
      apply elem_of_zsorted in Hm. rewrite Ez in Hm. pose proof (zsorted_sorted (window_map L)) as Hsort.
      rewrite Ez in Hsort. apply StronglySorted_inv in Hsort as [_ Hall]. rewrite Forall_forall in Hall.
      apply elem_of_cons in Hm as [[= _ Hx]|Hm]; [unfold of_int in *; lia|].
      destruct (Hall _ Hm) as [Hlt|[Heq _]]; unfold of_int in *; simpl in *; lia.
    + specialize (HL o Ho). unfold of_int. replace (o * 1000 + (window - sec) * 1000) with ((o + window - sec) * 1000) by lia.
      rewrite Z.quot_mul by lia. lia.
Qed.

(** The same requests sent to the code. *)
Fixpoint serve (gaps : list Z) : M (list (bool * metadata)) :=
  match gaps with
  | [] => ret []
  | g :: gaps' =>
      do* sleep g in
      let* r := is_allowed key_prefix identifier window max in
      let* rs := serve gaps' in
      ret (r :: rs)
  end.

(** One request: the decision is the abstract one, and the key remembers the
    new log. *)
Lemma is_allowed_refines now w e P :
  0 < window -> 0 <= now -> holds now w e -> remembers window now e P ->
  let sec := Z.quot now 1000 in
  let ok := Z.of_nat (size (in_window window sec P)) <? max in
  exists w' r e',
    run (is_allowed key_prefix identifier window max) w = (w', inr r) /\
    answers window max {| d_second := sec; d_taken := in_window window sec P; d_admitted := ok |} r /\ holds now w' e' /\ remembers window now e' (if ok then {[sec]} ∪ P else P).
Proof.
  intros Hwin Hnow Hw HR sec ok. pose proof HR as [(A & HA & HAP & Hin) Hpast Hexp].
  destruct (check_window_run now w e A Hwin Hw HA) as (w' & r & Hrun & Hr).
  rewrite (remaining_in_window window now e P A HR HAP Hin) in Hr. fold sec ok in Hr.
  unfold is_allowed. rewrite run_except, Hrun. subst ok.
  set (L := in_window window sec P) in *.
  assert (HL : ∀ s, s ∈ L <-> sec - window < s /\ s ∈ P)
    by (intros s; subst L; unfold in_window; by rewrite elem_of_filter).
  assert (Hsec : 0 <= sec /\ of_int sec <= now).
  { split; [by apply Z.quot_pos|]. unfold of_int. subst sec.
    rewrite (Z.mul_comm _ 1000). by apply Z.mul_quot_le. }
  destruct (Z.of_nat (size L) <? max).
  - destruct Hr as [Hh ->]. eexists _, _, _. split; [done|].
    split; [split; [done|]; by eexists _, _, _|]. split; [exact Hh|]. split.
    + exists ({[sec]} ∪ L). split; [done|]. split; [set_solver|]. intros s. set_solver.
    + intros s [->%elem_of_singleton|Hs]%elem_of_union; [lia|by apply Hpast].
    + intros t [= <-] s [->%elem_of_singleton|Hs]%elem_of_union; unfold of_int in *; [lia|].
      specialize (Hpast s Hs). fold sec in Hpast. lia.
  - destruct Hr as [Hh ->]. eexists _, _, _. split; [done|].
    split; [split; [done|]; eexists _, _, _; split; [done|]; split; [done|]; split; [|done]|].
    { apply retry_after_wait. intros s. rewrite HL. naive_solver. }
    split; [exact Hh|]. split; [|done|].
    + exists L. split; [apply zset_of_keep|]. split; [set_solver|]. intros s. set_solver.
    + intros t Ht. apply Hexp. unfold keep in Ht. case_bool_decide; by simpl in Ht.
Qed.

Lemma serve_refines gaps : ∀ now w e P,
  0 < window -> 0 <= now -> holds now w e -> remembers window now e P ->
  exists w' rs, run (serve gaps) w = (w', inr rs) /\ Forall2 (answers window max) (window_log window max now P gaps) rs.
Proof.
  induction gaps as [|g gaps IH]; intros now w e P Hwin Hnow Hw HR; [eexists _, _; split; [done|constructor]|].
  simpl serve. rewrite run_bind. set (now' := now + Z.max 0 g).
  assert (exists w1, run (sleep g) w = (w1, inr tt) /\
    holds now' w1 (e ≫= λ x, if expired now' x then None else Some x)) as (w1 & -> & Hw1).
  { eexists. split; [done|]. destruct Hw as [H1 H2]. split; simpl.
    - destruct HE as [_ ->]. lia.
    - rewrite (live_later now) by lia. rewrite H2. by destruct e. }
  destruct (is_allowed_refines now' w1 _ P Hwin ltac:(lia) Hw1
              (remembers_later window now now' e P ltac:(lia) HR)) as (w2 & r & e2 & R2 & Hr & Hw2 & HR2).
  rewrite run_bind, R2. cbv beta iota.
  destruct (IH now' w2 e2 _ Hwin ltac:(lia) Hw2 HR2) as (w3 & rs & R3 & Hrs).
  rewrite run_bind, R3. eexists _, _. split; [done|]. by constructor.
Qed.

End Window.

(** ** Theorems *)

Section Theorems.
Context {S : Services} {E : Env}.
Context (key_prefix identifier : string) (window max : Z).

(** The first request finds no key. *)
Lemma serve_fresh (gaps : list Z) (w : world S) :
  prompt E -> 0 < window -> 0 <= w_now w ->
  ks_of w !! limit_key key_prefix identifier = None ->
  exists rs, (run (serve key_prefix identifier window max gaps) w).2 = inr rs /\
             Forall2 (answers window max) (window_log window max (w_now w) ∅ gaps) rs.
Proof.
  intros HE Hwin Hnow Hnone.
  assert (Hw : holds key_prefix identifier (w_now w) (wview w) None)
    by (split; [done|]; unfold live; simpl; unfold ks_of in Hnone; by rewrite Hnone).
  assert (HR : remembers window (w_now w) None ∅)
    by (split; [exists ∅; set_solver|set_solver|done]).
  destruct (serve_refines HE key_prefix identifier window max gaps _ _ _ _ Hwin Hnow Hw HR)
    as (w' & rs & Hrun & Hrs).
  rewrite run_view in Hrun. exists rs. split; [congruence|done].
Qed.

(** C12: for requests on one identifier, sent one after the other with any gaps
    between them, the code answers as the abstract sliding-window log does: a
    request is admitted exactly when fewer than [max] distinct seconds of the
    last window hold an admitted request, although the Redis set is pruned and
    expires; an admitted request is told how many seconds are left after it and the
    end of the window that starts with its own, a refused one that none is left and
    how long it takes the oldest admitted second to leave the window; and no window
    ever holds admitted requests of more than [max] distinct seconds.  The first
    request finds no key, no call fails and calls take no time. *)
Theorem rate_limiter_refines (gaps : list Z) (w : world S) :
  prompt E -> 0 < window -> 0 <= max -> 0 <= w_now w ->
  ks_of w !! limit_key key_prefix identifier = None ->
  let decisions := window_log window max (w_now w) ∅ gaps in
  (exists rs, (run (serve key_prefix identifier window max gaps) w).2 = inr rs /\
              Forall2 (answers window max) decisions rs) /\
  ∀ t, Z.of_nat (size (within window t (admitted_seconds decisions))) <= max.
Proof.
  intros HE Hwin Hmax Hnow Hnone decisions. split.
  - by apply serve_fresh.
  - intros t. pose proof (window_log_bound window max gaps (w_now w) ∅ Hmax Hnow
      ltac:(set_solver)) as Hb.
    rewrite union_empty_r_L in Hb. apply Hb. intros u.
    assert (within window u ∅ = ∅) as -> by (unfold within; set_solver). rewrite size_empty. lia.
Qed.

(** With more admissions than seconds per window, as in the defaults (100 per 60
    seconds), no request is ever refused: requests of one second share one
    member of the set. *)
Theorem wide_limit_never_rejects (gaps : list Z) (w : world S) :
  prompt E -> 0 < window < max -> 0 <= w_now w ->
  ks_of w !! limit_key key_prefix identifier = None ->
  exists rs, (run (serve key_prefix identifier window max gaps) w).2 = inr rs /\
             length rs = length gaps /\ Forall (λ r, r.1 = true) rs.
Proof.
  intros HE Hwm Hnow Hnone.
  destruct (serve_fresh gaps w HE (proj1 Hwm) Hnow Hnone) as (rs & Hrun & Hrs).
  exists rs. split; [done|].
  pose proof (window_log_admits window max gaps (w_now w) ∅ Hwm Hnow ltac:(set_solver)) as Ha.
  split.
  - by rewrite <-(Forall2_length _ _ _ Hrs), length_window_log.
  - clear Hrun. revert Ha. induction Hrs as [|d r ds rs' [Hr _] _ IH]; intros Ha; [constructor|].
    inversion Ha; subst. constructor; [congruence|by apply IH].
Qed.
End Theorems.

(** ** The middleware *)

Section Middleware.
Context {S : Services} {E : Env} (mw : RateLimitMiddleware) (call_next : request -> M response).

(** An exempt path reaches the application without a look at Redis. *)
Lemma dispatch_exempt r : rq_path r ∈ exempt_paths mw -> dispatch mw call_next r = call_next r.
Proof. intros H. unfold dispatch. by rewrite bool_decide_eq_true_2. Qed.

(** When the limiter fails open, the application runs and its answer is lost:
    the headers are read from metadata that does not hold them. *)
Lemma fail_open_loses_answer r e (w : world S) :
  rq_path r ∉ exempt_paths mw ->
  redis_fault (Datatypes.S (w_tick w)) = Some e -> is_exception e = true ->
  exists w1, run (is_allowed "ratelimit" (identifier_of r) (default_window mw) (default_limit mw)) w =
               (w1, inr (true, fail_open_meta e)) /\
  run (dispatch mw call_next r) w =
  match run (call_next r) w1 with
  | (w2, inr _) => (w2, inl (Exn KeyError "limit"))
  | (w2, inl x) => (w2, inl x)
  end.
Proof.
  intros Hp Hf He.
  assert (exists w1, run (is_allowed "ratelimit" (identifier_of r) (default_window mw)
    (default_limit mw)) w = (w1, inr (true, fail_open_meta e))) as [w1 Hr].
  { unfold is_allowed, check_window. rewrite run_except, run_bind. Transparent time_ms redis.
    simpl. rewrite Hf. simpl. rewrite He. by eexists. Opaque time_ms redis. }
  exists w1. split; [done|]. unfold dispatch. rewrite bool_decide_eq_false_2 by done.
  rewrite run_bind, Hr. simpl. rewrite run_bind.
  by destruct (run (call_next r) w1) as [w2 [x|resp]].
Qed.
End Middleware.

Lemma rate_limiter_refines_witness :
  (run (S := doc_services) (E := calm)
     (serve "ratelimit" "anonymous:GET:_api" 10 2 [0; 1000; 1000; 9000]) (world0 5000)).2 =
  inr [(true, allowed_meta 2 0 5 10); (true, allowed_meta 2 1 6 10);
       (false, rejected_meta 2 7 8); (true, allowed_meta 2 0 16 10)] /\
  ∀ t, Z.of_nat (size (within 10 t (admitted_seconds (window_log 10 2 5000 ∅ [0; 1000; 1000; 9000])))) <= 2.
Proof.
  split; [vm_compute; reflexivity|].
  apply (rate_limiter_refines (S := doc_services) (E := calm) "ratelimit" "anonymous:GET:_api" 10 2
    [0; 1000; 1000; 9000] (world0 5000)); done.
Defined.
