(* ===== verification/Cjson.v ===== *)
(** * JSON inside Redis scripts

    Several scripts read a JSON text, change fields and write it back with the
    [cjson] library of Redis.  The library is a parameter: class [Cjson] states
    what the scripts rely on and what its manual documents.  A table made from a
    JSON object has the object's fields; texts, booleans, nulls and integers of at
    most fourteen digits survive; a Lua table does not tell an empty array from
    an empty object, and an empty table is written as an object. *)

From stdpp Require Import base gmap strings list.
From S2P Require Import Prelude PyValue Json Redis.

Open Scope Z_scope.

(** Values a round trip through a Lua table keeps. *)
Definition plain (v : value) : bool :=
  match v with
  | VNone | VBool _ | VStr _ => true
  | VInt z => (-100000000000000 <? z) && (z <? 100000000000000)
  | _ => false
  end.

(** [d] has the fields of [t], plain values and empty objects unchanged. *)
Definition same_fields (t d : list (string * value)) : Prop :=
  ∀ k, (dict_get k t = None <-> dict_get k d = None) /\
       (∀ v, plain v = true -> dict_get k t = Some v -> dict_get k d = Some v) /\
       (dict_get k t = Some (VDict []) -> dict_get k d = Some (VDict [])).

Class Cjson := {
  cjson_decode : string -> option (list (string * value));
  cjson_encode : list (string * value) -> string;
  cjson_decode_ok : ∀ s d, json_loads s = Some (VDict d) ->
    exists t, cjson_decode s = Some t /\ same_fields d t;
  cjson_decode_empty : ∀ s d t k, json_loads s = Some (VDict d) -> cjson_decode s = Some t ->
    dict_get k d = Some (VList []) -> dict_get k t = Some (VDict []);
  cjson_encode_ok : ∀ t, exists d, json_loads (cjson_encode t) = Some (VDict d) /\ same_fields t d
}.

(** [cjson.decode(raw)], which raises on a text that is not a JSON object. *)
Definition lua_decode `{Cjson} (raw : string) : lua (list (string * value)) :=
  match cjson_decode raw with
  | Some t => LRet t
  | None => LFail (Exn ResponseError "ERR user_script: Expected value but found invalid token")
  end.

Lemma same_fields_trans a b c : same_fields a b -> same_fields b c -> same_fields a c.
Proof.
  intros H1 H2 k. destruct (H1 k) as (A1 & A2 & A3), (H2 k) as (B1 & B2 & B3).
  split_and!; [by rewrite A1|auto..].
Qed.

(** Setting a plain field on both sides. *)
Lemma same_fields_set a b k v :
  plain v = true -> same_fields a b -> same_fields (dict_set k v a) (dict_set k v b).
Proof.
  intros Hv H k'. specialize (H k'). rewrite !dict_get_set. case_decide; [|done].
  split_and!; done.
Qed.

Section Edit.
Context `{Cjson}.

(** What a script that sets one plain field leaves: an object with the same
    plain fields, that field apart. *)
Lemma edit_field s d k v :
  json_loads s = Some (VDict d) -> plain v = true ->
  exists t d', cjson_decode s = Some t /\
    json_loads (cjson_encode (dict_set k v t)) = Some (VDict d') /\
    same_fields (dict_set k v d) d'.
Proof.
  intros Hs Hv. destruct (cjson_decode_ok s d Hs) as (t & Ht & Hsame).
  destruct (cjson_encode_ok (dict_set k v t)) as (d' & Hd & Hsame').
  exists t, d'. split_and!; [done..|].
  eapply same_fields_trans; [|done]. by apply same_fields_set.
Qed.

(** An empty array becomes an empty object when the text is written back. *)
Lemma edit_empty s d t k k' v :
  json_loads s = Some (VDict d) -> cjson_decode s = Some t ->
  k' <> k -> dict_get k' d = Some (VList []) ->
  exists d', json_loads (cjson_encode (dict_set k v t)) = Some (VDict d') /\
    dict_get k' d' = Some (VDict []).
Proof.
  intros Hs Ht Hne He. destruct (cjson_encode_ok (dict_set k v t)) as (d' & Hd & Hsame').
  exists d'. split; [done|]. apply Hsame'. rewrite dict_get_set_ne by done.
  by apply (cjson_decode_empty s d t).
Qed.
End Edit.

(** ** A concrete instance *)

Fixpoint lua_value (v : value) : value :=
  match v with
  | VList [] => VDict []
  | VList l => VList (lua_value <$> l)
  | VDict d => VDict ((λ kv, (kv.1, lua_value kv.2)) <$> d)
  | _ => v
  end.

Definition lua_table (d : list (string * value)) : list (string * value) :=
  (λ kv, (kv.1, lua_value kv.2)) <$> d.

Lemma dict_get_lua_table k d : dict_get k (lua_table d) = lua_value <$> dict_get k d.
Proof.
  induction d as [|[k' v] d IH]; [done|].
  change (lua_table ((k', v) :: d)) with ((k', lua_value v) :: lua_table d).
  cbn [dict_get]. rewrite IH. destruct (dict_get k d); [done|]. simpl. by case_decide.
Qed.

Lemma same_fields_lua_table d : same_fields d (lua_table d).
Proof.
  intros k. rewrite dict_get_lua_table. split_and!.
  - by destruct (dict_get k d).
  - intros v Hv ->. by destruct v.
  - by intros ->.
Qed.

#[refine] Definition table_cjson : Cjson := {|
  cjson_decode := λ s, match json_loads s with Some (VDict d) => Some (lua_table d) | _ => None end;
  cjson_encode := λ t, orjson_dumps (VDict t)
|}.
Proof.
  - intros s d ->. eexists. split; [done|]. apply same_fields_lua_table.
  - intros s d t k -> [= <-] Hk. by rewrite dict_get_lua_table, Hk.
  - intros t. exists t. split; [apply loads_orjson_dumps|]. by intros k.
Defined.
