(* ===== verification/Registry.v ===== *)
(** * Base registry

    [src/platform/base_registry.py]: the Redis registry the tenant, schedule,
    capability, cluster and node registries inherit.  An item is a JSON text
    under [prefix:tenant:item], indexed by a set per tenant and a set of tenants.
    The theorem is a refinement: any sequence of operations answers as a finite
    map from (tenant, item) to values does. *)

From Stdlib Require Import Ascii.
From stdpp Require Import base gmap strings list.
From S2P Require Import Prelude PyValue Json Redis TaskModel Tables Effects ErrorHandling.

Open Scope Z_scope.

Record BaseRedisRegistry := {
  reg_prefix : string;
  reg_ttl : Z
}.

Definition BaseRedisRegistry_init (key_prefix : string) (ttl_seconds : Z) : BaseRedisRegistry :=
  {| reg_prefix := rstrip_colon key_prefix; reg_ttl := ttl_seconds |}.

Section Methods.
Context (reg : BaseRedisRegistry).

Definition make_key (tenant_id item_id : string) : string :=
  reg_prefix reg +:+ ":" +:+ tenant_id +:+ ":" +:+ item_id.

Definition index_key (tenant_id : string) : string :=
  reg_prefix reg +:+ ":index:" +:+ tenant_id.

Definition tenants_key : string := reg_prefix reg +:+ ":tenants".

(** [_json_loads] inside [get]: an empty or undecodable text is [None]. *)
Definition decode_item (data : option string) : value :=
  match data with
  | None | Some "" => VNone
  | Some raw => default VNone (json_loads raw)
  end.

Definition reg_get (tenant_id item_id : string) : M value :=
  log_errors_none VNone
    (let* data := redis (make_key tenant_id item_id) GET in ret (decode_item data)).

Definition reg_set (tenant_id item_id : string) (v : value) : M bool :=
  log_errors_as ExternalServiceError
    (do* redis (make_key tenant_id item_id)
           (SET (orjson_dumps v) (if reg_ttl reg >? 0 then Some (reg_ttl reg * 1000) else None)
                false) in
     do* redis (index_key tenant_id) (SADD [item_id]) in
     do* redis tenants_key (SADD [tenant_id]) in
     ret true).

(** [None] when a call fails *)
Definition reg_delete (tenant_id item_id : string) : M (option bool) :=
  log_errors_none None
    (let* removed := redis (make_key tenant_id item_id) DEL in
     if removed =? 0 then ret (Some false)
     else
       do* redis (index_key tenant_id) (SREM item_id) in
       ret (Some true)).

Definition reg_list (tenant_id : string) : M (option (list string)) :=
  log_errors_none None
    (let* members := redis (index_key tenant_id) SMEMBERS in ret (Some (elements members))).

Definition list_all_tenants : M (option (list string)) :=
  log_errors_none None
    (let* members := redis tenants_key SMEMBERS in ret (Some (elements members))).

(** ** Operations and the abstract registry *)

Inductive reg_op :=
| OSet (t i : string) (v : value)
| ODelete (t i : string)
| OGet (t i : string)
| OList (t : string)
| OTenants.

Inductive reg_reply :=
| RpBool (b : bool)
| RpOptBool (b : option bool)
| RpValue (v : value)
| RpNames (l : option (list string)).

Definition exec_op (o : reg_op) : M reg_reply :=
  match o with
  | OSet t i v => let* b := reg_set t i v in ret (RpBool b)
  | ODelete t i => let* b := reg_delete t i in ret (RpOptBool b)
  | OGet t i => let* v := reg_get t i in ret (RpValue v)
  | OList t => let* l := reg_list t in ret (RpNames l)
  | OTenants => let* l := list_all_tenants in ret (RpNames l)
  end.

Fixpoint exec_ops (os : list reg_op) : M (list reg_reply) :=
  match os with
  | [] => ret []
  | o :: os' => let* r := exec_op o in let* rs := exec_ops os' in ret (r :: rs)
  end.
End Methods.

(** The items of each tenant, and every tenant that ever had one. *)
Record registry := {
  items_of : string -> gmap string value;
  tenants_of : gset string
}.

Definition empty_registry : registry := {| items_of := λ _, ∅; tenants_of := ∅ |}.

Definition with_items (t : string) (m : gmap string value) (a : registry) : registry :=
  {| items_of := λ t', if decide (t' = t) then m else items_of a t'; tenants_of := tenants_of a |}.

Definition abs_op (o : reg_op) (a : registry) : registry * reg_reply :=
  match o with
  | OSet t i v =>
      let a' := with_items t (<[i := v]> (items_of a t)) a in
      ({| items_of := items_of a'; tenants_of := {[t]} ∪ tenants_of a |}, RpBool true)
  | ODelete t i =>
      (with_items t (delete i (items_of a t)) a,
       RpOptBool (Some (bool_decide (is_Some (items_of a t !! i)))))
  | OGet t i => (a, RpValue (default VNone (items_of a t !! i)))
  | OList t => (a, RpNames (Some (elements (dom (items_of a t)))))
  | OTenants => (a, RpNames (Some (elements (tenants_of a))))
  end.

Fixpoint abs_ops (os : list reg_op) (a : registry) : list reg_reply :=
  match os with
  | [] => []
  | o :: os' => let '(a', r) := abs_op o a in r :: abs_ops os' a'
  end.

(** Tenant names the key layout keeps apart: no colon, and not [index]. *)
Definition tenant_ok (t : string) : bool :=
  no_char ":"%char t && negb (bool_decide (t = "index")).

Definition op_ok (o : reg_op) : bool :=
  match o with
  | OSet t _ _ | ODelete t _ | OGet t _ | OList t => tenant_ok t
  | OTenants => true
  end.

(** ** Keys *)

Section Keys.
Context (reg : BaseRedisRegistry).
Implicit Types (t i : string).

Lemma tenant_ok_spec t : tenant_ok t = true -> no_char ":"%char t /\ t <> "index".
Proof.
  unfold tenant_ok. intros [H1 H2]%andb_prop. split; [by apply Is_true_true|].
  by apply negb_true_iff, bool_decide_eq_false in H2.
Qed.

Lemma make_key_inj t i t' i' :
  tenant_ok t = true -> tenant_ok t' = true ->
  make_key reg t i = make_key reg t' i' -> t = t' /\ i = i'.
Proof.
  intros [H _]%tenant_ok_spec [H' _]%tenant_ok_spec. unfold make_key.
  intros E%string_app_inj_l%string_app_inj_l. by apply (split_at_char ":"%char) in E.
Qed.

Lemma make_index_ne t i t' : tenant_ok t = true -> make_key reg t i <> index_key reg t'.
Proof.
  intros [H Hn]%tenant_ok_spec. unfold make_key, index_key.
  change (":index:" +:+ t') with (":" +:+ ("index" +:+ String ":"%char t')).
  intros E%string_app_inj_l%string_app_inj_l.
  apply (split_at_char ":"%char t "index") in E as [E _]; [by apply Hn|done|done].
Qed.

Lemma no_colon_ne t i s : no_char ":"%char s -> t +:+ String ":"%char i <> s.
Proof.
  revert s. induction t as [|c t IH]; intros [|d s] Hs; simpl; try done.
  - intros [= <- _]. by unfold no_char in Hs.
  - intros [= <- E]. unfold no_char in Hs; simpl in Hs. apply andb_True in Hs as [_ Hs].
    by apply (IH s).
Qed.

Lemma make_tenants_ne t i : make_key reg t i <> tenants_key reg.
Proof.
  unfold make_key, tenants_key. change ":tenants" with (":" +:+ "tenants").
  intros E%string_app_inj_l%string_app_inj_l. by apply no_colon_ne in E.
Qed.

Lemma index_key_inj t t' : index_key reg t = index_key reg t' -> t = t'.
Proof. unfold index_key. by intros E%string_app_inj_l%string_app_inj_l. Qed.

Lemma index_tenants_ne t : index_key reg t <> tenants_key reg.
Proof. unfold index_key, tenants_key. intros E%string_app_inj_l. done. Qed.
End Keys.

#[export] Hint Resolve make_index_ne make_tenants_ne index_tenants_ne : sched.

(** ** Keys without expiry in a quiet environment *)

Definition at_key (ks : keyspace) (k : string) : option rentry := ks !! k.

Definition persistent (e : option rentry) : Prop := exp_of e = None.

Lemma live_persistent now ks k e : at_key ks k = e -> persistent e -> live now ks k = e.
Proof.
  unfold persistent, live, at_key. intros ->. destruct e as [[v x]|]; [|done]. simpl. by intros ->.
Qed.

Lemma exp_of_keep v x : exp_of (keep v x) = None \/ exp_of (keep v x) = x.
Proof. unfold keep. match goal with |- context [if ?b then _ else _] => destruct b end; auto. Qed.

Lemma persistent_keep v : persistent (keep v None).
Proof. unfold persistent. by destruct (exp_of_keep v None). Qed.

#[export] Hint Resolve persistent_keep : sched.

Lemma at_put_eq k e ks : at_key (put k e ks) k = e.
Proof. apply lookup_put_eq. Qed.

Lemma at_put_ne k k' e ks : k <> k' -> at_key (put k e ks) k' = at_key ks k'.
Proof. apply lookup_put_ne. Qed.

Lemma at_put_same k k' e ks : at_key ks k = e -> at_key (put k e ks) k' = at_key ks k'.
Proof.
  intros <-. destruct (decide (k = k')) as [<-|]; [apply at_put_eq|by apply at_put_ne].
Qed.

Lemma add_one (x : string) (m : gset string) : m ∪ ({[x]} ∪ ∅) = {[x]} ∪ m.
Proof. set_solver. Qed.

(** The first command of a pipeline, on a key without expiry. *)
Lemma pipe_step now {X} k (a : act X) cs ks e e' r :
  at_key ks k = e -> persistent e -> act_doc now a e = (e', r) ->
  pipe_run now ((k, a) :: cs) ks =
  let '(ks', rs) := pipe_run now cs (put k e' ks) in (ks', r :: rs).
Proof. intros He Hp Ha. simpl. by rewrite (live_persistent _ _ _ e), Ha by done. Qed.

Section Quiet.
Context {E : Env} (HE : quiet E).
Implicit Types (w : world doc_services).

(** A command on a key without expiry. *)
Lemma run_persistent {X} k (a : act X) w e e' r :
  at_key (w_redis w) k = e -> persistent e -> act_doc (w_now w) a e = (e', r) ->
  run (redis k a) w = (after (put k e' (w_redis w)) (w_db w) w, r).
Proof.
  intros He Hp Ha. rewrite run_redis. destruct HE as [-> _].
  by rewrite (live_persistent _ _ _ e), Ha by done.
Qed.

Lemma run_pipeline {X} (cs : list (string * act X)) w :
  run (script (pipeline cs)) w =
  let '(ks, rs) := pipe_run (w_now w) cs (w_redis w) in (after ks (w_db w) w, first_error rs).
Proof.
  rewrite run_script. destruct HE as [-> _]. rewrite lua_run_pipeline.
  by destruct (pipe_run _ _ _).
Qed.

(** Members added to, removed from and read from a set without expiry. *)
Lemma run_SADD k ms m w :
  at_key (w_redis w) k = keep (RSet m) None ->
  exists n, run (redis k (SADD ms)) w =
    (after (put k (keep (RSet (m ∪ list_to_set ms)) None) (w_redis w)) (w_db w) w, inr n).
Proof.
  intros H. destruct (act_SADD (w_now w) (keep (RSet m) None) m ms (set_of_keep _ _)) as [n Ha].
  exists n. rewrite persistent_keep in Ha. by apply (run_persistent _ _ _ _ _ _ H (persistent_keep _)).
Qed.

Lemma run_SREM k x m w :
  at_key (w_redis w) k = keep (RSet m) None ->
  exists n, run (redis k (SREM x)) w =
    (after (put k (keep (RSet (m ∖ {[x]})) None) (w_redis w)) (w_db w) w, inr n).
Proof.
  intros H. pose proof (act_SREM (w_now w) (keep (RSet m) None) m x (set_of_keep _ _)) as Ha.
  eexists. rewrite persistent_keep in Ha. by apply (run_persistent _ _ _ _ _ _ H (persistent_keep _)).
Qed.

Lemma run_SMEMBERS k m w :
  at_key (w_redis w) k = keep (RSet m) None ->
  run (redis k SMEMBERS) w =
    (after (put k (keep (RSet m) None) (w_redis w)) (w_db w) w, inr m).
Proof.
  intros H. apply (run_persistent _ _ _ _ _ _ H (persistent_keep _)).
  apply act_SMEMBERS, set_of_keep.
Qed.

(** Reading an item that holds a JSON text. *)
Lemma run_reg_get reg t i text w :
  at_key (w_redis w) (make_key reg t i) = Some (REntry (RStr text) None) ->
  run (reg_get reg t i) w =
    (after (put (make_key reg t i) (Some (REntry (RStr text) None)) (w_redis w)) (w_db w) w,
     inr (default VNone (json_loads text))).
Proof.
  intros Hk. apply run_log_errors_none_ok.
  rewrite run_bind, (run_persistent _ _ _ _ _ _ Hk eq_refl (act_GET_str _ _ _)). cbv beta iota.
  rewrite run_ret. by destruct text.
Qed.

Lemma run_reg_get_none reg t i w :
  at_key (w_redis w) (make_key reg t i) = None ->
  run (reg_get reg t i) w =
    (after (put (make_key reg t i) None (w_redis w)) (w_db w) w, inr VNone).
Proof.
  intros Hk. apply run_log_errors_none_ok.
  by rewrite run_bind, (run_persistent _ _ _ _ _ _ Hk eq_refl (act_GET_none _)).
Qed.
End Quiet.

(** ** Refinement *)

Section Refinement.
Context {E : Env} (HE : quiet E) (reg : BaseRedisRegistry) (Httl : reg_ttl reg <= 0).
Implicit Types (w : world doc_services) (a : registry).

Definition item_entry (v : value) : rentry := REntry (RStr (orjson_dumps v)) None.

(** What the keyspace holds for the abstract registry [a]. *)
Record represents (ks : keyspace) (a : registry) : Prop := {
  rep_items : ∀ t i, tenant_ok t = true ->
    at_key ks (make_key reg t i) = item_entry <$> items_of a t !! i;
  rep_index : ∀ t, tenant_ok t = true ->
    at_key ks (index_key reg t) = keep (RSet (dom (items_of a t))) None;
  rep_tenants : at_key ks (tenants_key reg) = keep (RSet (tenants_of a)) None
}.

Lemma represents_ext ks ks' a : (∀ k, at_key ks' k = at_key ks k) ->
  represents ks a -> represents ks' a.
Proof. intros H [H1 H2 H3]. split; intros; rewrite H; auto. Qed.

(** A read of any key keeps what the keyspace represents. *)
Lemma represents_read k ks a : represents ks a -> represents (put k (at_key ks k) ks) a.
Proof. apply represents_ext. intros k'. by apply at_put_same. Qed.

Lemma decode_dumps v : decode_item (Some (orjson_dumps v)) = v.
Proof.
  pose proof (dumps_nonempty "," ":" v) as Hn. change (orjson_dumps v <> "") in Hn.
  unfold decode_item. pose proof (loads_orjson_dumps v) as Hl.
  destruct (orjson_dumps v); [done|]. by rewrite Hl.
Qed.

Lemma decode_stored o : decode_item (orjson_dumps <$> o) = default VNone o.
Proof. destruct o as [v|]; [apply decode_dumps|done]. Qed.

Lemma get_represents w a t i :
  represents (w_redis w) a -> tenant_ok t = true ->
  exists w', run (reg_get reg t i) w = (w', inr (default VNone (items_of a t !! i))) /\
             represents (w_redis w') a.
Proof.
  intros HR Ht. pose proof (rep_items _ _ HR t i Ht) as Hk.
  set (o := items_of a t !! i) in *.
  assert (Hp : persistent (item_entry <$> o)) by by destruct o.
  assert (Ha : act_doc (w_now w) GET (item_entry <$> o) =
               (item_entry <$> o, inr (orjson_dumps <$> o))).
  { destruct o; simpl; [apply act_GET_str|apply act_GET_none]. }
  pose proof (run_persistent HE _ _ _ _ _ _ Hk Hp Ha) as Hrun.
  eexists. split.
  - apply run_log_errors_none_ok. rewrite run_bind, Hrun. cbv beta iota.
    by rewrite run_ret, decode_stored.
  - simpl. rewrite <-Hk. by apply represents_read.
Qed.

Lemma list_represents w a t :
  represents (w_redis w) a -> tenant_ok t = true ->
  exists w', run (reg_list reg t) w = (w', inr (Some (elements (dom (items_of a t))))) /\
             represents (w_redis w') a.
Proof.
  intros HR Ht. pose proof (rep_index _ _ HR t Ht) as Hk. eexists. split.
  - apply run_log_errors_none_ok. by rewrite run_bind, (run_SMEMBERS HE _ _ _ Hk).
  - simpl. rewrite <-Hk. by apply represents_read.
Qed.

Lemma tenants_represents w a :
  represents (w_redis w) a ->
  exists w', run (list_all_tenants reg) w = (w', inr (Some (elements (tenants_of a)))) /\
             represents (w_redis w') a.
Proof.
  intros HR. pose proof (rep_tenants _ _ HR) as Hk. eexists. split.
  - apply run_log_errors_none_ok. by rewrite run_bind, (run_SMEMBERS HE _ _ _ Hk).
  - simpl. rewrite <-Hk. by apply represents_read.
Qed.

Lemma set_represents w a t i v :
  represents (w_redis w) a -> tenant_ok t = true ->
  exists w', run (reg_set reg t i v) w = (w', inr true) /\
             represents (w_redis w') (abs_op (OSet t i v) a).1.
Proof.
  intros HR Ht.
  assert (H1 : run (redis (make_key reg t i)
             (SET (orjson_dumps v) (if reg_ttl reg >? 0 then Some (reg_ttl reg * 1000) else None)
                false)) w =
          (after (put (make_key reg t i) (Some (item_entry v)) (w_redis w)) (w_db w) w, inr true)).
  { rewrite run_redis. destruct HE as [-> _]. rewrite act_SET.
    by destruct (reg_ttl reg >? 0) eqn:Ez; bool_to_prop; [lia|]. }
  set (w1 := after _ _ w) in H1.
  assert (Hi : at_key (w_redis w1) (index_key reg t) = keep (RSet (dom (items_of a t))) None).
  { simpl. rewrite at_put_ne by auto with sched. by apply (rep_index _ _ HR). }
  destruct (run_SADD HE _ [i] _ _ Hi) as [n H2]. set (w2 := after _ _ w1) in H2.
  assert (Hs : at_key (w_redis w2) (tenants_key reg) = keep (RSet (tenants_of a)) None).
  { simpl. rewrite !at_put_ne by auto with sched. by apply (rep_tenants _ _ HR). }
  destruct (run_SADD HE _ [t] _ _ Hs) as [m H3].
  eexists. split.
  { apply run_log_errors_as_ok. rewrite run_bind, H1. cbv beta iota.
    rewrite run_bind, H2. cbv beta iota. by rewrite run_bind, H3. }
  simpl. split.
  - intros t' i' Ht'. rewrite at_put_ne by (apply not_eq_sym; auto with sched).
    rewrite at_put_ne by (apply not_eq_sym; auto with sched). simpl.
    destruct (decide (t' = t)) as [->|Hne].
    + destruct (decide (i' = i)) as [->|Hni].
      * rewrite at_put_eq, lookup_insert_eq. done.
      * rewrite at_put_ne, lookup_insert_ne by (done || by intros [_ ?]%make_key_inj).
        by apply (rep_items _ _ HR).
    + rewrite at_put_ne by (by intros [? _]%make_key_inj). by apply (rep_items _ _ HR).
  - intros t' Ht'. rewrite at_put_ne by (apply not_eq_sym; auto with sched). simpl.
    destruct (decide (t' = t)) as [->|Hne].
    + rewrite at_put_eq, dom_insert_L, add_one. done.
    + rewrite at_put_ne by by intros ?%index_key_inj. rewrite at_put_ne by auto with sched.
      by apply (rep_index _ _ HR).
  - by rewrite at_put_eq, add_one.
Qed.

Lemma delete_represents w a t i :
  represents (w_redis w) a -> tenant_ok t = true ->
  exists w', run (reg_delete reg t i) w = (w', inr (Some (bool_decide (is_Some (items_of a t !! i))))) /\
             represents (w_redis w') (abs_op (ODelete t i) a).1.
Proof.
  intros HR Ht. pose proof (rep_items _ _ HR t i Ht) as Hk.
  assert (Hp : persistent (item_entry <$> items_of a t !! i)) by by destruct (items_of a t !! i).
  pose proof (run_persistent HE _ _ _ _ _ _ Hk Hp (act_DEL _ _)) as H1.
  set (w1 := after _ _ w) in H1.
  destruct (items_of a t !! i) as [v|] eqn:Ei.
  - assert (Hi : at_key (w_redis w1) (index_key reg t) = keep (RSet (dom (items_of a t))) None).
    { simpl. rewrite at_put_ne by auto with sched. by apply (rep_index _ _ HR). }
    destruct (run_SREM HE _ i _ _ Hi) as [n H2].
    eexists. split.
    { apply run_log_errors_none_ok. rewrite run_bind, H1. simpl. by rewrite run_bind, H2. }
    simpl. split; [| |].
    + intros t' i' Ht'. rewrite at_put_ne by (apply not_eq_sym; auto with sched). simpl.
      destruct (decide (t' = t)) as [->|Hne].
      * destruct (decide (i' = i)) as [->|Hni].
        { by rewrite at_put_eq, lookup_delete_eq. }
        rewrite at_put_ne, lookup_delete_ne by (done || by intros [_ ?]%make_key_inj).
        by apply (rep_items _ _ HR).
      * rewrite at_put_ne by (by intros [? _]%make_key_inj). by apply (rep_items _ _ HR).
    + intros t' Ht'. simpl. destruct (decide (t' = t)) as [->|Hne].
      * rewrite at_put_eq, dom_delete_L. done.
      * rewrite at_put_ne by by intros ?%index_key_inj. rewrite at_put_ne by auto with sched.
        by apply (rep_index _ _ HR).
    + rewrite !at_put_ne by auto with sched. by apply (rep_tenants _ _ HR).
  - eexists. split.
    { apply run_log_errors_none_ok. by rewrite run_bind, H1. }
    simpl. apply (represents_ext (w_redis w)).
    { intros k. rewrite at_put_same; [done|]. by rewrite Hk. }
    destruct HR as [Hx Hy Hz]. split; simpl.
    + intros t' i' Ht'. destruct (decide (t' = t)) as [->|]; [|by apply Hx].
      rewrite delete_id by done. by apply Hx.
    + intros t' Ht'. destruct (decide (t' = t)) as [->|]; [|by apply Hy].
      rewrite delete_id by done. by apply Hy.
    + done.
Qed.
End Refinement.

Section Theorems.
Context {E : Env} (HE : quiet E) (reg : BaseRedisRegistry) (Httl : reg_ttl reg <= 0).

Lemma op_represents o (w : world doc_services) a :
  represents reg (w_redis w) a -> op_ok o = true ->
  exists w', run (exec_op reg o) w = (w', inr (abs_op o a).2) /\
             represents reg (w_redis w') (abs_op o a).1.
Proof.
  intros HR Hok. destruct o as [t i v|t i|t i|t|]; simpl in Hok; unfold exec_op.
  - destruct (set_represents HE reg Httl w a t i v HR Hok) as (w' & H & HR').
    exists w'. by rewrite run_bind, H.
  - destruct (delete_represents HE reg w a t i HR Hok) as (w' & H & HR').
    exists w'. by rewrite run_bind, H.
  - destruct (get_represents HE reg w a t i HR Hok) as (w' & H & HR').
    exists w'. by rewrite run_bind, H.
  - destruct (list_represents HE reg w a t HR Hok) as (w' & H & HR').
    exists w'. by rewrite run_bind, H.
  - destruct (tenants_represents HE reg w a HR) as (w' & H & HR').
    exists w'. by rewrite run_bind, H.
Qed.

Lemma ops_represent os : ∀ (w : world doc_services) a,
  represents reg (w_redis w) a -> forallb op_ok os = true ->
  (run (exec_ops reg os) w).2 = inr (abs_ops os a).
Proof.
  induction os as [|o os IH]; intros w a HR Hok; [done|].
  simpl in Hok. apply andb_prop in Hok as [Ho Hos].
  destruct (op_represents o w a HR Ho) as (w' & H & HR').
  simpl exec_ops. rewrite run_bind, H. cbv beta iota. simpl abs_ops.
  destruct (abs_op o a) as [a' r]. rewrite run_bind. specialize (IH w' a' HR' Hos).
  destruct (run (exec_ops reg os) w') as [w2 x]; simpl in *. by subst.
Qed.
End Theorems.

(** C13: a registry without expiry answers any sequence of set, delete, get and
    list operations as a finite map from (tenant, item) to values does, over any
    Redis server and any timing, when no call fails and no tenant is called
    [index] or has a colon in its name: what is set is read back and listed
    until it is deleted, and no tenant sees another tenant's items. *)
Theorem registry_refines_map (S : Services) (E : Env) reg os (w : world S) :
  quiet E -> reg_ttl reg <= 0 -> ks_of w = ∅ -> forallb op_ok os = true ->
  (run (exec_ops reg os) w).2 = inr (abs_ops os empty_registry).
Proof.
  intros HE Httl Hks Hok.
  pose proof (ops_represent HE reg Httl os (wview w) empty_registry) as H.
  rewrite run_view in H. apply H; [|done]. unfold ks_of in Hks. simpl. rewrite Hks.
  split; intros; simpl; rewrite ?dom_empty_L; done.
Qed.

Lemma registry_refines_map_witness :
  let os := [OSet "t1" "a:b" (VInt 1); OSet "t2" "a" (VStr "x"); OGet "t1" "a:b"; ODelete "t1" "a:b";
             OGet "t1" "a:b"; OList "t2"; OList "t1"; ODelete "t1" "zz"] in
  (run (S := doc_services) (E := calm) (exec_ops (BaseRedisRegistry_init "node:" 0) os) (world0 0)).2 =
    inr (abs_ops os empty_registry) /\
  abs_ops os empty_registry =
    [RpBool true; RpBool true; RpValue (VInt 1); RpOptBool (Some true); RpValue VNone;
     RpNames (Some ["a"]); RpNames (Some []); RpOptBool (Some false)].
Proof.
  intros os. split; [|vm_compute; reflexivity].
  apply (registry_refines_map doc_services calm); [apply calm_quiet|done|done|done].
Defined.

(** Without the side condition the keys collide: a tenant called [index] stores
    its items where the item sets are, and an item of the tenant [a:b] is an item
    of the tenant [a]. *)
Example index_tenant_collides reg :
  make_key reg "index" "t1" = index_key reg "t1" /\
  make_key reg "a:b" "c" = make_key reg "a" "b:c".
Proof. by split. Qed.
