(* ===== verification/PySort.v ===== *)
(** * Sorting by a key, largest first

    Python's [l.sort(key=..., reverse=True)]: a stable sort, so elements of equal
    key keep their order.  [ge x y] compares the keys. *)

From stdpp Require Import base list sorting.
From S2P Require Import Prelude.

Open Scope Z_scope.

Section Sort.
Context {A : Type} (ge : A -> A -> bool).

Fixpoint insert_desc (x : A) (l : list A) : list A :=
  match l with
  | [] => [x]
  | y :: l' => if ge x y then x :: l else y :: insert_desc x l'
  end.

Definition sort_desc (l : list A) : list A := foldr insert_desc [] l.

Lemma insert_desc_perm x l : insert_desc x l ≡ₚ x :: l.
Proof.
  induction l as [|y l IH]; simpl; [done|]. destruct (ge x y); [done|].
  rewrite IH. apply Permutation_swap.
Qed.

Lemma sort_desc_perm l : sort_desc l ≡ₚ l.
Proof. induction l as [|x l IH]; simpl; [done|]. by rewrite insert_desc_perm, IH. Qed.

Context (ge_total : ∀ x y, ge x y = false -> ge y x = true)
        (ge_trans : ∀ x y z, ge x y = true -> ge y z = true -> ge x z = true).

Definition geP (x y : A) : Prop := ge x y = true.

Lemma insert_desc_sorted x l : StronglySorted geP l -> StronglySorted geP (insert_desc x l).
Proof.
  induction 1 as [|y l Hl IH Hy]; simpl; [by repeat constructor|].
  destruct (ge x y) eqn:E.
  - repeat constructor; [done..|]. eapply Forall_impl; [exact Hy|]. intros z Hz. by eapply ge_trans.
  - constructor; [done|]. rewrite insert_desc_perm. constructor; [by apply ge_total|done].
Qed.

Lemma sort_desc_sorted l : StronglySorted geP (sort_desc l).
Proof. induction l; simpl; [constructor|by apply insert_desc_sorted]. Qed.

(** The first element of the result is a largest one. *)
Lemma sort_desc_head l x l' :
  sort_desc l = x :: l' -> x ∈ l /\ ∀ y, y ∈ l -> ge x y = true.
Proof.
  intros E. pose proof (sort_desc_perm l) as Hp. pose proof (sort_desc_sorted l) as Hs.
  rewrite E in Hp, Hs. split; [rewrite <-Hp; by left|]. intros y Hy. rewrite <-Hp in Hy.
  inversion Hs as [|? ? _ Hall]; subst. apply elem_of_cons in Hy as [->|Hy].
  - destruct (ge x x) eqn:Ex; [done|]. by rewrite (ge_total x x Ex) in Ex.
  - by apply (proj1 (Forall_forall _ _) Hall).
Qed.

Lemma sort_desc_nil l : sort_desc l = [] -> l = [].
Proof. intros E. pose proof (sort_desc_perm l) as Hp. rewrite E in Hp. by apply Permutation_nil in Hp. Qed.
End Sort.

(** ** Sums of the largest elements *)

Definition sumZ (l : list Z) : Z := foldr Z.add 0 l.

Lemma sumZ_app a b : sumZ (a ++ b) = sumZ a + sumZ b.
Proof. induction a as [|x a IH]; simpl; [lia|]. rewrite IH. lia. Qed.

Lemma sumZ_perm a b : a ≡ₚ b -> sumZ a = sumZ b.
Proof. induction 1; simpl; lia. Qed.

(** In a list sorted largest first, no selection has a larger sum than the
    first elements of the same number. *)
Lemma sum_take_max (l s : list Z) :
  StronglySorted (λ x y, y <= x) l -> s ⊆+ l -> sumZ s <= sumZ (take (length s) l).
Proof.
  intros Hl. revert s. induction Hl as [|x l Hl IH Hx]; intros s Hs.
  { apply submseteq_nil_r in Hs as ->. done. }
  destruct (decide (x ∈ s)) as [Hin|Hin].
  - apply list_elem_of_split in Hin as (s1 & s2 & ->).
    rewrite <-Permutation_middle in Hs. apply (submseteq_app_inv_l _ _ [x]) in Hs.
    specialize (IH _ Hs). rewrite length_app in IH. rewrite sumZ_app, length_app. simpl.
    rewrite sumZ_app in IH.
    replace (length s1 + S (length s2))%nat with (S (length s1 + length s2)) by lia. simpl. lia.
  - apply submseteq_cons_r in Hs as [Hs|(s' & Hp & _)].
    + destruct s as [|y s]; [done|]. simpl.
      assert (y ∈ l) as Hy by (eapply elem_of_submseteq; [by left|done]).
      assert (y <= x) by (apply (proj1 (Forall_forall _ _) Hx); done).
      assert (Hs' : s ⊆+ l) by (etrans; [|exact Hs]; by apply submseteq_cons).
      specialize (IH _ Hs'). lia.
    + exfalso. apply Hin. rewrite Hp. by left.
Qed.
