(* ===== verification/TenantRegistry.v ===== *)
(** * Tenant registry

    [src/platform/tenant_registry.py] on top of [Registry.v]: tenant records and
    the API keys.  Only the SHA-256 of a key is stored, in one hash from digest to
    tenant and in one reverse index per tenant. *)

From Stdlib Require Import Ascii.
From stdpp Require Import base gmap strings list.
From S2P Require Import Prelude PyValue Json Sha256 Redis TaskModel Tables Effects ErrorHandling.
From S2P Require Import Registry.

Open Scope Z_scope.

Definition API_KEYS_HASH : string := "tenant:api_keys".
Definition API_KEY_IDX (tid : string) : string := "tenant:api_keys_idx:" +:+ tid.

Definition TenantRegistry_init (ttl_seconds : Z) : BaseRedisRegistry :=
  BaseRedisRegistry_init "tenant" ttl_seconds.

(** [secrets.token_urlsafe(32)]: a random text. *)
Definition token_urlsafe : M string := uuid4.

(** [int(x or 0)] of a counter field *)
Definition usage_count (x : option string) : exn + Z :=
  match x with
  | None | Some "" => inr 0
  | Some s =>
      match Z_of_dec s with
      | Some n => inr n
      | None => inl (Exn ValueError ("invalid literal for int() with base 10: '" +:+ s +:+ "'"))
      end
  end.

Section Methods.
Context (reg : BaseRedisRegistry).

(** Identifiers are strings, as in [TenantInfo]. *)
Definition register (tenant_info : list (string * value)) : M bool :=
  match dict_get_or "tenant_id" (VStr "") tenant_info with
  | VStr (String c s) =>
      let tid := String c s in
      do* reg_set reg tid tid (VDict tenant_info) in ret true
  | v => if truthy v then raise (Exn TypeError "tenant_id")
         else raise (Exn ValueError "tenant_id is required")
  end.

Definition unregister (tenant_id : string) : M (option bool) :=
  let idx_key := API_KEY_IDX tenant_id in
  let* key_hashes := redis idx_key SMEMBERS in
  do* (if bool_decide (key_hashes = ∅) then ret tt
       else
         do* script (pipeline (((λ kh, (API_KEYS_HASH, HDEL kh)) <$> elements key_hashes) ++
                               [(idx_key, DEL)])) in
         ret tt) in
  reg_delete reg tenant_id tenant_id.

Definition get_tenant (tenant_id : string) : M value :=
  let* data := reg_get reg tenant_id tenant_id in
  match data with
  | VStr s =>
      match json_loads s with
      | Some v => ret v
      | None => raise (Exn ValueError "JSONDecodeError")
      end
  | _ => ret data
  end.

Definition generate_api_key (tenant_id : string) : M string :=
  let* token := token_urlsafe in
  let raw_key := "ramu_" +:+ token in
  let key_hash := sha256_hexdigest raw_key in
  do* script (pipeline [(API_KEYS_HASH, HSET [(key_hash, tenant_id)]);
                        (API_KEY_IDX tenant_id, SADD [key_hash])]) in
  ret raw_key.

Definition verify_api_key_hash (api_key : string) : M (option string) :=
  redis API_KEYS_HASH (HGET (sha256_hexdigest api_key)).

Definition revoke_api_key (tenant_id api_key : string) : M bool :=
  let key_hash := sha256_hexdigest api_key in
  let* results := script (pipeline [(API_KEYS_HASH, HDEL key_hash);
                                    (API_KEY_IDX tenant_id, SREM key_hash)]) in
  ret (negb (default 0 (results !! 0%nat) =? 0)).

Definition get_usage (tenant_id : string) : M (list (string * Z)) :=
  let usage_key := "tenant_usage:" +:+ tenant_id in
  let* results := script (pipeline [(usage_key, HGET "gpu_count"); (usage_key, HGET "task_count");
                                    (usage_key, HGET "actor_count")]) in
  let* gpu := of_sum (usage_count (mjoin (results !! 0%nat))) in
  let* tasks := of_sum (usage_count (mjoin (results !! 1%nat))) in
  let* actors := of_sum (usage_count (mjoin (results !! 2%nat))) in
  ret [("gpu_count", gpu); ("task_count", tasks); ("actor_count", actors)].

Definition validate_key (api_key : string) (tenant_id : option string) : M value :=
  let* found := verify_api_key_hash api_key in
  match found with
  | None => ret VNone
  | Some tid =>
      match tenant_id with
      | Some expected => if decide (tid = expected) then get_tenant tid else ret VNone
      | None => get_tenant tid
      end
  end.
End Methods.

(** ** The key table *)

Implicit Types (h : gmap string string) (idx : string -> gset string).

(** The digests [h] in use, and the reverse index [idx] of every tenant. *)
Record key_table (ks : keyspace) h idx : Prop := {
  kt_hash : at_key ks API_KEYS_HASH = keep (RHash h) None;
  kt_idx : ∀ t, at_key ks (API_KEY_IDX t) = keep (RSet (idx t)) None
}.

(** A digest in use is in the index of its tenant, and an index holds no digest
    of another tenant. *)
Definition consistent h idx : Prop :=
  (∀ kh t, h !! kh = Some t -> kh ∈ idx t) /\
  (∀ kh t t', kh ∈ idx t -> h !! kh = Some t' -> t' = t).

Lemma idx_hash_ne t : API_KEY_IDX t <> API_KEYS_HASH.
Proof. unfold API_KEY_IDX, API_KEYS_HASH. intros [=]. Qed.

Lemma idx_inj t t' : API_KEY_IDX t = API_KEY_IDX t' -> t = t'.
Proof. apply string_app_inj_l. Qed.

#[local] Hint Resolve idx_hash_ne : sched.

Lemma lookup_foldl_delete (khs : list string) : ∀ h kh,
  foldl (λ h kh, delete kh h) h khs !! kh = if decide (kh ∈ khs) then None else h !! kh.
Proof.
  induction khs as [|x khs IH]; intros h kh; simpl; [done|].
  rewrite IH. destruct (decide (kh ∈ khs)) as [Hin|Hin].
  - by rewrite decide_True by by right.
  - destruct (decide (kh = x)) as [->|Hne].
    + by rewrite lookup_delete_eq, decide_True by by left.
    + rewrite lookup_delete_ne, decide_False by (set_solver || done). done.
Qed.

Lemma first_error_inr {X} (ns : list X) (r : X) : first_error ((inr <$> ns) ++ [inr r]) = inr (ns ++ [r]).
Proof.
  induction ns as [|n ns IH]; [done|].
  rewrite fmap_cons, <-app_comm_cons. cbn [first_error]. by rewrite IH.
Qed.

Section Table.
Context {E : Env} (HE : quiet E).
Implicit Types (w : world doc_services).

Definition with_idx (t : string) (m : gset string) idx : string -> gset string :=
  λ t', if decide (t' = t) then m else idx t'.

Lemma table_verify w h idx k :
  key_table (w_redis w) h idx ->
  exists w', run (verify_api_key_hash k) w = (w', inr (h !! sha256_hexdigest k)) /\
             key_table (w_redis w') h idx.
Proof.
  intros [Hh Hi]. unfold verify_api_key_hash.
  rewrite (run_persistent HE _ _ _ _ _ _ Hh (persistent_keep _)
             (act_HGET _ _ _ _ (hash_of_keep _ _))).
  eexists. split; [done|]. simpl. rewrite <-Hh. split; [|intros t]; by rewrite at_put_same.
Qed.

(** Writing a digest and its index entry. *)
Lemma table_generate w h idx t :
  key_table (w_redis w) h idx ->
  let k := "ramu_" +:+ uuid_at (w_tick w) in
  let kh := sha256_hexdigest k in
  exists w', run (generate_api_key t) w = (w', inr k) /\
    key_table (w_redis w') (<[kh := t]> h) (with_idx t ({[kh]} ∪ idx t) idx).
Proof.
  intros [Hh Hi] k kh. unfold generate_api_key, token_urlsafe.
  rewrite run_bind, run_uuid4. cbv beta iota. rewrite run_bind, (run_pipeline HE). fold k kh.
  generalize (w_now (after (w_redis w) (w_db w) w)) as now; intros now.
  destruct (act_HSET1 now _ _ kh t (hash_of_keep h None)) as [n H1].
  rewrite (pipe_step now _ _ _ _ _ _ _ Hh (persistent_keep _) H1), persistent_keep.
  set (ks1 := put _ _ _).
  assert (Hi' : at_key ks1 (API_KEY_IDX t) = keep (RSet (idx t)) None)
    by (subst ks1; rewrite at_put_ne by (apply not_eq_sym; auto with sched); apply Hi).
  destruct (act_SADD now _ _ [kh] (set_of_keep (idx t) None)) as [m H2].
  rewrite (pipe_step now _ _ _ _ _ _ _ Hi' (persistent_keep _) H2), persistent_keep.
  cbn [first_error pipe_run].
  eexists. split; [done|]. simpl. subst ks1. split.
  - by rewrite at_put_ne, at_put_eq by auto with sched.
  - intros t'. unfold with_idx. case_decide as Ht; subst.
    + by rewrite at_put_eq, add_one.
    + rewrite at_put_ne by by intros ?%idx_inj.
      rewrite at_put_ne by (apply not_eq_sym; auto with sched). apply Hi.
Qed.

Lemma table_revoke w h idx t k :
  key_table (w_redis w) h idx ->
  let kh := sha256_hexdigest k in
  exists w', run (revoke_api_key t k) w = (w', inr (bool_decide (is_Some (h !! kh)))) /\
    key_table (w_redis w') (delete kh h) (with_idx t (idx t ∖ {[kh]}) idx).
Proof.
  intros [Hh Hi] kh. unfold revoke_api_key. rewrite run_bind, (run_pipeline HE). fold kh.
  generalize (w_now w) as now; intros now.
  pose proof (act_HDEL now _ _ kh (hash_of_keep h None)) as H1.
  rewrite (pipe_step now _ _ _ _ _ _ _ Hh (persistent_keep _) H1), persistent_keep.
  set (ks1 := put _ _ _).
  assert (Hi' : at_key ks1 (API_KEY_IDX t) = keep (RSet (idx t)) None)
    by (subst ks1; rewrite at_put_ne by (apply not_eq_sym; auto with sched); apply Hi).
  pose proof (act_SREM now _ _ kh (set_of_keep (idx t) None)) as H2.
  rewrite (pipe_step now _ _ _ _ _ _ _ Hi' (persistent_keep _) H2), persistent_keep.
  cbn [first_error pipe_run].
  eexists. split.
  - rewrite run_ret. do 2 f_equal. cbn. by destruct (h !! kh).
  - simpl. subst ks1. split.
    + by rewrite at_put_ne, at_put_eq by auto with sched.
    + intros t'. unfold with_idx. destruct (decide (t' = t)) as [->|]; [by rewrite at_put_eq|].
      rewrite at_put_ne by by intros ?%idx_inj.
      rewrite at_put_ne by (apply not_eq_sym; auto with sched). apply Hi.
Qed.

(** Deleting the digests of a list. *)
Lemma pipe_hdels now rest khs : ∀ h ks,
  at_key ks API_KEYS_HASH = keep (RHash h) None ->
  exists ns, pipe_run now (((λ kh, (API_KEYS_HASH, HDEL kh)) <$> khs) ++ rest) ks =
    let '(ks', rs) := pipe_run now rest (put API_KEYS_HASH
                        (keep (RHash (foldl (λ h kh, delete kh h) h khs)) None) ks) in
    (ks', (inr <$> ns) ++ rs).
Proof.
  induction khs as [|kh khs IH]; intros h ks Hh.
  - exists []. simpl. assert (put API_KEYS_HASH (keep (RHash h) None) ks = ks) as ->; [|by destruct (pipe_run _ _ _)].
    rewrite <-Hh. unfold at_key, put. destruct (ks !! API_KEYS_HASH) eqn:Ek.
    + by apply insert_id. + by apply delete_id.
  - pose proof (act_HDEL now _ _ kh (hash_of_keep h None)) as H1. rewrite persistent_keep in H1.
    rewrite fmap_cons, <-app_comm_cons.
    rewrite (pipe_step now _ _ _ _ _ _ _ Hh (persistent_keep _) H1).
    destruct (IH (delete kh h) (put API_KEYS_HASH (keep (RHash (delete kh h)) None) ks)) as [ns ->];
      [by rewrite at_put_eq|].
    rewrite put_put. exists (zflag (h !! kh) :: ns). simpl. by destruct (pipe_run _ _ _).
Qed.

(** The digests of the tenant's index leave the hash, and the index goes. *)
Lemma table_drop w h idx t :
  key_table (w_redis w) h idx -> idx t <> ∅ ->
  exists w' rs, run (script (pipeline (((λ kh, (API_KEYS_HASH, HDEL kh)) <$> elements (idx t)) ++
                                    [(API_KEY_IDX t, DEL)]))) w = (w', inr rs) /\
    key_table (w_redis w') (foldl (λ h kh, delete kh h) h (elements (idx t))) (with_idx t ∅ idx).
Proof.
  intros [Hh Hi] Hne. rewrite (run_pipeline HE). generalize (w_now w) as now; intros now.
  destruct (pipe_hdels now [(API_KEY_IDX t, DEL)] (elements (idx t)) h (w_redis w) Hh) as [ns ->].
  set (ks1 := put _ _ _).
  assert (Hi' : at_key ks1 (API_KEY_IDX t) = keep (RSet (idx t)) None)
    by (subst ks1; rewrite at_put_ne by (apply not_eq_sym; auto with sched); apply Hi).
  rewrite (pipe_step now _ _ _ _ _ _ _ Hi' (persistent_keep _) (act_DEL _ _)).
  cbn [pipe_run]. rewrite first_error_inr. eexists _, _. split; [done|]. simpl. subst ks1. split.
  - by rewrite at_put_ne, at_put_eq by auto with sched.
  - intros t'. unfold with_idx. destruct (decide (t' = t)) as [->|].
    + rewrite at_put_eq. done.
    + rewrite at_put_ne by by intros ?%idx_inj.
      rewrite at_put_ne by (apply not_eq_sym; auto with sched). apply Hi.
Qed.
End Table.

(** A program that never writes the two kinds of keys of the table. *)
Section Unregister.
Context {E : Env} (HE : quiet E) (ttl : Z).
Notation reg := (TenantRegistry_init ttl).
Implicit Types (w : world doc_services).

Lemma table_ext ks ks' h idx :
  (∀ k, k = API_KEYS_HASH \/ (exists t, k = API_KEY_IDX t) -> at_key ks' k = at_key ks k) ->
  key_table ks h idx -> key_table ks' h idx.
Proof. intros Hk [H1 H2]. split; [|intros t]; rewrite Hk; eauto. Qed.

Lemma redis_table {X} k (a : act X) w h idx :
  k <> API_KEYS_HASH -> (∀ t, k <> API_KEY_IDX t) ->
  key_table (w_redis w) h idx -> key_table (w_redis (run (redis k a) w).1) h idx.
Proof.
  intros H1 H2 HT. rewrite run_redis. destruct (redis_fault _); [done|].
  destruct (act_doc _ _ _) as [e r]. simpl. revert HT. apply table_ext.
  intros k' [->|[t ->]]; by rewrite at_put_ne.
Qed.

(** Tenant records live under other keys. *)
Lemma tenant_keys_apart t :
  tenant_ok t = true -> t <> "api_keys_idx" ->
  (make_key reg t t <> API_KEYS_HASH /\ ∀ t', make_key reg t t <> API_KEY_IDX t') /\
  index_key reg t <> API_KEYS_HASH /\ ∀ t', index_key reg t <> API_KEY_IDX t'.
Proof.
  intros [Hc _]%tenant_ok_spec Ht. unfold make_key, index_key, API_KEYS_HASH, API_KEY_IDX.
  change "tenant:api_keys" with ("tenant" +:+ ":" +:+ "api_keys").
  split_and!; try (intros t'; change ("tenant:api_keys_idx:" +:+ t') with
    ("tenant" +:+ ":" +:+ "api_keys_idx" +:+ String ":"%char t')).
  - intros Eq%string_app_inj_l%string_app_inj_l. by apply no_colon_ne in Eq.
  - intros Eq%string_app_inj_l%string_app_inj_l.
    by apply (split_at_char ":"%char t "api_keys_idx") in Eq as [? _].
  - intros Eq. by vm_compute in Eq.
  - intros Eq%string_app_inj_l. done.
Qed.

Lemma delete_table w h idx t :
  tenant_ok t = true -> t <> "api_keys_idx" ->
  key_table (w_redis w) h idx -> key_table (w_redis (run (reg_delete reg t t) w).1) h idx.
Proof.
  intros Hok Ht HT. destruct (tenant_keys_apart t Hok Ht) as [[H1 H2] [H3 H4]].
  unfold reg_delete, log_errors_none. rewrite run_except, run_bind.
  pose proof (redis_table _ DEL w h idx H1 H2 HT) as HT1.
  destruct (run (redis (make_key reg t t) DEL) w) as [w1 [x|n]]; simpl in HT1.
  { destruct (is_exception x); [|done]. by destruct (passes_through x). }
  destruct (n =? 0); [done|]. rewrite run_bind.
  pose proof (redis_table _ (SREM t) w1 h idx H3 H4 HT1) as HT2.
  destruct (run (redis (index_key reg t) (SREM t)) w1) as [w2 [x|m]]; simpl in HT2; [|done].
  destruct (is_exception x); [|done]. by destruct (passes_through x).
Qed.

Lemma table_unregister w h idx t :
  tenant_ok t = true -> t <> "api_keys_idx" ->
  key_table (w_redis w) h idx ->
  key_table (w_redis (run (unregister reg t) w).1)
            (foldl (λ h kh, delete kh h) h (elements (idx t))) (with_idx t ∅ idx).
Proof.
  intros Hok Ht HT. unfold unregister.
  rewrite run_bind, (run_SMEMBERS HE _ _ _ (kt_idx _ _ _ HT t)). cbv beta iota.
  set (w1 := after _ _ w).
  assert (HT1 : key_table (w_redis w1) h idx).
  { apply (table_ext (w_redis w)); [|done]. intros k _. subst w1. simpl.
    by rewrite at_put_same by apply (kt_idx _ _ _ HT). }
  rewrite run_bind. case_bool_decide as Hem.
  - rewrite run_ret. cbv beta iota. apply delete_table; [done..|].
    rewrite Hem, elements_empty. simpl. destruct HT1 as [H1 H2]. split; [done|].
    intros t'. unfold with_idx. destruct (decide (t' = t)) as [->|]; [by rewrite <-Hem|done].
  - destruct (table_drop HE w1 h idx t HT1 Hem) as (w2 & rs & Hr & HT2).
    rewrite run_bind, Hr. cbv beta iota. rewrite run_ret. by apply delete_table.
Qed.
End Unregister.

(** ** Life cycle of the API keys *)

Lemma consistent_generate h idx t kh :
  consistent h idx -> (∀ t', kh ∉ idx t') ->
  consistent (<[kh := t]> h) (with_idx t ({[kh]} ∪ idx t) idx).
Proof.
  intros [H1 H2] Hf. unfold with_idx. split.
  - intros kh' t' [[<- <-]|[Hne Hl]]%lookup_insert_Some; [rewrite decide_True by done; set_solver|].
    specialize (H1 _ _ Hl). case_decide; subst; set_solver.
  - intros kh' t1 t2 Hin [[<- <-]|[Hne Hl]]%lookup_insert_Some.
    + case_decide; [done|]. by apply Hf in Hin.
    + case_decide; subst; [|by apply (H2 kh')]. apply (H2 kh'); [set_solver|done].
Qed.

Lemma consistent_revoke h idx t kh :
  consistent h idx -> consistent (delete kh h) (with_idx t (idx t ∖ {[kh]}) idx).
Proof.
  intros [H1 H2]. unfold with_idx. split.
  - intros kh' t' [Hne Hl]%lookup_delete_Some. specialize (H1 _ _ Hl). case_decide; subst; set_solver.
  - intros kh' t1 t2 Hin [Hne Hl]%lookup_delete_Some. apply (H2 kh'); [|done].
    case_decide; subst; set_solver.
Qed.

Lemma lookup_dropped h idx t kh :
  consistent h idx ->
  foldl (λ h kh, delete kh h) h (elements (idx t)) !! kh =
  if decide (h !! kh = Some t) then None else h !! kh.
Proof.
  intros [H1 H2]. rewrite lookup_foldl_delete.
  destruct (decide (kh ∈ elements (idx t))) as [Hin|Hin]; rewrite elem_of_elements in Hin.
  - case_decide; [done|]. destruct (h !! kh) as [t'|] eqn:El; [|done].
    specialize (H2 _ _ _ Hin El). congruence.
  - rewrite decide_False; [done|]. intros Hl. by apply H1 in Hl.
Qed.

Lemma consistent_unregister h idx t :
  consistent h idx ->
  consistent (foldl (λ h kh, delete kh h) h (elements (idx t))) (with_idx t ∅ idx).
Proof.
  intros HC. pose proof HC as [H1 H2]. unfold with_idx. split.
  - intros kh t'. rewrite (lookup_dropped h idx t kh HC). case_decide; [done|].
    intros Hl. case_decide; subst; [congruence|auto].
  - intros kh t1 t2 Hin. rewrite (lookup_dropped h idx t kh HC). case_decide; [done|].
    case_decide; [set_solver|]. by apply (H2 kh).
Qed.

(** C29: life cycle of API keys over any Redis server and any timing, when no
    call fails.  From a consistent key table: a generated key verifies to its
    tenant and no other digest changes (given that its digest is new); a revoked
    key no longer verifies; after [unregister] none of the tenant's keys
    verifies and every other key verifies as before; and each of the three
    leaves a consistent table. *)
Theorem api_key_lifecycle (S : Services) (E : Env) ttl t h idx (w : world S) :
  quiet E -> tenant_ok t = true -> t <> "api_keys_idx" ->
  key_table (ks_of w) h idx -> consistent h idx ->
  let table w' h' := exists idx', key_table (ks_of w') h' idx' /\ consistent h' idx' in
  ((∀ t', sha256_hexdigest ("ramu_" +:+ uuid_at (w_tick w)) ∉ idx t') ->
   exists k w', run (generate_api_key t) w = (w', inr k) /\
     table w' (<[sha256_hexdigest k := t]> h) /\
     (run (verify_api_key_hash k) w').2 = inr (Some t)) /\
  (∀ k, exists w', run (revoke_api_key t k) w = (w', inr (bool_decide (is_Some (h !! sha256_hexdigest k)))) /\
     table w' (delete (sha256_hexdigest k) h) /\
     (run (verify_api_key_hash k) w').2 = inr None) /\
  (let w' := (run (unregister (TenantRegistry_init ttl) t) w).1 in
   (exists h', table w' h') /\
   ∀ k, (run (verify_api_key_hash k) w').2 =
        inr (if decide (h !! sha256_hexdigest k = Some t) then None else h !! sha256_hexdigest k)).
Proof.
  intros HE Hok Ht HT HC table.
  assert (Hver : ∀ k h' idx' (w' : world S), key_table (ks_of w') h' idx' ->
    (run (verify_api_key_hash k) w').2 = inr (h' !! sha256_hexdigest k)).
  { intros k h' idx' w' HT'. destruct (table_verify HE (wview w') h' idx' k HT') as (w2 & Hr & _).
    rewrite run_view in Hr. congruence. }
  split_and!.
  - intros Hf. destruct (table_generate HE (wview w) h idx t HT) as (w' & Hr & HT').
    rewrite run_view in Hr. injection Hr as <- Hr.
    eexists _, (run (generate_api_key t) w).1. rewrite <-Hr. split; [apply surjective_pairing|].
    split; [eexists; split; [exact HT'|by apply consistent_generate]|].
    rewrite (Hver _ _ _ _ HT'). by rewrite lookup_insert_eq.
  - intros k. destruct (table_revoke HE (wview w) h idx t k HT) as (w' & Hr & HT').
    rewrite run_view in Hr. injection Hr as <- Hr.
    exists (run (revoke_api_key t k) w).1. rewrite <-Hr. split; [apply surjective_pairing|].
    split; [eexists; split; [exact HT'|by apply consistent_revoke]|].
    rewrite (Hver _ _ _ _ HT'). by rewrite lookup_delete_eq.
  - pose proof (table_unregister HE ttl (wview w) h idx t Hok Ht HT) as HT'.
    rewrite run_view in HT'. split.
    + eexists _, _. split; [exact HT'|by apply consistent_unregister].
    + intros k. rewrite (Hver _ _ _ _ HT'). by rewrite (lookup_dropped h idx).
Qed.

#[local] Opaque sha256_hexdigest.

Lemma api_key_lifecycle_witness :
  exists k w', run (S := doc_services) (E := calm) (generate_api_key "acme") (world0 0) = (w', inr k) /\
    (run (S := doc_services) (E := calm) (verify_api_key_hash k) w').2 = inr (Some "acme") /\
    (run (S := doc_services) (E := calm) (verify_api_key_hash k)
       (run (S := doc_services) (E := calm) (unregister (TenantRegistry_init 0) "acme") w').1).2 = inr None.
Proof.
  assert (HT : key_table (ks_of (world0 0)) ∅ (λ _, ∅)) by (split; done).
  assert (HC : consistent ∅ (λ _, ∅)) by (split; intros; set_solver).
  destruct (api_key_lifecycle doc_services calm 0 "acme" ∅ (λ _, ∅) (world0 0) calm_quiet eq_refl
    ltac:(done) HT HC) as [Hgen _].
  destruct (Hgen ltac:(set_solver)) as (k & w' & Hr & (idx' & HT' & HC') & Hv).
  exists k, w'. split; [exact Hr|]. split; [exact Hv|].
  destruct (api_key_lifecycle doc_services calm 0 "acme" _ idx' w' calm_quiet eq_refl
    ltac:(done) HT' HC') as (_ & _ & _ & Hun).
  rewrite (Hun k), lookup_insert_eq, decide_True by reflexivity. reflexivity.
Defined.
