(* ===== verification/CapabilityRegistry.v ===== *)
(** * Capability registry

    [src/models/capability.py] and [src/platform/capability_registry.py]: the
    registered capabilities and the health state machine that a Redis script
    keeps.  Pydantic's validation of a stored document is the parameter
    [model_validate]; [model_dump] is written out from the declared fields. *)

From Stdlib Require Import Ascii.
From stdpp Require Import base gmap strings list.
From S2P Require Import Prelude PyValue Json Redis TaskModel Tables Effects ErrorHandling.
From S2P Require Import Cjson Registry.

Open Scope Z_scope.

(** ** Models *)

Inductive CapabilityType := RAY_ACTOR | RAY_SERVE | FLASK_HTTP | RAY_TASK.

Definition capability_type_value (c : CapabilityType) : string :=
  match c with
  | RAY_ACTOR => "ray_actor" | RAY_SERVE => "ray_serve"
  | FLASK_HTTP => "flask_http" | RAY_TASK => "ray_task"
  end.

Inductive HealthStatus := HEALTHY | DEGRADED | UNHEALTHY.

#[global] Instance HealthStatus_eq_dec : EqDecision HealthStatus.
Proof. solve_decision. Defined.

Definition health_value (s : HealthStatus) : string :=
  match s with HEALTHY => "healthy" | DEGRADED => "degraded" | UNHEALTHY => "unhealthy" end.

(** [HealthStatus(s)] *)
Definition health_of_value (s : string) : exn + HealthStatus :=
  if decide (s = "healthy") then inr HEALTHY
  else if decide (s = "degraded") then inr DEGRADED
  else if decide (s = "unhealthy") then inr UNHEALTHY
  else inl (Exn ValueError ("'" +:+ s +:+ "' is not a valid HealthStatus")).

Definition dict := list (string * value).

Record ActorConfig := {
  module_path : string;
  artifact_url : string;
  artifact_sha256 : string;
  entrypoint : string;
  num_actors : Z;
  auto_create_pool : bool;
  elastic_enabled : bool;
  warmup_enabled : bool;
  warmup_payload : dict;
  warmup_timeout_seconds : Z;
  resources_per_actor : dict;
  actor_options : dict;
  worker_init_config : dict;
  runtime_env : dict;
  scheduling_resources : dict;
  qps_limit : option Z;            (** thousandths *)
  max_concurrent : option Z;
  preemptible : bool;
  preemptible_min_size : Z
}.

Definition positive_or_none (o : option Z) : bool :=
  match o with Some n => 0 <? n | None => true end.

Definition validate_artifact_and_limits (c : ActorConfig) : exn + ActorConfig :=
  if negb (bool_decide (artifact_url c = "")) && bool_decide (entrypoint c = "") then
    inl (Exn ValueError "entrypoint is required when artifact_url is set")
  else if negb (bool_decide (artifact_url c = "")) && negb (bool_decide (artifact_sha256 c = "")) &&
          negb (String.length (artifact_sha256 c) =? 64)%nat then
    inl (Exn ValueError "artifact_sha256 must be a 64-char hex string")
  else if negb (positive_or_none (qps_limit c)) then
    inl (Exn ValueError "qps_limit must be positive")
  else if negb (positive_or_none (max_concurrent c)) then
    inl (Exn ValueError "max_concurrent must be positive")
  else inr c.

Definition opt_value {A} (f : A -> value) (o : option A) : value :=
  match o with Some a => f a | None => VNone end.

Definition actor_config_dump (c : ActorConfig) : dict :=
  [("module_path", VStr (module_path c)); ("artifact_url", VStr (artifact_url c));
   ("artifact_sha256", VStr (artifact_sha256 c)); ("entrypoint", VStr (entrypoint c));
   ("num_actors", VInt (num_actors c)); ("auto_create_pool", VBool (auto_create_pool c));
   ("elastic_enabled", VBool (elastic_enabled c)); ("warmup_enabled", VBool (warmup_enabled c));
   ("warmup_payload", VDict (warmup_payload c));
   ("warmup_timeout_seconds", VInt (warmup_timeout_seconds c));
   ("resources_per_actor", VDict (resources_per_actor c));
   ("actor_options", VDict (actor_options c));
   ("worker_init_config", VDict (worker_init_config c)); ("runtime_env", VDict (runtime_env c));
   ("scheduling_resources", VDict (scheduling_resources c));
   ("qps_limit", opt_value VFloat (qps_limit c));
   ("max_concurrent", opt_value VInt (max_concurrent c)); ("preemptible", VBool (preemptible c));
   ("preemptible_min_size", VInt (preemptible_min_size c))].

Record FlaskConfig := {
  base_url : string;
  generate_endpoint : string;
  health_endpoint : string
}.

Definition flask_config_dump (c : FlaskConfig) : dict :=
  [("base_url", VStr (base_url c)); ("generate_endpoint", VStr (generate_endpoint c));
   ("health_endpoint", VStr (health_endpoint c))].

Record HealthCheckConfig := {
  interval_seconds : Z;
  timeout_seconds : Z;
  unhealthy_threshold : Z;
  healthy_threshold : Z
}.

Definition default_health_check : HealthCheckConfig :=
  {| interval_seconds := 30; timeout_seconds := 10; unhealthy_threshold := 3;
     healthy_threshold := 2 |}.

Definition health_check_dump (c : HealthCheckConfig) : dict :=
  [("interval_seconds", VInt (interval_seconds c)); ("timeout_seconds", VInt (timeout_seconds c));
   ("unhealthy_threshold", VInt (unhealthy_threshold c));
   ("healthy_threshold", VInt (healthy_threshold c))].

Record CapabilityInfo := {
  capability_name : string;
  capability_type : CapabilityType;
  cap_cluster_id : string;
  version : string;
  actor_config : option ActorConfig;
  flask_config : option FlaskConfig;
  health_check : HealthCheckConfig;
  health_status : HealthStatus;
  tags : list string;
  cap_tenant_id : string;
  description : string
}.

(** [cap.model_dump()]; [orjson] writes a string enum as its value. *)
Definition capability_dump (c : CapabilityInfo) : dict :=
  [("capability_name", VStr (capability_name c));
   ("capability_type", VStr (capability_type_value (capability_type c)));
   ("cluster_id", VStr (cap_cluster_id c)); ("version", VStr (version c));
   ("actor_config", opt_value (λ a, VDict (actor_config_dump a)) (actor_config c));
   ("flask_config", opt_value (λ f, VDict (flask_config_dump f)) (flask_config c));
   ("health_check", VDict (health_check_dump (health_check c)));
   ("health_status", VStr (health_value (health_status c)));
   ("tags", VList (VStr <$> tags c)); ("tenant_id", VStr (cap_tenant_id c));
   ("description", VStr (description c))].

(** ** Keys and the health script *)

Definition CAP_INDEX : string := "capabilities:all".
Definition HEALTH_KEY (name : string) : string := "capability_health:" +:+ name.
Definition GLOBAL_TENANT : string := "_global_".
Definition cap_registry : BaseRedisRegistry := BaseRedisRegistry_init "capability" 0.

Definition nil_arith : exn := Exn ResponseError "attempt to perform arithmetic on a nil value".

(** [tonumber(redis.call('HGET', key, f) or '0')]: [nil] where it is used as a number raises *)
Definition hget_number (key f : string) : lua Z :=
  (let+ s := call key (HGET f) in
   match tonumber (default "0" s) with Some n => LRet n | None => LFail nil_arith end)%lua.

Definition next_health (status : string) (consec_ok consec_fail unhealthy_thresh healthy_thresh : Z) :
    string :=
  if (bool_decide (status = "unhealthy") || bool_decide (status = "degraded")) &&
     (consec_ok >=? healthy_thresh) then "healthy"
  else if bool_decide (status = "healthy") && (consec_fail >=? 2) then "degraded"
  else if bool_decide (status = "degraded") && (consec_fail >=? unhealthy_thresh) then "unhealthy"
  else status.

Section Script.
Context `{Cjson}.

Definition lua_update_health (hkey capkey : string) (ok : bool)
    (unhealthy_thresh healthy_thresh : Z) : lua string :=
  (let+ st := call hkey (HGET "status") in
   let status := default "healthy" st in
   let+ ok0 := hget_number hkey "consec_ok" in
   let+ fail0 := hget_number hkey "consec_fail" in
   let consec_ok := if ok then ok0 + 1 else 0 in
   let consec_fail := if ok then 0 else fail0 + 1 in
   let new_status := next_health status consec_ok consec_fail unhealthy_thresh healthy_thresh in
   do+ call hkey (HSET [("status", new_status); ("consec_ok", dec_of_Z consec_ok);
                        ("consec_fail", dec_of_Z consec_fail)]) in
   let+ raw := call capkey GET in
   match raw with
   | Some text =>
       let+ cap := lua_decode text in
       do+ call capkey (SET (cjson_encode (dict_set "health_status" (VStr new_status) cap)) None false) in
       LRet new_status
   | None => LRet new_status
   end)%lua.
End Script.

(** ** Methods *)

Section Methods.
Context `{Cjson} (model_validate : value -> exn + CapabilityInfo).

Definition cap_register (cap : CapabilityInfo) : M unit :=
  log_errors_as ExternalServiceError
    (do* reg_set cap_registry GLOBAL_TENANT (capability_name cap) (VDict (capability_dump cap)) in
     do* redis CAP_INDEX (SADD [capability_name cap]) in
     do* redis (HEALTH_KEY (capability_name cap))
           (HSET [("status", health_value (health_status cap)); ("consec_ok", "0");
                  ("consec_fail", "0")]) in
     ret tt).

(** The two-argument form of [get]. *)
Definition cap_get2 (tenant item_id : string) : M (option CapabilityInfo) :=
  let* data := reg_get cap_registry tenant item_id in
  match data with
  | VNone => ret None
  | _ => let* c := of_sum (model_validate data) in ret (Some c)
  end.

(** [CapabilityInfo.model_validate] of an instance returns it. *)
Definition get_capability (name : string) : M (option CapabilityInfo) :=
  log_errors_none None (cap_get2 GLOBAL_TENANT name).

Definition cap_get (name_or_tenant : string) (item_id : option string) : M (option CapabilityInfo) :=
  match item_id with
  | None => get_capability name_or_tenant
  | Some i => cap_get2 name_or_tenant i
  end.

Definition find_capability (name : string) : M (option CapabilityInfo) :=
  log_errors_none None
    (let* cap := get_capability name in
     match cap with
     | None => ret None
     | Some c => if decide (health_status c = UNHEALTHY) then ret None else ret (Some c)
     end).

(** One entry of [list_all]: skipped when it cannot be parsed. *)
Definition parse_cap (data : option string) : option CapabilityInfo :=
  match data with
  | None | Some "" => None
  | Some raw =>
      match json_loads raw with
      | Some v => match model_validate v with inr c => Some c | inl _ => None end
      | None => None
      end
  end.

Definition cap_list_all : M (option (list CapabilityInfo)) :=
  log_errors_none None
    (let* names := redis CAP_INDEX SMEMBERS in
     if bool_decide (names = ∅) then ret (Some [])
     else
       let* results := script (pipeline ((λ name, (make_key cap_registry GLOBAL_TENANT name, GET))
                                           <$> elements names)) in
       ret (Some (omap parse_cap results))).

Definition cap_unregister (name : string) : M unit :=
  log_errors_as ExternalServiceError
    (do* reg_delete cap_registry GLOBAL_TENANT name in
     do* redis (HEALTH_KEY name) DEL in
     do* redis CAP_INDEX (SREM name) in
     ret tt).

Definition update_health (name : string) (success : bool) (unhealthy_thresh healthy_thresh : Z) :
    M HealthStatus :=
  log_errors_as ExternalServiceError
    (let* result := script (lua_update_health (HEALTH_KEY name)
                              (make_key cap_registry GLOBAL_TENANT name) success
                              unhealthy_thresh healthy_thresh) in
     of_sum (health_of_value result)).
End Methods.

(** ** The abstract health machine *)

Record health := Health { h_status : HealthStatus; h_ok : Z; h_fail : Z }.

Section Machine.
Context (ut ht : Z).

Definition next_status (s : HealthStatus) (ok fail : Z) : HealthStatus :=
  match s with
  | HEALTHY => if 2 <=? fail then DEGRADED else HEALTHY
  | DEGRADED => if ht <=? ok then HEALTHY else if ut <=? fail then UNHEALTHY else DEGRADED
  | UNHEALTHY => if ht <=? ok then HEALTHY else UNHEALTHY
  end.

Definition check (h : health) (ok : bool) : health :=
  let o := if ok then h_ok h + 1 else 0 in
  let f := if ok then 0 else h_fail h + 1 in
  Health (next_status (h_status h) o f) o f.

Fixpoint statuses (h : health) (oks : list bool) : list HealthStatus :=
  match oks with
  | [] => []
  | ok :: oks' => let h' := check h ok in h_status h' :: statuses h' oks'
  end.

Definition final (h : health) (oks : list bool) : health := foldl check h oks.

(** The counters count the last run of equal outcomes. *)
Lemma final_failures h n :
  0 <= h_ok h -> 0 <= h_fail h ->
  h_fail (final h (repeat false n)) = h_fail h + Z.of_nat n /\
  (n <> 0%nat -> h_ok (final h (repeat false n)) = 0).
Proof.
  revert h. induction n as [|n IH]; intros h Ho Hf; [simpl; split; [lia|done]|].
  simpl. destruct (IH (check h false)) as [-> Hz]; simpl; [lia..|]. split; [lia|].
  intros _. destruct n; [done|]. by apply Hz.
Qed.

(** An unhealthy capability stays so while checks fail. *)
Lemma unhealthy_stays h n :
  0 < ht -> h_status h = UNHEALTHY -> h_status (final h (repeat false n)) = UNHEALTHY.
Proof.
  intros Hht. revert h. induction n as [|n IH]; intros h Hs; [done|].
  simpl. apply IH. simpl. rewrite Hs. simpl. by rewrite (proj2 (Z.leb_gt ht 0)).
Qed.

Lemma failing_from h n :
  0 < ht -> 0 <= h_fail h ->
  (match h_status h with
   | HEALTHY => Z.max (h_fail h + 2) (Z.max 3 ut)
   | DEGRADED => Z.max (h_fail h + 1) ut
   | UNHEALTHY => h_fail h
   end <= h_fail h + Z.of_nat n) ->
  h_status (final h (repeat false n)) = UNHEALTHY.
Proof.
  intros Hht. revert h. induction n as [|n IH]; intros h Hf Hn.
  { destruct (h_status h) eqn:Es; simpl in *; [lia|lia|done]. }
  simpl. destruct (h_status h) eqn:Es; [| |apply unhealthy_stays; [done|]; simpl; rewrite Es; simpl;
    by rewrite (proj2 (Z.leb_gt ht 0))].
  - apply IH; simpl; [lia|]. rewrite Es; simpl.
    destruct (2 <=? h_fail h + 1) eqn:E2; bool_to_prop; lia.
  - destruct (decide (ut <= h_fail h + 1)) as [Hu|Hu].
    + apply unhealthy_stays; [done|]. simpl. rewrite Es; simpl.
      rewrite (proj2 (Z.leb_gt ht 0)) by lia. by rewrite (proj2 (Z.leb_le _ _)) by lia.
    + apply IH; simpl; [lia|]. rewrite Es; simpl.
      rewrite (proj2 (Z.leb_gt ht 0)) by lia. rewrite (proj2 (Z.leb_gt ut _)) by lia. lia.
Qed.

Lemma recovering h n :
  0 < ht -> 0 <= h_ok h -> ht <= h_ok h + Z.of_nat n -> n <> 0%nat ->
  h_status (final h (repeat true n)) = HEALTHY.
Proof.
  intros Hht. revert h. induction n as [|n IH]; intros h Ho Hn Hz; [done|]. simpl.
  destruct n as [|n].
  - simpl. destruct (h_status h); simpl; [done| |]; by rewrite (proj2 (Z.leb_le _ _)) by lia.
  - apply IH; simpl; lia.
Qed.
End Machine.

(** ** Refinement *)

Lemma next_health_status ut ht s ok fail :
  next_health (health_value s) ok fail ut ht = health_value (next_status ut ht s ok fail).
Proof.
  unfold next_health, next_status. rewrite !Z.geb_leb.
  destruct s; simpl; repeat case_match; done.
Qed.

Lemma health_of_value_of s : health_of_value (health_value s) = inr s.
Proof. by destruct s. Qed.

Section Refinement.
Context `{Cjson} {E : Env} (HE : quiet E) (name : string) (ut ht : Z).
Notation hkey := (HEALTH_KEY name).
Notation capkey := (make_key cap_registry GLOBAL_TENANT name).
Implicit Types (w : world doc_services) (h : health).

(** The health hash holds [h]; a missing hash is a healthy capability. *)
Definition holds_health (ks : keyspace) h : Prop :=
  exists m, at_key ks hkey = keep (RHash m) None /\
    default "healthy" (m !! "status") = health_value (h_status h) /\
    counter m "consec_ok" = Some (h_ok h) /\ counter m "consec_fail" = Some (h_fail h).

(** The capability's document, when it is registered. *)
Definition holds_doc (ks : keyspace) (o : option dict) : Prop :=
  match o with
  | None => at_key ks capkey = None
  | Some d => exists text, at_key ks capkey = Some (REntry (RStr text) None) /\
                           json_loads text = Some (VDict d)
  end.

Definition doc_updated (s : HealthStatus) (o o' : option dict) : Prop :=
  match o, o' with
  | None, None => True
  | Some d, Some d' =>
      same_fields (dict_set "health_status" (VStr (health_value s)) d) d' /\
      ∀ k, k <> "health_status" -> dict_get k d = Some (VList []) -> dict_get k d' = Some (VDict [])
  | _, _ => False
  end.

Lemma hkey_capkey_ne : hkey <> capkey.
Proof. unfold HEALTH_KEY, make_key. simpl. intros [=]. Qed.

Lemma run_health_number now m f n ks (k : Z -> lua string) :
  at_key ks hkey = keep (RHash m) None -> counter m f = Some n ->
  lua_run now (lua_bind (hget_number hkey f) k) ks = lua_run now (k n) (put hkey (keep (RHash m) None) ks).
Proof.
  intros Hk Hc. unfold hget_number. rewrite lua_run_bind, lua_run_call.
  rewrite (live_persistent _ _ _ _ Hk (persistent_keep _)), (act_HGET _ _ _ _ (hash_of_keep _ _)).
  unfold counter, tonumber in *. destruct (m !! f) as [s|]; simpl.
  - rewrite Hc. done.
  - injection Hc as <-. done.
Qed.

(** The hash after the script's [HSET]. *)
Definition health_hash (m : gmap string string) h : gmap string string :=
  <["consec_fail" := dec_of_Z (h_fail h)]>
    (<["consec_ok" := dec_of_Z (h_ok h)]> (<["status" := health_value (h_status h)]> m)).

Lemma holds_health_hash ks m h :
  at_key ks hkey = keep (RHash (health_hash m h)) None -> holds_health ks h.
Proof.
  intros Hk. eexists. split; [exact Hk|]. unfold health_hash, counter. simplify_map_eq.
  by rewrite !Z_of_dec_of_Z.
Qed.

Lemma put_same_key k e (ks : keyspace) : at_key ks k = e -> put k e ks = ks.
Proof.
  unfold at_key, put. intros <-. destruct (ks !! k) eqn:Ek; [by apply insert_id|by apply delete_id].
Qed.

(** One run of the script. *)
Lemma script_refines now ks h o ok :
  holds_health ks h -> holds_doc ks o ->
  let h' := check ut ht h ok in
  exists ks' o', lua_run now (lua_update_health hkey capkey ok ut ht) ks =
                   (ks', inr (health_value (h_status h'))) /\
    holds_health ks' h' /\ holds_doc ks' o' /\ doc_updated (h_status h') o o'.
Proof.
  intros (m & Hk & Hs & Ho & Hf) Hdoc h'. unfold lua_update_health.
  rewrite lua_run_call, (live_persistent _ _ _ _ Hk (persistent_keep _)),
    (act_HGET _ _ _ _ (hash_of_keep _ _)). cbv beta iota zeta. rewrite (put_same_key _ _ _ Hk), Hs.
  rewrite (run_health_number _ _ _ _ _ _ Hk Ho), (put_same_key _ _ _ Hk).
  rewrite (run_health_number _ _ _ _ _ _ Hk Hf), (put_same_key _ _ _ Hk).
  rewrite next_health_status.
  rewrite lua_run_call, (live_persistent _ _ _ _ Hk (persistent_keep _)).
  match goal with |- context [HSET ?l] =>
    destruct (act_HSET now _ _ l (hash_of_keep m None)) as [n ->] end.
  cbv beta iota. rewrite persistent_keep. simpl foldl.
  change (keep (RHash _) None) with (keep (RHash (health_hash m h')) None).
  change (next_status ut ht (h_status h) _ _) with (h_status h').
  set (ks1 := put hkey _ ks).
  assert (Hh1 : at_key ks1 hkey = keep (RHash (health_hash m h')) None) by apply at_put_eq.
  assert (Hc1 : at_key ks1 capkey = at_key ks capkey) by (apply at_put_ne, hkey_capkey_ne).
  clearbody ks1. rewrite lua_run_call.
  destruct o as [d|]; simpl in Hdoc.
  - destruct Hdoc as (text & Hc & Hj).
    rewrite (live_persistent _ _ _ (Some (REntry (RStr text) None))), act_GET_str by (done || by rewrite Hc1).
    cbv beta iota. rewrite (put_same_key _ _ _ (eq_trans Hc1 Hc)).
    destruct (edit_field text d "health_status" (VStr (health_value (h_status h'))) Hj eq_refl)
      as (t & d' & Ht & Hd' & Hsame).
    unfold lua_decode. rewrite Ht. change (lua_bind (LRet t) ?f) with (f t). cbv beta.
    rewrite lua_run_call, act_SET. cbv beta iota.
    eexists _, (Some d'). split; [done|]. split.
    { apply (holds_health_hash _ m). by rewrite at_put_ne by apply not_eq_sym, hkey_capkey_ne. }
    split; [eexists; by rewrite at_put_eq|]. split; [done|]. intros k Hne Hl.
    destruct (edit_empty text d t "health_status" k (VStr (health_value (h_status h'))) Hj Ht Hne Hl)
      as (d2 & Hd2 & He). rewrite Hd' in Hd2. by injection Hd2 as <-.
  - rewrite (live_persistent _ _ _ None), act_GET_none by (done || by rewrite Hc1).
    cbv beta iota. rewrite (put_same_key _ _ _ (eq_trans Hc1 Hdoc)).
    eexists _, None. split; [done|]. split; [by apply (holds_health_hash _ m)|].
    split; [|done]. simpl. by rewrite Hc1.
Qed.
End Refinement.

(** ** Sequences of checks *)

Section Theorems.
Context `{Cjson} {E : Env} (name : string) (ut ht : Z).

(** Health checks one after the other. *)
Fixpoint checks (oks : list bool) : M (list HealthStatus) :=
  match oks with
  | [] => ret []
  | ok :: oks' =>
      let* s := update_health name ok ut ht in
      let* ss := checks oks' in
      ret (s :: ss)
  end.

Lemma update_health_run (HE : quiet E) h o ok (w : world doc_services) :
  holds_health name (w_redis w) h -> holds_doc name (w_redis w) o ->
  let h' := check ut ht h ok in
  exists w' o', run (update_health name ok ut ht) w = (w', inr (h_status h')) /\
    holds_health name (w_redis w') h' /\ holds_doc name (w_redis w') o' /\
    doc_updated (h_status h') o o'.
Proof.
  intros Hh Hd h'.
  destruct (script_refines name ut ht (w_now w) (w_redis w) h o ok Hh Hd)
    as (ks' & o' & Hrun & Hh' & Hd' & Hu).
  eexists _, o'. split.
  - apply run_log_errors_as_ok. rewrite run_bind, run_script. destruct HE as [-> _].
    rewrite Hrun. cbv beta iota. by rewrite health_of_value_of.
  - by split.
Qed.

Lemma checks_run (HE : quiet E) oks : ∀ h o (w : world doc_services),
  holds_health name (w_redis w) h -> holds_doc name (w_redis w) o ->
  exists w' o', run (checks oks) w = (w', inr (statuses ut ht h oks)) /\
    holds_health name (w_redis w') (final ut ht h oks) /\ holds_doc name (w_redis w') o' /\
    (oks <> [] -> ∀ d', o' = Some d' ->
       dict_get "health_status" d' = Some (VStr (health_value (h_status (final ut ht h oks))))).
Proof.
  induction oks as [|ok oks IH]; intros h o w Hh Hd; [by exists w, o|].
  destruct (update_health_run HE h o ok w Hh Hd) as (w1 & o1 & Hr & Hh1 & Hd1 & Hu).
  destruct (IH (check ut ht h ok) o1 w1 Hh1 Hd1) as (w2 & o2 & Hr2 & Hh2 & Hd2 & Hs).
  exists w2, o2. simpl. rewrite run_bind, Hr. cbv beta iota. rewrite run_bind, Hr2.
  split; [done|]. split_and!; [done..|]. intros _ d' Hd'.
  destruct oks as [|ok' oks']; [|by apply Hs].
  simpl in Hr2. injection Hr2 as <-. subst o2.
  destruct o1 as [d1|]; simpl in Hd1, Hd2; [|by destruct Hd2 as (? & ? & _); congruence].
  destruct o as [d|]; [|done]. destruct Hd1 as (t1 & Ht1 & Hj1), Hd2 as (t2 & Ht2 & Hj2).
  assert (d' = d1) as -> by congruence. simpl in Hu |- *.
  destruct (proj1 Hu "health_status") as (_ & Hp & _). apply Hp; [done|]. by rewrite dict_get_set_eq.
Qed.
End Theorems.

(** C14: the health script refines the abstract machine with a status and two
    run counters: over any Redis server and any timing, when no call fails, a
    sequence of checks answers the machine's statuses (healthy, degraded after
    two failures in a row, unhealthy at the failure threshold, healthy again at
    the success threshold), and a registered document carries the last one. *)
Theorem health_refines (S : Services) (C : Cjson) (E : Env) name ut ht h o oks (w : world S) :
  quiet E -> holds_health name (ks_of w) h -> holds_doc name (ks_of w) o ->
  let '(w', r) := run (checks name ut ht oks) w in
  r = inr (statuses ut ht h oks) /\
  exists o', holds_doc name (ks_of w') o' /\
    (oks <> [] -> ∀ d', o' = Some d' ->
       dict_get "health_status" d' = Some (VStr (health_value (h_status (final ut ht h oks))))).
Proof.
  intros HE Hh Hd. destruct (checks_run name ut ht HE oks h o (wview w) Hh Hd) as (w' & o' & Hr & _ & Hd' & Hs).
  rewrite run_view in Hr. destruct (run (checks name ut ht oks) w) as [w2 r]; simpl in Hr.
  injection Hr as <- ->. split; [done|]. by exists o'.
Qed.

Lemma health_refines_witness :
  let '(w', r) := run (S := doc_services) (E := calm) (checks (H := table_cjson) "asr" 3 2
                    [false; false; false; true; true]) (world0 0) in
  r = inr [HEALTHY; DEGRADED; UNHEALTHY; UNHEALTHY; HEALTHY].
Proof.
  pose proof (health_refines doc_services table_cjson calm "asr" 3 2 (Health HEALTHY 0 0) None
    [false; false; false; true; true] (world0 0) calm_quiet) as T.
  destruct (run _ _) as [w' r]. apply T; [|reflexivity].
  exists ∅. split_and!; reflexivity.
Defined.

Section Filter.
Context `{Cjson} (model_validate : value -> exn + CapabilityInfo).

(** The health field of a validated document is the one it was given. *)
Context (validate_health : ∀ d c s,
  model_validate (VDict d) = inr c -> dict_get "health_status" d = Some (VStr (health_value s)) ->
  health_status c = s).

(** Reading the stored document. *)
Lemma get2_run {E : Env} name o (w : world doc_services) :
  quiet E -> holds_doc name (w_redis w) o ->
  exists w', run (cap_get2 model_validate GLOBAL_TENANT name) w =
  (w', match o with
       | None => inr None
       | Some d => match model_validate (VDict d) with inr c => inr (Some c) | inl e => inl e end
       end).
Proof.
  intros HE Hd.
  assert (exists w', run (reg_get cap_registry GLOBAL_TENANT name) w =
                     (w', inr (default VNone (VDict <$> o)))) as [w' Hr].
  { destruct o as [d|]; simpl in Hd.
    - destruct Hd as (text & Hk & Hj). eexists. by rewrite (run_reg_get HE _ _ _ _ _ Hk), Hj.
    - eexists. by rewrite (run_reg_get_none HE _ _ _ _ Hd). }
  unfold cap_get2. rewrite run_bind, Hr. destruct o as [d|]; simpl; [|by eexists].
  rewrite run_bind. destruct (model_validate (VDict d)); by eexists.
Qed.

(** [find_capability] returns what [get] does, an unhealthy capability apart. *)
Lemma find_run {E : Env} name (w : world doc_services) c :
  (run (find_capability model_validate name) w).2 = inr (Some c) ->
  health_status c <> UNHEALTHY /\
  (run (cap_get2 model_validate GLOBAL_TENANT name) w).2 = inr (Some c).
Proof.
  unfold find_capability, get_capability, log_errors_none.
  rewrite run_except, run_bind, run_except.
  destruct (run (cap_get2 model_validate GLOBAL_TENANT name) w) as [w1 [x|[c'|]]]; cbv beta iota.
  - destruct (is_exception x) eqn:Ex; [destruct (passes_through x) eqn:Ep|]; simpl;
      rewrite ?Ex, ?Ep; done.
  - destruct (decide (health_status c' = UNHEALTHY)); [done|]. simpl. naive_solver.
  - done.
Qed.

(** A capability that fails its checks is not offered.  After any history
    followed by at least [max 3 ut] failed checks, [find_capability] does not
    return the capability, whatever its document. *)
Theorem unhealthy_not_found (S : Services) (E : Env) name ut ht h o oks n (w : world S) :
  quiet E -> 0 < ht -> 0 <= h_ok h -> 0 <= h_fail h -> Z.max 3 ut <= Z.of_nat n ->
  holds_health name (ks_of w) h -> holds_doc name (ks_of w) o ->
  ∀ c, (run (find_capability model_validate name)
          (run (checks name ut ht (oks ++ repeat false n)) w).1).2 <> inr (Some c).
Proof.
  intros HE Hht Ho Hf Hn Hh Hd c.
  destruct (checks_run name ut ht HE (oks ++ repeat false n) h o (wview w) Hh Hd)
    as (w' & o' & Hr & _ & Hd' & Hs).
  rewrite run_view in Hr. destruct (run (checks _ _ _ _) w) as [w2 r]; simpl in Hr |- *.
  injection Hr as <- ->.
  assert (Hst : h_status (final ut ht h (oks ++ repeat false n)) = UNHEALTHY).
  { unfold final at 1. rewrite foldl_app. fold (final ut ht h oks).
    change (foldl (check ut ht) ?x ?y) with (final ut ht x y).
    assert (0 <= h_fail (final ut ht h oks)) as Hpos.
    { clear -Hf Ho. unfold final. revert h Hf Ho. induction oks as [|[] oks IH]; intros h Hf Ho; simpl;
        [done|apply IH; simpl; lia..]. }
    apply failing_from; [done..|]. destruct (h_status (final ut ht h oks)); lia. }
  rewrite Hst in Hs.
  assert (Hne : oks ++ repeat false n <> []).
  { destruct n; [lia|]. by destruct oks. }
  specialize (Hs Hne).
  intros Hfind.
  pose proof (run_view (find_capability model_validate name) w2) as Hv.
  assert (Hfind' : (run (find_capability model_validate name) (wview w2)).2 = inr (Some c))
    by (rewrite Hv; done).
  apply find_run in Hfind' as [Hnot Hget].
  destruct (get2_run name o' (wview w2) HE Hd') as [w3 Hg]. rewrite Hg in Hget. simpl in Hget.
  destruct o' as [d|]; [|done]. destruct (model_validate (VDict d)) as [x|c'] eqn:Em; [done|].
  injection Hget as ->. apply Hnot. by apply (validate_health d c UNHEALTHY Em), Hs.
Qed.

(** A list field that holds an object is refused. *)
Context (validate_tags : ∀ d x,
  dict_get "tags" d = Some (VDict x) -> exists m, model_validate (VDict d) = inl (Exn ValueError m)).

(** A registered capability without tags can no longer be read after its
    first health check: the script writes the empty list back as an empty
    object, which validation refuses, so [get_capability] raises and
    [list_all] skips it. *)
Theorem health_check_loses_untagged (S : Services) (E : Env) name ut ht h d ok (w : world S) :
  quiet E -> holds_health name (ks_of w) h -> holds_doc name (ks_of w) (Some d) ->
  dict_get "tags" d = Some (VList []) ->
  let w1 := (run (update_health name ok ut ht) w).1 in
  (exists m, (run (get_capability model_validate name) w1).2 = inl (Exn ValueError m)) /\
  parse_cap model_validate (str_at (w_now w1) (ks_of w1) (make_key cap_registry GLOBAL_TENANT name)) = None.
Proof.
  intros HE Hh Hd Ht w1.
  destruct (update_health_run name ut ht HE h (Some d) ok (wview w) Hh Hd)
    as (w' & o' & Hr & _ & Hd' & Hu).
  rewrite run_view in Hr. injection Hr as <- _. fold w1 in Hd'.
  destruct o' as [d'|]; [|done]. destruct Hu as [_ Hu].
  destruct (validate_tags d' [] (Hu "tags" ltac:(done) Ht)) as [m Hm].
  split.
  - exists m. destruct (get2_run name (Some d') (wview w1) HE Hd') as [w3 Hg]. rewrite Hm in Hg.
    pose proof (run_view (get_capability model_validate name) w1) as Hv.
    apply (f_equal snd) in Hv. simpl in Hv. rewrite <-Hv.
    unfold get_capability, log_errors_none. by rewrite run_except, Hg.
  - destruct Hd' as (text & Hk & Hj). unfold str_at.
    change (rview (w_redis w1)) with (ks_of w1) in Hk.
    rewrite (live_persistent _ (ks_of w1) _ _ Hk eq_refl). simpl.
    destruct text; [done|]. by rewrite Hj, Hm.
Qed.
End Filter.

(** A validator that reads the name, the status and the tags. *)
Definition demo_validate (v : value) : exn + CapabilityInfo :=
  match v with
  | VDict d =>
      match dict_get "health_status" d, dict_get "tags" d with
      | Some (VStr s), Some (VList l) =>
          match health_of_value s with
          | inl e => inl e
          | inr st =>
            inr {| capability_name := "asr"; capability_type := RAY_ACTOR; cap_cluster_id := "";
                   version := "1.0.0"; actor_config := None; flask_config := None;
                   health_check := default_health_check; health_status := st; tags := [];
                   cap_tenant_id := ""; description := "" |}
          end
      | _, _ => inl (Exn ValueError "1 validation error for CapabilityInfo")
      end
  | _ => inl (Exn ValueError "1 validation error for CapabilityInfo")
  end.

Lemma demo_validate_health d c s :
  demo_validate (VDict d) = inr c -> dict_get "health_status" d = Some (VStr (health_value s)) ->
  health_status c = s.
Proof.
  unfold demo_validate. intros Hv Hs. rewrite Hs in Hv. destruct (dict_get "tags" d) as [[]|]; try done.
  rewrite health_of_value_of in Hv. simpl in Hv. by injection Hv as <-.
Qed.

Lemma demo_validate_tags d x :
  dict_get "tags" d = Some (VDict x) -> exists m, demo_validate (VDict d) = inl (Exn ValueError m).
Proof.
  unfold demo_validate. intros ->. eexists. by destruct (dict_get "health_status" d) as [[]|].
Qed.

Definition demo_cap (tgs : list string) : CapabilityInfo :=
  {| capability_name := "asr"; capability_type := RAY_ACTOR; cap_cluster_id := ""; version := "1.0.0";
     actor_config := None; flask_config := None; health_check := default_health_check;
     health_status := HEALTHY; tags := tgs; cap_tenant_id := ""; description := "" |}.

(** The world after the registration of [demo_cap]. *)
Definition w_registered (tgs : list string) : world doc_services :=
  (run (S := doc_services) (E := calm) (cap_register (demo_cap tgs)) (world0 0)).1.

Lemma w_registered_doc tgs : holds_doc "asr" (ks_of (w_registered tgs)) (Some (capability_dump (demo_cap tgs))).
Proof. eexists. split; [reflexivity|apply loads_orjson_dumps]. Qed.

Lemma w_registered_health tgs : holds_health "asr" (ks_of (w_registered tgs)) (Health HEALTHY 0 0).
Proof.
  exists (list_to_map [("status", "healthy"); ("consec_ok", "0"); ("consec_fail", "0")]).
  split_and!; [|reflexivity..]. vm_compute. reflexivity.
Qed.

Lemma unhealthy_not_found_witness :
  (run (S := doc_services) (E := calm) (find_capability demo_validate "asr")
     (w_registered ["gpu"])).2 = inr (Some (demo_cap [])) /\
  (run (S := doc_services) (E := calm) (find_capability demo_validate "asr")
     (run (S := doc_services) (E := calm) (checks (H := table_cjson) "asr" 3 2 ([true] ++ repeat false 3))
        (w_registered ["gpu"])).1).2 <> inr (Some (demo_cap [])).
Proof.
  split; [vm_compute; reflexivity|].
  apply (unhealthy_not_found (H := table_cjson) demo_validate demo_validate_health doc_services calm
    "asr" 3 2 (Health HEALTHY 0 0) (Some (capability_dump (demo_cap ["gpu"]))) [true] 3
    (w_registered ["gpu"])); try (simpl; lia).
  - apply calm_quiet.
  - apply w_registered_health.
  - apply w_registered_doc.
Defined.

Lemma health_check_loses_untagged_witness :
  exists m, (run (S := doc_services) (E := calm) (get_capability demo_validate "asr")
     (run (S := doc_services) (E := calm) (update_health (H := table_cjson) "asr" true 3 2)
        (w_registered [])).1).2 = inl (Exn ValueError m).
Proof.
  apply (health_check_loses_untagged (H := table_cjson) demo_validate demo_validate_tags doc_services
    calm "asr" 3 2 (Health HEALTHY 0 0) (capability_dump (demo_cap [])) true (w_registered [])).
  - apply calm_quiet.
  - apply w_registered_health.
  - apply w_registered_doc.
  - reflexivity.
Defined.
