(* ===== verification/ClusterRegistry.v ===== *)
(** * Cluster registry

    [src/models/cluster.py] and [src/platform/cluster_registry.py]: the cluster
    documents, the flat and nested form of their resources, and the choice of a
    cluster for a task.  Pydantic's validation of plain fields is a parameter;
    the validators the source writes itself ([from_flat], [to_flat]) are
    definitions. *)

From Stdlib Require Import Ascii.
From stdpp Require Import base gmap strings list.
From S2P Require Import Prelude PyValue Json Redis TaskModel Tables Effects ErrorHandling.
From S2P Require Import Cjson Registry PySort CapabilityRegistry.

Open Scope Z_scope.

(** ** Models *)

Inductive ClusterType := ONLINE_INFERENCE | OFFLINE_GENERATION | TRAINING | DATA_PROCESSING.

Definition cluster_type_value (t : ClusterType) : string :=
  match t with
  | ONLINE_INFERENCE => "online_inference" | OFFLINE_GENERATION => "offline_generation"
  | TRAINING => "training" | DATA_PROCESSING => "data_processing"
  end.

Inductive ClusterStatus := ACTIVE | DRAINING | OFFLINE.

#[global] Instance ClusterStatus_eq_dec : EqDecision ClusterStatus.
Proof. solve_decision. Defined.

Definition cluster_status_value (s : ClusterStatus) : string :=
  match s with ACTIVE => "active" | DRAINING => "draining" | OFFLINE => "offline" end.

(** Memory sizes are thousandths of a gigabyte. *)
Record PlannedResources := {
  fixed_gpus : Z;
  tidal_gpus : Z;
  gpu_types : list (string * Z);
  total_cpus : Z;
  total_memory_gb : Z
}.

Definition planned_dump (p : PlannedResources) : dict :=
  [("fixed_gpus", VInt (fixed_gpus p)); ("tidal_gpus", VInt (tidal_gpus p));
   ("gpu_types", VDict ((λ kv, (kv.1, VInt kv.2)) <$> gpu_types p));
   ("total_cpus", VInt (total_cpus p)); ("total_memory_gb", VFloat (total_memory_gb p))].

Record ObservedResources := {
  total_gpus : Z;
  available_gpus : Z;
  available_cpus : Z;
  available_memory_gb : Z
}.

Definition observed_dump (o : ObservedResources) : dict :=
  [("total_gpus", VInt (total_gpus o)); ("available_gpus", VInt (available_gpus o));
   ("available_cpus", VInt (available_cpus o));
   ("available_memory_gb", VFloat (available_memory_gb o))].

Record ClusterResources := {
  plan : PlannedResources;
  observed : ObservedResources
}.

Definition plan_keys : list string :=
  ["fixed_gpus"; "tidal_gpus"; "gpu_types"; "total_cpus"; "total_memory_gb"].
Definition obs_keys : list string :=
  ["total_gpus"; "available_gpus"; "available_cpus"; "available_memory_gb"].

(** [{k: v for k, v in data.items() if k in keys}] *)
Definition restrict (keys : list string) (data : dict) : dict := filter (λ kv, kv.1 ∈ keys) data.

Definition from_flat (data : value) : value :=
  match data with
  | VDict d =>
      if dict_has "plan" d || dict_has "observed" d then data
      else VDict [("plan", VDict (restrict plan_keys d)); ("observed", VDict (restrict obs_keys d))]
  | _ => data
  end.

Definition to_flat (r : ClusterResources) : dict :=
  dict_update (dict_update [] (planned_dump (plan r))) (observed_dump (observed r)).

Record ClusterInfo := {
  cluster_id : string;
  cl_tenant_id : string;
  cluster_type : ClusterType;
  ray_head_address : string;
  resources : ClusterResources;
  capabilities : list string;
  status : ClusterStatus;
  labels : list (string * string)
}.

Definition cluster_dump (c : ClusterInfo) : dict :=
  [("cluster_id", VStr (cluster_id c)); ("tenant_id", VStr (cl_tenant_id c));
   ("cluster_type", VStr (cluster_type_value (cluster_type c)));
   ("ray_head_address", VStr (ray_head_address c)); ("resources", VDict (to_flat (resources c)));
   ("capabilities", VList (VStr <$> capabilities c));
   ("status", VStr (cluster_status_value (status c)));
   ("labels", VDict ((λ kv, (kv.1, VStr kv.2)) <$> labels c))].

(** ** Validation of the resources *)

Section Resources.
Context (validate_planned : value -> exn + PlannedResources)
        (validate_observed : value -> exn + ObservedResources).

(** Pydantic's field validation after [from_flat]; a missing part takes its
    default, an empty model. *)
Definition validate_resources (data : value) : exn + ClusterResources :=
  match from_flat data with
  | VDict d =>
      match validate_planned (dict_get_or "plan" (VDict []) d) with
      | inl e => inl e
      | inr p =>
          match validate_observed (dict_get_or "observed" (VDict []) d) with
          | inl e => inl e
          | inr o => inr {| plan := p; observed := o |}
          end
      end
  | _ => inl (Exn ValueError "Input should be a valid dictionary or instance of ClusterResources")
  end.

(** A model reads back what it dumps. *)
Context (planned_ok : ∀ p, validate_planned (VDict (planned_dump p)) = inr p)
        (observed_ok : ∀ o, validate_observed (VDict (observed_dump o)) = inr o).

Lemma to_flat_app r : to_flat r = planned_dump (plan r) ++ observed_dump (observed r).
Proof. reflexivity. Qed.

Lemma from_flat_layers p o :
  from_flat (VDict (planned_dump p ++ observed_dump o)) =
  VDict [("plan", VDict (planned_dump p)); ("observed", VDict (observed_dump o))].
Proof. reflexivity. Qed.

(** The resources of a cluster survive serialisation: the flat document
    [to_flat] writes is split into the same planned and observed layers when it
    is read, and the nested form is read too. *)
Theorem resources_roundtrip r :
  validate_resources (VDict (to_flat r)) = inr r /\
  validate_resources (VDict [("plan", VDict (planned_dump (plan r)));
                             ("observed", VDict (observed_dump (observed r)))]) = inr r.
Proof.
  destruct r as [p o]. unfold validate_resources. rewrite to_flat_app, from_flat_layers. split.
  - change (dict_get_or "plan" _ _) with (VDict (planned_dump p)).
    change (dict_get_or "observed" _ _) with (VDict (observed_dump o)).
    by rewrite planned_ok, observed_ok.
  - change (from_flat ?x) with x. cbv iota.
    change (dict_get_or "plan" _ _) with (VDict (planned_dump p)).
    change (dict_get_or "observed" _ _) with (VDict (observed_dump o)).
    by rewrite planned_ok, observed_ok.
Qed.
End Resources.

(** ** Keys and the update script *)

Definition CLUSTER_INDEX : string := "clusters:all".
Definition cluster_registry : BaseRedisRegistry := BaseRedisRegistry_init "cluster" 0.
Definition cluster_key (cid : string) : string := make_key cluster_registry GLOBAL_TENANT cid.

Section Script.
Context `{Cjson}.

(** The [fields] argument is a JSON text the caller made with [orjson]; an error
    reply [{err=...}] raises in the client. *)
Definition lua_update_cluster (key fields_text : string) : lua string :=
  (let+ fields := lua_decode fields_text in
   let+ raw := call key GET in
   match raw with
   | None => LFail (Exn ResponseError "not_found")
   | Some text =>
       let+ obj := lua_decode text in
       do+ call key (SET (cjson_encode (dict_update obj fields)) None false) in
       LRet "ok"
   end)%lua.
End Script.

(** ** Choice of a cluster *)

(** [capability and capability not in c.capabilities] and the like skip. *)
Definition suitable (required_gpus : Z) (capability tenant_id : option string) (c : ClusterInfo) : bool :=
  bool_decide (status c = ACTIVE) &&
  negb ((required_gpus >? 0) && (available_gpus (observed (resources c)) <? required_gpus)) &&
  match capability with
  | Some cap => bool_decide (cap = "") || bool_decide (cap ∈ capabilities c)
  | None => true
  end &&
  match tenant_id with
  | Some t => bool_decide (t = "") || bool_decide (cl_tenant_id c ∈ [""; t])
  | None => true
  end.

(** The tuples [(available_gpus, available_cpus)] in lexicographic order. *)
Definition better (a b : ClusterInfo) : bool :=
  let oa := observed (resources a) in
  let ob := observed (resources b) in
  (available_gpus ob <? available_gpus oa) ||
  (available_gpus ob =? available_gpus oa) && (available_cpus ob <=? available_cpus oa).

Definition select_from (required_gpus : Z) (capability tenant_id : option string)
    (clusters : list ClusterInfo) : option ClusterInfo :=
  head (sort_desc better (filter (λ c, Is_true (suitable required_gpus capability tenant_id c)) clusters)).

Section Methods.
Context `{Cjson} (model_validate : value -> exn + ClusterInfo).

Definition cluster_register (c : ClusterInfo) : M unit :=
  log_errors_as ExternalServiceError
    (do* reg_set cluster_registry GLOBAL_TENANT (cluster_id c) (VDict (cluster_dump c)) in
     do* redis CLUSTER_INDEX (SADD [cluster_id c]) in
     ret tt).

Definition cluster_get2 (tenant item_id : string) : M (option ClusterInfo) :=
  let* data := reg_get cluster_registry tenant item_id in
  match data with
  | VNone => ret None
  | _ => let* c := of_sum (model_validate data) in ret (Some c)
  end.

Definition get_cluster (cid : string) : M (option ClusterInfo) :=
  log_errors_none None (cluster_get2 GLOBAL_TENANT cid).

Definition cluster_get (cid_or_tenant : string) (item_id : option string) : M (option ClusterInfo) :=
  match item_id with
  | None => get_cluster cid_or_tenant
  | Some i => cluster_get2 cid_or_tenant i
  end.

Definition cluster_list_all : M (option (list ClusterInfo)) :=
  log_errors_none None
    (let* ids := redis CLUSTER_INDEX SMEMBERS in
     let* cs := fold_m (elements ids) (λ acc cid,
                  let* c := get_cluster cid in
                  ret (acc ++ option_list c)) [] in
     ret (Some cs)).

Definition cluster_unregister (cid : string) : M unit :=
  log_errors_as ExternalServiceError
    (do* reg_delete cluster_registry GLOBAL_TENANT cid in
     do* redis CLUSTER_INDEX (SREM cid) in
     ret tt).

Definition update_resources (cid : string) (o : ObservedResources) : M unit :=
  log_errors_as ExternalServiceError
    (do* script (lua_update_cluster (cluster_key cid) (orjson_dumps (VDict (observed_dump o)))) in
     ret tt).

Definition update_status (cid : string) (s : ClusterStatus) : M unit :=
  log_errors_as ExternalServiceError
    (do* script (lua_update_cluster (cluster_key cid)
                   (orjson_dumps (VDict [("status", VStr (cluster_status_value s))]))) in
     ret tt).

Definition not_iterable : exn := Exn TypeError "'NoneType' object is not iterable".

Definition select_cluster (required_gpus : Z) (capability tenant_id : option string) :
    M (option ClusterInfo) :=
  log_errors_none None
    (let* clusters := cluster_list_all in
     match clusters with
     | None => raise not_iterable
     | Some cs => ret (select_from required_gpus capability tenant_id cs)
     end).
End Methods.

(** ** The chosen cluster is a best suitable one *)

Lemma better_total a b : better a b = false -> better b a = true.
Proof.
  unfold better. intros Hf%orb_false_elim. destruct Hf as [H1 H2]. apply orb_true_iff.
  apply andb_false_iff in H2. bool_to_prop. destruct H2; bool_to_prop.
  - left. apply Z.ltb_lt. lia.
  - destruct (decide (available_gpus (observed (resources a)) < available_gpus (observed (resources b)))).
    + left. by apply Z.ltb_lt.
    + right. apply andb_true_iff. split; [apply Z.eqb_eq|apply Z.leb_le]; lia.
Qed.

Lemma better_trans a b c : better a b = true -> better b c = true -> better a c = true.
Proof.
  unfold better. intros [H1|H1]%orb_true_iff [H2|H2]%orb_true_iff; bool_to_prop; apply orb_true_iff.
  - left. apply Z.ltb_lt. lia.
  - left. apply Z.ltb_lt. lia.
  - left. apply Z.ltb_lt. lia.
  - right. apply andb_true_iff. split; [apply Z.eqb_eq|apply Z.leb_le]; lia.
Qed.

(** What [select_from] promises of a list of clusters. *)
Definition best_of (rg : Z) (cap ten : option string) (cs : list ClusterInfo) (r : option ClusterInfo) : Prop :=
  match r with
  | Some c => c ∈ cs /\ suitable rg cap ten c = true /\
              ∀ c', c' ∈ cs -> suitable rg cap ten c' = true -> better c c' = true
  | None => ∀ c, c ∈ cs -> suitable rg cap ten c = false
  end.

Lemma select_from_best rg cap ten cs : best_of rg cap ten cs (select_from rg cap ten cs).
Proof.
  unfold select_from, best_of.
  assert (Hf : ∀ c, c ∈ filter (λ c, Is_true (suitable rg cap ten c)) cs <->
               suitable rg cap ten c = true /\ c ∈ cs)
    by (intros c; rewrite list_elem_of_filter, Is_true_true; done).
  destruct (sort_desc better _) as [|c l] eqn:Es; simpl.
  - apply sort_desc_nil in Es. intros c Hc. apply not_true_iff_false. intros Hs.
    assert (c ∈ filter (λ c, Is_true (suitable rg cap ten c)) cs) as Hin by by apply Hf.
    rewrite Es in Hin. by apply elem_of_nil in Hin.
  - apply (sort_desc_head better better_total better_trans) in Es as [Hin Hmax].
    apply Hf in Hin as [Hs Hc]. split_and!; [done..|]. intros c' Hc' Hs'. apply Hmax. by apply Hf.
Qed.

Section Selection.
Context `{Cjson} (model_validate : value -> exn + ClusterInfo).

(** A stored cluster. *)
Definition stored (ks : keyspace) (cid : string) (c : ClusterInfo) : Prop :=
  exists text d, at_key ks (cluster_key cid) = Some (REntry (RStr text) None) /\
    json_loads text = Some (VDict d) /\ model_validate (VDict d) = inr c.

Lemma get_cluster_run {E : Env} (HE : quiet E) cid c (w : world doc_services) :
  stored (w_redis w) cid c ->
  exists w', run (get_cluster model_validate cid) w = (w', inr (Some c)) /\
             (∀ k, at_key (w_redis w') k = at_key (w_redis w) k).
Proof.
  intros (text & d & Hk & Hj & Hv).
  eexists. split.
  - apply run_log_errors_none_ok. unfold cluster_get2.
    rewrite run_bind, (run_reg_get HE _ _ _ _ _ Hk), Hj. cbn [default from_option id].
    rewrite run_bind, Hv. reflexivity.
  - intros k. simpl. by apply at_put_same.
Qed.

Lemma list_loop {E : Env} (HE : quiet E) ids : ∀ (cl : string -> ClusterInfo) acc (w : world doc_services),
  (∀ cid, cid ∈ ids -> stored (w_redis w) cid (cl cid)) ->
  exists w', run (fold_m ids (λ acc cid,
                    let* c := get_cluster model_validate cid in ret (acc ++ option_list c)) acc) w =
             (w', inr (acc ++ (cl <$> ids))).
Proof.
  induction ids as [|cid ids IH]; intros cl acc w Hs; simpl.
  { exists w. by rewrite app_nil_r. }
  destruct (get_cluster_run HE cid (cl cid) w (Hs cid ltac:(by left))) as (w1 & Hr & Hsame).
  rewrite run_bind, run_bind, Hr. cbv beta iota. rewrite run_ret. cbv beta iota.
  destruct (IH cl (acc ++ option_list (Some (cl cid))) w1) as (w2 & Hr2).
  - intros c Hc. destruct (Hs c ltac:(by right)) as (text & d & Hk & Hrest).
    exists text, d. by rewrite Hsame.
  - exists w2. rewrite Hr2. by rewrite <-app_assoc.
Qed.
End Selection.

(** Over any Redis server and any timing, when no call fails,
    [select_cluster] returns a registered cluster that is active, has the GPUs
    asked for, offers the capability and is open to the tenant, and among those
    one with the most available GPUs, then CPUs; it returns none only when no
    registered cluster qualifies. *)
Theorem select_cluster_best (S : Services) (E : Env) (model_validate : value -> exn + ClusterInfo)
    rg cap ten ids cl (w : world S) :
  quiet E -> at_key (ks_of w) CLUSTER_INDEX = keep (RSet ids) None ->
  (∀ cid, cid ∈ ids -> stored model_validate (ks_of w) cid (cl cid)) ->
  exists r, (run (select_cluster model_validate rg cap ten) w).2 = inr r /\
            best_of rg cap ten (cl <$> elements ids) r.
Proof.
  intros HE Hi Hs. exists (select_from rg cap ten (cl <$> elements ids)).
  split; [|apply select_from_best].
  pose proof (run_view (select_cluster model_validate rg cap ten) w) as Hv.
  apply (f_equal snd) in Hv. simpl in Hv. rewrite <-Hv. clear Hv.
  pose proof (run_SMEMBERS HE _ _ (wview w) Hi) as Hm.
  destruct (list_loop model_validate HE (elements ids) cl []
    (after (put CLUSTER_INDEX (keep (RSet ids) None) (w_redis (wview w))) (w_db (wview w)) (wview w)))
    as (w2 & Hr2).
  { intros cid Hc%elem_of_elements. destruct (Hs cid Hc) as (text & d & Hk & Hrest).
    exists text, d. simpl. rewrite at_put_same; [done|]. exact Hi. }
  assert (Hl : run (cluster_list_all model_validate) (wview w) =
               (w2, inr (Some (cl <$> elements ids)))).
  { apply run_log_errors_none_ok. by rewrite run_bind, Hm; cbv beta iota; rewrite run_bind, Hr2. }
  unfold select_cluster. erewrite run_log_errors_none_ok; [reflexivity|].
  by rewrite run_bind, Hl.
Qed.

(** [update_resources] writes fields beside [resources], the one the selection
    reads: the table it stores has the [resources] of the table it read. *)
Lemma update_resources_keeps_resources (C : Cjson) o fields obj :
  cjson_decode (orjson_dumps (VDict (observed_dump o))) = Some fields ->
  dict_get "resources" (dict_update obj fields) = dict_get "resources" obj.
Proof.
  intros Hf. rewrite dict_get_update.
  destruct (cjson_decode_ok _ _ (loads_orjson_dumps (VDict (observed_dump o)))) as (t & Ht & Hsame).
  rewrite Hf in Ht. injection Ht as <-. destruct (Hsame "resources") as [[Hn _] _].
  by rewrite Hn.
Qed.

Definition demo_cluster (id : string) (gpus : Z) : ClusterInfo :=
  {| cluster_id := id; cl_tenant_id := ""; cluster_type := TRAINING; ray_head_address := "";
     resources := {| plan := {| fixed_gpus := 0; tidal_gpus := 0; gpu_types := []; total_cpus := 0;
                                total_memory_gb := 0 |};
                     observed := {| total_gpus := gpus; available_gpus := gpus; available_cpus := 1;
                                    available_memory_gb := 0 |} |};
     capabilities := ["asr"]; status := ACTIVE; labels := [] |}.

(** A validator that reads the identifier and the available GPUs. *)
Definition demo_cluster_validate (v : value) : exn + ClusterInfo :=
  match v with
  | VDict d =>
      match dict_get "cluster_id" d, dict_get "resources" d with
      | Some (VStr id), Some (VDict r) =>
          match dict_get "available_gpus" r with
          | Some (VInt g) => inr (demo_cluster id g)
          | _ => inl (Exn ValueError "resources")
          end
      | _, _ => inl (Exn ValueError "cluster_id")
      end
  | _ => inl (Exn ValueError "1 validation error for ClusterInfo")
  end.

Definition w_clusters : world doc_services :=
  (run (S := doc_services) (E := calm)
     (do* cluster_register (demo_cluster "a" 2) in cluster_register (demo_cluster "b" 8)) (world0 0)).1.

Lemma select_cluster_best_witness :
  exists r, (run (S := doc_services) (E := calm)
               (select_cluster demo_cluster_validate 1 (Some "asr") None) w_clusters).2 = inr r /\
            r = Some (demo_cluster "b" 8) /\
            best_of 1 (Some "asr") None
              ((λ id, demo_cluster id (if decide (id = "a") then 2 else 8)) <$> elements ({["a"; "b"]} : gset string)) r.
Proof.
  destruct (select_cluster_best doc_services calm demo_cluster_validate 1 (Some "asr") None {["a"; "b"]}
    (λ id, demo_cluster id (if decide (id = "a") then 2 else 8)) w_clusters calm_quiet) as (r & Hr & Hb).
  - vm_compute. reflexivity.
  - intros cid [->%elem_of_singleton | ->%elem_of_singleton]%elem_of_union.
    + eexists _, (cluster_dump (demo_cluster "a" 2)). split; [vm_compute; reflexivity|].
      split; [vm_compute; reflexivity|reflexivity].
    + eexists _, (cluster_dump (demo_cluster "b" 8)). split; [vm_compute; reflexivity|].
      split; [vm_compute; reflexivity|reflexivity].
  - exists r. split; [exact Hr|]. split; [|exact Hb]. vm_compute in Hr. injection Hr as <-. reflexivity.
Defined.

Lemma resources_roundtrip_witness : exists vp vo,
  (∀ p, vp (VDict (planned_dump p)) = inr p) /\ (∀ o, vo (VDict (observed_dump o)) = inr o) /\
  validate_resources vp vo (VDict (to_flat (resources (demo_cluster "a" 2)))) =
    inr (resources (demo_cluster "a" 2)).
Proof.
  set (vp := λ v : value, match v with
    | VDict d => match dict_get "fixed_gpus" d, dict_get "tidal_gpus" d, dict_get "gpu_types" d,
                       dict_get "total_cpus" d, dict_get "total_memory_gb" d with
        | Some (VInt a), Some (VInt b), Some (VDict g), Some (VInt c), Some (VFloat m) =>
            inr {| fixed_gpus := a; tidal_gpus := b;
                   gpu_types := (λ kv, (kv.1, match kv.2 with VInt n => n | _ => 0 end)) <$> g;
                   total_cpus := c; total_memory_gb := m |}
        | _, _, _, _, _ => inl (Exn ValueError "") end
    | _ => inl (Exn ValueError "") end).
  set (vo := λ v : value, match v with
    | VDict d => match dict_get "total_gpus" d, dict_get "available_gpus" d,
                       dict_get "available_cpus" d, dict_get "available_memory_gb" d with
        | Some (VInt a), Some (VInt b), Some (VInt c), Some (VFloat m) =>
            inr {| total_gpus := a; available_gpus := b; available_cpus := c; available_memory_gb := m |}
        | _, _, _, _ => inl (Exn ValueError "") end
    | _ => inl (Exn ValueError "") end).
  assert (Hp : ∀ p, vp (VDict (planned_dump p)) = inr p).
  { intros [a b g c m]. cbn. do 2 f_equal. induction g as [|[k n] g IH]; [done|].
    cbn. f_equal. exact IH. }
  assert (Ho : ∀ o, vo (VDict (observed_dump o)) = inr o) by by intros [].
  exists vp, vo. split; [exact Hp|]. split; [exact Ho|].
  apply (resources_roundtrip vp vo Hp Ho).
Defined.
