(* ===== verification/NodeRegistry.v ===== *)
(** * Node registry

    [src/models/node.py] and [src/platform/node_registry.py]: machine nodes, the
    reservation script, greedy selection by GPUs, heartbeats and dead-node
    detection.  A stored node reads back as a [NodeInfo] when Pydantic (the
    parameter [model_validate]) accepts it and as the raw dictionary otherwise;
    the two support different operations, which the model keeps apart. *)

From Stdlib Require Import Ascii.
From stdpp Require Import base gmap strings list sorting.
From S2P Require Import Prelude PyValue Json Redis TaskModel Tables Effects ErrorHandling.
From S2P Require Import Cjson Registry PySort CapabilityRegistry ClusterRegistry.

Open Scope Z_scope.

(** ** Models *)

Inductive NodeState := N_IDLE | N_RESERVED | N_JOINING | N_JOINED | N_DRAINING | N_OFFLINE.

#[global] Instance NodeState_eq_dec : EqDecision NodeState.
Proof. solve_decision. Defined.

Definition node_state_value (s : NodeState) : string :=
  match s with
  | N_IDLE => "idle" | N_RESERVED => "reserved" | N_JOINING => "joining"
  | N_JOINED => "joined" | N_DRAINING => "draining" | N_OFFLINE => "offline"
  end.

Record GPUInfo := {
  gpu_index : Z;
  gpu_type : string;
  memory_total_mb : Z;
  memory_used_mb : Z
}.

Definition gpu_dump (g : GPUInfo) : dict :=
  [("gpu_index", VInt (gpu_index g)); ("gpu_type", VStr (gpu_type g));
   ("memory_total_mb", VInt (memory_total_mb g)); ("memory_used_mb", VInt (memory_used_mb g))].

(** Floats (Ray resources, times) are thousandths. *)
Record NodeResources := {
  nr_total_cpus : Z;
  nr_available_cpus : Z;
  nr_total_memory_mb : Z;
  nr_available_memory_mb : Z;
  nr_total_gpus : Z;
  nr_available_gpus : Z;
  gpu_list : list GPUInfo;
  ray_node_id : string;
  ray_resources_total : list (string * Z);
  ray_resources_available : list (string * Z);
  ray_sync_time : Z
}.

Definition float_dict (d : list (string * Z)) : value := VDict ((λ kv, (kv.1, VFloat kv.2)) <$> d).

Definition node_resources_dump (r : NodeResources) : dict :=
  [("total_cpus", VInt (nr_total_cpus r)); ("available_cpus", VInt (nr_available_cpus r));
   ("total_memory_mb", VInt (nr_total_memory_mb r));
   ("available_memory_mb", VInt (nr_available_memory_mb r));
   ("total_gpus", VInt (nr_total_gpus r)); ("available_gpus", VInt (nr_available_gpus r));
   ("gpu_list", VList ((λ g, VDict (gpu_dump g)) <$> gpu_list r));
   ("ray_node_id", VStr (ray_node_id r)); ("ray_resources_total", float_dict (ray_resources_total r));
   ("ray_resources_available", float_dict (ray_resources_available r));
   ("ray_sync_time", VFloat (ray_sync_time r))].

Definition is_ray_synced (r : NodeResources) : bool :=
  (ray_sync_time r >? 0) && negb (length (ray_resources_total r) =? 0)%nat.

(** [int(x)] of a float *)
Definition int_of_milli (m : Z) : Z := Z.quot m 1000.

Definition get_effective_cpus (r : NodeResources) : Z :=
  if is_ray_synced r then
    match dict_get "CPU" (ray_resources_total r) with
    | Some m => int_of_milli m
    | None => nr_total_cpus r
    end
  else nr_total_cpus r.

Definition get_effective_memory_mb (r : NodeResources) : Z :=
  if is_ray_synced r then
    match dict_get "memory" (ray_resources_total r) with
    | Some m => if m =? 0 then nr_total_memory_mb r else Z.quot m (1024 * 1024 * 1000)
    | None => nr_total_memory_mb r
    end
  else nr_total_memory_mb r.

Definition get_effective_gpus (r : NodeResources) : Z :=
  if is_ray_synced r then
    match dict_get "GPU" (ray_resources_total r) with
    | Some m => int_of_milli m
    | None => nr_total_gpus r
    end
  else nr_total_gpus r.

Record NodeInfo := {
  node_id : string;
  host : string;
  agent_port : Z;
  node_state : NodeState;
  node_resources : NodeResources;
  node_labels : list (string * string);
  custom_resources : list (string * Z);
  node_cluster_id : string;
  node_ray_head_address : string;
  last_heartbeat : Z;
  registered_at : Z;
  node_tenant_id : string
}.

Definition node_dump (n : NodeInfo) : dict :=
  [("node_id", VStr (node_id n)); ("host", VStr (host n)); ("agent_port", VInt (agent_port n));
   ("state", VStr (node_state_value (node_state n)));
   ("resources", VDict (node_resources_dump (node_resources n)));
   ("labels", VDict ((λ kv, (kv.1, VStr kv.2)) <$> node_labels n));
   ("custom_resources", float_dict (custom_resources n));
   ("cluster_id", VStr (node_cluster_id n)); ("ray_head_address", VStr (node_ray_head_address n));
   ("last_heartbeat", VFloat (last_heartbeat n)); ("registered_at", VFloat (registered_at n));
   ("tenant_id", VStr (node_tenant_id n))].

Definition agent_url (n : NodeInfo) : string := "http://" +:+ host n +:+ ":" +:+ dec_of_Z (agent_port n).

(** What [get] returns: a validated model, or the raw document. *)
Inductive node_data :=
| NModel (n : NodeInfo)
| NRaw (v : value).

(** ** Keys and the reservation script *)

Definition HEARTBEAT_ZSET : string := "nodes:heartbeat".
Definition LEASE_KEY (node_id : string) : string := "node_lease:" +:+ node_id.
Definition NODE_INDEX_KEY : string := "nodes:all".
Definition node_registry : BaseRedisRegistry := BaseRedisRegistry_init "node" 0.
Definition node_key (nid : string) : string := make_key node_registry GLOBAL_TENANT nid.

Section Script.
Context `{Cjson}.

Definition state_is (s : string) (t : dict) : bool :=
  match dict_get "state" t with Some (VStr x) => bool_decide (x = s) | _ => false end.

(** A reply [{err=...}] is an error reply: the client raises. *)
Definition lua_reserve (key lease cid : string) (ttl_ms : Z) : lua string :=
  (let+ raw := call key GET in
   match raw with
   | None => LFail (Exn ResponseError "node_not_found")
   | Some text =>
       let+ node := lua_decode text in
       if state_is "idle" node then
         let node := dict_set "cluster_id" (VStr cid) (dict_set "state" (VStr "reserved") node) in
         do+ call key (SET (cjson_encode node) None false) in
         do+ call lease (SET cid None false) in
         do+ call lease (PEXPIRE ttl_ms) in
         LRet "ok"
       else LFail (Exn ResponseError "not_idle")
   end)%lua.
End Script.

(** ** Greedy selection *)

Definition effective (n : NodeInfo) : Z := get_effective_gpus (node_resources n).

Definition more_gpus (a b : NodeInfo) : bool := effective b <=? effective a.

Definition is_candidate (n : NodeInfo) : bool :=
  bool_decide (node_state n = N_IDLE) && (effective n >? 0).

Definition idle_sorted (nodes : list NodeInfo) : list NodeInfo :=
  sort_desc more_gpus (filter (λ n, Is_true (is_candidate n)) nodes).

Fixpoint greedy (required_gpus total : Z) (idle : list NodeInfo) : list NodeInfo :=
  match idle with
  | [] => []
  | n :: idle' =>
      if total >=? required_gpus then []
      else n :: greedy required_gpus (total + effective n) idle'
  end.

(** ** Methods *)

Section Methods.
Context `{Cjson} (model_validate : value -> exn + NodeInfo) (lease_ttl_ms : Z).

(** [data.setdefault(k, v)] *)
Definition dict_setdefault (k : string) (v : value) (d : dict) : dict :=
  if dict_has k d then d else dict_set k v d.

Definition node_register (info : node_data) : M unit :=
  log_errors_as ExternalServiceError
    (let* data := match info with
                  | NModel n => ret (node_dump n)
                  | NRaw (VDict d) => ret d
                  | NRaw _ => raise (Exn TypeError "dict() argument")
                  end in
     match dict_get "node_id" data with
     | None => raise (Exn KeyError "node_id")
     | Some (VStr nid) =>
         let* now := time_ms in
         let data := dict_set "last_heartbeat" (VFloat now)
                       (dict_setdefault "registered_at" (VFloat now) data) in
         do* reg_set node_registry GLOBAL_TENANT nid (VDict data) in
         do* redis NODE_INDEX_KEY (SADD [nid]) in
         do* redis HEARTBEAT_ZSET (ZADD now nid) in
         ret tt
     | Some _ => raise (Exn TypeError "node_id")
     end).

(** The two-argument form of [get]. *)
Definition node_get2 (tenant item_id : string) : M (option node_data) :=
  let* data := reg_get node_registry tenant item_id in
  match data with
  | VNone => ret None
  | _ => ret (Some (match model_validate data with inr n => NModel n | inl _ => NRaw data end))
  end.

Definition get_node (nid : string) : M (option NodeInfo) :=
  log_errors_none None
    (let* data := reg_get node_registry GLOBAL_TENANT nid in
     match data with
     | VNone => ret None
     | _ => let* n := of_sum (model_validate data) in ret (Some n)
     end).

(** [data[k] = v]: a Pydantic model does not support it. *)
Definition set_item (k : string) (v : value) (data : node_data) : M node_data :=
  match data with
  | NRaw (VDict d) => ret (NRaw (VDict (dict_set k v d)))
  | NRaw _ => raise (Exn TypeError "object does not support item assignment")
  | NModel _ => raise (Exn TypeError "'NodeInfo' object does not support item assignment")
  end.

(** [data.update(extra)] *)
Definition update_items (extra : dict) (data : node_data) : M node_data :=
  match data with
  | NRaw (VDict d) => ret (NRaw (VDict (dict_update d extra)))
  | _ => raise (Exn AttributeError "update")
  end.

(** [self.set(_GLOBAL_TENANT, node_id, data)] *)
Definition set_data (nid : string) (data : node_data) : M unit :=
  match data with
  | NRaw v => do* reg_set node_registry GLOBAL_TENANT nid v in ret tt
  | NModel _ => raise (Exn TypeError "Type is not JSON serializable: NodeInfo")
  end.

Definition heartbeat (nid : string) (res : option dict) : M unit :=
  log_errors_none tt
    (let* now := time_ms in
     let* data := node_get2 GLOBAL_TENANT nid in
     match data with
     | None => ret tt
     | Some data =>
         let* data := set_item "last_heartbeat" (VFloat now) data in
         let* data := match res with
                      | Some (kv :: r) => set_item "resources" (VDict (kv :: r)) data
                      | _ => ret data
                      end in
         do* set_data nid data in
         do* redis HEARTBEAT_ZSET (ZADD now nid) in
         ret tt
     end).

Definition parse_node (raw : option string) : option NodeInfo :=
  match raw with
  | None | Some "" => None
  | Some text =>
      match json_loads text with
      | Some v => match model_validate v with inr n => Some n | inl _ => None end
      | None => None
      end
  end.

Definition node_list_all : M (option (list NodeInfo)) :=
  log_errors_none None
    (let* ids := redis NODE_INDEX_KEY SMEMBERS in
     if bool_decide (ids = ∅) then ret (Some [])
     else
       let* raws := script (pipeline ((λ nid, (node_key nid, GET)) <$> elements ids)) in
       ret (Some (omap parse_node raws))).

Definition select_nodes (required_gpus : Z) : M (option (list NodeInfo)) :=
  log_errors_none None
    (let* nodes := node_list_all in
     match nodes with
     | None => raise not_iterable
     | Some ns => ret (Some (greedy required_gpus 0 (idle_sorted ns)))
     end).

Definition reserve_node (nid cid : string) : M bool :=
  log_errors_as ExternalServiceError
    (let* _now := time_ms in
     let* result := script (lua_reserve (node_key nid) (LEASE_KEY nid) cid lease_ttl_ms) in
     ret (bool_decide (result = "ok"))).

Definition update_state (nid state : string) (extra : dict) : M unit :=
  let* data := node_get2 GLOBAL_TENANT nid in
  match data with
  | None => ret tt
  | Some data =>
      let* data := set_item "state" (VStr state) data in
      let* data := update_items extra data in
      set_data nid data
  end.

Definition mark_joined (nid ray_node_ip : string) : M unit :=
  update_state nid "joined" [("ray_node_ip", VStr ray_node_ip)].

Definition mark_released (nid : string) : M unit :=
  do* update_state nid "idle" [("cluster_id", VStr "")] in
  do* redis (LEASE_KEY nid) DEL in ret tt.

Definition mark_draining (nid : string) : M unit := update_state nid "draining" [].

Definition mark_offline (nid : string) : M unit :=
  do* update_state nid "offline" [] in
  do* redis HEARTBEAT_ZSET (ZREM nid) in ret tt.

Definition detect_dead_nodes (timeout_ms : Z) : M (option (list string)) :=
  log_errors_none None
    (let* now := time_ms in
     let* dead := redis HEARTBEAT_ZSET (ZRANGEBYSCORE None (Some (now - timeout_ms)) None) in
     do* for_each dead.*1 mark_offline in
     ret (Some dead.*1)).
End Methods.

(** ** At most one reservation *)

Section Reserve.
Context `{Cjson} {E : Env} (lease_ttl_ms : Z) (nid : string).
Notation key := (node_key nid).
Notation thread := (prog (exn + bool)).
Implicit Types (w : world doc_services) (ps : list thread) (p : thread).

Definition reserve_end (r : exn + string) : thread :=
  except (match r with inr s => ret (bool_decide (s = "ok")) | inl e => Ret (inl e) end)
    (λ e, raise (if passes_through e then e else Exn ExternalServiceError (exn_str e))).

Lemma reserve_end_ret r : exists x, reserve_end r = Ret x.
Proof.
  destruct r as [e|s]; [|by eexists]. unfold reserve_end, except, catch. simpl.
  destruct (is_exception e); by eexists.
Qed.

Definition reserve_mid (cid : string) : thread :=
  Vis (ERedis (lua_reserve key (LEASE_KEY nid) cid lease_ttl_ms)) reserve_end.

Definition reserve_start (cid : string) : thread := Vis ETime (λ _, reserve_mid cid).

(** The node is taken for a cluster: its document says so and does not expire. *)
Definition taken (cid : string) (ks : keyspace) : Prop :=
  exists text t, at_key ks key = Some (REntry (RStr text) None) /\
    cjson_decode text = Some t /\ dict_get "state" t = Some (VStr "reserved") /\
    dict_get "cluster_id" t = Some (VStr cid).

Lemma lease_key_ne : LEASE_KEY nid <> key.
Proof. unfold LEASE_KEY, node_key, make_key. simpl. intros [=]. Qed.

(** A script that answers has taken the node. *)
Lemma reserve_wins now ks ks' cid s :
  lua_run now (lua_reserve key (LEASE_KEY nid) cid lease_ttl_ms) ks = (ks', inr s) -> taken cid ks'.
Proof.
  unfold lua_reserve. rewrite lua_run_call.
  destruct (act_doc now GET (live now ks key)) as [e [x|[text|]]]; [done| |done].
  rewrite lua_run_bind. unfold lua_decode. destruct (cjson_decode text) as [t|]; [|done].
  change (lua_run now (LRet t) ?k) with (k, inr t : exn + dict). cbv beta iota.
  destruct (state_is "idle" t); [|done].
  rewrite lua_run_call, act_SET. cbv beta iota. rewrite lua_run_call, act_SET. cbv beta iota.
  rewrite lua_run_call, act_PEXPIRE.
  set (t' := dict_set "cluster_id" _ _).
  match goal with |- context [set_expiry ?a ?b ?c] => destruct (set_expiry a b c) as [e2 [x|n]] end;
    [done|].
  intros [= <- _].
  destruct (cjson_encode_ok t') as (d & Hd & Hs1). destruct (cjson_decode_ok _ _ Hd) as (t2 & Ht2 & Hs2).
  exists (cjson_encode t'), t2.
  rewrite !at_put_ne by apply lease_key_ne. rewrite at_put_eq. split_and!; [done..| |].
  - apply Hs2; [done|]. apply Hs1; [done|]. subst t'.
    rewrite dict_get_set_ne by done. by rewrite dict_get_set_eq.
  - apply Hs2; [done|]. apply Hs1; [done|]. subst t'. by rewrite dict_get_set_eq.
Qed.

(** Once taken, every script fails and the node stays taken. *)
Lemma taken_blocks now ks cid cid' :
  taken cid' ks -> exists e, lua_run now (lua_reserve key (LEASE_KEY nid) cid lease_ttl_ms) ks = (ks, inl e).
Proof.
  intros (text & t & Hk & Ht & Hs & _). unfold lua_reserve.
  rewrite lua_run_call, (live_persistent _ _ _ _ Hk eq_refl), act_GET_str. cbv beta iota.
  rewrite (put_same_key _ _ _ Hk), lua_run_bind. unfold lua_decode. rewrite Ht.
  change (lua_run now (LRet t) ?k) with (k, inr t : exn + dict). cbv beta iota.
  unfold state_is. rewrite Hs. by eexists.
Qed.

Definition won (p : thread) : Prop := p = Ret (inr true).

Lemma reserve_end_lost x : ~ won (reserve_end (inl x)).
Proof. unfold won, reserve_end, except, catch. simpl. by destruct (is_exception x). Qed.

(** What a call for cluster [cid] has come to. *)
Definition reserve_shape (p : thread) (cid : string) : Prop :=
  p = reserve_start cid \/ p = reserve_mid cid \/ exists r, p = Ret r.

Definition reserve_inv (cids : list string) ps w : Prop :=
  Forall2 reserve_shape ps cids /\
  (∀ i p cid, ps !! i = Some p -> cids !! i = Some cid -> won p -> taken cid (w_redis w)) /\
  (∀ i j p q, ps !! i = Some p -> ps !! j = Some q -> won p -> won q -> i = j).

(** A thread that does not win leaves the invariant. *)
Lemma reserve_inv_insert cids ps w w' i p cid :
  reserve_inv cids ps w -> cids !! i = Some cid -> reserve_shape p cid -> ~ won p ->
  (∀ c, taken c (w_redis w) -> taken c (w_redis w')) -> reserve_inv cids (<[i := p]> ps) w'.
Proof.
  intros (Hsh & Ht & Hu) Hc Hp Hnw Hk. split_and!.
  - rewrite <-(list_insert_id cids i cid) by done. by apply Forall2_insert.
  - intros j q c Hj Hcj Hq. apply list_lookup_insert_Some in Hj as [(<- & -> & _)|[_ Hj]]; [done|].
    by eapply Hk, Ht.
  - intros j j' q q' Hj Hj' Hq Hq'.
    apply list_lookup_insert_Some in Hj as [(<- & -> & _)|[_ Hj]]; [done|].
    apply list_lookup_insert_Some in Hj' as [(<- & -> & _)|[_ Hj']]; [done|]. by eapply Hu.
Qed.

Lemma reserve_step cids ps w i :
  reserve_inv cids ps w -> reserve_inv cids (thread_step ps w i).1 (thread_step ps w i).2.
Proof.
  intros Hinv. pose proof Hinv as (Hsh & Ht & Hu). unfold thread_step.
  destruct (ps !! i) as [p|] eqn:Ei; [|exact Hinv].
  destruct (Forall2_lookup_l _ _ _ _ _ Hsh Ei) as (cid & Hc & [->|[->|[r ->]]]); [| |exact Hinv]; simpl.
  - apply (reserve_inv_insert cids ps w _ _ _ cid); [done|done|by right; left|done|done].
  - destruct (redis_fault (w_tick w)) as [x|]; simpl.
    { apply (reserve_inv_insert cids ps w _ _ _ cid); [done|done|right; right; apply (reserve_end_ret (inl x))| |done].
      apply reserve_end_lost. }
    destruct (lua_run (w_now w) _ (w_redis w)) as [ks r] eqn:Er. simpl. destruct r as [x|s].
    + apply (reserve_inv_insert cids ps w _ _ _ cid);
        [done|done|right; right; apply (reserve_end_ret (inl x))|apply reserve_end_lost|].
      intros c Htk. destruct (taken_blocks (w_now w) _ cid c Htk) as [y Hy].
      rewrite Hy in Er. by injection Er as <- _.
    + pose proof (reserve_wins _ _ _ _ _ Er) as Htk.
      assert (Hnone : ∀ j q, ps !! j = Some q -> ~ won q).
      { intros j q Hj Hq. destruct (Forall2_lookup_l _ _ _ _ _ Hsh Hj) as (c & Hcj & _).
        destruct (taken_blocks (w_now w) _ cid c (Ht j q c Hj Hcj Hq)) as [y Hy]. by rewrite Hy in Er. }
      split_and!.
      * rewrite <-(list_insert_id cids i cid) by done. apply Forall2_insert; [done|]. right; right; by eexists.
      * intros j q c Hj Hcj Hq. apply list_lookup_insert_Some in Hj as [(<- & <- & _)|[_ Hj]]; [|by apply Hnone in Hj].
        by simplify_eq.
      * intros j j' q q' Hj Hj' Hq Hq'.
        apply list_lookup_insert_Some in Hj as [(<- & <- & _)|[_ Hj]]; [|by apply Hnone in Hj].
        apply list_lookup_insert_Some in Hj' as [(<- & <- & _)|[_ Hj']]; [done|by apply Hnone in Hj'].
Qed.

Lemma reserve_interleave cids sched : ∀ ps w,
  reserve_inv cids ps w -> reserve_inv cids (interleave sched ps w).1 (interleave sched ps w).2.
Proof.
  induction sched as [|i sched IH]; intros ps w Hi; simpl; [done|].
  pose proof (reserve_step cids ps w i Hi) as Hs. destruct (thread_step ps w i). by apply IH.
Qed.

Lemma reserve_init cids w : reserve_inv cids (map reserve_start cids) w.
Proof.
  assert (Hno : ∀ i p, map reserve_start cids !! i = Some p -> ~ won p).
  { intros i p Hi. rewrite list_lookup_fmap in Hi. by destruct (cids !! i); simplify_eq/=. }
  split_and!.
  - apply Forall2_fmap_l, Forall_Forall2_diag, Forall_true. intros cid. by left.
  - intros i p cid Hi _ Hw. by apply Hno in Hi.
  - intros i j p q Hi _ Hw _. by apply Hno in Hi.
Qed.

Lemma reserve_node_eq cid : reserve_node lease_ttl_ms nid cid = reserve_start cid.
Proof.
  Transparent time_ms script. reflexivity. Opaque time_ms script.
Qed.
End Reserve.

(** C16: however many callers try to reserve one node, for whatever clusters,
    and whatever the order of their Redis calls, the timing and the failures, at
    most one of them is told that it has the node; and from then on the stored
    document of the node, which does not expire, says that it is reserved for the
    cluster of that caller. *)
Theorem reserve_exclusive (S : Services) (C : Cjson) (E : Env) ttl nid cids sched (w : world S) :
  let '(ps, w') := interleave sched (map (reserve_node ttl nid) cids) w in
  (∀ i j, ps !! i = Some (Ret (inr true)) -> ps !! j = Some (Ret (inr true)) -> i = j) /\
  ∀ i, ps !! i = Some (Ret (inr true)) ->
    exists cid text doc, cids !! i = Some cid /\
      ks_of w' !! node_key nid = Some (REntry (RStr text) None) /\ cjson_decode text = Some doc /\
      dict_get "state" doc = Some (VStr "reserved") /\ dict_get "cluster_id" doc = Some (VStr cid).
Proof.
  assert (Heq : map (reserve_node ttl nid) cids = map (reserve_start ttl nid) cids)
    by (apply map_ext; intros cid; apply reserve_node_eq).
  pose proof (reserve_interleave ttl nid cids sched _ _ (reserve_init ttl nid cids (wview w))) as H.
  rewrite <-Heq in H. rewrite interleave_view in H.
  destruct (interleave sched _ w) as [ps w']. destruct H as (Hsh & Ht & Hu). split.
  - intros i j Hi Hj. by apply (Hu i j _ _ Hi Hj).
  - intros i Hi. destruct (Forall2_lookup_l _ _ _ _ _ Hsh Hi) as (cid & Hc & _).
    destruct (Ht i _ cid Hi Hc eq_refl) as (text & doc & H). exists cid, text, doc. split; [exact Hc|exact H].
Qed.

(** ** Greedy selection uses the fewest nodes *)

Lemma more_gpus_total a b : more_gpus a b = false -> more_gpus b a = true.
Proof. unfold more_gpus. intros; bool_to_prop. apply Z.leb_le. lia. Qed.

Lemma more_gpus_trans a b c : more_gpus a b = true -> more_gpus b c = true -> more_gpus a c = true.
Proof. unfold more_gpus. intros; bool_to_prop. apply Z.leb_le. lia. Qed.

Definition gpus (l : list NodeInfo) : Z := sumZ (effective <$> l).

Lemma gpus_cons n l : gpus (n :: l) = effective n + gpus l.
Proof. done. Qed.

Lemma greedy_prefix req l : ∀ total, exists k, (k <= length l)%nat /\
  greedy req total l = take k l /\
  (req <= total + gpus (take k l) \/ k = length l) /\
  ∀ j, (j < k)%nat -> total + gpus (take j l) < req.
Proof.
  induction l as [|n l IH]; intros total; simpl.
  { exists 0%nat. split_and!; [lia|done|by right|lia]. }
  destruct (total >=? req) eqn:Et; bool_to_prop.
  { exists 0%nat. split_and!; [lia|done|left; unfold gpus; simpl; lia|lia]. }
  destruct (IH (total + effective n)) as (k & Hk & Hg & Hend & Hmin).
  exists (S k). cbn [take]. rewrite gpus_cons. split_and!.
  - lia.
  - by rewrite Hg.
  - destruct Hend as [? | ->]; [left; lia|by right].
  - intros [|j] Hj; cbn [take]; [unfold gpus; simpl; lia|]. rewrite gpus_cons. specialize (Hmin j ltac:(lia)). lia.
Qed.

Lemma idle_sorted_keys ns : StronglySorted (λ x y, y <= x) (effective <$> idle_sorted ns).
Proof.
  pose proof (sort_desc_sorted more_gpus more_gpus_total more_gpus_trans
    (filter (λ n, Is_true (is_candidate n)) ns)) as Hs.
  fold (idle_sorted ns) in Hs. induction Hs as [|n l Hl IH Hn]; [constructor|].
  simpl. constructor; [done|]. apply Forall_fmap. eapply Forall_impl; [exact Hn|].
  intros m Hm. unfold geP, more_gpus in Hm. bool_to_prop. done.
Qed.

(** C28: [select_nodes] chooses idle nodes with GPUs only, each at most once;
    it reaches the number of GPUs asked for whenever all such nodes together
    do, and then no choice of fewer of them would. *)
Theorem select_nodes_fewest req ns :
  let candidates := filter (λ n, Is_true (is_candidate n)) ns in
  let sel := greedy req 0 (idle_sorted ns) in
  sel ⊆+ candidates /\
  (req <= gpus candidates -> req <= gpus sel) /\
  ∀ s, s ⊆+ candidates -> req <= gpus s -> (length sel <= length s)%nat.
Proof.
  intros candidates sel.
  assert (Hp : idle_sorted ns ≡ₚ candidates) by apply sort_desc_perm.
  destruct (greedy_prefix req (idle_sorted ns) 0) as (k & Hk & Hg & Hend & Hmin).
  subst sel. rewrite Hg. split_and!.
  - rewrite <-Hp. apply sublist_submseteq, sublist_take.
  - intros Hreq. destruct Hend as [?|Heq]; [lia|].
    rewrite Heq, firstn_all. unfold gpus in *.
    by rewrite (sumZ_perm _ _ (fmap_Permutation effective _ _ Hp)).
  - intros s Hs Hreq. rewrite length_take, Nat.min_l by done.
    destruct (decide (k <= length s)%nat) as [|Hlt]; [done|]. exfalso.
    specialize (Hmin (length s) ltac:(lia)).
    assert (Hsub : effective <$> s ⊆+ effective <$> idle_sorted ns)
      by (rewrite Hp; by apply fmap_submseteq).
    pose proof (sum_take_max _ _ (idle_sorted_keys ns) Hsub) as Hmax.
    rewrite length_fmap, <-fmap_take in Hmax. unfold gpus in *. lia.
Qed.

(** ** Nodes that validate cannot be updated *)

Section Updates.
Context {E : Env} (HE : quiet E) (model_validate : value -> exn + NodeInfo).
Implicit Types (w : world doc_services).

Definition stored_node (ks : keyspace) (nid : string) (n : NodeInfo) : Prop :=
  exists text d, at_key ks (node_key nid) = Some (REntry (RStr text) None) /\
    json_loads text = Some (VDict d) /\ model_validate (VDict d) = inr n.

Definition same_keys (w w' : world doc_services) : Prop :=
  ∀ k, at_key (w_redis w') k = at_key (w_redis w) k.

Lemma get2_node nid n w :
  stored_node (w_redis w) nid n ->
  exists w', run (node_get2 model_validate GLOBAL_TENANT nid) w = (w', inr (Some (NModel n))) /\
             same_keys w w'.
Proof.
  intros (text & d & Hk & Hj & Hv). eexists. split.
  - unfold node_get2. rewrite run_bind, (run_reg_get HE _ _ _ _ _ Hk), Hj.
    cbn [default from_option id]. rewrite run_ret, Hv. reflexivity.
  - intros k. simpl. by apply at_put_same.
Qed.

Lemma heartbeat_noop nid n res w :
  stored_node (w_redis w) nid n ->
  exists w', run (heartbeat model_validate nid res) w = (w', inr tt) /\ same_keys w w'.
Proof.
  intros Hs. unfold heartbeat, log_errors_none. rewrite run_except, run_bind, run_time_ms.
  cbv beta iota. set (w1 := after _ _ w).
  destruct (get2_node nid n w1 Hs) as (w2 & Hr & Hsame). rewrite run_bind, Hr. cbv beta iota.
  rewrite run_bind. eexists. split; [reflexivity|]. intros k. by rewrite Hsame.
Qed.

Lemma update_state_raises nid n state extra w :
  stored_node (w_redis w) nid n ->
  exists w' m, run (update_state model_validate nid state extra) w = (w', inl (Exn TypeError m)) /\
               same_keys w w'.
Proof.
  intros Hs. unfold update_state. destruct (get2_node nid n w Hs) as (w2 & Hr & Hsame).
  rewrite run_bind, Hr. cbv beta iota. rewrite run_bind. eexists _, _. split; [reflexivity|done].
Qed.

Lemma detect_noop timeout z w :
  at_key (w_redis w) HEARTBEAT_ZSET = keep (RZset z) None ->
  (∀ nid s, z !! nid = Some s -> exists n, stored_node (w_redis w) nid n) ->
  (exists nid s, z !! nid = Some s /\ s <= w_now w - timeout) ->
  exists w', run (detect_dead_nodes model_validate timeout) w = (w', inr None) /\ same_keys w w'.
Proof.
  intros Hz Hall (nid0 & s0 & Hl0 & Hs0).
  unfold detect_dead_nodes, log_errors_none. rewrite run_except, run_bind, run_time_ms.
  cbv beta iota. rewrite run_bind. set (w1 := after _ _ w).
  rewrite (run_persistent HE HEARTBEAT_ZSET _ w1 _ _ _ Hz (persistent_keep _)
    (act_ZRANGEBYSCORE_all _ _ _ _ _ (zset_of_keep _ _))). cbv beta iota.
  set (w2 := after _ _ w1). set (dead := zrange_by _ _ z).
  assert (Hsame : same_keys w w2) by (intros k; subst w2; simpl; by rewrite at_put_same).
  assert (Hin : (nid0, s0) ∈ dead).
  { apply elem_of_zrange_by. split; [done|]. by apply Is_true_true, Z.leb_le. }
  destruct dead as [|[nid s] dead'] eqn:Ed; [by apply elem_of_nil in Hin|].
  assert ((nid, s) ∈ dead) as Hmem by (rewrite Ed; by left).
  apply elem_of_zrange_by in Hmem as [Hl _].
  destruct (Hall nid s Hl) as [n (text & d & Hk & Hrest)].
  assert (Hst : stored_node (w_redis w2) nid n) by (exists text, d; by rewrite Hsame).
  destruct (update_state_raises nid n "offline" [] w2 Hst) as (w3 & m & Hr & Hsame3).
  simpl. unfold mark_offline. rewrite run_bind, run_bind, run_bind, Hr.
  eexists. split; [reflexivity|]. intros k. by rewrite Hsame3, Hsame.
Qed.
End Updates.

(** For a node whose document Pydantic accepts, a heartbeat and a mark
    change nothing, since the code assigns items on the model: [heartbeat]
    reports success and leaves every key as it was, the [mark] operations raise
    [TypeError], and [detect_dead_nodes] returns [None] as soon as one such node
    is overdue, leaving every key as it was. *)
Theorem node_updates_lost (S : Services) (E : Env) model_validate nid n (w : world S) :
  quiet E -> stored_node model_validate (ks_of w) nid n ->
  (∀ res, exists w', run (heartbeat model_validate nid res) w = (w', inr tt) /\
     ∀ k, at_key (ks_of w') k = at_key (ks_of w) k) /\
  (∀ state extra, exists w' m,
     run (update_state model_validate nid state extra) w = (w', inl (Exn TypeError m)) /\
     ∀ k, at_key (ks_of w') k = at_key (ks_of w) k) /\
  (∀ timeout z, at_key (ks_of w) HEARTBEAT_ZSET = keep (RZset z) None ->
     (∀ i s, z !! i = Some s -> exists n, stored_node model_validate (ks_of w) i n) ->
     (exists i s, z !! i = Some s /\ s <= w_now w - timeout) ->
     exists w', run (detect_dead_nodes model_validate timeout) w = (w', inr None) /\
       ∀ k, at_key (ks_of w') k = at_key (ks_of w) k).
Proof.
  intros HE Hs.
  assert (Hlift : ∀ A (p : prog A) a, (exists w', run p (wview w) = (w', a) /\ same_keys (wview w) w') ->
    exists w', run p w = (w', a) /\ ∀ k, at_key (ks_of w') k = at_key (ks_of w) k).
  { intros A p a (w' & Hr & Hk). rewrite run_view in Hr. injection Hr as <- <-.
    exists (run p w).1. split; [apply surjective_pairing|exact Hk]. }
  split_and!.
  - intros res. apply Hlift. by apply (heartbeat_noop HE model_validate nid n).
  - intros state extra.
    destruct (update_state_raises HE model_validate nid n state extra (wview w) Hs) as (w' & m & H).
    destruct (Hlift _ _ _ (ex_intro _ w' H)) as (w2 & Hr & Hk). by exists w2, m.
  - intros timeout z Hz Hall Hdue. apply Hlift. by apply (detect_noop HE model_validate timeout z).
Qed.

(** ** Witnesses *)

Definition demo_node (id : string) (g : Z) : NodeInfo :=
  {| node_id := id; host := "h"; agent_port := 9100; node_state := N_IDLE;
     node_resources := {| nr_total_cpus := 8; nr_available_cpus := 8; nr_total_memory_mb := 0;
       nr_available_memory_mb := 0; nr_total_gpus := g; nr_available_gpus := g; gpu_list := [];
       ray_node_id := ""; ray_resources_total := []; ray_resources_available := [];
       ray_sync_time := 0 |};
     node_labels := []; custom_resources := []; node_cluster_id := ""; node_ray_head_address := "";
     last_heartbeat := 0; registered_at := 0; node_tenant_id := "" |}.

(** A validator that reads the identifier. *)
Definition demo_node_validate (v : value) : exn + NodeInfo :=
  match v with
  | VDict d =>
      match dict_get "node_id" d with
      | Some (VStr id) => inr (demo_node id 4)
      | _ => inl (Exn ValueError "node_id")
      end
  | _ => inl (Exn ValueError "1 validation error for NodeInfo")
  end.

(** The world after the registration of a node. *)
Definition w_node : world doc_services :=
  (run (S := doc_services) (E := calm) (node_register (NModel (demo_node "n1" 4))) (world0 5000)).1.

Lemma w_node_stored : stored_node demo_node_validate (ks_of w_node) "n1" (demo_node "n1" 4).
Proof.
  eexists _, _. split; [vm_compute; reflexivity|]. split; [vm_compute; reflexivity|reflexivity].
Qed.

Lemma reserve_exclusive_witness :
  let '(ps, _) := interleave (S := doc_services) (E := calm) [0; 1; 1; 0]%nat
                    (map (reserve_node (H := table_cjson) 30000 "n1") ["c1"; "c2"]) w_node in
  ps !! 1%nat = Some (Ret (inr true)) /\
  ps !! 0%nat = Some (Ret (inl (Exn ExternalServiceError "not_idle"))) /\
  ∀ i, ps !! i = Some (Ret (inr true)) -> i = 1%nat.
Proof.
  pose proof (reserve_exclusive doc_services table_cjson calm 30000 "n1" ["c1"; "c2"] [0; 1; 1; 0]%nat
    w_node) as T.
  assert (Hr : (interleave (S := doc_services) (E := calm) [0; 1; 1; 0]%nat
                    (map (reserve_node (H := table_cjson) 30000 "n1") ["c1"; "c2"]) w_node).1 =
    [Ret (inl (Exn ExternalServiceError "not_idle")); Ret (inr true)]) by (vm_compute; reflexivity).
  destruct (interleave _ _ w_node) as [ps w']. simpl in Hr. subst ps.
  split; [reflexivity|]. split; [reflexivity|].
  intros i Hi. exact (proj1 T i 1%nat Hi eq_refl).
Defined.

Lemma select_nodes_fewest_witness :
  greedy 9 0 (idle_sorted [demo_node "a" 2; demo_node "b" 8; demo_node "c" 0; demo_node "d" 4]) =
    [demo_node "b" 8; demo_node "d" 4] /\
  9 <= gpus (greedy 9 0 (idle_sorted [demo_node "a" 2; demo_node "b" 8; demo_node "c" 0; demo_node "d" 4])).
Proof.
  split; [reflexivity|].
  apply (select_nodes_fewest 9 [demo_node "a" 2; demo_node "b" 8; demo_node "c" 0; demo_node "d" 4]).
  vm_compute. discriminate.
Defined.

Lemma node_updates_lost_witness :
  exists w', run (S := doc_services) (E := calm)
    (detect_dead_nodes demo_node_validate (-60000)) w_node = (w', inr None).
Proof.
  destruct (node_updates_lost doc_services calm demo_node_validate "n1" (demo_node "n1" 4) w_node
    calm_quiet w_node_stored) as (_ & _ & Hd).
  destruct (Hd (-60000) {["n1" := 5000]}) as (w' & Hr & _).
  - vm_compute. reflexivity.
  - intros i s [<- _]%lookup_singleton_Some. exists (demo_node "n1" 4). exact w_node_stored.
  - exists "n1", 5000. split; [reflexivity|]. vm_compute. discriminate.
  - exists w'. exact Hr.
Defined.
