(* ===== verification/ScheduleRegistry.v ===== *)
(** * Schedule registry and cron scheduler

    [src/platform/schedule_registry.py] and [src/platform/cron_scheduler.py]: cron
    schedules as JSON documents, the scripts that toggle and advance them, the
    selection of due schedules, and the leader-guarded loop that fires them.
    [croniter] and the task creator are parameters. *)

From Stdlib Require Import Ascii.
From stdpp Require Import base gmap strings list.
From S2P Require Import Prelude PyValue Json IsoTime Redis TaskModel Tables Effects ErrorHandling.
From S2P Require Import Cjson Registry CapabilityRegistry ClusterRegistry.

Open Scope Z_scope.

Definition SCHEDULE_TENANT_IDX : string := "schedules:sid_to_tenant".

Definition ScheduleRegistry_init (ttl_seconds : Z) : BaseRedisRegistry :=
  BaseRedisRegistry_init "schedules" ttl_seconds.

(** ** Scripts *)

Section Scripts.
Context `{Cjson}.

Definition lua_toggle (key : string) (enabled : bool) : lua Z :=
  (let+ raw := call key GET in
   match raw with
   | None => LRet 0
   | Some text =>
       let+ data := lua_decode text in
       do+ call key (SET (cjson_encode (dict_set "enabled" (VBool enabled) data)) None false) in
       LRet 1
   end)%lua.

Definition lua_advance_next_fire (key next_fire_iso now_iso : string) : lua Z :=
  (let+ raw := call key GET in
   match raw with
   | None => LRet 0
   | Some text =>
       let+ data := lua_decode text in
       let data := dict_set "last_triggered_at" (VStr now_iso)
                     (dict_set "next_fire_at" (VStr next_fire_iso) data) in
       do+ call key (SET (cjson_encode data) None false) in
       LRet 1
   end)%lua.
End Scripts.

(** ** Due schedules *)

(** [data.get("next_fire_at")] parsed and compared with [as_of]. *)
Definition fires_by (as_of : Z) (d : dict) : bool :=
  match dict_get_or "next_fire_at" VNone d with
  | VStr s =>
      negb (bool_decide (s = "")) &&
      match fromisoformat s with Some (t, _) => t <=? as_of | None => false end
  | _ => false
  end.

Definition is_due (as_of : Z) (d : dict) : bool :=
  truthy (dict_get_or "enabled" (VBool true) d) && fires_by as_of d.

(** One document: a text that is not JSON is skipped, one that is not an object
    raises. *)
Definition due_one (as_of : Z) (raw : option string) : exn + list dict :=
  match raw with
  | None | Some "" => inr []
  | Some text =>
      match json_loads text with
      | None => inr []
      | Some (VDict d) => inr (if is_due as_of d then [d] else [])
      | Some _ => inl (Exn AttributeError "get")
      end
  end.

Fixpoint due_all (as_of : Z) (raws : list (option string)) : exn + list dict :=
  match raws with
  | [] => inr []
  | raw :: raws' =>
      match due_one as_of raw with
      | inl e => inl e
      | inr ds => match due_all as_of raws' with inl e => inl e | inr ds' => inr (ds ++ ds') end
      end
  end.

Section Methods.
Context `{Cjson} (reg : BaseRedisRegistry).

Definition schedule_set (tenant_id schedule_id : string) (v : value) : M bool :=
  let* result := reg_set reg tenant_id schedule_id v in
  if result then
    do* redis SCHEDULE_TENANT_IDX (HSET [(schedule_id, tenant_id)]) in ret result
  else ret result.

Definition toggle (tenant_id schedule_id : string) (enabled : bool) : M bool :=
  let* result := script (lua_toggle (make_key reg tenant_id schedule_id) enabled) in
  ret (negb (result =? 0)).

Definition advance_next_fire (tenant_id schedule_id : string) (next_fire : Z) : M bool :=
  let* now := time_ms in
  let* result := script (lua_advance_next_fire (make_key reg tenant_id schedule_id)
                           (isoformat next_fire) (isoformat now)) in
  ret (negb (result =? 0)).

(** The schedule identifiers of every tenant. *)
Definition schedule_keys (tenant_ids : list string) : M (list (string * string)) :=
  fold_m tenant_ids (λ acc tid,
    let* sids := reg_list reg tid in
    match sids with
    | None => raise not_iterable
    | Some sids => ret (acc ++ ((λ sid, (tid, sid)) <$> sids))
    end) [].

Definition list_due (as_of : Z) : M (list dict) :=
  let* tids := list_all_tenants reg in
  match tids with
  | None => raise not_iterable
  | Some tids =>
      let* keys := schedule_keys tids in
      if bool_decide (length keys = 0%nat) then ret []
      else
        let* raws := script (pipeline ((λ ts, (make_key reg ts.1 ts.2, GET)) <$> keys)) in
        of_sum (due_all as_of raws)
  end.

(** The tenant that lists the schedule, tenants in order. *)
Fixpoint scan_tenants (schedule_id : string) (next_fire : Z) (tids : list string) : M unit :=
  match tids with
  | [] => ret tt
  | tid :: tids' =>
      let* sids := reg_list reg tid in
      match sids with
      | None => raise (Exn TypeError "argument of type 'NoneType' is not iterable")
      | Some sids =>
          if bool_decide (schedule_id ∈ sids) then
            do* advance_next_fire tid schedule_id next_fire in
            do* redis SCHEDULE_TENANT_IDX (HSET [(schedule_id, tid)]) in ret tt
          else scan_tenants schedule_id next_fire tids'
      end
  end.

Definition update_next_fire (schedule_id : string) (next_fire : Z) : M unit :=
  let* tenant_id := redis SCHEDULE_TENANT_IDX (HGET schedule_id) in
  match tenant_id with
  | Some (String c s) => do* advance_next_fire (String c s) schedule_id next_fire in ret tt
  | _ =>
      let* tids := list_all_tenants reg in
      match tids with
      | None => raise not_iterable
      | Some tids => scan_tenants schedule_id next_fire tids
      end
  end.
End Methods.

(** ** Cron scheduler *)

Definition LEADER_KEY : string := "cron_leader".
Definition LEADER_TTL : Z := 90.

Record CronScheduler := {
  cs_instance_id : string;
  cs_poll_interval : Z;     (** milliseconds *)
  cs_leader_ttl : Z
}.

(** [getattr(schedule, name, default)] of a [_ScheduleProxy] *)
Definition proxy_attr (d : dict) (name : string) (dflt : value) : value := default dflt (dict_get name d).

(** The text of an attribute used in an f-string or as an argument. *)
Definition attr_text (v : value) : string :=
  match v with VStr s => s | VInt n => dec_of_Z n | _ => "" end.

Definition template_of (d : dict) : value :=
  match proxy_attr d "task_template" (VStr "{}") with
  | VStr s => default (VDict []) (json_loads s)
  | v => v
  end.

Definition idem_key (schedule_id : string) (now : Z) : string :=
  "cron:" +:+ schedule_id +:+ ":" +:+ dec_of_Z (now / 60000 * 60).

Section Cron.
Context `{Cjson} (cs : CronScheduler) (reg : BaseRedisRegistry).
Context (croniter_next : string -> Z -> exn + Z)
        (create_task : value -> string -> value -> M unit)
        (repr : dict -> string).

Definition cron_try_become_leader : M bool :=
  let* ok := redis LEADER_KEY (SET (cs_instance_id cs) (Some (cs_leader_ttl cs * 1000)) true) in
  if ok then ret true
  else
    let* current := redis LEADER_KEY GET in
    if bool_decide (current = Some (cs_instance_id cs)) then
      do* redis LEADER_KEY (EXPIRE (cs_leader_ttl cs)) in ret true
    else ret false.

(** [self._creator.create_task(tenant_id=..., idempotency_key=..., **template)] *)
Definition fire_one (d : dict) (now : Z) : M unit :=
  let schedule_id := attr_text (proxy_attr d "schedule_id" (VStr (repr d))) in
  let cron_expr := attr_text (proxy_attr d "cron_expr" (VStr "")) in
  let tenant_id := proxy_attr d "tenant_id" (VStr "") in
  let* created := except (do* create_task tenant_id (idem_key schedule_id now) (template_of d) in ret true)
                         (λ _, ret false) in
  if created then
    let* next_fire := of_sum (croniter_next cron_expr now) in
    update_next_fire reg schedule_id next_fire
  else ret tt.

Definition fire_due_schedules : M unit :=
  let* now := time_ms in
  let* due := list_due reg now in
  for_each due (λ d, fire_one d now).

(** [n] rounds of the loop; it ends when one of them raises. *)
Fixpoint cron_rounds (n : nat) : M unit :=
  match n with
  | O => ret tt
  | S n' =>
      let* leader := cron_try_become_leader in
      do* (if leader then fire_due_schedules else ret tt) in
      do* sleep (cs_poll_interval cs) in
      cron_rounds n'
  end.

Definition cron_run_loop (n : nat) : M unit := log_errors_quiet (cron_rounds n).
End Cron.

(** ** Reading a keyspace that does not change *)

(** Nothing in [ks] expires before [T]. *)
Definition settled (T : Z) (ks : keyspace) : Prop :=
  ∀ k e, at_key ks k = Some e -> expired T e = false.

Lemma live_settled now T ks k : now <= T -> settled T ks -> live now ks k = at_key ks k.
Proof.
  intros HT Hs. specialize (Hs k). unfold live, at_key in *. destruct (ks !! k) as [e|]; [|done].
  specialize (Hs e eq_refl). unfold expired in *. destruct (re_exp e) as [t|]; [|done].
  bool_to_prop. by rewrite (proj2 (Z.leb_gt _ _)) by lia.
Qed.

Section Reading.
Context {E : Env} (HE : quiet E) (reg : BaseRedisRegistry) (T : Z) (ks : keyspace) (Hset : settled T ks).
Implicit Types (w : world doc_services).

Definition frozen w : Prop := ∀ k, at_key (w_redis w) k = at_key ks k.

Lemma frozen_live w k : frozen w -> w_now w <= T -> live (w_now w) (w_redis w) k = at_key ks k.
Proof using Hset.
  intros Hf HT. rewrite <-(Hf k). apply (live_settled _ T); [done|].
  intros k' e He. rewrite Hf in He. by eapply Hset.
Qed.

Lemma frozen_put w k t : frozen w -> frozen (after (put k (at_key ks k) (w_redis w)) t w).
Proof. intros Hf k'. simpl. rewrite at_put_same; [done|]. apply Hf. Qed.

Lemma read_members k m w :
  frozen w -> w_now w <= T -> set_of (at_key ks k) = Some m ->
  exists w', run (redis k SMEMBERS) w = (w', inr m) /\ frozen w'.
Proof using HE Hset.
  intros Hf HT Hm. rewrite run_redis. destruct HE as [-> _].
  rewrite frozen_live, (act_SMEMBERS _ _ _ Hm) by done. eexists. split; [done|]. by apply frozen_put.
Qed.

Context (idx : string -> gset string).

Lemma read_keys tids : ∀ acc w,
  (∀ t, t ∈ tids -> set_of (at_key ks (index_key reg t)) = Some (idx t)) ->
  frozen w ->
  let p := fold_m tids (λ acc tid,
    let* sids := reg_list reg tid in
    match sids with
    | None => raise not_iterable
    | Some sids => ret (acc ++ ((λ sid, (tid, sid)) <$> sids))
    end) acc in
  w_now (run p w).1 <= T ->
  exists w', run p w =
    (w', inr (acc ++ (tids ≫= λ t, (λ sid, (t, sid)) <$> elements (idx t)))) /\ frozen w'.
Proof using HE Hset.
  induction tids as [|t tids IH]; intros acc w Hidx Hf p HT.
  { exists w. split; [|done]. simpl. by rewrite app_nil_r. }
  assert (Hw : w_now w <= T) by (pose proof (run_time p w); lia).
  destruct (read_members (index_key reg t) (idx t) w Hf Hw (Hidx t ltac:(by left)))
    as (w1 & Hr & Hf1).
  assert (Hl : run (reg_list reg t) w = (w1, inr (Some (elements (idx t)))))
    by (apply run_log_errors_none_ok; by rewrite run_bind, Hr).
  subst p. simpl fold_m in *. rewrite run_bind in HT |- *. rewrite run_bind in HT |- *.
  rewrite Hl in HT |- *. cbv beta iota in HT |- *. rewrite run_ret in HT |- *. cbv beta iota in HT |- *.
  destruct (IH (acc ++ ((λ sid, (t, sid)) <$> elements (idx t))) w1) as (w2 & Hr2 & Hf2);
    [intros t' Ht'; apply Hidx; by right|done|done|].
  exists w2. split; [|done]. rewrite Hr2. by rewrite <-app_assoc.
Qed.

(** The text a key holds. *)
Definition text_at (k : string) : option string :=
  match at_key ks k with Some (REntry (RStr s) _) => Some s | _ => None end.

Definition is_text (k : string) : Prop :=
  match at_key ks k with None | Some (REntry (RStr _) _) => True | _ => False end.

Lemma pipe_gets now keys : ∀ ks1,
  now <= T -> (∀ k, at_key ks1 k = at_key ks k) -> (∀ k, k ∈ keys -> is_text k) ->
  exists ks2, pipe_run now ((λ k, (k, GET)) <$> keys) ks1 = (ks2, inr <$> (text_at <$> keys)) /\
              ∀ k, at_key ks2 k = at_key ks k.
Proof using Hset.
  induction keys as [|k keys IH]; intros ks1 HT Hk Htext; [by exists ks1|].
  rewrite !fmap_cons. cbn [pipe_run]. rewrite (live_settled now T) by (try done; intros k' e He; rewrite Hk in He; by eapply Hset).
  rewrite Hk. pose proof (Htext k ltac:(by left)) as Hx. unfold is_text in Hx.
  assert (Ha : act_doc now GET (at_key ks k) = (at_key ks k, inr (text_at k))).
  { unfold text_at. by destruct (at_key ks k) as [[[s| | | |] x]|]. }
  rewrite Ha. destruct (IH (put k (at_key ks k) ks1)) as (ks2 & -> & Hk2); [done| |by intros; apply Htext; right|].
  { intros k'. rewrite at_put_same; [done|]. by rewrite Hk. }
  by exists ks2.
Qed.

Lemma first_error_all {X} (xs : list X) : first_error (inr <$> xs) = inr xs.
Proof. induction xs as [|x xs IH]; [done|]. rewrite fmap_cons. cbn [first_error]. by rewrite IH. Qed.

Lemma read_texts keys w :
  frozen w -> w_now w <= T -> (∀ k, k ∈ keys -> is_text k) ->
  exists w', run (script (pipeline ((λ k, (k, GET)) <$> keys))) w = (w', inr (text_at <$> keys)) /\ frozen w'.
Proof using HE Hset.
  intros Hf HT Htext. rewrite (run_pipeline HE).
  destruct (pipe_gets (w_now w) keys (w_redis w) HT Hf Htext) as (ks2 & -> & Hk2).
  rewrite first_error_all. by eexists.
Qed.
End Reading.

(** ** The due schedules *)

Lemma due_all_spec as_of raws :
  (∀ text, Some text ∈ raws -> exists d, json_loads text = Some (VDict d)) ->
  exists ds, due_all as_of raws = inr ds /\
    ∀ d, d ∈ ds <-> exists text, Some text ∈ raws /\ json_loads text = Some (VDict d) /\
                            is_due as_of d = true.
Proof.
  induction raws as [|raw raws IH]; intros Hobj.
  { exists []. split; [done|]. intros d. split; [by intros ?%elem_of_nil|]. intros (t & Ht & _).
    by apply elem_of_nil in Ht. }
  destruct IH as (ds & Hds & Hspec); [intros t Ht; apply Hobj; by right|].
  assert (exists ds1, due_one as_of raw = inr ds1 /\
    ∀ d, d ∈ ds1 <-> exists text, raw = Some text /\ json_loads text = Some (VDict d) /\
                             is_due as_of d = true) as (ds1 & H1 & Hs1).
  { destruct raw as [text|]; [|exists []; split; [done|]; intros d; split; [by intros ?%elem_of_nil|naive_solver]].
    destruct (Hobj text ltac:(by left)) as [d0 Hd0].
    exists (if is_due as_of d0 then [d0] else []). split.
    - unfold due_one. destruct text; [done|]. by rewrite Hd0.
    - intros d. split.
      + destruct (is_due as_of d0) eqn:Ed; [intros ->%list_elem_of_singleton; eauto|by intros ?%elem_of_nil].
      + intros (t & [= <-] & Hj & Hdue). rewrite Hd0 in Hj. injection Hj as ->. rewrite Hdue. by left. }
  exists (ds1 ++ ds). simpl. rewrite H1, Hds. split; [done|].
  intros d. rewrite elem_of_app, Hs1, Hspec. setoid_rewrite elem_of_cons. naive_solver.
Qed.

Lemma bind_time {E : Env} {A B} (m : M A) (k : A -> M B) (w : world doc_services) :
  w_now (run m w).1 <= w_now (run (bind m k) w).1.
Proof.
  rewrite run_bind. destruct (run m w) as [w' [e|a]]; simpl; [lia|]. apply run_time.
Qed.

(** The due documents of a list of schedule identifiers *)
Lemma due_of_keys reg as_of ks (ts : gset string) (idx : string -> gset string) keys :
  (∀ t s, (t, s) ∈ keys <-> t ∈ ts /\ s ∈ idx t) ->
  (∀ t s, t ∈ ts -> s ∈ idx t -> ∀ text,
     text_at ks (make_key reg t s) = Some text -> exists d, json_loads text = Some (VDict d)) ->
  exists ds, due_all as_of (text_at ks <$> ((λ p : string * string, make_key reg p.1 p.2) <$> keys)) = inr ds /\
    ∀ d, d ∈ ds <-> exists t s text, t ∈ ts /\ s ∈ idx t /\
      text_at ks (make_key reg t s) = Some text /\ json_loads text = Some (VDict d) /\ is_due as_of d = true.
Proof.
  intros Hkeys Hdocs. set (names := _ <$> keys).
  destruct (due_all_spec as_of (text_at ks <$> names)) as (ds & Hds & Hspec).
  { intros text (k & Hk & ([t s] & -> & Hp)%list_elem_of_fmap)%list_elem_of_fmap.
    apply Hkeys in Hp as [Ht Hs]. by apply (Hdocs t s Ht Hs). }
  exists ds. rewrite Hds. split; [done|]. intros d. rewrite Hspec. clear -Hkeys. split.
  - intros (text & (k & Hk & ([t s] & -> & Hp)%list_elem_of_fmap)%list_elem_of_fmap & Hj & Hd).
    apply Hkeys in Hp as [Ht Hs]. eauto 10.
  - intros (t & s & text & Ht & Hs & Hk & Hj & Hd). exists text. split; [|done].
    apply list_elem_of_fmap. exists (make_key reg t s). split; [done|].
    apply list_elem_of_fmap. exists (t, s). split; [done|]. by apply Hkeys.
Qed.

Section ListDue.
Context {E : Env} (HE : quiet E) (reg : BaseRedisRegistry).

(** [list_due] is sound and complete: over any timing, when no call fails
    and nothing expires meanwhile, it returns exactly the documents of listed
    schedules that are enabled and whose [next_fire_at] is not after [as_of]. *)
Theorem list_due_correct (S : Services) as_of ts idx (w : world S) :
  settled (w_now (run (list_due reg as_of) w).1) (ks_of w) ->
  set_of (at_key (ks_of w) (tenants_key reg)) = Some ts ->
  (∀ t, t ∈ ts -> set_of (at_key (ks_of w) (index_key reg t)) = Some (idx t)) ->
  (∀ t s, t ∈ ts -> s ∈ idx t -> is_text (ks_of w) (make_key reg t s) /\
     ∀ text, text_at (ks_of w) (make_key reg t s) = Some text -> exists d, json_loads text = Some (VDict d)) ->
  exists ds, (run (list_due reg as_of) w).2 = inr ds /\
    ∀ d, d ∈ ds <-> exists t s text, t ∈ ts /\ s ∈ idx t /\
      text_at (ks_of w) (make_key reg t s) = Some text /\ json_loads text = Some (VDict d) /\
      is_due as_of d = true.
Proof using HE.
  intros Hset Hts Hidx Hdocs.
  set (T := w_now (run (list_due reg as_of) w).1) in *. set (ks := ks_of w) in *.
  assert (HT : w_now (run (list_due reg as_of) (wview w)).1 = T) by (subst T; by rewrite run_view).
  assert (Hres : (run (list_due reg as_of) (wview w)).2 = (run (list_due reg as_of) w).2)
    by by rewrite run_view.
  rewrite <-Hres. clear Hres. clearbody T.
  assert (Hf0 : frozen ks (wview w)) by done.
  assert (Hw0 : w_now (wview w) <= T) by (rewrite <-HT; apply run_time).
  destruct (read_members HE T ks Hset _ _ _ Hf0 Hw0 Hts) as (w1 & Hr1 & Hf1).
  assert (Hl : run (list_all_tenants reg) (wview w) = (w1, inr (Some (elements ts))))
    by (apply run_log_errors_none_ok; by rewrite run_bind, Hr1).
  unfold list_due in HT |- *. rewrite run_bind, Hl in HT |- *. cbv beta iota in HT |- *.
  destruct (read_keys HE reg T ks Hset idx (elements ts) [] w1) as (w2 & Hr2 & Hf2).
  { intros t Ht%elem_of_elements. by apply Hidx. } { done. }
  { rewrite <-HT. apply bind_time. }
  change (run (schedule_keys reg (elements ts)) w1 = (w2, inr (elements ts ≫= λ t, (λ sid, (t, sid)) <$> elements (idx t)))) in Hr2.
  rewrite run_bind, Hr2 in HT |- *. cbv beta iota in HT |- *.
  set (keys := elements ts ≫= _) in *.
  assert (Hkeys : ∀ t s, (t, s) ∈ keys <-> t ∈ ts /\ s ∈ idx t).
  { intros t s. subst keys. rewrite list_elem_of_bind. setoid_rewrite list_elem_of_fmap.
    setoid_rewrite elem_of_elements. naive_solver. }
  clearbody keys. case_bool_decide as Hn.
  { apply length_zero_iff_nil in Hn as ->. exists []. split; [done|]. intros d. split; [by intros ?%elem_of_nil|].
    intros (t & s & text & Ht & Hs & _).
    assert ((t, s) ∈ ([] : list (string * string))) as Hin by by apply Hkeys. by apply elem_of_nil in Hin. }
  set (names := (λ p : string * string, make_key reg p.1 p.2) <$> keys).
  assert (Heq : (λ p : string * string, (make_key reg p.1 p.2, GET)) <$> keys = (λ k, (k, GET)) <$> names)
    by (subst names; by rewrite <-list_fmap_compose).
  rewrite Heq in HT |- *.
  assert (Hw2 : w_now w2 <= T) by (rewrite <-HT; apply run_time).
  destruct (read_texts HE T ks Hset names w2 Hf2 Hw2) as (w3 & Hr3 & _).
  { intros k ([t s] & -> & Hp)%list_elem_of_fmap. apply Hkeys in Hp as [Ht Hs]. by apply Hdocs. }
  rewrite run_bind, Hr3. cbv beta iota.
  destruct (due_of_keys reg as_of ks ts idx keys Hkeys) as (ds & Hds & Hspec).
  { intros t s Ht Hs. by apply Hdocs. }
  exists ds. fold names in Hds. rewrite Hds. by split.
Qed.
End ListDue.

(** ** Firing a schedule *)

Section Fire.
Context `{Cjson} {E : Env} (HE : quiet E) (reg : BaseRedisRegistry).

(** The document of a schedule, unexpired at [now]. *)
Definition has_doc (now : Z) (ks : keyspace) (key : string) (d : dict) : Prop :=
  exists text x, live now ks key = Some (REntry (RStr text) x) /\ json_loads text = Some (VDict d).

(** The advance script sets the next time and keeps the other plain fields; the
    document it leaves has no expiry. *)
Lemma advance_script now ks key d next_iso now_iso :
  has_doc now ks key d ->
  exists text' d', lua_run now (lua_advance_next_fire key next_iso now_iso) ks =
      (put key (Some (REntry (RStr text') None)) ks, inr 1) /\
    json_loads text' = Some (VDict d') /\
    same_fields (dict_set "last_triggered_at" (VStr now_iso) (dict_set "next_fire_at" (VStr next_iso) d)) d'.
Proof.
  intros (text & x & Hl & Hj). unfold lua_advance_next_fire.
  rewrite lua_run_call, Hl, act_GET_str. cbv beta iota. rewrite lua_run_bind.
  destruct (cjson_decode_ok text d Hj) as (t & Ht & Hsame). unfold lua_decode. rewrite Ht.
  change (lua_run now (LRet t) ?k) with (k, inr t : exn + dict). cbv beta iota zeta.
  set (t' := dict_set "last_triggered_at" _ _).
  rewrite lua_run_call, act_SET. cbv beta iota. rewrite put_put.
  destruct (cjson_encode_ok t') as (d' & Hd' & Hsame').
  eexists (cjson_encode t'), d'. split; [done|]. split; [done|].
  eapply same_fields_trans; [|done]. subst t'. apply same_fields_set; [done|]. by apply same_fields_set.
Qed.

Lemma advance_run t s d next (w : world doc_services) :
  has_doc (w_now (after (w_redis w) (w_db w) w)) (w_redis w) (make_key reg t s) d ->
  exists w' text d', run (advance_next_fire reg t s next) w = (w', inr true) /\
    at_key (w_redis w') (make_key reg t s) = Some (REntry (RStr text) None) /\
    json_loads text = Some (VDict d') /\
    same_fields (dict_set "last_triggered_at" (VStr (isoformat (w_now w)))
                   (dict_set "next_fire_at" (VStr (isoformat next)) d)) d'.
Proof using HE.
  intros Hd. unfold advance_next_fire. rewrite run_bind, run_time_ms. cbv beta iota.
  rewrite run_bind, run_script. destruct HE as [-> _].
  destruct (advance_script _ _ _ d (isoformat next) (isoformat (w_now w)) Hd)
    as (text & d' & Hrun & Hj & Hsame).
  change (w_redis (after (w_redis w) (w_db w) w)) with (w_redis w).
  rewrite Hrun. cbv beta iota. eexists _, text, d'. split; [done|]. simpl.
  split; [apply at_put_eq|]. done.
Qed.

(** When the document a schedule was advanced to is due. *)
Lemma advanced_due d d' now_iso next as_of b :
  in_years next -> dict_get "enabled" d = Some (VBool b) ->
  same_fields (dict_set "last_triggered_at" (VStr now_iso)
                 (dict_set "next_fire_at" (VStr (isoformat next)) d)) d' ->
  is_due as_of d' = b && (next <=? as_of).
Proof.
  intros Hy Hen Hsame.
  assert (Hn : dict_get "next_fire_at" d' = Some (VStr (isoformat next))).
  { apply Hsame; [done|]. rewrite dict_get_set_ne by done. by rewrite dict_get_set_eq. }
  assert (He : dict_get "enabled" d' = Some (VBool b)).
  { apply Hsame; [done|]. by rewrite !dict_get_set_ne by done. }
  unfold is_due, fires_by, dict_get_or. rewrite He, Hn. cbn [default from_option truthy id].
  rewrite iso_roundtrip by done. rewrite bool_decide_eq_false_2; [done|].
  intros Hnil. pose proof (iso_roundtrip next Hy) as Hr. by rewrite Hnil in Hr.
Qed.

(** The reverse index leads to the schedule's document. *)
Lemma update_next_fire_run t sid d b next T (w : world doc_services) :
  w_now (run (update_next_fire reg sid next) w).1 <= T ->
  (∀ t1, w_now w <= t1 <= T ->
     exists h, hash_of (live t1 (w_redis w) SCHEDULE_TENANT_IDX) = Some h /\ h !! sid = Some t) ->
  t <> "" -> make_key reg t sid <> SCHEDULE_TENANT_IDX ->
  (∀ t1, w_now w <= t1 <= T -> has_doc t1 (w_redis w) (make_key reg t sid) d) ->
  in_years next -> dict_get "enabled" d = Some (VBool b) ->
  exists w' text d', run (update_next_fire reg sid next) w = (w', inr tt) /\
    at_key (w_redis w') (make_key reg t sid) = Some (REntry (RStr text) None) /\
    json_loads text = Some (VDict d') /\ ∀ as_of, is_due as_of d' = b && (next <=? as_of).
Proof using HE.
  intros HT Hidx Ht Hne Hdoc Hy Hen.
  assert (Hw : w_now w <= T) by (etrans; [|exact HT]; apply run_time). revert HT. unfold update_next_fire.
  destruct (Hidx (w_now w) ltac:(lia)) as (h & Hh & Hl).
  rewrite run_bind, run_redis. pose proof HE as [-> _]. rewrite (act_HGET _ _ _ _ Hh), Hl. cbv beta iota.
  destruct t as [|c t]; [done|]. set (w1 := after _ _ w). intros HT.
  assert (Hw1 : w_now (after (w_redis w1) (w_db w1) w1) <= T).
  { eapply Z.le_trans; [|exact HT]. eapply Z.le_trans; [|apply bind_time]. unfold advance_next_fire.
    rewrite run_bind, run_time_ms. cbv beta iota. apply run_time. }
  destruct (advance_run (String c t) sid d next w1) as (w2 & text & d' & Hr & Hk & Hj & Hsame).
  { set (t2 := w_now (after _ _ w1)). destruct (Hdoc t2) as (text & x & Hlive & Hj); [subst t2; split; [|done]; subst w1; simpl; lia|].
    exists text, x. split; [|done]. simpl (w_redis w1). by rewrite live_put_ne by by apply not_eq_sym. }
  exists w2, text, d'. rewrite run_bind, Hr. split_and!; [done..|].
  intros as_of. by apply (advanced_due d d' (isoformat (w_now w1))).
Qed.
End Fire.

(** A schedule fires once per occurrence.  When the task of a due schedule
    was created and the reverse index names its tenant, [fire_one] stores the
    next time of the cron expression: the schedule is not due again before that
    time, is due from then on if it is enabled, and its document no longer
    expires. *)
Theorem fired_until_next (S : Services) (C : Cjson) (E : Env) reg croniter_next create_task repr
    d0 d now next t sid b (w w1 : world S) :
  quiet E -> dict_get "schedule_id" d0 = Some (VStr sid) ->
  run (create_task (proxy_attr d0 "tenant_id" (VStr "")) (idem_key sid now) (template_of d0)) w =
    (w1, inr tt) ->
  croniter_next (attr_text (proxy_attr d0 "cron_expr" (VStr ""))) now = inr next -> in_years next ->
  let T := w_now (run (fire_one reg croniter_next create_task repr d0 now) w).1 in
  (∀ t1, w_now w1 <= t1 <= T ->
     exists h, hash_of (live t1 (ks_of w1) SCHEDULE_TENANT_IDX) = Some h /\ h !! sid = Some t) ->
  t <> "" -> make_key reg t sid <> SCHEDULE_TENANT_IDX ->
  (∀ t1, w_now w1 <= t1 <= T -> has_doc t1 (ks_of w1) (make_key reg t sid) d) ->
  dict_get "enabled" d = Some (VBool b) ->
  exists w' text d', run (fire_one reg croniter_next create_task repr d0 now) w = (w', inr tt) /\
    at_key (ks_of w') (make_key reg t sid) = Some (REntry (RStr text) None) /\
    json_loads text = Some (VDict d') /\
    ∀ as_of, is_due as_of d' = b && (next <=? as_of).
Proof.
  intros HE Hsid Hcreate Hnext Hy T Hidx Ht Hne Hdoc Hen.
  assert (Hfire : run (fire_one reg croniter_next create_task repr d0 now) w =
                  run (update_next_fire reg sid next) w1).
  { unfold fire_one, proxy_attr. rewrite Hsid. cbn [default from_option attr_text id].
    rewrite run_bind, run_except, run_bind. fold (proxy_attr d0 "tenant_id" (VStr "")). rewrite Hcreate.
    cbv beta iota. change (run (ret true) w1) with (w1, inr true : exn + bool). cbv beta iota.
    rewrite run_bind. fold (proxy_attr d0 "cron_expr" (VStr "")). by rewrite Hnext. }
  subst T. rewrite Hfire in Hidx, Hdoc |- *.
  destruct (update_next_fire_run HE reg t sid d b next (w_now (run (update_next_fire reg sid next) w1).1)
    (wview w1)) as (w' & text & d' & Hr & Hrest); [by rewrite run_view|done..|].
  rewrite run_view in Hr. injection Hr as <- Hr.
  exists (run (update_next_fire reg sid next) w1).1, text, d'. split; [|done].
  rewrite <-Hr. apply surjective_pairing.
Qed.

(** An invalid cron expression raises after the task was created and ends the
    scheduler's loop: [croniter] raises a [ValueError], which passes through
    [log_errors]. *)
Lemma bad_expression_stops (S : Services) (C : Cjson) (E : Env) reg croniter_next create_task repr
    d0 now m (w w1 : world S) :
  run (create_task (proxy_attr d0 "tenant_id" (VStr ""))
         (idem_key (attr_text (proxy_attr d0 "schedule_id" (VStr (repr d0)))) now) (template_of d0)) w =
    (w1, inr tt) ->
  croniter_next (attr_text (proxy_attr d0 "cron_expr" (VStr ""))) now = inl (Exn ValueError m) ->
  run (fire_one reg croniter_next create_task repr d0 now) w = (w1, inl (Exn ValueError m)).
Proof.
  intros Hcreate Hnext. unfold fire_one. rewrite run_bind, run_except, run_bind, Hcreate.
  cbv beta iota. change (run (ret true) w1) with (w1, inr true : exn + bool). cbv beta iota.
  by rewrite run_bind, Hnext.
Qed.

(** ** Two leaders *)

(** A service where the third call takes two minutes. *)
Definition slow_third : Env := {|
  delay := λ n, if decide (n = 2%nat) then 120000%N else 0%N;
  redis_fault := λ _, None;
  db_fault := λ _, None;
  uuid_at := λ n, "uuid-" +:+ dec_of_N (N.of_nat n);
  scan_slice := λ _ _ _ ks, (0, ks);
  http_answer := λ _ _, inr {| resp_status := 200; resp_body := "" |};
  invoke_answer := λ _ _ v, inr v
|}.

Definition cron_of (id : string) : CronScheduler :=
  {| cs_instance_id := id; cs_poll_interval := 60000; cs_leader_ttl := LEADER_TTL |}.

(** The cron leader is not exclusive.  Between the [GET] that finds its own
    identifier and the [EXPIRE], the lease can run out and pass to another
    instance; both are then told that they lead, and the [EXPIRE] renews the
    other's lease. *)
Theorem cron_two_leaders :
  let '(ps, w') := interleave (S := doc_services) (E := slow_third) [0; 1; 1; 2; 1]%nat
    [cron_try_become_leader (cron_of "a"); cron_try_become_leader (cron_of "a");
     cron_try_become_leader (cron_of "b")] (world0 0) in
  ps !! 1%nat = Some (ret true) /\ ps !! 2%nat = Some (ret true) /\
  str_at (w_now w') (ks_of w') LEADER_KEY = Some "b".
Proof. vm_compute. auto. Qed.

(** ** Witnesses *)

Definition sched_reg : BaseRedisRegistry := ScheduleRegistry_init 31536000.

Definition demo_schedule : dict :=
  [("schedule_id", VStr "s1"); ("tenant_id", VStr "t1"); ("cron_expr", VStr "* * * * *");
   ("enabled", VBool true); ("next_fire_at", VStr "2024-02-29T12:00:00+00:00")].

Definition w_sched : world doc_services :=
  (run (S := doc_services) (E := calm)
     (schedule_set sched_reg "t1" "s1" (VDict demo_schedule)) (world0 1709208000000)).1.

Lemma demo_text :
  text_at (ks_of w_sched) (make_key sched_reg "t1" "s1") = Some (orjson_dumps (VDict demo_schedule)).
Proof. vm_compute. reflexivity. Qed.

Lemma list_due_correct_witness :
  (run (S := doc_services) (E := calm) (list_due sched_reg 1709208000000) w_sched).2 =
    inr [demo_schedule] /\
  exists ds, (run (S := doc_services) (E := calm) (list_due sched_reg 1709207999999) w_sched).2 = inr ds /\
    demo_schedule ∉ ds.
Proof.
  split; [vm_compute; reflexivity|].
  destruct (list_due_correct calm_quiet sched_reg doc_services 1709207999999 {["t1"]} (λ _, {["s1"]}) w_sched)
    as (ds & Hr & Hspec).
  - assert (Hnow : w_now (run (S := doc_services) (E := calm) (list_due sched_reg 1709207999999) w_sched).1 =
                   1709208000000) by (vm_compute; reflexivity).
    rewrite Hnow.
    assert (Hall : forallb (λ ke, negb (expired 1709208000000 ke.2)) (map_to_list (ks_of w_sched)) = true)
      by (vm_compute; reflexivity).
    intros k e He. rewrite forallb_forall in Hall. apply negb_true_iff, (Hall (k, e)).
    rewrite <-list_elem_of_In. by apply elem_of_map_to_list.
  - vm_compute. reflexivity.
  - intros t ->%elem_of_singleton. vm_compute. reflexivity.
  - intros t s ->%elem_of_singleton ->%elem_of_singleton. split; [vm_compute; exact I|].
    intros text Ht. rewrite demo_text in Ht. injection Ht as <-. exists demo_schedule.
    apply loads_orjson_dumps.
  - exists ds. split; [exact Hr|]. intros (t & s & text & _ & _ & Ht & Hj & Hd)%Hspec.
    vm_compute in Hd. discriminate.
Defined.

Lemma fired_until_next_witness : exists w' text d',
  run (S := doc_services) (E := calm)
    (fire_one (H := table_cjson) sched_reg (λ _ now, inr (now + 60000)) (λ _ _ _, ret tt) (λ _, "")
       demo_schedule 1709208000000) w_sched = (w', inr tt) /\
  at_key (ks_of w') (make_key sched_reg "t1" "s1") = Some (REntry (RStr text) None) /\
  json_loads text = Some (VDict d') /\
  ∀ as_of, is_due as_of d' = true && (1709208060000 <=? as_of).
Proof.
  assert (Hlo : w_now w_sched = 1709208000000) by (vm_compute; reflexivity).
  assert (Hup : w_now (run (S := doc_services) (E := calm)
    (fire_one (H := table_cjson) sched_reg (λ _ now, inr (now + 60000)) (λ _ _ _, ret tt) (λ _, "")
       demo_schedule 1709208000000) w_sched).1 = 1709208000000) by (vm_compute; reflexivity).
  apply (fired_until_next doc_services table_cjson calm sched_reg (λ _ now, inr (now + 60000))
    (λ _ _ _, ret tt) (λ _, "") demo_schedule demo_schedule 1709208000000 1709208060000 "t1" "s1" true
    w_sched w_sched).
  - exact calm_quiet.
  - reflexivity.
  - reflexivity.
  - reflexivity.
  - vm_compute. split; discriminate.
  - intros t1 Ht1. rewrite Hlo, Hup in Ht1. assert (t1 = 1709208000000) as -> by lia.
    exists {["s1" := "t1"]}. split; [vm_compute; reflexivity|reflexivity].
  - discriminate.
  - vm_compute. discriminate.
  - intros t1 Ht1. rewrite Hlo, Hup in Ht1. assert (t1 = 1709208000000) as -> by lia.
    exists (orjson_dumps (VDict demo_schedule)). eexists. split; [|apply loads_orjson_dumps].
    vm_compute. reflexivity.
  - reflexivity.
Defined.
