(* ===== verification/Auth.v ===== *)
(** * Authentication

    [src/api/auth.py]: the API key of a request becomes a tenant context, or an
    HTTP error.  The settings are those cached in [app.state.auth_settings]. *)

From Stdlib Require Import Ascii.
From stdpp Require Import base gmap strings list.
From S2P Require Import Prelude PyValue Json Sha256 Redis TaskModel Tables Effects ErrorHandling.
From S2P Require Import TaskCompletion Registry TenantRegistry.

Open Scope Z_scope.

Record AuthSettings := {
  super_admin_key : option string;
  multi_tenant_enabled : bool
}.

Definition str_drop (n : nat) (s : string) : string := String.substring n (String.length s - n) s.

Definition mask_api_key (api_key : string) : string :=
  if (String.length api_key =? 0)%nat then ""
  else if (String.length api_key <=? 8)%nat then "****"
  else str_take 4 api_key +:+ "***" +:+ str_drop (String.length api_key - 4) api_key.

(** [hmac.compare_digest] on texts accepts ASCII only. *)
Definition compare_digest (a b : string) : exn + bool :=
  let ascii s := string_forall (λ c, nat_of_ascii c <? 128)%nat s in
  if ascii a && ascii b then inr (bool_decide (a = b))
  else inl (Exn TypeError "comparing strings with non-ASCII characters is not supported").

(** [super_admin_key and hmac.compare_digest(api_key, super_admin_key)] *)
Definition is_super_key (st : AuthSettings) (api_key : string) : exn + bool :=
  match super_admin_key st with
  | None | Some "" => inr false
  | Some key => compare_digest api_key key
  end.

Definition super_context (api_key : string) : list (string * value) :=
  [("tenant_id", VStr "super_admin"); ("api_key", VStr (mask_api_key api_key));
   ("is_super_admin", VBool true); ("quota", VNone)].

(** [f"{status}"] *)
Definition status_text (v : value) : string := py_str v.

Definition is_active (status : value) : bool :=
  py_eq status (VStr "active") || py_eq status (VStr "ACTIVE").

Definition tenant_context (d : list (string * value)) (status : value) : list (string * value) :=
  [("tenant_id", dict_get_or "tenant_id" (VStr "") d);
   ("tenant_name", dict_get_or "tenant_name" (VStr "") d);
   ("is_super_admin", VBool false); ("quota", dict_get_or "quota" VNone d); ("status", status)].

Section Authenticate.
Context (st : AuthSettings) (registry : BaseRedisRegistry) (has_redis : bool).

(** [tenant_data.get] needs a dictionary. *)
Definition tenant_of (tenant_data : value) : M (list (string * value)) :=
  match tenant_data with
  | VNone => raise (HTTPException 401 "Invalid API key")
  | VDict d =>
      let status := dict_get_or "status" (VStr "active") d in
      if is_active status then ret (tenant_context d status)
      else raise (HTTPException 403 ("Tenant is " +:+ status_text status +:+ ", access denied"))
  | _ => raise (Exn AttributeError "get")
  end.

(** [credentials] is the bearer token, [header] the tenant header's text. *)
Definition authenticate (credentials header : option string) : M (list (string * value)) :=
  match credentials with
  | None => raise (HTTPException 401 "Missing API key")
  | Some api_key =>
      let tenant_id_hint := match header with Some (String _ _) => header | _ => None end in
      if negb (multi_tenant_enabled st) then
        let* ok := of_sum (is_super_key st api_key) in
        if ok then ret (super_context api_key) else raise (HTTPException 401 "Invalid API key")
      else if negb has_redis then raise (HTTPException 503 "Auth service unavailable (no redis)")
      else
        let* ok := of_sum (is_super_key st api_key) in
        if ok then ret (super_context api_key)
        else
          let* tenant_data := validate_key registry api_key tenant_id_hint in
          tenant_of tenant_data
  end.
End Authenticate.

(** ** What a context says *)

Lemma run_of_sum {S : Services} {E : Env} {A} (x : exn + A) (w : world S) : run (of_sum x) w = (w, x).
Proof. by destruct x. Qed.

Section Contexts.
Context {S : Services} {E : Env} (st : AuthSettings) (reg : BaseRedisRegistry) (has_redis : bool).
Implicit Types (w : world S) (ctx : list (string * value)).

Lemma run_tenant_of w w' v ctx :
  run (tenant_of v) w = (w', inr ctx) ->
  w' = w /\ exists d, v = VDict d /\ is_active (dict_get_or "status" (VStr "active") d) = true /\
    ctx = tenant_context d (dict_get_or "status" (VStr "active") d).
Proof.
  unfold tenant_of. destruct v as [| | | | | |d]; try (intros [=]; fail).
  destruct (is_active _) eqn:Ea; intros [=]. subst. split; [done|]. by exists d.
Qed.

(** A successful call, branch by branch. *)
Lemma authenticate_inv creds header w w' ctx :
  run (authenticate st reg has_redis creds header) w = (w', inr ctx) ->
  exists k, creds = Some k /\
    ((is_super_key st k = inr true /\ ctx = super_context k /\ w' = w) \/
     (multi_tenant_enabled st = true /\ is_super_key st k = inr false /\ exists d,
        run (validate_key reg k (match header with Some (String _ _) => header | _ => None end)) w =
          (w', inr (VDict d)) /\
        is_active (dict_get_or "status" (VStr "active") d) = true /\
        ctx = tenant_context d (dict_get_or "status" (VStr "active") d))).
Proof.
  destruct creds as [k|]; [|intros [=]]. intros Hr. exists k. split; [done|].
  unfold authenticate in Hr. destruct (multi_tenant_enabled st); simpl negb in Hr; cbv iota in Hr.
  - destruct has_redis; [|discriminate Hr]. simpl negb in Hr. cbv iota in Hr.
    rewrite run_bind, run_of_sum in Hr. destruct (is_super_key st k) as [e|[]]; [done| |].
    + injection Hr as <- <-. by left.
    + right. rewrite run_bind in Hr.
      destruct (run (validate_key _ _ _) w) as [w1 [e|v]] eqn:Ev; [done|].
      apply run_tenant_of in Hr as (-> & d & -> & Ha & ->). split_and!; [done..|]. by exists d.
  - rewrite run_bind, run_of_sum in Hr. destruct (is_super_key st k) as [e|[]]; [done| |done].
    injection Hr as <- <-. by left.
Qed.

Lemma context_has_no_role creds header w w' ctx :
  run (authenticate st reg has_redis creds header) w = (w', inr ctx) -> dict_get "role" ctx = None.
Proof.
  intros (k & -> & [(_ & -> & _)|(_ & _ & d & _ & _ & ->)])%authenticate_inv; reflexivity.
Qed.
End Contexts.

(** ** The verdict as a function of the stored data *)

(** [get_tenant] of a stored record. *)
Definition stored_tenant (o : option value) : exn + value :=
  match default VNone o with
  | VStr s => match json_loads s with Some v => inr v | None => inl (Exn ValueError "JSONDecodeError") end
  | v => inr v
  end.

Definition judge (v : value) : exn + list (string * value) :=
  match v with
  | VNone => inl (HTTPException 401 "Invalid API key")
  | VDict d =>
      let status := dict_get_or "status" (VStr "active") d in
      if is_active status then inr (tenant_context d status)
      else inl (HTTPException 403 ("Tenant is " +:+ status_text status +:+ ", access denied"))
  | _ => inl (Exn AttributeError "get")
  end.

(** The tenant [owner] of the key, and its record [rec]. *)
Definition verdict (owner : option string) (rec : string -> option value) (header : option string) :
    exn + list (string * value) :=
  match owner with
  | None => inl (HTTPException 401 "Invalid API key")
  | Some t =>
      if match header with None | Some "" => true | Some t' => bool_decide (t = t') end
      then match stored_tenant (rec t) with inl e => inl e | inr v => judge v end
      else inl (HTTPException 401 "Invalid API key")
  end.

Section Verdict.
Context {E : Env} (HE : quiet E) (reg : BaseRedisRegistry).
Implicit Types (w : world doc_services).

Lemma run_get_tenant w t o :
  at_key (w_redis w) (make_key reg t t) = item_entry <$> o ->
  (run (get_tenant reg t) w).2 = stored_tenant o.
Proof.
  intros Hk. unfold get_tenant. rewrite run_bind.
  assert (Hg : (run (reg_get reg t t) w).2 = inr (default VNone o)).
  { destruct o as [v|].
    - rewrite (run_reg_get HE reg t t (orjson_dumps v) w Hk). simpl. by rewrite loads_orjson_dumps.
    - by rewrite (run_reg_get_none HE reg t t w Hk). }
  destruct (run (reg_get reg t t) w) as [w1 x]; simpl in Hg; subst x. cbv beta iota.
  unfold stored_tenant. destruct (default VNone o); try done. by destruct (json_loads _).
Qed.

Lemma run_validate_key w k h rec hint :
  at_key (w_redis w) API_KEYS_HASH = keep (RHash h) None ->
  (∀ t, h !! sha256_hexdigest k = Some t ->
     at_key (w_redis w) (make_key reg t t) = item_entry <$> rec t) ->
  (run (validate_key reg k hint) w).2 =
  match h !! sha256_hexdigest k with
  | None => inr VNone
  | Some t => if match hint with None => true | Some t' => bool_decide (t = t') end
              then stored_tenant (rec t) else inr VNone
  end.
Proof.
  intros Hh Hrec. unfold validate_key, verify_api_key_hash.
  rewrite run_bind, (run_persistent HE _ _ _ _ _ _ Hh (persistent_keep _)
                       (act_HGET _ _ _ _ (hash_of_keep _ _))). cbv beta iota.
  set (w1 := after _ _ w). destruct (h !! sha256_hexdigest k) as [t|] eqn:Eh; [|done].
  assert (Hget : (run (get_tenant reg t) w1).2 = stored_tenant (rec t)).
  { apply run_get_tenant. subst w1. simpl. rewrite <-Hh, at_put_same by done. by apply Hrec. }
  destruct hint as [t'|]; [|exact Hget]. case_bool_decide; case_decide; done.
Qed.
End Verdict.

(** C17: authentication is a function of the stored data.  In multi-tenant mode,
    over any Redis server and any timing, when no call fails: the super-admin key
    gives the super-admin context; any other key is looked up by its digest
    alone, and the answer is [verdict]: 401 when no tenant owns it, when the
    tenant header names another tenant or when the tenant has no record, 403 when
    its record is not active, and otherwise the context of the tenant that owns
    the key. *)
Theorem authenticate_correct (S : Services) (E : Env) st reg k header h rec (w : world S) :
  quiet E -> multi_tenant_enabled st = true ->
  at_key (ks_of w) API_KEYS_HASH = keep (RHash h) None ->
  (∀ t, h !! sha256_hexdigest k = Some t ->
     at_key (ks_of w) (make_key reg t t) = item_entry <$> rec t) ->
  (run (authenticate st reg true (Some k) header) w).2 =
  match is_super_key st k with
  | inl e => inl e
  | inr true => inr (super_context k)
  | inr false => verdict (h !! sha256_hexdigest k) rec header
  end.
Proof.
  intros HE Hm Hh Hrec.
  enough (H : (run (authenticate st reg true (Some k) header) (wview w)).2 =
              match is_super_key st k with
              | inl e => inl e
              | inr true => inr (super_context k)
              | inr false => verdict (h !! sha256_hexdigest k) rec header
              end) by by rewrite run_view in H.
  unfold authenticate. rewrite Hm. simpl negb. cbv iota. rewrite run_bind, run_of_sum.
  destruct (is_super_key st k) as [e|[]]; [done|done|]. rewrite run_bind.
  pose proof (run_validate_key HE reg (wview w) k h rec
    (match header with Some (String _ _) => header | _ => None end) Hh Hrec) as Hv.
  destruct (run (validate_key _ _ _) (wview w)) as [w1 x]. simpl in Hv. subst x.
  unfold verdict. destruct (h !! sha256_hexdigest k) as [t|]; [|done].
  destruct header as [[|c s]|]; [| |]; try destruct (bool_decide _); try done;
    (destruct (stored_tenant (rec t)) as [e|[]]; try done; simpl; by destruct (is_active _)).
Qed.

Definition acme : list (string * value) :=
  [("tenant_id", VStr "acme"); ("tenant_name", VStr "Acme"); ("status", VStr "active")].

Definition w_acme : world doc_services :=
  World (S := doc_services)
    ({[ API_KEYS_HASH := REntry (RHash {[ sha256_hexdigest "ramu_1" := "acme" ]}) None;
        "tenant:acme:acme" := item_entry (VDict acme) ]} : keyspace)
    empty_tables 0 0%nat [].

#[local] Opaque sha256_hexdigest.

Lemma authenticate_correct_witness :
  let st := {| super_admin_key := Some "root"; multi_tenant_enabled := true |} in
  let auth k header := (run (S := doc_services) (E := calm)
    (authenticate st (TenantRegistry_init 0) true (Some k) header) w_acme).2 in
  auth "ramu_1" None = inr (tenant_context acme (VStr "active")) /\
  auth "ramu_1" (Some "other") = inl (HTTPException 401 "Invalid API key") /\
  auth "root" None = inr (super_context "root").
Proof.
  intros st auth. subst auth. cbv beta.
  assert (Hh : at_key (ks_of w_acme) API_KEYS_HASH =
               keep (RHash {[ sha256_hexdigest "ramu_1" := "acme" ]}) None) by reflexivity.
  assert (Hr : ∀ k t, ({[ sha256_hexdigest "ramu_1" := "acme" ]} : gmap string string)
      !! sha256_hexdigest k = Some t ->
    at_key (ks_of w_acme) (make_key (TenantRegistry_init 0) t t) =
    item_entry <$> (λ _, Some (VDict acme)) t).
  { intros k t [_ <-]%lookup_singleton_Some. reflexivity. }
  pose proof (λ k header, authenticate_correct doc_services calm st (TenantRegistry_init 0) k header _ _
    w_acme calm_quiet eq_refl Hh (Hr k)) as H.
  split_and!; rewrite H; simpl is_super_key; cbv iota.
  - rewrite lookup_singleton_eq. reflexivity.
  - rewrite lookup_singleton_eq. reflexivity.
  - reflexivity.
Defined.
