(* ===== verification/Policies.v ===== *)
(** * Replay and governance policies

    [src/services/governance.py], [replay_policy.py], [force_operations.py],
    [access_policy.py], [recovery_explainer.py], [replay_lineage.py] and
    [replay_chain_queries.py].  A service without a session factory is [db =
    false]; metrics and log lines are left out. *)

From Stdlib Require Import Ascii.
From stdpp Require Import base gmap strings list.
From S2P Require Import Prelude PyValue Json IsoTime Redis TaskModel Tables Effects Tracking PySort.

Open Scope Z_scope.

(** ** Governance *)

Definition DEFAULT_HIGH_RISK_OPS : list string :=
  ["force_replay_on_active_lease"; "force_replay_on_running_task"; "force_replay_without_reason";
   "force_acknowledge_dead_letter_without_review"; "force_lease_eviction"].

(** The operations of the configuration, when it names any. *)
Definition GovernanceService (config : option (list string)) : list string :=
  default DEFAULT_HIGH_RISK_OPS config.

Definition is_high_risk_operation (high_risk : list string) (operation : string) : bool :=
  bool_decide (operation ∈ high_risk).

Definition requires_strong_audit (high_risk : list string) (operation : string) : bool :=
  is_high_risk_operation high_risk operation.

Definition allowed_role_categories (high_risk : list string) (operation : string) : list string :=
  if is_high_risk_operation high_risk operation then ["admin"] else ["operator"; "admin"].

(** ** Access *)

Definition resolve_tenant_id (auth : list (string * value)) (fallback : string) : value :=
  py_or (dict_get_or "tenant_id" (VStr fallback) auth) (VStr fallback).

Definition require_super_admin (auth : list (string * value)) : exn + unit :=
  if truthy (dict_get_or "is_super_admin" VNone auth) then inr tt
  else inl (HTTPException 403 "Super-admin only").

Definition require_same_tenant_or_super_admin (auth : list (string * value)) (tenant_id : string) :
    exn + unit :=
  let caller_tid := dict_get_or "tenant_id" (VStr "") auth in
  if negb (truthy (dict_get_or "is_super_admin" VNone auth)) && negb (py_eq caller_tid (VStr tenant_id))
  then inl (HTTPException 403 "Access denied") else inr tt.

(** ** Replay policy *)

Record ReplayPolicyService := {
  rp_redis : bool;
  rp_db : bool;
  rp_max_replays : Z;
  rp_window_seconds : Z
}.

Definition is_replay (m : mysql_server) (task_id : string) (cutoff : Z) (r : OperatorActionRecord) : bool :=
  text_eq m (oa_target_id r) task_id && text_eq m (oa_action_type r) "task_replay_requested" &&
  (cutoff <=? oa_created_at r).

(** The rows the query counts. *)
Definition recent_replays (task_id : string) (cutoff : Z) (t : tables) : Z :=
  Z.of_nat (length (filter (λ r, Is_true (is_replay (db_server t) task_id cutoff r)) (db_actions t))).

Section ReplayPolicy.
Context (rp : ReplayPolicyService).

Definition count_recent_replays (task_id : string) : M Z :=
  if negb (rp_db rp) then ret 0 else
  let* now := time_ms in
  let cutoff := now - rp_window_seconds rp * 1000 in
  sql_read (recent_replays task_id cutoff).

Definition rate_reason (recent : Z) : string :=
  "replay rate limit exceeded: " +:+ dec_of_Z recent +:+ "/" +:+ dec_of_Z (rp_max_replays rp) +:+
  " replays in last " +:+ dec_of_Z (rp_window_seconds rp) +:+ "s".

(** [allowed] and [reasons] after each of the three checks *)
Definition lease_verdict (lock_exists : bool) (actor_role : string) (v : bool * list string) :
    bool * list string :=
  if lock_exists then
    if bool_decide (actor_role = "admin")
    then (true, v.2 ++ ["active execution lease exists";
                        "admin override for force replay on active lease"])
    else (false, v.2 ++ ["active execution lease exists"])
  else v.

Definition check_task_replay_allowed (task_id : string) (reason : option string) (actor_role : string) :
    M (bool * list string) :=
  let v := match reason with
           | None | Some "" => (false, ["replay reason is required"])
           | _ => (true, [])
           end in
  let* v := if rp_redis rp then
              let* n := redis ("task_lock:" +:+ task_id) EXISTS in
              ret (lease_verdict (negb (n =? 0)) actor_role v)
            else ret v in
  let* recent := count_recent_replays task_id in
  let v := if recent >=? rp_max_replays rp then (false, v.2 ++ [rate_reason recent]) else v in
  ret (v.1, match v.2 with [] => ["allowed"] | rs => rs end).
End ReplayPolicy.

(** ** Replay lineage *)

(** [x or ""] *)
Definition or_empty (o : option string) : value := VStr (default "" o).

Definition replay_task (db : bool) (task_id actor : string) (reason from_run_key : option string) :
    M (list (string * value)) :=
  if negb db then ret [("ok", VBool false); ("task_id", VStr task_id)] else
  let* new_run_key := create_task_run db task_id 0 "replay_requested" None None None in
  do* record_action db actor "task_replay_requested" "task" task_id reason
        [("from_run_key", or_empty from_run_key); ("new_run_key", or_empty new_run_key)] (Some task_id) in
  do* emit db task_id "task_replay_requested"
        [("actor", VStr actor); ("reason", or_empty reason); ("from_run_key", or_empty from_run_key);
         ("new_run_key", or_empty new_run_key)] new_run_key in
  ret [("ok", VBool true); ("task_id", VStr task_id); ("new_run_key", opt_value new_run_key);
       ("from_run_key", opt_value from_run_key)].

(** ** Force operations *)

Section Force.
Context (db : bool) (high_risk : list string).

Definition role_error (operation actor_role : string) : list (string * value) :=
  [("ok", VBool false); ("operation", VStr operation); ("error", VStr "insufficient role");
   ("required_roles", VList (VStr <$> allowed_role_categories high_risk operation));
   ("actor_role", VStr actor_role)].

Definition reason_error (operation : string) : list (string * value) :=
  [("ok", VBool false); ("operation", VStr operation);
   ("error", VStr "reason required for high-risk force operation")].

Definition execute_force_operation (operation actor actor_role : string) (reason : option string)
    (target_type target_id : string) (payload : list (string * value)) (task_id : option string)
    (executor : option (M value)) : M (list (string * value)) :=
  let allowed_roles := allowed_role_categories high_risk operation in
  let is_high_risk := is_high_risk_operation high_risk operation in
  if negb (bool_decide (actor_role ∈ allowed_roles)) then ret (role_error operation actor_role)
  else if is_high_risk && negb (truthy (or_empty reason)) then ret (reason_error operation)
  else
    do* record_action db actor ("force_" +:+ operation) target_type target_id reason
          (dict_update [("operation", VStr operation); ("actor_role", VStr actor_role)] payload) task_id in
    let* side_effect := match executor with Some ex => ex | None => ret VNone end in
    ret [("ok", VBool true); ("operation", VStr operation); ("actor", VStr actor);
         ("target_type", VStr target_type); ("target_id", VStr target_id);
         ("is_high_risk", VBool is_high_risk); ("side_effect", side_effect)].
End Force.

(** ** Recovery explainer *)

Record explanation := {
  ex_lock : bool;
  ex_cache : bool;
  ex_mysql : list (string * value);
  ex_action : string;
  ex_reasons : list string
}.

(** What the row of the task adds. *)
Definition explain_row (has_redis lock : bool) (row : option TaskRecord) (reasons : list string) :
    list (string * value) * string * list string :=
  match row with
  | None => ([("present", VBool false)], "inspect", reasons)
  | Some t =>
      let st := status_value (status t) in
      let mysql := [("present", VBool true); ("status", VStr st); ("attempt", VInt (attempt t));
                    ("max_retries", VInt (max_retries t))] in
      if bool_decide (st = "running") && has_redis && negb lock
      then (mysql, "replay_or_repair", reasons ++ ["task marked running but lease missing"])
      else if bool_decide (st = "failed") || bool_decide (st = "completed")
      then (mysql, "inspect_or_replay_callback", reasons)
      else (mysql, "inspect", reasons)
  end.

Definition explain_task (has_redis db : bool) (task_id : string) : M explanation :=
  let* lc := if has_redis then
               let* n := redis ("task_lock:" +:+ task_id) EXISTS in
               let* raw := redis ("task:" +:+ task_id) GET in
               ret (negb (n =? 0), match raw with Some _ => true | None => false end)
             else ret (false, false) in
  let '(lock, cache) := lc in
  let reasons := if has_redis && negb lock then ["execution lease missing"] else [] in
  let* mar := if db then
                except (let* row := sql_read (λ t, db_tasks t !! task_id) in
                        ret (explain_row has_redis lock row reasons))
                       (λ e, ret ([("present", VBool false); ("error", VStr (exn_str e))], "inspect", reasons))
              else ret ([("present", VBool false)], "inspect", reasons) in
  let '(mysql, action, reasons) := mar in
  ret {| ex_lock := lock; ex_cache := cache; ex_mysql := mysql; ex_action := action;
         ex_reasons := match reasons with
                       | [] => ["no obvious inconsistency detected"]
                       | _ => reasons
                       end |}.

(** ** Replay chain *)

(** [ORDER BY created_at ASC]: rows of one second in [id] order. *)
Definition oldest_first (a b : TaskRunRecord) : bool := run_created_at a <=? run_created_at b.

Definition chain_item (r : TaskRunRecord) : list (string * value) :=
  [("run_key", VStr (run_run_key r)); ("status", VStr (run_status r)); ("attempt", VInt (run_attempt r));
   ("trigger_source", VNone); ("created_at", VStr (str_take 19 (isoformat (run_created_at r))))].

Definition get_replay_chain (db : bool) (task_id : string) (limit : nat) : M (list (list (string * value))) :=
  if negb db then ret [] else
  let* rows := sql_read (λ t,
    take limit (sort_desc oldest_first (filter (λ r, Is_true (text_eq (db_server t) (run_task_id r) task_id)) (db_task_runs t)))) in
  ret (chain_item <$> rows).

(** ** Replays are rate limited

    A request first counts the recent replays and, if it finds fewer than
    [max_replays], appends one row to the audit table.  [adds p n]: [p] appends at
    most [n] rows, whatever runs in between.  [awaiting p t]: [p] has not counted
    yet, and the time is [t] or later; it appends nothing unless its count allows
    it. *)

Section RateLimit.
#[local] Transparent redis script sql time_ms uuid4.
Context {E : Env} (rp : ReplayPolicyService) (Hdb : rp_db rp = true) (task_id : string).
Notation W := (world doc_services).
Notation window := (rp_window_seconds rp * 1000).

Definition audit (t : tables) : mysql_server * list OperatorActionRecord := (db_server t, db_actions t).

Definition recent (w : W) : Z := recent_replays task_id (w_now w - window) (w_db w).

Lemma is_replay_mono m c c' r : c <= c' -> is_replay m task_id c' r = true -> is_replay m task_id c r = true.
Proof. unfold is_replay. intros Hc. rewrite !andb_true_iff, !Z.leb_le. intros [??]. split; [done|lia]. Qed.

Lemma recent_mono c c' t t' : c <= c' -> audit t' = audit t ->
  recent_replays task_id c' t' <= recent_replays task_id c t.
Proof.
  intros Hc [= Hm Ha]. unfold recent_replays. rewrite Hm, Ha. clear Hm Ha. induction (db_actions t) as [|r rows IH]; [done|].
  rewrite !filter_cons. pose proof (is_replay_mono (db_server t) c c' r Hc) as Hr.
  rewrite <-!Is_true_true in Hr. repeat case_decide; simpl; try tauto; lia.
Qed.

Lemma recent_snoc c t t' r : db_server t' = db_server t -> db_actions t' = db_actions t ++ [r] ->
  recent_replays task_id c t' <= recent_replays task_id c t + 1.
Proof.
  intros Hm Ha. unfold recent_replays. rewrite Hm, Ha, filter_app, length_app, filter_cons, filter_nil.
  case_decide; simpl; lia.
Qed.

Lemma recent_later (w w' : W) : w_now w <= w_now w' -> audit (w_db w') = audit (w_db w) -> recent w' <= recent w.
Proof. intros Ht Ha. unfold recent. apply recent_mono; [lia|done]. Qed.

(** What one effect may do to the audit table. *)
Definition appends (w w' : W) : Prop :=
  db_server (w_db w') = db_server (w_db w) /\ exists r, db_actions (w_db w') = db_actions (w_db w) ++ [r].

Lemma recent_appends (w w' : W) : w_now w <= w_now w' -> appends w w' -> recent w' <= recent w + 1.
Proof.
  intros Ht [Hm [r Ha]]. unfold recent. etrans; [apply (recent_mono (w_now w - window) _ (w_db w')); [lia|done]|].
  by eapply recent_snoc.
Qed.

Fixpoint adds {A} (p : prog A) (n : nat) : Prop :=
  match p with
  | Ret _ => True
  | Vis e k => ∀ w : W,
      audit (w_db (step e w).1) = audit (w_db w) /\ adds (k (step e w).2) n \/
      appends w (step e w).1 /\ exists m, n = S m /\ adds (k (step e w).2) m
  end.

Fixpoint awaiting {A} (p : prog A) (t : Z) : Prop :=
  match p with
  | Ret _ => True
  | Vis e k => ∀ w : W, t <= w_now w ->
      audit (w_db (step e w).1) = audit (w_db w) /\
      (awaiting (k (step e w).2) (w_now (step e w).1) \/
       recent (step e w).1 < rp_max_replays rp /\ adds (k (step e w).2) 1)
  end.

Lemma adds_pbind {A B} (m : prog A) (f : A -> prog B) a b :
  adds m a -> (∀ x, adds (f x) b) -> adds (pbind m f) (a + b).
Proof.
  intros Hm Hf. revert a Hm. induction m as [x|X e k IH]; intros a Hm; simpl.
  - specialize (Hf x). clear Hm. revert Hf. generalize (f x). clear.
    intros p. revert b. induction p as [y|X e k IH]; intros b Hp; simpl; [done|].
    intros w. destruct (Hp w) as [[H1 H2]|(H1 & m & -> & H2)]; [left; auto|right].
    split; [done|]. exists (a + m)%nat. split; [lia|auto].
  - intros w. destruct (Hm w) as [[H1 H2]|(H1 & n & -> & H2)]; [left; auto|right].
    split; [done|]. exists (n + b)%nat. split; [lia|auto].
Qed.

Lemma adds_bind {A B} (m : M A) (f : A -> M B) a b :
  adds m a -> (∀ x, adds (f x) b) -> adds (bind m f) (a + b).
Proof. intros Hm Hf. apply adds_pbind; [done|]. intros [e|x]; [done|apply Hf]. Qed.

Lemma adds_then {A B} (m : M A) (f : A -> M B) b : adds m 0 -> (∀ x, adds (f x) b) -> adds (bind m f) b.
Proof. apply adds_bind. Qed.

Lemma adds_redis {X} k (a : act X) : adds (redis k a) 0.
Proof. intros w. left. simpl. destruct (redis_fault _); [done|]. by destruct (lua_run _ _ _). Qed.

Lemma adds_uuid : adds uuid4 0.
Proof. intros w. by left. Qed.

Lemma adds_sql {X} (tx : Z -> tables -> exn + (tables * X)) :
  (∀ now t t' x, tx now t = inr (t', x) -> audit t' = audit t) -> adds (sql tx) 0.
Proof.
  intros H w. left. simpl. destruct (db_fault _); [done|].
  destruct (tx (w_now w) (w_db w)) as [e|[t' x]] eqn:Et; [done|]. by apply H in Et.
Qed.

Lemma adds_emit db id ty payload key : adds (emit db id ty payload key) 0.
Proof. unfold emit. destruct db; [|done]. apply adds_sql. by intros ???? [= <- _]. Qed.

Lemma adds_record actor ty tt' ti reason payload tid :
  adds (record_action true actor ty tt' ti reason payload tid) 1.
Proof.
  unfold record_action. simpl negb. cbv iota. apply (adds_bind _ _ 1 0).
  - intros w. simpl. destruct (db_fault _); [by left|right]. split; [|by exists 0%nat].
    split; [done|]. by eexists.
  - intros x. apply adds_then; [|done]. destruct tid as [s|]; [|done].
    case_bool_decide; [done|apply adds_emit].
Qed.

Lemma adds_replay actor reason from : adds (replay_task true task_id actor reason from) 1.
Proof.
  unfold replay_task. simpl negb. cbv iota. apply adds_then.
  - unfold create_task_run. simpl negb. cbv iota. apply adds_then; [apply adds_then; [apply adds_uuid|done]|].
    intros key. apply adds_then; [|done]. apply adds_sql. by intros ???? [= <- _].
  - intros key. apply (adds_bind _ _ 1 0); [apply adds_record|]. intros _.
    apply adds_then; [apply adds_emit|done].
Qed.

(** What comes before the count. *)
Lemma awaiting_pbind {A B} (m : prog A) (f : A -> prog B) t :
  adds m 0 -> (∀ x t, awaiting (f x) t) -> awaiting (pbind m f) t.
Proof.
  intros Hm Hf. revert t. induction m as [x|X e k IH]; intros t; [apply Hf|].
  intros w Hw. destruct (Hm w) as [[H1 H2]|(_ & n & [=] & _)]. split; [done|]. left. by apply IH.
Qed.

(** The check, and what follows when it is granted. *)
Lemma awaiting_check {B} reason role (act : bool * list string -> M B) t :
  (∀ v, v.1 = false -> exists b, act v = ret b) -> (∀ v, adds (act v) 1) ->
  awaiting (let* v := check_task_replay_allowed rp task_id reason role in act v) t.
Proof using Hdb.
  intros Hno Hact. unfold check_task_replay_allowed, count_recent_replays. rewrite Hdb. simpl negb. cbv iota.
  set (v := match reason with None | Some "" => (false, _) | _ => (true, _) end). clearbody v.
  assert (Hrest : ∀ v t, awaiting (bind (bind (bind time_ms (λ now, sql_read (recent_replays task_id (now - window))))
      (λ n, let v := if n >=? rp_max_replays rp then (false, v.2 ++ [rate_reason rp n]) else v in
            ret (v.1, match v.2 with [] => ["allowed"] | rs => rs end))) act) t).
  { clear v t. intros v t w1 Hw1. split; [done|]. left. intros w2 Hw2. simpl.
    destruct (db_fault _); [split; [done|by left]|]. split; [done|]. cbn [fst snd pbind ret].
    destruct (_ >=? _) eqn:Eg; bool_to_prop; simpl.
    - left. edestruct Hno as [b Hb]; [|rewrite Hb; done]. done.
    - right. split; [|apply Hact]. eapply Z.le_lt_trans; [|exact Eg].
      apply recent_mono; [simpl in *; lia|done]. }
  destruct (rp_redis rp).
  - intros w Hw. split; [simpl; destruct (redis_fault _); [done|]; by destruct (lua_run _ _ _)|]. left.
    simpl. destruct (redis_fault _); [done|]. destruct (lua_run _ _ _) as [ks [e|n]]; [done|]. apply Hrest.
  - apply Hrest.
Qed.

(** *** Requests one after another *)

Lemma run_adds {A} (p : prog A) : ∀ n w, adds p n -> recent (run p w).1 <= recent w + Z.of_nat n.
Proof.
  induction p as [a|X e k IH]; intros n w Hp; simpl; [lia|]. pose proof (step_time e w) as Ht.
  specialize (Hp w). destruct (step e w) as [w' x]; simpl in *. destruct Hp as [[H1 H2]|(H1 & m & -> & H2)].
  - pose proof (recent_later w w' Ht H1). specialize (IH x n w' H2). lia.
  - pose proof (recent_appends w w' Ht H1). specialize (IH x m w' H2). lia.
Qed.

Lemma run_awaiting {A} (p : prog A) : ∀ t w, awaiting p t -> t <= w_now w ->
  recent w <= rp_max_replays rp -> recent (run p w).1 <= rp_max_replays rp.
Proof.
  induction p as [a|X e k IH]; intros t w Hp Ht Hw; [done|]. simpl. pose proof (step_time e w) as Hs.
  destruct (Hp w Ht) as [H1 H2]. destruct (step e w) as [w' x]; simpl in *.
  destruct H2 as [H2|[H2 H3]].
  - apply (IH x (w_now w')); [done|lia|]. pose proof (recent_later w w' Hs H1). lia.
  - pose proof (run_adds (k x) 1 w' H3). lia.
Qed.

(** *** Requests that overlap *)

(** What a request may still append: one row if it has not counted yet or was
    granted, none if it was refused or is done. *)
Inductive may_add {A} (t : Z) : prog A -> nat -> Prop :=
| may_count p : awaiting p t -> may_add t p 1
| may_replay p : adds p 1 -> may_add t p 1
| may_none p : adds p 0 -> may_add t p 0.

Lemma awaiting_later {A} (p : prog A) t t' : t <= t' -> awaiting p t -> awaiting p t'.
Proof. destruct p as [a|X e k]; [done|]. intros Ht Hp w Hw. apply Hp. lia. Qed.

Lemma may_add_later {A} (p : prog A) t t' n : t <= t' -> may_add t p n -> may_add t' p n.
Proof. intros Ht H. destruct H; [apply may_count; by eapply awaiting_later|by apply may_replay|by apply may_none]. Qed.

(** Until a request has been granted the count is within the limit; from then on
    the count and what may still be added stay below the bound. *)
Definition overlap_inv {A} (bound : Z) (ps : list (prog A)) (w : W) : Prop :=
  (recent w <= rp_max_replays rp /\ rp_max_replays rp - 1 + Z.of_nat (length ps) <= bound /\
     Forall (λ p, awaiting p (w_now w)) ps) \/
  exists ns, Forall2 (may_add (w_now w)) ps ns /\ recent w + Z.of_nat (sum_list ns) <= bound.

Lemma sum_insert (ns : list nat) i n m : ns !! i = Some n -> (sum_list (<[i := m]> ns) + n = sum_list ns + m)%nat.
Proof.
  revert i. induction ns as [|x ns IH]; intros [|i] Hi; simplify_eq/=; [lia|]. specialize (IH i Hi). lia.
Qed.

Lemma sum_ones {A} (ps : list A) : sum_list (replicate (length ps) 1%nat) = length ps.
Proof. induction ps as [|p ps IH]; simpl; [done|]. by rewrite IH. Qed.

Lemma overlap_step {A} bound (ps : list (prog A)) (w : W) i :
  overlap_inv bound ps w -> overlap_inv bound (thread_step ps w i).1 (thread_step ps w i).2.
Proof.
  intros Hinv. unfold thread_step. destruct (ps !! i) as [[a|X e k]|] eqn:Ei; [done| |done].
  pose proof (step_time e w) as Ht. destruct Hinv as [(Hr & Hb & Hall)|(ns & Hns & Hb)].
  - destruct (Forall_lookup_1 _ _ _ _ Hall Ei w (Z.le_refl _)) as [Ha Hk].
    assert (Hall' : Forall (λ p, awaiting p (w_now (step e w).1)) ps).
    { eapply Forall_impl; [exact Hall|]. intros p. by apply awaiting_later. }
    destruct (step e w) as [w' x]; simpl in *. pose proof (recent_later w w' Ht Ha) as Hl.
    destruct Hk as [Hk|[Hlt Hk]].
    + left. rewrite length_insert. split; [lia|]. split; [done|]. by apply Forall_insert.
    + right. exists (replicate (length ps) 1%nat). split.
      * apply Forall2_same_length_lookup_2; [by rewrite length_insert, length_replicate|].
        intros j p n Hj [-> _]%lookup_replicate. apply list_lookup_insert_Some in Hj as [(_ & <- & _)|[_ Hj]].
        -- by apply may_replay.
        -- apply may_count. by apply (Forall_lookup_1 _ _ _ _ Hall' Hj).
      * rewrite sum_ones. lia.
  - destruct (Forall2_lookup_l _ _ _ _ _ Hns Ei) as (n & Hn & Hmay). right.
    assert (Hns' : Forall2 (may_add (w_now (step e w).1)) ps ns).
    { eapply Forall2_impl; [exact Hns|]. intros p m. by apply may_add_later. }
    assert (Hnext : exists m, may_add (w_now (step e w).1) (k (step e w).2) m /\
              recent (step e w).1 + Z.of_nat m <= recent w + Z.of_nat n).
    { inversion Hmay as [p Hp|p Hp|p Hp]; subst.
      - destruct (Hp w (Z.le_refl _)) as [Ha Hk]. pose proof (recent_later w _ Ht Ha). exists 1%nat.
        destruct Hk as [Hk|[_ Hk]]; (split; [|lia]); [by apply may_count|by apply may_replay].
      - destruct (Hp w) as [[Ha Hk]|(Ha & m & [= <-] & Hk)].
        + pose proof (recent_later w _ Ht Ha). exists 1%nat. split; [by apply may_replay|lia].
        + pose proof (recent_appends w _ Ht Ha). exists 0%nat. split; [by apply may_none|lia].
      - destruct (Hp w) as [[Ha Hk]|(_ & m & [=] & _)]. pose proof (recent_later w _ Ht Ha).
        exists 0%nat. split; [by apply may_none|lia]. }
    destruct (step e w) as [w' x]; simpl in *. destruct Hnext as (m & Hm & Hle).
    exists (<[i := m]> ns). split; [by apply Forall2_insert|]. pose proof (sum_insert ns i n m Hn). lia.
Qed.

Lemma overlap_interleave {A} bound sched : ∀ (ps : list (prog A)) (w : W),
  overlap_inv bound ps w -> overlap_inv bound (interleave sched ps w).1 (interleave sched ps w).2.
Proof.
  induction sched as [|i sched IH]; intros ps w H; [done|]. simpl.
  pose proof (overlap_step bound ps w i H) as Hs. destruct (thread_step ps w i). by apply IH.
Qed.

Lemma overlap_bound {A} sched (ps : list (prog A)) (w : W) :
  (∀ p t, p ∈ ps -> awaiting p t) -> recent w <= rp_max_replays rp ->
  recent (interleave sched ps w).2 <= Z.max (rp_max_replays rp) (rp_max_replays rp - 1 + Z.of_nat (length ps)).
Proof.
  intros Hp Hw. set (bound := Z.max _ _).
  assert (H : overlap_inv bound ps w).
  { left. split; [done|]. split; [lia|]. apply Forall_forall. auto. }
  apply (overlap_interleave bound sched) in H. destruct H as [(H & _)|(ns & _ & H)]; lia.
Qed.
End RateLimit.
#[global] Opaque redis script sql time_ms uuid4.

(** ** Force operations are guarded and audited *)

(** An operation that is not permitted changes nothing; a permitted one runs its
    executor only after the audit row is written. *)
Lemma force_operation_guarded {S : Services} {E : Env} db hr op actor role reason tt' ti payload tid ex
    (w w' : world S) res :
  run (execute_force_operation db hr op actor role reason tt' ti payload tid (Some ex)) w = (w', inr res) ->
  (dict_get "ok" res = Some (VBool false) /\ w' = w) \/
  (dict_get "ok" res = Some (VBool true) /\ role ∈ allowed_role_categories hr op /\
   (op ∈ hr -> exists c r, reason = Some (String c r)) /\
   exists w1 n v, run (record_action db actor ("force_" +:+ op) tt' ti reason
                         (dict_update [("operation", VStr op); ("actor_role", VStr role)] payload) tid) w =
                    (w1, inr n) /\ run ex w1 = (w', inr v)).
Proof.
  unfold execute_force_operation. case_bool_decide as Hrole; simpl negb; cbv iota; [|intros [=]; subst; by left].
  destruct (is_high_risk_operation hr op && _) eqn:Eg; [intros [=]; subst; by left|].
  rewrite run_bind. destruct (run (record_action _ _ _ _ _ _ _ _) w) as [w1 [e|n]] eqn:Er; [done|].
  rewrite run_bind. destruct (run ex w1) as [w2 [e|v]] eqn:Ex; [done|]. intros [=]; subst.
  right. split_and!; [done..| |by eexists _, _, _].
  intros Hop. apply andb_false_iff in Eg as [Eg|Eg].
  - unfold is_high_risk_operation in Eg. by rewrite bool_decide_eq_false in Eg.
  - destruct reason as [[|c r]|]; [done|by eexists _, _|done].
Qed.
