(* ===== verification/OpsRoutes.v ===== *)
(** * Operator routes

    [src/api/routes/ops_replay_routes.py] ([task_replay]),
    [ops_force_routes.py] and the write routes of [ops_callback_routes.py]: the
    handlers that put authentication, policies and services together.  [auth] is
    the context [authenticate] returned.  The routes need a database, so [db] is
    [true]; roles and identifiers of contexts are texts. *)

From Stdlib Require Import Ascii.
From stdpp Require Import base gmap strings list.
From S2P Require Import Prelude PyValue Json Redis TaskModel Tables Effects Tracking CallbackOutbox.
From S2P Require Import Registry TenantRegistry Auth Policies.

Open Scope Z_scope.

Definition text_of (v : value) : string := match v with VStr s => s | _ => "" end.

Definition actor_of (auth : list (string * value)) : string := text_of (resolve_tenant_id auth "operator").

Definition role_of (auth : list (string * value)) : string :=
  text_of (dict_get_or "role" (VStr "operator") auth).

(** The policy with its default limits. *)
Definition route_policy (has_redis : bool) : ReplayPolicyService :=
  {| rp_redis := has_redis; rp_db := true; rp_max_replays := 3; rp_window_seconds := 300 |}.

Definition task_replay (has_redis : bool) (task_id : string) (auth : list (string * value))
    (reason from_run_key : option string) : M (list (string * value)) :=
  let actor := actor_of auth in
  let* policy := check_task_replay_allowed (route_policy has_redis) task_id reason (role_of auth) in
  if negb policy.1 then
    ret [("ok", VBool false); ("task_id", VStr task_id); ("error", VStr "replay not allowed");
         ("reasons", VList (VStr <$> policy.2))]
  else replay_task true task_id actor reason from_run_key.

Definition evict (task_id : string) : M value :=
  let lock_key := "task_lock:" +:+ task_id in
  let* deleted := redis lock_key DEL in
  ret (VDict [("evicted", VBool (negb (deleted =? 0))); ("key", VStr lock_key)]).

(** [{**d}] of a value *)
Definition dict_items (v : value) : M (list (string * value)) :=
  match v with VDict d => ret d | _ => raise (Exn TypeError "mapping") end.

Definition force_lease_eviction (task_id : string) (auth : list (string * value)) (reason : option string) :
    M (list (string * value)) :=
  let* result := execute_force_operation true DEFAULT_HIGH_RISK_OPS "force_lease_eviction" (actor_of auth)
                   (role_of auth) reason "task" task_id [] (Some task_id) (Some (evict task_id)) in
  if negb (truthy (dict_get_or "ok" VNone result)) then
    ret [("ok", VBool false); ("task_id", VStr task_id); ("error", dict_get_or "error" VNone result);
         ("reasons", VDict result)]
  else
    let* side := dict_items (dict_get_or "side_effect" (VDict []) result) in
    ret (dict_update [("ok", VBool true); ("task_id", VStr task_id)] side).

Definition ack_dead_letter (outbox_id : Z) (auth : list (string * value)) (reason : option string) :
    M (list (string * value)) :=
  let* ok := acknowledge_dead_letter true outbox_id (actor_of auth) reason in
  ret [("ok", VBool ok); ("outbox_id", VInt outbox_id)].

Definition replay_dead_letter_route (outbox_id : Z) (auth : list (string * value)) (reason : option string) :
    M (list (string * value)) :=
  let* policy := check_callback_replay_allowed true outbox_id reason (role_of auth) None in
  if negb (pa_allowed policy) then
    ret [("ok", VBool false); ("outbox_id", VInt outbox_id); ("error", VStr "replay not allowed");
         ("reasons", VList (VStr <$> pa_reasons policy))]
  else
    let* ok := CallbackOutbox.replay_dead_letter true outbox_id (actor_of auth) reason in
    ret [("ok", VBool ok); ("outbox_id", VInt outbox_id)].

(** ** Replays are rate limited *)

(** One request to the replay route: the caller's context and the two query
    parameters. *)
Record replay_request := {
  rr_auth : list (string * value);
  rr_reason : option string;
  rr_from_run_key : option string
}.

Definition request (has_redis : bool) (task_id : string) (r : replay_request) : M (list (string * value)) :=
  task_replay has_redis task_id (rr_auth r) (rr_reason r) (rr_from_run_key r).

(** Requests one after another with pauses between them; a failing one does not stop
    the next. *)
Fixpoint requests (has_redis : bool) (task_id : string) (rs : list (Z * replay_request)) : M unit :=
  match rs with
  | [] => ret tt
  | (gap, r) :: rs' =>
      do* sleep gap in
      do* attempt_ (request has_redis task_id r) in
      requests has_redis task_id rs'
  end.

Lemma request_awaiting {E : Env} has_redis task_id r t :
  awaiting (route_policy has_redis) task_id (request has_redis task_id r) t.
Proof.
  apply awaiting_check; [done|by intros [[] rs]; simpl; eauto|].
  intros [[] rs]; simpl; [apply adds_replay|done].
Qed.

Lemma requests_within {E : Env} has_redis task_id rs : ∀ w : world doc_services,
  recent (route_policy has_redis) task_id w <= 3 ->
  recent (route_policy has_redis) task_id (run (requests has_redis task_id rs) w).1 <= 3.
Proof.
  induction rs as [|[gap r] rs IH]; intros w Hw; [done|]. simpl requests. rewrite run_bind.
  assert (exists w1, run (sleep gap) w = (w1, inr tt) /\ w_now w <= w_now w1 /\ w_db w1 = w_db w)
    as (w1 & -> & Ht & Hd).
  { eexists. split; [reflexivity|]. split; [simpl; lia|done]. }
  cbv beta iota. rewrite run_bind, run_attempt_.
  assert (Hw1 : recent (route_policy has_redis) task_id w1 <= 3).
  { etrans; [|exact Hw]. apply recent_later; [done|by rewrite Hd]. }
  pose proof (run_awaiting _ task_id _ _ w1 (request_awaiting has_redis task_id r (w_now w1)) (Z.le_refl _) Hw1) as H.
  destruct (run (request has_redis task_id r) w1) as [w2 x]. cbv beta iota. by apply IH.
Qed.

(** C34: replays are rate limited, admin overrides included, as far as requests do
    not overlap.  The audit table never holds more than three replays of a task in
    the last five minutes when the requests of the replay route are served one after
    another, with whatever pauses, contexts, reasons, earlier runs and failing
    calls.  When [n] requests for a task overlap, in whatever interleaving of their
    calls, it may hold more, since each counts before any has written, but never
    more than [2 + n]. *)
Theorem replay_rate_limited (S : Services) (E : Env) has_redis task_id (w : world S) :
  recent_replays task_id (w_now w - 300000) (db_of w) <= 3 ->
  (∀ rs, let w' := (run (requests has_redis task_id rs) w).1 in
     recent_replays task_id (w_now w' - 300000) (db_of w') <= 3) /\
  (∀ sched rs, let w' := (interleave sched (request has_redis task_id <$> rs) w).2 in
     recent_replays task_id (w_now w' - 300000) (db_of w') <= Z.max 3 (2 + Z.of_nat (length rs))).
Proof.
  intros Hw. split.
  - intros rs w'. pose proof (requests_within has_redis task_id rs (wview w) Hw) as H.
    rewrite run_view in H. exact H.
  - intros sched rs w'.
    pose proof (overlap_bound (route_policy has_redis) task_id sched (request has_redis task_id <$> rs) (wview w)) as H.
    rewrite interleave_view, length_fmap in H. apply H; [|exact Hw].
    intros p t (r & -> & _)%list_elem_of_fmap. apply request_awaiting.
Qed.

Definition ask : replay_request :=
  {| rr_auth := super_context "k"; rr_reason := Some "incident"; rr_from_run_key := None |}.

Lemma replay_rate_limited_witness :
  let w1 := (run (S := doc_services) (E := calm) (requests true "t" (repeat (1000, ask) 4)) (world0 0)).1 in
  recent_replays "t" (w_now w1 - 300000) (db_of w1) <= 3 /\
  recent_replays "t" (w_now w1 - 300000) (db_of w1) = 3.
Proof.
  intros w1. split; [|vm_compute; reflexivity].
  assert (H0 : recent_replays "t" (w_now (world0 0) - 300000) (db_of (world0 0)) <= 3) by (vm_compute; discriminate).
  exact (proj1 (replay_rate_limited doc_services calm true "t" (world0 0) H0) (repeat (1000, ask) 4)).
Defined.

(** Three requests that overlap after two earlier replays are all granted: five
    replays in five minutes, the most that [replay_rate_limited] lets three of them
    reach. *)
Example replays_overlap :
  let w2 := (run (S := doc_services) (E := calm) (requests true "t" (repeat (1000, ask) 2)) (world0 0)).1 in
  let round := [0; 1; 2]%nat in
  let w' := (interleave (E := calm) (concat (repeat round 10)) (request true "t" <$> repeat ask 3) w2).2 in
  recent_replays "t" (w_now w' - 300000) (db_of w') = 5.
Proof. vm_compute. reflexivity. Qed.

(** ** Admin-only routes cannot be reached *)

(** A context made by [authenticate] has no [role], so every caller is an
    operator, the super admin included. *)
Lemma role_of_context {S : Services} {E : Env} st reg has_redis creds header (w w' : world S) ctx :
  run (authenticate st reg has_redis creds header) w = (w', inr ctx) -> role_of ctx = "operator".
Proof. intros H%context_has_no_role. unfold role_of, dict_get_or. by rewrite H. Qed.

(** The lease eviction route never evicts.  Whatever the settings, the
    stored keys, the credentials (the super-admin key included) and the reason,
    and whatever the services answer, a caller that passes [authenticate] is
    refused for its role, and neither Redis nor the database is touched. *)
Theorem force_eviction_unreachable (S : Services) (E : Env) st reg has_redis creds header task_id reason
    (w w' : world S) ctx :
  run (authenticate st reg has_redis creds header) w = (w', inr ctx) ->
  run (force_lease_eviction task_id ctx reason) w' =
    (w', inr [("ok", VBool false); ("task_id", VStr task_id); ("error", VStr "insufficient role");
              ("reasons", VDict (role_error DEFAULT_HIGH_RISK_OPS "force_lease_eviction" "operator"))]).
Proof.
  intros H. unfold force_lease_eviction. by rewrite (role_of_context _ _ _ _ _ _ _ _ H).
Qed.

Lemma force_eviction_unreachable_witness :
  let st := {| super_admin_key := Some "root"; multi_tenant_enabled := false |} in
  let w := world0 0 in
  run (S := doc_services) (E := calm)
    (authenticate st (TenantRegistry_init 0) true (Some "root") None) w = (w, inr (super_context "root")) /\
  exists rs, run (S := doc_services) (E := calm)
    (force_lease_eviction "t1" (super_context "root") (Some "stuck")) w =
    (w, inr [("ok", VBool false); ("task_id", VStr "t1"); ("error", VStr "insufficient role"); rs]).
Proof.
  intros st w. split; [reflexivity|]. eexists.
  apply (force_eviction_unreachable doc_services calm st (TenantRegistry_init 0) true (Some "root") None
           "t1" (Some "stuck") w w). reflexivity.
Defined.
