(* ===== verification/OperatorQueries.v ===== *)
(** * Operator queries

    [src/services/operator_queries.py], [operator_dashboard.py],
    [run_centric_queries.py], [task_audit_queries.py] and the action and run
    queries of [operator_ux.py].  A query is a filter, an order on [created_at]
    and a limit; rows of one second come in [id] order, which is their order in
    the table. *)

From stdpp Require Import base gmap strings list sorting.
From S2P Require Import Prelude PyValue IsoTime Redis TaskModel Tables Effects CallbackOutbox PySort.

Open Scope Z_scope.

Section Query.
Context {R : Type} (created_at : R -> Z).

(** [ORDER BY created_at DESC LIMIT limit] and [ASC] *)
Definition newest (limit : nat) (rows : list R) : list R :=
  take limit (sort_desc (λ a b, created_at b <=? created_at a) rows).

Definition oldest (limit : nat) (rows : list R) : list R :=
  take limit (sort_desc (λ a b, created_at a <=? created_at b) rows).
End Query.

(** A [WHERE] clause the caller may leave out; the empty text leaves it out too. *)
Definition matches (m : mysql_server) (wanted : option string) (actual : string) : bool :=
  match wanted with None | Some "" => true | Some s => text_eq m actual s end.

Definition action_matches (target_type target_id action_type : option string) (m : mysql_server)
    (r : OperatorActionRecord) : bool :=
  matches m target_type (oa_target_type r) && matches m target_id (oa_target_id r) &&
  matches m action_type (oa_action_type r).

Definition where_ {R} (p : R -> bool) (rows : list R) : list R := filter (λ r, Is_true (p r)) rows.

Definition list_actions (db : bool) (target_type target_id action_type : option string) (limit : nat) :
    M (list OperatorActionRecord) :=
  if negb db then ret [] else
  sql_read (λ t, newest oa_created_at limit
                   (where_ (action_matches target_type target_id action_type (db_server t)) (db_actions t))).

Definition list_task_runs (db : bool) (task_id : string) (limit : nat) : M (list TaskRunRecord) :=
  if negb db then ret [] else
  sql_read (λ t, newest run_created_at limit (where_ (λ r, text_eq (db_server t) (run_task_id r) task_id) (db_task_runs t))).

Definition list_task_run_events (db : bool) (task_id : string) (run_key : option string) (limit : nat) :
    M (list TaskEventRecord) :=
  if negb db then ret [] else
  sql_read (λ t, newest ev_created_at limit
    (where_ (λ r, text_eq (db_server t) (ev_task_id r) task_id &&
                  match run_key, ev_run_key r with
                  | None, _ | Some "", _ => true
                  | Some k, Some k' => text_eq (db_server t) k' k
                  | Some _, None => false
                  end) (db_events t))).

Definition list_dag_runs (db : bool) (dag_id : string) (limit : nat) : M (list DagRunRecord) :=
  if negb db then ret [] else
  sql_read (λ t, newest dr_created_at limit (where_ (λ r, text_eq (db_server t) (dr_dag_id r) dag_id) (db_dag_runs t))).

Definition get_task_timeline (db : bool) (task_id : string) (limit : nat) : M (list TaskEventRecord) :=
  if negb db then ret [] else
  sql_read (λ t, oldest ev_created_at limit (where_ (λ r, text_eq (db_server t) (ev_task_id r) task_id) (db_events t))).

(** [r.created_at.isoformat()]; the column has whole seconds. *)
Definition created_text (ms : Z) : value := VStr (str_take 19 (isoformat ms)).

Definition run_item (r : TaskRunRecord) : list (string * value) :=
  [("task_id", VStr (run_task_id r)); ("run_key", VStr (run_run_key r)); ("status", VStr (run_status r));
   ("created_at", created_text (run_created_at r))].

Definition stale_task_queue (db : bool) (stale_status : string) (limit : nat) :
    M (list (list (string * value))) :=
  if negb db then ret [] else
  let* rows := sql_read (λ t, oldest run_created_at limit
                                (where_ (λ r, text_eq (db_server t) (run_status r) stale_status) (db_task_runs t))) in
  ret (run_item <$> rows).

Definition replay_queue (db : bool) (limit : nat) : M (list (list (string * value))) :=
  stale_task_queue db "replay_requested" limit.

(** ** The outbox summary *)

(** [GROUP BY delivery_status]: one row per status in use. *)
Definition group_counts (rows : list CallbackOutboxRecord) : list (string * Z) :=
  let count s := Z.of_nat (length (filter (λ r, cb_delivery_status r = s) rows)) in
  filter (λ kc, kc.2 <> 0)
    ((λ s, (delivery_value s, count s)) <$> [CB_PENDING; CB_DELIVERED; CB_FAILED; CB_DEAD_LETTER]).

Definition zero_summary : list (string * Z) :=
  [("pending", 0); ("delivered", 0); ("failed", 0); ("dead_letter", 0); ("total", 0)].

(** [summary[key] = int(count); summary["total"] += int(count)] *)
Definition add_count (d : list (string * Z)) (kc : string * Z) : list (string * Z) :=
  let d := dict_set kc.1 kc.2 d in
  dict_set "total" (default 0 (dict_get "total" d) + kc.2) d.

Definition get_callback_summary (db : bool) : M (list (string * Z)) :=
  if negb db then ret zero_summary else
  let* rows := sql_read (λ t, group_counts (db_outbox t)) in
  ret (foldl add_count zero_summary rows).

(** The three queries of one session; its [fetchall] and [scalar] come last. *)
Definition summary (db : bool) : M (list (string * Z) * Z * Z) :=
  if negb db then ret ([], 0, 0) else
  let* cb_rows := sql_read (λ t, group_counts (db_outbox t)) in
  let* actions := sql_read (λ t, Z.of_nat (length (db_actions t))) in
  let* events := sql_read (λ t, Z.of_nat (length (db_events t))) in
  ret (foldl add_count zero_summary cb_rows, actions, events).

(** ** What a query returns *)

Section QueryFacts.
Context {R : Type} (created_at : R -> Z).
Implicit Types (rows out : list R).

(** [out] is the answer to "the newest [limit] of [rows]". *)
Record newest_of (limit : nat) rows out : Prop := {
  nw_sub : out ⊆+ rows;
  nw_length : length out = Nat.min limit (length rows);
  nw_sorted : StronglySorted (λ a b, created_at b <= created_at a) out;
  nw_rest : exists rest, rows ≡ₚ out ++ rest /\ ∀ a b, a ∈ out -> b ∈ rest -> created_at b <= created_at a
}.

Lemma StronglySorted_weaken {T} (P Q : T -> T -> Prop) l :
  (∀ a b, P a b -> Q a b) -> StronglySorted P l -> StronglySorted Q l.
Proof.
  intros HPQ. induction 1 as [|x l Hs IH Hx]; constructor; [done|].
  eapply Forall_impl; [exact Hx|]. auto.
Qed.

Lemma newest_spec limit rows : newest_of limit rows (newest created_at limit rows).
Proof.
  unfold newest. set (ge := λ a b : R, created_at b <=? created_at a).
  pose proof (sort_desc_perm ge rows) as Hp.
  assert (Hs : StronglySorted (λ a b, created_at b <= created_at a) (sort_desc ge rows)).
  { apply (StronglySorted_weaken (geP ge)); [|apply (sort_desc_sorted ge)];
      subst ge; unfold geP; simpl; intros; lia. }
  rewrite <-(take_drop limit (sort_desc ge rows)) in Hs.
  split.
  - etrans; [apply submseteq_take|]. by rewrite Hp.
  - rewrite length_take. by rewrite Hp.
  - by eapply StronglySorted_app_1_l.
  - exists (drop limit (sort_desc ge rows)). split; [by rewrite take_drop|].
    intros a b Ha Hb. by apply (StronglySorted_app_1_elem_of _ _ _ _ _ Hs).
Qed.
End QueryFacts.

Section SummaryFacts.
Implicit Types (rows : list CallbackOutboxRecord).

Definition status_count (s : CallbackDeliveryStatus) rows : Z :=
  Z.of_nat (length (filter (λ r, cb_delivery_status r = s) rows)).

Lemma counts_partition rows :
  status_count CB_PENDING rows + status_count CB_DELIVERED rows + status_count CB_FAILED rows +
  status_count CB_DEAD_LETTER rows = Z.of_nat (length rows).
Proof.
  unfold status_count. induction rows as [|r rows IH]; [done|]. rewrite !filter_cons.
  destruct (cb_delivery_status r); repeat (destruct (decide _) as [?H|?H]; [try done|try done]); simpl length; lia.
Qed.

(** The loop over the rows of the groups in use *)
Lemma foldl_in_use (kcs : list (string * Z)) : ∀ d,
  foldl add_count d (filter (λ kc, kc.2 <> 0) kcs) =
  foldl (λ d kc, if decide (kc.2 = 0) then d else add_count d kc) d kcs.
Proof.
  induction kcs as [|[k c] kcs IH]; intros d; [done|]. rewrite filter_cons. simpl.
  destruct (decide (c = 0)) as [->|Hc]; [apply IH|]. rewrite decide_True by done. apply IH.
Qed.

Definition summary_of (p d f l : Z) : list (string * Z) :=
  [("pending", p); ("delivered", d); ("failed", f); ("dead_letter", l); ("total", p + d + f + l)].

Lemma summary_step (k : string) (c : Z) (d d' : list (string * Z)) :
  (c = 0 -> d' = d) -> (c <> 0 -> add_count d (k, c) = d') ->
  (if decide (c = 0) then d else add_count d (k, c)) = d'.
Proof. intros H0 H1. destruct (decide (c = 0)) as [Hc|Hc]; [by rewrite H0|by apply H1]. Qed.

Lemma summary_counts rows :
  foldl add_count zero_summary (group_counts rows) =
  [("pending", status_count CB_PENDING rows); ("delivered", status_count CB_DELIVERED rows);
   ("failed", status_count CB_FAILED rows); ("dead_letter", status_count CB_DEAD_LETTER rows);
   ("total", Z.of_nat (length rows))].
Proof.
  rewrite <-counts_partition. unfold group_counts. rewrite foldl_in_use.
  cbn [fmap list_fmap delivery_value foldl snd].
  repeat match goal with |- context [Z.of_nat (length (filter (λ r, cb_delivery_status r = ?s) rows))] =>
    change (Z.of_nat (length (filter (λ r, cb_delivery_status r = s) rows))) with (status_count s rows) end.
  generalize (status_count CB_PENDING rows) (status_count CB_DELIVERED rows)
    (status_count CB_FAILED rows) (status_count CB_DEAD_LETTER rows). intros p d f l.
  change zero_summary with (summary_of 0 0 0 0).
  rewrite (summary_step "pending" p _ (summary_of p 0 0 0)), (summary_step "delivered" d _ (summary_of p d 0 0)),
    (summary_step "failed" f _ (summary_of p d f 0)), (summary_step "dead_letter" l _ (summary_of p d f l));
    try (by intros ->); try done; intros _; unfold summary_of, add_count, dict_set; simpl;
    do 6 f_equal; lia.
Qed.
End SummaryFacts.

(** The operator queries answer what they promise, over any database
    contents, when the database is up: [list_actions] returns the newest [limit]
    of the matching audit rows, newest first, and never leaves out a row newer
    than one it returns; the outbox summary counts every row under its own
    status, and its total is the size of the outbox. *)
Theorem operator_queries_correct (S : Services) (E : Env) tt' ti ty limit (w : world S) :
  quiet E ->
  (exists out, (run (list_actions true tt' ti ty limit) w).2 = inr out /\
     newest_of oa_created_at limit (where_ (action_matches tt' ti ty (db_server (db_of w))) (db_actions (db_of w))) out) /\
  (run (get_callback_summary true) w).2 =
    inr [("pending", status_count CB_PENDING (db_outbox (db_of w)));
         ("delivered", status_count CB_DELIVERED (db_outbox (db_of w)));
         ("failed", status_count CB_FAILED (db_outbox (db_of w)));
         ("dead_letter", status_count CB_DEAD_LETTER (db_outbox (db_of w)));
         ("total", Z.of_nat (length (db_outbox (db_of w))))].
Proof.
  intros HE. split.
  - eexists. split; [|apply newest_spec].
    assert (H : (run (list_actions true tt' ti ty limit) (wview w)).2 =
      inr (newest oa_created_at limit (where_ (action_matches tt' ti ty (db_server (db_of w))) (db_actions (db_of w))))).
    { unfold list_actions, sql_read. simpl negb. cbv iota. by rewrite run_sql, (proj2 HE). }
    by rewrite run_view in H.
  - rewrite <-summary_counts.
    assert (H : (run (get_callback_summary true) (wview w)).2 =
      inr (foldl add_count zero_summary (group_counts (db_outbox (db_of w))))).
    { unfold get_callback_summary, sql_read. simpl negb. cbv iota.
      by rewrite run_bind, run_sql, (proj2 HE). }
    by rewrite run_view in H.
Qed.

Lemma operator_queries_correct_witness :
  let row n := {| oa_actor := "a"; oa_action_type := "x"; oa_target_type := "task"; oa_target_id := "t";
                  oa_reason := None; oa_payload_json := None; oa_created_at := n |} in
  let w := World (S := doc_services) (∅ : keyspace)
             {| db_server := plain_server; db_tasks := ∅; db_outbox := []; db_task_runs := []; db_dag_runs := []; db_events := [];
                db_actions := [row 1000; row 3000; row 2000] |} 0 0%nat [] in
  (exists out, (run (S := doc_services) (E := calm) (list_actions true (Some "task") None (Some "") 2) w).2 = inr out /\
     newest_of oa_created_at 2 [row 1000; row 3000; row 2000] out) /\
  (run (S := doc_services) (E := calm) (list_actions true (Some "task") None (Some "") 2) w).2 =
    inr [row 3000; row 2000].
Proof.
  intros row w. split; [|vm_compute; reflexivity].
  destruct (operator_queries_correct doc_services calm (Some "task") None (Some "") 2 w calm_quiet) as [H _].
  exact H.
Defined.
