(* ===== verification/ActorPool.v ===== *)
(** * Actor pool

    [src/workload/actor_pool_manager.py].  Handles are objects shared between the
    pool's list and its callers, so the pool is a store of handles and a list of
    references into it.  Ray is a parameter: whether it is installed, the actors
    and object references it hands out, and the answers of its calls.  [ray.get]
    blocks the event loop, so a dispatched call is one step of the pool.  Here
    each method runs in one piece, the factory answering at once;
    [ActorPoolTasks.v] has the tasks that interleave at the factory's awaits and at
    the lock. *)

From stdpp Require Import base gmap strings list sorting.
From S2P Require Import Prelude PyValue Effects PySort.

Open Scope Z_scope.

Definition ACTOR_FAULT_REPLACE_WINDOW : Z := 300 * 1000.
Definition ACTOR_FAULT_MAX_REPLACES_PER_WINDOW : nat := 3.

(** What the pool sees of Ray, of the worker factory and of the workers. *)
Record Workers (A R : Type) := {
  RAY_AVAILABLE : bool;
  (** [ray.get_actor(name)], [None] where it raises *)
  get_actor : string -> option A;
  (** the factory, when the pool has one *)
  factory : option (string -> Z -> exn + option A);
  has_method : A -> string -> bool;
  (** the reference and the answer of the [n]-th call; [ray.get] raises where
      the answer is an exception *)
  call_ref : nat -> R;
  call_answer : nat -> A -> string -> exn + value;
  (** [ray.wait([ref], timeout=0)], [None] where it raises *)
  is_ready : nat -> R -> option bool;
  actor_fault : exn -> bool;
  actor_truthy : A -> bool
}.
Arguments RAY_AVAILABLE {A R} _.
Arguments get_actor {A R} _ _.
Arguments factory {A R} _.
Arguments has_method {A R} _ _ _.
Arguments call_ref {A R} _ _.
Arguments call_answer {A R} _ _ _ _.
Arguments is_ready {A R} _ _ _.
Arguments actor_fault {A R} _ _.
Arguments actor_truthy {A R} _ _.

Record WorkerHandle (A R : Type) := {
  wh_name : string;
  wh_actor : A;
  inflight : list R;
  fault_times : list Z;
  alive : bool
}.
Arguments Build_WorkerHandle {A R} _ _ _ _ _.
Arguments wh_name {A R} _.
Arguments wh_actor {A R} _.
Arguments inflight {A R} _.
Arguments fault_times {A R} _.
Arguments alive {A R} _.

(** The fields the pool changes; [calls] counts the calls made. *)
Record pool (A R : Type) := {
  store : gmap nat (WorkerHandle A R);
  workers : list nat;
  next_index : Z;
  calls : nat;
  clock : Z
}.
Arguments Build_pool {A R} _ _ _ _ _.
Arguments store {A R} _.
Arguments workers {A R} _.
Arguments next_index {A R} _.
Arguments calls {A R} _.
Arguments clock {A R} _.

Record PoolConfig := {
  pc_capability : string;
  pc_cluster_id : string;
  pc_tenant_id : string;
  pc_target_size : Z;
  pc_max_size : Z
}.

Section Pool.
Context {A R : Type} `{!EqDecision R} (cfg : PoolConfig) (ws : Workers A R).
Implicit Types (h : WorkerHandle A R) (p : pool A R).

(** ** Handles *)

Definition pending h : Z := Z.of_nat (length (inflight h)).

Definition is_tripped (now : Z) h : bool :=
  (ACTOR_FAULT_MAX_REPLACES_PER_WINDOW <=?
   length (filter (λ t, (now - t < ACTOR_FAULT_REPLACE_WINDOW)%Z) (fault_times h)))%nat.

Definition with_faults (l : list Z) h : WorkerHandle A R :=
  Build_WorkerHandle (wh_name h) (wh_actor h) (inflight h) l (alive h).

Definition with_inflight (l : list R) h : WorkerHandle A R :=
  Build_WorkerHandle (wh_name h) (wh_actor h) l (fault_times h) (alive h).

Definition record_fault (now : Z) h : WorkerHandle A R :=
  let cutoff := now - ACTOR_FAULT_REPLACE_WINDOW in
  with_faults (filter (λ t, (cutoff < t)%Z) (fault_times h ++ [now])) h.

(** [list.remove]: the first occurrence *)
Fixpoint remove_first (r : R) (l : list R) : list R :=
  match l with
  | [] => []
  | x :: l' => if decide (x = r) then l' else x :: remove_first r l'
  end.

Definition is_actor_fault (e : exn) : bool := RAY_AVAILABLE ws && actor_fault ws e.

(** ** The pool *)

(** A method: the pool it leaves, and its result or exception. *)
Definition method (B : Type) : Type := pool A R -> pool A R * (exn + B).

Definition set_handle (i : nat) h p : pool A R :=
  Build_pool (<[i := h]> (store p)) (workers p) (next_index p) (calls p) (clock p).

Definition set_next (n : Z) p : pool A R :=
  Build_pool (store p) (workers p) n (calls p) (clock p).

Definition set_workers (l : list nat) p : pool A R :=
  Build_pool (store p) l (next_index p) (calls p) (clock p).

(** [self._workers.append(_WorkerHandle(name=name, actor=worker))]: a new object,
    none of those made before (the store keeps all of them) *)
Definition add_worker (name : string) (a : A) p : pool A R :=
  let i := fresh (dom (store p)) in
  Build_pool (<[i := Build_WorkerHandle name a [] [] true]> (store p)) (workers p ++ [i])
             (next_index p) (calls p) (clock p).

(** The handles of the list, in order. *)
Definition handles p : list (WorkerHandle A R) := omap (λ i, store p !! i) (workers p).

Definition worker_name (idx : Z) : string :=
  let tid := match pc_tenant_id cfg with "" => "default" | t => t end in
  "worker_" +:+ tid +:+ "_" +:+ pc_cluster_id cfg +:+ "_" +:+ pc_capability cfg +:+ "_" +:+ dec_of_Z idx.

Definition try_recover_or_create (name : string) (idx : Z) : option A :=
  match (if RAY_AVAILABLE ws then get_actor ws name else None) with
  | Some a => Some a
  | None =>
      match factory ws with
      | Some f => match f name idx with inr o => o | inl _ => None end
      | None => None
      end
  end.

(** [for idx in range(first, first + n): ...]; [keep] is the test on the actor. *)
Fixpoint create_range (keep : A -> bool) (first : Z) (n : nat) p : pool A R :=
  match n with
  | O => p
  | S n' =>
      let p' := match try_recover_or_create (worker_name first) first with
                | Some a => if keep a then add_worker (worker_name first) a p else p
                | None => p
                end in
      create_range keep (first + 1) n' p'
  end.

Definition start p : pool A R := create_range (λ _, true) 0 (Z.to_nat (pc_target_size cfg)) p.

(** ** Selection *)

(** The references [ray.wait] does not report, and those it fails on, go. *)
Definition refresh_inflight (n : nat) h : WorkerHandle A R :=
  if negb (RAY_AVAILABLE ws) then h else
  let done := filter (λ r, is_ready ws n r <> Some false) (inflight h) in
  with_inflight (foldl (λ l r, remove_first r l) (inflight h) done) h.

Definition refresh_all p : pool A R :=
  Build_pool (foldr (λ i m, alter (refresh_inflight (calls p)) i m) (store p) (workers p))
             (workers p) (next_index p) (calls p) (clock p).

(** [for offset in range(n): ...]: the index found, counting from [offset]. *)
Fixpoint scan_from (hs : list (WorkerHandle A R)) (min_pending start : Z) (offset fuel : nat) : option Z :=
  match fuel with
  | O => None
  | S fuel' =>
      let idx := (start + Z.of_nat offset) mod Z.of_nat (length hs) in
      match hs !! Z.to_nat idx with
      | Some h => if pending h =? min_pending then Some idx
                  else scan_from hs min_pending start (S offset) fuel'
      | None => None
      end
  end.

Definition min_pending (hs : list (WorkerHandle A R)) : Z :=
  match hs with
  | [] => 0
  | h :: hs' => foldl (λ m h, Z.min m (pending h)) (pending h) hs'
  end.

Definition select_worker : method nat := λ p,
  match workers p with
  | [] => (p, inl (Exn RuntimeError ("ActorPoolManager: no workers available for capability='" +:+
                                     pc_capability cfg +:+ "'")))
  | _ =>
      let p := refresh_all p in
      let n := length (workers p) in
      match scan_from (handles p) (min_pending (handles p)) (next_index p) 0 n with
      | Some idx =>
          (set_next ((idx + 1) mod Z.of_nat n) p, inr (default 0%nat (workers p !! Z.to_nat idx)))
      | None => (p, inr (default 0%nat (workers p !! Z.to_nat (next_index p mod Z.of_nat n))))
      end
  end.

(** ** Calls *)

(** One blocking call: the reference is in flight while [ray.get] waits and is
    taken out again before [_dispatch] returns. *)
Definition dispatch (i : nat) (m : string) : method value := λ p,
  match store p !! i with
  | None => (p, inl (Exn KeyError "handle"))
  | Some h =>
      if has_method ws (wh_actor h) m then
        let n := calls p in
        let p1 := Build_pool (store p) (workers p) (next_index p) (S n) (clock p) in
        if RAY_AVAILABLE ws then
          let ref := call_ref ws n in
          let during := with_inflight (inflight h ++ [ref]) h in
          let after := with_inflight (remove_first ref (inflight during)) during in
          (set_handle i after p1, call_answer ws n (wh_actor h) m)
        else (p1, call_answer ws n (wh_actor h) m)
      else (p, inl (Exn AttributeError ("Worker '" +:+ wh_name h +:+ "' has no method '" +:+ m +:+ "'")))
  end.

Definition replace_worker (i : nat) : method (option A) := λ p,
  match list_find (λ j, j = i) (workers p), store p !! i with
  | Some (pos, _), Some h =>
      match try_recover_or_create (worker_name (Z.of_nat pos)) (Z.of_nat pos) with
      | Some a => (set_handle i (Build_WorkerHandle (wh_name h) a [] (fault_times h) true) p, inr (Some a))
      | None => (p, inr None)
      end
  | _, _ => (p, inr None)
  end.

Definition call_worker (i : nat) (m : string) : method value := λ p,
  match dispatch i m p with
  | (p1, inr v) => (p1, inr v)
  | (p1, inl e) =>
      if is_exception e && is_actor_fault e then
        match store p1 !! i with
        | None => (p1, inl e)
        | Some h =>
            if is_tripped (clock p1) h then (p1, inl e) else
            let p2 := set_handle i (record_fault (clock p1) h) p1 in
            match replace_worker i p2 with
            | (p3, inr (Some _)) => dispatch i m p3
            | (p3, _) => (p3, inl e)
            end
        end
      else (p1, inl e)
  end.

(** [execute], [submit] and [submit_streaming] *)
Definition run_on_worker (m : string) : method value := λ p,
  match select_worker p with
  | (p1, inr i) => call_worker i m p1
  | (p1, inl e) => (p1, inl e)
  end.

(** ** Resizing *)

Definition pending_of p (i : nat) : Z := default 0 (pending <$> store p !! i).

(** [self._workers.sort(key=lambda w: w.pending)] *)
Definition sort_workers p : list nat := sort_desc (λ i j, pending_of p i <=? pending_of p j) (workers p).

(** The pool, and the actors killed: those removed with calls in flight. *)
Definition resize (new_size : Z) p : pool A R * list A :=
  let new_size := Z.max 0 (Z.min new_size (pc_max_size cfg)) in
  let current := Z.of_nat (length (workers p)) in
  if current <? new_size then
    (create_range (actor_truthy ws) current (Z.to_nat (new_size - current)) p, [])
  else if new_size <? current then
    let sorted := sort_workers p in
    let to_remove := drop (Z.to_nat new_size) sorted in
    let kept := take (Z.to_nat new_size) sorted in
    (set_next (next_index p mod Z.max 1 (Z.of_nat (length kept))) (set_workers kept p),
     if RAY_AVAILABLE ws
     then wh_actor <$> filter (λ h, 0 < pending h) (omap (λ i, store p !! i) to_remove)
     else [])
  else (p, []).

Definition get_status p : pool A R * (Z * Z * list (string * Z * bool * bool)) :=
  let p := refresh_all p in
  (p, (Z.of_nat (length (workers p)), sumZ (pending <$> handles p),
       (λ h, (wh_name h, pending h, alive h, is_tripped (clock p) h)) <$> handles p)).
End Pool.

(** ** Selection is least-loaded, round-robin among equals *)

Section SelectionFacts.
Context {A R : Type} `{!EqDecision R} (cfg : PoolConfig) (ws : Workers A R).
Implicit Types (h : WorkerHandle A R) (p : pool A R) (hs : list (WorkerHandle A R)).

Lemma fold_min_spec hs : ∀ m,
  let r := foldl (λ m h, Z.min m (pending h)) m hs in
  r <= m /\ (∀ h, h ∈ hs -> r <= pending h) /\ (r = m \/ exists h, h ∈ hs /\ pending h = r).
Proof.
  induction hs as [|h hs IH]; intros m; simpl.
  - split_and!; [lia| |by left]. intros h Hh%elem_of_nil. done.
  - destruct (IH (Z.min m (pending h))) as (H1 & H2 & H3). split_and!; [lia| |].
    + intros h' [->|Hh]%elem_of_cons; [lia|auto].
    + destruct H3 as [H3|(h' & Hh & Hp)]; [|right; exists h'; split; [by right|done]].
      destruct (Z.le_gt_cases m (pending h)); [left; lia|].
      right. exists h. split; [by left|]. lia.
Qed.

Lemma min_pending_spec hs :
  hs <> [] -> (∀ h, h ∈ hs -> min_pending hs <= pending h) /\ exists h, h ∈ hs /\ pending h = min_pending hs.
Proof.
  destruct hs as [|h hs]; [done|]. intros _. unfold min_pending.
  destruct (fold_min_spec hs (pending h)) as (H1 & H2 & H3). split.
  - intros h' [->|Hh]%elem_of_cons; [lia|auto].
  - destruct H3 as [->|(h' & Hh & Hp)]; [exists h; split; [by left|done]|].
    exists h'. split; [by right|done].
Qed.

(** [idx] is reached from [start] in [k] steps. *)
Definition ring (start : Z) (n k : nat) : nat := Z.to_nat ((start + Z.of_nat k) mod Z.of_nat n).

Lemma ring_lt start n k : (0 < n)%nat -> (ring start n k < n)%nat.
Proof. intros Hn. unfold ring. pose proof (Z.mod_pos_bound (start + Z.of_nat k) (Z.of_nat n)). lia. Qed.

Lemma scan_from_spec hs m start fuel : ∀ offset,
  (0 < length hs)%nat ->
  (exists k, (offset <= k < offset + fuel)%nat /\
     exists h, hs !! ring start (length hs) k = Some h /\ pending h = m) ->
  exists k, (offset <= k < offset + fuel)%nat /\
    scan_from hs m start offset fuel = Some (Z.of_nat (ring start (length hs) k)) /\
    (exists h, hs !! ring start (length hs) k = Some h /\ pending h = m) /\
    ∀ j h, (offset <= j < k)%nat -> hs !! ring start (length hs) j = Some h -> pending h <> m.
Proof.
  induction fuel as [|fuel IH]; intros offset Hn (k & Hk & h & Hl & Hp); [lia|]. simpl scan_from.
  pose proof (ring_lt start (length hs) offset Hn) as Hr.
  assert (Hz : (start + Z.of_nat offset) mod Z.of_nat (length hs) = Z.of_nat (ring start (length hs) offset)).
  { unfold ring. rewrite Z2Nat.id; [done|]. apply Z.mod_pos_bound. lia. }
  rewrite Hz, Nat2Z.id. destruct (lookup_lt_is_Some_2 _ _ Hr) as [h0 Hh0]. rewrite Hh0.
  destruct (Z.eqb_spec (pending h0) m) as [E0|E0].
  - exists offset. split_and!; [lia|lia|done|by exists h0|]. intros; lia.
  - destruct (IH (S offset) Hn) as (k' & Hk' & Hs & Hh & Hmin).
    { exists k. split; [|by exists h]. destruct (decide (k = offset)) as [->|]; [congruence|lia]. }
    exists k'. split_and!; [lia|lia|done|done|]. intros j hj Hj Hlj.
    destruct (decide (j = offset)) as [->|]; [congruence|]. apply (Hmin j hj); [lia|done].
Qed.
End SelectionFacts.

(** ** The pool's invariant *)

Section Invariant.
Context {A R : Type} `{!EqDecision R} (cfg : PoolConfig) (ws : Workers A R).
Implicit Types (h : WorkerHandle A R) (p : pool A R).

Definition recent_faults (now : Z) h : nat :=
  length (filter (λ t, (now - t < ACTOR_FAULT_REPLACE_WINDOW)%Z) (fault_times h)).

Record handle_ok (now : Z) h : Prop := {
  hk_idle : inflight h = [];
  hk_faults : (recent_faults now h <= ACTOR_FAULT_MAX_REPLACES_PER_WINDOW)%nat
}.

(** The references of the list are distinct and name handles; between two steps
    no handle has a call in flight and none has more than three recent faults. *)
Record pool_ok p : Prop := {
  ok_nodup : NoDup (workers p);
  ok_present : ∀ i, i ∈ workers p -> is_Some (store p !! i);
  ok_handles : map_Forall (λ _ h, handle_ok (clock p) h) (store p)
}.

Definition empty_pool (now : Z) : pool A R := Build_pool ∅ [] 0 0 now.

Lemma empty_ok now : pool_ok (empty_pool now).
Proof. split; simpl; [constructor|intros i Hi%elem_of_nil; done|apply map_Forall_empty]. Qed.

Lemma refresh_idle n h : inflight h = [] -> refresh_inflight ws n h = h.
Proof.
  intros Hi. unfold refresh_inflight, with_inflight. destruct h; simpl in *. subst.
  by destruct (RAY_AVAILABLE ws).
Qed.

Lemma refresh_all_ok p : pool_ok p -> refresh_all ws p = p.
Proof.
  intros [_ _ Hh]. unfold refresh_all. destruct p as [st wk nx n now]; simpl in *. f_equal.
  induction wk as [|i wk IH]; simpl; [done|]. rewrite IH. apply map_eq. intros j.
  destruct (decide (j = i)) as [->|]; [rewrite lookup_alter_eq|by rewrite lookup_alter_ne].
  destruct (st !! i) as [h|] eqn:E; simpl; [|done]. f_equal. apply refresh_idle, (Hh i h E).
Qed.

Lemma set_handle_ok i h p : pool_ok p -> handle_ok (clock p) h -> pool_ok (set_handle i h p).
Proof.
  intros [H1 H2 H3] Hh. split; simpl; [done| |by apply map_Forall_insert_2].
  intros j Hj. destruct (decide (j = i)) as [->|]; [by rewrite lookup_insert_eq|].
  rewrite lookup_insert_ne by done. by apply H2.
Qed.

Lemma add_worker_ok name a p : pool_ok p -> pool_ok (add_worker name a p).
Proof.
  intros [H1 H2 H3]. unfold add_worker. set (i := fresh (dom (store p))).
  assert (Hi : i ∉ dom (store p)) by apply is_fresh. split; simpl.
  - apply NoDup_app. split_and!; [done| |apply NoDup_singleton].
    intros j Hj Hji%list_elem_of_singleton. subst j. apply Hi, elem_of_dom. by apply H2.
  - intros j [Hj|Hj%list_elem_of_singleton]%elem_of_app; [|subst; by rewrite lookup_insert_eq].
    destruct (decide (j = i)) as [->|]; [by rewrite lookup_insert_eq|].
    rewrite lookup_insert_ne by done. by apply H2.
  - apply map_Forall_insert_2; [|done]. split; [done|]. unfold recent_faults. simpl. lia.
Qed.

Lemma create_range_ok keep n : ∀ first p, pool_ok p -> pool_ok (create_range cfg ws keep first n p).
Proof.
  induction n as [|n IH]; intros first p Hp; simpl; [done|]. apply IH.
  destruct (try_recover_or_create _ _ _) as [a|]; [|done].
  destruct (keep a); [by apply add_worker_ok|done].
Qed.

Lemma set_next_ok n p : pool_ok p -> pool_ok (set_next n p).
Proof. by intros [H1 H2 H3]. Qed.

Lemma select_ok p : pool_ok p -> pool_ok (select_worker cfg ws p).1.
Proof.
  intros Hp. unfold select_worker. destruct (workers p); [done|].
  rewrite refresh_all_ok by done. destruct (scan_from _ _ _ _ _); simpl; [by apply set_next_ok|done].
Qed.

Lemma dispatch_ok i m p : pool_ok p -> pool_ok (dispatch ws i m p).1.
Proof.
  intros Hp. unfold dispatch. destruct (store p !! i) as [h|] eqn:Eh; [|done].
  destruct (has_method _ _ _); [|done]. pose proof (ok_handles _ Hp i h Eh) as [Hidle Hf].
  assert (H1 : pool_ok (Build_pool (store p) (workers p) (next_index p) (S (calls p)) (clock p)))
    by by destruct Hp.
  destruct (RAY_AVAILABLE ws); [|done]. simpl. apply set_handle_ok; [done|].
  split; [|done]. simpl. rewrite Hidle. simpl. by rewrite decide_True.
Qed.

Lemma dispatch_clock i m p : clock (dispatch ws i m p).1 = clock p.
Proof.
  unfold dispatch. destruct (store p !! i); [|done]. destruct (has_method _ _ _); [|done].
  by destruct (RAY_AVAILABLE ws).
Qed.

Lemma recent_filtered now h l :
  recent_faults now (with_faults (filter (λ t, (now - ACTOR_FAULT_REPLACE_WINDOW < t)%Z) l) h) =
  length (filter (λ t, (now - t < ACTOR_FAULT_REPLACE_WINDOW)%Z) l).
Proof.
  unfold recent_faults. simpl. rewrite list_filter_filter. f_equal. apply list_filter_iff. intros t. lia.
Qed.

Lemma record_fault_ok now h :
  handle_ok now h -> is_tripped now h = false -> handle_ok now (record_fault now h).
Proof.
  intros [Hi _] Ht. split; [done|]. unfold record_fault. rewrite recent_filtered, filter_app, length_app.
  unfold is_tripped in Ht. apply Nat.leb_gt in Ht.
  assert (length (filter (λ t, (now - t < ACTOR_FAULT_REPLACE_WINDOW)%Z) [now]) <= 1)%nat
    by apply length_filter. lia.
Qed.

Lemma replace_ok i p : pool_ok p -> pool_ok (replace_worker cfg ws i p).1.
Proof.
  intros Hp. unfold replace_worker. destruct (list_find _ _) as [[pos j]|]; [|done].
  destruct (store p !! i) as [h|] eqn:Eh; [|done].
  destruct (try_recover_or_create _ _ _) as [a|]; [|done]. simpl.
  apply set_handle_ok; [done|]. pose proof (ok_handles _ Hp i h Eh) as [_ Hf]. by split.
Qed.

Lemma call_ok i m p : pool_ok p -> pool_ok (call_worker cfg ws i m p).1.
Proof.
  intros Hp. unfold call_worker. pose proof (dispatch_ok i m p Hp) as H1.
  destruct (dispatch ws i m p) as [p1 [e|v]]; [|done]. simpl in H1.
  destruct (is_exception e && is_actor_fault ws e); [|done].
  destruct (store p1 !! i) as [h|] eqn:Eh; [|done].
  destruct (is_tripped (clock p1) h) eqn:Et; [done|].
  assert (H2 : pool_ok (set_handle i (record_fault (clock p1) h) p1))
    by (apply set_handle_ok; [done|]; apply record_fault_ok; [apply (ok_handles _ H1 i h Eh)|done]).
  pose proof (replace_ok i _ H2) as H3.
  destruct (replace_worker cfg ws i _) as [p3 [e'|[a|]]]; simpl in H3; [done| |done].
  by apply dispatch_ok.
Qed.

Lemma run_on_worker_ok m p : pool_ok p -> pool_ok (run_on_worker cfg ws m p).1.
Proof.
  intros Hp. unfold run_on_worker. pose proof (select_ok p Hp) as H1.
  destruct (select_worker cfg ws p) as [p1 [e|i]]; simpl in H1; [done|]. by apply call_ok.
Qed.

Lemma resize_ok n p : pool_ok p -> pool_ok (resize cfg ws n p).1 /\ (resize cfg ws n p).2 = [].
Proof.
  intros Hp. unfold resize. set (size := Z.max 0 _). destruct (_ <? size).
  { split; [by apply create_range_ok|done]. }
  destruct (size <? _); [|done]. simpl. split.
  - apply set_next_ok. destruct Hp as [H1 H2 H3].
    assert (Hs : sort_workers p ≡ₚ workers p) by apply sort_desc_perm.
    split; simpl; [| |done].
    + assert (Hnd : NoDup (sort_workers p)) by by rewrite Hs.
      rewrite <-(take_drop (Z.to_nat size) (sort_workers p)) in Hnd. by apply NoDup_app in Hnd as [? _].
    + intros i Hi%subseteq_take. apply H2. by rewrite <-Hs.
  - destruct (RAY_AVAILABLE ws); [|done].
    destruct (filter _ _) as [|h l] eqn:Ef; [done|]. exfalso.
    assert (Hh : h ∈ h :: l) by by left. rewrite <-Ef in Hh.
    apply list_elem_of_filter in Hh as [Hpos (i & _ & Hl)%list_elem_of_omap].
    unfold pending in Hpos. rewrite (hk_idle _ _ (ok_handles _ Hp i h Hl)) in Hpos. simpl in Hpos. lia.
Qed.
End Invariant.

(** ** Any sequence of operations *)

Inductive pool_op :=
| OpStart | OpRun (m : string) | OpResize (n : Z) | OpStatus | OpWait (ms : Z).

Section Operations.
Context {A R : Type} `{!EqDecision R} (cfg : PoolConfig) (ws : Workers A R).
Implicit Types (h : WorkerHandle A R) (p : pool A R).

(** Time does not go back. *)
Definition wait (ms : Z) p : pool A R :=
  Build_pool (store p) (workers p) (next_index p) (calls p) (clock p + Z.max 0 ms).

Definition exec_op (o : pool_op) p : pool A R :=
  match o with
  | OpStart => start cfg ws p
  | OpRun m => (run_on_worker cfg ws m p).1
  | OpResize n => (resize cfg ws n p).1
  | OpStatus => (get_status ws p).1
  | OpWait ms => wait ms p
  end.

Definition exec_ops (os : list pool_op) p : pool A R := foldl (λ p o, exec_op o p) p os.

Lemma recent_faults_later now now' h : now <= now' -> (recent_faults now' h <= recent_faults now h)%nat.
Proof.
  intros Hn. unfold recent_faults. induction (fault_times h) as [|t l IH]; [done|].
  rewrite !filter_cons. destruct (decide (now' - t < _)), (decide (now - t < _)); simpl; lia.
Qed.

Lemma exec_op_ok o p : pool_ok p -> pool_ok (exec_op o p).
Proof.
  intros Hp. destruct o as [|m|n| |ms]; simpl.
  - by apply create_range_ok.
  - by apply run_on_worker_ok.
  - by apply resize_ok.
  - by rewrite refresh_all_ok.
  - destruct Hp as [H1 H2 H3]. split; [done..|]. simpl. intros i h Hi. destruct (H3 i h Hi) as [Ha Hb].
    split; [done|]. etrans; [apply (recent_faults_later (clock p)); lia|exact Hb].
Qed.

Lemma exec_ops_ok os : ∀ p, pool_ok p -> pool_ok (exec_ops os p).
Proof. induction os as [|o os IH]; intros p Hp; simpl; [done|]. apply IH. by apply exec_op_ok. Qed.

(** *** Selection *)

Definition present p : Prop := ∀ i, i ∈ workers p -> is_Some (store p !! i).

Lemma handles_lookup p k : present p -> handles p !! k = (workers p !! k) ≫= λ i, store p !! i.
Proof.
  unfold present. intros H2. unfold handles. revert k. induction (workers p) as [|i l IH]; intros k; [done|].
  simpl. destruct (H2 i) as [h Hh]; [by left|]. rewrite Hh.
  destruct k as [|k]; simpl; [done|]. apply IH. intros j Hj. apply H2. by right.
Qed.

Lemma handles_length p : present p -> length (handles p) = length (workers p).
Proof.
  unfold present. intros H2. unfold handles. induction (workers p) as [|i l IH]; [done|]. simpl.
  destruct (H2 i) as [h Hh]; [by left|]. rewrite Hh. simpl. f_equal. apply IH.
  intros j Hj. apply H2. by right.
Qed.

Lemma select_unfold p :
  workers p <> [] ->
  select_worker cfg ws p =
    let p := refresh_all ws p in
    let n := length (workers p) in
    match scan_from (handles p) (min_pending (handles p)) (next_index p) 0 n with
    | Some idx =>
        (set_next ((idx + 1) mod Z.of_nat n) p, inr (default 0%nat (workers p !! Z.to_nat idx)))
    | None => (p, inr (default 0%nat (workers p !! Z.to_nat (next_index p mod Z.of_nat n))))
    end.
Proof. unfold select_worker. by destruct (workers p). Qed.

(** Nothing is in flight, so the first worker the round robin looks at is taken. *)
Lemma select_next p :
  pool_ok p -> workers p <> [] ->
  let n := length (workers p) in
  exists i, workers p !! ring (next_index p) n 0 = Some i /\
    select_worker cfg ws p = (set_next ((next_index p + 1) mod Z.of_nat n) p, inr i).
Proof.
  intros Hp Hne n. assert (Hn : (0 < n)%nat) by (subst n; destruct (workers p); [done|simpl; lia]).
  rewrite select_unfold, refresh_all_ok by done. cbv zeta. assert (Hlen : length (handles p) = n) by (apply handles_length; exact (ok_present _ Hp)).
  assert (Hidle : ∀ h, h ∈ handles p -> pending h = 0).
  { intros h (i & _ & Hl)%list_elem_of_omap. unfold pending.
    by rewrite (hk_idle _ _ (ok_handles _ Hp i h Hl)). }
  destruct (min_pending_spec (handles p)) as (_ & hm & Hin & Hm);
    [intros E; rewrite E in Hlen; simpl in Hlen; lia|]. rewrite (Hidle _ Hin) in Hm. rewrite <-Hm.
  fold n. rewrite <-Hlen in Hn. pose proof (ring_lt (next_index p) _ 0 Hn) as Hr.
  destruct (lookup_lt_is_Some_2 _ _ Hr) as [h Hh].
  destruct (scan_from_spec (handles p) 0 (next_index p) n 0 Hn) as (k & Hk & Hs & _ & Hmin).
  { exists 0%nat. split; [lia|]. exists h. split; [done|]. apply Hidle. by eapply list_elem_of_lookup_2. }
  assert (k = 0%nat) as ->.
  { destruct k as [|k]; [done|]. exfalso. apply (Hmin 0%nat h); [lia|done|].
    apply Hidle. by eapply list_elem_of_lookup_2. }
  rewrite Hs, Nat2Z.id. rewrite Hlen in *.
  rewrite handles_lookup in Hh by exact (ok_present _ Hp).
  destruct (workers p !! ring (next_index p) n 0) as [i|] eqn:Ei; [|done].
  exists i. split; [done|]. simpl. do 2 f_equal. unfold ring.
  rewrite Z2Nat.id by (apply Z.mod_pos_bound; lia). rewrite Z.add_0_r. by rewrite Zplus_mod_idemp_l.
Qed.

(** [k] selections in a row *)
Fixpoint selections (k : nat) p : list nat :=
  match k with
  | O => []
  | S k' => match select_worker cfg ws p with
            | (p', inr i) => i :: selections k' p'
            | (_, inl _) => []
            end
  end.

Lemma ring_next s n k : (0 < n)%nat -> ring ((s + 1) mod Z.of_nat n) n k = ring s n (S k).
Proof. intros Hn. unfold ring. rewrite Zplus_mod_idemp_l. do 2 f_equal. lia. Qed.

Lemma selections_ring k : ∀ p,
  pool_ok p -> workers p <> [] ->
  selections k p = (λ j, default 0%nat (workers p !! ring (next_index p) (length (workers p)) j)) <$> seq 0 k.
Proof.
  induction k as [|k IH]; intros p Hp Hne; [done|]. simpl selections.
  destruct (select_next p Hp Hne) as (i & Hi & ->).
  rewrite IH by (try apply set_next_ok; done). simpl. rewrite Hi. simpl. f_equal.
  rewrite <-fmap_S_seq, <-list_fmap_compose. apply list_fmap_ext. intros _ j _. simpl.
  rewrite ring_next; [done|]. destruct (workers p); [done|simpl; lia].
Qed.

Lemma ring_inj s n j k : (j < n)%nat -> (k < n)%nat -> ring s n j = ring s n k -> j = k.
Proof.
  intros Hj Hk E. unfold ring in E.
  pose proof (Z.mod_pos_bound (s + Z.of_nat j) (Z.of_nat n)).
  pose proof (Z.mod_pos_bound (s + Z.of_nat k) (Z.of_nat n)).
  assert (E' : (s + Z.of_nat j) mod Z.of_nat n = (s + Z.of_nat k) mod Z.of_nat n) by lia.
  pose proof (Z.div_mod (s + Z.of_nat j) (Z.of_nat n) ltac:(lia)) as Dj.
  pose proof (Z.div_mod (s + Z.of_nat k) (Z.of_nat n) ltac:(lia)) as Dk. rewrite E' in Dj.
  destruct (Z.lt_trichotomy ((s + Z.of_nat j) / Z.of_nat n) ((s + Z.of_nat k) / Z.of_nat n)) as [?|[?|?]]; nia.
Qed.

Lemma ring_perm s n : ring s n <$> seq 0 n ≡ₚ seq 0 n.
Proof.
  assert (Hnd : NoDup (ring s n <$> seq 0 n)).
  { apply NoDup_fmap_2_strong; [|apply NoDup_seq]. intros j k Hj%elem_of_seq Hk%elem_of_seq.
    apply ring_inj; lia. }
  apply submseteq_length_Permutation.
  - apply NoDup_submseteq; [done|]. intros x (j & -> & Hj%elem_of_seq)%list_elem_of_fmap.
    apply elem_of_seq. split; [lia|]. apply ring_lt. lia.
  - by rewrite length_fmap.
Qed.

Lemma elem_of_Permutation_ring s n i : (i < n)%nat <-> exists k, (k < n)%nat /\ ring s n k = i.
Proof.
  assert (H : i ∈ ring s n <$> seq 0 n <-> i ∈ seq 0 n) by by rewrite ring_perm.
  rewrite elem_of_seq, list_elem_of_fmap in H. split.
  - intros Hi. destruct (proj2 H) as (k & -> & Hk%elem_of_seq); [lia|]. exists k. split; [lia|done].
  - intros (k & Hk & <-). apply ring_lt. lia.
Qed.

Lemma lookup_seq_id (l : list nat) : (λ i, default 0%nat (l !! i)) <$> seq 0 (length l) = l.
Proof.
  induction l as [|x l IH]; [done|]. simpl. f_equal. rewrite <-IH at 2.
  rewrite <-fmap_S_seq, <-list_fmap_compose. by apply list_fmap_ext.
Qed.

Lemma refresh_present p : present p -> present (refresh_all ws p).
Proof.
  intros Hp i Hi. specialize (Hp i Hi). simpl. generalize (workers p) as l.
  induction l as [|j l IH]; simpl; [done|]. by rewrite lookup_alter_is_Some.
Qed.
End Operations.

(** Selection ends within one turn around the pool, on a least-loaded worker.
    For any pool whose references name handles, whatever is in flight: the loop
    finds a worker after looking at no more workers than there are, so the
    fallback after it is never reached; the worker found has the least calls in
    flight of all, and every worker the turn passed over has more. *)
Theorem select_worker_least_loaded {A R : Type} `{!EqDecision R} cfg (ws : Workers A R) (p : pool A R) :
  workers p <> [] -> present p ->
  let p1 := refresh_all ws p in
  let n := length (workers p) in
  exists k i, (k < n)%nat /\ workers p !! ring (next_index p) n k = Some i /\
    select_worker cfg ws p =
      (set_next ((Z.of_nat (ring (next_index p) n k) + 1) mod Z.of_nat n) p1, inr i) /\
    (∀ j, j ∈ workers p -> pending_of p1 i <= pending_of p1 j) /\
    ∀ k' j, (k' < k)%nat -> workers p !! ring (next_index p) n k' = Some j ->
      pending_of p1 i < pending_of p1 j.
Proof.
  intros Hne Hp p1 n. assert (Hn : (0 < n)%nat) by (subst n; destruct (workers p); [done|simpl; lia]).
  assert (Hp1 : present p1) by by apply refresh_present.
  assert (Hlen : length (handles p1) = n) by by apply handles_length.
  assert (Hat : ∀ k i, workers p !! k = Some i ->
            exists h, handles p1 !! k = Some h /\ pending_of p1 i = pending h).
  { intros k i Hi. destruct (Hp1 i) as [h Hh]; [by eapply list_elem_of_lookup_2|].
    exists h. rewrite handles_lookup by done. change (workers p1) with (workers p). rewrite Hi. simpl.
    split; [exact Hh|]. unfold pending_of. by rewrite Hh. }
  destruct (min_pending_spec (handles p1)) as (Hmin & hm & Hin & Hm);
    [intros E; rewrite E in Hlen; simpl in Hlen; lia|].
  destruct (scan_from_spec (handles p1) (min_pending (handles p1)) (next_index p) n 0)
    as (k & Hk & Hs & (h & Hh & Hph) & Hbefore); [lia| |].
  { apply list_elem_of_lookup in Hin as [i0 Hi0]. pose proof (lookup_lt_Some _ _ _ Hi0) as Hlt.
    destruct (proj1 (elem_of_Permutation_ring (next_index p) n i0)) as (k & Hk & Hr); [lia|].
    exists k. split; [lia|]. exists hm. rewrite Hlen, Hr. done. }
  rewrite Hlen in *. pose proof (ring_lt (next_index p) n k Hn) as Hr.
  destruct (lookup_lt_is_Some_2 (workers p) (ring (next_index p) n k) Hr) as [i Hi].
  destruct (Hat _ _ Hi) as (h' & Hh' & Hpi). rewrite Hh in Hh'. injection Hh' as <-.
  exists k, i. split_and!; [lia|done| | |].
  - rewrite select_unfold by done. fold p1. cbv zeta. change (length (workers p1)) with n.
    change (next_index p1) with (next_index p). rewrite Hs, Nat2Z.id.
    change (workers p1) with (workers p). by rewrite Hi.
  - intros j [kj Hj]%list_elem_of_lookup. destruct (Hat _ _ Hj) as (hj & Hhj & ->).
    rewrite Hpi, Hph. apply Hmin. by eapply list_elem_of_lookup_2.
  - intros k' j Hk' Hj. destruct (Hat _ _ Hj) as (hj & Hhj & ->). rewrite Hpi, Hph.
    assert (min_pending (handles p1) <= pending hj) by (apply Hmin; by eapply list_elem_of_lookup_2).
    specialize (Hbefore k' hj). rewrite Hhj in Hbefore. specialize (Hbefore ltac:(lia) eq_refl). lia.
Qed.

(** Two workers; the first has a call in flight. *)
Definition demo_workers : Workers nat nat :=
  {| RAY_AVAILABLE := true; get_actor := λ _, None; factory := Some (λ _ i, inr (Some (Z.to_nat i)));
     has_method := λ _ _, true; call_ref := λ n, n; call_answer := λ _ _ _, inr VNone;
     is_ready := λ _ r, Some (bool_decide (r = 0)%nat); actor_fault := λ _, false;
     actor_truthy := λ _, true |}.

Definition demo_config : PoolConfig :=
  {| pc_capability := "ocr"; pc_cluster_id := "c"; pc_tenant_id := ""; pc_target_size := 3; pc_max_size := 4 |}.

Definition demo_pool : pool nat nat :=
  Build_pool {[ 7%nat := Build_WorkerHandle "a" 1%nat [5%nat] [] true;
                9%nat := Build_WorkerHandle "b" 2%nat [0%nat] [] true ]} [7%nat; 9%nat] 0 0 0.

Lemma select_worker_least_loaded_witness :
  exists p', select_worker demo_config demo_workers demo_pool = (p', inr 9%nat) /\
    pending_of p' 9 < pending_of p' 7.
Proof.
  destruct (select_worker_least_loaded demo_config demo_workers demo_pool) as (k & i & Hk & Hi & Hs & Hmin & _).
  - done.
  - intros i Hi. simpl in Hi. rewrite !elem_of_cons in Hi.
    destruct Hi as [->|[->|Hi]]; [by eexists|by eexists|]. by apply elem_of_nil in Hi.
  - assert (Hres : (select_worker demo_config demo_workers demo_pool).2 = inr 9%nat) by reflexivity.
    rewrite Hs in Hres. injection Hres as ->. eexists. split; [exact Hs|]. reflexivity.
Defined.

(** ** Reachable pools *)

Lemma create_range_length {A R : Type} cfg (ws : Workers A R) keep n : ∀ first (p : pool A R),
  (length (workers (create_range cfg ws keep first n p)) <= length (workers p) + n)%nat.
Proof.
  induction n as [|n IH]; intros first p; simpl; [lia|]. etrans; [apply IH|].
  destruct (try_recover_or_create _ _ _) as [a|]; [|lia].
  destruct (keep a); simpl; [rewrite length_app; simpl|]; lia.
Qed.

Lemma resize_length {A R : Type} cfg (ws : Workers A R) n (p : pool A R) :
  Z.of_nat (length (workers (resize cfg ws n p).1)) <= Z.max 0 (Z.min n (pc_max_size cfg)).
Proof.
  unfold resize. set (size := Z.max 0 _). destruct (Z.ltb_spec (Z.of_nat (length (workers p))) size); simpl.
  - pose proof (create_range_length cfg ws (actor_truthy ws) (Z.to_nat (size - Z.of_nat (length (workers p))))
      (Z.of_nat (length (workers p))) p). lia.
  - destruct (Z.ltb_spec size (Z.of_nat (length (workers p)))); simpl; [rewrite length_take|]; lia.
Qed.

(** Selection is plain round robin.  In any pool reached by any operations no
    call is in flight between two operations, because [ray.get] waits for each one
    inside [_dispatch]: so every worker is picked exactly once in as many
    selections as there are workers, and a resize that shrinks the pool finds no
    loaded worker and kills no actor. *)
Theorem pool_round_robin {A R : Type} `{!EqDecision R} cfg (ws : Workers A R) os now n :
  let p := exec_ops cfg ws os (empty_pool now) in
  (∀ i h, store p !! i = Some h -> inflight h = []) /\
  selections cfg ws (length (workers p)) p ≡ₚ workers p /\
  (resize cfg ws n p).2 = [].
Proof.
  intros p. assert (Hp : pool_ok p) by apply exec_ops_ok, empty_ok. split_and!.
  - intros i h Hi. apply (hk_idle _ _ (ok_handles _ Hp i h Hi)).
  - destruct (workers p) as [|i l] eqn:Ew; [done|]. rewrite <-Ew.
    rewrite selections_ring by (try done; by rewrite Ew).
    transitivity ((λ i, default 0%nat (workers p !! i)) <$>
                  (ring (next_index p) (length (workers p)) <$> seq 0 (length (workers p)))).
    { by rewrite <-list_fmap_compose. }
    by rewrite ring_perm, lookup_seq_id.
  - by apply resize_ok.
Qed.

(** A worker that could not be created leaves a hole the names do not show: the
    next one to be added takes the name of a worker of the pool. *)
Definition flaky_workers : Workers nat nat :=
  {| RAY_AVAILABLE := false; get_actor := λ _, None;
     factory := Some (λ _ i, inr (if decide (i = 1) then None else Some (Z.to_nat i)));
     has_method := λ _ _, true; call_ref := λ n, n; call_answer := λ _ _ _, inr VNone;
     is_ready := λ _ _, Some true; actor_fault := λ _, false; actor_truthy := λ _, true |}.

Example duplicate_names :
  wh_name <$> handles (exec_ops demo_config flaky_workers [OpStart; OpResize 3] (empty_pool 0)) =
  ["worker_default_c_ocr_0"; "worker_default_c_ocr_2"; "worker_default_c_ocr_2"].
Proof. vm_compute. reflexivity. Qed.

(** A shrinking resize removes the busiest workers. *)
Lemma resize_removes_busiest {A R : Type} (p : pool A R) n i j :
  i ∈ take n (sort_workers p) -> j ∈ drop n (sort_workers p) -> pending_of p i <= pending_of p j.
Proof.
  intros Hi Hj. set (ge := λ i j, pending_of p i <=? pending_of p j).
  assert (Hs : StronglySorted (geP ge) (sort_workers p))
    by (apply sort_desc_sorted; subst ge; simpl; intros; lia).
  rewrite <-(take_drop n (sort_workers p)) in Hs.
  apply Z.leb_le. exact (StronglySorted_app_1_elem_of _ _ _ _ _ Hs Hi Hj).
Qed.
