(* ===== verification/ActorPoolTasks.v ===== *)
(** * The actor pool under concurrent tasks

    The methods of [ActorPoolManager] ([src/workload/actor_pool_manager.py]) run as
    tasks of one event loop.  A task gives the loop up in two places: before the
    pool's lock, and while the worker factory is awaited ([start], [resize] and
    [_replace_worker]).  Each event below is what one task does up to the next such
    place, with what Ray and the workers do during it; any other task may run in
    between.  [ActorPool.v] has the same methods run in one piece. *)

From stdpp Require Import base gmap strings list sorting.
From S2P Require Import Prelude PyValue Effects PySort ActorPool.

Open Scope Z_scope.

Section Tasks.
Context {A R : Type} `{!EqDecision R} (cfg : PoolConfig).
Implicit Types (ws : Workers A R) (p : pool A R).

(** The two methods that take the lock *)
Inductive lock_op := LStart | LResize (new_size : Z).

(** What is observed: a call that begins to replace the worker of a handle, and the
    size of the pool when a resize releases the lock *)
Inductive entry := Attempt (i : nat) (t : Z) | Resized (asked size : Z).

(** The pool; the holder of the lock, when it awaits the factory for an index with
    some more to go; the tasks waiting for the lock; the calls awaiting a new
    worker for a handle. *)
Record system := {
  sys_pool : pool A R;
  holder : option (lock_op * Z * nat);
  waiting : list lock_op;
  replacing : list (nat * string);
  log : list entry
}.

Definition initial (now : Z) : system :=
  {| sys_pool := empty_pool now; holder := None; waiting := []; replacing := []; log := [] |}.

(** ** [_try_recover_or_create], up to its [await] and from there *)

Inductive recovery := Recovered (a : option A) | AwaitFactory.

Definition try_recover ws (name : string) : recovery :=
  match (if RAY_AVAILABLE ws then get_actor ws name else None) with
  | Some a => Recovered (Some a)
  | None => match factory ws with Some _ => AwaitFactory | None => Recovered None end
  end.

Definition factory_answer (r : exn + option A) : exn + option A :=
  match r with inl e => if is_exception e then inr None else inl e | inr o => inr o end.

(** ** [start] and [resize] *)

(** [is not None] in the one, the actor's truth in the other *)
Definition append_worker ws (o : lock_op) (idx : Z) (a : option A) p : pool A R :=
  match a with
  | Some a =>
      if match o with LStart => true | LResize _ => actor_truthy ws a end
      then add_worker (worker_name cfg idx) a p else p
  | None => p
  end.

(** The loop over the indices from [first] on, up to the first [await] *)
Fixpoint fill ws (o : lock_op) (first : Z) (n : nat) p : pool A R * option (Z * nat) :=
  match n with
  | O => (p, None)
  | S n' =>
      match try_recover ws (worker_name cfg first) with
      | Recovered a => fill ws o (first + 1) n' (append_worker ws o first a p)
      | AwaitFactory => (p, Some (first, n'))
      end
  end.

Definition released (o : lock_op) p (l : list entry) : list entry :=
  match o with LStart => l | LResize n => l ++ [Resized n (Z.of_nat (length (workers p)))] end.

(** A task that has the lock goes on: it waits for the factory, or releases it. *)
Definition go_on ws (o : lock_op) (first : Z) (n : nat) p (s : system) : system :=
  match fill ws o first n p with
  | (p, Some (idx, todo)) =>
      {| sys_pool := p; holder := Some (o, idx, todo); waiting := waiting s; replacing := replacing s; log := log s |}
  | (p, None) =>
      {| sys_pool := p; holder := None; waiting := waiting s; replacing := replacing s; log := released o p (log s) |}
  end.

Definition clamp (n : Z) : Z := Z.max 0 (Z.min n (pc_max_size cfg)).

(** [async with self._lock:] entered *)
Definition enter ws (o : lock_op) (s : system) : system :=
  let p := sys_pool s in
  match o with
  | LStart => go_on ws o 0 (Z.to_nat (pc_target_size cfg)) p s
  | LResize n =>
      let current := Z.of_nat (length (workers p)) in
      if current <? clamp n then go_on ws o current (Z.to_nat (clamp n - current)) p s
      else go_on ws o current 0 (resize cfg ws n p).1 s
  end.

(** ** [_call_worker] *)

Definition with_pool p (s : system) : system :=
  {| sys_pool := p; holder := holder s; waiting := waiting s; replacing := replacing s; log := log s |}.

(** The new worker, and the retry, whose fault is not looked at *)
Definition retry ws (i : nat) (m : string) (a : option A) p : pool A R :=
  match a, store p !! i with
  | Some a, Some h =>
      (dispatch ws i m (set_handle i (Build_WorkerHandle (wh_name h) a [] (fault_times h) true) p)).1
  | _, _ => p
  end.

(** A call up to its end or to the factory's [await]; [ray.get] keeps the whole loop
    waiting for [busy] milliseconds. *)
Definition call ws (m : string) (busy : Z) (s : system) : system :=
  match select_worker cfg ws (sys_pool s) with
  | (p, inl _) => with_pool p s
  | (p, inr i) =>
      let '(p, r) := dispatch ws i m p in
      let p := wait busy p in
      match r, store p !! i with
      | inl e, Some h =>
          if is_exception e && is_actor_fault ws e && negb (is_tripped (clock p) h) then
            let p := set_handle i (record_fault (clock p) h) p in
            let l := log s ++ [Attempt i (clock p)] in
            let ended p :=
              {| sys_pool := p; holder := holder s; waiting := waiting s; replacing := replacing s; log := l |} in
            match list_find (λ j, j = i) (workers p) with
            | None => ended p
            | Some (pos, _) =>
                match try_recover ws (worker_name cfg (Z.of_nat pos)) with
                | Recovered a => ended (retry ws i m a p)
                | AwaitFactory =>
                    {| sys_pool := p; holder := holder s; waiting := waiting s;
                       replacing := replacing s ++ [(i, m)]; log := l |}
                end
            end
          else with_pool p s
      | _, _ => with_pool p s
      end
  end.

(** ** Events *)

Inductive event :=
| Elapse (ms : Z)
| Call (m : string) (busy : Z)               (* [execute], [submit], [submit_streaming] *)
| Status
| Request (o : lock_op)
| Acquire (k : nat)                          (* a waiting task gets the lock *)
| Created (r : exn + option A)               (* the factory answers the holder of the lock *)
| Replaced (k : nat) (r : exn + option A)    (* the factory answers a call *)
| CancelWait (k : nat).

Definition step (x : Workers A R * event) (s : system) : system :=
  let ws := x.1 in
  match x.2 with
  | Elapse ms => with_pool (wait ms (sys_pool s)) s
  | Call m busy => call ws m busy s
  | Status => with_pool (get_status ws (sys_pool s)).1 s
  | Request o =>
      {| sys_pool := sys_pool s; holder := holder s; waiting := waiting s ++ [o]; replacing := replacing s; log := log s |}
  | Acquire k =>
      match holder s, waiting s !! k with
      | None, Some o =>
          enter ws o {| sys_pool := sys_pool s; holder := None; waiting := delete k (waiting s);
                        replacing := replacing s; log := log s |}
      | _, _ => s
      end
  | Created r =>
      match holder s with
      | Some (o, idx, todo) =>
          match factory_answer r with
          | inr a => go_on ws o (idx + 1) todo (append_worker ws o idx a (sys_pool s)) s
          | inl _ =>
              {| sys_pool := sys_pool s; holder := None; waiting := waiting s; replacing := replacing s; log := log s |}
          end
      | None => s
      end
  | Replaced k r =>
      match replacing s !! k with
      | Some (i, m) =>
          {| sys_pool := match factory_answer r with
                         | inr a => retry ws i m a (sys_pool s)
                         | inl _ => sys_pool s
                         end;
             holder := holder s; waiting := waiting s; replacing := delete k (replacing s); log := log s |}
      | None => s
      end
  | CancelWait k =>
      {| sys_pool := sys_pool s; holder := holder s; waiting := delete k (waiting s); replacing := replacing s; log := log s |}
  end.

Definition exec (es : list (Workers A R * event)) (s : system) : system := foldl (λ s x, step x s) s es.

(** ** Run without interruption these are the methods of [ActorPool.v] *)

(** The loop, the factory answering each time at once *)
Fixpoint fill_through ws (f : string -> Z -> exn + option A) (o : lock_op) (first : Z) (n : nat) p : pool A R :=
  match n with
  | O => p
  | S n' =>
      let a := match try_recover ws (worker_name cfg first) with
               | Recovered a => a
               | AwaitFactory => match factory_answer (f (worker_name cfg first) first) with inr a => a | inl _ => None end
               end in
      fill_through ws f o (first + 1) n' (append_worker ws o first a p)
  end.

(** What a factory gives that answers at once *)
Definition answers_of ws (name : string) (idx : Z) : exn + option A :=
  match factory ws with Some f => f name idx | None => inr None end.

Lemma try_recover_sequential ws name idx :
  try_recover_or_create ws name idx =
  match try_recover ws name with
  | Recovered a => a
  | AwaitFactory => match factory_answer (answers_of ws name idx) with inr a => a | inl _ => None end
  end.
Proof.
  unfold try_recover_or_create, try_recover, answers_of. destruct (if RAY_AVAILABLE ws then _ else _); [done|].
  destruct (factory ws) as [f|]; [|done]. destruct (f name idx) as [e|a]; simpl; [by destruct (is_exception e)|done].
Qed.

Lemma start_sequential ws p :
  start cfg ws p = fill_through ws (answers_of ws) LStart 0 (Z.to_nat (pc_target_size cfg)) p.
Proof.
  unfold start. generalize 0 at 1 2. revert p. induction (Z.to_nat (pc_target_size cfg)) as [|n IH]; intros p z; [done|].
  simpl. by rewrite try_recover_sequential, IH.
Qed.

Lemma wait_0 (q : pool A R) : wait 0 q = q.
Proof. destruct q. unfold wait. simpl. f_equal. lia. Qed.

(** A call whose factory answers at once, with nothing in between *)
Lemma call_sequential ws m p i p1 :
  select_worker cfg ws p = (p1, inr i) ->
  let s := call ws m 0 (with_pool p (initial 0)) in
  (run_on_worker cfg ws m p).1 =
    match replacing s with
    | [] => sys_pool s
    | (j, m') :: _ =>
        sys_pool (step (ws, Replaced 0 (match list_find (λ k, k = j) (workers (sys_pool s)) with
                                        | Some (pos, _) => answers_of ws (worker_name cfg (Z.of_nat pos)) (Z.of_nat pos)
                                        | None => inr None
                                        end)) s)
    end.
Proof.
  intros Hs. unfold run_on_worker, call. simpl sys_pool. rewrite Hs. unfold call_worker.
  destruct (dispatch ws i m p1) as [p2 [e|v]]; cbv zeta; rewrite !wait_0; [|by destruct (store p2 !! i)].
  destruct (store p2 !! i) as [h|] eqn:Eh; [|by destruct (is_exception e && _)].
  destruct (is_exception e && is_actor_fault ws e); simpl; [|done].
  change (0 `max` 0) with 0. rewrite !Z.add_0_r.
  destruct (is_tripped (clock p2) h); simpl; [done|]. unfold replace_worker. simpl. rewrite lookup_insert_eq.
  destruct (list_find (λ j, j = i) (workers p2)) as [[pos j]|] eqn:El; simpl; [|done].
  rewrite try_recover_sequential. destruct (try_recover ws _) as [[a|]|]; simpl; rewrite ?lookup_insert_eq; [done|done|].
  rewrite El. destruct (factory_answer _) as [e'|[a|]]; simpl; rewrite ?lookup_insert_eq; done.
Qed.

(** ** The invariant *)

(** When calls began to replace the worker of a handle *)
Definition attempts (i : nat) (l : list entry) : list Z :=
  omap (λ x, match x with Attempt j t => if decide (j = i) then Some t else None | Resized _ _ => None end) l.

(** Those of the five minutes that end at [T] *)
Definition within (T : Z) (l : list Z) : list Z :=
  filter (λ t, T - ACTOR_FAULT_REPLACE_WINDOW < t /\ t <= T) l.

Definition recent (now : Z) (l : list Z) : list Z := filter (λ t, (now - t < ACTOR_FAULT_REPLACE_WINDOW)%Z) l.

Record faults_ok (i : nat) p (l : list entry) : Prop := {
  fo_past : ∀ t, t ∈ attempts i l -> t <= clock p;
  fo_stored : match store p !! i with
              | Some h => recent (clock p) (fault_times h) = recent (clock p) (attempts i l)
              | None => attempts i l = []
              end;
  fo_bound : ∀ T, (length (within T (attempts i l)) <= ACTOR_FAULT_MAX_REPLACES_PER_WINDOW)%nat
}.

(** The same handles with the same recorded faults, no earlier *)
Definition same_faults p p' : Prop :=
  clock p <= clock p' /\
  ∀ i, match store p' !! i with
       | Some h' => match store p !! i with Some h => fault_times h' = fault_times h | None => fault_times h' = [] end
       | None => store p !! i = None
       end.

Lemma same_faults_refl p : same_faults p p.
Proof. split; [done|]. intros i. by destruct (store p !! i). Qed.

Lemma same_faults_eq p p' : store p' = store p -> clock p' = clock p -> same_faults p p'.
Proof. intros Hs Hc. split; [lia|]. intros i. rewrite Hs. by destruct (store p !! i). Qed.

Lemma same_faults_trans p p' p'' : same_faults p p' -> same_faults p' p'' -> same_faults p p''.
Proof.
  intros [H1 H2] [H3 H4]. split; [lia|]. intros i. specialize (H2 i). specialize (H4 i).
  destruct (store p'' !! i), (store p' !! i), (store p !! i); congruence.
Qed.

Lemma recent_filter_later now now' l : now <= now' -> recent now' (recent now l) = recent now' l.
Proof. intros Hn. unfold recent. rewrite list_filter_filter. apply list_filter_iff. intros t. lia. Qed.

Lemma faults_ok_same i p p' l : same_faults p p' -> faults_ok i p l -> faults_ok i p' l.
Proof.
  intros [Hc Hs] [H1 H2 H3]. split; [|specialize (Hs i)|done].
  - intros t Ht. specialize (H1 t Ht). lia.
  - destruct (store p' !! i) as [h'|], (store p !! i) as [h|]; [rewrite Hs|rewrite Hs, H2|congruence|done].
    + by rewrite <-(recent_filter_later (clock p)), H2, recent_filter_later.
    + done.
Qed.

Lemma set_handle_same i h h' p :
  store p !! i = Some h -> fault_times h' = fault_times h -> same_faults p (set_handle i h' p).
Proof.
  intros Hh Hf. split; [done|]. intros j. simpl. destruct (decide (j = i)) as [-> |Hj].
  - by rewrite lookup_insert_eq, Hh.
  - rewrite lookup_insert_ne by done. by destruct (store p !! j).
Qed.

Lemma add_worker_same name a p : same_faults p (add_worker name a p).
Proof.
  split; [done|]. intros j. simpl. set (i := fresh _).
  assert (Hi : store p !! i = None) by (apply not_elem_of_dom, is_fresh).
  destruct (decide (j = i)) as [-> |Hj]; [by rewrite lookup_insert_eq, Hi|].
  rewrite lookup_insert_ne by done. by destruct (store p !! j).
Qed.

Lemma append_worker_same ws o idx a p : same_faults p (append_worker ws o idx a p).
Proof. destruct a as [a|]; [|apply same_faults_refl]. simpl. case_match; [apply add_worker_same|apply same_faults_refl]. Qed.

Lemma fill_same ws o n : ∀ first p, same_faults p (fill ws o first n p).1.
Proof.
  induction n as [|n IH]; intros first p; simpl; [apply same_faults_refl|].
  destruct (try_recover _ _) as [a|]; [|apply same_faults_refl].
  eapply same_faults_trans; [apply append_worker_same|apply IH].
Qed.

Lemma dispatch_same ws i m p : same_faults p (dispatch ws i m p).1.
Proof.
  unfold dispatch. destruct (store p !! i) as [h|] eqn:Eh; [|apply same_faults_refl].
  destruct (has_method _ _ _); [|apply same_faults_refl]. destruct (RAY_AVAILABLE ws); simpl.
  - eapply same_faults_trans; [|eapply set_handle_same; [exact Eh|done]]. by apply same_faults_eq.
  - by apply same_faults_eq.
Qed.

Lemma wait_same ms p : same_faults p (wait ms p).
Proof. split; [simpl; lia|]. intros i. simpl. by destruct (store p !! i). Qed.

Lemma retry_same ws i m a p : same_faults p (retry ws i m a p).
Proof.
  destruct a as [a|]; simpl; [|apply same_faults_refl].
  destruct (store p !! i) as [h|] eqn:Eh; [|apply same_faults_refl].
  eapply same_faults_trans; [|apply dispatch_same]. by eapply set_handle_same.
Qed.

Lemma attempts_app i l l' : attempts i (l ++ l') = attempts i l ++ attempts i l'.
Proof. apply omap_app. Qed.

(** A recorded fault of a handle that is not tripped *)
Lemma record_fault_ok_log j i h p l :
  store p !! i = Some h -> is_tripped (clock p) h = false -> faults_ok j p l ->
  faults_ok j (set_handle i (record_fault (clock p) h) p) (l ++ [Attempt i (clock p)]).
Proof.
  intros Hh Ht [H1 H2 H3]. destruct (decide (j = i)) as [-> |Hj].
  2: { assert (E : attempts j (l ++ [Attempt i (clock p)]) = attempts j l)
         by (rewrite attempts_app; simpl; rewrite decide_False by done; apply app_nil_r).
       split; rewrite E; [done| |done]. simpl. by rewrite lookup_insert_ne. }
  assert (E : attempts i (l ++ [Attempt i (clock p)]) = attempts i l ++ [clock p])
    by (rewrite attempts_app; simpl; by rewrite decide_True).
  rewrite Hh in H2. unfold is_tripped in Ht. apply Nat.leb_gt in Ht. fold (recent (clock p) (fault_times h)) in Ht.
  split; rewrite E; simpl.
  - intros t [Hi|Hi%list_elem_of_singleton]%elem_of_app; [by apply H1|lia].
  - rewrite lookup_insert_eq. unfold record_fault. simpl. unfold recent in *. rewrite list_filter_filter.
    rewrite (list_filter_iff _ (λ t, (clock p - t < ACTOR_FAULT_REPLACE_WINDOW)%Z)) by (intros t; lia).
    by rewrite !filter_app, H2.
  - intros T. unfold within. rewrite filter_app, length_app. destruct (Z.lt_ge_cases T (clock p)) as [HT|HT].
    + rewrite (filter_cons_False _ (clock p)), filter_nil by lia. simpl. specialize (H3 T). unfold within in H3. lia.
    + assert (length (filter (λ t, T - ACTOR_FAULT_REPLACE_WINDOW < t /\ t <= T)%Z (attempts i l)) <=
              length (recent (clock p) (attempts i l)))%nat.
      { clear H1 H2 H3 E. unfold recent. induction (attempts i l) as [|t ts IH]; [done|]. rewrite !filter_cons.
        repeat case_decide; simpl; lia. }
      rewrite <-H2 in *.
      assert (length (filter (λ t, T - ACTOR_FAULT_REPLACE_WINDOW < t /\ t <= T)%Z [clock p]) <= 1)%nat
        by apply length_filter. lia.
Qed.

Record sys_ok (s : system) : Prop := {
  so_pool : pool_ok (sys_pool s);
  so_faults : ∀ i, faults_ok i (sys_pool s) (log s);
  so_holder : match holder s with
              | Some (LResize n, _, todo) =>
                  Z.of_nat (length (workers (sys_pool s))) + Z.of_nat todo + 1 <= clamp n
              | _ => True
              end;
  so_sizes : ∀ n k, Resized n k ∈ log s -> k <= clamp n
}.

Lemma initial_ok now : sys_ok (initial now).
Proof.
  split; simpl; [apply empty_ok| |done|by intros n k ?%elem_of_nil].
  intros i. split; simpl; [by intros t ?%elem_of_nil|by rewrite lookup_empty|]. intros T. unfold within. simpl. lia.
Qed.

(** The pool may change where its list and its recorded faults do not. *)
Lemma with_pool_ok p s :
  sys_ok s -> pool_ok p -> same_faults (sys_pool s) p -> length (workers p) = length (workers (sys_pool s)) ->
  sys_ok (with_pool p s).
Proof.
  intros [H1 H2 H3 H4] Hp Hs Hl. split; simpl; [done| | |done].
  - intros i. by eapply faults_ok_same.
  - by rewrite Hl.
Qed.

Lemma wait_ok ms p : pool_ok p -> pool_ok (wait ms p).
Proof.
  intros [H1 H2 H3]. split; [done..|]. simpl. intros i h Hi. destruct (H3 i h Hi) as [Ha Hb].
  split; [done|]. etrans; [apply (recent_faults_later (clock p)); lia|exact Hb].
Qed.

Lemma append_worker_ok ws o idx a p : pool_ok p -> pool_ok (append_worker ws o idx a p).
Proof. intros Hp. destruct a as [a|]; [|done]. simpl. case_match; [by apply add_worker_ok|done]. Qed.

Lemma append_worker_length ws o idx a p :
  (length (workers (append_worker ws o idx a p)) <= S (length (workers p)))%nat.
Proof. destruct a as [a|]; simpl; [|lia]. case_match; simpl; rewrite ?length_app; simpl; lia. Qed.

Lemma fill_ok ws o n : ∀ first p, pool_ok p -> pool_ok (fill ws o first n p).1.
Proof.
  induction n as [|n IH]; intros first p Hp; simpl; [done|].
  destruct (try_recover _ _); [by apply IH, append_worker_ok|done].
Qed.

Lemma fill_length ws o n : ∀ first p,
  (length (workers (fill ws o first n p).1) +
   match (fill ws o first n p).2 with Some (_, todo) => S todo | None => 0 end <= length (workers p) + n)%nat.
Proof.
  induction n as [|n IH]; intros first p; simpl; [lia|]. destruct (try_recover _ _) as [a|]; simpl; [|lia].
  etrans; [apply IH|]. pose proof (append_worker_length ws o first a p). lia.
Qed.

Lemma released_sizes o p l :
  (∀ n k, Resized n k ∈ l -> k <= clamp n) ->
  match o with LResize n => Z.of_nat (length (workers p)) <= clamp n | LStart => True end ->
  ∀ n k, Resized n k ∈ released o p l -> k <= clamp n.
Proof.
  intros Hl Ho n k. destruct o as [|n']; simpl; [apply Hl|].
  intros [Hi|Hi%list_elem_of_singleton]%elem_of_app; [by apply Hl|]. by simplify_eq.
Qed.

Lemma released_attempts i o p l : attempts i (released o p l) = attempts i l.
Proof. destruct o; simpl; [done|]. rewrite attempts_app. apply app_nil_r. Qed.

Lemma faults_ok_log i p l l' : attempts i l' = attempts i l -> faults_ok i p l -> faults_ok i p l'.
Proof. intros E [H1 H2 H3]. by split; rewrite E. Qed.

Lemma go_on_ok ws o first n p s :
  sys_ok s -> pool_ok p -> same_faults (sys_pool s) p ->
  match o with LResize m => Z.of_nat (length (workers p)) + Z.of_nat n <= clamp m | LStart => True end ->
  sys_ok (go_on ws o first n p s).
Proof.
  intros [H1 H2 H3 H4] Hp Hs Ho. unfold go_on.
  pose proof (fill_ok ws o n first p Hp) as Hf. pose proof (fill_same ws o n first p) as Hsf.
  pose proof (fill_length ws o n first p) as Hlf. pose proof (same_faults_trans _ _ _ Hs Hsf) as Hss.
  destruct (fill ws o first n p) as [p' [[idx todo]|]]; simpl in *.
  - split; simpl; [done| | |done].
    + intros i. by eapply faults_ok_same.
    + destruct o; [done|lia].
  - split; simpl; [done| |done|].
    + intros i. eapply faults_ok_log; [apply released_attempts|]. by eapply faults_ok_same.
    + apply released_sizes; [done|]. destruct o; [done|lia].
Qed.

Lemma resize_shrink_same ws n p :
  clamp n <= Z.of_nat (length (workers p)) -> same_faults p (resize cfg ws n p).1.
Proof.
  intros Hn. unfold resize. fold (clamp n). rewrite (proj2 (Z.ltb_ge _ _)) by done.
  destruct (clamp n <? _); by apply same_faults_eq.
Qed.

Lemma enter_ok ws o s : sys_ok s -> sys_ok (enter ws o s).
Proof.
  intros Hs. pose proof (so_pool _ Hs) as Hp. unfold enter. destruct o as [|n].
  - by apply go_on_ok; [..|apply same_faults_refl|].
  - destruct (Z.ltb_spec (Z.of_nat (length (workers (sys_pool s)))) (clamp n)).
    + apply go_on_ok; [done|done|apply same_faults_refl|]. lia.
    + apply go_on_ok; [done|by apply resize_ok|by apply resize_shrink_same|].
      pose proof (resize_length cfg ws n (sys_pool s)). unfold clamp. lia.
Qed.

Lemma retry_ok ws i m a p : pool_ok p -> pool_ok (retry ws i m a p).
Proof.
  intros Hp. destruct a as [a|]; simpl; [|done]. destruct (store p !! i) as [h|] eqn:Eh; [|done].
  apply dispatch_ok, set_handle_ok; [done|]. destruct (ok_handles _ Hp i h Eh). by split.
Qed.

Lemma dispatch_workers ws i m p : workers (dispatch ws i m p).1 = workers p.
Proof.
  unfold dispatch. destruct (store p !! i); [|done]. destruct (has_method _ _ _); [|done]. by destruct (RAY_AVAILABLE ws).
Qed.

Lemma retry_workers ws i m a p : workers (retry ws i m a p) = workers p.
Proof. destruct a; simpl; [|done]. destruct (store p !! i); [|done]. by rewrite dispatch_workers. Qed.

Lemma select_same ws p :
  pool_ok p -> same_faults p (select_worker cfg ws p).1 /\ workers (select_worker cfg ws p).1 = workers p.
Proof.
  intros Hp. unfold select_worker. destruct (workers p) eqn:Ew; [by split; [apply same_faults_refl|]|].
  rewrite refresh_all_ok by done. rewrite <-Ew.
  destruct (scan_from _ _ _ _ _); simpl; (split; [by apply same_faults_eq|done]).
Qed.

Lemma call_keeps ws m busy s : sys_ok s -> sys_ok (call ws m busy s).
Proof.
  intros Hs. pose proof (so_pool _ Hs) as Hp. unfold call.
  destruct (select_same ws _ Hp) as [Hss Hsw]. pose proof (select_ok cfg ws _ Hp) as Hsp.
  destruct (select_worker cfg ws (sys_pool s)) as [p [e|i]]; simpl in Hss, Hsw, Hsp;
    [apply with_pool_ok; by rewrite ?Hsw|].
  pose proof (dispatch_ok ws i m p Hsp) as Hdp. pose proof (dispatch_same ws i m p) as Hds.
  pose proof (dispatch_workers ws i m p) as Hdw. destruct (dispatch ws i m p) as [p1 r]. simpl in Hdp, Hds, Hdw.
  set (p2 := wait busy p1). assert (Hp2 : pool_ok p2) by by apply wait_ok.
  assert (Hw : sys_ok (with_pool p2 s)).
  { apply with_pool_ok; [done|done| |simpl; by rewrite Hdw, Hsw].
    eapply same_faults_trans; [exact Hss|]. eapply same_faults_trans; [exact Hds|apply wait_same]. }
  destruct r as [e|v]; [|done]. destruct (store p2 !! i) as [h|] eqn:Eh; [|done].
  destruct (is_exception e && is_actor_fault ws e && negb (is_tripped (clock p2) h)) eqn:Ef; [|done].
  apply andb_prop in Ef as [_ Ht%negb_true_iff].
  set (p3 := set_handle i (record_fault (clock p2) h) p2).
  assert (Hok : ∀ q rs, pool_ok q -> same_faults p3 q -> workers q = workers p3 ->
    sys_ok {| sys_pool := q; holder := holder s; waiting := waiting s; replacing := rs;
              log := log s ++ [Attempt i (clock p2)] |}).
  { intros q rs Hq Hqs Hqw. destruct Hw as [_ Hf Hh Hz]. simpl in Hf, Hh, Hz. split; simpl; [done| | |].
    - intros j. eapply faults_ok_same; [exact Hqs|]. by apply record_fault_ok_log.
    - rewrite Hqw. exact Hh.
    - intros n k [Hi|Hi%list_elem_of_singleton]%elem_of_app; [by apply Hz|done]. }
  assert (Hp3 : pool_ok p3)
    by (apply set_handle_ok; [done|]; apply record_fault_ok; [apply (ok_handles _ Hp2 i h Eh)|done]).
  destruct (list_find _ _) as [[pos j]|]; [|apply Hok; [done|apply same_faults_refl|done]].
  destruct (try_recover _ _) as [a|]; [|apply Hok; [done|apply same_faults_refl|done]].
  apply Hok; [by apply retry_ok|apply retry_same|apply retry_workers].
Qed.

Lemma step_ok x s : sys_ok s -> sys_ok (step x s).
Proof.
  intros Hs. pose proof (so_pool _ Hs) as Hp. destruct x as [ws ev]. unfold step. simpl.
  destruct ev as [ms|m busy| |o|k|r|k r|k].
  - apply with_pool_ok; [done|by apply wait_ok|apply wait_same|done].
  - by apply call_keeps.
  - apply with_pool_ok; simpl; rewrite ?refresh_all_ok by done; [done|done|apply same_faults_refl|done].
  - by destruct Hs.
  - destruct (holder s) eqn:Eh; [done|]. destruct (waiting s !! k) as [o|]; [|done].
    apply enter_ok. by destruct Hs.
  - destruct (holder s) as [[[o idx] todo]|] eqn:Eh; [|done].
    destruct (factory_answer r) as [e|a]; [by destruct Hs|].
    apply go_on_ok; [done|by apply append_worker_ok|apply append_worker_same|].
    pose proof (so_holder _ Hs) as Hh. rewrite Eh in Hh. destruct o as [|n]; [done|].
    pose proof (append_worker_length ws (LResize n) idx a (sys_pool s)). lia.
  - destruct (replacing s !! k) as [[i m]|]; [|done]. destruct Hs as [_ H2 H3 H4].
    destruct (factory_answer r) as [e|a]; [by split|]. split; simpl; [by apply retry_ok| |by rewrite retry_workers|done].
    intros j. eapply faults_ok_same; [apply retry_same|done].
  - by destruct Hs.
Qed.

Lemma exec_ok es : ∀ s, sys_ok s -> sys_ok (exec es s).
Proof. induction es as [|x es IH]; intros s Hs; simpl; [done|]. by apply IH, step_ok. Qed.
End Tasks.


(** A worker that faults on every call: in four seconds one handle faults seven times
    (three calls, their retries, and a fourth call, which finds the handle tripped),
    of which three are recorded. *)
Definition faulty_workers : Workers nat nat :=
  {| RAY_AVAILABLE := true; get_actor := λ _, Some 0%nat; factory := None; has_method := λ _ _, true;
     call_ref := λ n, n; call_answer := λ _ _ _, inl (Exn RuntimeError "actor died"); is_ready := λ _ _, Some true;
     actor_fault := λ _, true; actor_truthy := λ _, true |}.

Example faults_not_recorded :
  let cfg := {| pc_capability := "ocr"; pc_cluster_id := "c"; pc_tenant_id := ""; pc_target_size := 1; pc_max_size := 4 |} in
  let s := exec cfg ((λ ev, (faulty_workers, ev)) <$>
             [Request LStart; Acquire 0; Call "execute" 1000; Call "execute" 1000; Call "execute" 1000;
              Call "execute" 1000]) (initial 0) in
  calls (sys_pool s) = 7%nat /\ attempts 0 (log s) = [1000; 2000; 3000] /\
  (fault_times <$> store (sys_pool s) !! 0%nat) = Some [1000; 2000; 3000].
Proof. by vm_compute. Qed.

(** While a resize awaits the factory for its worker, calls still run, and a second
    resize waits for the lock. *)
Example resize_interleaved :
  let cfg := {| pc_capability := "ocr"; pc_cluster_id := "c"; pc_tenant_id := ""; pc_target_size := 1; pc_max_size := 4 |} in
  let ws : Workers nat nat :=
    {| RAY_AVAILABLE := false; get_actor := λ _, None; factory := Some (λ _ _, inr None); has_method := λ _ _, true;
       call_ref := λ n, n; call_answer := λ _ _ _, inr VNone; is_ready := λ _ _, Some true; actor_fault := λ _, false;
       actor_truthy := λ _, true |} in
  let s := exec cfg ((λ ev, (ws, ev)) <$>
             [Request LStart; Acquire 0; Created (inr (Some 7%nat)); Request (LResize 3); Acquire 0; Request (LResize 0);
              Call "execute" 10; Acquire 0; Created (inr None); Created (inr (Some 9%nat)); Acquire 0]) (initial 0) in
  log s = [Resized 3 2; Resized 0 0] /\ calls (sys_pool s) = 1%nat.
Proof. by vm_compute. Qed.
