(* ===== verification/Lifecycle.v ===== *)
(** * Lifecycle manager

    [src/common/lifecycle.py] and [register_control_plane_resources] of
    [src/api/app_runtime.py].  An awaited [start] or [stop] returns, raises, or is
    still waiting when the process ends; the trace lists the calls made and the
    drain pause, in order. *)

From stdpp Require Import base strings list sorting.
From S2P Require Import Prelude PyValue Effects ErrorHandling.

Open Scope Z_scope.

Inductive ending := Returns | Raises (e : exn) | NeverReturns.

Definition PHASE_CONSUMER : Z := 10.
Definition PHASE_PROCESSOR : Z := 20.
Definition PHASE_SCHEDULER : Z := 30.
Definition PHASE_OTHER : Z := 40.

(** [shutdown_phase] is [None] where the attribute is. *)
Record ManagedResource := {
  res_name : string;
  resource_type : string;
  shutdown_phase : option Z;
  res_start : ending;
  res_stop : ending
}.

Record LifecycleManager := {
  resources : list ManagedResource;
  started : bool;
  stopping : bool
}.

Definition LifecycleManager_init : LifecycleManager :=
  {| resources := []; started := false; stopping := false |}.

Definition register_resource (r : ManagedResource) (m : LifecycleManager) : LifecycleManager :=
  {| resources := resources m ++ [r]; started := started m; stopping := stopping m |}.

Inductive event := EStart (name : string) | EStop (name : string) | EDrain (seconds : Z).

(** How a coroutine's run goes on. *)
Inductive flow := Done | Raised (e : exn) | Waiting.

(** [for r in rs: try: await call(r) except Exception: continue] *)
Fixpoint each (ev : string -> event) (call : ManagedResource -> ending) (rs : list ManagedResource) :
    list event * flow :=
  match rs with
  | [] => ([], Done)
  | r :: rs' =>
      match call r with
      | NeverReturns => ([ev (res_name r)], Waiting)
      | Raises e =>
          if is_exception e then let '(t, f) := each ev call rs' in (ev (res_name r) :: t, f)
          else ([ev (res_name r)], Raised e)
      | Returns => let '(t, f) := each ev call rs' in (ev (res_name r) :: t, f)
      end
  end.

Definition start_all (m : LifecycleManager) : list event * flow * LifecycleManager :=
  if started m then ([], Done, m) else
  match each EStart res_start (resources m) with
  | (t, Done) => (t, Done, {| resources := resources m; started := true; stopping := stopping m |})
  | (t, f) => (t, f, m)
  end.

Definition infer_phase (r : ManagedResource) : Z :=
  let rtype := str_lower (resource_type r) in
  let rname := str_lower (res_name r) in
  let has k := str_contains k rtype || str_contains k rname in
  if has "consumer" then PHASE_CONSUMER
  else if has "processor" || has "executor" || has "reconciler" then PHASE_PROCESSOR
  else if has "scheduler" || has "cron" then PHASE_SCHEDULER
  else PHASE_OTHER.

Definition phase_of (r : ManagedResource) : Z :=
  match shutdown_phase r with Some ph => ph | None => infer_phase r end.

(** The four lists [stop_all] sorts the resources into *)
Inductive group := GConsumer | GProcessor | GScheduler | GOther.

#[global] Instance group_eq_dec : EqDecision group.
Proof. solve_decision. Defined.

Definition group_of (r : ManagedResource) : group :=
  let ph := phase_of r in
  if ph =? PHASE_CONSUMER then GConsumer
  else if ph =? PHASE_PROCESSOR then GProcessor
  else if ph =? PHASE_SCHEDULER then GScheduler
  else GOther.

Definition members (g : group) (rs : list ManagedResource) : list ManagedResource :=
  filter (λ r, group_of r = g) rs.

(** [a; b]: [b] runs when [a] is done. *)
Definition then_ (a b : list event * flow) : list event * flow :=
  match a with
  | (t, Done) => let '(t', f) := b in (t ++ t', f)
  | _ => a
  end.

Definition drain (rs : list ManagedResource) (timeout : Z) : list event * flow :=
  match members GConsumer rs, members GProcessor rs with
  | [], [] => ([], Done)
  | _, _ => ([EDrain timeout], Done)
  end.

Definition stop_all (timeout : Z) (m : LifecycleManager) : list event * flow * LifecycleManager :=
  if stopping m || negb (started m) then ([], Done, m) else
  let stop g := each EStop res_stop (members g (resources m)) in
  match then_ (stop GConsumer) (then_ (drain (resources m) timeout)
          (then_ (stop GProcessor) (then_ (stop GScheduler) (stop GOther)))) with
  | (t, Done) => (t, Done, {| resources := resources m; started := false; stopping := false |})
  | (t, f) => (t, f, {| resources := resources m; started := started m; stopping := true |})
  end.

(** ** The control plane's resources *)

(** [CronScheduler.start] awaits its loop, which runs until one of its calls
    raises; the loop is decorated with [log_errors(raise_exception=False)]. *)
Definition cron_start (loop_error : option exn) : ending :=
  match loop_error with
  | None => NeverReturns
  | Some e => if negb (is_exception e) || passes_through e then Raises e else Returns
  end.

Definition TaskReconcilerResource (stop : ending) : ManagedResource :=
  {| res_name := "TaskReconciler"; resource_type := "generic"; shutdown_phase := Some PHASE_PROCESSOR;
     res_start := Returns; res_stop := stop |}.

Definition CronSchedulerResource (loop_error : option exn) (stop : ending) : ManagedResource :=
  {| res_name := "CronScheduler"; resource_type := "generic"; shutdown_phase := Some PHASE_SCHEDULER;
     res_start := cron_start loop_error; res_stop := stop |}.

Definition CompensationServiceResource (stop : ending) : ManagedResource :=
  {| res_name := "CompensationService"; resource_type := "generic"; shutdown_phase := Some PHASE_PROCESSOR;
     res_start := Returns; res_stop := stop |}.

Definition CallbackDispatcherResource (stop : ending) : ManagedResource :=
  {| res_name := "CallbackDispatcher"; resource_type := "generic"; shutdown_phase := Some PHASE_PROCESSOR;
     res_start := Returns; res_stop := stop |}.

(** The services of the container, where it has them. *)
Definition register_control_plane_resources (reconcile_enabled cron_enabled : bool)
    (task_reconciler cron_scheduler compensation_service callback_dispatcher : option ManagedResource)
    (m : LifecycleManager) : LifecycleManager * list string :=
  let add (enabled : bool) (o : option ManagedResource) (label : string) (mr : LifecycleManager * list string) :=
    match o with
    | Some r => if enabled then (register_resource r mr.1, mr.2 ++ [label]) else mr
    | None => mr
    end in
  add true callback_dispatcher "callback_dispatcher"
    (add true compensation_service "compensation_service"
       (add cron_enabled cron_scheduler "cron_scheduler"
          (add reconcile_enabled task_reconciler "task_reconciler" (m, [])))).

(** ** Shutdown *)

Definition rank (r : ManagedResource) : Z :=
  match group_of r with GConsumer => 0 | GProcessor => 1 | GScheduler => 2 | GOther => 3 end.

(** A call that does not keep its caller waiting and raises no [BaseException]. *)
Definition settles (e : ending) : bool :=
  match e with Returns => true | Raises x => is_exception x | NeverReturns => false end.

Lemma each_settles ev call rs :
  Forall (λ r, settles (call r) = true) rs -> each ev call rs = (ev ∘ res_name <$> rs, Done).
Proof.
  induction 1 as [|r rs Hr Hrs IH]; [done|]. simpl. rewrite IH.
  destruct (call r) as [|e|]; simpl in *; [done|by rewrite Hr|done].
Qed.

(** Resources in shutdown order: by group, and in order of registration within one. *)
Definition shutdown_order (rs : list ManagedResource) : list ManagedResource :=
  members GConsumer rs ++ members GProcessor rs ++ members GScheduler rs ++ members GOther rs.

Lemma shutdown_order_perm rs : shutdown_order rs ≡ₚ rs.
Proof.
  unfold shutdown_order, members. induction rs as [|r rs IH]; [done|]. rewrite !filter_cons.
  destruct (group_of r); repeat (destruct (decide _) as [?H|?H]; [try done|try done]);
    simpl; repeat rewrite <-Permutation_middle; by constructor.
Qed.

Lemma Forall_members (P : ManagedResource -> Prop) g rs : Forall P rs -> Forall P (members g rs).
Proof. rewrite !Forall_forall. intros H r [_ Hr]%list_elem_of_filter. auto. Qed.

Lemma drain_done rs timeout :
  drain rs timeout = (if decide (Exists (λ r, rank r <= 1) rs) then [EDrain timeout] else [], Done).
Proof.
  assert (Hm : ∀ g, members g rs = [] <-> ∀ r, r ∈ rs -> group_of r <> g).
  { intros g. unfold members. split.
    - intros E r Hr Hg. assert (Hin : r ∈ filter (λ r, group_of r = g) rs) by by apply list_elem_of_filter.
      rewrite E in Hin. by apply elem_of_nil in Hin.
    - intros Hall. destruct (filter _ rs) as [|r l] eqn:E; [done|].
      assert (Hin : r ∈ filter (λ r, group_of r = g) rs) by (rewrite E; by left).
      apply list_elem_of_filter in Hin as [Hg Hin]. by apply Hall in Hg. }
  unfold drain. destruct (decide _) as [Hex|Hex].
  - apply Exists_exists in Hex as (r & Hr & Hrank).
    destruct (members GConsumer rs) eqn:EC; [|done]. destruct (members GProcessor rs) eqn:EP; [|done].
    pose proof (proj1 (Hm _) EC r Hr). pose proof (proj1 (Hm _) EP r Hr).
    exfalso. unfold rank in Hrank. destruct (group_of r); done || lia.
  - rewrite (proj2 (Hm GConsumer)), (proj2 (Hm GProcessor)); [done| |];
      intros r Hr Hg; apply Hex, Exists_exists; exists r; (split; [done|]); unfold rank; rewrite Hg; lia.
Qed.

(** The trace of a shutdown in which every [stop] settles *)
Lemma stop_all_trace timeout m :
  started m = true -> stopping m = false ->
  Forall (λ r, settles (res_stop r) = true) (resources m) ->
  let stops g := EStop ∘ res_name <$> members g (resources m) in
  stop_all timeout m =
    (stops GConsumer ++
     (if decide (Exists (λ r, rank r <= 1) (resources m)) then [EDrain timeout] else []) ++
     stops GProcessor ++ stops GScheduler ++ stops GOther, Done,
     {| resources := resources m; started := false; stopping := false |}).
Proof.
  intros Hs Hp Hall stops. unfold stop_all. rewrite Hs, Hp. simpl.
  rewrite !each_settles by by apply Forall_members. rewrite drain_done. done.
Qed.

Lemma members_group g rs : Forall (λ r, group_of r = g) (members g rs).
Proof. apply Forall_forall. by intros r [Hr _]%list_elem_of_filter. Qed.

Lemma sorted_app_const (f : ManagedResource -> Z) c l1 l2 :
  Forall (λ r, f r = c) l1 -> Forall (λ r, c <= f r) l2 ->
  StronglySorted (λ a b, f a <= f b) l2 -> StronglySorted (λ a b, f a <= f b) (l1 ++ l2).
Proof.
  intros H1 H2 Hs. induction H1 as [|r l1 Hr H1 IH]; simpl; [done|]. constructor; [done|].
  apply Forall_app. split; (eapply Forall_impl; [eassumption|]); simpl; intros; lia.
Qed.

Lemma shutdown_order_sorted rs : StronglySorted (λ a b, rank a <= rank b) (shutdown_order rs).
Proof.
  unfold shutdown_order.
  assert (Hr : ∀ g c, (∀ r, group_of r = g -> rank r = c) -> Forall (λ r, rank r = c) (members g rs)).
  { intros g c Hg. eapply Forall_impl; [apply members_group|]. simpl. auto. }
  assert (H0 : Forall (λ r, rank r = 0) (members GConsumer rs)) by (apply Hr; unfold rank; by intros r ->).
  assert (H1 : Forall (λ r, rank r = 1) (members GProcessor rs)) by (apply Hr; unfold rank; by intros r ->).
  assert (H2 : Forall (λ r, rank r = 2) (members GScheduler rs)) by (apply Hr; unfold rank; by intros r ->).
  assert (H3 : Forall (λ r, rank r = 3) (members GOther rs)) by (apply Hr; unfold rank; by intros r ->).
  rewrite <-(app_nil_r (members GOther rs)).
  repeat (eapply sorted_app_const; [eassumption| |]); try constructor;
    rewrite ?Forall_app; split_and?; try constructor; eapply Forall_impl; try eassumption; simpl; intros; lia.
Qed.

(** A shutdown stops every registered resource exactly once, consumers before
    processors before schedulers before the rest, and waits for the drain period
    once, after the last consumer and before the first processor (and not at all
    when there are neither), even when some [stop] calls raise; afterwards the
    manager is stopped and a second shutdown does nothing. *)
Theorem shutdown_ordered timeout m :
  started m = true -> stopping m = false ->
  Forall (λ r, settles (res_stop r) = true) (resources m) ->
  exists consumers rest m',
    let stops := fmap (EStop ∘ res_name) in
    let pause := if decide (Exists (λ r, rank r <= 1) (resources m)) then [EDrain timeout] else [] in
    stop_all timeout m = (stops consumers ++ pause ++ stops rest, Done, m') /\
    consumers ++ rest ≡ₚ resources m /\
    StronglySorted (λ a b, rank a <= rank b) (consumers ++ rest) /\
    Forall (λ r, group_of r = GConsumer) consumers /\ Forall (λ r, group_of r <> GConsumer) rest /\
    started m' = false /\ stop_all timeout m' = ([], Done, m').
Proof.
  intros Hs Hp Hall.
  exists (members GConsumer (resources m)),
    (members GProcessor (resources m) ++ members GScheduler (resources m) ++ members GOther (resources m)),
    {| resources := resources m; started := false; stopping := false |}.
  intros stops pause. split_and!; [|apply shutdown_order_perm|apply shutdown_order_sorted|
    apply members_group| |done|done].
  - rewrite stop_all_trace by done. subst stops pause. by rewrite !fmap_app.
  - rewrite !Forall_app. split_and!; (eapply Forall_impl; [apply members_group|]); by intros r ->.
Qed.

Lemma shutdown_ordered_witness :
  let r name ph stop := {| res_name := name; resource_type := "generic"; shutdown_phase := ph;
                           res_start := Returns; res_stop := stop |} in
  let m := {| resources := [r "cron" (Some 30) Returns; r "reconciler" (Some 20) (Raises (Exn RuntimeError "x"));
                            r "TaskConsumer" None Returns]; started := true; stopping := false |} in
  (exists consumers rest m', consumers ++ rest ≡ₚ resources m /\ started m' = false) /\
  (stop_all 30 m).1 =
    ([EStop "TaskConsumer"; EDrain 30; EStop "reconciler"; EStop "cron"], Done).
Proof.
  intros r m. split; [|vm_compute; reflexivity].
  destruct (shutdown_ordered 30 m) as (consumers & rest & m' & _ & Hp & _ & _ & _ & Hd & _);
    [done|done|by repeat constructor|].
  by exists consumers, rest, m'.
Defined.

(** ** Startup *)

(** A [start] that never returns keeps the ones after it from starting, and the
    manager from ever being started. *)
Lemma start_blocked before r after :
  Forall (λ r, settles (res_start r) = true) before -> res_start r = NeverReturns ->
  start_all {| resources := before ++ r :: after; started := false; stopping := false |} =
    (EStart ∘ res_name <$> before ++ [r], Waiting,
     {| resources := before ++ r :: after; started := false; stopping := false |}).
Proof.
  intros Hb Hr. unfold start_all. simpl.
  assert (He : each EStart res_start (before ++ r :: after) = (EStart ∘ res_name <$> before ++ [r], Waiting)).
  { induction Hb as [|x l Hx Hl IH]; simpl; [by rewrite Hr|]. rewrite IH.
    destruct (res_start x) as [|e|]; simpl in *; [done|by rewrite Hx|done]. }
  by rewrite He.
Qed.

(** With the cron scheduler enabled, the control plane does not start its
    other services.  [start_all] awaits [CronScheduler.start], which awaits its own
    endless loop: the compensation service and the callback dispatcher, registered
    after it, never start, the manager never counts as started, and so the
    shutdown stops nothing. *)
Theorem cron_blocks_startup reconcile_enabled s1 s2 s3 s4 timeout :
  let m := (register_control_plane_resources reconcile_enabled true (Some (TaskReconcilerResource s1))
              (Some (CronSchedulerResource None s2)) (Some (CompensationServiceResource s3))
              (Some (CallbackDispatcherResource s4)) LifecycleManager_init).1 in
  exists t m', start_all m = (t, Waiting, m') /\
    t = (if reconcile_enabled then [EStart "TaskReconciler"] else []) ++ [EStart "CronScheduler"] /\
    started m' = false /\ stop_all timeout m' = ([], Done, m').
Proof.
  intros m. subst m. destruct reconcile_enabled; simpl register_control_plane_resources; cbv zeta.
  - eexists _, _. split.
    + apply (start_blocked [TaskReconcilerResource s1] (CronSchedulerResource None s2)
             [CompensationServiceResource s3; CallbackDispatcherResource s4]); [by repeat constructor|done].
    + done.
  - eexists _, _. split.
    + apply (start_blocked [] (CronSchedulerResource None s2)
             [CompensationServiceResource s3; CallbackDispatcherResource s4]); [by constructor|done].
    + done.
Qed.
