(* ===== verification/ResourceServices.v ===== *)
(** * Resource services

    [src/services/resource_application.py]: the services behind the cluster, node
    and schedule routes, over the registries.  [registry.get(tenant, id)] of the
    cluster and node registries gives model objects, which are no dictionaries:
    item access, [.get] and [**] on them raise.  Identifiers in request bodies are
    texts. *)

From Stdlib Require Import Ascii.
From stdpp Require Import base gmap strings list.
From S2P Require Import Prelude PyValue Json IsoTime Redis TaskModel Tables Effects ErrorHandling.
From S2P Require Import Cjson Registry CapabilityRegistry ClusterRegistry NodeRegistry ScheduleRegistry.

Open Scope Z_scope.

Notation dict := (list (string * value)).

(** [for x in ids] where [ids] is [None] after a failed call *)
Definition iterate (ids : option (list string)) : M (list string) :=
  match ids with Some l => ret l | None => raise (Exn TypeError "'NoneType' object is not iterable") end.

Definition not_found (what id : string) : exn := HTTPException 404 (what +:+ " '" +:+ id +:+ "' not found").

(** [body.get(k)] where a text is required *)
Definition required_text (k detail : string) (body : dict) : M string :=
  match dict_get_or k VNone body with
  | VStr (String c s) => ret (String c s)
  | v => if truthy v then raise (Exn TypeError k) else raise (HTTPException 422 detail)
  end.

(** ** Clusters *)

Section Clusters.
Context (model_validate : value -> exn + ClusterInfo).

Definition list_clusters (tenant_id : string) : M (list ClusterInfo) :=
  let* ids := reg_list cluster_registry tenant_id in
  let* ids := iterate ids in
  fold_m ids (λ acc cluster_id,
    let* cluster := cluster_get2 model_validate tenant_id cluster_id in
    ret (acc ++ match cluster with Some c => [c] | None => [] end)) [].

Definition service_get_cluster (tenant_id cluster_id : string) : M ClusterInfo :=
  let* cluster := cluster_get2 model_validate tenant_id cluster_id in
  match cluster with Some c => ret c | None => raise (not_found "Cluster" cluster_id) end.

Definition register_cluster (tenant_id : string) (body : dict) : M dict :=
  let* cluster_id := required_text "cluster_id" "cluster_id required" body in
  do* reg_set cluster_registry tenant_id cluster_id (VDict body) in
  ret [("cluster_id", VStr cluster_id); ("registered", VBool true)].

(** [{**existing, ...}] of a model *)
Definition update_cluster (tenant_id cluster_id : string) (body : dict) : M dict :=
  do* service_get_cluster tenant_id cluster_id in
  raise (Exn TypeError "'ClusterInfo' object is not a mapping").

Definition delete_cluster (tenant_id cluster_id : string) : M unit :=
  do* reg_delete cluster_registry tenant_id cluster_id in ret tt.

Definition get_cluster_resources (tenant_id cluster_id : string) : M dict :=
  do* service_get_cluster tenant_id cluster_id in
  raise (Exn AttributeError "get").
End Clusters.

(** ** Nodes *)

Section Nodes.
Context (model_validate : value -> exn + NodeInfo).

Definition node_truthy (n : node_data) : bool := match n with NModel _ => true | NRaw v => truthy v end.

(** [node.get("cluster_id") != cluster_id] *)
Definition in_cluster (cluster_id : string) (n : node_data) : M bool :=
  match n with
  | NRaw (VDict d) => ret (py_eq (dict_get_or "cluster_id" VNone d) (VStr cluster_id))
  | _ => raise (Exn AttributeError "get")
  end.

Definition list_nodes (tenant_id cluster_id : string) : M (list node_data) :=
  let* ids := reg_list node_registry tenant_id in
  let* ids := iterate ids in
  fold_m ids (λ acc node_id,
    let* node := node_get2 model_validate tenant_id node_id in
    match node with
    | None => ret acc
    | Some n =>
        if negb (node_truthy n) then ret acc
        else
          let* keep := match cluster_id with "" => ret true | _ => in_cluster cluster_id n end in
          ret (acc ++ if keep then [n] else [])
    end) [].

Definition service_get_node (tenant_id node_id : string) : M node_data :=
  let* node := node_get2 model_validate tenant_id node_id in
  match node with Some n => ret n | None => raise (not_found "Node" node_id) end.

(** [self.registry.set(tenant_id, node_id, node)] *)
Definition store_node (tenant_id node_id : string) (n : node_data) : M unit :=
  match n with
  | NRaw v => do* reg_set node_registry tenant_id node_id v in ret tt
  | NModel _ => raise (Exn TypeError "Type is not JSON serializable: NodeInfo")
  end.

Definition invite_node (tenant_id node_id : string) (body : dict) : M dict :=
  let* node := service_get_node tenant_id node_id in
  let cluster_id := dict_get_or "cluster_id" (VStr "") body in
  let* node := set_item "cluster_id" cluster_id node in
  let* node := set_item "state" (VStr "joining") node in
  do* store_node tenant_id node_id node in
  ret [("node_id", VStr node_id); ("cluster_id", cluster_id); ("state", VStr "joining")].

Definition drain_node (tenant_id node_id : string) (body : dict) : M dict :=
  let* node := service_get_node tenant_id node_id in
  let deadline_seconds := dict_get_or "deadline_seconds" (VInt 300) body in
  let* node := set_item "state" (VStr "draining") node in
  do* store_node tenant_id node_id node in
  ret [("node_id", VStr node_id); ("state", VStr "draining"); ("deadline_seconds", deadline_seconds)].

Definition release_node (tenant_id node_id : string) : M dict :=
  let* node := service_get_node tenant_id node_id in
  let* node := set_item "state" (VStr "idle") node in
  let* node := set_item "cluster_id" (VStr "") node in
  do* store_node tenant_id node_id node in
  ret [("node_id", VStr node_id); ("state", VStr "idle")].

Definition delete_node (tenant_id node_id : string) : M unit :=
  do* reg_delete node_registry tenant_id node_id in ret tt.
End Nodes.

(** ** Schedules *)

Section Schedules.
Context `{Cjson} (reg : BaseRedisRegistry).

Definition list_schedules (tenant_id : string) : M (list value) :=
  let* ids := reg_list reg tenant_id in
  let* ids := iterate ids in
  fold_m ids (λ acc schedule_id,
    let* schedule := reg_get reg tenant_id schedule_id in
    ret (acc ++ if truthy schedule then [schedule] else [])) [].

Definition get_schedule (tenant_id schedule_id : string) : M value :=
  let* schedule := reg_get reg tenant_id schedule_id in
  match schedule with VNone => raise (not_found "Schedule" schedule_id) | _ => ret schedule end.

(** [body.get("schedule_id") or str(uuid.uuid4())] *)
Definition schedule_id_of (body : dict) : M string :=
  match dict_get_or "schedule_id" VNone body with
  | VStr (String c s) => ret (String c s)
  | v => if truthy v then raise (Exn TypeError "schedule_id") else uuid4
  end.

Definition schedule_record (body : dict) (schedule_id tenant_id now_iso : string) : dict :=
  dict_update body
    [("schedule_id", VStr schedule_id); ("tenant_id", VStr tenant_id);
     ("enabled", dict_get_or "enabled" (VBool true) body); ("created_at", VStr now_iso);
     ("updated_at", VStr now_iso); ("last_triggered_at", VNone); ("next_fire_at", VNone)].

Definition create_schedule (tenant_id : string) (body : dict) : M dict :=
  if negb (truthy (dict_get_or "cron_expr" VNone body)) then raise (HTTPException 422 "cron_expr required")
  else
    let* schedule_id := schedule_id_of body in
    let* now := time_ms in
    let record := schedule_record body schedule_id tenant_id (isoformat now) in
    do* schedule_set reg tenant_id schedule_id (VDict record) in
    ret record.

Definition update_schedule (tenant_id schedule_id : string) (body : dict) : M dict :=
  let* existing := get_schedule tenant_id schedule_id in
  let* now := time_ms in
  match existing with
  | VDict d =>
      let merged := dict_update (dict_update d body)
                      [("schedule_id", VStr schedule_id); ("updated_at", VStr (isoformat now))] in
      do* schedule_set reg tenant_id schedule_id (VDict merged) in
      ret merged
  | _ => raise (Exn TypeError "object is not a mapping")
  end.

Definition toggle_schedule (tenant_id schedule_id : string) (body : dict) : M dict :=
  let enabled := truthy (dict_get_or "enabled" (VBool true) body) in
  let* ok := toggle reg tenant_id schedule_id enabled in
  if ok then ret [("schedule_id", VStr schedule_id); ("enabled", VBool enabled)]
  else raise (not_found "Schedule" schedule_id).

Definition delete_schedule (tenant_id schedule_id : string) : M unit :=
  do* reg_delete reg tenant_id schedule_id in ret tt.
End Schedules.

(** ** Schedules made through the API never fire *)

Section Created.
Context {E : Env} (reg : BaseRedisRegistry).
Implicit Types (w : world doc_services).

Lemma redis_other {X} k k' (a : act X) w :
  k' <> k -> at_key (w_redis (run (redis k' a) w).1) k = at_key (w_redis w) k.
Proof.
  intros Hk. rewrite run_redis. destruct (redis_fault _); [done|].
  destruct (act_doc _ _ _) as [e r]. simpl. by rewrite at_put_ne.
Qed.

(** A successful [set] leaves the item under its key. *)
Lemma reg_set_stored t i v w w' b :
  tenant_ok t = true -> run (reg_set reg t i v) w = (w', inr b) ->
  b = true /\ exists exp, at_key (w_redis w') (make_key reg t i) = Some (REntry (RStr (orjson_dumps v)) exp).
Proof.
  intros Ht. unfold reg_set, log_errors_as. rewrite run_except, run_bind, run_redis.
  destruct (redis_fault _) as [e|]; [simpl; by destruct (is_exception e)|].
  rewrite act_SET. cbv beta iota. set (w1 := after _ _ w). rewrite run_bind.
  pose proof (redis_other (make_key reg t i) (index_key reg t) (SADD [i]) w1) as H2.
  destruct (run (redis (index_key reg t) (SADD [i])) w1) as [w2 [e|n]]; simpl in H2;
    [by destruct (is_exception e)|]. rewrite run_bind.
  pose proof (redis_other (make_key reg t i) (tenants_key reg) (SADD [t]) w2) as H3.
  destruct (run (redis (tenants_key reg) (SADD [t])) w2) as [w3 [e|m]]; simpl in H3;
    [by destruct (is_exception e)|]. intros [= <- <-]. split; [done|].
  rewrite H3, H2 by (apply not_eq_sym; auto with sched). subst w1. simpl. rewrite at_put_eq. by eexists.
Qed.

Lemma schedule_set_stored t i v w w' b :
  tenant_ok t = true -> make_key reg t i <> SCHEDULE_TENANT_IDX ->
  run (schedule_set reg t i v) w = (w', inr b) ->
  exists exp, at_key (w_redis w') (make_key reg t i) = Some (REntry (RStr (orjson_dumps v)) exp).
Proof.
  intros Ht Hne. unfold schedule_set. rewrite run_bind.
  destruct (run (reg_set reg t i v) w) as [w1 [e|r]] eqn:Es; [done|].
  apply reg_set_stored in Es as [-> [exp Hk]]; [|done]. rewrite run_bind.
  pose proof (redis_other (make_key reg t i) SCHEDULE_TENANT_IDX (HSET [(i, t)]) w1 (not_eq_sym Hne)) as H2.
  destruct (run (redis SCHEDULE_TENANT_IDX (HSET [(i, t)])) w1) as [w2 [e|r]]; simpl in H2; [done|].
  intros [= <- _]. exists exp. by rewrite H2.
Qed.
End Created.

Lemma record_not_due body sid t iso as_of : is_due as_of (schedule_record body sid t iso) = false.
Proof.
  unfold is_due, fires_by, schedule_record, dict_update, dict_get_or. cbn [foldl fst snd].
  rewrite dict_get_set_eq. apply andb_false_r.
Qed.

(** A schedule created through the API never fires.  Whatever the body, when
    [create_schedule] succeeds the stored document is the returned record with
    [next_fire_at] null (a [next_fire_at] of the body is overwritten), and the scan
    for due schedules passes over that document at every time. *)
Theorem created_schedule_never_due (S : Services) (E : Env) ttl t body (w w' : world S) record :
  tenant_ok t = true ->
  run (create_schedule (ScheduleRegistry_init ttl) t body) w = (w', inr record) ->
  exists sid text exp, dict_get "schedule_id" record = Some (VStr sid) /\
    at_key (ks_of w') (make_key (ScheduleRegistry_init ttl) t sid) = Some (REntry (RStr text) exp) /\
    json_loads text = Some (VDict record) /\
    ∀ as_of, due_one as_of (Some text) = inr [].
Proof.
  intros Ht Hr. assert (Hr' : run (create_schedule (ScheduleRegistry_init ttl) t body) (wview w) =
    (wview w', inr record)) by by rewrite run_view, Hr.
  change (ks_of w') with (w_redis (wview w')). clear Hr. revert Hr'.
  generalize (wview w') (wview w). clear w w'. intros w' w. unfold create_schedule.
  destruct (negb _); [done|]. rewrite run_bind.
  destruct (run (schedule_id_of body) w) as [w1 [e|sid]]; [done|].
  rewrite run_bind, run_time_ms. cbv beta iota. set (w2 := after _ _ w1). rewrite run_bind.
  set (r := schedule_record _ _ _ _).
  destruct (run (schedule_set _ t sid (VDict r)) w2) as [w3 [e|b]] eqn:Es; [done|].
  intros [= <- <-].
  apply schedule_set_stored in Es as [exp Hk]; [|done|].
  - exists sid, (orjson_dumps (VDict r)), exp. split_and!; [|exact Hk|apply loads_orjson_dumps|].
    + subst r. unfold schedule_record, dict_update. cbn [foldl fst snd].
      rewrite !dict_get_set_ne by done. apply dict_get_set_eq.
    + intros as_of. unfold due_one. pose proof (dumps_nonempty "," ":" (VDict r)) as Hn.
      change (orjson_dumps (VDict r) <> "") in Hn. pose proof (loads_orjson_dumps (VDict r)) as Hl.
      destruct (orjson_dumps (VDict r)); [done|]. rewrite Hl. subst r. by rewrite record_not_due.
  - unfold make_key, SCHEDULE_TENANT_IDX. simpl. intros Eq.
    change "schedules:sid_to_tenant" with ("schedules" +:+ ":" +:+ "sid_to_tenant") in Eq.
    apply string_app_inj_l, string_app_inj_l in Eq. by apply no_colon_ne in Eq.
Qed.

#[local] Existing Instance table_cjson.

Lemma created_schedule_never_due_witness :
  let body := [("cron_expr", VStr "* * * * *"); ("schedule_id", VStr "s1"); ("next_fire_at", VStr "2024-01-01")] in
  exists w' record sid text exp,
    run (S := doc_services) (E := calm) (create_schedule (ScheduleRegistry_init 0) "t1" body) (world0 0) =
      (w', inr record) /\
    at_key (ks_of w') (make_key (ScheduleRegistry_init 0) "t1" sid) = Some (REntry (RStr text) exp) /\
    ∀ as_of, due_one as_of (Some text) = inr [].
Proof.
  intros body. set (r := run _ (world0 0)).
  assert (H2 : r.2 = inr (schedule_record body "s1" "t1" (isoformat 0))) by (vm_compute; reflexivity).
  assert (Hr : r = (r.1, inr (schedule_record body "s1" "t1" (isoformat 0))))
    by (rewrite <-H2; apply surjective_pairing).
  destruct (created_schedule_never_due doc_services calm 0 "t1" body (world0 0) r.1 _ eq_refl Hr)
    as (sid & text & exp & _ & Hk & _ & Hd).
  exists r.1, (schedule_record body "s1" "t1" (isoformat 0)), sid, text, exp.
  split; [exact Hr|]. split; [exact Hk|exact Hd].
Defined.

(** ** The node routes fail on every valid node *)

(** A node the registry can validate is a model, and item assignment on it raises
    before anything is stored. *)
Lemma node_routes_fail {S : Services} {E : Env} (mv : value -> exn + NodeInfo) t nid body n
    (w w' : world S) :
  run (node_get2 mv t nid) w = (w', inr (Some (NModel n))) ->
  let fails := inl (Exn TypeError "'NodeInfo' object does not support item assignment") in
  run (invite_node mv t nid body) w = (w', fails) /\ run (drain_node mv t nid body) w = (w', fails) /\
  run (release_node mv t nid) w = (w', fails).
Proof.
  intros Hg fails. unfold invite_node, drain_node, release_node, service_get_node.
  split_and!; by rewrite !run_bind, Hg.
Qed.
