(* ===== verification/RedisHA.v ===== *)
(** * Redis HA client

    [src/common/redis_ha.py]: the in-process circuit breaker, the retry loop and
    the degradation queue around a Redis client.  The client's answers and the
    time they take are parameters ([Server]); the state carries the clock and the
    number of raw calls made; [acknowledged] logs the calls the server has answered
    and [applied] those it has executed, among them the calls whose answer was lost
    on the way, by a time-out for instance.  Metrics are left out. *)

From stdpp Require Import base strings list.
From S2P Require Import Prelude PyValue Effects.

Open Scope Z_scope.

Inductive cb_state := CLOSED | OPEN | HALF_OPEN.

#[global] Instance cb_state_eq_dec : EqDecision cb_state.
Proof. solve_decision. Defined.

Record CircuitBreaker := {
  failure_count : Z;
  last_failure_time : option Z;
  cb_st : cb_state
}.

Definition CircuitBreaker_init : CircuitBreaker :=
  {| failure_count := 0; last_failure_time := None; cb_st := CLOSED |}.

(** A client call: the method's name and its arguments. *)
Record call := { c_method : string; c_args : list value }.

(** [answer]: what raw call number [n] gives; [reached]: whether the server executed
    a call that failed. *)
Record Server := {
  answer : nat -> call -> exn + value;
  reached : nat -> bool;
  latency : nat -> N;
  jitter : nat -> N
}.

(** Times are in milliseconds. *)
Record Config := {
  failure_threshold : Z;
  reset_timeout : Z;
  max_retries : nat;
  degradation_mode : bool
}.

Definition default_config : Config :=
  {| failure_threshold := 5; reset_timeout := 30000; max_retries := 3; degradation_mode := true |}.

Record RedisHA := {
  breaker : CircuitBreaker;
  has_client : bool;
  is_connected : bool;
  degradation_queue : list call;
  acknowledged : list call;
  applied : list call;
  ticks : nat;
  now : Z
}.

Section Client.
Context (cfg : Config) (srv : Server).
Implicit Types (s : RedisHA) (b : CircuitBreaker) (c : call).

Definition record_failure (t : Z) b : CircuitBreaker :=
  let n := failure_count b + 1 in
  {| failure_count := n; last_failure_time := Some t;
     cb_st := if failure_threshold cfg <=? n then OPEN else cb_st b |}.

Definition record_success b : CircuitBreaker :=
  {| failure_count := 0; last_failure_time := None;
     cb_st := if decide (cb_st b = HALF_OPEN) then CLOSED else cb_st b |}.

(** [self.last_failure_time and (time.time() - ...) > reset_timeout]: neither
    [None] nor [0.0] counts. *)
Definition reset_passed (t : Z) b : bool :=
  match last_failure_time b with
  | Some f => negb (f =? 0) && (reset_timeout cfg <? t - f)
  | None => false
  end.

Definition should_allow (t : Z) b : CircuitBreaker * bool :=
  match cb_st b with
  | CLOSED | HALF_OPEN => (b, true)
  | OPEN =>
      if reset_passed t b
      then ({| failure_count := failure_count b; last_failure_time := last_failure_time b;
               cb_st := HALF_OPEN |}, true)
      else (b, false)
  end.

Definition with_breaker b s : RedisHA :=
  {| breaker := b; has_client := has_client s; is_connected := is_connected s;
     degradation_queue := degradation_queue s; acknowledged := acknowledged s; applied := applied s; ticks := ticks s; now := now s |}.

Definition with_connected (v : bool) s : RedisHA :=
  {| breaker := breaker s; has_client := has_client s; is_connected := v;
     degradation_queue := degradation_queue s; acknowledged := acknowledged s; applied := applied s; ticks := ticks s; now := now s |}.

Definition with_queue (q : list call) s : RedisHA :=
  {| breaker := breaker s; has_client := has_client s; is_connected := is_connected s;
     degradation_queue := q; acknowledged := acknowledged s; applied := applied s; ticks := ticks s; now := now s |}.

(** Time passes; it does not go back. *)
Definition pass (d : Z) s : RedisHA :=
  {| breaker := breaker s; has_client := has_client s; is_connected := is_connected s;
     degradation_queue := degradation_queue s; acknowledged := acknowledged s; applied := applied s; ticks := ticks s;
     now := now s + Z.max 0 d |}.

(** One raw call of the underlying client *)
Definition raw_call c s : RedisHA * (exn + value) :=
  let n := ticks s in
  let r := answer srv n c in
  ({| breaker := breaker s; has_client := has_client s; is_connected := is_connected s;
      degradation_queue := degradation_queue s;
      acknowledged := acknowledged s ++ match r with inr _ => [c] | inl _ => [] end;
      applied := applied s ++ match r with inr _ => [c] | inl _ => if reached srv n then [c] else [] end;
      ticks := S n; now := now s + Z.of_N (latency srv n) |}, r).

(** [min(base + jitter, 30.0)] after attempt [k] *)
Definition backoff (k : nat) (n : nat) : Z :=
  Z.min (100 * 2 ^ Z.of_nat k + Z.of_N (jitter srv n)) 30000.

Definition queued_methods : list string := ["set"; "setex"; "hset"; "zadd"; "sadd"].

(** The value a degraded write reports *)
Definition degraded_result (m : string) : value :=
  if decide (m = "zadd" \/ m = "sadd") then VInt 1 else VBool true.

(** After the last attempt failed with [e] *)
Definition give_up_or_queue c (e : exn) s : RedisHA * (exn + value) :=
  let s := with_connected false s in
  if degradation_mode cfg && bool_decide (c_method c ∈ queued_methods)
  then (with_queue (degradation_queue s ++ [c]) s, inr (degraded_result (c_method c)))
  else (s, inl e).

(** [for attempt in range(max_retries)], [left] attempts from attempt [k] on *)
Fixpoint attempts c (k left : nat) s : RedisHA * (exn + value) :=
  match left with
  | O => (s, inr VNone)
  | S left' =>
      let '(s, r) := raw_call c s in
      match r with
      | inr v => (with_connected true (with_breaker (record_success (breaker s)) s), inr v)
      | inl e =>
          if negb (is_exception e) then (s, inl e) else
          let s := with_breaker (record_failure (now s) (breaker s)) s in
          match left' with
          | O => give_up_or_queue c e s
          | S _ => attempts c (S k) left' (pass (backoff k (ticks s)) s)
          end
      end
  end.

Definition call_with_retry c s : RedisHA * (exn + value) :=
  let '(b, ok) := should_allow (now s) (breaker s) in
  let s := with_breaker b s in
  if negb ok then (s, inl (Exn ConnectionError "Circuit breaker is OPEN"))
  else if negb (has_client s) then (s, inl (Exn ConnectionError "Redis client not initialized"))
  else attempts c 0 (max_retries cfg) s.

(** [start]: [build] is what making the client (of a Sentinel or of a URL) gave,
    [ping] what the first call of it did. *)
Definition start (build ping : exn + unit) s : RedisHA * (exn + unit) :=
  let failed e s :=
    if negb (is_exception e) then (s, inl e) else
    let s := with_breaker (record_failure (now s) (breaker s)) s in
    if degradation_mode cfg then (s, inr tt) else (s, inl e) in
  match build with
  | inl e => failed e s
  | inr _ =>
      let s := {| breaker := breaker s; has_client := true; is_connected := is_connected s;
                  degradation_queue := degradation_queue s; acknowledged := acknowledged s; applied := applied s; ticks := ticks s; now := now s |} in
      match ping with
      | inr _ => (with_connected true (with_breaker (record_success (breaker s)) s), inr tt)
      | inl e => failed e s
      end
  end.

Definition close s : RedisHA :=
  if has_client s then
    {| breaker := breaker s; has_client := false; is_connected := false;
       degradation_queue := degradation_queue s; acknowledged := acknowledged s; applied := applied s; ticks := ticks s; now := now s |}
  else s.

Definition should_degrade s : bool :=
  negb (is_connected s) || bool_decide (cb_st (breaker s) = OPEN).

(** [health_check]: [ping] is what the ping gave. *)
Definition health_check (ping : exn + unit) s : exn + bool :=
  if has_client s && is_connected s then
    match ping with
    | inr _ => inr true
    | inl e => if is_exception e then inr false else inl e
    end
  else inr false.

(** [for ... in self._degradation_queue]: index [i] into a list the calls may
    append to.  The result: the state, the count and the [failed] list, when the
    loop ends within [fuel] iterations. *)
Fixpoint retry_loop (fuel i : nat) (retried : Z) (failed : list call) s :
    option (RedisHA * (exn + (Z * list call))) :=
  match degradation_queue s !! i with
  | None => Some (s, inr (retried, failed))
  | Some c =>
      match fuel with
      | O => None
      | S fuel' =>
          match call_with_retry c s with
          | (s', inr _) => retry_loop fuel' (S i) (retried + 1) failed s'
          | (s', inl e) =>
              if is_exception e then retry_loop fuel' (S i) retried (failed ++ [c]) s'
              else Some (s', inl e)
          end
      end
  end.

Definition retry_degraded_operations (fuel : nat) s : option (RedisHA * (exn + Z)) :=
  match degradation_queue s with
  | [] => Some (s, inr 0)
  | _ =>
      if negb (is_connected s) then Some (s, inr 0) else
      match retry_loop fuel 0 0 [] s with
      | None => None
      | Some (s', inr (retried, failed)) => Some (with_queue failed s', inr retried)
      | Some (s', inl e) => Some (s', inl e)
      end
  end.
End Client.

Definition RedisHA_init (t : Z) : RedisHA :=
  {| breaker := CircuitBreaker_init; has_client := false; is_connected := false;
     degradation_queue := []; acknowledged := []; applied := []; ticks := 0; now := t |}.

(** ** One call *)

Section CallFacts.
Context (cfg : Config) (srv : Server).
Implicit Types (s : RedisHA) (c : call).

(** What a call that got past the breaker has done *)
Inductive outcome c s s' : exn + value -> Prop :=
| Answered n v :
    answer srv n c = inr v -> (ticks s <= n < ticks s')%nat ->
    acknowledged s' = acknowledged s ++ [c] -> degradation_queue s' = degradation_queue s ->
    outcome c s s' (inr v)
| Queued :
    (∀ n, (ticks s <= n < ticks s')%nat -> exists e, answer srv n c = inl e) ->
    c_method c ∈ queued_methods -> degradation_mode cfg = true ->
    acknowledged s' = acknowledged s -> degradation_queue s' = degradation_queue s ++ [c] ->
    outcome c s s' (inr (degraded_result (c_method c)))
| Failed n e :
    answer srv n c = inl e -> (ticks s <= n < ticks s')%nat ->
    acknowledged s' = acknowledged s -> degradation_queue s' = degradation_queue s ->
    outcome c s s' (inl e).

Lemma outcome_later c s1 s2 s' r :
  (ticks s1 <= ticks s2)%nat -> acknowledged s2 = acknowledged s1 ->
  degradation_queue s2 = degradation_queue s1 ->
  (∀ n, (ticks s1 <= n < ticks s2)%nat -> exists e, answer srv n c = inl e) ->
  outcome c s2 s' r -> outcome c s1 s' r.
Proof.
  intros Ht He Hq Hbefore [n v Ha Hn H1 H2|Hall Hm Hd H1 H2|n e Ha Hn H1 H2].
  - apply (Answered _ _ _ n); [done|lia|by rewrite <-He|by rewrite <-Hq].
  - apply Queued; [|done|done|by rewrite <-He|by rewrite <-Hq].
    intros n Hn. destruct (decide (n < ticks s2)%nat); [apply Hbefore|apply Hall]; lia.
  - apply (Failed _ _ _ n); [done|lia|by rewrite <-He|by rewrite <-Hq].
Qed.

Lemma attempts_outcome c left : ∀ k s,
  (0 < left)%nat ->
  let '(s', r) := attempts cfg srv c k left s in
  outcome c s s' r /\ (ticks s < ticks s' <= ticks s + left)%nat.
Proof.
  induction left as [|left IH]; intros k s Hl; [lia|]. cbn [attempts raw_call].
  destruct (answer srv (ticks s) c) as [e|v] eqn:Ea.
  - destruct (is_exception e) eqn:Ee; simpl negb; cbv iota.
    + destruct left as [|left].
      * unfold give_up_or_queue. destruct (degradation_mode cfg) eqn:Ed; simpl;
          [case_bool_decide as Hm|]; simpl; (split; [|simpl; lia]).
        -- apply Queued; simpl; [|done|done|by rewrite app_nil_r|done].
           intros n Hn. assert (n = ticks s) as -> by lia. by exists e.
        -- apply (Failed _ _ _ (ticks s)); simpl; [done|lia|by rewrite app_nil_r|done].
        -- apply (Failed _ _ _ (ticks s)); simpl; [done|lia|by rewrite app_nil_r|done].
      * match goal with |- context [attempts cfg srv c ?k' (S left) ?s2] => specialize (IH k' s2 ltac:(lia));
          assert (Ht : ticks s2 = S (ticks s)) by done; assert (He : acknowledged s2 = acknowledged s) by apply app_nil_r;
          assert (Hq : degradation_queue s2 = degradation_queue s) by done;
          destruct (attempts cfg srv c k' (S left) s2) as [s' r] end.
        destruct IH as [Ho Hs]. rewrite Ht in Hs. split; [|lia].
        eapply outcome_later; [| | | |exact Ho]; [lia|done|done|].
        intros n Hn. assert (n = ticks s) as -> by lia. by exists e.
    + split; [|simpl; lia]. apply (Failed _ _ _ (ticks s)); simpl; [done|lia|by rewrite app_nil_r|done].
  - split; [|simpl; lia]. apply (Answered _ _ _ (ticks s)); simpl; [done|lia|done|done].
Qed.

(** The breaker lets the call through. *)
Definition allowed s : bool := (should_allow cfg (now s) (breaker s)).2.

Lemma call_outcome c s :
  (0 < max_retries cfg)%nat -> has_client s = true -> allowed s = true ->
  let '(s', r) := call_with_retry cfg srv c s in
  outcome c s s' r /\ (ticks s < ticks s' <= ticks s + max_retries cfg)%nat.
Proof.
  intros Hm Hc Ha. unfold call_with_retry, allowed in *.
  destruct (should_allow cfg (now s) (breaker s)) as [b ok]. simpl in Ha. subst ok. simpl negb. cbv iota.
  simpl has_client. rewrite Hc. simpl negb. cbv iota.
  pose proof (attempts_outcome c (max_retries cfg) 0 (with_breaker b s) Hm) as H.
  destruct (attempts _ _ _ _ _ _) as [s' r]. destruct H as [Ho Ht]. split; [|exact Ht].
  eapply outcome_later; [| | | |exact Ho]; try done. simpl. intros n Hn. lia.
Qed.

(** A call adds its command to the acknowledged or to the queued ones, or raises and
    changes neither. *)
Lemma call_conserves c s :
  (0 < max_retries cfg)%nat ->
  let '(s', r) := call_with_retry cfg srv c s in
  match r with
  | inr _ => (acknowledged s' = acknowledged s ++ [c] /\ degradation_queue s' = degradation_queue s) \/
             (acknowledged s' = acknowledged s /\ degradation_queue s' = degradation_queue s ++ [c])
  | inl _ => acknowledged s' = acknowledged s /\ degradation_queue s' = degradation_queue s
  end.
Proof.
  intros Hm. destruct (allowed s) eqn:Ea; [destruct (has_client s) eqn:Ec|].
  - pose proof (call_outcome c s Hm Ec Ea) as H.
    destruct (call_with_retry cfg srv c s) as [s' r]. destruct H as [[] _]; auto.
  - unfold call_with_retry, allowed in *. destruct (should_allow _ _ _) as [b ok]. simpl in Ea. subst ok.
    simpl. by rewrite Ec.
  - unfold call_with_retry, allowed in *. destruct (should_allow _ _ _) as [b ok]. simpl in Ea. by subst ok.
Qed.

Lemma retry_loop_conserves fuel : ∀ i retried failed s s' x,
  (0 < max_retries cfg)%nat ->
  retry_loop cfg srv fuel i retried failed s = Some (s', inr x) ->
  acknowledged s' ++ x.2 ≡ₚ acknowledged s ++ failed ++ drop i (degradation_queue s).
Proof.
  induction fuel as [|fuel IH]; intros i retried failed s s' x Hm; simpl retry_loop;
    destruct (degradation_queue s !! i) as [c|] eqn:Ec.
  - done.
  - intros [= <- <-]. simpl. apply lookup_ge_None in Ec. by rewrite drop_ge, app_nil_r.
  - rewrite (drop_S _ _ _ Ec). pose proof (call_conserves c s Hm) as Hcall.
    pose proof (lookup_lt_Some _ _ _ Ec) as Hlt.
    destruct (call_with_retry cfg srv c s) as [s1 [e|v]].
    + destruct Hcall as [He Hq]. destruct (is_exception e); [|done].
      intros H%IH; [|done]. rewrite H, He, Hq. by rewrite <-!app_assoc.
    + intros H%IH; [|done]. rewrite H. destruct Hcall as [[He Hq]|[He Hq]]; rewrite He, Hq.
      * rewrite <-app_assoc. apply Permutation_app_head. simpl. by rewrite Permutation_middle.
      * rewrite drop_app_le by lia. apply Permutation_app_head, Permutation_app_head.
        by rewrite Permutation_app_comm.
  - intros [= <- <-]. simpl. apply lookup_ge_None in Ec. by rewrite drop_ge, app_nil_r.
Qed.
(** A pass that is cancelled leaves the queue, with what was appended to it. *)
Lemma retry_loop_cancelled fuel : ∀ i retried failed s s' e,
  (0 < max_retries cfg)%nat ->
  retry_loop cfg srv fuel i retried failed s = Some (s', inl e) ->
  is_exception e = false /\ degradation_queue s `prefix_of` degradation_queue s'.
Proof.
  induction fuel as [|fuel IH]; intros i retried failed s s' x Hm; simpl retry_loop;
    (destruct (degradation_queue s !! i) as [c|]; [|done]); [done|].
  pose proof (call_conserves c s Hm) as Hcall.
  destruct (call_with_retry cfg srv c s) as [s1 [e|v]].
  - destruct Hcall as [_ Hq]. destruct (is_exception e) eqn:Ee.
    + intros [H1 H2]%IH; [|done]. by rewrite <-Hq.
    + intros [= <- <-]. split; [done|]. by rewrite Hq.
  - intros [H1 H2]%IH; [|done]. split; [done|].
    destruct Hcall as [[_ Hq]|[_ Hq]]; [by rewrite <-Hq|]. etrans; [|exact H2]. rewrite Hq. by eexists.
Qed.

(** What the server has executed on the way from [s] to [s']: the acknowledged calls,
    in order, and between them calls whose answers were lost. *)
Definition applies s s' : Prop :=
  exists l m, applied s' = applied s ++ l /\ acknowledged s' = acknowledged s ++ m /\ m `sublist_of` l /\
    ((∀ n, reached srv n = false) -> l = m).

#[global] Instance applies_preorder : PreOrder applies.
Proof.
  split.
  - intros s. exists [], []. by rewrite !app_nil_r.
  - intros s1 s2 s3 (l & m & H1 & H2 & H3 & H4) (l' & m' & H1' & H2' & H3' & H4').
    exists (l ++ l'), (m ++ m'). rewrite H1', H2', H1, H2, <-!app_assoc. split_and!; [done|done|by apply sublist_app|].
    intros Hr. by rewrite H4, H4'.
Qed.

Lemma attempts_applies c left : ∀ k s, applies s (attempts cfg srv c k left s).1.
Proof.
  induction left as [|left IH]; intros k s; [done|]. cbn [attempts].
  assert (Hraw : applies s (raw_call srv c s).1).
  { unfold raw_call. destruct (answer srv (ticks s) c) as [e|v]; simpl.
    - exists (if reached srv (ticks s) then [c] else []), []. simpl. split; [done|]. split; [done|].
      split; [apply sublist_nil_l|]. by intros ->.
    - exists [c], [c]. by repeat split. }
  destruct (raw_call srv c s) as [s1 [e|v]]; simpl in Hraw; [|exact Hraw].
  destruct (is_exception e); [|exact Hraw]. simpl negb. cbv iota.
  etrans; [exact Hraw|]. destruct left as [|left].
  - unfold give_up_or_queue. destruct (_ && _); simpl; exists [], []; simpl; by rewrite !app_nil_r.
  - match goal with |- applies _ (attempts _ _ _ ?k' _ ?s2).1 => etrans; [|apply (IH k' s2)] end.
    exists [], []. simpl. by rewrite !app_nil_r.
Qed.

Lemma call_applies c s : applies s (call_with_retry cfg srv c s).1.
Proof.
  unfold call_with_retry. destruct (should_allow _ _ _) as [b ok].
  assert (Hb : applies s (with_breaker b s)) by (exists [], []; simpl; by rewrite !app_nil_r).
  destruct ok; simpl negb; cbv iota; [|exact Hb]. destruct (has_client _); simpl negb; cbv iota; [|exact Hb].
  etrans; [exact Hb|apply attempts_applies].
Qed.

Lemma retry_loop_applies fuel : ∀ i retried failed s s' x,
  retry_loop cfg srv fuel i retried failed s = Some (s', x) -> applies s s'.
Proof.
  induction fuel as [|fuel IH]; intros i retried failed s s' x; simpl retry_loop;
    (destruct (degradation_queue s !! i) as [c|]; [|by intros [= <- _]]); [done|].
  pose proof (call_applies c s) as Hc. destruct (call_with_retry cfg srv c s) as [s1 [e|v]]; simpl in Hc.
  - destruct (is_exception e); [intros H%IH; by etrans|by intros [= <- _]].
  - intros H%IH. by etrans.
Qed.
End CallFacts.

Lemma ha_call_outcome_aux cfg srv c s :
  (0 < max_retries cfg)%nat -> has_client s = true -> allowed cfg s = true ->
  exists s' r, call_with_retry cfg srv c s = (s', r) /\ outcome cfg srv c s s' r.
Proof.
  intros Hm Hc Ha. pose proof (call_outcome cfg srv c s Hm Hc Ha) as H.
  destruct (call_with_retry cfg srv c s) as [s' r]. exists s', r. by destruct H.
Qed.

(** A call of the HA client makes at least one and at most [max_retries] raw
    calls and then did exactly one of three things: the server answered it and the
    caller has the answer; or every raw call failed, the call is a queued
    write in degradation mode, it was put at the end of the queue and the caller
    is told it succeeded; or the caller got the exception of a raw call and
    nothing was acknowledged or queued. *)
Theorem ha_call_outcome cfg srv c s :
  (0 < max_retries cfg)%nat -> has_client s = true -> allowed cfg s = true ->
  exists s' r, call_with_retry cfg srv c s = (s', r) /\ outcome cfg srv c s s' r /\
    (ticks s < ticks s' <= ticks s + max_retries cfg)%nat.
Proof.
  intros Hm Hc Ha. pose proof (call_outcome cfg srv c s Hm Hc Ha) as H.
  destruct (call_with_retry cfg srv c s) as [s' r]. by exists s', r.
Qed.

(** A server whose calls [lo .. hi - 1] fail and whose others succeed *)
Definition flaky (lo hi : nat) : Server :=
  {| answer := λ n _, if decide (lo <= n < hi)%nat then inl (Exn ConnectionError "down") else inr VNone;
     reached := λ _, false; latency := λ _, 1%N; jitter := λ _, 0%N |}.

Definition connected : RedisHA := (start default_config (inr tt) (inr tt) (RedisHA_init 1000)).1.

Definition set_lock : call := {| c_method := "set"; c_args := [VStr "task_lock:t"; VStr "me"; VStr "nx"] |}.
Definition get_key : call := {| c_method := "get"; c_args := [VStr "k"] |}.

Lemma ha_call_outcome_witness :
  exists s' r, call_with_retry default_config (flaky 0 2) get_key connected = (s', r) /\
    outcome default_config (flaky 0 2) get_key connected s' r /\ r = inr VNone.
Proof.
  destruct (ha_call_outcome default_config (flaky 0 2) get_key connected) as (s' & r & Hr & Ho & _);
    [simpl; lia|reflexivity|reflexivity|].
  exists s', r. split_and!; [done|done|]. vm_compute in Hr. by injection Hr as _ <-.
Defined.

(** ** The degradation queue *)

(** A pass over a healthy server: one answered call per entry *)
Lemma healthy_loop cfg srv :
  (0 < max_retries cfg)%nat -> (∀ n c, exists v, answer srv n c = inr v) ->
  ∀ l i retried s,
  drop i (degradation_queue s) = l -> cb_st (breaker s) = CLOSED -> has_client s = true ->
  exists s', retry_loop cfg srv (length l) i retried [] s =
               Some (s', inr (retried + Z.of_nat (length l), [])) /\ acknowledged s' = acknowledged s ++ l.
Proof.
  intros Hm Hup l. induction l as [|c l IH]; intros i retried s Hd Hcl Hc.
  - exists s. rewrite app_nil_r, Z.add_0_r. split; [|done]. simpl.
    rewrite lookup_ge_None_2; [done|]. pose proof (f_equal length Hd) as Hlen.
    rewrite length_drop in Hlen. simpl in Hlen. lia.
  - assert (Hi : degradation_queue s !! i = Some c).
    { rewrite <-(Nat.add_0_r i), <-lookup_drop, Hd. done. }
    rewrite (drop_S _ _ _ Hi) in Hd. injection Hd as Hd.
    simpl length. cbn [retry_loop]. rewrite Hi. unfold call_with_retry, should_allow. rewrite Hcl.
    simpl negb. cbv iota. simpl has_client. rewrite Hc. simpl negb. cbv iota.
    destruct (max_retries cfg) as [|k]; [lia|]. cbn [attempts raw_call]. simpl ticks.
    destruct (Hup (ticks s) c) as [v Hv]. rewrite Hv.
    match goal with |- context [retry_loop _ _ _ _ _ _ ?s2] =>
      destruct (IH (S i) (retried + 1) s2) as (s' & Hr & He) end;
      [exact Hd|simpl; by rewrite Hcl|done|].
    exists s'. split; [|rewrite He; simpl; by rewrite <-app_assoc].
    replace (retried + Z.of_nat (S (length l))) with (retried + 1 + Z.of_nat (length l)) by lia. exact Hr.
Qed.

(** C25: no queued write is lost by a retry pass.  Whatever the server answers,
    when the pass returns the commands acknowledged and those still queued are, as a
    multiset, the ones before it, although failing calls append to the very list the
    pass goes through; a pass that is cancelled leaves every queued command in the
    queue, those it had answered included.  The server executes the acknowledged
    commands in order, and others only where an answer was lost on the way.  With a
    connected client, a closed breaker and a server that answers every call, the pass
    ends after one call per entry, executes the entries in order and empties the
    queue; without a connection it does nothing. *)
Theorem no_write_lost cfg srv s :
  (0 < max_retries cfg)%nat ->
  (∀ fuel s' n, retry_degraded_operations cfg srv fuel s = Some (s', inr n) ->
     acknowledged s' ++ degradation_queue s' ≡ₚ acknowledged s ++ degradation_queue s) /\
  (∀ fuel s' e, retry_degraded_operations cfg srv fuel s = Some (s', inl e) ->
     is_exception e = false /\ degradation_queue s `prefix_of` degradation_queue s') /\
  (∀ fuel s' r, retry_degraded_operations cfg srv fuel s = Some (s', r) -> applies srv s s') /\
  (is_connected s = false -> ∀ fuel, retry_degraded_operations cfg srv fuel s = Some (s, inr 0)) /\
  ((∀ n c, exists v, answer srv n c = inr v) -> cb_st (breaker s) = CLOSED -> has_client s = true ->
   is_connected s = true ->
   exists s', retry_degraded_operations cfg srv (length (degradation_queue s)) s =
                Some (s', inr (Z.of_nat (length (degradation_queue s)))) /\
     degradation_queue s' = [] /\ acknowledged s' = acknowledged s ++ degradation_queue s).
Proof.
  intros Hm.
  assert (Hcases : ∀ fuel x, retry_degraded_operations cfg srv fuel s = Some x ->
    x = (s, inr 0) \/
    exists s1 r, retry_loop cfg srv fuel 0 0 [] s = Some (s1, r) /\
      x = match r with inr (n, failed) => (with_queue failed s1, inr n) | inl e => (s1, inl e) end).
  { intros fuel x. unfold retry_degraded_operations. destruct (degradation_queue s); [intros [= <-]; by left|].
    destruct (is_connected s); simpl negb; cbv iota; [|intros [= <-]; by left].
    destruct (retry_loop _ _ _ _ _ _ _) as [[s1 [e|[n f]]]|]; intros [= <-]; right; by eexists _, _. }
  split_and!.
  - intros fuel s' n [[= -> ->]|(s1 & [e|[m f]] & El & Hx)]%Hcases; [done|done|].
    injection Hx as -> _. apply retry_loop_conserves in El; [|done]. exact El.
  - intros fuel s' e [|(s1 & [x|[m f]] & El & Hx)]%Hcases; [done| |done].
    injection Hx as -> ->. by apply retry_loop_cancelled in El.
  - intros fuel s' r [[= -> ->]|(s1 & [x|[m f]] & El & Hx)]%Hcases; [reflexivity| |];
      injection Hx as -> _; by apply retry_loop_applies in El.
  - intros Hc fuel. unfold retry_degraded_operations. rewrite Hc. by destruct (degradation_queue s).
  - intros Hup Hcl Hc Hcon.
    unfold retry_degraded_operations. destruct (degradation_queue s) as [|c q] eqn:Eq.
    + exists s. by rewrite app_nil_r.
    + rewrite Hcon. simpl negb. cbv iota.
      destruct (healthy_loop cfg srv Hm Hup (c :: q) 0%nat 0 s) as (s' & Hr & He); [by rewrite Eq|done|done|].
      rewrite Hr. by exists (with_queue [] s').
Qed.

Lemma no_write_lost_witness :
  let down := (call_with_retry default_config (flaky 0 3) set_lock connected).1 in
  let up := (call_with_retry default_config (flaky 0 3) get_key down).1 in
  degradation_queue up = [set_lock] /\
  exists s', retry_degraded_operations default_config (flaky 0 3) 1 up = Some (s', inr 1) /\
    acknowledged s' ++ degradation_queue s' ≡ₚ acknowledged up ++ degradation_queue up /\ degradation_queue s' = [].
Proof.
  intros down up. split; [vm_compute; reflexivity|].
  destruct (no_write_lost default_config (flaky 0 3) up) as [Hc _]; [simpl; lia|].
  destruct (retry_degraded_operations default_config (flaky 0 3) 1 up) as [[s' [e|n]]|] eqn:Er.
  - exfalso. vm_compute in Er. discriminate Er.
  - exists s'. assert (Hn : n = 1 /\ degradation_queue s' = [])
      by (vm_compute in Er; injection Er as <- <-; done).
    destruct Hn as [-> Hq]. split_and!; [done|exact (Hc 1%nat s' 1 Er)|exact Hq].
  - exfalso. vm_compute in Er. discriminate Er.
Defined.

(** ** Locks while the server is down *)

Lemma all_fail cfg srv c left : ∀ k s,
  (∀ n, exists e, answer srv n c = inl e /\ is_exception e = true) ->
  degradation_mode cfg = true -> c_method c ∈ queued_methods ->
  (attempts cfg srv c k (S left) s).2 = inr (degraded_result (c_method c)).
Proof.
  induction left as [|left IH]; intros k s Hdown Hd Hm; cbn [attempts raw_call];
    destruct (Hdown (ticks s)) as (e & -> & ->); simpl negb; cbv iota.
  - unfold give_up_or_queue. rewrite Hd, bool_decide_true by done. done.
  - by apply IH.
Qed.

(** While Redis is down, every client that asks for a lock gets it.  In
    degradation mode, with a breaker that has not opened, a [set] whose raw calls
    all fail is reported as successful, so a [SET key value NX] that takes a lock
    succeeds for every process that tries, although the server answered none. *)
Theorem degraded_lock_granted cfg srv c s :
  (0 < max_retries cfg)%nat -> degradation_mode cfg = true -> has_client s = true ->
  cb_st (breaker s) = CLOSED -> c_method c = "set" ->
  (∀ n, exists e, answer srv n c = inl e /\ is_exception e = true) ->
  exists s', call_with_retry cfg srv c s = (s', inr (VBool true)) /\ acknowledged s' = acknowledged s.
Proof.
  intros Hm Hd Hc Hcl Hset Hdown.
  assert (Hok : allowed cfg s = true) by (unfold allowed, should_allow; by rewrite Hcl).
  destruct (ha_call_outcome_aux cfg srv c s Hm Hc Hok) as (s' & r & Hr & Ho).
  assert (Hres : r = inr (VBool true)).
  { unfold call_with_retry, should_allow in Hr. rewrite Hcl in Hr. simpl negb in Hr. cbv iota in Hr.
    simpl has_client in Hr. rewrite Hc in Hr. simpl negb in Hr. cbv iota in Hr.
    destruct (max_retries cfg) as [|k]; [lia|].
    pose proof (all_fail cfg srv c k 0 (with_breaker (breaker s) s) Hdown Hd) as Hf.
    rewrite Hset in Hf. specialize (Hf ltac:(by left)). by rewrite Hr in Hf. }
  subst r. exists s'. split; [done|]. inversion Ho as [n v Ha ?|?|]; subst; [|done].
  destruct (Hdown n) as (e & He & _). congruence.
Qed.

Definition down_server : Server :=
  {| answer := λ _ _, inl (Exn ConnectionError "down"); reached := λ _, false; latency := λ _, 1%N; jitter := λ _, 0%N |}.

Lemma degraded_lock_granted_witness :
  exists s', call_with_retry default_config down_server set_lock connected = (s', inr (VBool true)) /\
    acknowledged s' = [].
Proof.
  destruct (degraded_lock_granted default_config down_server set_lock connected) as (s' & Hr & He);
    [simpl; lia|reflexivity|reflexivity|reflexivity|reflexivity|intros n; by eexists|].
  exists s'. split; [exact Hr|]. rewrite He. reflexivity.
Defined.

(** ** A breaker that never closes again *)

Inductive ha_step := SCall (c : call) | SWait (ms : Z).

(** The answers of a sequence of calls and waits *)
Fixpoint replies (cfg : Config) (srv : Server) (h : list ha_step) (s : RedisHA) : list (exn + value) :=
  match h with
  | [] => []
  | SWait d :: h' => replies cfg srv h' (pass d s)
  | SCall c :: h' => let '(s', r) := call_with_retry cfg srv c s in r :: replies cfg srv h' s'
  end.

(** A breaker that opened during a call whose retry then succeeded is stuck.
    [record_success] leaves the state [OPEN] and forgets the time of the failure;
    from then on every call is refused, whatever the time that passes and however
    healthy the server. *)
Theorem breaker_stuck_open cfg srv h s :
  cb_st (breaker s) = OPEN -> last_failure_time (breaker s) = None ->
  Forall (λ r, r = inl (Exn ConnectionError "Circuit breaker is OPEN")) (replies cfg srv h s).
Proof.
  revert s. induction h as [|[c|d] h IH]; intros s Ho Hl; simpl; [constructor| |by apply IH].
  unfold call_with_retry, should_allow, reset_passed. rewrite Ho, Hl. simpl.
  constructor; [done|]. by apply IH.
Qed.

(** The default client reaches such a state from five failed raw calls in two
    commands, and refuses a healthy server an hour later. *)
Lemma breaker_stuck_open_witness :
  let srv := flaky 0 5 in
  let s1 := (call_with_retry default_config srv get_key connected).1 in
  let s2 := (call_with_retry default_config srv get_key s1).1 in
  (call_with_retry default_config srv get_key s1).2 = inr VNone /\
  Forall (λ r, r = inl (Exn ConnectionError "Circuit breaker is OPEN"))
    (replies default_config srv [SWait 3600000; SCall get_key; SCall set_lock] s2).
Proof.
  intros srv s1 s2. split; [vm_compute; reflexivity|].
  apply (breaker_stuck_open default_config srv _ s2); vm_compute; reflexivity.
Defined.
