(* ===== verification/RemoteCode.v ===== *)
(** * Remote code fetcher

    [src/platform/remote_code_fetcher.py]: URL checks, size-limited download with
    checksum, safe extraction and the artifact cache.  The HTTP client and the
    decoding of a [tar.gz] file are parameters; the file system is the cache
    directory, a map from entry names to what the code looks at in them. *)

From Stdlib Require Import Ascii.
From stdpp Require Import base gmap strings list sorting.
From S2P Require Import Prelude PyValue Json Sha256 PySort TaskCompletion.

Open Scope Z_scope.

(** ** URLs *)

Definition is_letter (c : ascii) : bool :=
  let n := nat_of_ascii (lower_ascii c) in (97 <=? n)%nat && (n <=? 122)%nat.

Definition is_scheme_char (c : ascii) : bool :=
  is_letter c || is_digit c || bool_decide (c ∈ ["+"%char; "-"%char; "."%char]).

(** [urlsplit] first drops leading control characters and spaces, then every tab and
    line break. *)
Fixpoint lstrip_c0 (s : string) : string :=
  match s with
  | String c s' => if (nat_of_ascii c <=? 32)%nat then lstrip_c0 s' else s
  | EmptyString => EmptyString
  end.

Fixpoint drop_breaks (s : string) : string :=
  match s with
  | String c s' =>
      if bool_decide (nat_of_ascii c ∈ [9; 10; 13]%nat) then drop_breaks s' else String c (drop_breaks s')
  | EmptyString => EmptyString
  end.

(** [urlparse(url).scheme] with the rest of the text *)
Definition split_scheme (url : string) : string * string :=
  let url := drop_breaks (lstrip_c0 url) in
  match str_cut ":"%char url with
  | (String c s, Some rest) =>
      if is_letter c && string_forall is_scheme_char (String c s)
      then (str_lower (String c s), rest) else ("", url)
  | _ => ("", url)
  end.

(** [netloc]: between [//] and the next [/], [?] or [#] *)
Definition netloc (rest : string) : string :=
  match rest with
  | String "/" (String "/" r) =>
      (str_cut "#"%char (str_cut "?"%char (str_cut "/"%char r).1).1).1
  | _ => ""
  end.

Definition has (c : ascii) (s : string) : bool := bool_decide (is_Some (str_cut c s).2).

(** Lower case, except for what follows a [%] *)
Definition lower_host (h : string) : string :=
  match str_cut "%"%char h with
  | (a, Some zone) => str_lower a +:+ "%" +:+ zone
  | (a, None) => str_lower a
  end.

(** [urlparse(url).hostname or ""]: without user, brackets and port *)
Definition hostname (url : string) : string :=
  let host := after_last "@"%char (netloc (split_scheme url).2) in
  match str_cut "["%char host with
  | (_, Some bracketed) => lower_host (str_cut "]"%char bracketed).1
  | (_, None) => lower_host (str_cut ":"%char host).1
  end.

Definition BLOCKED_HOSTNAMES : list string := ["localhost"; "127.0.0.1"; "::1"; "0.0.0.0"].

(** [172.(1[6-9]|2\d|3[01]).]: the second number from 16 to 31 *)
Definition private_172 (s : string) : bool :=
  existsb (λ n, starts_with ("172." +:+ dec_of_Z (Z.of_nat n) +:+ ".") s) (seq 16 16).

Definition is_private_ip (host : string) : bool :=
  starts_with "10." host || private_172 host || starts_with "192.168." host || starts_with "169.254." host.

Definition artifact_error {A} (msg : string) : exn + A := inl (Exn ArtifactError msg).

Definition validate_artifact_url (allow_private_ip : bool) (url : string) : exn + unit :=
  let scheme := (split_scheme url).1 in
  let loc := netloc (split_scheme url).2 in
  if xorb (has "["%char loc) (has "]"%char loc) then inl (Exn ValueError "Invalid IPv6 URL")
  else if negb (bool_decide (scheme ∈ ["http"; "https"])) then
    artifact_error ("Unsupported URL scheme: " +:+ repr_str scheme)
  else
    let host := hostname url in
    if bool_decide (host = "") then artifact_error "URL has no hostname"
    else if bool_decide (host ∈ BLOCKED_HOSTNAMES) then
      artifact_error ("Blocked hostname: " +:+ repr_str host)
    else if negb allow_private_ip && is_private_ip host then
      artifact_error ("Private IP address not allowed: " +:+ repr_str host +:+ ". " +:+
                      "Set CALLBACK_ALLOW_PRIVATE_IP=true to override.")
    else inr tt.

(** ** Archives *)

Inductive member_kind := KFile | KSymlink | KHardlink.

Record member := {
  mb_name : string;
  mb_kind : member_kind;
  mb_linkname : string;
  mb_mode : Z
}.

Fixpoint split_slash (fuel : nat) (s : string) : list string :=
  match fuel with
  | O => []
  | S fuel' =>
      match str_cut "/"%char s with
      | (a, None) => [a]
      | (a, Some b) => a :: split_slash fuel' b
      end
  end.

Definition is_absolute (s : string) : bool := starts_with "/" s.

(** [Path(s).parts] of a relative path: empty components and [.] vanish. *)
Definition parts (s : string) : list string :=
  filter (λ c, c <> "" /\ c <> ".") (split_slash (S (String.length s)) s).

Definition escapes (s : string) : bool := is_absolute s || bool_decide (".." ∈ parts s).

(** [mode & ~(0o4000 | 0o2000)] *)
Definition strip_setid (mode : Z) : Z := Z.land mode (Z.lnot (Z.lor 2048 1024)).

(** The loop over the members: the first unsafe one raises. *)
Fixpoint check_members (ms : list member) : exn + list member :=
  match ms with
  | [] => inr []
  | m :: ms' =>
      if escapes (mb_name m) then artifact_error ("Unsafe tar entry: " +:+ repr_str (mb_name m))
      else
        let m' := {| mb_name := mb_name m; mb_kind := mb_kind m; mb_linkname := mb_linkname m;
                     mb_mode := strip_setid (mb_mode m) |} in
        match mb_kind m with
        | KFile => match check_members ms' with inl e => inl e | inr l => inr (m' :: l) end
        | KSymlink | KHardlink =>
            if escapes (mb_linkname m)
            then artifact_error ("Unsafe symlink in tar: " +:+ repr_str (mb_name m) +:+ " -> " +:+ repr_str (mb_linkname m))
            else match check_members ms' with inl e => inl e | inr l => inr (m' :: l) end
        end
  end.

(** ** Download *)

Definition mb (bytes : Z) : string := dec_of_Z (bytes / (1024 * 1024)).

(** [for chunk in r.iter_bytes()]: [acc] is what is written so far, [broken] the
    exception that ends the stream, if one does. *)
Fixpoint receive (max_size : Z) (chunks : list string) (broken : option exn) (acc : string) : exn + string :=
  match chunks with
  | [] =>
      match broken with
      | Some e => artifact_error ("Download failed: " +:+ exn_str e)
      | None => inr acc
      end
  | c :: cs =>
      if max_size <? Z.of_nat (String.length acc + String.length c)
      then artifact_error ("Artifact exceeds size limit (" +:+ mb max_size +:+ " MB)")
      else receive max_size cs broken (acc +:+ c)
  end.

Section Fetcher.
Context (max_size_bytes max_cache_entries : Z) (allow_private_ip : bool).
(** the chunks of a response with the exception that ends it (an error status: no
    chunk and an exception), and the members of a [tar.gz] *)
Context (http_get : string -> list string * option exn) (tar_members : string -> exn + list member).

Definition download (url : string) (expected_sha256 : option string) : exn + string :=
  match receive max_size_bytes (http_get url).1 (http_get url).2 "" with
  | inl e => inl e
  | inr content =>
      match expected_sha256 with
      | Some (String c s) =>
          let actual := sha256_hexdigest content in
          if decide (actual = str_lower (String c s)) then inr content
          else artifact_error ("SHA-256 mismatch: expected " +:+ String c s +:+ ", got " +:+ actual)
      | _ => inr content
      end
  end.

Definition extract (content : string) : exn + list member :=
  match tar_members content with inl e => inl e | inr ms => check_members ms end.

(** ** The cache *)

(** An entry: its modification time, its [.ready] marker and its package. *)
Record entry := {
  en_mtime : Z;
  en_ready : bool;
  en_package : option (list member)
}.

Notation cache := (gmap string entry).

Definition cache_key (url : string) (sha256 : option string) : string :=
  str_take 32 (sha256_hexdigest (url +:+ ":" +:+ default "" sha256)).

Definition ready_entries (c : cache) : list (string * entry) :=
  filter (λ ke, en_ready ke.2 = true) (map_to_list c).

(** [entries.sort(key=mtime)], oldest first *)
Definition by_age (c : cache) : list (string * entry) :=
  sort_desc (λ a b, en_mtime a.2 <=? en_mtime b.2) (ready_entries c).

Definition remove_keys (ks : list string) (c : cache) : cache := delete_all ks c.

(** [entries[:len(entries) - max + 1]] *)
Definition gc_artifact_cache (c : cache) : cache * Z :=
  let entries := by_age c in
  let n := Z.of_nat (length entries) in
  if n <? max_cache_entries then (c, 0)
  else
    let to_remove := take (Z.to_nat (n - max_cache_entries + 1)) entries in
    (remove_keys (to_remove.*1) c, Z.of_nat (length to_remove)).

(** [pkg_dir.mkdir(parents=True, exist_ok=True)]: what is there stays; a new
    directory changes the entry's modification time. *)
Definition make_package (now : Z) (old : option entry) : entry :=
  match old with
  | Some e =>
      match en_package e with
      | Some _ => e
      | None => {| en_mtime := now; en_ready := en_ready e; en_package := Some [] |}
      end
  | None => {| en_mtime := now; en_ready := false; en_package := Some [] |}
  end.

(** [tf.extractall] and [ready_marker.touch()] *)
Definition finish_package (now : Z) (ms : list member) (e : entry) : entry :=
  {| en_mtime := if en_ready e then en_mtime e else now; en_ready := true;
     en_package := Some (default [] (en_package e) ++ ms) |}.

(** The answer is the package's entry name. *)
Definition fetch_artifact (now : Z) (url : string) (expected_sha256 : option string) (c : cache) :
    cache * (exn + string) :=
  match validate_artifact_url allow_private_ip url with
  | inl e => (c, inl e)
  | inr _ =>
      let key := cache_key url expected_sha256 in
      match c !! key with
      | Some {| en_ready := true; en_package := Some _ |} => (c, inr key)
      | _ =>
          let c := (gc_artifact_cache c).1 in
          match download url expected_sha256 with
          | inl e => (c, inl e)
          | inr content =>
              let e := make_package now (c !! key) in
              match extract content with
              | inl ex => (<[key := e]> c, inl ex)
              | inr ms => (<[key := finish_package now ms e]> c, inr key)
              end
          end
      end
  end.
End Fetcher.

Notation cache := (gmap string entry).

(** ** Where an archive writes

    Directories on the path are followed through the symbolic links the archive
    itself has made: a location is an absolute path, last component first. *)

Notation location := (list string) (only parsing).

(** Path resolution; [None] when it follows too many links. *)
Fixpoint resolve (fuel : nat) (links : gmap location string) (loc : location) (todo : list string) :
    option location :=
  match fuel with
  | O => None
  | S fuel' =>
      match todo with
      | [] => Some loc
      | c :: cs =>
          if decide (c = "..") then resolve fuel' links (tail loc) cs
          else match links !! (c :: loc) with
          | Some target =>
              resolve fuel' links (if is_absolute target then [] else loc) (parts target ++ cs)
          | None => resolve fuel' links (c :: loc) cs
          end
      end
  end.

(** What one member writes below [root]: a link is made in its parent directory, a
    file is opened through whatever its path leads to, a hard link also reads its
    target. *)
Definition place (fuel : nat) (root : location) (m : member) (links : gmap location string) :
    option (gmap location string * list location) :=
  match mb_kind m with
  | KSymlink =>
      match reverse (parts (mb_name m)) with
      | [] => None
      | base :: up =>
          match resolve fuel links root (reverse up) with
          | Some dir => Some (<[base :: dir := mb_linkname m]> links, [base :: dir])
          | None => None
          end
      end
  | KFile =>
      match resolve fuel links root (parts (mb_name m)) with
      | Some l => Some (links, [l])
      | None => None
      end
  | KHardlink =>
      match resolve fuel links root (parts (mb_name m)), resolve fuel links root (parts (mb_linkname m)) with
      | Some l, Some l' => Some (links, [l; l'])
      | _, _ => None
      end
  end.

(** [tf.extractall]: the locations touched, up to the first that cannot be reached *)
Fixpoint extractall (fuel : nat) (root : location) (ms : list member) (links : gmap location string) :
    list location :=
  match ms with
  | [] => []
  | m :: ms' =>
      match place fuel root m links with
      | Some (links', touched) => touched ++ extractall fuel root ms' links'
      | None => []
      end
  end.

(** * Lemmas *)

(** A member the loop lets through *)
Definition safe_member (m : member) : Prop :=
  escapes (mb_name m) = false /\
  (mb_kind m <> KFile -> escapes (mb_linkname m) = false) /\
  Z.testbit (mb_mode m) 11 = false /\ Z.testbit (mb_mode m) 10 = false.

Lemma strip_setid_bits mode i : 0 <= i ->
  Z.testbit (strip_setid mode) i = Z.testbit mode i && negb (bool_decide (i = 10 \/ i = 11)).
Proof.
  intros Hi. unfold strip_setid. rewrite Z.land_spec, Z.lnot_spec by lia. f_equal. f_equal.
  change (Z.lor 2048 1024) with (Z.lor (2 ^ 11) (2 ^ 10)). rewrite Z.lor_spec, !Z.pow2_bits_eqb by lia.
  destruct (Z.eqb_spec 11 i), (Z.eqb_spec 10 i); case_bool_decide; simpl; try done; lia.
Qed.

(** A member goes through exactly when its two paths stay inside; only its mode changes. *)
Lemma check_members_ok ms l :
  check_members ms = inr l ->
  Forall safe_member l /\
  Forall2 (λ m m', mb_name m' = mb_name m /\ mb_kind m' = mb_kind m /\ mb_linkname m' = mb_linkname m /\
                   mb_mode m' = strip_setid (mb_mode m)) ms l.
Proof.
  revert l. induction ms as [|m ms IH]; intros l; simpl.
  { by intros [= <-]. }
  destruct (escapes (mb_name m)) eqn:En; [done|]. intros H.
  assert ((mb_kind m <> KFile -> escapes (mb_linkname m) = false) /\
          ∃ l', check_members ms = inr l' /\
            l = {| mb_name := mb_name m; mb_kind := mb_kind m; mb_linkname := mb_linkname m;
                   mb_mode := strip_setid (mb_mode m) |} :: l') as (Hlink & l' & Hl' & ->).
  { destruct (mb_kind m); repeat case_match; simplify_eq; naive_solver. }
  destruct (IH _ Hl') as [Hs Hf]. split; constructor; try done.
  split_and!; [done..| |]; cbn [mb_mode]; rewrite strip_setid_bits by lia; by rewrite andb_false_r.
Qed.

Lemma escapes_relative s : escapes s = false -> is_absolute s = false /\ ".." ∉ parts s.
Proof. unfold escapes. rewrite orb_false_iff, bool_decide_eq_false. done. Qed.

(** [root] encloses [loc] (both last component first) *)
Definition under (root loc : location) : Prop := ∃ rel, loc = rel ++ root.

Definition safe_links (root : location) (links : gmap location string) : Prop :=
  ∀ loc target, links !! loc = Some target -> under root loc -> escapes target = false.

Lemma under_cons root c loc : under root loc -> under root (c :: loc).
Proof. intros [rel ->]. by exists (c :: rel). Qed.

Lemma resolve_under fuel root links loc todo l :
  safe_links root links -> under root loc -> ".." ∉ todo ->
  resolve fuel links loc todo = Some l -> under root l.
Proof.
  intros Hl. revert loc todo. induction fuel as [|fuel IH]; intros loc todo Hr Hd; simpl; [done|].
  destruct todo as [|c cs]; [by intros [= <-]|].
  apply not_elem_of_cons in Hd as [Hc Hcs]. rewrite decide_False by done.
  destruct (links !! (c :: loc)) as [target|] eqn:E.
  - destruct (escapes_relative _ (Hl _ _ E (under_cons _ _ _ Hr))) as [-> Hd].
    apply IH; [done|]. by rewrite elem_of_app; intros [?|?].
  - apply IH; [by apply under_cons|done].
Qed.

Lemma parts_reverse_up s base up :
  reverse (parts s) = base :: up -> ".." ∉ parts s -> ".." ∉ reverse up.
Proof.
  intros E Hn Hin. apply Hn. rewrite <-(reverse_involutive (parts s)), E, reverse_cons.
  apply elem_of_app. by left.
Qed.

Lemma under_refl root : under root root.
Proof. by exists []. Qed.

#[local] Hint Resolve under_refl under_cons resolve_under : confined.

Lemma place_under fuel root m links links' touched :
  safe_links root links -> safe_member m -> place fuel root m links = Some (links', touched) ->
  safe_links root links' /\ Forall (under root) touched.
Proof.
  intros Hl (Hn & Hk & _). apply escapes_relative in Hn as [_ Hn].
  unfold place. destruct (mb_kind m) eqn:Ek.
  - case_match; [|done]. intros [= <- <-]. eauto 6 with confined.
  - destruct (reverse (parts (mb_name m))) as [|base up] eqn:Er; [done|].
    destruct (resolve _ _ _ (reverse up)) as [dir|] eqn:E; [|done]. intros [= <- <-].
    assert (under root dir) as Hu by (eapply resolve_under;
      [exact Hl|apply under_refl|by eapply parts_reverse_up|exact E]).
    split; [|eauto with confined]. intros loc t. rewrite lookup_insert_Some.
    intros [[_ <-]|[_ ?]] ?; [by apply Hk|by eapply Hl].
  - assert (escapes (mb_linkname m) = false) as [_ Hd]%escapes_relative by by apply Hk.
    repeat case_match; try done. intros [= <- <-]. eauto 7 with confined.
Qed.

Lemma extractall_under fuel root ms links :
  safe_links root links -> Forall safe_member ms -> Forall (under root) (extractall fuel root ms links).
Proof.
  intros Hl Hms. revert links Hl. induction Hms as [|m ms Hm _ IH]; intros links Hl; simpl; [constructor|].
  destruct (place fuel root m links) as [[links' touched]|] eqn:E; [|constructor].
  destruct (place_under _ _ _ _ _ _ Hl Hm E) as [Hl' Ht]. apply Forall_app. auto.
Qed.

(** ** The cache *)

Definition ready_map (c : cache) : cache := filter (λ ke, en_ready ke.2 = true) c.
Definition ready_count (c : cache) : Z := Z.of_nat (size (ready_map c)).

Lemma by_age_perm c : by_age c ≡ₚ map_to_list (ready_map c).
Proof.
  unfold by_age, ready_entries, ready_map. rewrite sort_desc_perm. apply NoDup_Permutation.
  - apply NoDup_filter, NoDup_map_to_list.
  - apply NoDup_map_to_list.
  - intros [k e]. by rewrite list_elem_of_filter, !elem_of_map_to_list, map_lookup_filter_Some, (comm and).
Qed.

Lemma by_age_length c : Z.of_nat (length (by_age c)) = ready_count c.
Proof. unfold ready_count. by rewrite by_age_perm, length_map_to_list. Qed.

Lemma elem_of_by_age c k e : (k, e) ∈ by_age c <-> c !! k = Some e /\ en_ready e = true.
Proof. rewrite by_age_perm, elem_of_map_to_list. unfold ready_map. by rewrite map_lookup_filter_Some. Qed.

Lemma by_age_keys_NoDup c : NoDup ((by_age c).*1).
Proof. rewrite by_age_perm. apply NoDup_fst_map_to_list. Qed.

Lemma by_age_sorted c : StronglySorted (λ a b, (en_mtime a.2 <= en_mtime b.2)) (by_age c).
Proof.
  assert (Hs : StronglySorted (geP (λ a b : string * entry, en_mtime a.2 <=? en_mtime b.2)) (by_age c))
    by (apply sort_desc_sorted; intros *; rewrite ?Z.leb_le, ?Z.leb_gt; lia).
  induction Hs as [|x l _ IH Hx]; constructor; [done|].
  eapply Forall_impl; [exact Hx|]. intros y Hy%Z.leb_le. done.
Qed.

Section FetcherProofs.
Context (max_cache_entries : Z).
Local Notation gc := (gc_artifact_cache max_cache_entries).

(** What collection removes *)
Definition evicted (c : cache) : list (string * entry) :=
  if ready_count c <? max_cache_entries then []
  else take (Z.to_nat (ready_count c - max_cache_entries + 1)) (by_age c).

Lemma gc_evicted c : gc c = (remove_keys ((evicted c).*1) c, Z.of_nat (length (evicted c))).
Proof. unfold gc_artifact_cache, evicted. rewrite by_age_length. by case_match. Qed.

Lemma evicted_prefix c : ∃ kept, by_age c = evicted c ++ kept.
Proof.
  unfold evicted. case_match; [by exists (by_age c)|].
  eexists. symmetry. apply take_drop.
Qed.

Lemma gc_ready_count c : ready_count (gc c).1 = ready_count c - Z.of_nat (length (evicted c)).
Proof.
  rewrite gc_evicted. unfold ready_count. cbn [fst]. unfold ready_map, remove_keys. rewrite delete_all_filter. fold (ready_map c).
  destruct (evicted_prefix c) as [kept Hk].
  rewrite <-(size_delete_all ((evicted c).*1) (ready_map c)); [rewrite length_fmap; lia| |].
  - pose proof (by_age_keys_NoDup c) as Hn. rewrite Hk, fmap_app in Hn. by apply NoDup_app in Hn as [? _].
  - intros k. rewrite list_elem_of_fmap. intros ([k' e] & -> & Hin).
    assert ((k', e) ∈ by_age c) as [Hl Hr]%elem_of_by_age by (rewrite Hk; set_solver).
    exists e. unfold ready_map. by rewrite map_lookup_filter_Some.
Qed.

Lemma gc_room c : ready_count (gc c).1 <= Z.max 0 (max_cache_entries - 1).
Proof.
  rewrite gc_ready_count. unfold evicted. case_match eqn:E; [apply Z.ltb_lt in E; simpl; lia|].
  apply Z.ltb_ge in E. rewrite length_take. pose proof (by_age_length c). lia.
Qed.

Lemma ready_count_insert c k e : ready_count (<[k := e]> c) <= ready_count c + 1.
Proof.
  unfold ready_count, ready_map. rewrite map_filter_insert. cbn [snd].
  destruct (decide (en_ready e = true)).
  - rewrite map_size_insert. case_match; unfold id; lia.
  - rewrite map_filter_delete, map_size_delete. case_match; unfold id; lia.
Qed.

Context (max_size_bytes : Z) (allow_private_ip : bool).
Context (http_get : string -> list string * option exn) (tar_members : string -> exn + list member).
Local Notation download := (download max_size_bytes http_get).
Local Notation extract := (extract tar_members).
Local Notation fetch_artifact :=
  (fetch_artifact max_size_bytes max_cache_entries allow_private_ip http_get tar_members).

(** A fetch leaves the cache alone, only collects, or collects and writes one entry. *)
Lemma fetch_cases now url sha c :
  let c' := (fetch_artifact now url sha c).1 in
  c' = c \/ c' = (gc c).1 \/
  ∃ content e, download url sha = inr content /\
    (e = make_package now ((gc c).1 !! cache_key url sha) \/
     ∃ ms, extract content = inr ms /\
       e = finish_package now ms (make_package now ((gc c).1 !! cache_key url sha))) /\
    c' = <[cache_key url sha := e]> (gc c).1.
Proof.
  unfold RemoteCode.fetch_artifact.
  destruct (validate_artifact_url allow_private_ip url) as [e|_]; [by left|].
  destruct (c !! cache_key url sha) as [[mt [] [pk|]]|]; [by left|right..].
  all: destruct (download url sha) as [e|content]; [by left|right].
  all: destruct (extract content) as [ex|ms] eqn:E; eauto 9.
Qed.

Lemma receive_ok chunks broken acc content :
  receive max_size_bytes chunks broken acc = inr content ->
  content = acc +:+ foldr String.append "" chunks /\ broken = None /\
  (chunks = [] \/ Z.of_nat (String.length content) <= max_size_bytes).
Proof.
  revert acc. induction chunks as [|ch chunks IH]; intros acc; simpl.
  { destruct broken; [done|]. intros [= <-]. by rewrite string_app_nil_r; auto. }
  case_match eqn:E; [done|]. apply Z.ltb_ge in E. intros H.
  destruct (IH _ H) as (Hc & -> & Hl). rewrite string_app_assoc. split_and!; [done..|]. right.
  destruct Hl as [->|Hl]; [|done]. rewrite Hc. simpl. rewrite string_app_nil_r, length_app_str. lia.
Qed.

Lemma make_package_ready now old :
  en_ready (make_package now old) = match old with Some e => en_ready e | None => false end.
Proof. destruct old as [[? ? []]|]; done. Qed.

(** ** The invariant of the cache *)

Definition safe_entry (e : entry) : Prop := Forall safe_member (default [] (en_package e)).

Definition cache_inv (c : cache) : Prop :=
  ready_count c <= Z.max 1 max_cache_entries /\ ∀ k e, c !! k = Some e -> safe_entry e.

Lemma gc_lookup c k e : (gc c).1 !! k = Some e -> c !! k = Some e.
Proof. rewrite gc_evicted. cbn [fst]. rewrite lookup_delete_all. by intros [? _]. Qed.

Lemma make_package_safe now old :
  (∀ e, old = Some e -> safe_entry e) -> safe_entry (make_package now old).
Proof.
  intros H. destruct old as [[mt r [pk|]]|]; [by apply H|constructor..].
Qed.

Lemma fetch_inv now url sha c : cache_inv c -> cache_inv (fetch_artifact now url sha c).1.
Proof.
  intros [Hb Hs]. assert (cache_inv (gc c).1) as Hgc.
  { split; [pose proof (gc_room c); lia|]. eauto using gc_lookup. }
  destruct (fetch_cases now url sha c) as [->|[->|(content & e & _ & He & ->)]]; [done..|].
  split; [pose proof (ready_count_insert (gc c).1 (cache_key url sha) e); pose proof (gc_room c); lia|].
  assert (safe_entry (make_package now ((gc c).1 !! cache_key url sha))) as Hm
    by (apply make_package_safe, (proj2 Hgc)).
  intros k e' [[_ <-]|[_ ?]]%lookup_insert_Some; [|by eapply (proj2 Hgc)].
  destruct He as [->|(ms & Hms & ->)]; [done|].
  unfold safe_entry. simpl. apply Forall_app. split; [exact Hm|].
  unfold RemoteCode.extract in Hms. case_match; [done|]. by apply check_members_ok in Hms as [? _].
Qed.
End FetcherProofs.

(** * Properties *)

(** A sequence of fetches, each with its clock, URL and expected checksum *)
Fixpoint fetches max_size max_entries allow http_get tar_members
    (reqs : list (Z * string * option string)) (c : cache) : cache :=
  match reqs with
  | [] => c
  | (now, url, sha) :: reqs' =>
      fetches max_size max_entries allow http_get tar_members reqs'
        (fetch_artifact max_size max_entries allow http_get tar_members now url sha c).1
  end.

Lemma fetches_inv max_size max_entries allow http_get tar_members reqs c :
  cache_inv max_entries c ->
  cache_inv max_entries (fetches max_size max_entries allow http_get tar_members reqs c).
Proof.
  revert c. induction reqs as [|[[now url] sha] reqs IH]; intros c Hc; simpl; [done|].
  apply IH, fetch_inv, Hc.
Qed.

Lemma cache_inv_empty max_entries : cache_inv max_entries ∅.
Proof. split; [|done]. unfold ready_count, ready_map. rewrite map_filter_empty, map_size_empty. lia. Qed.

(** C36: Whatever archives the servers send and whatever the requests, the cache never
    has more ready packages than its limit (one, if the limit is smaller), and no
    package in it can write outside its own directory: unpacking its members there, through the symbolic links they
    make themselves, touches only locations below that directory, and no file keeps
    a setuid or setgid bit. *)
Theorem artifact_cache_safe max_size max_entries allow http_get tar_members reqs :
  let c := fetches max_size max_entries allow http_get tar_members reqs ∅ in
  ready_count c <= Z.max 1 max_entries /\
  ∀ k e fuel root, c !! k = Some e ->
    let ms := default [] (en_package e) in
    Forall (under root) (extractall fuel root ms ∅) /\
    Forall (λ m, Z.testbit (mb_mode m) 11 = false /\ Z.testbit (mb_mode m) 10 = false) ms.
Proof.
  intros c. assert (cache_inv max_entries c) as [Hb Hs] by apply fetches_inv, cache_inv_empty.
  split; [done|]. intros k e fuel root He ms. specialize (Hs _ _ He). split.
  - by apply extractall_under.
  - eapply Forall_impl; [exact Hs|]. by intros m (_ & _ & ? & ?).
Qed.

Lemma gone_is_evicted max_entries c k e :
  c !! k = Some e -> (gc_artifact_cache max_entries c).1 !! k = None -> (k, e) ∈ evicted max_entries c.
Proof.
  intros Hk. rewrite gc_evicted. cbn [fst]. intros Hgone.
  destruct (decide (k ∈ (evicted max_entries c).*1)) as [Hin|Hn].
  - apply list_elem_of_fmap in Hin as ([k0 e0] & -> & Hin). simpl in *.
    destruct (evicted_prefix max_entries c) as [kept Hp].
    assert ((k0, e0) ∈ by_age c) as [Hk0 _]%elem_of_by_age by (rewrite Hp; set_solver).
    by simplify_eq.
  - assert (remove_keys ((evicted max_entries c).*1) c !! k = Some e) by (by apply lookup_delete_all).
    congruence.
Qed.

(** Collection is by age: it keeps every entry without a marker, and a ready entry it
    removes is no younger than any ready entry it keeps; what remains leaves room
    for one more. *)
Theorem gc_removes_oldest max_entries c k e k' e' :
  c !! k = Some e -> (gc_artifact_cache max_entries c).1 !! k = None ->
  (gc_artifact_cache max_entries c).1 !! k' = Some e' -> en_ready e' = true ->
  en_ready e = true /\ en_mtime e <= en_mtime e' /\
  ready_count (gc_artifact_cache max_entries c).1 <= Z.max 0 (max_entries - 1).
Proof.
  intros Hk Hgone Hk' Hr'. split_and!; [| |apply gc_room].
  all: pose proof (gone_is_evicted _ _ _ _ Hk Hgone) as Hin.
  all: destruct (evicted_prefix max_entries c) as [kept Hp].
  all: assert ((k, e) ∈ by_age c) as [_ Hr]%elem_of_by_age by (rewrite Hp; set_solver).
  { done. }
  rewrite gc_evicted in Hk'. cbn [fst] in Hk'.
  apply lookup_delete_all in Hk' as [Hk' Hn'].
  assert ((k', e') ∈ by_age c) as Hin' by by apply elem_of_by_age.
  rewrite Hp in Hin'. apply elem_of_app in Hin' as [Hin'|Hin'].
  { destruct Hn'. apply list_elem_of_fmap. by exists (k', e'). }
  pose proof (by_age_sorted c) as Hs. rewrite Hp in Hs.
  apply StronglySorted_app in Hs as (Hcross & _). exact (Hcross _ _ Hin Hin').
Qed.

Definition an_entry (mt : Z) (r : bool) : entry := {| en_mtime := mt; en_ready := r; en_package := Some [] |}.
Definition a_cache : cache := <["a" := an_entry 30 true]> {[ "b" := an_entry 20 true ]}.

Example gc_removes_oldest_example :
  en_ready (an_entry 20 true) = true /\ 20 <= 30 /\
  ready_count (gc_artifact_cache 2 a_cache).1 <= Z.max 0 (2 - 1).
Proof. apply (gc_removes_oldest 2 a_cache "b" (an_entry 20 true) "a" (an_entry 30 true)); vm_compute; reflexivity. Defined.

(** A download that succeeds is the whole response, no longer than the limit, and, where
    a checksum is expected, has it. *)
Theorem download_verified max_size http_get url sha content :
  0 <= max_size -> download max_size http_get url sha = inr content ->
  content = foldr String.append "" (http_get url).1 /\ (http_get url).2 = None /\
  Z.of_nat (String.length content) <= max_size /\
  ∀ s, sha = Some s -> s <> "" -> sha256_hexdigest content = str_lower s.
Proof.
  intros Hm. unfold download. destruct (receive _ _ _ _) as [e|body] eqn:E; [done|].
  intros H. apply receive_ok in E as (Hc & Hn & Hl). simpl in Hc.
  assert (content = body /\ ∀ s, sha = Some s -> s <> "" -> sha256_hexdigest content = str_lower s) as [-> Hs].
  { destruct sha as [[|ch s]|]; [by simplify_eq; split; [|intros ? [= <-]]| |by simplify_eq].
    case_decide as Hd; [|done]. simplify_eq. split; [done|]. by intros ? [= <-] _. }
  split_and!; [done..| |done]. destruct Hl as [Hl|Hl]; [|done]. rewrite Hc, Hl. simpl. lia.
Qed.

Example download_verified_example :
  "abcd" = foldr String.append "" ["ab"; "cd"] /\ @None exn = None /\ 4 <= 4 /\
  ∀ s, @None string = Some s -> s <> "" -> sha256_hexdigest "abcd" = str_lower s.
Proof. apply (download_verified 4 (λ _, (["ab"; "cd"], None)) "u" None "abcd"); [lia|reflexivity]. Defined.

(** What was fetched once is served from the cache from then on: the same request
    neither downloads nor changes anything, as long as nothing collects it. *)
Theorem fetch_then_hit max_size max_entries allow http_get tar_members now url sha c c' k :
  fetch_artifact max_size max_entries allow http_get tar_members now url sha c = (c', inr k) ->
  ∀ now' http_get' tar_members',
    fetch_artifact max_size max_entries allow http_get' tar_members' now' url sha c' = (c', inr k).
Proof.
  unfold fetch_artifact at 1. destruct (validate_artifact_url allow url) as [e|[]] eqn:Ev; [done|].
  intros H now' hg tm. unfold fetch_artifact. rewrite Ev.
  assert (k = cache_key url sha /\ ∃ e, c' !! cache_key url sha = Some e /\ en_ready e = true /\ is_Some (en_package e))
    as (-> & [mt rd pk] & -> & Hr & [p Hp]).
  { destruct (c !! cache_key url sha) as [[mt [] [pk|]]|] eqn:E;
      [simplify_eq; split; [done|]; eexists; split; [exact E|]; split; [done|eauto]|..].
    all: repeat case_match; try done; simplify_eq; split; [done|].
    all: rewrite lookup_insert_eq; eexists; split; [done|]; split; [done|]; eexists; reflexivity. }
  simpl in Hr, Hp. by subst.
Qed.

(** ** URLs: examples *)

Lemma validate_blocks allow host :
  host ∈ BLOCKED_HOSTNAMES -> ∀ url, hostname url = host -> ∃ e, validate_artifact_url allow url = inl e.
Proof.
  intros Hb url <-. unfold validate_artifact_url.
  case_match; [by eexists|]. case_match; [by eexists|]. case_match; [by eexists|].
  rewrite bool_decide_true by done. by eexists.
Qed.

(** Loopback stays blocked when private addresses are allowed; other names of the
    loopback network are not blocked at all. *)
Example validate_examples :
  (∃ e, validate_artifact_url true "http://127.0.0.1:8000/a.tar.gz" = inl e) /\
  (∃ e, validate_artifact_url false "http://user@10.1.2.3/a.tar.gz" = inl e) /\
  (∃ e, validate_artifact_url false "HTTP://172.31.0.1/a" = inl e) /\
  validate_artifact_url false "http://172.32.0.1/a" = inr tt /\
  validate_artifact_url true "https://10.1.2.3/a.tar.gz" = inr tt /\
  validate_artifact_url false "http://127.0.0.2/a.tar.gz" = inr tt /\
  (∃ e, validate_artifact_url false "file:///etc/passwd" = inl e).
Proof. split_and!; try (eexists; vm_compute; reflexivity); vm_compute; reflexivity. Qed.

(** A traversal, an escaping link and a clean archive *)
Example check_members_examples :
  let f name := {| mb_name := name; mb_kind := KFile; mb_linkname := ""; mb_mode := 2541 |} in
  let l name target := {| mb_name := name; mb_kind := KSymlink; mb_linkname := target; mb_mode := 511 |} in
  check_members [f "a/../../b"] = artifact_error "Unsafe tar entry: 'a/../../b'" /\
  check_members [f "a"; l "x" "/etc"] = artifact_error "Unsafe symlink in tar: 'x' -> '/etc'" /\
  (mb_mode <$> (match check_members [f "a/b"; l "x" "a"] with inr ms => ms | inl _ => [] end)) = [493; 511] /\
  extractall 9 ["package"; "k"] [f "a/b"; l "x" "a"; f "x/c"] ∅ =
    [["b"; "a"; "package"; "k"]; ["x"; "package"; "k"]; ["c"; "a"; "package"; "k"]] /\
  extractall 9 ["package"; "k"] [l "x" "../.."; f "x/c"] ∅ = [["x"; "package"; "k"]; ["c"]].
Proof. split_and!; vm_compute; reflexivity. Qed.
