(* ===== verification/DagLoader.v ===== *)
(** * DAG definitions: loader and service

    [src/platform/dag_loader.py] (look-up in Redis, then the YAML files, then MySQL)
    and [DagService] of [src/services/resource_application.py].  The YAML parser with
    the files of the configuration directory is a parameter; the MySQL table
    [dag_definitions], which no model or migration of the repository declares, is
    reached by a call whose answer the environment gives. *)

From Stdlib Require Import Ascii.
From stdpp Require Import base gmap strings list.
From S2P Require Import Prelude PyValue Json Redis TaskModel Tables Effects ErrorHandling.
From S2P Require Import Registry ResourceServices.

Open Scope Z_scope.

Definition dag_key (tenant_id dag_id : string) : string :=
  "dag_def:" +:+ tenant_id +:+ ":" +:+ dag_id.

Definition CACHE_TTL : Z := 259200.

Section Loader.
(** [redis_client] and [db_session_factory] given; a file of the configuration
    directory: absent, or what [yaml.safe_load] makes of it *)
Context (has_redis has_db : bool) (yaml_file : string -> option (exn + value)).

Fixpoint yaml_candidates (files : list string) : value :=
  match files with
  | [] => VNone
  | f :: fs =>
      match yaml_file f with
      | Some (inr data) => data
      | Some (inl _) | None => yaml_candidates fs
      end
  end.

Definition load_from_yaml (dag_id : string) : value :=
  yaml_candidates [dag_id +:+ ".yaml"; dag_id +:+ ".yml"].

Definition load_from_redis (dag_id tenant_id : string) : M value :=
  let* raw := redis (dag_key tenant_id dag_id) GET in
  ret (decode_item raw).

Definition cache_in_redis (dag_id tenant_id : string) (data : value) : M unit :=
  do* redis (dag_key tenant_id dag_id) (SET (orjson_dumps data) (Some (CACHE_TTL * 1000)) false) in
  ret tt.

(** [row[0]] is falsy or a JSON text; any failure counts as no row. *)
Definition load_from_db (dag_id tenant_id : string) : M value :=
  except
    (let* cell := invoke "SELECT definition FROM dag_definitions"
                    (VDict [("dag_id", VStr dag_id); ("tid", VStr tenant_id)]) in
     match cell with
     | VStr raw =>
         if bool_decide (raw = "") then ret VNone
         else of_sum (match json_loads raw with Some v => inr v | None => inl (Exn ValueError "JSON") end)
     | _ => if truthy cell then raise (Exn TypeError "Input must be bytes, bytearray, memoryview, or str")
            else ret VNone
     end)
    (λ _, ret VNone).

Definition warm (dag_id tenant_id : string) (data : value) : M value :=
  do* (if has_redis then cache_in_redis dag_id tenant_id data else ret tt) in ret data.

Definition load (dag_id tenant_id : string) : M value :=
  let* hot := (if has_redis then load_from_redis dag_id tenant_id else ret VNone) in
  if truthy hot then ret hot else
  let local := load_from_yaml dag_id in
  if truthy local then warm dag_id tenant_id local else
  let* cold := (if has_db then load_from_db dag_id tenant_id else ret VNone) in
  if truthy cold then warm dag_id tenant_id cold else ret VNone.

Definition register (dag_id tenant_id : string) (definition : value) : M bool :=
  if negb has_redis then raise (Exn RuntimeError "DagLoader: redis_client required for register()") else
  do* cache_in_redis dag_id tenant_id definition in ret true.

Definition dag_delete (dag_id tenant_id : string) : M bool :=
  if negb has_redis then ret false else
  let* removed := redis (dag_key tenant_id dag_id) DEL in
  ret (negb (removed =? 0)).

(** ** The service *)

(** [scan_iter(f"dag_def:{tenant_id}:*")], for a tenant without glob characters *)
Definition list_dags (tenant_id : string) : M (list (list (string * value))) :=
  if negb has_redis then ret [] else
  let* keys := script (scan_cmd (starts_with ("dag_def:" +:+ tenant_id +:+ ":"))) in
  ret (map (λ k, [("dag_id", VStr (after_last ":"%char k)); ("tenant_id", VStr tenant_id)]) keys).

Definition get_dag (dag_id tenant_id : string) : M value :=
  let* dag := load dag_id tenant_id in
  match dag with VNone => raise (not_found "DAG" dag_id) | _ => ret dag end.

Definition register_dag (tenant_id : string) (body : dict) : M dict :=
  let* dag_id := required_text "dag_id" "dag_id required" body in
  do* register dag_id tenant_id (VDict body) in
  ret [("dag_id", VStr dag_id); ("tenant_id", VStr tenant_id); ("registered", VBool true)].

(** [{**existing, **body, "dag_id": dag_id}] *)
Definition merge_dag (dag_id : string) (existing body : dict) : dict :=
  dict_set "dag_id" (VStr dag_id) (dict_update existing body).

Definition update_dag (dag_id tenant_id : string) (body : dict) : M dict :=
  let* existing := get_dag dag_id tenant_id in
  match existing with
  | VDict d =>
      do* register dag_id tenant_id (VDict (merge_dag dag_id d body)) in
      ret (merge_dag dag_id d body)
  | _ => raise (Exn TypeError "object is not a mapping")
  end.

Definition delete_dag (dag_id tenant_id : string) : M unit :=
  do* dag_delete dag_id tenant_id in ret tt.
End Loader.

(** * Lemmas *)

Section Proofs.
Context {E : Env} (HE : quiet E) (has_db : bool) (yaml_file : string -> option (exn + value)).
Implicit Types (w : world doc_services).

Definition ttl_entry (now : Z) (v : value) : rentry :=
  REntry (RStr (orjson_dumps v)) (Some (now + CACHE_TTL * 1000)).

Lemma run_cache_in_redis d t v w :
  run (cache_in_redis d t v) w =
  (after (put (dag_key t d) (Some (ttl_entry (w_now w) v)) (w_redis w)) (w_db w) w, inr tt).
Proof. unfold cache_in_redis. rewrite run_bind, run_redis. destruct HE as [-> _]. by rewrite act_SET. Qed.

Lemma run_load_from_redis d t w :
  is_str (w_now w) (w_redis w) (dag_key t d) ->
  run (load_from_redis d t) w =
  (after (put (dag_key t d) (live (w_now w) (w_redis w) (dag_key t d)) (w_redis w)) (w_db w) w,
   inr (decode_item (str_at (w_now w) (w_redis w) (dag_key t d)))).
Proof.
  unfold load_from_redis, is_str, str_at. intros Hs. rewrite run_bind, run_redis. destruct HE as [-> _].
  destruct (live _ _ _) as [[[] x]|]; done.
Qed.

(** What the query's answer [cell] stands for *)
Definition db_value (cell : exn + value) : exn + value :=
  match cell with
  | inl e => if is_exception e then inr VNone else inl e
  | inr (VStr raw) => inr (if bool_decide (raw = "") then VNone else default VNone (json_loads raw))
  | inr _ => inr VNone
  end.

Definition db_query (d t : string) (n : nat) : exn + value :=
  db_value (invoke_answer n "SELECT definition FROM dag_definitions"
              (VDict [("dag_id", VStr d); ("tid", VStr t)])).

Lemma run_load_from_db d t w :
  ∃ w', run (load_from_db d t) w = (w', db_query d t (w_tick w)) /\ w_redis w' = w_redis w.
Proof.
  exists (advance (S := doc_services) (w_redis w) (w_db w) [OInvoke "SELECT definition FROM dag_definitions"
            (VDict [("dag_id", VStr d); ("tid", VStr t)])] w). split; [|done].
  unfold load_from_db, db_query. rewrite run_except, run_bind. simpl.
  destruct (invoke_answer _ _ _) as [e|[]]; simpl; try done; [by destruct (is_exception e)|..].
  all: match goal with |- context [if ?b then _ else _] => destruct b end; try done.
  by destruct (json_loads _).
Qed.

(** The look-up order: the first truthy one of Redis, the YAML file and the table *)
Definition found (hot : value) (local : value) (cold : exn + value) : exn + value :=
  if truthy hot then inr hot else if truthy local then inr local else
  if has_db then match cold with
                 | inr v => inr (if truthy v then v else VNone)
                 | inl e => inl e
                 end
  else inr VNone.

Lemma run_warm d t v w : (run (warm true d t v) w).2 = inr v.
Proof. unfold warm. rewrite run_bind, run_cache_in_redis. done. Qed.

Lemma load_found d t w :
  is_str (w_now w) (w_redis w) (dag_key t d) ->
  (run (load true has_db yaml_file d t) w).2 =
  found (decode_item (str_at (w_now w) (w_redis w) (dag_key t d))) (load_from_yaml yaml_file d)
    (db_query d t (S (w_tick w))).
Proof.
  intros Hs. unfold load, found. rewrite run_bind, run_load_from_redis by done. cbv beta iota.
  set (w1 := after _ _ w). destruct (truthy (decode_item _)); [done|].
  destruct (truthy (load_from_yaml _ _)); [apply run_warm|]. rewrite run_bind.
  destruct has_db; [|done].
  destruct (run_load_from_db d t w1) as (w2 & -> & _). cbn [w_tick].
  change (w_tick w1) with (S (w_tick w)).
  destruct (db_query d t (S (w_tick w))) as [e|v]; [done|]. destruct (truthy v); [apply run_warm|done].
Qed.

(** A definition put in Redis at [now] is there for three days. *)
Lemma ttl_entry_at now now' v ks k :
  str_at now' (put k (Some (ttl_entry now v)) ks) k =
  (if now' <? now + CACHE_TTL * 1000 then Some (orjson_dumps v) else None) /\
  is_str now' (put k (Some (ttl_entry now v)) ks) k.
Proof.
  unfold str_at, is_str, live. rewrite lookup_put_eq. unfold expired, ttl_entry. cbn [re_exp].
  destruct (Z.leb_spec (now + CACHE_TTL * 1000) now'), (Z.ltb_spec now' (now + CACHE_TTL * 1000));
    try lia; done.
Qed.
End Proofs.

(** * Properties *)

(** A registered definition is what [load] answers for three days, whatever the YAML
    files and the table hold; from then on only these are left, so a definition that
    is in neither is lost. *)
Theorem registered_dag_roundtrip (E : Env) has_db yaml_file d t v (w w1 : world doc_services) r :
  quiet E -> truthy v = true -> run (register true d t v) w = (w1, r) ->
  r = inr true /\
  ∀ w2, w_redis w2 = w_redis w1 ->
    (run (load true has_db yaml_file d t) w2).2 =
    if w_now w2 <? w_now w + CACHE_TTL * 1000 then inr v
    else found has_db VNone (load_from_yaml yaml_file d) (db_query d t (S (w_tick w2))).
Proof.
  intros HE Hv. unfold register. cbn [negb]. rewrite run_bind, run_cache_in_redis by done. intros [= <- <-].
  split; [done|]. intros w2 Hr. simpl in Hr.
  destruct (ttl_entry_at (w_now w) (w_now w2) v (w_redis w) (dag_key t d)) as [Ha Hs].
  rewrite load_found by (rewrite ?Hr; done). rewrite Hr, Ha.
  destruct (_ <? _); [|done]. by rewrite decode_dumps; unfold found; rewrite Hv.
Qed.

(** Deleting only forgets the Redis copy: what the YAML file or the table holds is
    found again. *)
Theorem deleted_dag_returns (E : Env) has_db yaml_file d t (w w1 : world doc_services) r :
  quiet E -> run (delete_dag true d t) w = (w1, r) ->
  r = inr tt /\
  (run (load true has_db yaml_file d t) w1).2 =
    found has_db VNone (load_from_yaml yaml_file d) (db_query d t (S (w_tick w1))).
Proof.
  intros HE. unfold delete_dag, dag_delete. cbn [negb]. rewrite !run_bind, run_redis. destruct HE as [Hf HE].
  rewrite Hf, act_DEL. intros [= <- <-]. split; [done|].
  assert (Hl : live (w_now w + Z.of_N (delay (w_tick w))) (put (dag_key t d) None (w_redis w)) (dag_key t d) = None)
    by (unfold live; by rewrite lookup_put_eq).
  rewrite load_found; [|by split|]; unfold is_str, str_at; simpl; by rewrite Hl.
Qed.

(** An update stores what it answers: the loaded definition overlaid by the body, under
    its own identifier. *)
Theorem updated_dag_roundtrip (E : Env) has_db yaml_file d t body (w w1 : world doc_services) merged :
  quiet E -> run (update_dag true has_db yaml_file d t body) w = (w1, inr merged) ->
  (∃ existing, (run (load true has_db yaml_file d t) w).2 = inr (VDict existing) /\
               merged = merge_dag d existing body) /\
  dict_get "dag_id" merged = Some (VStr d) /\
  ∃ now, at_key (w_redis w1) (dag_key t d) = Some (ttl_entry now (VDict merged)).
Proof.
  intros HE. unfold update_dag, get_dag. rewrite !run_bind.
  destruct (run (load true has_db yaml_file d t) w) as [w2 [e|v]]; [done|]. cbn [snd].
  destruct v as [| | | | | |existing]; try done.
  cbv beta iota. rewrite run_ret. cbv beta iota. rewrite run_bind. unfold register. cbn [negb].
  rewrite run_bind, run_cache_in_redis by done. intros [= <- <-].
  split; [by exists existing|]. split; [apply dict_get_set_eq|].
  exists (w_now w2). simpl. apply at_put_eq.
Qed.

(** ** Listing *)

Lemma str_cut_no_char c s : no_char c s -> (str_cut c s).2 = None.
Proof.
  unfold no_char. induction s as [|d s IH]; simpl; [done|].
  rewrite andb_True, negb_True, bool_decide_spec. intros [Hd Hs]. rewrite decide_False by done.
  specialize (IH Hs). by destruct (str_cut c s).
Qed.

Lemma after_last_app c a s : no_char c s -> after_last c (a +:+ String c s) = s.
Proof.
  intros Hs. induction a as [|d a IH]; simpl.
  - rewrite str_cut_no_char by done. by rewrite decide_True.
  - assert ((str_cut c (a +:+ String c s)).2 <> None) as Hn.
    { clear. induction a as [|d a IH]; simpl; [by rewrite decide_True|].
      case_decide; [done|]. by destruct (str_cut c _). }
    by destruct (str_cut c _).2.
Qed.

Lemma live_is_Some now ks k : live now ks k <> None -> is_Some (ks !! k).
Proof. unfold live. by destruct (ks !! k). Qed.

(** Every definition Redis holds for a tenant is listed under its identifier, when that
    has no colon; nothing is listed that Redis does not hold. *)
Theorem list_dags_spec (E : Env) t (w : world doc_services) :
  quiet E -> ∃ dags, (run (list_dags true t) w).2 = inr dags /\
  (∀ d, no_char ":"%char d -> live (w_now w) (w_redis w) (dag_key t d) <> None ->
        [("dag_id", VStr d); ("tenant_id", VStr t)] ∈ dags) /\
  (∀ item, item ∈ dags -> ∃ k, starts_with ("dag_def:" +:+ t +:+ ":") k = true /\
        live (w_now w) (w_redis w) k <> None /\
        item = [("dag_id", VStr (after_last ":"%char k)); ("tenant_id", VStr t)]).
Proof.
  intros [HE _]. unfold list_dags. cbn [negb]. rewrite run_bind, run_script, HE. simpl.
  eexists. split; [done|]. split.
  - intros d Hd Hl. apply list_elem_of_fmap. exists (dag_key t d). split.
    + unfold dag_key. change (t +:+ ":" +:+ d) with (t +:+ String ":"%char d).
      by rewrite string_app_assoc, after_last_app.
    + apply list_elem_of_filter. split; [split; [|done]|].
      * unfold dag_key. rewrite !string_app_assoc. apply Is_true_true, starts_with_app.
      * destruct (live_is_Some _ _ _ Hl) as [e He].
        apply list_elem_of_fmap. exists (dag_key t d, e). split; [done|]. by apply elem_of_map_to_list.
  - intros item (k & -> & Hk)%list_elem_of_fmap. apply list_elem_of_filter in Hk as [[Hp Hl] _].
    exists k. by apply Is_true_true in Hp.
Qed.

(** ** Examples *)

Definition a_dag : value := VDict [("steps", VList [])].

Example registered_dag_example :
  (run (E := calm) (load true false (λ _, None) "etl" "t1")
     (run (E := calm) (register true "etl" "t1" a_dag) (world0 0)).1).2 = inr a_dag.
Proof.
  pose proof (registered_dag_roundtrip calm false (λ _, None) "etl" "t1" a_dag (world0 0) _ _
                calm_quiet eq_refl (surjective_pairing _)) as [_ H].
  rewrite (H _ eq_refl). reflexivity.
Defined.

(** A colon in the identifier: the listed name is not the registered one. *)
Example list_dags_truncates :
  (run (E := calm) (list_dags true "t1") (run (E := calm) (register true "etl:v2" "t1" a_dag) (world0 0)).1).2 =
  inr [[("dag_id", VStr "v2"); ("tenant_id", VStr "t1")]].
Proof. vm_compute. reflexivity. Qed.
