(* ===== verification/StepExecutors.v ===== *)
(** * Step executors

    [src/platform/step_executors.py]: retries around a dispatch, submission with a
    wait for the result, and scatter-gather over shards.  The dispatch callable is a
    parameter: any program. *)

From Stdlib Require Import Ascii.
From stdpp Require Import base gmap strings list.
From S2P Require Import Prelude PyValue Json Redis TaskModel Tables Effects QueueKeys CircuitBreaker QueueManager.

Open Scope Z_scope.

Notation dict := (list (string * value)).

(** ** SyncStepExecutor *)

Section Sync.
Context {B : Type} (qm : option (QueueManager B)) (max_retries retry_delay : Z).
Context (dispatch : string -> string -> dict -> M value).

Definition on_success (capability : string) : M unit :=
  match qm with Some q => do* try_recover_concurrent q capability in ret tt | None => ret tt end.

Definition on_failure (capability : string) : M unit :=
  match qm with Some q => do* adjust_concurrent q capability (-1) false in ret tt | None => ret tt end.

(** [min(retry_delay * 2 ** attempt, 60.0)] in milliseconds; the jitter is part of the
    time the pause takes. *)
Definition pause (attempt : Z) : Z := Z.min (retry_delay * 2 ^ attempt) 60000.

Definition attempts_text : string := dec_of_Z (max_retries + 1).

(** [for attempt in range(max_retries + 1)], [left] rounds to go *)
Fixpoint sync_attempts (capability step_name : string) (input : dict) (left : nat) (attempt : Z) : M value :=
  match left with
  | O => raise (Exn RuntimeError ("SyncStepExecutor: step=" +:+ step_name +:+ " failed after " +:+
                                  attempts_text +:+ " attempts"))
  | S left' =>
      let* r := except
        (let* result := dispatch capability step_name input in
         do* on_success capability in ret (Some result))
        (λ _, do* on_failure capability in
              do* (if attempt <? max_retries then sleep (pause attempt) else ret tt) in
              ret None) in
      match r with
      | Some v => ret v
      | None => sync_attempts capability step_name input left' (attempt + 1)
      end
  end.

Definition sync_execute (capability step_name : string) (input : dict) : M value :=
  sync_attempts capability step_name input (Z.to_nat (max_retries + 1)) 0.
End Sync.

(** ** AsyncStepExecutor *)

Section Async.
Context (has_redis : bool) (poll_interval timeout : Z) (timeout_text : string).
Context (dispatch : string -> string -> dict -> M value).

Definition read_result (result_key : string) : M (option value) :=
  let* raw := redis result_key GET in
  match raw with
  | None | Some "" => ret None
  | Some text =>
      match json_loads text with
      | Some v => ret (Some v)
      | None => raise (Exn ValueError "JSONDecodeError")
      end
  end.

(** [psub.get_message(timeout=poll_interval)]: nothing after the interval, or a
    message; [wait_for] gives up one second later. *)
Definition get_message (channel : string) : M bool :=
  let* r := attempt_ (invoke "get_message" (VStr channel)) in
  match r with
  | inr (VDict m) => ret (py_eq (dict_get_or "type" VNone m) (VStr "message"))
  | inr _ => do* sleep poll_interval in ret false
  | inl (Exn TimeoutError _) => do* sleep (poll_interval + 1000) in ret false
  | inl e => raise e
  end.

(** The loop; [None] when [fuel] rounds were not enough. *)
Fixpoint wait_result (fuel : nat) (result_key channel step_name : string) (deadline : Z) :
    M (option value) :=
  match fuel with
  | O => ret None
  | S fuel' =>
      let* now := time_ms in
      if deadline <=? now then
        raise (Exn TimeoutError ("AsyncStepExecutor: step=" +:+ step_name +:+ " timed out after " +:+
                                 timeout_text +:+ "s"))
      else
      let* r := read_result result_key in
      match r with
      | Some v => ret (Some v)
      | None =>
          let* msg := get_message channel in
          if msg then
            let* r := read_result result_key in
            match r with
            | Some v => ret (Some v)
            | None => wait_result fuel' result_key channel step_name deadline
            end
          else wait_result fuel' result_key channel step_name deadline
      end
  end.

Definition async_execute (fuel : nat) (capability step_name : string) (input : dict) (task_id : string) :
    M (option value) :=
  let* submit_resp := dispatch capability step_name input in
  if negb has_redis then ret (Some submit_resp) else
  let result_key := "result:" +:+ task_id +:+ ":" +:+ step_name in
  let channel := "result_channel:" +:+ task_id +:+ ":" +:+ step_name in
  let* now := time_ms in
  do* invoke "subscribe" (VStr channel) in
  let* r := attempt_ (wait_result fuel result_key channel step_name (now + timeout)) in
  do* invoke "unsubscribe" (VStr channel) in
  do* invoke "close" VNone in
  of_sum r.
End Async.

(** ** MapStepExecutor *)

(** [getattr(step, "max_concurrency", 0) or max_parallelism] *)
Definition map_limit (max_parallelism step_concurrency : Z) : Z :=
  if step_concurrency =? 0 then max_parallelism else step_concurrency.

Definition shard_input (input : dict) (shard : value) (idx : nat) : dict :=
  dict_update input [("shard", shard); ("shard_index", VInt (Z.of_nat idx))].

Definition shard_name (step_name : string) (idx : nat) : string :=
  step_name +:+ "[" +:+ dec_of_Z (Z.of_nat idx) +:+ "]".

(** A task created for a shard: waiting at the semaphore, inside it, or finished. *)
Inductive shard_task :=
| Waiting
| Inside (p : M value)
| Finished (r : exn + value).

Definition inside (t : shard_task) : bool := match t with Inside _ => true | _ => false end.
Definition count_inside (ts : list shard_task) : nat := length (filter (λ t, inside t) ts).

Section Map.
Context (dispatch : string -> string -> dict -> M value).
Context (capability step_name : string) (input : dict) (shards : list value).
Context {S : Services} {E : Env}.

Definition one (idx : nat) (shard : value) : M value :=
  dispatch capability (shard_name step_name idx) (shard_input input shard idx).

(** Task [i] runs up to its next effect: it enters when the semaphore lets it, performs
    one effect, or leaves. *)
Definition shard_step (limit : nat) (st : list shard_task * world S) (i : nat) :
    list shard_task * world S :=
  match st.1 !! i, shards !! i with
  | Some Waiting, Some shard =>
      if (count_inside st.1 <? limit)%nat then (<[i := Inside (one i shard)]> st.1, st.2) else st
  | Some (Inside (Ret r)), _ => (<[i := Finished r]> st.1, st.2)
  | Some (Inside (Vis e k)), _ => let '(w', x) := step e st.2 in (<[i := Inside (k x)]> st.1, w')
  | _, _ => st
  end.

Definition shard_run (limit : nat) (sched : list nat) (st : list shard_task * world S) :
    list shard_task * world S :=
  foldl (shard_step limit) st sched.

(** [asyncio.gather(..., return_exceptions=True)], once every task is finished *)
Definition gathered (ts : list shard_task) : option (list (exn + value)) :=
  mapM (λ t, match t with Finished r => Some r | _ => None end) ts.

Definition start_tasks : list shard_task := replicate (length shards) Waiting.

(** The messages of the failed shards, from number [i] on.  A cancellation is no
    [Exception]: it stays among the results. *)
Fixpoint shard_errors (i : nat) (rs : list (exn + value)) : list string :=
  match rs with
  | [] => []
  | inl e :: rs' =>
      if is_exception e
      then ("shard[" +:+ dec_of_Z (Z.of_nat i) +:+ "]: " +:+ exn_str e) :: shard_errors (Datatypes.S i) rs'
      else shard_errors (Datatypes.S i) rs'
  | inr _ :: rs' => shard_errors (Datatypes.S i) rs'
  end.

Definition shard_out (rs : list (exn + value)) : list (exn + value) :=
  filter (λ r, Is_true (match r with inl e => negb (is_exception e) | inr _ => true end)) rs.

Definition collect (rs : list (exn + value)) : exn + list (exn + value) :=
  match shard_errors 0 rs with
  | [] => inr (shard_out rs)
  | errors =>
      inl (Exn RuntimeError ("MapStepExecutor: step=" +:+ step_name +:+ " " +:+
             dec_of_Z (Z.of_nat (length errors)) +:+ " shards failed: " +:+ String.concat "; " errors))
  end.

(** The call under the interleaving [sched]; [None] while some task is not finished. *)
Definition map_execute (max_parallelism step_concurrency : Z) (sched : list nat) (w : world S) :
    world S * option (exn + list (exn + value)) :=
  match shards with
  | [] => (w, Some (inr []))
  | _ =>
      let limit := map_limit max_parallelism step_concurrency in
      if limit <? 0 then (w, Some (inl (Exn ValueError "Semaphore initial value must be >= 0")))
      else
        let st := shard_run (Z.to_nat limit) sched (start_tasks, w) in
        (st.2, collect <$> gathered st.1)
  end.
End Map.

(** * Lemmas *)

Section MapProofs.
Context (dispatch : string -> string -> dict -> M value).
Context (capability step_name : string) (input : dict) (shards : list value).
Context {S : Services} {E : Env}.
Local Notation shard_step := (shard_step dispatch capability step_name input shards).
Local Notation shard_run := (shard_run dispatch capability step_name input shards).
Local Notation one := (one dispatch capability step_name input).
Implicit Types (st : list shard_task * world S) (ts : list shard_task).

Lemma count_inside_insert ts i t t' :
  ts !! i = Some t ->
  (count_inside (<[i := t']> ts) + Nat.b2n (inside t) = count_inside ts + Nat.b2n (inside t'))%nat.
Proof.
  intros Hi. rewrite insert_take_drop by by eapply lookup_lt_Some.
  rewrite <-(take_drop_middle ts i t Hi) at 3. unfold count_inside.
  rewrite !filter_app, !filter_cons, !length_app.
  destruct (inside t), (inside t'); simpl; rewrite ?decide_True, ?decide_False by (simpl; tauto); simpl; lia.
Qed.

(** At most [limit] dispatches are open at a time, whatever the interleaving. *)
Lemma shard_step_limit limit st i :
  (count_inside st.1 <= limit)%nat -> (count_inside (shard_step limit st i).1 <= limit)%nat.
Proof.
  intros Hl. unfold StepExecutors.shard_step.
  destruct (st.1 !! i) as [[|p|r]|] eqn:Hi; [|destruct p as [r|X e k]|done..].
  - destruct (shards !! i) as [x|]; [|done]. case_match eqn:Hc; [|done]. apply Nat.ltb_lt in Hc.
    pose proof (count_inside_insert _ _ _ (Inside (one i x)) Hi). simpl in *. lia.
  - pose proof (count_inside_insert _ _ _ (Finished r) Hi). simpl in *. lia.
  - destruct (step e st.2) as [w' x].
    pose proof (count_inside_insert _ _ _ (Inside (k x)) Hi). simpl in *. lia.
Qed.

Lemma shard_run_limit limit sched st :
  (count_inside st.1 <= limit)%nat -> (count_inside (shard_run limit sched st).1 <= limit)%nat.
Proof.
  revert st. induction sched as [|i sched IH]; intros st Hl; simpl; [done|].
  apply IH, shard_step_limit, Hl.
Qed.

Lemma shard_step_length limit st i : length (shard_step limit st i).1 = length st.1.
Proof. unfold StepExecutors.shard_step. repeat case_match; simpl; by rewrite ?length_insert. Qed.

Lemma shard_run_length limit sched st : length (shard_run limit sched st).1 = length st.1.
Proof.
  revert st. induction sched as [|i sched IH]; intros st; simpl; [done|].
  change (foldl (shard_step limit) (shard_step limit st i) sched) with (shard_run limit sched (shard_step limit st i)).
  by rewrite IH, shard_step_length.
Qed.

Lemma shard_run_app limit s1 s2 st : shard_run limit (s1 ++ s2) st = shard_run limit s2 (shard_run limit s1 st).
Proof. apply foldl_app. Qed.

(** [q] is what remains of [p] after some of its effects, whatever their answers. *)
Inductive comes_from (p : M value) : M value -> Prop :=
| from_self : comes_from p p
| from_step {X} (e : eff X) k x : comes_from p (Vis e k) -> comes_from p (k x).

(** A task belongs to its shard. *)
Definition of_shard (i : nat) (t : shard_task) : Prop :=
  ∀ x, shards !! i = Some x ->
  match t with
  | Waiting => True
  | Inside p => comes_from (one i x) p
  | Finished r => comes_from (one i x) (Ret r)
  end.

Definition tasks_ok ts : Prop := ∀ i t, ts !! i = Some t -> of_shard i t.

Lemma tasks_ok_insert ts i t : tasks_ok ts -> of_shard i t -> tasks_ok (<[i := t]> ts).
Proof.
  intros Hok Ht j u Hj. apply list_lookup_insert_Some in Hj as [(-> & <- & _)|[_ Hj]]; [done|by apply Hok].
Qed.

Lemma shard_step_ok limit st i : tasks_ok st.1 -> tasks_ok (shard_step limit st i).1.
Proof.
  intros Hok. unfold StepExecutors.shard_step.
  destruct (st.1 !! i) as [[|p|r]|] eqn:Hi; [|destruct p as [r|X e k]|done..].
  - destruct (shards !! i) as [x|] eqn:Hx; [|done]. case_match; [|done].
    apply tasks_ok_insert; [done|]. intros y Hy. simplify_eq. constructor.
  - apply tasks_ok_insert; [done|]. intros x Hx. by apply (Hok _ _ Hi).
  - destruct (step e st.2) as [w' a]. apply tasks_ok_insert; [done|]. intros x Hx.
    apply (from_step _ e k), (Hok _ _ Hi _ Hx).
Qed.

Lemma shard_run_ok limit sched st : tasks_ok st.1 -> tasks_ok (shard_run limit sched st).1.
Proof. revert st. induction sched as [|i sched IH]; intros st Hl; simpl; [done|]. by apply IH, shard_step_ok. Qed.

(** ** Every interleaving can be completed *)

Definition finished (t : shard_task) : bool := match t with Finished _ => true | _ => false end.

(** A task inside the semaphore, given its turn often enough, finishes. *)
Lemma drive limit p : ∀ st i, st.1 !! i = Some (Inside p) ->
  ∃ sched w r, shard_run limit sched st = (<[i := Finished r]> st.1, w).
Proof.
  induction p as [r|X e k IH]; intros [ts w] i Hi; simpl in Hi.
  - exists [i], w, r. simpl. unfold StepExecutors.shard_step. simpl. by rewrite Hi.
  - destruct (step e w) as [w' x] eqn:Es.
    destruct (IH x (<[i := Inside (k x)]> ts, w') i) as (sched & w2 & r & Hs).
    { simpl. apply list_lookup_insert_eq. by eapply lookup_lt_Some. }
    exists (i :: sched), w2, r. simpl in *.
    replace (shard_step limit (ts, w) i) with (<[i := Inside (k x)]> ts, w').
    + rewrite Hs. by rewrite list_insert_insert_eq.
    + unfold StepExecutors.shard_step. simpl. by rewrite Hi, Es.
Qed.

Definition unfinished ts : nat := length (filter (λ t, Is_true (negb (finished t))) ts).

Lemma shards_left_insert ts i t r :
  ts !! i = Some t -> finished t = false -> (unfinished (<[i := Finished r]> ts) < unfinished ts)%nat.
Proof.
  intros Hi Ht. rewrite insert_take_drop by by eapply lookup_lt_Some.
  rewrite <-(take_drop_middle ts i t Hi) at 3. unfold unfinished.
  rewrite !filter_app, !filter_cons, !length_app. rewrite Ht. simpl.
  lia.
Qed.

(** While a task is not finished, some task can be driven to its end. *)
Lemma progress limit st :
  (0 < limit)%nat -> length st.1 = length shards -> unfinished st.1 <> 0%nat ->
  ∃ sched, (unfinished (shard_run limit sched st).1 < unfinished st.1)%nat.
Proof.
  intros Hl Hlen Hu. destruct (decide (count_inside st.1 = 0%nat)) as [Hc|Hc].
  - destruct (filter (λ t, Is_true (negb (finished t))) st.1) as [|t l] eqn:Ef;
      [unfold unfinished in Hu; by rewrite Ef in Hu|].
    assert (t ∈ filter (λ t, Is_true (negb (finished t))) st.1) as [Ht Hin]%list_elem_of_filter by (rewrite Ef; left).
    apply list_elem_of_lookup in Hin as [i Hi].
    destruct t as [|p|r]; [| |done].
    + destruct (lookup_lt_is_Some_2 shards i) as [x Hx]; [rewrite <-Hlen; by eapply lookup_lt_Some|].
      assert (Hs : shard_step limit st i = (<[i := Inside (one i x)]> st.1, st.2)).
      { unfold StepExecutors.shard_step. rewrite Hi, Hx. by rewrite (proj2 (Nat.ltb_lt _ _)) by lia. }
      destruct (drive limit (one i x) (shard_step limit st i) i) as (sched & w & r & Hr).
      { rewrite Hs. simpl. apply list_lookup_insert_eq. by eapply lookup_lt_Some. }
      exists (i :: sched). simpl in *. rewrite Hr, Hs. simpl. rewrite list_insert_insert_eq.
      by apply (shards_left_insert _ _ Waiting).
    + destruct (drive limit p st i Hi) as (sched & w & r & Hr). exists sched. rewrite Hr. simpl.
      by apply (shards_left_insert _ _ (Inside p)).
  - destruct (filter (λ t, inside t) st.1) as [|t l] eqn:Ef; [unfold count_inside in Hc; by rewrite Ef in Hc|].
    assert (t ∈ filter (λ t, inside t) st.1) as [Ht Hin]%list_elem_of_filter by (rewrite Ef; left).
    apply list_elem_of_lookup in Hin as [i Hi]. destruct t as [|p|r]; [done| |done].
    destruct (drive limit p st i Hi) as (sched & w & r & Hr). exists sched. rewrite Hr. simpl.
    by apply (shards_left_insert _ _ (Inside p)).
Qed.

Lemma can_finish limit n : ∀ st,
  (unfinished st.1 <= n)%nat -> (0 < limit)%nat -> length st.1 = length shards ->
  ∃ sched, unfinished (shard_run limit sched st).1 = 0%nat.
Proof.
  induction n as [|n IH]; intros st Hn Hl Hlen; [exists []; simpl; lia|].
  destruct (decide (unfinished st.1 = 0%nat)) as [H0|H0]; [by exists []|].
  destruct (progress limit st Hl Hlen H0) as [s1 Hs1].
  destruct (IH (shard_run limit s1 st)) as [s2 Hs2]; [lia|done|by rewrite shard_run_length|].
  exists (s1 ++ s2). by rewrite shard_run_app.
Qed.

Lemma gathered_finished ts : unfinished ts = 0%nat -> is_Some (gathered ts).
Proof.
  unfold unfinished, gathered. induction ts as [|t ts IH]; simpl; [by eexists|].
  rewrite filter_cons. destruct t as [|p|r]; simpl; try done.
  intros H. destruct (IH H) as [rs ->]. simpl. by eexists.
Qed.

Lemma gathered_of_shard ts rs :
  tasks_ok ts -> gathered ts = Some rs ->
  ∀ i x r, shards !! i = Some x -> rs !! i = Some r -> comes_from (one i x) (Ret r).
Proof.
  intros Hok Hg i x r Hx Hr. apply mapM_Some in Hg.
  destruct (Forall2_lookup_r _ _ _ _ _ Hg Hr) as (t & Ht & Hf).
  specialize (Hok _ _ Ht _ Hx). destruct t; simplify_eq. exact Hok.
Qed.

Lemma tasks_ok_start : tasks_ok (start_tasks shards).
Proof. intros i t [-> _]%lookup_replicate x _. done. Qed.

Lemma count_start : count_inside (start_tasks shards) = 0%nat.
Proof. unfold start_tasks. by induction (length shards). Qed.
End MapProofs.

(** ** Retries *)

Section SyncProofs.
Context {B : Type} (max_retries retry_delay : Z) {S : Services} {E : Env}.
Context (capability step_name : string) (input : dict).

Definition dispatch_value : value := VList [VStr capability; VStr step_name; VDict input].

(** A dispatch that is one call to the outside *)
Definition call_dispatch (c s : string) (i : dict) : M value := invoke "dispatch" (VList [VStr c; VStr s; VDict i]).

(** The answer the [k]-th dispatch gets, from the world [w] on: a pause is an effect too. *)
Definition nth_answer (w : world S) (k : nat) : exn + value :=
  invoke_answer (w_tick w + 2 * k) "dispatch" dispatch_value.

Definition fails_with (P : exn -> Prop) (r : exn + value) : Prop :=
  match r with inl e => is_exception e = true /\ P e | inr _ => False end.

Local Notation attempts := (sync_attempts (B := B) None max_retries retry_delay call_dispatch capability step_name input).

(** One round: the answer decides. *)
Lemma attempts_round (w : world S) left attempt :
  run (attempts (Datatypes.S left) attempt) w =
  let w1 := advance (w_redis w) (w_db w) [OInvoke "dispatch" dispatch_value] w in
  match nth_answer w 0 with
  | inr v => (w1, inr v)
  | inl e =>
      if is_exception e then
        run (attempts left (attempt + 1))
          (if attempt <? max_retries then (step (ESleep (pause retry_delay attempt)) w1).1 else w1)
      else (w1, inl e)
  end.
Proof.
  unfold nth_answer. rewrite Nat.mul_0_r, Nat.add_0_r. cbn [sync_attempts]. rewrite run_bind, run_except. simpl.
  destruct (invoke_answer _ _ _) as [e|v]; simpl; [|done].
  destruct (is_exception e); [|done]. simpl. by destruct (attempt <? max_retries).
Qed.

(** The dispatches of a run, in the log *)
Definition dispatched (w w' : world S) (n : nat) : Prop :=
  w_log w' = w_log w ++ replicate n (OInvoke "dispatch" dispatch_value).

Lemma log_round (w w1 w' : world S) n :
  w_log w1 = w_log w ++ [OInvoke "dispatch" dispatch_value] -> dispatched w1 w' n ->
  dispatched w w' (Datatypes.S n).
Proof. unfold dispatched. intros -> ->. by rewrite <-app_assoc. Qed.

(** [n] failures, then an answer: that many dispatches and that answer. *)
Lemma attempts_succeed n : ∀ (w : world S) left attempt v,
  attempt + Z.of_nat n <= max_retries -> (n < left)%nat ->
  (∀ k, (k < n)%nat -> fails_with (λ _, True) (nth_answer w k)) -> nth_answer w n = inr v ->
  ∃ w', run (attempts left attempt) w = (w', inr v) /\ dispatched w w' (Datatypes.S n).
Proof.
  induction n as [|n IH]; intros w left attempt v Hle Hlt Hf Hv; destruct left as [|left]; try lia.
  - rewrite attempts_round, Hv. eexists. by split.
  - rewrite attempts_round. pose proof (Hf 0%nat ltac:(lia)) as H0.
    destruct (nth_answer w 0) as [e|?]; [|done]. destruct H0 as [-> _].
    rewrite (proj2 (Z.ltb_lt attempt max_retries)) by lia. set (w1 := advance _ _ _ w). cbv beta iota zeta.
    assert (Hk : ∀ k, nth_answer (step (ESleep (pause retry_delay attempt)) w1).1 k = nth_answer w (Datatypes.S k)).
    { intros k. unfold nth_answer. simpl. f_equal. lia. }
    destruct (IH (step (ESleep (pause retry_delay attempt)) w1).1 left (attempt + 1) v) as (w' & Hr & Hl); [lia|lia| | |].
    + intros k Hkn. rewrite Hk. apply Hf. lia.
    + by rewrite Hk.
    + exists w'. split; [done|]. eapply log_round; [|exact Hl]. simpl. by rewrite app_nil_r.
Qed.

Lemma attempts_exhausted left : ∀ (w : world S) attempt,
  attempt + Z.of_nat left = max_retries + 1 ->
  (∀ k, (k < left)%nat -> fails_with (λ _, True) (nth_answer w k)) ->
  ∃ w', run (attempts left attempt) w = (w', inl (Exn RuntimeError
    ("SyncStepExecutor: step=" +:+ step_name +:+ " failed after " +:+ dec_of_Z (max_retries + 1) +:+ " attempts")))
    /\ dispatched w w' left.
Proof.
  induction left as [|left IH]; intros w attempt Hle Hf.
  - exists w. split; [done|]. unfold dispatched. simpl. by rewrite app_nil_r.
  - rewrite attempts_round. pose proof (Hf 0%nat ltac:(lia)) as H0.
    destruct (nth_answer w 0) as [e|?]; [|done]. destruct H0 as [-> _]. cbv beta iota zeta.
    set (w1 := advance _ _ _ w). set (w2 := if attempt <? max_retries then _ else _).
    assert (Hlog : w_log w2 = w_log w ++ [OInvoke "dispatch" dispatch_value]).
    { subst w2. destruct (attempt <? max_retries); simpl; by rewrite ?app_nil_r. }
    destruct (IH w2 (attempt + 1)) as (w' & Hr & Hl); [lia| |].
    + intros k Hk. subst w2. rewrite (proj2 (Z.ltb_lt attempt max_retries)) by lia.
      replace (nth_answer _ k) with (nth_answer w (Datatypes.S k)) by (unfold nth_answer; simpl; f_equal; lia).
      apply Hf. lia.
    + exists w'. split; [done|]. by eapply log_round.
Qed.
End SyncProofs.

(** * Properties *)

(** A synchronous step, without a queue manager, whose first [n] dispatches fail and whose
    next one answers, within the retries, returns that answer after exactly [n + 1]
    dispatches; when all [max_retries + 1] fail it raises after exactly that many. *)
Theorem sync_step_retries {B S E} max_retries retry_delay capability step_name input (w : world S) :
  0 <= max_retries ->
  let answer := nth_answer (E := E) capability step_name input w in
  let r := run (E := E) (sync_execute (B := B) None max_retries retry_delay call_dispatch capability step_name input) w in
  (∀ n v, Z.of_nat n <= max_retries -> (∀ k, (k < n)%nat -> fails_with (λ _, True) (answer k)) ->
    answer n = inr v -> r.2 = inr v /\ dispatched capability step_name input w r.1 (Datatypes.S n)) /\
  ((∀ k, Z.of_nat k <= max_retries -> fails_with (λ _, True) (answer k)) ->
    (∃ msg, r.2 = inl (Exn RuntimeError msg)) /\
    dispatched capability step_name input w r.1 (Z.to_nat (max_retries + 1))).
Proof.
  intros Hm answer r. subst r. unfold sync_execute. split.
  - intros n v Hn Hf Hv.
    destruct (attempts_succeed (B := B) max_retries retry_delay capability step_name input n w
                (Z.to_nat (max_retries + 1)) 0 v) as (w' & -> & Hl); [lia|lia|done|done|]. by split.
  - intros Hf. destruct (attempts_exhausted (B := B) max_retries retry_delay capability step_name input
                (Z.to_nat (max_retries + 1)) w 0) as (w' & -> & Hl); [lia|intros k Hk; apply Hf; lia|].
    split; [by eexists|done].
Qed.

(** Scatter-gather.  Under every interleaving of the shards' effects with the limit
    positive: never more than the limit of dispatches are open, the call can always
    be completed, and when it is, result [i] is an outcome of shard [i]'s own
    dispatch; the call answers with the results in shard order when no shard failed
    and raises otherwise. *)
Theorem map_step_gathers {S E} dispatch capability step_name input shards maxp conc sched (w : world S) :
  let limit := map_limit maxp conc in
  let execute := map_execute dispatch capability step_name input shards (S := S) (E := E) maxp conc in
  0 < limit ->
  let st := shard_run dispatch capability step_name input shards (E := E) (Z.to_nat limit) sched (start_tasks shards, w) in
  Z.of_nat (count_inside st.1) <= limit /\
  (∃ more r, (execute (sched ++ more) w).2 = Some r) /\
  (∀ r, (execute sched w).2 = Some r -> ∃ rs,
     (shards <> [] -> length rs = length shards) /\
     (∀ i x ri, shards !! i = Some x -> rs !! i = Some ri ->
        comes_from (one dispatch capability step_name input i x) (Ret ri)) /\
     r = collect step_name rs).
Proof.
  intros limit execute Hl st.
  assert (Hst : tasks_ok dispatch capability step_name input shards st.1)
    by (apply shard_run_ok, tasks_ok_start).
  assert (Hlen : length st.1 = length shards)
    by (unfold st; rewrite shard_run_length; simpl; apply length_replicate).
  split_and!.
  - assert (count_inside st.1 <= Z.to_nat limit)%nat; [|lia].
    apply shard_run_limit. simpl. rewrite count_start. lia.
  - destruct (can_finish dispatch capability step_name input shards (Z.to_nat limit) (unfinished st.1) st) as [more Hm];
      [lia|lia|done|].
    exists more. unfold execute, map_execute. destruct shards as [|x xs]; [by eexists|].
    rewrite (proj2 (Z.ltb_ge (map_limit maxp conc) 0)) by lia. rewrite shard_run_app. cbn [snd].
    destruct (gathered_finished _ Hm) as [rs Hrs]. unfold st in Hrs. fold limit. rewrite Hrs. by eexists.
  - intros r. unfold execute, map_execute. destruct shards as [|x xs]; [intros [= <-]; by exists []|].
    rewrite (proj2 (Z.ltb_ge (map_limit maxp conc) 0)) by lia. cbn [snd]. fold limit. fold st.
    destruct (gathered st.1) as [rs|] eqn:Hg; [|done]. intros [= <-]. exists rs. split_and!; [|by eapply gathered_of_shard|done].
    intros _. apply mapM_Some, Forall2_length in Hg. by rewrite <-Hg, Hlen.
Qed.

(** ** Waiting for a result *)

Section AsyncProofs.
Context {E : Env} (poll_interval : Z) (timeout_text : string).
Implicit Types (w : world doc_services).

(** Nobody publishes on the channel: a wait gives nothing or times out. *)
Definition silent (channel : string) : Prop :=
  ∀ n, match invoke_answer n "get_message" (VStr channel) with
       | inr (VDict _) => False
       | _ => True
       end.

Lemma silent_wait channel w :
  silent channel -> 0 <= poll_interval ->
  match run (get_message poll_interval channel) w with
  | (w', inr b) => b = false /\ w_now w + poll_interval <= w_now w'
  | (_, inl _) => True
  end.
Proof.
  intros Hs Hp. unfold get_message. rewrite run_bind, run_attempt_. simpl.
  specialize (Hs (w_tick w)). destruct (invoke_answer _ _ _) as [[[] msg|]|[]]; simpl; try done.
  all: split; [done|]; lia.
Qed.

Lemma wait_result_ends n : ∀ result_key channel step_name deadline w,
  silent channel -> 0 < poll_interval -> deadline - w_now w <= Z.of_nat n * poll_interval ->
  (run (wait_result poll_interval timeout_text (Datatypes.S n) result_key channel step_name deadline) w).2 <> inr None.
Proof.
  induction n as [|n IH]; intros key channel step_name deadline w Hs Hp Hd.
  all: cbn [wait_result]; rewrite run_bind, run_time_ms; cbv beta iota.
  - rewrite (proj2 (Z.leb_le deadline (w_now w))) by lia. done.
  - destruct (Z.leb_spec deadline (w_now w)); [done|].
    set (w1 := after _ _ w). assert (w_now w <= w_now w1) by (simpl; lia).
    rewrite run_bind. pose proof (run_time (read_result key) w1) as Ht.
    destruct (run (read_result key) w1) as [w2 [e|[v|]]]; [done..|]. simpl in Ht.
    rewrite run_bind. pose proof (silent_wait channel w2 Hs ltac:(lia)) as Hw.
    destruct (run (get_message poll_interval channel) w2) as [w3 [e|b]]; [done|].
    destruct Hw as [-> Hn]. apply IH; [done..|]. simpl in *. nia.
Qed.
End AsyncProofs.

(** An asynchronous step ends: with nobody publishing, one round per poll interval of the
    timeout and one more are enough for the wait to return a stored result or raise. *)
Theorem async_step_ends (E : Env) poll timeout text fuel key channel step_name (w : world doc_services) :
  silent channel -> 0 < poll -> timeout <= Z.of_nat fuel * poll ->
  (run (wait_result poll text (Datatypes.S fuel) key channel step_name (w_now w + timeout)) w).2 <> inr None.
Proof. intros Hs Hp Hf. apply wait_result_ends; [done..|lia]. Qed.

Example async_step_ends_example :
  (run (E := calm) (wait_result 5000 "300.0" 61 "k" "c" "s" (0 + 300000)) (world0 0)).2 <> inr None.
Proof. apply (async_step_ends calm 5000 300000 "300.0" 60 "k" "c" "s" (world0 0)); [by intros n|lia|lia]. Defined.

(** A dispatch that worked is repeated when the call that restores the concurrency
    fails: both are inside the same [try]. *)
Definition recovery_down : Env := {|
  delay := λ _, 0%N; redis_fault := λ n, if (n =? 1)%nat then Some (Exn ConnectionError "down") else None;
  db_fault := λ _, None; uuid_at := λ _, ""; scan_slice := λ _ _ _ ks, (0, ks);
  http_answer := λ _ _, inr {| resp_status := 200; resp_body := "" |}; invoke_answer := λ _ _ v, inr v |}.

Definition a_queue_manager : QueueManager unit :=
  {| qm_cb := None; qm_default_depth := 100; qm_default_mc := 4; qm_ttl := 60; qm_scan_limit := 10;
     qm_decode_responses := true |}.

Example sync_step_repeats :
  let r := run (E := recovery_down) (sync_execute (Some a_queue_manager) 1 1000 call_dispatch "c" "s" []) (world0 0) in
  r.2 = inr (dispatch_value "c" "s" []) /\ dispatched "c" "s" [] (world0 0) r.1 2.
Proof. vm_compute. split; reflexivity. Qed.

Example sync_step_retries_example :
  (run (E := calm) (sync_execute (B := unit) None 2 1000 call_dispatch "c" "s" []) (world0 0)).2 =
  inr (dispatch_value "c" "s" []).
Proof.
  apply (sync_step_retries (E := calm) 2 1000 "c" "s" [] (world0 0)) with (n := 0%nat); [lia|lia|lia|reflexivity].
Defined.

Example map_step_gathers_example :
  ∃ more r, (map_execute call_dispatch "c" "s" [] [VInt 1; VInt 2; VInt 3] (E := calm) 2 0 ([0; 1; 2]%nat ++ more) (world0 0)).2 = Some r.
Proof.
  apply (map_step_gathers (E := calm) call_dispatch "c" "s" [] [VInt 1; VInt 2; VInt 3] 2 0 [0; 1; 2]%nat (world0 0)).
  reflexivity.
Defined.
