(* ===== verification/Alerts.v ===== *)
(** * Alerts

    [src/monitoring/alerts.py] (routing, formatting and notification) and
    [src/api/routes/alerts.py] (history, silences and acknowledgements in Redis).
    Validation of a payload is pydantic's, a parameter; so are the environment
    variables.  A date and time is its milliseconds. *)

From Stdlib Require Import Ascii.
From stdpp Require Import base gmap strings list sorting.
From S2P Require Import Prelude PyValue Json Datetime Redis TaskModel Tables Effects ErrorHandling Registry.

Open Scope Z_scope.

Notation dict := (list (string * value)).

(** ** Data *)

Inductive AlertSeverity := CRITICAL | WARNING | INFO.
Inductive AlertStatus := FIRING | RESOLVED.
Inductive AlertChannel := INFOFLOW | EMAIL | WEBHOOK | SLACK | PAGERDUTY.

#[global] Instance AlertSeverity_eq_dec : EqDecision AlertSeverity.
Proof. solve_decision. Defined.
#[global] Instance AlertStatus_eq_dec : EqDecision AlertStatus.
Proof. solve_decision. Defined.
#[global] Instance AlertChannel_eq_dec : EqDecision AlertChannel.
Proof. solve_decision. Defined.

Definition severity_value (s : AlertSeverity) : string :=
  match s with CRITICAL => "critical" | WARNING => "warning" | INFO => "info" end.
Definition status_value (s : AlertStatus) : string :=
  match s with FIRING => "firing" | RESOLVED => "resolved" end.
Definition channel_value (c : AlertChannel) : string :=
  match c with
  | INFOFLOW => "infoflow" | EMAIL => "email" | WEBHOOK => "webhook"
  | SLACK => "slack" | PAGERDUTY => "pagerduty"
  end.

Record AlertLabel := {
  alertname : string;
  severity : AlertSeverity;
  service : option string;
  label_capability : option string;
  label_tenant_id : option string;
  instance : option string;
  extra : list (string * string)
}.

Record AlertAnnotation := {
  summary : string;
  description : string;
  runbook_url : option string
}.

Record Alert := {
  alert_status : AlertStatus;
  labels : AlertLabel;
  annotations : AlertAnnotation;
  starts_at : Z;
  ends_at : option Z;
  generator_url : option string;
  fingerprint : string
}.

Definition opt_text (o : option string) : value := match o with Some s => VStr s | None => VNone end.

(** ** AlertRouter *)

Record AlertRouter := {
  channels : list (AlertChannel * value);
  routing_rules : list (dict * AlertChannel)
}.

Definition AlertRouter_init : AlertRouter := {| channels := []; routing_rules := [] |}.

Fixpoint channel_set (c : AlertChannel) (v : value) (l : list (AlertChannel * value)) : list (AlertChannel * value) :=
  match l with
  | [] => [(c, v)]
  | (c', v') :: l' => if decide (c' = c) then (c, v) :: l' else (c', v') :: channel_set c v l'
  end.

Definition add_channel (c : AlertChannel) (config : value) (r : AlertRouter) : AlertRouter :=
  {| channels := channel_set c config (channels r); routing_rules := routing_rules r |}.

Definition add_route (m : dict) (c : AlertChannel) (r : AlertRouter) : AlertRouter :=
  {| channels := channels r; routing_rules := routing_rules r ++ [(m, c)] |}.

(** [getattr(labels, key, None)], for the fields of the model *)
Definition label_attr (l : AlertLabel) (key : string) : value :=
  if decide (key = "alertname") then VStr (alertname l)
  else if decide (key = "severity") then VStr (severity_value (severity l))
  else if decide (key = "service") then opt_text (service l)
  else if decide (key = "capability") then opt_text (label_capability l)
  else if decide (key = "tenant_id") then opt_text (label_tenant_id l)
  else if decide (key = "instance") then opt_text (instance l)
  else if decide (key = "extra") then VDict (map (λ kv, (kv.1, VStr kv.2)) (extra l))
  else VNone.

Definition alert_value (l : AlertLabel) (key : string) : value :=
  match label_attr l key with
  | VNone => opt_text (dict_get key (extra l))
  | v => v
  end.

Definition matches (a : Alert) (m : dict) : bool :=
  forallb (λ kv, py_eq (alert_value (labels a) kv.1) kv.2) m.

(** Routing by severity *)
Definition default_channels (s : AlertSeverity) : list AlertChannel :=
  match s with
  | CRITICAL => [INFOFLOW; WEBHOOK]
  | WARNING => [INFOFLOW]
  | INFO => [WEBHOOK]
  end.

Definition apply_rule (a : Alert) (cs : list AlertChannel) (rule : dict * AlertChannel) : list AlertChannel :=
  if matches a rule.1 then (if decide (rule.2 ∈ cs) then cs else cs ++ [rule.2]) else cs.

Definition route_alert (r : AlertRouter) (a : Alert) : list AlertChannel :=
  foldl (apply_rule a) (default_channels (severity (labels a))) (routing_rules r).

(** ** AlertFormatter *)

Definition nl : string := String (ascii_of_nat 10) "".

(** [o or dflt] of an optional text *)
Definition or_text (o : option string) (dflt : string) : string :=
  match o with Some (String c s) => String c s | _ => dflt end.

(** [strftime('%H:%M:%S')] *)
Definition time_str (ms : Z) : string :=
  let s := ms / 1000 mod 86400 in
  pad2 (s / 3600) +:+ ":" +:+ pad2 (s / 60 mod 60) +:+ ":" +:+ pad2 (s mod 60).

Definition severity_emoji (s : AlertSeverity) : string :=
  match s with CRITICAL => "🔴" | WARNING => "🟡" | INFO => "🔵" end.

Definition mentions (l : AlertLabel) : list string :=
  if decide (severity l = CRITICAL) then
    if decide (service l = Some "task-api") then ["lishihu"; "liuqiwen"]
    else if decide (service l = Some "ops-api") then ["zhbxlm"; "lishihu"]
    else []
  else [].

Definition infoflow_message (a : Alert) : string :=
  let l := labels a in
  severity_emoji (severity l) +:+ " **告警" +:+
    (if decide (alert_status a = FIRING) then "触发" else "恢复") +:+ "**: " +:+ alertname l +:+ nl +:+ nl +:+
  "**服务**: " +:+ or_text (service l) "unknown" +:+ nl +:+
  "**严重程度**: " +:+ severity_value (severity l) +:+ nl +:+
  "**时间**: " +:+ datetime_str (starts_at a) +:+ nl +:+ nl +:+
  "**摘要**: " +:+ summary (annotations a) +:+ nl +:+
  "**详情**: " +:+ description (annotations a) +:+ nl +:+
  match runbook_url (annotations a) with
  | Some (String c s) => nl +:+ "**处理手册**: " +:+ String c s
  | _ => ""
  end +:+
  match alert_status a, ends_at a with
  | RESOLVED, Some t => nl +:+ nl +:+ "✅ 告警已于 " +:+ time_str t +:+ " 恢复"
  | _, _ => ""
  end.

Definition format_for_infoflow (a : Alert) : dict :=
  [("message", VStr (infoflow_message a)); ("mentions", VList (map VStr (mentions (labels a))));
   ("severity", VStr (severity_value (severity (labels a))))].

(** [json.dumps(labels.model_dump(), indent=2, default=str)] *)
Definition indented (pad : string) (members : list string) : string :=
  match members with
  | [] => "{}"
  | _ => "{" +:+ nl +:+ String.concat ("," +:+ nl) (map (λ m, pad +:+ "  " +:+ m) members) +:+ nl +:+ pad +:+ "}"
  end.

Definition member_text (k v : string) : string := print_str k +:+ ": " +:+ v.

Definition labels_json (l : AlertLabel) : string :=
  indented ""
    [member_text "alertname" (print_str (alertname l));
     member_text "severity" (print_str (severity_value (severity l)));
     member_text "service" (json_dumps (opt_text (service l)));
     member_text "capability" (json_dumps (opt_text (label_capability l)));
     member_text "tenant_id" (json_dumps (opt_text (label_tenant_id l)));
     member_text "instance" (json_dumps (opt_text (instance l)));
     member_text "extra" (indented "  " (map (λ kv, member_text kv.1 (print_str kv.2)) (extra l)))].

Definition format_for_email (a : Alert) : dict :=
  let l := labels a in
  [("subject", VStr ("[" +:+ str_upper (status_value (alert_status a)) +:+ "] " +:+
      str_upper (severity_value (severity l)) +:+ ": " +:+ alertname l));
   ("body", VStr (nl +:+ "Alert: " +:+ alertname l +:+ nl +:+
      "Status: " +:+ status_value (alert_status a) +:+ nl +:+
      "Severity: " +:+ severity_value (severity l) +:+ nl +:+
      "Service: " +:+ or_text (service l) "unknown" +:+ nl +:+
      "Time: " +:+ datetime_str (starts_at a) +:+ " UTC" +:+ nl +:+ nl +:+
      "Summary: " +:+ summary (annotations a) +:+ nl +:+
      "Description: " +:+ description (annotations a) +:+ nl +:+ nl +:+
      "Labels:" +:+ nl +:+ labels_json l +:+ nl +:+ nl +:+
      "Generator URL: " +:+ or_text (generator_url a) "N/A" +:+ nl +:+
      "Runbook URL: " +:+ or_text (runbook_url (annotations a)) "N/A" +:+ nl))].

(** ** AlertNotifier *)

(** A member of the payload: a JSON value or a [datetime] *)
Inductive field := FValue (v : value) | FDatetime (ms : Z).

(** [json.dumps] as [httpx] calls it for [json=payload]: a [datetime] raises. *)
Fixpoint encode_fields (fs : list (string * field)) : exn + dict :=
  match fs with
  | [] => inr []
  | (k, FValue v) :: fs' => match encode_fields fs' with inr d => inr ((k, v) :: d) | inl e => inl e end
  | (_, FDatetime _) :: _ => inl (Exn TypeError "Object of type datetime is not JSON serializable")
  end.

Definition webhook_payload (a : Alert) : list (string * field) :=
  [("alertname", FValue (VStr (alertname (labels a))));
   ("severity", FValue (VStr (severity_value (severity (labels a)))));
   ("service", FValue (opt_text (service (labels a))));
   ("status", FValue (VStr (status_value (alert_status a))));
   ("summary", FValue (VStr (summary (annotations a))));
   ("description", FValue (VStr (description (annotations a))));
   ("starts_at", FDatetime (starts_at a));
   ("fingerprint", FValue (VStr (fingerprint a)))].

Section Notifier.
Context (getenv : string -> string) (router : AlertRouter).

Definition post_json (url : string) (fs : list (string * field)) : M http_response :=
  let* body := of_sum (encode_fields fs) in
  http {| req_method := "POST"; req_url := url; req_headers := [("Content-Type", "application/json")];
          req_body := json_dumps (VDict body) |}.

Definition send_to_channel (c : AlertChannel) (a : Alert) : M bool :=
  match c with
  | WEBHOOK =>
      if decide (getenv "ALERT_WEBHOOK_URL" = "") then ret false else
      except
        (let* resp := post_json (getenv "ALERT_WEBHOOK_URL") (webhook_payload a) in
         do* raise_for_status resp in
         ret true)
        (λ _, ret false)
  | INFOFLOW => ret true
  | EMAIL => if decide (getenv "ALERT_EMAIL_TO" = "") then ret false else ret true
  | _ => ret false
  end.

Definition notify (a : Alert) : M (list (AlertChannel * bool)) :=
  fold_m (route_alert router a) (λ results c,
    let* success := except (send_to_channel c a) (λ _, ret false) in
    ret (results ++ [(c, success)])) [].
End Notifier.

(** ** The module's router and the webhook *)

Definition default_router : AlertRouter :=
  add_route [("service", VStr "ops-api"); ("severity", VStr "critical")] INFOFLOW
    (add_route [("service", VStr "task-api"); ("severity", VStr "critical")] INFOFLOW AlertRouter_init).

(** [_alert_router]: created on the first call *)
Definition get_alert_router (g : option AlertRouter) : AlertRouter := default default_router g.

Definition results_value (rs : list (AlertChannel * bool)) : value :=
  VDict (map (λ r, (channel_value r.1, VBool r.2)) rs).

Section Webhook.
Context (getenv : string -> string) (validate : dict -> exn + list Alert).

Definition process_alertmanager_webhook (g : option AlertRouter) (payload : dict) : M dict :=
  except
    (let* alerts := of_sum (validate payload) in
     let* results := fold_m alerts (λ results a,
       let* r := notify getenv (get_alert_router g) a in
       ret (dict_set (fingerprint a) (results_value r) results)) [] in
     ret [("status", VStr "success"); ("alerts_processed", VInt (Z.of_nat (length alerts)));
          ("results", VDict results)])
    (λ e, ret [("status", VStr "error"); ("error", VStr (exn_str e))]).

(** ** Routes *)

Definition ALERT_HISTORY_KEY : string := "alerts:history".
Definition ALERT_SILENCE_KEY : string := "alerts:silences".
Definition ALERT_ACK_KEY (fingerprint : string) : string := "alerts:ack:" +:+ fingerprint.
Definition ALERT_HISTORY_MAXLEN : Z := 1000.
Definition ALERT_ACK_TTL : Z := 86400.

(** [v.get(k, dflt)] where [v] may not be a dictionary *)
Definition py_get (v : value) (k : string) (dflt : value) : exn + value :=
  match v with
  | VDict d => inr (dict_get_or k dflt d)
  | _ => inl (Exn AttributeError "object has no attribute 'get'")
  end.

Definition history_entry (alert : value) (received_at : Z) : exn + value :=
  match py_get alert "fingerprint" (VStr ""), py_get alert "labels" (VDict []), py_get alert "status" (VStr "firing"),
        py_get alert "annotations" (VDict []) with
  | inr fp, inr labels, inr status, inr annotations =>
      match py_get labels "alertname" (VStr ""), py_get labels "severity" (VStr ""),
            py_get labels "service" (VStr ""), py_get annotations "summary" (VStr "") with
      | inr name, inr sev, inr svc, inr summ =>
          inr (VDict [("fingerprint", fp); ("alertname", name); ("severity", sev); ("service", svc);
                      ("status", status); ("summary", summ); ("received_at", VFloat received_at)])
      | inl e, _, _, _ | _, inl e, _, _ | _, _, inl e, _ | _, _, _, inl e => inl e
      end
  | inl e, _, _, _ | _, inl e, _, _ | _, _, inl e, _ | _, _, _, inl e => inl e
  end.

(** Add, then keep the newest [ALERT_HISTORY_MAXLEN]; a failure is logged. *)
Definition persist_entry (entry : value) : M unit :=
  except
    (let* ts := time_ms in
     do* redis ALERT_HISTORY_KEY (ZADD ts (json_dumps entry)) in
     do* redis ALERT_HISTORY_KEY (ZREMRANGEBYRANK 0 (- ALERT_HISTORY_MAXLEN - 1)) in
     ret tt)
    (λ _, ret tt).

Definition persist_alert (alert : value) : M unit :=
  let* now := time_ms in
  let* entry := of_sum (history_entry alert now) in
  persist_entry entry.

(** [payload.get("alerts", [])], iterated *)
Definition payload_alerts (payload : dict) : exn + list value :=
  match dict_get_or "alerts" (VList []) payload with
  | VList l => inr l
  | _ => inl (Exn TypeError "object is not iterable")
  end.

(** The body is a JSON object.  The [HTTPException] raised for an error result is
    itself caught and wrapped. *)
Definition alertmanager_webhook (has_redis : bool) (g : option AlertRouter) (payload : dict) : M dict :=
  except
    (let* result := process_alertmanager_webhook g payload in
     do* (if has_redis then
            let* alerts := of_sum (payload_alerts payload) in for_each alerts persist_alert
          else ret tt) in
     if py_eq (dict_get_or "status" VNone result) (VStr "error")
     then raise (HTTPException 400 (match dict_get_or "error" VNone result with VStr s => s | _ => "" end))
     else ret result)
    (λ e, raise (HTTPException 400 (exn_str e))).
End Webhook.

Definition get_alert_status (has_redis : bool) : M dict :=
  let* stats := (if has_redis then
      except
        (let* total := redis ALERT_HISTORY_KEY ZCARD in
         let* recent := except (let* l := redis ALERT_HISTORY_KEY (ZREVRANGE 0 0) in ret (Some l)) (λ _, ret None) in
         ret (VInt total, match recent with Some ((_, ts) :: _) => VFloat ts | _ => VNone end))
        (λ _, ret (VInt 0, VNone))
    else ret (VInt 0, VNone)) in
  ret [("status", VStr "operational"); ("channels", VList [VStr "infoflow"; VStr "webhook"]);
       ("total_alerts_stored", stats.1); ("last_alert_ts", stats.2); ("history_ttl_days", VInt 7)].

(** [if filter and entry.get(k) != filter.value] *)
Definition passes (k : string) (wanted : option string) (entry : dict) : bool :=
  match wanted with
  | Some (String c s) => py_eq (dict_get_or k VNone entry) (VStr (String c s))
  | _ => true
  end.

Definition listed (status severity service : option string) (raw : string) : option value :=
  match json_loads raw with
  | Some (VDict entry) =>
      if passes "status" status entry && passes "severity" severity entry && passes "service" service entry
      then Some (VDict entry) else None
  | Some v =>
      match status, or_text severity "", or_text service "" with
      | None, "", "" => Some v
      | _, _, _ => None
      end
  | None => None
  end.

Definition list_alerts (has_redis : bool) (status severity service : option string) (limit : Z) : M (list value) :=
  if negb has_redis then ret [] else
  except
    (let* raw_entries := redis ALERT_HISTORY_KEY (ZREVRANGE 0 (limit - 1)) in
     ret (omap (λ e, listed status severity service e.1) raw_entries))
    (λ _, ret []).

Definition silence_record (silence_id : string) (alertname severity service : option string)
    (duration_minutes created expires : Z) : value :=
  VDict [("silence_id", VStr silence_id); ("alertname", opt_text alertname); ("severity", opt_text severity);
         ("service", opt_text service); ("duration_minutes", VInt duration_minutes);
         ("created_at", VFloat created); ("expires_at", VFloat (expires + duration_minutes * 60000))].

Definition create_silence (has_redis : bool) (alertname severity service : option string)
    (duration_minutes : Z) : M dict :=
  let* id := uuid4 in
  let silence_id := str_take 8 id in
  let* created := time_ms in
  let* expires := time_ms in
  let silence := silence_record silence_id alertname severity service duration_minutes created expires in
  do* (if has_redis then
         except
           (do* redis ALERT_SILENCE_KEY (HSET [(silence_id, json_dumps silence)]) in
            do* redis ALERT_SILENCE_KEY (EXPIRE (duration_minutes * 60 + 3600)) in
            ret tt)
           (λ _, ret tt)
       else ret tt) in
  ret [("status", VStr "success");
       ("message", VStr ("Silence created for " +:+ dec_of_Z duration_minutes +:+ " minutes"));
       ("silence_id", VStr silence_id); ("silence", silence)].

Definition delete_silence (has_redis : bool) (silence_id : string) : M dict :=
  let* deleted := (if has_redis then
      except (let* n := redis ALERT_SILENCE_KEY (HDEL silence_id) in ret (negb (n =? 0))) (λ _, ret false)
    else ret false) in
  if negb deleted then raise (HTTPException 404 ("Silence " +:+ silence_id +:+ " not found"))
  else ret [("status", VStr "success"); ("message", VStr ("Silence " +:+ silence_id +:+ " deleted"))].

Definition acknowledge_alert (has_redis : bool) (fingerprint : string) : M dict :=
  let* now := time_ms in
  let ack_data := json_dumps (VDict [("fingerprint", VStr fingerprint); ("acknowledged_at", VFloat now)]) in
  do* (if has_redis then
         except (do* redis (ALERT_ACK_KEY fingerprint) (SET ack_data (Some (ALERT_ACK_TTL * 1000)) false) in ret tt)
                (λ _, ret tt)
       else ret tt) in
  let* now := time_ms in
  ret [("status", VStr "success"); ("message", VStr ("Alert " +:+ fingerprint +:+ " acknowledged"));
       ("acknowledged_at", VFloat now)].

(** * Properties *)

(** ** Routing *)

Lemma elem_of_apply_rule a cs m c c' :
  c' ∈ apply_rule a cs (m, c) <-> c' ∈ cs \/ c' = c /\ matches a m = true.
Proof.
  unfold apply_rule. simpl. destruct (matches a m); [case_decide|].
  - naive_solver.
  - rewrite elem_of_app, list_elem_of_singleton. naive_solver.
  - naive_solver.
Qed.

Lemma NoDup_apply_rule a cs rule : NoDup cs -> NoDup (apply_rule a cs rule).
Proof.
  intros Hcs. unfold apply_rule. destruct (matches a _); [|done]. case_decide as Hn; [done|].
  apply NoDup_app. split_and!; [done| |apply NoDup_singleton].
  intros x Hx ->%list_elem_of_singleton. done.
Qed.

Lemma elem_of_rules a rules c : ∀ cs,
  c ∈ foldl (apply_rule a) cs rules <-> c ∈ cs \/ ∃ m, (m, c) ∈ rules /\ matches a m = true.
Proof.
  induction rules as [|[m0 c0] rules IH]; intros cs; simpl.
  - split; [by left|]. by intros [?|(m & []%not_elem_of_nil & _)].
  - rewrite IH, elem_of_apply_rule. setoid_rewrite elem_of_cons. naive_solver.
Qed.

Lemma NoDup_rules a rules : ∀ cs, NoDup cs -> NoDup (foldl (apply_rule a) cs rules).
Proof. induction rules as [|r rules IH]; intros cs Hcs; simpl; [done|]. by apply IH, NoDup_apply_rule. Qed.

(** An alert goes to the channels of its severity and to those of the rules it matches,
    to each once. *)
Theorem route_alert_spec r a :
  NoDup (route_alert r a) /\
  ∀ c, c ∈ route_alert r a <->
    c ∈ default_channels (severity (labels a)) \/
    ∃ m, (m, c) ∈ routing_rules r /\ matches a m = true.
Proof.
  split; [|intros c; apply elem_of_rules].
  apply NoDup_rules. apply (bool_decide_unpack _). by destruct (severity (labels a)).
Qed.

(** The two rules the module installs never change a decision: a critical alert goes to
    Infoflow anyway. *)
Theorem default_routes_redundant a : route_alert default_router a = route_alert AlertRouter_init a.
Proof.
  unfold route_alert, default_router, AlertRouter_init, add_route. simpl.
  assert (Hno : ∀ s cs, severity (labels a) <> CRITICAL ->
    apply_rule a cs ([("service", VStr s); ("severity", VStr "critical")], INFOFLOW) = cs).
  { intros s cs Hs. unfold apply_rule, matches. cbn [forallb fst snd].
    change (alert_value (labels a) "severity") with (VStr (severity_value (severity (labels a)))).
    destruct (severity (labels a)); [done|..]; cbn; by rewrite andb_false_r. }
  destruct (severity (labels a)) eqn:Es.
  - assert (Hin : ∀ m, apply_rule a [INFOFLOW; WEBHOOK] (m, INFOFLOW) = [INFOFLOW; WEBHOOK]);
      [|by rewrite !Hin].
    intros m. unfold apply_rule. by destruct (matches a _).
  - by rewrite !Hno by done.
  - by rewrite !Hno by done.
Qed.

(** ** Notification *)

(** What a channel answers *)
Definition delivered (getenv : string -> string) (c : AlertChannel) : bool :=
  match c with
  | INFOFLOW => true
  | EMAIL => negb (bool_decide (getenv "ALERT_EMAIL_TO" = ""))
  | _ => false
  end.

Lemma run_send_to_channel {S : Services} {E : Env} getenv c a (w : world S) :
  run (send_to_channel getenv c a) w = (w, inr (delivered getenv c)).
Proof.
  destruct c; simpl; try done.
  - case_bool_decide; case_decide; done.
  - by case_decide.
Qed.

Lemma run_notify_loop {S : Services} {E : Env} getenv a cs : ∀ acc (w : world S),
  run (fold_m cs (λ results c,
    let* success := except (send_to_channel getenv c a) (λ _, ret false) in
    ret (results ++ [(c, success)])) acc) w =
  (w, inr (acc ++ map (λ c, (c, delivered getenv c)) cs)).
Proof.
  induction cs as [|c cs IH]; intros acc w; cbn [fold_m map].
  - rewrite app_nil_r. done.
  - rewrite !run_bind, run_except, run_send_to_channel. cbv beta iota.
    change (run (ret (acc ++ [(c, delivered getenv c)])) w) with (w, @inr exn _ (acc ++ [(c, delivered getenv c)])).
    cbv beta iota. rewrite IH, <-app_assoc. done.
Qed.

(** No alert leaves the process.  Notification performs no effect at all: the webhook's
    payload holds a [datetime], which the JSON encoder refuses before anything is
    sent, so that channel answers false for every alert whatever the URL; the other
    channels only log.  In particular silences and acknowledgements, which are in
    Redis, are never consulted. *)
Theorem notify_sends_nothing (S : Services) (E : Env) getenv router a (w : world S) :
  run (notify getenv router a) w =
  (w, inr (map (λ c, (c, delivered getenv c)) (route_alert router a))).
Proof. unfold notify. by rewrite run_notify_loop. Qed.

(** ** History *)

(** The newest [ALERT_HISTORY_MAXLEN] members *)
Definition trim (z : gmap string Z) : gmap string Z :=
  delete_all ((take (size z - 1000) (zsorted z)).*1) z.

Lemma rank_slice_trim {A} (l : list A) : rank_slice 0 (- ALERT_HISTORY_MAXLEN - 1) l = take (length l - 1000) l.
Proof.
  unfold rank_slice, ALERT_HISTORY_MAXLEN. simpl. rewrite drop_0. f_equal. lia.
Qed.

Lemma foldr_delete_all {A} (z : gmap string Z) (l : list (string * A)) :
  foldr (λ ms z, delete ms.1 z) z l = delete_all (l.*1) z.
Proof. induction l as [|x l IH]; simpl; [done|]. by rewrite IH. Qed.

Lemma zsorted_keys_NoDup z : NoDup ((zsorted z).*1).
Proof. rewrite zsorted_perm. apply NoDup_fst_map_to_list. Qed.

Lemma trim_size z : size (trim z) = Nat.min (size z) 1000.
Proof.
  pose proof (size_delete_all ((take (size z - 1000) (zsorted z)).*1) z) as Hs.
  rewrite length_fmap, length_take, length_zsorted in Hs. unfold trim.
  assert (size (delete_all (take (size z - 1000) (zsorted z)).*1 z) + (size z - 1000) `min` size z = size z)%nat; [|lia].
  apply Hs.
  - rewrite fmap_take. eapply sublist_NoDup; [apply zsorted_keys_NoDup|apply sublist_take].
  - intros k ([k' s] & -> & Hin)%list_elem_of_fmap. exists s. apply elem_of_zsorted.
    by apply subseteq_take in Hin.
Qed.

(** What is trimmed comes before what is kept. *)
Lemma trim_oldest z m s m' s' :
  z !! m = Some s -> trim z !! m = None -> trim z !! m' = Some s' -> zle (m, s) (m', s').
Proof.
  intros Hm Hgone [Hm' Hkept]%lookup_delete_all.
  set (n := (size z - 1000)%nat) in *.
  assert (Hin : (m, s) ∈ take n (zsorted z)).
  { apply elem_of_zsorted in Hm. rewrite <-(take_drop n (zsorted z)) in Hm.
    apply elem_of_app in Hm as [?|Hd]; [done|]. exfalso.
    assert (trim z !! m = Some s); [|congruence]. apply lookup_delete_all. split.
    - apply elem_of_zsorted. by apply (subseteq_drop n).
    - intros Ht. fold n in Ht. pose proof (zsorted_keys_NoDup z) as Hnd.
      rewrite <-(take_drop n (zsorted z)), fmap_app, NoDup_app in Hnd. destruct Hnd as (_ & Hdis & _).
      apply (Hdis m Ht). apply list_elem_of_fmap. by exists (m, s). }
  assert (Hin' : (m', s') ∈ drop n (zsorted z)).
  { apply elem_of_zsorted in Hm'. rewrite <-(take_drop n (zsorted z)) in Hm'.
    apply elem_of_app in Hm' as [Ht|?]; [|done]. destruct Hkept. apply list_elem_of_fmap. by exists (m', s'). }
  pose proof (zsorted_sorted z) as Hs. rewrite <-(take_drop n (zsorted z)) in Hs.
  apply StronglySorted_app in Hs as (Hc & _). by apply Hc.
Qed.

Section HistoryProofs.
Context {E : Env} (HE : quiet E).
Implicit Types (w : world doc_services).

Definition history_is w (z : gmap string Z) : Prop :=
  at_key (w_redis w) ALERT_HISTORY_KEY = keep (RZset z) None.

Lemma run_zset {X} (a : act X) w z z' r :
  history_is w z -> act_doc (w_now w) a (keep (RZset z) None) = (keep (RZset z') None, r) ->
  ∃ w', run (redis ALERT_HISTORY_KEY a) w = (w', r) /\ history_is w' z'.
Proof.
  intros Hk Ha. eexists. split; [exact (run_persistent HE _ _ _ _ _ _ Hk (persistent_keep _) Ha)|].
  unfold history_is. simpl. apply at_put_eq.
Qed.

(** One alert: added with the time, then trimmed. *)
Lemma run_persist_entry v w z :
  history_is w z -> ∃ w' ts, run (persist_entry v) w = (w', inr tt) /\
    history_is w' (trim (<[json_dumps v := ts]> z)).
Proof.
  intros Hz. unfold persist_entry. set (w1 := after (w_redis w) (w_db w) w).
  assert (Hz1 : history_is w1 z) by done.
  pose proof (act_ZADD (w_now w1) _ _ (w_now w) (json_dumps v) (zset_of_keep z None)) as Ha.
  rewrite persistent_keep in Ha. destruct (run_zset _ _ _ _ _ Hz1 Ha) as (w2 & Hr2 & Hz2).
  destruct (act_ZREMRANGEBYRANK (w_now w2) _ _ 0 (- ALERT_HISTORY_MAXLEN - 1)
              (zset_of_keep (<[json_dumps v := w_now w]> z) None)) as [n Ht].
  rewrite persistent_keep, foldr_delete_all, rank_slice_trim, length_zsorted in Ht.
  destruct (run_zset _ _ _ _ _ Hz2 Ht) as (w3 & Hr3 & Hz3).
  exists w3, (w_now w). split; [|exact Hz3].
  rewrite run_except, run_bind, run_time_ms. cbv beta iota. fold w1.
  rewrite run_bind, Hr2. cbv beta iota. by rewrite run_bind, Hr3.
Qed.

Lemma run_persist_alerts alerts : ∀ w z,
  history_is w z -> (size z <= 1000)%nat ->
  ∃ w' z' r, run (for_each alerts persist_alert) w = (w', r) /\ history_is w' z' /\ (size z' <= 1000)%nat.
Proof.
  induction alerts as [|a alerts IH]; intros w z Hz Hs; cbn [for_each].
  { exists w, z, (inr tt). split_and!; done. }
  rewrite run_bind. unfold persist_alert at 1. rewrite run_bind, run_time_ms. cbv beta iota.
  set (w1 := after _ _ w). assert (Hz1 : history_is w1 z) by done. rewrite run_bind.
  change (run (of_sum (history_entry a (w_now w))) w1) with (w1, history_entry a (w_now w)). cbv beta iota.
  destruct (history_entry a (w_now w)) as [e|v]; [by exists w1, z, (inl e)|].
  destruct (run_persist_entry v w1 z Hz1) as (w2 & ts & -> & Hz2).
  apply (IH w2 _ Hz2). rewrite trim_size. lia.
Qed.
End HistoryProofs.

(** The stored history never grows beyond its limit, whatever the payloads, and a full one
    loses its oldest members. *)
Theorem alert_history_bounded (E : Env) getenv validate g payload (w : world doc_services) z :
  quiet E -> history_is w z -> (size z <= 1000)%nat ->
  ∃ z', history_is (run (alertmanager_webhook getenv validate true g payload) w).1 z' /\ (size z' <= 1000)%nat.
Proof.
  intros HE Hz Hs. unfold alertmanager_webhook. rewrite run_except, run_bind.
  assert (Hp : ∃ r, run (process_alertmanager_webhook getenv validate g payload) w = (w, r)).
  { unfold process_alertmanager_webhook. rewrite run_except, run_bind.
    change (run (of_sum (validate payload)) w) with (w, validate payload). cbv beta iota.
    destruct (validate payload) as [e|alerts]; [by destruct (is_exception e); eexists|]. rewrite run_bind.
    assert (Hl : ∀ acc, ∃ r, run (fold_m alerts (λ results a,
       let* r := notify getenv (get_alert_router g) a in
       ret (dict_set (fingerprint a) (results_value r) results)) acc) w = (w, inr r)).
    { induction alerts as [|a alerts IH]; intros acc; cbn [fold_m]; [by eexists|].
      rewrite !run_bind, notify_sends_nothing. cbv beta iota. apply IH. }
    destruct (Hl []) as [r ->]. by eexists. }
  destruct Hp as [[e|result] ->]; [by destruct (is_exception e); exists z|]. cbv beta iota. rewrite run_bind, run_bind.
  change (run (of_sum (payload_alerts payload)) w) with (w, payload_alerts payload). cbv beta iota.
  destruct (payload_alerts payload) as [e|alerts]; [by destruct (is_exception e); exists z|].
  destruct (run_persist_alerts HE alerts w z Hz Hs) as (w' & z' & r & -> & Hz' & Hs'). exists z'. split; [|done].
  destruct r as [e|[]]; [by destruct (is_exception e)|]. cbv beta iota. by destruct (py_eq _ _).
Qed.

Example alert_history_bounded_example :
  ∃ z', history_is (run (E := calm) (alertmanager_webhook (λ _, "") (λ _, inr []) true None
          [("alerts", VList [VDict [("fingerprint", VStr "f")]])]) (world0 0)).1 z' /\ (size z' <= 1000)%nat.
Proof. apply (alert_history_bounded calm _ _ None _ (world0 0) ∅ calm_quiet); [reflexivity|vm_compute; lia]. Defined.

(** ** Silences

    All silences share one hash, and each new one resets the hash's expiry: a silence
    of a day is gone an hour and a minute after a later one of a minute. *)
Example silence_cut_short :
  let w := (run (E := calm) (do* create_silence true None None None 1440 in
                             create_silence true None None None 1) (world0 0)).1 in
  at_key (w_redis w) ALERT_SILENCE_KEY ≫= re_exp = Some (3660 * 1000) /\
  (∀ t, 3660 * 1000 <= t -> live t (w_redis w) ALERT_SILENCE_KEY = None).
Proof.
  intros w. assert (Hx : at_key (w_redis w) ALERT_SILENCE_KEY ≫= re_exp = Some (3660 * 1000)) by (vm_compute; reflexivity).
  split; [exact Hx|]. intros t Ht. unfold live. unfold at_key in Hx.
  destruct (_ !! _) as [e|]; [|done]. unfold expired. simpl in Hx. rewrite Hx.
  by rewrite (proj2 (Z.leb_le _ _)).
Qed.
