(* ===== verification/Agent.v ===== *)
(** * Node agent

    [src/agent/server.py], [src/agent/ray_manager.py] and [src/models/deploy.py]: the
    service that runs on each machine.  An agent owns its node by a Redis key with a
    time to live, renews it in a background loop, and serves invitations, releases,
    drains and deployments.  A handler is a function of the agent's state; between
    its suspension points a handler runs alone, so the state it leaves is what the
    others see.  The [ray] command is a call to the outside that answers with its
    return code; the package fetcher is [RemoteCode]'s. *)

From Stdlib Require Import Ascii.
From stdpp Require Import base gmap strings list sorting.
From S2P Require Import Prelude PyValue Json Redis TaskModel Tables Effects ErrorHandling.
From S2P Require Import Cjson Registry NodeRegistry RemoteCode.

Open Scope Z_scope.

(** ** State *)

Inductive DeployState := D_PENDING | D_DOWNLOADING | D_EXTRACTING | D_SETTING_UP | D_DEPLOYED | D_FAILED.

Record DeployedPackageInfo := {
  package_name : string;
  package_version : string;
  package_url : string;
  deploy_path : string;
  deploy_state : DeployState;
  deployed_at : Z
}.

Record AgentState := {
  ag_node_id : string;
  ag_host : string;
  ag_agent_port : Z;
  instance_id : string;
  ag_state : NodeState;
  cluster_id : string;
  ray_head_address : string;
  ag_resources : NodeResources;
  deployed_packages : list (string * DeployedPackageInfo)
}.

(** [NodeResources()] *)
Definition no_resources : NodeResources :=
  {| nr_total_cpus := 0; nr_available_cpus := 0; nr_total_memory_mb := 0; nr_available_memory_mb := 0;
     nr_total_gpus := 0; nr_available_gpus := 0; gpu_list := []; ray_node_id := ""; ray_resources_total := [];
     ray_resources_available := []; ray_sync_time := 0 |}.

Definition AgentState_init (node_id host : string) (port : Z) (uuid : string) : AgentState :=
  {| ag_node_id := node_id; ag_host := host; ag_agent_port := port; instance_id := uuid; ag_state := N_IDLE;
     cluster_id := ""; ray_head_address := ""; ag_resources := no_resources; deployed_packages := [] |}.

(** [transition(new_state)] and [transition(new_state, cluster_id=..., ray_head_address=...)] *)
Definition transition (s : NodeState) (st : AgentState) : AgentState :=
  {| ag_node_id := ag_node_id st; ag_host := ag_host st; ag_agent_port := ag_agent_port st;
     instance_id := instance_id st; ag_state := s; cluster_id := cluster_id st;
     ray_head_address := ray_head_address st; ag_resources := ag_resources st;
     deployed_packages := deployed_packages st |}.

Definition transition_to (s : NodeState) (cluster head : string) (st : AgentState) : AgentState :=
  {| ag_node_id := ag_node_id st; ag_host := ag_host st; ag_agent_port := ag_agent_port st;
     instance_id := instance_id st; ag_state := s; cluster_id := cluster;
     ray_head_address := head; ag_resources := ag_resources st;
     deployed_packages := deployed_packages st |}.

Definition with_packages (ps : list (string * DeployedPackageInfo)) (st : AgentState) : AgentState :=
  {| ag_node_id := ag_node_id st; ag_host := ag_host st; ag_agent_port := ag_agent_port st;
     instance_id := instance_id st; ag_state := ag_state st; cluster_id := cluster_id st;
     ray_head_address := ray_head_address st; ag_resources := ag_resources st; deployed_packages := ps |}.

Definition to_node_info (now : Z) (st : AgentState) : NodeInfo :=
  {| node_id := ag_node_id st; host := ag_host st; agent_port := ag_agent_port st; node_state := ag_state st;
     node_resources := ag_resources st; node_labels := []; custom_resources := [];
     node_cluster_id := cluster_id st; node_ray_head_address := ray_head_address st;
     last_heartbeat := now; registered_at := 0; node_tenant_id := "" |}.

(** ** Ownership *)

Definition OWNER_KEY (node_id : string) : string := "agent_owner:" +:+ node_id.
Definition OWNER_TTL_SECONDS : Z := 30.
Definition HEARTBEAT_INTERVAL : Z := 10.

Definition lua_renew (key id : string) (ttl : Z) : lua string :=
  (let+ cur := call key GET in
   if decide (cur = Some id) then do+ call key (EXPIRE ttl) in LRet "ok"
   else LRet "mismatch")%lua.

Definition lua_release (key id : string) : lua string :=
  (let+ cur := call key GET in
   if decide (cur = Some id) then do+ call key DEL in LRet "ok"
   else LRet "mismatch")%lua.

Definition acquire_ownership (node_id instance_id : string) : M bool :=
  redis (OWNER_KEY node_id) (SET instance_id (Some (OWNER_TTL_SECONDS * 1000)) true).

Definition renew_ownership (node_id instance_id : string) : M bool :=
  let* result := script (lua_renew (OWNER_KEY node_id) instance_id OWNER_TTL_SECONDS) in
  ret (bool_decide (result = "ok")).

Definition release_ownership (node_id instance_id : string) : M bool :=
  let* result := script (lua_release (OWNER_KEY node_id) instance_id) in
  ret (bool_decide (result = "ok")).

(** ** The [ray] command *)

Definition subprocess_run (cmd : list string) : M bool :=
  let* code := invoke "subprocess.run" (VList (map VStr cmd)) in
  ret (match code with VInt 0 => true | _ => false end).

Definition ray_is_running : M bool := except (subprocess_run ["ray"; "status"]) (λ _, ret false).

(** [f"--resources={orjson.dumps(r)}"]: the [repr] of a [bytes] object *)
Definition resources_flag (r : list (string * Z)) : string :=
  "--resources=b'" +:+ orjson_dumps (VDict (map (λ kv, (kv.1, VFloat kv.2)) r)) +:+ "'".

Definition start_command (head_address : string) (r : list (string * Z)) : list string :=
  ["ray"; "start"; "--address=" +:+ head_address] ++ match r with [] => [] | _ => [resources_flag r] end.

Definition ray_start (head_address : string) (r : list (string * Z)) : M bool :=
  let* running := ray_is_running in
  if running then ret true else
  except
    (let* ok := subprocess_run (start_command head_address r) in
     if negb ok then ret false else subprocess_run ["ray"; "status"])
    (λ _, ret false).

Definition ray_stop : M bool :=
  let* running := ray_is_running in
  if negb running then ret true else
  except (subprocess_run ["ray"; "stop"]) (λ _, ret false).

(** [ray_manager.py]: a timeout is caught, another exception is not. *)
Definition manager_run (cmd : list string) (after : M bool) : M bool :=
  let* r := attempt_ (subprocess_run cmd) in
  match r with
  | inr ok => if ok then after else ret false
  | inl (Exn TimeoutError _) => ret false
  | inl e => raise e
  end.

Definition manager_ray_start (head_address : string) (r : list (string * Z)) : M bool :=
  let* running := ray_is_running in
  if running then ret true
  else manager_run (start_command head_address r) ray_is_running.

Definition manager_ray_stop : M bool :=
  let* running := ray_is_running in
  if negb running then ret true else manager_run ["ray"; "stop"] (ret true).

(** ** The heartbeat loop *)

Definition MAX_RETRIES : Z := 3.

Section Agent.
Context (model_validate : value -> exn + NodeInfo) (has_registry has_redis : bool).

(** The ownership part of a round: the new number of consecutive failures, and whether
    the loop goes on. *)
Definition heartbeat_owner (st : AgentState) (failures : Z) : M (Z * bool) :=
  let* ok := renew_ownership (ag_node_id st) (instance_id st) in
  if ok then ret (0, true) else
  let* ok := acquire_ownership (ag_node_id st) (instance_id st) in
  if ok then ret (0, true)
  else ret (failures + 1, failures + 1 <? MAX_RETRIES).

(** One round.  The failure count is a local variable: an exception after it was set
    keeps it, one before leaves it as it was. *)
Definition heartbeat_round (st : AgentState) (failures : Z) : M (Z * bool) :=
  let* r := attempt_ (heartbeat_owner st failures) in
  match r with
  | inl e => if is_exception e then ret (failures, true) else raise e
  | inr (n, false) => ret (n, false)
  | inr (n, true) =>
      do* (if has_registry
           then except (heartbeat model_validate (ag_node_id st) (Some (node_resources_dump (ag_resources st))))
                       (λ _, ret tt)
           else ret tt) in
      ret (n, true)
  end.

(** [n] rounds at most; true when the loop is still running *)
Fixpoint heartbeat_task (n : nat) (st : AgentState) (failures : Z) : M bool :=
  match n with
  | O => ret true
  | S n' =>
      let* r := heartbeat_round st failures in
      if r.2 then do* sleep (HEARTBEAT_INTERVAL * 1000) in heartbeat_task n' st r.1
      else ret false
  end.

(** ** Start and stop *)

(** The part of [lifespan] before [yield]; the loop is started afterwards. *)
Definition agent_startup (st : AgentState) : M unit :=
  if negb has_redis then ret tt else
  do* acquire_ownership (ag_node_id st) (instance_id st) in
  if has_registry then
    let* now := time_ms in
    node_register (NModel (to_node_info now st))
  else ret tt.

Definition agent_shutdown (st : AgentState) : M unit :=
  if has_redis && bool_decide (ag_state st ∈ [N_IDLE; N_RESERVED])
  then do* release_ownership (ag_node_id st) (instance_id st) in ret tt
  else ret tt.

(** ** Handlers *)

Record InvitationRequest := {
  inv_cluster_id : string;
  inv_ray_head_address : string;
  inv_custom_resources : list (string * Z)
}.

Record InvitationResponse := {
  accepted : bool;
  reason : string;
  ray_node_ip : string
}.

Definition refuse (why : string) : InvitationResponse := {| accepted := false; reason := why; ray_node_ip := "" |}.

(** A handler gives the state it leaves, with its reply or the exception it raised. *)
Definition handled (A : Type) : Type := AgentState * (exn + A).

Definition notify_registry (m : M unit) : M (exn + unit) := attempt_ (if has_registry then m else ret tt).

Definition invite (req : InvitationRequest) (st : AgentState) : M (handled InvitationResponse) :=
  if negb (bool_decide (ag_state st ∈ [N_IDLE; N_RESERVED])) then
    ret (st, inr (refuse ("node in state " +:+ node_state_value (ag_state st) +:+ ", cannot accept invitation")))
  else
  let st := transition_to N_JOINING (inv_cluster_id req) (inv_ray_head_address req) st in
  let* success := ray_start (inv_ray_head_address req) (inv_custom_resources req) in
  if negb success then ret (transition_to N_IDLE "" "" st, inr (refuse "ray start failed"))
  else
    let st := transition N_JOINED st in
    let* r := notify_registry (mark_joined model_validate (ag_node_id st) "") in
    ret (st, match r with
             | inl e => inl e
             | inr _ => inr {| accepted := true; reason := ""; ray_node_ip := ag_host st |}
             end).

(** The two parts of [release]: the wait of a graceful release of a draining node, and
    what follows it. *)
Definition release_wait (graceful : bool) (st : AgentState) : M unit :=
  if graceful && bool_decide (ag_state st = N_DRAINING) then sleep 1000 else ret tt.

Definition release_finish (st : AgentState) : M (handled unit) :=
  do* ray_stop in
  let st := transition_to N_IDLE "" "" st in
  let* r := notify_registry (mark_released model_validate (ag_node_id st)) in
  ret (st, r).

Definition release (graceful : bool) (st : AgentState) : M (handled unit) :=
  do* release_wait graceful st in release_finish st.

Definition drain (st : AgentState) : M (handled unit) :=
  if negb (bool_decide (ag_state st = N_JOINED)) then
    ret (st, inl (HTTPException 400 ("Cannot drain node in state " +:+ node_state_value (ag_state st))))
  else
    let st := transition N_DRAINING st in
    let* r := notify_registry (mark_draining model_validate (ag_node_id st)) in
    ret (st, r).

(** ** Deployment *)

Record DeployRequest := {
  dr_url : string;
  dr_name : string;
  dr_version : string;
  dr_checksum : string
}.

Record DeployResult := {
  res_state : DeployState;
  success : bool;
  message : string;
  res_path : string;
  res_deployed_at : Z
}.

Context (cache_dir : string).
Context (http_get : string -> list string * option exn) (tar_members : string -> exn + list member).

Definition package_of (req : DeployRequest) (path : string) (s : DeployState) (at_ : Z) : DeployedPackageInfo :=
  {| package_name := dr_name req; package_version := dr_version req; package_url := dr_url req;
     deploy_path := path; deploy_state := s; deployed_at := at_ |}.

(** [RemoteCodeFetcher(allow_private_ip=True)], with the default limits *)
Definition agent_fetch (now : Z) (req : DeployRequest) (c : cache) : cache * (exn + string) :=
  fetch_artifact (1024 * 1024 * 1024) 50 true http_get tar_members now (dr_url req)
    (match dr_checksum req with "" => None | s => Some s end) c.

Definition deploy (req : DeployRequest) (c : cache) (st : AgentState) : M (AgentState * cache * DeployResult) :=
  let* now := time_ms in
  let '(c, r) := agent_fetch now req c in
  match r with
  | inr key =>
      let path := cache_dir +:+ "/" +:+ key +:+ "/package" in
      let* t1 := time_ms in
      let* t2 := time_ms in
      ret (with_packages (dict_set (dr_name req) (package_of req path D_DEPLOYED t1) (deployed_packages st)) st, c,
           {| res_state := D_DEPLOYED; success := true; message := ""; res_path := path; res_deployed_at := t2 |})
  | inl e =>
      ret (with_packages (dict_set (dr_name req) (package_of req "" D_FAILED 0) (deployed_packages st)) st, c,
           {| res_state := D_FAILED; success := false; message := exn_str e; res_path := ""; res_deployed_at := 0 |})
  end.

Definition undeploy (name : string) (st : AgentState) : AgentState :=
  with_packages (dict_del name (deployed_packages st)) st.

Definition list_packages (st : AgentState) : list DeployedPackageInfo := (deployed_packages st).*2.

Definition health (st : AgentState) : list (string * value) :=
  [("node_id", VStr (ag_node_id st)); ("state", VStr (node_state_value (ag_state st)));
   ("cluster_id", VStr (cluster_id st)); ("instance_id", VStr (instance_id st))].
End Agent.

(** * Ownership is exclusive *)

(** The three commands, as Redis executes them: atomically, at one instant *)
Inductive owner_op := Acquire (id : string) | Renew (id : string) | Release (id : string).

Definition op_id (o : owner_op) : string := match o with Acquire id | Renew id | Release id => id end.
Definition claims (o : owner_op) : bool := match o with Release _ => false | _ => true end.

Definition owner_cmd (nid : string) (o : owner_op) : lua bool :=
  match o with
  | Acquire id => call (OWNER_KEY nid) (SET id (Some (OWNER_TTL_SECONDS * 1000)) true)
  | Renew id => (let+ r := lua_renew (OWNER_KEY nid) id OWNER_TTL_SECONDS in LRet (bool_decide (r = "ok")))%lua
  | Release id => (let+ r := lua_release (OWNER_KEY nid) id in LRet (bool_decide (r = "ok")))%lua
  end.

Definition owner_prog (nid : string) (o : owner_op) : M bool :=
  match o with
  | Acquire id => acquire_ownership nid id
  | Renew id => renew_ownership nid id
  | Release id => release_ownership nid id
  end.

(** Commands with the instants at which they are executed *)
Fixpoint owner_run (nid : string) (ops : list (Z * owner_op)) (ks : keyspace) : keyspace * list (exn + bool) :=
  match ops with
  | [] => (ks, [])
  | (t, o) :: ops' =>
      let '(ks1, r) := lua_run t (owner_cmd nid o) ks in
      let '(ks2, rs) := owner_run nid ops' ks1 in (ks2, r :: rs)
  end.

Section Ownership.
Context (nid : string).
Notation key := (OWNER_KEY nid).

(** The program of an agent is its command. *)
Lemma run_owner_prog {E : Env} (HE : quiet E) o (w : world doc_services) :
  run (owner_prog nid o) w =
  let '(ks, r) := lua_run (w_now w) (owner_cmd nid o) (w_redis w) in (after ks (w_db w) w, r).
Proof.
  destruct HE as [HE _]. destruct o as [id|id|id]; simpl.
  - unfold acquire_ownership. rewrite run_redis, HE, lua_run_call1. by destruct (act_doc _ _ _).
  - unfold renew_ownership. rewrite run_bind, run_script, HE, lua_run_bind.
    by destruct (lua_run _ _ _) as [ks [e|r]].
  - unfold release_ownership. rewrite run_bind, run_script, HE, lua_run_bind.
    by destruct (lua_run _ _ _) as [ks [e|r]].
Qed.

(** [id] holds the key at least until [x]. *)
Definition holds (ks : keyspace) (id : string) (x : Z) : Prop :=
  ∃ x', ks !! key = Some (REntry (RStr id) (Some x')) /\ x <= x'.

Lemma holds_live ks id x t : holds ks id x -> t < x -> ∃ x', live t ks key = Some (REntry (RStr id) (Some x')) /\ x <= x'.
Proof.
  intros (x' & Hk & Hx) Ht. exists x'. split; [|done]. unfold live. rewrite Hk. unfold expired. simpl.
  by rewrite (proj2 (Z.leb_gt x' t)) by lia.
Qed.

(** A guarded script reads the key; only its owner's goes on. *)
Lemma guarded_run {A} t ks id (m : lua A) other :
  lua_run t (let+ cur := call key GET in if decide (cur = Some id) then m else LRet other)%lua ks =
  match live t ks key with
  | Some (REntry (RStr s) _) =>
      let ks' := put key (live t ks key) ks in
      if decide (s = id) then lua_run t m ks' else (ks', inr other)
  | None => (put key None ks, inr other)
  | Some e => (put key (Some e) ks, inl wrongtype)
  end.
Proof.
  rewrite lua_run_call. destruct (live t ks key) as [[[s| | | |] x]|] eqn:El.
  2-5: by rewrite act_GET by by eexists.
  - rewrite act_GET_str. repeat case_decide; simplify_eq; done.
  - by rewrite act_GET_none.
Qed.

Lemma holds_put ks id x : holds (put key (Some (REntry (RStr id) (Some x))) ks) id x.
Proof. exists x. by rewrite lookup_put_eq. Qed.

Lemma holds_weaken ks id x y : holds ks id x -> y <= x -> holds ks id y.
Proof. intros (x' & ? & ?) ?. exists x'. split; [done|lia]. Qed.

(** Whoever succeeds in claiming holds the key for the whole time to live. *)
Lemma claim_holds t o ks ks' :
  claims o = true -> lua_run t (owner_cmd nid o) ks = (ks', inr true) ->
  holds ks' (op_id o) (t + OWNER_TTL_SECONDS * 1000).
Proof.
  intros Hc. destruct o as [id|id|id]; [| |done]; simpl.
  - rewrite lua_run_call1. destruct (live t ks key) as [e|].
    + by rewrite act_SETNX_some by by eexists.
    + rewrite act_SETNX_none. intros [= <-]. apply holds_put.
  - rewrite lua_run_bind. unfold lua_renew. rewrite guarded_run.
    destruct (live t ks key) as [[[s| | | |] x]|] eqn:El; try done.
    case_decide; [|done]. subst s. rewrite lua_run_call, live_put_eq by (rewrite <-El; apply live_fresh).
    rewrite act_EXPIRE. simpl. intros [= <-]. apply holds_put.
Qed.

(** While [id] holds the key, nobody else's claim succeeds, and only its own release ends
    that. *)
Lemma held_step t o ks id x ks' r :
  holds ks id x -> x - OWNER_TTL_SECONDS * 1000 <= t < x -> lua_run t (owner_cmd nid o) ks = (ks', r) ->
  (o = Release id \/ holds ks' id x) /\ (claims o = true -> op_id o <> id -> r <> inr true).
Proof.
  intros Hh Ht. destruct (holds_live ks id x t Hh ltac:(lia)) as (x' & El & Hx).
  assert (Hk : holds (put key (live t ks key) ks) id x)
    by (rewrite El; eapply holds_weaken; [apply holds_put|done]).
  destruct o as [a|a|a]; simpl.
  - rewrite lua_run_call1, El, act_SETNX_some by by eexists. intros [= <- <-]. rewrite El in Hk. auto.
  - rewrite lua_run_bind. unfold lua_renew. rewrite guarded_run, El.
    case_decide as Ha; [subst a|intros [= <- <-]; rewrite El in Hk; auto].
    rewrite lua_run_call, live_put_eq by (rewrite <-El; apply live_fresh). rewrite act_EXPIRE. simpl.
    intros [= <- <-]. split; [right|by intros _ []].
    eapply holds_weaken; [apply holds_put|]. lia.
  - rewrite lua_run_bind. unfold lua_release. rewrite guarded_run, El.
    case_decide as Ha; [by subst a; auto|]. intros [= <- <-]. rewrite El in Hk. auto.
Qed.

(** Instants in order *)
Definition in_order (ops : list (Z * owner_op)) : Prop := StronglySorted (λ a b, a.1 <= b.1) ops.

Lemma held_until ops : ∀ ks id x t2 o2 i,
  holds ks id x -> in_order ops -> Forall (λ to, x - OWNER_TTL_SECONDS * 1000 <= to.1) ops ->
  ops !! i = Some (t2, o2) -> (∀ j t, (j < i)%nat -> ops !! j <> Some (t, Release id)) ->
  claims o2 = true -> op_id o2 <> id -> (owner_run nid ops ks).2 !! i = Some (inr true) -> x <= t2.
Proof.
  induction ops as [|[t o] ops IH]; intros ks id x t2 o2 i Hh Hord Hall Hi Hno Hc Hne Hr; [done|].
  apply StronglySorted_inv in Hord as [Hord Hle]. apply Forall_cons in Hall as [Ht Hall]. simpl in Ht.
  destruct (decide (x <= t)) as [Hx|Hx].
  { destruct i as [|i]; simplify_eq/=; [done|]. apply list_elem_of_lookup_2 in Hi.
    apply (proj1 (Forall_forall _ _) Hle) in Hi. simpl in Hi. lia. }
  simpl in Hr. destruct (lua_run t (owner_cmd nid o) ks) as [ks1 r] eqn:E.
  destruct (owner_run nid ops ks1) as [ks2 rs] eqn:Er.
  destruct (held_step t o ks id x ks1 r Hh ltac:(lia) E) as [Hk Hlose].
  destruct i as [|i]; simplify_eq/=; [by destruct (Hlose Hc Hne)|].
  destruct Hk as [->|Hk]; [by destruct (Hno 0%nat t ltac:(lia))|].
  apply (IH ks1 id x t2 o2 i); [done..| | | |].
  - intros j t' Hj. apply (Hno (S j)). lia.
  - done.
  - done.
  - by rewrite Er.
Qed.
End Ownership.

(** C37: Ownership of a node is exclusive.  Whatever commands any number of agents send, in
    any order: once an agent's acquisition or renewal has succeeded, no other
    agent's succeeds within the time to live, unless the first has released the node
    in between. *)
Theorem ownership_exclusive nid ops ks i1 i2 t1 t2 o1 o2 :
  in_order ops -> (i1 < i2)%nat ->
  ops !! i1 = Some (t1, o1) -> ops !! i2 = Some (t2, o2) ->
  claims o1 = true -> claims o2 = true -> op_id o1 <> op_id o2 ->
  (owner_run nid ops ks).2 !! i1 = Some (inr true) -> (owner_run nid ops ks).2 !! i2 = Some (inr true) ->
  (∀ j t, (i1 < j < i2)%nat -> ops !! j <> Some (t, Release (op_id o1))) ->
  t1 + OWNER_TTL_SECONDS * 1000 <= t2.
Proof.
  revert ks i1 i2. induction ops as [|[t o] ops IH]; intros ks i1 i2 Hord Hlt H1 H2 Hc1 Hc2 Hne Hr1 Hr2 Hno; [done|].
  apply StronglySorted_inv in Hord as [Hord Hle]. simpl in Hr1, Hr2.
  destruct (lua_run t (owner_cmd nid o) ks) as [ks1 r] eqn:E.
  destruct (owner_run nid ops ks1) as [ks2 rs] eqn:Er.
  destruct i2 as [|i2]; [lia|]. destruct i1 as [|i1]; simplify_eq/=.
  - apply (held_until nid ops ks1 (op_id o1) (t1 + OWNER_TTL_SECONDS * 1000) t2 o2 i2); try done.
    + by apply (claim_holds nid t1 o1 ks).
    + eapply Forall_impl; [exact Hle|]. intros [t' o'] Ht'. simpl in *. lia.
    + intros j t' Hj. apply (Hno (S j)). lia.
    + by rewrite Er.
  - apply (IH ks1 i1 i2); rewrite ?Er; try done; [lia|]. intros j t' Hj. apply (Hno (S j)). lia.
Qed.

Lemma ownership_exclusive_witness :
  let ops := [(0, Acquire "a"); (10000, Renew "a"); (39999, Acquire "b"); (40000, Acquire "b")] in
  (owner_run "n1" ops ∅).2 = [inr true; inr true; inr false; inr true] /\ 10000 + 30 * 1000 <= 40000.
Proof.
  intros ops. assert (Hr : (owner_run "n1" ops ∅).2 = [inr true; inr true; inr false; inr true])
    by (vm_compute; reflexivity). split; [exact Hr|].
  apply (ownership_exclusive "n1" ops ∅ 1 3 10000 40000 (Renew "a") (Acquire "b"));
    [|lia|reflexivity|reflexivity|reflexivity|reflexivity|done|by rewrite Hr|by rewrite Hr|].
  - repeat constructor; simpl; lia.
  - intros j t Hj. assert (j = 2%nat) as -> by lia. done.
Defined.


(** * The heartbeat loop *)

Section HeartbeatProofs.
Context {E : Env} (HE : quiet E) (model_validate : value -> exn + NodeInfo).
Implicit Types (w : world doc_services) (st : AgentState).

Definition owned w (nid id : string) (x : Z) : Prop := holds nid (w_redis w) id x.

(** Nothing the loop does by itself takes longer than [d] milliseconds. *)
Definition prompt (d : Z) : Prop := ∀ n, Z.of_N (delay n) <= d.

Lemma owner_renews st w x :
  owned w (ag_node_id st) (instance_id st) x -> w_now w < x ->
  ∃ w', run (renew_ownership (ag_node_id st) (instance_id st)) w = (w', inr true) /\
    owned w' (ag_node_id st) (instance_id st) (w_now w + OWNER_TTL_SECONDS * 1000) /\
    w_now w' = w_now w + Z.of_N (delay (w_tick w)).
Proof.
  intros Hh Hx. pose proof (run_owner_prog (ag_node_id st) HE (Renew (instance_id st)) w) as Hr. simpl in Hr.
  destruct (lua_run (w_now w) _ (w_redis w)) as [ks r] eqn:El. rewrite Hr.
  assert (Hok : r = inr true).
  { revert El. rewrite lua_run_bind. unfold lua_renew. rewrite guarded_run.
    destruct (holds_live _ _ _ _ _ Hh Hx) as (x' & Hl & _). rewrite Hl, decide_True by done.
    rewrite lua_run_call, live_put_eq by (rewrite <-Hl; apply live_fresh). rewrite act_EXPIRE. simpl. by intros [= _ <-]. }
  subst r. eexists. split; [done|]. split; [|done].
  exact (claim_holds (ag_node_id st) (w_now w) (Renew (instance_id st)) (w_redis w) ks eq_refl El).
Qed.

(** An agent that owns its node keeps it through any number of rounds. *)
Lemma heartbeat_keeps_aux d st n : ∀ w x failures,
  prompt d -> HEARTBEAT_INTERVAL * 1000 + 2 * d < OWNER_TTL_SECONDS * 1000 ->
  owned w (ag_node_id st) (instance_id st) x -> w_now w < x ->
  ∃ w' x', run (heartbeat_task model_validate false n st failures) w = (w', inr true) /\
    owned w' (ag_node_id st) (instance_id st) x' /\ w_now w' < x'.
Proof.
  induction n as [|n IH]; intros w x failures Hd Hlt Ho Hx; cbn [heartbeat_task]; [by exists w, x|].
  destruct (owner_renews st w x Ho Hx) as (w1 & Hr & Ho1 & Hn1).
  rewrite run_bind. unfold heartbeat_round, heartbeat_owner. rewrite run_bind, run_attempt_, run_bind, Hr. cbv beta iota.
  change (run (ret (0, true)) w1) with (w1, @inr exn _ (0, true)). cbv beta iota.
  rewrite run_bind. change (run (ret tt) w1) with (w1, @inr exn _ tt). cbv beta iota.
  change (run (ret (0, true)) w1) with (w1, @inr exn _ (0, true)). cbn [snd fst]. rewrite run_bind.
  set (w2 := (step (ESleep (HEARTBEAT_INTERVAL * 1000)) w1).1).
  change (run (sleep (HEARTBEAT_INTERVAL * 1000)) w1) with (w2, @inr exn _ tt). cbv beta iota.
  apply (IH w2 (w_now w + OWNER_TTL_SECONDS * 1000)); [done..|].
  pose proof (Hd (w_tick w)). pose proof (Hd (w_tick w1)). subst w2. cbn. unfold HEARTBEAT_INTERVAL, OWNER_TTL_SECONDS in *. lia.
Qed.

(** A round while another agent holds the key: one more failure. *)
Lemma heartbeat_owner_lost st w id x failures :
  owned w (ag_node_id st) id x -> id <> instance_id st -> x - OWNER_TTL_SECONDS * 1000 <= w_now w ->
  w_now w + Z.of_N (delay (w_tick w)) < x ->
  ∃ w', run (heartbeat_owner st failures) w = (w', inr (failures + 1, failures + 1 <? MAX_RETRIES)) /\
    owned w' (ag_node_id st) id x /\
    w_now w' = w_now w + Z.of_N (delay (w_tick w)) + Z.of_N (delay (S (w_tick w))) /\ w_tick w' = S (S (w_tick w)).
Proof.
  intros Ho Hne Hlo Hx. unfold heartbeat_owner. rewrite run_bind.
  pose proof (run_owner_prog (ag_node_id st) HE (Renew (instance_id st)) w) as Hr. cbn [owner_prog] in Hr. rewrite Hr.
  destruct (lua_run (w_now w) (owner_cmd _ (Renew _)) (w_redis w)) as [ks1 r1] eqn:E1.
  destruct (held_step (ag_node_id st) (w_now w) (Renew (instance_id st)) (w_redis w) id x ks1 r1 Ho ltac:(lia) E1) as [[?|H1] Hl1]; [done|].
  assert (r1 = inr false) as ->.
  { revert E1. simpl. rewrite lua_run_bind. unfold lua_renew. rewrite guarded_run.
    destruct (holds_live (ag_node_id st) (w_redis w) id x (w_now w) Ho ltac:(lia)) as (x' & -> & _). rewrite decide_False by done. by intros [= _ <-]. }
  cbv beta iota. set (w1 := after ks1 _ w). rewrite run_bind.
  pose proof (run_owner_prog (ag_node_id st) HE (Acquire (instance_id st)) w1) as Hr2. cbn [owner_prog] in Hr2. rewrite Hr2.
  destruct (lua_run (w_now w1) (owner_cmd _ (Acquire _)) (w_redis w1)) as [ks2 r2] eqn:E2.
  assert (x - OWNER_TTL_SECONDS * 1000 <= w_now w1 < x) as Hw1 by (unfold OWNER_TTL_SECONDS in *; simpl; lia).
  destruct (held_step (ag_node_id st) (w_now w1) (Acquire (instance_id st)) (w_redis w1) id x ks2 r2 H1 Hw1 E2) as [[?|H2] Hl2]; [done|].
  assert (r2 = inr false) as ->.
  { revert E2. simpl. rewrite lua_run_call1.
    destruct (holds_live (ag_node_id st) (w_redis w1) id x (w_now w1) H1 (proj2 Hw1)) as (x' & Hl & _). simpl in Hl. rewrite Hl.
    rewrite act_SETNX_some by by eexists. by intros [= _ <-]. }
  cbv beta iota. eexists. split; [reflexivity|]. split; [exact H2|]. done.
Qed.

(** The loop from a failure count [failures], the node owned by another until [x] *)
Lemma heartbeat_task_lost d st id k : ∀ n w x failures,
  prompt d -> 0 <= d -> owned w (ag_node_id st) id x -> id <> instance_id st ->
  x - OWNER_TTL_SECONDS * 1000 <= w_now w ->
  w_now w + Z.of_nat k * (HEARTBEAT_INTERVAL * 1000 + 3 * d) + d < x ->
  failures + Z.of_nat (S k) = MAX_RETRIES -> (k < n)%nat ->
  ∃ w', run (heartbeat_task model_validate false n st failures) w = (w', inr false).
Proof.
  induction k as [|k IH]; intros n w x failures Hd Hd0 Ho Hne Hlo Hx Hf Hn; (destruct n as [|n]; [lia|]).
  all: pose proof (Hd (w_tick w)) as D0; pose proof (Hd (S (w_tick w))) as D1; pose proof (Hd (S (S (w_tick w)))) as D2.
  all: destruct (heartbeat_owner_lost st w id x failures Ho Hne Hlo ltac:(unfold HEARTBEAT_INTERVAL in *; lia))
    as (w1 & Hr & Ho1 & Hn1 & Ht1).
  all: cbn [heartbeat_task]; rewrite run_bind; unfold heartbeat_round; rewrite run_bind, run_attempt_, Hr; cbv beta iota.
  - rewrite (proj2 (Z.ltb_ge (failures + 1) MAX_RETRIES)) by lia. by eexists.
  - rewrite (proj2 (Z.ltb_lt (failures + 1) MAX_RETRIES)) by lia.
    rewrite run_bind. change (run (ret tt) w1) with (w1, @inr exn _ tt). cbv beta iota.
    change (run (ret (failures + 1, true)) w1) with (w1, @inr exn _ (failures + 1, true)). cbn [snd fst].
    rewrite run_bind. set (w2 := (step (ESleep (HEARTBEAT_INTERVAL * 1000)) w1).1).
    change (run (sleep (HEARTBEAT_INTERVAL * 1000)) w1) with (w2, @inr exn _ tt). cbv beta iota.
    assert (Hn2 : w_now w2 = w_now w1 + Z.of_N (delay (w_tick w1)) + HEARTBEAT_INTERVAL * 1000) by done.
    rewrite Ht1 in Hn2. apply (IH n w2 x); try done; unfold HEARTBEAT_INTERVAL, OWNER_TTL_SECONDS in *; lia.
Qed.
End HeartbeatProofs.

(** An agent that owns its node, and whose calls take at most [d] with two of them and the
    interval within the time to live, still owns it after any number of rounds, and
    the loop is still running; when another agent owns the node for three more
    rounds the loop ends, and ends after the third. *)
Theorem heartbeat_ownership (E : Env) model_validate d st (w : world doc_services) x id :
  quiet E -> prompt d -> 0 <= d -> owned w (ag_node_id st) id x -> w_now w < x ->
  (id = instance_id st -> HEARTBEAT_INTERVAL * 1000 + 2 * d < OWNER_TTL_SECONDS * 1000 -> ∀ n failures,
     ∃ w' x', run (heartbeat_task model_validate false n st failures) w = (w', inr true) /\
       owned w' (ag_node_id st) (instance_id st) x' /\ w_now w' < x') /\
  (id <> instance_id st -> x - OWNER_TTL_SECONDS * 1000 <= w_now w ->
     w_now w + 2 * (HEARTBEAT_INTERVAL * 1000 + 3 * d) + d < x -> ∀ n, (2 < n)%nat ->
     ∃ w', run (heartbeat_task model_validate false n st 0) w = (w', inr false)).
Proof.
  intros HE Hd Hd0 Ho Hx. split.
  - intros -> Hlt n failures. by apply (heartbeat_keeps_aux HE model_validate d st n w x).
  - intros Hne Hlo Hlt n Hn. by apply (heartbeat_task_lost HE model_validate d st id 2 n w x 0).
Qed.

Definition demo_agent : AgentState := AgentState_init "n1" "h" 9100 "me".

Definition w_owned : world doc_services :=
  (run (E := calm) (acquire_ownership "n1" "me") (world0 0)).1.

Lemma heartbeat_ownership_witness :
  ∃ w' x', run (E := calm) (heartbeat_task demo_node_validate false 5 demo_agent 0) w_owned = (w', inr true) /\
    owned w' "n1" "me" x' /\ w_now w' < x'.
Proof.
  apply (heartbeat_ownership calm demo_node_validate 0 demo_agent w_owned 30000 "me");
    [apply calm_quiet|intros n; simpl; lia|lia| |vm_compute; reflexivity|reflexivity|vm_compute; reflexivity].
  exists 30000. split; [vm_compute; reflexivity|lia].
Defined.

(** * The state machine *)

Section Serve.
Context {S : Services} {E : Env} (model_validate : value -> exn + NodeInfo) (has_registry : bool) (cache_dir : string).
Context (http_get : string -> list string * option exn) (tar_members : string -> exn + list member).

(** What changes the state between two suspension points *)
Inductive agent_event :=
| EvInvite (req : InvitationRequest)
| EvReleaseFinish
| EvDrain
| EvDeploy (req : DeployRequest)
| EvUndeploy (name : string).

Definition agent_event_run (ev : agent_event) (s : AgentState * cache) : M (AgentState * cache) :=
  match ev with
  | EvInvite req => let* r := invite model_validate has_registry req s.1 in ret (r.1, s.2)
  | EvReleaseFinish => let* r := release_finish model_validate has_registry s.1 in ret (r.1, s.2)
  | EvDrain => let* r := drain model_validate has_registry s.1 in ret (r.1, s.2)
  | EvDeploy req => let* r := deploy cache_dir http_get tar_members req s.2 s.1 in ret r.1
  | EvUndeploy name => ret (undeploy name s.1, s.2)
  end.

Definition serve (evs : list agent_event) (s : AgentState * cache) : M (AgentState * cache) :=
  fold_m evs (λ s ev, agent_event_run ev s) s.

(** What an agent looks like between events *)
Definition package_inv (p : string * DeployedPackageInfo) : Prop :=
  match deploy_state p.2 with
  | D_DEPLOYED => deploy_path p.2 <> ""
  | D_FAILED => deploy_path p.2 = ""
  | _ => False
  end.

Definition agent_inv (st : AgentState) : Prop :=
  match ag_state st with
  | N_IDLE => cluster_id st = "" /\ ray_head_address st = ""
  | N_JOINED | N_DRAINING => True
  | _ => False
  end /\ Forall package_inv (deployed_packages st).

Lemma package_inv_set k p ps :
  Forall package_inv ps -> package_inv (k, p) -> Forall package_inv (dict_set k p ps).
Proof.
  intros Hps Hp. unfold dict_set. destruct (dict_has k ps).
  - induction Hps as [|[k' p'] ps Hx _ IH]; simpl; [constructor|]. constructor; [|done]. by case_decide.
  - apply Forall_app. by split; [|constructor].
Qed.

Lemma package_inv_del k ps : Forall package_inv ps -> Forall package_inv (dict_del k ps).
Proof.
  intros H. apply Forall_forall. intros p [_ Hin]%list_elem_of_filter.
  by apply (proj1 (Forall_forall _ _) H).
Qed.

(** Who the agent is never changes. *)
Definition same_agent (st st' : AgentState) : Prop :=
  ag_node_id st' = ag_node_id st /\ instance_id st' = instance_id st /\ ag_host st' = ag_host st.

Definition serve_inv (st0 : AgentState) (s : AgentState * cache) : Prop :=
  agent_inv s.1 /\ same_agent st0 s.1 /\ cache_inv 50 s.2.

(** A handler that leaves a state of the required shape, the packages as they were *)
Lemma handler_inv {A} st0 st st' (c : cache) (r : exn + A) :
  serve_inv st0 (st, c) -> same_agent st st' -> deployed_packages st' = deployed_packages st ->
  match ag_state st' with
  | N_IDLE => cluster_id st' = "" /\ ray_head_address st' = ""
  | N_JOINED | N_DRAINING => True
  | _ => False
  end ->
  ensures (S := S) (E := E) (ret (st', r)) (λ x, serve_inv st0 (x.1, c)).
Proof.
  intros ([_ Hps] & Hsame & Hc) Hs' Hd Hst. apply ensures_ret. unfold same_agent in *. simpl in *.
  unfold serve_inv, agent_inv, same_agent. cbn [fst snd]. rewrite Hd. naive_solver congruence.
Qed.

Lemma event_inv st0 s ev :
  serve_inv st0 s -> ensures (S := S) (E := E) (agent_event_run ev s) (serve_inv st0).
Proof.
  destruct s as [st c]. intros Hi. pose proof Hi as ([Hst Hps] & Hsame & Hc). simpl in *.
  destruct ev as [req| | |req|name]; unfold agent_event_run; cbn [fst snd].
  - apply (ensures_bind _ _ (λ r, serve_inv st0 (r.1, c))); [|intros; by apply ensures_ret].
    unfold invite. destruct (bool_decide _); cbn [negb]; [|by apply (handler_inv st0 st)].
    apply ensures_any. intros []; cbn [negb]; [|by apply (handler_inv st0 st)].
    apply ensures_any. intros r. by apply (handler_inv st0 st).
  - apply (ensures_bind _ _ (λ r, serve_inv st0 (r.1, c))); [|intros; by apply ensures_ret].
    unfold release_finish. do 2 (apply ensures_any; intros ?). by apply (handler_inv st0 st).
  - apply (ensures_bind _ _ (λ r, serve_inv st0 (r.1, c))); [|intros; by apply ensures_ret].
    unfold drain. destruct (bool_decide _); cbn [negb]; [|by apply (handler_inv st0 st)]. apply ensures_any. intros ?. by apply (handler_inv st0 st).
  - apply (ensures_bind _ _ (λ r, serve_inv st0 r.1)); [|intros; by apply ensures_ret].
    unfold deploy. apply ensures_any. intros now.
    pose proof (fetch_inv 50 (1024 * 1024 * 1024) true http_get tar_members now (dr_url req)
      (match dr_checksum req with "" => None | s => Some s end) c Hc) as Hc'.
    fold (agent_fetch http_get tar_members now req c) in Hc'.
    destruct (agent_fetch http_get tar_members now req c) as [c' [e|key]].
    + apply ensures_ret. split_and!; [split; [done|]|done|done]. by apply package_inv_set.
    + do 2 (apply ensures_any; intros ?). apply ensures_ret. split_and!; [split; [done|]|done|done].
      apply package_inv_set; [done|]. unfold package_inv. simpl. by destruct cache_dir.
  - apply ensures_ret. split_and!; [split; [done|by apply package_inv_del]|done|done].
Qed.
End Serve.

(** C30: Between two events an agent is idle with no cluster, joined or draining, never in
    a transient state; every package it lists is deployed with a path or failed
    without one; its identity never changes; and its package cache stays within its
    limit, with no package that can write outside its own directory.  This holds for
    every sequence of invitations, releases, drains and deployments, whatever the
    [ray] command, the registry, the servers and the archives do. *)
Theorem agent_state_machine (S : Services) (E : Env) model_validate has_registry cache_dir http_get tar_members
    node_id host port uuid evs (w w' : world S) st c :
  run (serve model_validate has_registry cache_dir http_get tar_members evs
         (AgentState_init node_id host port uuid, ∅)) w = (w', inr (st, c)) ->
  agent_inv st /\ ag_node_id st = node_id /\ instance_id st = uuid /\ cache_inv 50 c.
Proof.
  intros Hr.
  pose proof (ensures_fold_m (S := S) (E := E) (serve_inv (AgentState_init node_id host port uuid)) evs
    (λ s ev, agent_event_run model_validate has_registry cache_dir http_get tar_members ev s)
    (λ s ev Hs, event_inv model_validate has_registry cache_dir http_get tar_members _ s ev Hs)
    (AgentState_init node_id host port uuid, ∅)) as He.
  specialize (He ltac:(split_and!; [split; [done|constructor]|done|apply cache_inv_empty]) w).
  unfold serve in Hr. rewrite Hr in He. by destruct He as (? & (? & ? & _) & ?).
Qed.

(** Every command succeeds. *)
Definition ray_up : Env := {|
  delay := λ _, 0%N; redis_fault := λ _, None; db_fault := λ _, None; uuid_at := λ _, "";
  scan_slice := λ _ _ _ ks, (0, ks); http_answer := λ _ _, inr {| resp_status := 200; resp_body := "" |};
  invoke_answer := λ _ _ _, inr (VInt 0) |}.

Lemma agent_state_machine_witness :
  ∃ w' st c, run (S := doc_services) (E := ray_up)
    (serve demo_node_validate false "/tmp/artifact_cache" (λ _, ([], None)) (λ _, inr [])
       [EvInvite {| inv_cluster_id := "c1"; inv_ray_head_address := "h:1"; inv_custom_resources := [] |}; EvDrain;
        EvReleaseFinish] (AgentState_init "n1" "h" 9100 "me", ∅)) (world0 0) = (w', inr (st, c)) /\
    agent_inv st /\ ag_node_id st = "n1" /\ instance_id st = "me" /\ cache_inv 50 c.
Proof.
  set (r := run _ _). assert (Hr : ∃ st, r.2 = inr (st, ∅)) by (eexists; vm_compute; reflexivity).
  destruct Hr as [st Hr]. exists r.1, st, ∅. split; [rewrite <-Hr; apply surjective_pairing|].
  apply (agent_state_machine doc_services ray_up demo_node_validate false "/tmp/artifact_cache" (λ _, ([], None))
           (λ _, inr []) "n1" "h" 9100 "me"
           [EvInvite {| inv_cluster_id := "c1"; inv_ray_head_address := "h:1"; inv_custom_resources := [] |}; EvDrain;
            EvReleaseFinish] (world0 0) r.1 st ∅).
  rewrite <-Hr. apply surjective_pairing.
Defined.

(** * The agent and the registry disagree *)

Section Disagree.
Context {E : Env}.
Implicit Types (w : world doc_services).

Definition keyspace_kept {A} (p : prog A) : Prop := ∀ w, w_redis (run p w).1 = w_redis w.

Lemma kept_ret {A} (a : A) : keyspace_kept (ret a).
Proof. by intros w. Qed.

Lemma kept_bind {A B} (m : M A) (f : A -> M B) :
  keyspace_kept m -> (∀ a, keyspace_kept (f a)) -> keyspace_kept (bind m f).
Proof.
  intros Hm Hf w. rewrite run_bind. specialize (Hm w).
  destruct (run m w) as [w' [e|a]]; [done|]. by rewrite Hf.
Qed.

Lemma kept_except {A} (m : M A) (h : exn -> M A) :
  keyspace_kept m -> (∀ e, keyspace_kept (h e)) -> keyspace_kept (except m h).
Proof.
  intros Hm Hh w. rewrite run_except. specialize (Hm w).
  destruct (run m w) as [w' [e|a]]; [|done]. destruct (is_exception e); [by rewrite Hh|done].
Qed.

Lemma kept_subprocess cmd : keyspace_kept (subprocess_run cmd).
Proof. apply kept_bind; [by intros w|]. intros v. apply kept_ret. Qed.

Lemma kept_ray_start head r : keyspace_kept (ray_start head r).
Proof.
  apply kept_bind; [apply kept_except; [apply kept_subprocess|intros; apply kept_ret]|].
  intros []; [apply kept_ret|]. apply kept_except; [|intros; apply kept_ret].
  apply kept_bind; [apply kept_subprocess|]. intros []; [apply kept_subprocess|apply kept_ret].
Qed.
End Disagree.

(** An accepted invitation of a registered node is answered with an error and never
    recorded: the agent has joined, the registry's update raises [TypeError] on the
    node's model, and every key is as it was before. *)
Theorem joined_not_recorded (E : Env) model_validate req st n (w w' : world doc_services) st' r :
  quiet E -> stored_node model_validate (w_redis w) (ag_node_id st) n -> ag_state st <> N_JOINED ->
  run (invite model_validate true req st) w = (w', inr (st', r)) -> ag_state st' = N_JOINED ->
  (∃ m, r = inl (Exn TypeError m)) /\ ∀ k, at_key (w_redis w') k = at_key (w_redis w) k.
Proof.
  intros HE Hn Hst. unfold invite. destruct (bool_decide _) eqn:Eb; cbn [negb]; [|by intros [= <- <- _]].
  rewrite run_bind. pose proof (kept_ray_start (inv_ray_head_address req) (inv_custom_resources req) w) as Hk.
  destruct (run (ray_start _ _) w) as [w1 [e|[]]]; [done| |by intros [= <- <- _]]. simpl in Hk. cbn [negb].
  rewrite run_bind. unfold notify_registry. rewrite run_attempt_. unfold mark_joined.
  assert (Hn1 : stored_node model_validate (w_redis w1) (ag_node_id st) n) by by rewrite Hk.
  destruct (update_state_raises HE model_validate (ag_node_id st) n "joined" [("ray_node_ip", VStr "")] w1 Hn1)
    as (w2 & m & Hr & Hs). cbn [ag_node_id transition transition_to]. rewrite Hr. cbv beta iota.
  intros [= <- <- <-] _. split; [by eexists|]. intros k. by rewrite Hs, Hk.
Qed.

(** The node's first invitation *)
Lemma joined_not_recorded_witness :
  ∃ w' st' r m, run (S := doc_services) (E := ray_up)
    (invite demo_node_validate true {| inv_cluster_id := "c1"; inv_ray_head_address := "h:1"; inv_custom_resources := [] |}
       demo_agent) w_node = (w', inr (st', r)) /\ r = inl (Exn TypeError m).
Proof.
  set (x := run _ _). assert (Hx : ∃ st' r, x.2 = inr (st', r) /\ ag_state st' = N_JOINED)
    by (do 2 eexists; split; [vm_compute; reflexivity|reflexivity]).
  destruct Hx as (st' & r & Hx & Hj). exists x.1, st', r.
  assert (Hr : x = (x.1, inr (st', r))) by (rewrite <-Hx; apply surjective_pairing).
  destruct (joined_not_recorded ray_up demo_node_validate _ demo_agent (demo_node "n1" 4) w_node _ st' r
              (conj (λ _, eq_refl) (λ _, eq_refl)) w_node_stored ltac:(discriminate) Hr Hj) as [[m Hm] _].
  exists m. split; [exact Hr|exact Hm].
Defined.

(** The resources of an invitation reach the command line as a [bytes] literal. *)
Example start_command_resources :
  start_command "h:1" [("GPU", 2000)] = ["ray"; "start"; "--address=h:1"; resources_flag [("GPU", 2000)]] /\
  starts_with "--resources=b'{" (resources_flag [("GPU", 2000)]) = true.
Proof. split; reflexivity. Qed.
