(* ===== verification/CommandProxy.v ===== *)
(** * Command proxy

    [src/proxy/async_command_proxy.py]: commands run in a thread pool, results kept
    as lists in Redis.  The threads of the pool and of the HTTP handlers share the
    set of cancelled jobs and the table of processes, under a lock; here they are a
    step relation whose steps are the stretches of code between two points at which
    another thread can act.  What a process does and how a Redis call goes are inputs
    of the step: a call may fail, and a failed push may have reached the server or
    not.  The relation keeps all that was pushed for a job, newest first (readers take
    results away, and the key expires); [write_result] and [result] are also given as
    programs, with the calls they make. *)

From Stdlib Require Import Ascii.
From stdpp Require Import base gmap strings list.
From S2P Require Import Prelude PyValue Json Redis TaskModel Tables Effects Registry TaskCompletion.

Open Scope Z_scope.

(** ** Command lines *)

Inductive lex_state := LBetween | LWord | LSingle | LDouble | LEscape (back : bool).

Definition is_space (c : ascii) : bool := bool_decide (nat_of_ascii c ∈ [9; 10; 13; 32]%nat).

(** [shlex.split]: [back] of an escape tells that it is inside double quotes; the current
    word is kept in [word]. *)
Fixpoint lex (s : string) (st : lex_state) (word : string) : exn + list string :=
  let emit rest := match rest with inr ws => inr (word :: ws) | inl e => inl e end in
  let push c := word +:+ String c "" in
  match s with
  | EmptyString =>
      match st with
      | LBetween => inr []
      | LWord => inr [word]
      | LEscape _ => inl (Exn ValueError "No escaped character")
      | _ => inl (Exn ValueError "No closing quotation")
      end
  | String c s' =>
      match st with
      | LBetween | LWord =>
          if is_space c then
            match st with LWord => emit (lex s' LBetween "") | _ => lex s' LBetween "" end
          else if decide (c = "'"%char) then lex s' LSingle word
          else if decide (nat_of_ascii c = 34%nat) then lex s' LDouble word
          else if decide (nat_of_ascii c = 92%nat) then lex s' (LEscape false) word
          else lex s' LWord (push c)
      | LSingle => if decide (c = "'"%char) then lex s' LWord word else lex s' LSingle (push c)
      | LDouble =>
          if decide (nat_of_ascii c = 34%nat) then lex s' LWord word
          else if decide (nat_of_ascii c = 92%nat) then lex s' (LEscape true) word
          else lex s' LDouble (push c)
      | LEscape false => lex s' LWord (push c)
      | LEscape true =>
          if decide (nat_of_ascii c ∈ [34; 92]%nat) then lex s' LDouble (push c)
          else lex s' LDouble (word +:+ String (ascii_of_nat 92) (String c ""))
      end
  end.

Definition shlex_split (s : string) : exn + list string := lex s LBetween "".

Definition param_flags (params : list (string * value)) : list string :=
  params ≫= (λ kv, ("--" +:+ kv.1) ::
    match kv.2 with VNone | VStr "" => [] | v => [py_str v] end).

Definition build_cmd (command : string) (params : list (string * value)) : exn + list string :=
  match shlex_split command with
  | inl e => inl e
  | inr parts => inr (parts ++ param_flags params)
  end.

(** What the thread of a job does before its [try]: the command line, and the
    environment, which must be a mapping *)
Definition prepare (command params env : value) : exn + list string :=
  match command with
  | VStr c =>
      match (if truthy params then
               match params with
               | VDict d => build_cmd c d
               | _ => match shlex_split c with
                      | inl e => inl e
                      | inr _ => inl (Exn AttributeError "object has no attribute 'items'")
                      end
               end
             else build_cmd c []) with
      | inl e => inl e
      | inr cmd =>
          match py_or env (VDict []) with
          | VDict _ => inr cmd
          | _ => inl (Exn TypeError "object is not a mapping")
          end
      end
  | _ => inl (Exn AttributeError "object has no attribute 'read'")
  end.

(** ** Results in Redis *)

Definition RESULT_TTL : Z := 3600.
Definition MAX_WORKERS : nat := 8.
Definition DEFAULT_TIMEOUT : Z := 300.

Definition result_key (job_id : string) : string := "cmd_result:" +:+ job_id.

Definition write_result (job_id : string) (payload : value) : M unit :=
  do* redis (result_key job_id) (LPUSH (orjson_dumps payload)) in
  do* redis (result_key job_id) (EXPIRE RESULT_TTL) in
  ret tt.

Definition pending_result (job_id : string) : value :=
  VDict [("status", VStr "pending"); ("job_id", VStr job_id)].

Definition result (job_id : string) : M value :=
  let* raw := redis (result_key job_id) (LINDEX 0) in
  match raw with
  | None => ret (pending_result job_id)
  | Some text => of_sum (match json_loads text with Some v => inr v | None => inl (Exn ValueError "JSON") end)
  end.

(** ** What a job reports *)

Inductive outcome :=
| Exited (returncode : Z) (stdout stderr : string)
| TimedOut.

Definition elapsed_item (ms : Z) : string * value := ("elapsed", VFloat ms).

Definition outcome_result (o : outcome) (elapsed : Z) : value :=
  match o with
  | Exited 0 out _ =>
      VDict [("status", VStr "success"); ("returncode", VInt 0); ("stdout", VStr out); elapsed_item elapsed]
  | Exited code out err =>
      VDict [("status", VStr "error"); ("returncode", VInt code); ("stdout", VStr out); ("stderr", VStr err);
             elapsed_item elapsed]
  | TimedOut => VDict [("status", VStr "error"); ("error", VStr "timeout"); elapsed_item elapsed]
  end.

Definition error_result (msg : string) : value := VDict [("status", VStr "error"); ("error", VStr msg)].
Definition cancelled_result (job_id : string) : value :=
  VDict [("status", VStr "cancelled"); ("job_id", VStr job_id)].

(** ** Threads *)

(** Where the thread of a job is: in the pool's queue, with its process made but not yet
    in the table, waiting for it, back from it, after the kill of a timeout, with a
    result to push, with the key's time to live to set; in the [except] branch, with
    its own result to push or time to live to set; before the last [finally], and
    ended, with or without an exception of the [except] branch; [JCrashed] is a job
    whose command line or environment cannot be built: that exception is outside
    the [try]. *)
Inductive job_pc :=
| JQueued
| JSpawned
| JRunning
| JExited (r : value)
| JKilled
| JKilledPopped (r : value)
| JWrite (r : value)
| JExpire
| JError (msg : string)
| JErrorExpire
| JCleanup
| JDone
| JCrashed.

(** The thread of a cancellation: before its push, before the time to live, and
    before the [terminate]. *)
Inductive cancel_pc := CWrite (job_id : string) | CExpire (job_id : string) | CKill (job_id : string).

(** [faulted]: the jobs for which a call of Redis has failed *)
Record proxy := Proxy {
  cancelled : gset string;
  processes : gset string;
  store : gmap string (list value);
  commands : gmap string (exn + list string);
  jobs : gmap string job_pc;
  cancels : list cancel_pc;
  faulted : gset string
}.

Definition results_of (p : proxy) (j : string) : list value := default [] (store p !! j).

Definition proxy_init : proxy := Proxy ∅ ∅ ∅ ∅ ∅ [] ∅.

(** A thread of the pool is busy with the job. *)
Definition active (pc : job_pc) : bool :=
  match pc with JQueued | JDone | JCrashed => false | _ => true end.

Definition busy (p : proxy) : nat := size (filter (λ jp, Is_true (active jp.2)) (jobs p)).

Definition push_result (j : string) (r : value) (s : gmap string (list value)) : gmap string (list value) :=
  <[j := r :: default [] (s !! j)]> s.

Definition set_job (j : string) (pc : job_pc) (p : proxy) : proxy :=
  Proxy (cancelled p) (processes p) (store p) (commands p) (<[j := pc]> (jobs p)) (cancels p) (faulted p).

Definition set_cancels (l : list cancel_pc) (p : proxy) : proxy :=
  Proxy (cancelled p) (processes p) (store p) (commands p) (jobs p) l (faulted p).

(** [with _lock: _processes[job_id] = proc] and [_processes.pop(job_id, None)] *)
Definition add_process (j : string) (p : proxy) : proxy :=
  Proxy (cancelled p) ({[j]} ∪ processes p) (store p) (commands p) (jobs p) (cancels p) (faulted p).
Definition pop_process (j : string) (p : proxy) : proxy :=
  Proxy (cancelled p) (processes p ∖ {[j]}) (store p) (commands p) (jobs p) (cancels p) (faulted p).
Definition put_result (j : string) (r : value) (p : proxy) : proxy :=
  Proxy (cancelled p) (processes p) (push_result j r (store p)) (commands p) (jobs p) (cancels p) (faulted p).

(** A call for job [j] fails; a push may have been carried out before. *)
Definition fault (j : string) (p : proxy) : proxy :=
  Proxy (cancelled p) (processes p) (store p) (commands p) (jobs p) (cancels p) ({[j]} ∪ faulted p).
Definition put_or_not (pushed : bool) (j : string) (r : value) (p : proxy) : proxy :=
  if pushed then put_result j r p else p.

(** The check after the process has ended: write unless cancelled *)
Definition check_cancelled (j : string) (r : value) (p : proxy) : job_pc :=
  if decide (j ∈ cancelled p) then JCleanup else JWrite r.

Inductive proxy_step : proxy -> proxy -> Prop :=
(** [/submit]: a fresh identifier, the job queued *)
| step_submit p j command params env :
    jobs p !! j = None ->
    proxy_step p (Proxy (cancelled p) (processes p) (store p) (<[j := prepare command params env]> (commands p))
                    (<[j := JQueued]> (jobs p)) (cancels p) (faulted p))
(** a free thread takes the job: the process is made, cannot be made, or the command line is bad *)
| step_spawn p j cmd :
    jobs p !! j = Some JQueued -> (busy p < MAX_WORKERS)%nat -> commands p !! j = Some (inr cmd) ->
    proxy_step p (set_job j JSpawned p)
| step_spawn_fails p j cmd msg :
    jobs p !! j = Some JQueued -> (busy p < MAX_WORKERS)%nat -> commands p !! j = Some (inr cmd) ->
    proxy_step p (set_job j (JError msg) p)
| step_bad_command p j e :
    jobs p !! j = Some JQueued -> (busy p < MAX_WORKERS)%nat -> commands p !! j = Some (inl e) ->
    proxy_step p (set_job j JCrashed p)
| step_register p j :
    jobs p !! j = Some JSpawned -> proxy_step p (set_job j JRunning (add_process j p))
(** [proc.communicate(timeout)] *)
| step_exit p j code out err elapsed :
    jobs p !! j = Some JRunning ->
    proxy_step p (set_job j (JExited (outcome_result (Exited code out err) elapsed)) p)
| step_timeout p j :
    jobs p !! j = Some JRunning -> proxy_step p (set_job j JKilled p)
| step_communicate_fails p j msg :
    jobs p !! j = Some JRunning \/ jobs p !! j = Some JKilled -> proxy_step p (set_job j (JError msg) p)
(** the timeout branch takes the lock twice *)
| step_killed_pop p j elapsed :
    jobs p !! j = Some JKilled ->
    proxy_step p (set_job j (JKilledPopped (outcome_result TimedOut elapsed)) (pop_process j p))
| step_killed_check p j r :
    jobs p !! j = Some (JKilledPopped r) -> proxy_step p (set_job j (check_cancelled j r p) p)
(** the other branch pops and checks under one lock *)
| step_exited_check p j r :
    jobs p !! j = Some (JExited r) -> proxy_step p (set_job j (check_cancelled j r p) (pop_process j p))
(** [_write_result] in the [try] *)
| step_write p j r :
    jobs p !! j = Some (JWrite r) -> proxy_step p (set_job j JExpire (put_result j r p))
| step_write_fails p j r pushed msg :
    jobs p !! j = Some (JWrite r) -> proxy_step p (set_job j (JError msg) (fault j (put_or_not pushed j r p)))
| step_expire p j :
    jobs p !! j = Some JExpire -> proxy_step p (set_job j JCleanup p)
| step_expire_fails p j msg :
    jobs p !! j = Some JExpire -> proxy_step p (set_job j (JError msg) (fault j p))
(** [_write_result] in the [except] branch; its own failure leaves through the [finally] *)
| step_error_write p j msg :
    jobs p !! j = Some (JError msg) -> proxy_step p (set_job j JErrorExpire (put_result j (error_result msg) p))
| step_error_write_fails p j msg pushed :
    jobs p !! j = Some (JError msg) ->
    proxy_step p (set_job j JCleanup (fault j (put_or_not pushed j (error_result msg) p)))
| step_error_expire p j :
    jobs p !! j = Some JErrorExpire -> proxy_step p (set_job j JCleanup p)
| step_error_expire_fails p j :
    jobs p !! j = Some JErrorExpire -> proxy_step p (set_job j JCleanup (fault j p))
| step_cleanup p j :
    jobs p !! j = Some JCleanup -> proxy_step p (set_job j JDone (pop_process j p))
(** [/cancel/<job_id>], for any identifier; an exception of its writes ends it before
    the [terminate] *)
| step_cancel p j :
    proxy_step p (Proxy ({[j]} ∪ cancelled p) (processes p) (store p) (commands p) (jobs p) (cancels p ++ [CWrite j])
                    (faulted p))
| step_cancel_write p i j :
    cancels p !! i = Some (CWrite j) ->
    proxy_step p (set_cancels (<[i := CExpire j]> (cancels p)) (put_result j (cancelled_result j) p))
| step_cancel_write_fails p i j pushed :
    cancels p !! i = Some (CWrite j) ->
    proxy_step p (set_cancels (delete i (cancels p)) (fault j (put_or_not pushed j (cancelled_result j) p)))
| step_cancel_expire p i j :
    cancels p !! i = Some (CExpire j) -> proxy_step p (set_cancels (<[i := CKill j]> (cancels p)) p)
| step_cancel_expire_fails p i j :
    cancels p !! i = Some (CExpire j) -> proxy_step p (set_cancels (delete i (cancels p)) (fault j p))
| step_cancel_end p i j :
    cancels p !! i = Some (CKill j) -> proxy_step p (set_cancels (delete i (cancels p)) p).

Inductive reachable : proxy -> Prop :=
| reach_init : reachable proxy_init
| reach_step p p' : reachable p -> proxy_step p p' -> reachable p'.

(** * Invariant *)

(** Results other than a cancellation's *)
Definition is_own (r : value) : bool :=
  match r with VDict (("status", VStr "cancelled") :: _) => false | _ => true end.

Definition own_results (p : proxy) (j : string) : nat := length (filter (λ r, Is_true (is_own r)) (results_of p j)).

(** What holds of job [j] where its thread is, of its own results: a second one only
    after a failed call, none at the end only for a job cancelled or with a failed call *)
Definition pc_says (p : proxy) (j : string) (pc : job_pc) : Prop :=
  let n := own_results p j in
  match pc with
  | JQueued | JSpawned | JRunning | JKilled => n = 0%nat
  | JExited r | JKilledPopped r | JWrite r => n = 0%nat /\ is_own r = true
  | JExpire => n = 1%nat
  | JError _ => n = 0%nat \/ n = 1%nat /\ j ∈ faulted p
  | JErrorExpire => n = 1%nat \/ n = 2%nat /\ j ∈ faulted p
  | JCleanup | JDone =>
      n = 1%nat \/ n = 2%nat /\ j ∈ faulted p \/ n = 0%nat /\ (j ∈ cancelled p \/ j ∈ faulted p)
  | JCrashed => n = 0%nat /\ ∃ e, commands p !! j = Some (inl e)
  end.

Definition pc_inv (p : proxy) (j : string) : Prop :=
  match jobs p !! j with Some pc => pc_says p j pc | None => own_results p j = 0%nat end.

(** The states in which the job's process may be in the table *)
Definition may_have_process (pc : option job_pc) : bool :=
  match pc with Some JRunning | Some (JExited _) | Some JKilled | Some (JError _) | Some JErrorExpire | Some JCleanup => true
  | _ => false end.

Definition process_inv (p : proxy) (j : string) : Prop := j ∈ processes p -> may_have_process (jobs p !! j) = true.

(** A cancellation has been pushed, or is about to be, or a call has failed. *)
Definition cancel_inv (p : proxy) (j : string) : Prop :=
  j ∈ cancelled p -> cancelled_result j ∈ results_of p j \/ CWrite j ∈ cancels p \/ j ∈ faulted p.

Lemma outcome_own o e : is_own (outcome_result o e) = true.
Proof. by destruct o as [[|c|c] out err|]. Qed.

Lemma results_push p j k r :
  results_of (put_result j r p) k = if decide (k = j) then r :: results_of p k else results_of p k.
Proof.
  unfold results_of, put_result, push_result. cbn [store]. case_decide as Hk; [subst|].
  - by rewrite lookup_insert_eq.
  - by rewrite lookup_insert_ne.
Qed.

Lemma own_push p j k r :
  own_results (put_result j r p) k = (own_results p k + if decide (k = j) then Nat.b2n (is_own r) else 0)%nat.
Proof.
  unfold own_results. rewrite results_push. case_decide; [|lia].
  rewrite filter_cons. destruct (is_own r); simpl; lia.
Qed.

(** ** The pool *)

Lemma busy_insert p j pc :
  (busy (set_job j pc p) <= busy p + Nat.b2n (active pc))%nat /\
  (active pc = true -> (∃ old, jobs p !! j = Some old /\ active old = true) -> (busy (set_job j pc p) <= busy p)%nat).
Proof.
  unfold busy, set_job. cbn [jobs]. rewrite map_filter_insert. cbn [snd].
  set (f := filter (λ jp : string * job_pc, Is_true (active jp.2)) (jobs p)).
  destruct (active pc) eqn:Ea; simpl.
  - rewrite map_size_insert. split; [case_match; unfold id; lia|].
    intros _ (old & Hj & Ho). assert (f !! j = Some old) as ->; [|done].
    unfold f. rewrite map_lookup_filter_Some. split; [done|]. cbn [snd]. by rewrite Ho.
  - split; [|done]. rewrite map_filter_delete, map_size_delete. case_match; unfold f, id; lia.
Qed.

Definition job_inv (p : proxy) (j : string) : Prop := pc_inv p j /\ process_inv p j /\ cancel_inv p j.

(** A step that leaves what concerns [k] keeps its invariant. *)
Lemma job_inv_frame p p' k :
  jobs p' !! k = jobs p !! k -> commands p' !! k = commands p !! k -> store p' !! k = store p !! k ->
  (k ∈ cancelled p' <-> k ∈ cancelled p) -> (k ∈ faulted p -> k ∈ faulted p') -> (k ∈ processes p' -> k ∈ processes p) ->
  (CWrite k ∈ cancels p -> CWrite k ∈ cancels p' \/ k ∈ faulted p') -> job_inv p k -> job_inv p' k.
Proof.
  unfold job_inv, pc_inv, pc_says, process_inv, cancel_inv, own_results, results_of.
  intros -> -> -> Hc Hf Hp Hw (H1 & H2 & H3). split_and!.
  - destruct (jobs p !! k) as [[]|]; rewrite ?Hc; naive_solver.
  - intros Hk. by apply H2, Hp.
  - rewrite Hc. naive_solver.
Qed.

(** What a step of job [j]'s thread may change besides where it is *)
Record thread_effect (p q : proxy) (j : string) : Prop := {
  te_cancelled : cancelled q = cancelled p;
  te_commands : commands q = commands p;
  te_jobs : jobs q = jobs p;
  te_cancels : cancels q = cancels p;
  te_faulted : ∀ k, k ∈ faulted p -> k ∈ faulted q;
  te_others : ∀ k, k <> j -> store q !! k = store p !! k /\ (k ∈ processes q -> k ∈ processes p);
  te_results : ∀ r, r ∈ results_of p j -> r ∈ results_of q j
}.

Lemma effect_none p j : thread_effect p p j.
Proof. by split. Qed.

Lemma effect_add p j : thread_effect p (add_process j p) j.
Proof. split; try done. intros k Hk. simpl. set_solver. Qed.

Lemma effect_pop p j : thread_effect p (pop_process j p) j.
Proof. split; try done. intros k Hk. simpl. set_solver. Qed.

Lemma effect_fault p j : thread_effect p (fault j p) j.
Proof. split; try done. intros k Hk. simpl. set_solver. Qed.

Lemma effect_put p j r : thread_effect p (put_result j r p) j.
Proof.
  split; try done.
  - intros k Hk. simpl. split; [|done]. unfold push_result. by rewrite lookup_insert_ne.
  - intros r'. rewrite results_push, decide_True by done. by right.
Qed.

Lemma effect_trans p q q' j : thread_effect p q j -> thread_effect q q' j -> thread_effect p q' j.
Proof.
  intros [a1 a2 a3 a4 a5 a6 a7] [b1 b2 b3 b4 b5 b6 b7]. split; try congruence; [auto| |auto].
  intros k Hk. destruct (a6 k Hk), (b6 k Hk). split; [congruence|auto].
Qed.

Lemma effect_put_or_not p j r b : thread_effect p (fault j (put_or_not b j r p)) j.
Proof. eapply effect_trans; [|apply effect_fault]. destruct b; [apply effect_put|apply effect_none]. Qed.

(** A step of job [j]'s thread keeps every invariant where it keeps its own. *)
Lemma thread_step_inv p q j pc :
  (∀ k, job_inv p k) -> thread_effect p q j -> pc_says (set_job j pc q) j pc ->
  (j ∈ processes q -> may_have_process (Some pc) = true) -> ∀ k, job_inv (set_job j pc q) k.
Proof.
  intros Hall [Hc Hm Hj Hx Hf Hk Hr] Hpc Hp k. destruct (decide (k = j)) as [->|Hne].
  - destruct (Hall j) as (_ & _ & Hcan). split_and!.
    + unfold pc_inv. simpl. by rewrite lookup_insert_eq.
    + unfold process_inv. simpl. by rewrite lookup_insert_eq.
    + unfold cancel_inv in *. simpl. rewrite Hc, Hx. intros Hi. destruct (Hcan Hi) as [?|[?|?]]; [left; by apply Hr|auto..].
  - destruct (Hk k Hne) as [Hs Hps]. apply (job_inv_frame p); simpl; rewrite ?Hc, ?Hm, ?Hj, ?Hx; auto.
    by rewrite lookup_insert_ne.
Qed.

Lemma no_process p j : process_inv p j -> may_have_process (jobs p !! j) = false -> j ∉ processes p.
Proof. intros H Hn Hj. rewrite (H Hj) in Hn. done. Qed.

Lemma own_put_or_not p j r b :
  own_results (put_or_not b j r p) j = (own_results p j + Nat.b2n (b && is_own r))%nat.
Proof. destruct b; simpl; [|lia]. rewrite own_push, decide_True by done. done. Qed.

Lemma own_set p j pc k : own_results (set_job j pc p) k = own_results p k.
Proof. done. Qed.

Lemma own_fault p j k : own_results (fault j p) k = own_results p k.
Proof. done. Qed.

(** ** Cancellations *)

Lemma cancel_begin_inv p j :
  (∀ k, job_inv p k) ->
  ∀ k, job_inv (Proxy ({[j]} ∪ cancelled p) (processes p) (store p) (commands p) (jobs p) (cancels p ++ [CWrite j])
                  (faulted p)) k.
Proof.
  intros Hall k. destruct (decide (k = j)) as [->|Hne].
  - destruct (Hall j) as (Hpc & Hproc & Hcan). split_and!; [|exact Hproc|].
    + unfold pc_inv, pc_says, own_results, results_of in *. simpl. destruct (jobs p !! j) as [[]|]; set_solver.
    + intros _. right. left. simpl. set_solver.
  - apply (job_inv_frame p); simpl; try done; set_solver.
Qed.

(** The cancellation's thread pushes nothing of the job's own and may find a call failing. *)
Lemma cancel_step_inv p q j l :
  (∀ k, job_inv p k) -> thread_effect p q j -> processes q = processes p -> own_results q j = own_results p j ->
  (∀ k, k <> j -> CWrite k ∈ cancels p -> CWrite k ∈ l) ->
  cancelled_result j ∈ results_of q j \/ j ∈ faulted q -> ∀ k, job_inv (set_cancels l q) k.
Proof.
  intros Hall [Hc Hm Hj Hx Hf Hk Hr] Hpr Hown Hl Hres k. destruct (decide (k = j)) as [->|Hne].
  - destruct (Hall j) as (Hpc & Hproc & Hcan). split_and!.
    + unfold pc_inv, pc_says in *. change (own_results (set_cancels l q) j) with (own_results q j).
      simpl. rewrite Hj, Hown, Hc, Hm. destruct (jobs p !! j) as [[]|]; naive_solver.
    + unfold process_inv in *. simpl. by rewrite Hj, Hpr.
    + intros _. destruct Hres; [by left|by right; right].
  - destruct (Hk k Hne) as [Hs Hps]. apply (job_inv_frame p); simpl; rewrite ?Hc, ?Hm, ?Hj, ?Hx; auto.
Qed.

Lemma in_insert_other (l : list cancel_pc) i j k pc :
  k <> j -> l !! i = Some (CWrite j) \/ l !! i = Some (CExpire j) -> CWrite k ∈ l -> CWrite k ∈ <[i := pc]> l.
Proof.
  intros Hk Hi [i' Hi']%list_elem_of_lookup. apply list_elem_of_lookup. exists i'.
  rewrite list_lookup_insert_ne; [done|]. intros ->. destruct Hi; congruence.
Qed.

Lemma in_delete_other (l : list cancel_pc) i x k : l !! i = Some x -> x <> CWrite k -> CWrite k ∈ l -> CWrite k ∈ delete i l.
Proof. intros Hi Hx. rewrite (delete_Permutation l i x Hi) at 1. intros [?|?]%elem_of_cons; [congruence|done]. Qed.

Lemma own_cancelled p j b : own_results (put_or_not b j (cancelled_result j) p) j = own_results p j.
Proof. rewrite own_put_or_not. destruct b; simpl; lia. Qed.

(** A thread that leaves the set of results alone and only moves on *)
Lemma cancel_moves_inv p l :
  (∀ k, job_inv p k) -> (∀ k, CWrite k ∈ cancels p -> CWrite k ∈ l) -> ∀ k, job_inv (set_cancels l p) k.
Proof. intros Hall Hl k. apply (job_inv_frame p); try done. simpl. auto. Qed.

Lemma steps_keep_jobs p p' : (∀ k, job_inv p k) -> proxy_step p p' -> ∀ k, job_inv p' k.
Proof.
  intros Hall Hs. destruct Hs as
    [p j command params env Hj|p j cmd Hj _ _|p j cmd msg Hj _ _|p j e Hj _ He|p j Hj|p j code out err el Hj|p j Hj
    |p j msg Hj|p j el Hj|p j r Hj|p j r Hj|p j r Hj|p j r b msg Hj|p j Hj|p j msg Hj|p j msg Hj|p j msg b Hj|p j Hj|p j Hj
    |p j Hj|p j|p i j Hi|p i j b Hi|p i j Hi|p i j Hi|p i j Hi].
  all: try (destruct (Hall j) as (Hpc & Hproc & Hcan); unfold pc_inv in Hpc;
            pose proof (no_process p j Hproc) as Hnone;
            first [rewrite Hj in Hpc, Hnone; simpl in Hpc, Hnone | destruct Hj as [Hj|Hj]; rewrite Hj in Hpc, Hnone; simpl in Hpc, Hnone]).
  - intros k. destruct (decide (k = j)) as [->|Hne].
    + split_and!; [|intros Hp; by destruct (Hnone eq_refl)|exact Hcan].
      unfold pc_inv. simpl. by rewrite lookup_insert_eq.
    + apply (job_inv_frame p); simpl; rewrite ?lookup_insert_ne; auto.
  - apply (thread_step_inv p); [done|apply effect_none|done|by intros ?%Hnone].
  - apply (thread_step_inv p); [done|apply effect_none|by left|done].
  - apply (thread_step_inv p); [done|apply effect_none|split; [done|by eauto]|by intros ?%Hnone].
  - apply (thread_step_inv p); [done|apply effect_add|done|done].
  - apply (thread_step_inv p); [done|apply effect_none|split; [done|apply outcome_own]|done].
  - apply (thread_step_inv p); [done|apply effect_none|done|done].
  - apply (thread_step_inv p); [done|apply effect_none|by left|done].
  - apply (thread_step_inv p); [done|apply effect_none|by left|done].
  - apply (thread_step_inv p); [done|apply effect_pop|split; [done|apply outcome_own]|simpl; set_solver].
  - apply (thread_step_inv p); [done|apply effect_none| |by intros ?%Hnone].
    unfold check_cancelled. case_decide; simpl; tauto.
  - apply (thread_step_inv p); [done|apply effect_pop| |simpl; set_solver].
    unfold check_cancelled. case_decide; simpl; tauto.
  - apply (thread_step_inv p); [done|apply effect_put| |by intros ?%Hnone].
    unfold pc_says. rewrite own_set, own_push, decide_True by done. destruct Hpc as [-> ->]. done.
  - apply (thread_step_inv p); [done|apply effect_put_or_not| |done].
    unfold pc_says. rewrite own_set, own_fault, own_put_or_not. destruct Hpc as [-> ->]. destruct b; simpl; set_solver.
  - apply (thread_step_inv p); [done|apply effect_none|by left|done].
  - apply (thread_step_inv p); [done|apply effect_fault| |done].
    unfold pc_says. rewrite own_set, own_fault, Hpc. simpl. set_solver.
  - apply (thread_step_inv p); [done|apply effect_put| |done].
    unfold pc_says. rewrite own_set, own_push, decide_True by done. simpl. destruct Hpc as [-> |[-> ?]]; [by left|by right].
  - apply (thread_step_inv p); [done|apply effect_put_or_not| |done].
    unfold pc_says. rewrite own_set, own_fault, own_put_or_not. destruct Hpc as [-> |[-> ?]], b; simpl; set_solver.
  - apply (thread_step_inv p); [done|apply effect_none| |done].
    unfold pc_says. rewrite own_set. simpl. tauto.
  - apply (thread_step_inv p); [done|apply effect_fault| |done].
    unfold pc_says. rewrite own_set, own_fault. simpl. set_solver.
  - apply (thread_step_inv p); [done|apply effect_pop|exact Hpc|simpl; set_solver].
  - by apply (cancel_begin_inv p j).
  - apply (cancel_step_inv p _ j); [done|apply effect_put|done|apply (own_cancelled p j true)| |].
    + intros k Hk. apply (in_insert_other _ i j); auto.
    + left. rewrite results_push, decide_True by done. by left.
  - apply (cancel_step_inv p _ j); [done|apply effect_put_or_not|by destruct b|rewrite own_fault; apply own_cancelled| |].
    + intros k Hk. apply (in_delete_other _ i (CWrite j)); congruence.
    + right. simpl. set_solver.
  - apply cancel_moves_inv; [done|]. intros k [i' Hi']%list_elem_of_lookup. apply list_elem_of_lookup. exists i'.
    rewrite list_lookup_insert_ne; [done|]. intros ->. congruence.
  - apply (cancel_step_inv p _ j); [done|apply effect_fault|done|done| |].
    + intros k Hk. by apply (in_delete_other _ i (CExpire j)).
    + right. simpl. set_solver.
  - apply cancel_moves_inv; [done|]. intros k. by apply (in_delete_other _ i (CKill j)).
Qed.

(** ** The pool's size *)

Lemma busy_active p q j old pc n :
  jobs q = jobs p -> jobs p !! j = Some old -> active old = true -> active pc = true ->
  (busy p <= n)%nat -> (busy (set_job j pc q) <= n)%nat.
Proof.
  intros Hq Hj Ho Ha Hn. etrans; [apply busy_insert; [done|exists old; by rewrite Hq]|].
  unfold busy. by rewrite Hq.
Qed.

Lemma steps_keep_busy p p' : (busy p <= MAX_WORKERS)%nat -> proxy_step p p' -> (busy p' <= MAX_WORKERS)%nat.
Proof.
  intros Hb Hs. destruct Hs as
    [p j command params env Hj|p j cmd Hj Hlt _|p j cmd msg Hj Hlt _|p j e Hj _ He|p j Hj|p j code out err el Hj|p j Hj
    |p j msg Hj|p j el Hj|p j r Hj|p j r Hj|p j r Hj|p j r b msg Hj|p j Hj|p j msg Hj|p j msg Hj|p j msg b Hj|p j Hj|p j Hj
    |p j Hj|p j|p i j Hi|p i j b Hi|p i j Hi|p i j Hi|p i j Hi]; try done.
  - change (busy (set_job j JQueued p) <= MAX_WORKERS)%nat. pose proof (proj1 (busy_insert p j JQueued)). simpl in *. lia.
  - pose proof (proj1 (busy_insert p j JSpawned)). simpl in *. lia.
  - pose proof (proj1 (busy_insert p j (JError msg))). simpl in *. lia.
  - pose proof (proj1 (busy_insert p j JCrashed)). simpl in *. lia.
  - by apply (busy_active p (add_process j p) j JSpawned).
  - by apply (busy_active p p j JRunning).
  - by apply (busy_active p p j JRunning).
  - destruct Hj as [Hj|Hj]; [by apply (busy_active p p j JRunning)|by apply (busy_active p p j JKilled)].
  - by apply (busy_active p (pop_process j p) j JKilled).
  - apply (busy_active p p j (JKilledPopped r)); try done. unfold check_cancelled. by case_decide.
  - apply (busy_active p (pop_process j p) j (JExited r)); try done. unfold check_cancelled. by case_decide.
  - by apply (busy_active p (put_result j r p) j (JWrite r)).
  - apply (busy_active p (fault j (put_or_not b j r p)) j (JWrite r)); try done. by destruct b.
  - by apply (busy_active p p j JExpire).
  - by apply (busy_active p (fault j p) j JExpire).
  - by apply (busy_active p (put_result j (error_result msg) p) j (JError msg)).
  - apply (busy_active p (fault j (put_or_not b j (error_result msg) p)) j (JError msg)); try done. by destruct b.
  - by apply (busy_active p p j JErrorExpire).
  - by apply (busy_active p (fault j p) j JErrorExpire).
  - pose proof (proj1 (busy_insert (pop_process j p) j JDone)) as H. change (busy (pop_process j p)) with (busy p) in H.
    simpl in H. lia.
  - change (busy (put_or_not b j (cancelled_result j) p) <= MAX_WORKERS)%nat. by destruct b.
Qed.

Lemma reachable_inv p : reachable p -> (∀ j, job_inv p j) /\ (busy p <= MAX_WORKERS)%nat.
Proof.
  induction 1 as [|p p' _ [IH Hb] Hs].
  - split; [|vm_compute; lia]. intros j.
    split_and!; [done|by intros ?%not_elem_of_empty|by intros ?%not_elem_of_empty].
  - split; [by eapply steps_keep_jobs|by eapply steps_keep_busy].
Qed.

(** * Properties *)

(** C38: however the threads of jobs and of cancellations interleave, whatever the
    processes do and whichever calls of Redis fail, carried out or not: at most
    [MAX_WORKERS] commands run at a time; a job reports at most two results of its own,
    and two only after a failed call (the [except] branch then adds an error); a job
    whose thread has ended has reported a result, unless a call failed for it or it was
    cancelled, and then its cancellation has been pushed or is about to be; it leaves
    no process in the table.  A job is without a result at its end otherwise only when
    its command line or its environment could not be built. *)
Theorem command_proxy_results p j :
  reachable p ->
  (busy p <= MAX_WORKERS)%nat /\
  (own_results p j <= 2)%nat /\ (own_results p j = 2%nat -> j ∈ faulted p) /\
  (jobs p !! j = Some JDone ->
     (own_results p j >= 1 \/ cancelled_result j ∈ results_of p j \/ CWrite j ∈ cancels p \/ j ∈ faulted p)%nat /\
     j ∉ processes p) /\
  (jobs p !! j = Some JCrashed -> own_results p j = 0%nat /\ ∃ e, commands p !! j = Some (inl e)).
Proof.
  intros Hr. destruct (reachable_inv p Hr) as [Hall Hb]. destruct (Hall j) as (Hpc & Hproc & Hcan).
  unfold pc_inv in Hpc. split_and!; [done| | | |].
  - destruct (jobs p !! j) as [[]|]; simpl in Hpc; lia.
  - intros Hn. destruct (jobs p !! j) as [[]|]; simpl in Hpc; rewrite Hn in Hpc; naive_solver lia.
  - intros Hj. split; [|apply no_process; [done|by rewrite Hj]].
    rewrite Hj in Hpc. destruct Hpc as [Hn|[[Hn _]|[_ [Hc|Hf]]]]; [left; lia|left; lia| |by right; right; right].
    right. by apply Hcan.
  - intros Hj. by rewrite Hj in Hpc.
Qed.

(** A sequence of steps *)
Inductive steps : proxy -> proxy -> Prop :=
| steps_refl p : steps p p
| steps_one p q r : proxy_step p q -> steps q r -> steps p r.

Lemma steps_reachable p q : steps p q -> reachable p -> reachable q.
Proof. induction 1 as [|p q r Hs _ IH]; intros Hp; [done|]. apply IH. by eapply reach_step. Qed.

(** Every thread that has its process can finish, whatever the others do not do. *)
Lemma can_finish_active p j pc :
  jobs p !! j = Some pc -> active pc = true -> ∃ q, steps p q /\ jobs q !! j = Some JDone.
Proof.
  assert (Hclean : ∀ p, jobs p !! j = Some JCleanup -> ∃ q, steps p q /\ jobs q !! j = Some JDone).
  { intros q Hj. eexists. split; [eapply steps_one; [by apply step_cleanup|constructor]|]. simpl. apply lookup_insert_eq. }
  assert (Hstep : ∀ p q, proxy_step p q -> (∃ q', steps q q' /\ jobs q' !! j = Some JDone) -> ∃ q', steps p q' /\ jobs q' !! j = Some JDone).
  { intros p1 q1 Hs (q' & ? & ?). exists q'. split; [by eapply steps_one|done]. }
  assert (Hexp : ∀ p, jobs p !! j = Some JExpire -> ∃ q, steps p q /\ jobs q !! j = Some JDone).
  { intros q Hj. eapply Hstep; [by apply step_expire|]. apply Hclean. simpl. apply lookup_insert_eq. }
  assert (Hwrite : ∀ p r, jobs p !! j = Some (JWrite r) -> ∃ q, steps p q /\ jobs q !! j = Some JDone).
  { intros q r Hj. eapply Hstep; [by apply step_write|]. apply Hexp. simpl. apply lookup_insert_eq. }
  assert (Heexp : ∀ p, jobs p !! j = Some JErrorExpire -> ∃ q, steps p q /\ jobs q !! j = Some JDone).
  { intros q Hj. eapply Hstep; [by apply step_error_expire|]. apply Hclean. simpl. apply lookup_insert_eq. }
  assert (Hcheck : ∀ p q r, proxy_step p (set_job j (check_cancelled j r p) q) -> ∃ q, steps p q /\ jobs q !! j = Some JDone).
  { intros q q' r Hs. eapply Hstep; [exact Hs|].
    unfold check_cancelled. case_decide; [apply Hclean|eapply Hwrite]; simpl; apply lookup_insert_eq. }
  assert (Hrun : ∀ p, jobs p !! j = Some JRunning -> ∃ q, steps p q /\ jobs q !! j = Some JDone).
  { intros q Hj. eapply Hstep; [exact (step_exit q j 0 "" "" 0 Hj)|].
    eapply Hcheck, step_exited_check. simpl. apply lookup_insert_eq. }
  intros Hj Ha. destruct pc as [| | |r| |r|r| |msg| | | |]; try done;
    [|by apply Hrun| | | |by eapply Hwrite|by apply Hexp| |by apply Heexp|by apply Hclean].
  - eapply Hstep; [by apply step_register|]. apply Hrun. simpl. apply lookup_insert_eq.
  - eapply Hcheck. by apply step_exited_check.
  - eapply Hstep; [exact (step_killed_pop p j 0 Hj)|]. eapply Hcheck, step_killed_check. simpl. apply lookup_insert_eq.
  - eapply Hcheck. by apply step_killed_check.
  - eapply Hstep; [by apply step_error_write|]. apply Heexp. simpl. apply lookup_insert_eq.
Qed.

(** ** Runs *)

(** One job to its end *)
Definition submitted : proxy :=
  Proxy ∅ ∅ ∅ (<["j" := prepare (VStr "echo hi") (VDict []) (VDict [])]> ∅) (<["j" := JQueued]> ∅) [] ∅.

Lemma submitted_reachable : reachable submitted.
Proof. exact (reach_step proxy_init submitted reach_init (step_submit proxy_init "j" (VStr "echo hi") (VDict []) (VDict []) eq_refl)). Qed.

Lemma job_pushed_reachable :
  ∃ p, reachable p /\ jobs p !! "j" = Some JExpire /\ results_of p "j" = [outcome_result (Exited 0 "out" "") 5].
Proof.
  set (r := outcome_result (Exited 0 "out" "") 5).
  set (p2 := set_job "j" JSpawned submitted). set (p3 := set_job "j" JRunning (add_process "j" p2)).
  set (p4 := set_job "j" (JExited r) p3). set (p5 := set_job "j" (JWrite r) (pop_process "j" p4)).
  set (p6 := set_job "j" JExpire (put_result "j" r p5)).
  exists p6. split; [|split; vm_compute; reflexivity].
  refine (reach_step p5 p6 _ (step_write p5 "j" r eq_refl)).
  refine (reach_step p4 p5 _ (step_exited_check p4 "j" r eq_refl)).
  refine (reach_step p3 p4 _ (step_exit p3 "j" 0 "out" "" 5 eq_refl)).
  refine (reach_step p2 p3 _ (step_register p2 "j" eq_refl)).
  refine (reach_step submitted p2 submitted_reachable (step_spawn submitted "j" ["echo"; "hi"] eq_refl _ eq_refl)).
  vm_compute. lia.
Qed.

Lemma job_done_reachable :
  ∃ p, reachable p /\ jobs p !! "j" = Some JDone /\ results_of p "j" = [outcome_result (Exited 0 "out" "") 5].
Proof.
  destruct job_pushed_reachable as (p & Hr & Hj & Hres).
  exists (set_job "j" JDone (pop_process "j" (set_job "j" JCleanup p))). split_and!; [|simpl; apply lookup_insert_eq|exact Hres].
  eapply reach_step; [|apply step_cleanup; simpl; apply lookup_insert_eq].
  eapply reach_step; [exact Hr|by apply step_expire].
Qed.

Lemma command_proxy_results_witness :
  ∃ p, reachable p /\ jobs p !! "j" = Some JDone /\ (own_results p "j" <= 2)%nat /\ "j" ∉ processes p.
Proof.
  destruct job_done_reachable as (p & Hr & Hd & _). exists p.
  destruct (command_proxy_results p "j" Hr) as (_ & H1 & _ & H2 & _). destruct (H2 Hd) as [_ H3].
  split; [exact Hr|]. split; [exact Hd|]. split; [exact H1|exact H3].
Defined.

(** When setting the time to live fails after the push, the [except] branch pushes an
    error in front of the result: a job that succeeded is read as failed. *)
Theorem failed_expire_hides_result :
  ∃ p, reachable p /\ jobs p !! "j" = Some JDone /\
    results_of p "j" = [error_result "Connection reset"; outcome_result (Exited 0 "out" "") 5].
Proof.
  destruct job_pushed_reachable as (p & Hr & Hd & Hres).
  set (p1 := set_job "j" (JError "Connection reset") (fault "j" p)).
  set (p2 := set_job "j" JErrorExpire (put_result "j" (error_result "Connection reset") p1)).
  exists (set_job "j" JDone (pop_process "j" (set_job "j" JCleanup p2))). split_and!.
  - eapply reach_step; [|apply step_cleanup; by simpl; rewrite lookup_insert_eq].
    eapply reach_step; [|apply step_error_expire; by simpl; rewrite lookup_insert_eq].
    eapply reach_step; [|apply step_error_write; by simpl; rewrite lookup_insert_eq].
    eapply reach_step; [exact Hr|by apply step_expire_fails].
  - simpl. apply lookup_insert_eq.
  - change (results_of (put_result "j" (error_result "Connection reset") p1) "j" =
      [error_result "Connection reset"; outcome_result (Exited 0 "out" "") 5]).
    rewrite results_push, decide_True by done. f_equal. exact Hres.
Qed.

(** A job cancelled while it waits for a thread is still run: nothing looks at the mark
    before the process is made. *)
Theorem cancelled_job_still_runs :
  ∃ p q, reachable p /\ "j" ∈ cancelled p /\ cancelled_result "j" ∈ results_of p "j" /\ jobs p !! "j" = Some JQueued /\
    proxy_step p q /\ jobs q !! "j" = Some JSpawned.
Proof.
  set (p2 := Proxy ({["j"]} ∪ cancelled submitted) (processes submitted) (store submitted) (commands submitted)
               (jobs submitted) (cancels submitted ++ [CWrite "j"]) (faulted submitted)).
  set (p3 := set_cancels (<[0%nat := CExpire "j"]> (cancels p2)) (put_result "j" (cancelled_result "j") p2)).
  exists p3, (set_job "j" JSpawned p3). split.
  { refine (reach_step p2 p3 _ (step_cancel_write p2 0 "j" eq_refl)).
    exact (reach_step submitted p2 submitted_reachable (step_cancel submitted "j")). }
  split; [by apply elem_of_union_l, elem_of_singleton|]. split; [left|]. split; [vm_compute; reflexivity|].
  split; [|vm_compute; reflexivity].
  refine (step_spawn p3 "j" ["echo"; "hi"] eq_refl _ eq_refl). vm_compute. lia.
Qed.

(** A cancellation between the check and the end of a job, or after it, adds a second
    result, in front of the first: the job's result is no longer what is read. *)
Theorem late_cancel_hides_result :
  ∃ p, reachable p /\ jobs p !! "j" = Some JDone /\
    results_of p "j" = [cancelled_result "j"; outcome_result (Exited 0 "out" "") 5].
Proof.
  destruct job_done_reachable as (p & Hr & Hd & Hres).
  set (q := Proxy ({["j"]} ∪ cancelled p) (processes p) (store p) (commands p) (jobs p) (cancels p ++ [CWrite "j"]) (faulted p)).
  exists (set_cancels (<[length (cancels p) := CExpire "j"]> (cancels q)) (put_result "j" (cancelled_result "j") q)).
  split_and!; [|done|].
  - eapply reach_step; [eapply reach_step; [exact Hr|apply (step_cancel p "j")]|].
    apply (step_cancel_write q). simpl. by rewrite lookup_app_r, Nat.sub_diag by done.
  - change (results_of (put_result "j" (cancelled_result "j") q) "j" =
      [cancelled_result "j"; outcome_result (Exited 0 "out" "") 5]).
    rewrite results_push, decide_True by done. f_equal. exact Hres.
Qed.

(** A job whose command line does not parse, or whose environment is no mapping, never
    gets an answer of its own: its thread ends outside the [try], and no step takes it
    further. *)
Theorem bad_command_never_answers p p' j :
  reachable p -> jobs p !! j = Some JCrashed -> proxy_step p p' ->
  jobs p' !! j = Some JCrashed /\ own_results p' j = 0%nat.
Proof.
  intros Hr Hj Hs.
  assert (Hj' : jobs p' !! j = Some JCrashed)
    by (destruct Hs; simpl; try done; try (by destruct pushed); rewrite lookup_insert_ne; try (by destruct pushed); naive_solver congruence).
  split; [done|]. destruct (reachable_inv p' (reach_step _ _ Hr Hs)) as [Hall _].
  destruct (Hall j) as (Hpc & _). unfold pc_inv in Hpc. rewrite Hj' in Hpc. apply Hpc.
Qed.

Example unbalanced_quote : build_cmd "echo 'hi" [] = inl (Exn ValueError "No closing quotation").
Proof. reflexivity. Qed.

Example build_cmd_example :
  build_cmd "run --name 'a b' \x" [("n", VInt 3); ("v", VNone); ("e", VStr ""); ("f", VBool true)] =
  inr ["run"; "--name"; "a b"; "x"; "--n"; "3"; "--v"; "--e"; "--f"; "True"].
Proof. reflexivity. Qed.
