(* ===== verification/ServiceProxy.v ===== *)
(** * Service proxy and proxy workers

    [src/proxy/async_service_proxy.py] forwards a request to a slow service in a
    thread and leaves the answer in a Redis list; [src/workload/async_proxy_worker.py]
    is the worker that submits the request and takes the answer from the list.  The
    threads of the proxy and the waiting workers are programs of [Effects.v], so that
    they can be interleaved.  How [requests] writes parameters into a URL is the
    parameter [encode_params].  [BLPOP] is the server looking at the key a number of
    times, which the schedule decides, until there is an element or the time is over. *)

From Stdlib Require Import Ascii.
From stdpp Require Import base gmap strings list.
From S2P Require Import Prelude PyValue Json Redis TaskModel Tables Effects QueueKeys CircuitBreaker QueueManager TaskCompletion Tracking.

Open Scope Z_scope.

(** * The proxy *)

Definition RESULT_TTL : Z := 3600.
Definition HOP_BY_HOP : list string :=
  ["connection"; "keep-alive"; "proxy-authenticate"; "proxy-authorization"; "te"; "trailers"; "transfer-encoding"; "upgrade"].

Definition slash : list ascii := ["/"%char].

Record job := Job {
  job_id : string;
  result_key : string;
  full_url : string;
  payload : list (string * value);
  fwd_headers : list (string * string);
  method : value
}.

(** [resp.ok] of [requests] *)
Definition resp_ok (r : http_response) : bool := resp_status r <? 400.

(** [resp.json()], or the text when it is not JSON *)
Definition resp_data (r : http_response) : value :=
  match json_loads (resp_body r) with Some v => v | None => VStr (resp_body r) end.

Definition answer_result (r : http_response) (elapsed : Z) : value :=
  VDict [("status", VStr (if resp_ok r then "success" else "error")); ("http_status", VInt (resp_status r));
         ("data", resp_data r); ("elapsed", VFloat elapsed)].

Definition failure_result (e : exn) (elapsed : Z) : value :=
  VDict [("status", VStr "error"); ("http_status", VInt 0); ("data", VStr (exn_str e)); ("elapsed", VFloat elapsed)].

Definition stored_result (a : exn + http_response) (elapsed : Z) : value :=
  match a with inr r => answer_result r elapsed | inl e => failure_result e elapsed end.

Definition forwarded (header : string * string) : bool :=
  negb (bool_decide (str_lower header.1 ∈ HOP_BY_HOP)) && negb (bool_decide (str_lower header.1 = "host")).

Definition join_url (base path : string) : string := rstrip slash base +:+ "/" +:+ lstrip slash path.

(** [/submit]: the job that is handed to the pool, and the answer *)
Definition submit (backend_url : string) (headers : list (string * string)) (json : value) : M (job * value) :=
  match py_or json (VDict []) with
  | VDict body =>
      let backend_path := dict_get_or "_backend_path" (VStr "/generate") body in
      let method := dict_get_or "_method" (VStr "POST") (dict_del "_backend_path" body) in
      let* id := uuid4 in
      let key := "proxy_result:" +:+ id in
      match backend_path with
      | VStr path =>
          ret (Job id key (join_url backend_url path) (dict_del "_method" (dict_del "_backend_path" body))
                 (filter (λ h, Is_true (forwarded h)) headers) method,
               VDict [("job_id", VStr id); ("result_key", VStr key)])
      | _ => raise (Exn AttributeError "object has no attribute 'lstrip'")
      end
  | VList _ => raise (Exn TypeError "pop expected at most 1 argument, got 2")
  | _ => raise (Exn AttributeError "object has no attribute 'pop'")
  end.

Section Proxy.
Context (encode_params : list (string * value) -> string).

(** What [requests.get] or [requests.post] sends *)
Definition backend_request (j : job) (m : string) : http_request :=
  if bool_decide (str_upper m = "GET") then
    {| req_method := "GET"; req_url := full_url j +:+ encode_params (payload j); req_headers := fwd_headers j;
       req_body := "" |}
  else
    {| req_method := "POST"; req_url := full_url j; req_headers := fwd_headers j;
       req_body := json_dumps (VDict (payload j)) |}.

Definition forward (j : job) : M http_response :=
  match method j with
  | VStr m => http (backend_request j m)
  | _ => raise (Exn AttributeError "object has no attribute 'upper'")
  end.

(** The thread of a job *)
Definition forward_and_store (j : job) : M unit :=
  let* t0 := time_ms in
  let* result :=
    except (let* resp := forward j in let* t1 := time_ms in ret (answer_result resp (t1 - t0)))
      (λ e, let* t1 := time_ms in ret (failure_result e (t1 - t0))) in
  do* redis (result_key j) (LPUSH (orjson_dumps result)) in
  do* redis (result_key j) (EXPIRE RESULT_TTL) in
  ret tt.
End Proxy.

(** [/result/<job_id>]: the status code and the body *)
Definition get_result (id : string) : M (Z * value) :=
  let* raw := redis ("proxy_result:" +:+ id) (LINDEX 0) in
  match raw with
  | None => ret (202, VDict [("status", VStr "pending")])
  | Some text =>
      match json_loads text with
      | Some v => ret (200, v)
      | None => raise (Exn ValueError "JSON")
      end
  end.

(** * The worker *)

Record AsyncProxyWorker := {
  capability : string;
  backend_path : string;
  timeout : Z;
  http_method : string;
  actor_index : nat;
  proxy_url : value;
  redis_url : value;
  call_count : nat
}.

(** [int(v)] of a configuration value *)
Definition int_of (v : value) : exn + Z :=
  match v with
  | VInt n => inr n
  | VBool b => inr (if b then 1 else 0)
  | VFloat m => inr (Z.quot m 1000)
  | VStr s => match Z_of_dec s with Some n => inr n | None => inl (Exn ValueError "invalid literal for int()") end
  | _ => inl (Exn TypeError "int() argument")
  end.

(** [__init__] of a class with the attributes [path] and [meth] *)
Definition AsyncProxyWorker_init (getenv : string -> option string) (path meth cap : string)
    (config : list (string * value)) : exn + AsyncProxyWorker :=
  let index := 0%nat in
  let urls := py_or (dict_get_or "proxy_urls" VNone config) (VList []) in
  let url := py_or (dict_get_or "proxy_url" VNone config) (VStr (default "" (getenv "PROXY_URL"))) in
  let rurl := py_or (dict_get_or "redis_url" VNone config) (VStr (default "redis://localhost:6379/0" (getenv "REDIS_URL"))) in
  let build (p : value) (t : Z) := {|
    capability := cap; backend_path := path; timeout := t; http_method := meth; actor_index := index;
    proxy_url := p; redis_url := rurl; call_count := 0 |} in
  match urls with
  | VList us =>
      let p := match us with
               | [] => if truthy url then url else VStr "http://localhost:5000"
               | _ => default VNone (us !! (index mod length us)%nat)
               end in
      match dict_get "timeout" config with
      | None => inr (build p 300)
      | Some v => match int_of v with inr t => inr (build p t) | inl e => inl e end
      end
  | _ => inl (Exn TypeError "proxy_urls")
  end.

Definition transform_output (data : value) : value :=
  match data with VDict d => VDict d | v => VDict [("result", v)] end.

Definition submit_payload (w : AsyncProxyWorker) (data : value) : list (string * value) :=
  dict_update [("_backend_path", VStr (backend_path w)); ("_method", VStr (http_method w))]
    (match data with VDict d => d | v => [("data", v)] end).

(** [raise_for_status] and [json()] of the answer to [/submit] *)
Definition submit_answer (r : http_response) : exn + value :=
  if resp_ok r then
    match json_loads (resp_body r) with Some v => inr v | None => inl (Exn ValueError "JSON") end
  else inl (Exn HTTPStatusError (dec_of_Z (resp_status r))).

(** [BLPOP key timeout]: the server looks at the key at most [S looks] times *)
Fixpoint blpop_until (looks : nat) (key : string) (deadline : Z) : M (option string) :=
  let* v := redis key LPOP in
  match v, looks with
  | Some x, _ => ret (Some x)
  | None, O => ret None
  | None, Datatypes.S looks' =>
      let* now := time_ms in
      if deadline <=? now then ret None else blpop_until looks' key deadline
  end.

Definition blpop (looks : nat) (key : string) (seconds : Z) : M (option string) :=
  let* now := time_ms in blpop_until looks key (now + seconds * 1000).

(** What the worker makes of the text it took *)
Definition read_result (text : string) : exn + value :=
  match json_loads text with
  | None => inl (Exn ProxyBackendError "Invalid JSON in result: (decoder text)")
  | Some (VDict result) =>
      let status := dict_get_or "status" (VStr "") result in
      if py_eq status (VStr "cancelled") then inl (Exn ProxyBackendError "Job was cancelled")
      else if py_eq status (VStr "error") then
        inl (Exn ProxyBackendError (py_str (py_or (dict_get_or "error" VNone result) (VStr (py_str (VDict result))))))
      else inr (transform_output (dict_get_or "data" (VDict result) result))
  | Some _ => inl (Exn AttributeError "object has no attribute 'get'")
  end.

Definition wait_result (looks : nat) (w : AsyncProxyWorker) (key : string) : M value :=
  let* raw := blpop looks key (timeout w) in
  match raw with
  | None => raise (Exn ProxyTimeoutError ("Timed out waiting for result_key=" +:+ key +:+ " after "
                     +:+ dec_of_Z (timeout w) +:+ "s"))
  | Some text => of_sum (read_result text)
  end.

Definition call (looks : nat) (w : AsyncProxyWorker) (data : value) : M value :=
  if bool_decide (backend_path w = "") then raise (Exn ValueError "AsyncProxyWorker.backend_path must be set")
  else
    let url := match proxy_url w with VStr u => inr (rstrip slash u +:+ "/submit") | _ => inl (Exn AttributeError "rstrip") end in
    let* submit_url := of_sum url in
    let* submit_resp :=
      except (let* r := http {| req_method := "POST"; req_url := submit_url; req_headers := [];
                                req_body := json_dumps (VDict (submit_payload w data)) |} in
              of_sum (submit_answer r))
        (λ e, raise (Exn ProxySubmitError ("Failed to submit to " +:+ submit_url +:+ ": " +:+ exn_str e))) in
    match submit_resp with
    | VDict d =>
        match dict_get_or "result_key" (VStr "") d with
        | VStr "" => raise (Exn ProxySubmitError "Proxy /submit did not return result_key")
        | VStr key => wait_result looks w key
        | v => if truthy v then raise (Exn TypeError "key")
               else raise (Exn ProxySubmitError "Proxy /submit did not return result_key")
        end
    | _ => raise (Exn AttributeError "object has no attribute 'get'")
    end.

(** [run]: pre-process, call, post-process and count; the hooks of the subclass are
    parameters *)
Definition worker_run (pre post : value -> exn + value) (looks : nat) (w : AsyncProxyWorker) (input : value) :
    M (AsyncProxyWorker * value) :=
  let* processed := of_sum (pre input) in
  let* raw := call looks w processed in
  let* result := of_sum (post raw) in
  ret ({| capability := capability w; backend_path := backend_path w; timeout := timeout w;
          http_method := http_method w; actor_index := actor_index w; proxy_url := proxy_url w;
          redis_url := redis_url w; call_count := S (call_count w) |}, result).

(** * Whose answer a worker gets *)

Section Correlation.
Context {E : Env} (encode_params : list (string * value) -> string) (js : list job).

(** What the backend may answer to the request of [j] *)
Definition answer_of (j : job) (n : nat) : exn + http_response :=
  match method j with
  | VStr m => http_answer n (backend_request encode_params j m)
  | _ => inl (Exn AttributeError "object has no attribute 'upper'")
  end.

Definition own_text (j : job) (text : string) : Prop :=
  ∃ n elapsed, text = orjson_dumps (stored_result (answer_of j n) elapsed).

(** The lists under the jobs' keys hold results of their own jobs only. *)
Definition own_lists (ks : keyspace) : Prop :=
  ∀ j l exp, j ∈ js -> ks !! result_key j = Some (REntry (RList l) exp) -> Forall (own_text j) l.

Lemma own_lists_put k e ks :
  own_lists ks -> (∀ j l exp, j ∈ js -> result_key j = k -> e = Some (REntry (RList l) exp) -> Forall (own_text j) l) ->
  own_lists (put k e ks).
Proof.
  intros Hks He j l exp Hj. unfold put. destruct (decide (result_key j = k)) as [<-|Hk].
  - destruct e as [e|]; rewrite ?lookup_insert_eq, ?lookup_delete_eq; [|done]. intros [= ->]. by eapply He.
  - destruct e as [e|]; rewrite ?lookup_insert_ne, ?lookup_delete_ne by congruence; by apply Hks.
Qed.

Lemma own_lists_live now ks j l exp :
  own_lists ks -> j ∈ js -> live now ks (result_key j) = Some (REntry (RList l) exp) -> Forall (own_text j) l.
Proof.
  intros Hks Hj. unfold live. destruct (ks !! result_key j) as [e|] eqn:He; [|done].
  intros Hl. assert (e = REntry (RList l) exp) as -> by (repeat case_match; by simplify_eq). by eapply Hks.
Qed.

(** A command on a list keeps the invariant when it turns lists of own results into such. *)
Lemma own_lists_on_list now ks k {X} (f : list string -> list string * X) :
  own_lists ks -> (∀ j l, j ∈ js -> result_key j = k -> Forall (own_text j) l -> Forall (own_text j) (f l).1) ->
  own_lists (put k (on_list (live now ks k) f).1 ks).
Proof.
  intros Hks Hf. apply own_lists_put; [done|]. intros j l exp Hj <- Hl.
  unfold on_list in Hl. destruct (list_of (live now ks (result_key j))) as [l0|] eqn:El.
  - assert (Hl0 : Forall (own_text j) l0).
    { destruct (live now ks (result_key j)) as [[[]]|] eqn:Ee; simplify_eq/=; [|constructor].
      by eapply own_lists_live. }
    specialize (Hf j l0 Hj eq_refl Hl0). destruct (f l0) as [l1 x]. simpl in *. unfold keep in Hl.
    case_bool_decide; by simplify_eq.
  - simpl in Hl. by eapply own_lists_live.
Qed.

(** What a worker that waits for [j] may end with *)
Definition own_outcome (j : job) (r : exn + value) : Prop :=
  match r with
  | inr v => ∃ n resp, answer_of j n = inr resp /\ resp_ok resp = true /\ v = transform_output (resp_data resp)
  | inl (Exn ProxyBackendError _) => ∃ n, match answer_of j n with inr resp => resp_ok resp = false | inl _ => True end
  | inl _ => True
  end.

Lemma read_answer r elapsed :
  read_result (orjson_dumps (answer_result r elapsed)) =
  if resp_ok r then inr (transform_output (resp_data r))
  else inl (Exn ProxyBackendError (py_str (answer_result r elapsed))).
Proof. unfold read_result. rewrite loads_orjson_dumps. unfold answer_result. by destruct (resp_ok r). Qed.

Lemma read_failure e elapsed :
  read_result (orjson_dumps (failure_result e elapsed)) =
  inl (Exn ProxyBackendError (py_str (failure_result e elapsed))).
Proof. unfold read_result. by rewrite loads_orjson_dumps. Qed.

Lemma read_own j text : own_text j text -> own_outcome j (read_result text).
Proof.
  intros (n & el & ->). destruct (answer_of j n) as [e|r] eqn:Ea; unfold stored_result.
  - rewrite read_failure. exists n. by rewrite Ea.
  - rewrite read_answer. destruct (resp_ok r) eqn:Eo; simpl; [by exists n, r|]. exists n. by rewrite Ea.
Qed.

Definition distinct_keys : Prop := ∀ i j, i ∈ js -> j ∈ js -> result_key i = result_key j -> i = j.

Lemma respects_push j text :
  distinct_keys -> j ∈ js -> own_text j text -> respects own_lists (λ _, True) (redis (result_key j) (LPUSH text)).
Proof.
  intros Hd Hj Ht. apply respects_redis; [|done|done]. intros now ks Hks. cbn [act_doc].
  apply own_lists_on_list; [done|]. intros j' l Hj' Hk Hl. simpl.
  rewrite (Hd _ _ Hj' Hj Hk) in *. by constructor.
Qed.

Lemma respects_expire k sec : respects own_lists (λ _, True) (redis k (EXPIRE sec)).
Proof.
  apply respects_redis; [|done|done]. intros now ks Hks. cbn [act_doc]. apply own_lists_put; [done|].
  intros j l exp Hj <- He. unfold set_expiry in He. destruct (live now ks (result_key j)) as [[v x]|] eqn:El; [|done].
  destruct (_ <=? _); simplify_eq/=. by eapply own_lists_live.
Qed.

Lemma respects_forward j :
  respects own_lists (λ r, match r with inr a => ∃ n, answer_of j n = inr a | inl e => ∃ n, answer_of j n = inl e end)
    (forward encode_params j).
Proof.
  unfold forward, answer_of. destruct (method j); try (simpl; by exists 0%nat).
  apply respects_http. intros n. by destruct (http_answer n _) eqn:Ea; exists n.
Qed.

(** The thread of a job *)
Definition forward_thread (j : job) : M value := do* forward_and_store encode_params j in ret VNone.

Lemma respects_thread j : distinct_keys -> j ∈ js -> respects own_lists (λ _, True) (forward_thread j).
Proof.
  intros Hd Hj. unfold forward_thread, forward_and_store.
  apply (respects_bind _ (λ _, True)); [|done].
  apply (respects_bind _ (λ _, True)); [by apply respects_time|]. intros t0 _.
  apply (respects_bind _ (λ v, own_text j (orjson_dumps v))).
  - unfold except, catch. eapply respects_pbind.
    + eapply (respects_bind _ _ (λ r, match r with inr v => own_text j (orjson_dumps v) | inl e => ∃ n, answer_of j n = inl e end));
        [apply respects_forward|]. intros r [n Hn].
      apply (respects_bind _ (λ _, True)); [by apply respects_time|]. intros t1 _. simpl.
      exists n, (t1 - t0). by rewrite Hn.
    + intros [e|v] Hr; [|done]. destruct Hr as [n Hn]. destruct (is_exception e); [|done].
      apply (respects_bind _ (λ _, True)); [by apply respects_time|]. intros t1 _. simpl.
      exists n, (t1 - t0). by rewrite Hn.
  - intros v Hv. apply (respects_bind _ (λ _, True)); [|intros _ _; apply (respects_bind _ (λ _, True)); [|done]].
    + eapply respects_weaken; [by apply respects_push|]. by intros [].
    + eapply respects_weaken; [apply respects_expire|]. by intros [].
Qed.

(** Redis does not raise the worker's own exceptions. *)
Definition redis_errors : Prop := ∀ n m, redis_fault n <> Some (Exn ProxyBackendError m).

Lemma respects_lpop j :
  redis_errors -> j ∈ js ->
  respects own_lists (λ r, match r with
                           | inr (Some text) => own_text j text
                           | inr None => True
                           | inl e => own_outcome j (inl e)
                           end) (redis (result_key j) LPOP).
Proof.
  intros Hf Hj. apply respects_redis.
  - intros now ks Hks. cbn [act_doc]. apply own_lists_on_list; [done|].
    intros j' l Hj' Hk Hl. simpl. destruct Hl; [constructor|done].
  - intros now ks Hks. cbn [act_doc]. unfold on_list.
    destruct (live now ks (result_key j)) as [[[| | | |[|text l]] x]|] eqn:El; simpl; try done.
    by apply (Forall_cons_1 _ _ _ (own_lists_live _ _ _ _ _ Hks Hj El)).
  - intros n e He. destruct e as [[]|]; try done. by destruct (Hf n msg).
Qed.

Lemma respects_blpop j looks deadline :
  redis_errors -> j ∈ js ->
  respects own_lists (λ r, match r with
                           | inr (Some text) => own_text j text
                           | inr None => True
                           | inl e => own_outcome j (inl e)
                           end) (blpop_until looks (result_key j) deadline).
Proof.
  intros Hf Hj. induction looks as [|looks IH]; simpl;
    (eapply respects_bind; [by apply respects_lpop|]; intros [text|] Ht; [done|]); [done|].
  apply (respects_bind _ (λ _, True)); [by apply respects_time|]. intros t _. by destruct (_ <=? _).
Qed.

Lemma respects_wait j looks w :
  redis_errors -> j ∈ js -> respects own_lists (own_outcome j) (wait_result looks w (result_key j)).
Proof.
  intros Hf Hj. unfold wait_result. eapply respects_bind.
  - unfold blpop. apply (respects_bind _ (λ _, True)); [by apply respects_time|]. intros t _.
    by apply respects_blpop.
  - intros [text|] Ht; [|done]. by apply read_own.
Qed.
End Correlation.

(** C31: Answers are not mixed up.  Any number of jobs, each with its thread in the proxy
    and a worker waiting for it, interleaved in any way, with any delays, failing
    Redis calls and any answers of the backend: a worker that returns, returns what
    the backend answered to the request of its own job, successfully; and it raises
    [ProxyBackendError] only when the request of its own job failed. *)
Theorem proxy_answers_own_request (S : Services) (E : Env) encode_params js looks wk sched (w : world S) :
  redis_errors -> distinct_keys js -> (∀ j, j ∈ js -> ks_of w !! result_key j = None) ->
  let '(ps, _) := interleave sched
     (map (forward_thread encode_params) js ++ map (λ j, wait_result looks wk (result_key j)) js) w in
  ∀ i j r, js !! i = Some j -> ps !! (length js + i)%nat = Some (Ret r) -> own_outcome encode_params j r.
Proof.
  intros Hf Hd Hk. set (ps0 := _ ++ _).
  set (Q := λ (i : nat) (r : exn + value),
    ∀ j, (length js <= i)%nat -> js !! (i - length js)%nat = Some j -> own_outcome encode_params j r).
  assert (Hps : ∀ i p, ps0 !! i = Some p -> respects (own_lists encode_params js) (Q i) p).
  { intros i p [Hi|[Hle Hi]]%lookup_app_Some.
    - pose proof (lookup_lt_Some _ _ _ Hi) as Hlt. rewrite length_map in Hlt.
      rewrite list_lookup_fmap in Hi. destruct (js !! i) as [j|] eqn:Ej; simplify_eq/=.
      eapply respects_weaken; [eapply respects_thread; [done|by eapply list_elem_of_lookup_2]|].
      intros r _ j' Hle. lia.
    - rewrite length_map in Hle, Hi. rewrite list_lookup_fmap in Hi.
      destruct (js !! (i - length js)%nat) as [j|] eqn:Ej; simplify_eq/=.
      eapply respects_weaken; [apply respects_wait; [done|by eapply list_elem_of_lookup_2]|].
      intros r Hr j' _ Hj'. by simplify_eq. }
  pose proof (interleave_respects _ Q sched ps0 (wview w) Hps) as H.
  rewrite interleave_view in H. destruct (interleave sched ps0 w) as [ps w']. simpl in H.
  assert (Hw : own_lists encode_params js (rview (w_redis w))).
  { intros j' l exp Hj' Hl. specialize (Hk j' Hj'). unfold ks_of in Hk. congruence. }
  intros i j r Hj Hr. apply (H Hw _ _ Hr j); [lia|].
  by replace (length js + i - length js)%nat with i by lia.
Qed.

(** ** Submission *)

Lemma dict_get_none {A} k (d : list (string * A)) : dict_get k d = None <-> k ∉ d.*1.
Proof.
  induction d as [|[k' v] d IH]; simpl; [set_solver|]. rewrite not_elem_of_cons.
  destruct (dict_get k d); [split; [done|]; intros [_ ?]; by apply IH in H|].
  case_decide; naive_solver.
Qed.

Lemma dict_update_fresh {A} (d e : list (string * A)) :
  NoDup e.*1 -> (∀ k, k ∈ e.*1 -> k ∉ d.*1) -> dict_update d e = d ++ e.
Proof.
  unfold dict_update. revert d. induction e as [|[k v] e IH]; intros d Hnd Hk; simpl; [by rewrite app_nil_r|].
  apply NoDup_cons in Hnd as [Hn Hnd]. unfold dict_set at 2, dict_has.
  assert (dict_get k d = None) as -> by (apply dict_get_none, Hk; by left).
  rewrite IH; [by rewrite <-app_assoc|done|].
  intros k' Hk'. rewrite fmap_app. simpl. intros [H|H]%elem_of_app; [by apply (Hk k'); [right|]|].
  apply list_elem_of_singleton in H as ->. done.
Qed.

Lemma dict_del_fresh {A} k (d : list (string * A)) : k ∉ d.*1 -> dict_del k d = d.
Proof.
  unfold dict_del. induction d as [|[k' v] d IH]; [done|]. simpl. intros [Hne Hk]%not_elem_of_cons.
  rewrite filter_cons_True by (simpl; congruence). by rewrite IH.
Qed.

Lemma py_or_dict kv d x : py_or (VDict (kv :: d)) x = VDict (kv :: d).
Proof. done. Qed.

Lemma payload_path wk d :
  dict_get_or "_backend_path" (VStr "/generate") (submit_payload wk (VDict d)) =
  default (VStr (backend_path wk)) (dict_get "_backend_path" d).
Proof. unfold dict_get_or, submit_payload. rewrite dict_get_update. by destruct (dict_get _ d). Qed.

(** A worker's submission makes the job it asks for: the proxy draws an identifier, the
    backend's URL gets the worker's path, and the backend gets the input itself, with
    the two reserved keys taken out again. *)
Theorem submission_roundtrip (E : Env) backend_url headers wk d (w : world doc_services) :
  NoDup d.*1 -> "_backend_path" ∉ d.*1 -> "_method" ∉ d.*1 ->
  ∃ json, json_loads (json_dumps (VDict (submit_payload wk (VDict d)))) = Some json /\
    (run (submit backend_url headers json) w).2 =
    let id := uuid_at (w_tick w) in let key := "proxy_result:" +:+ id in
    inr (Job id key (join_url backend_url (backend_path wk)) d (filter (λ h, Is_true (forwarded h)) headers)
           (VStr (http_method wk)),
         VDict [("job_id", VStr id); ("result_key", VStr key)]).
Proof.
  intros Hnd Hp Hm. eexists. split; [apply loads_json_dumps|].
  assert (Hpay : submit_payload wk (VDict d) =
    ("_backend_path", VStr (backend_path wk)) :: ("_method", VStr (http_method wk)) :: d).
  { unfold submit_payload. rewrite dict_update_fresh; [done|done|].
    simpl. intros k Hk [->|[->|[]%elem_of_nil]%elem_of_cons]%elem_of_cons; done. }
  unfold submit. rewrite Hpay, py_or_dict. cbv zeta iota.
  assert (dict_del "_backend_path" (("_backend_path", VStr (backend_path wk)) :: ("_method", VStr (http_method wk)) :: d) =
          ("_method", VStr (http_method wk)) :: d) as ->.
  { unfold dict_del. rewrite filter_cons_False by naive_solver. rewrite filter_cons_True by done. f_equal.
    by apply (dict_del_fresh (A := value)). }
  assert (dict_del "_method" (("_method", VStr (http_method wk)) :: d) = d) as ->.
  { unfold dict_del. rewrite filter_cons_False by naive_solver. by apply (dict_del_fresh (A := value)). }
  unfold dict_get_or. cbn [dict_get].
  assert (dict_get "_backend_path" d = None) as -> by by apply dict_get_none.
  assert (dict_get "_method" d = None) as -> by by apply dict_get_none.
  simpl. rewrite run_bind, run_uuid4. done.
Qed.

(** The input decides over the worker: an entry [_backend_path] of a task's input is where
    the request goes, whatever path the worker's class names. *)
Theorem input_overrides_path (E : Env) backend_url headers wk d path (w : world doc_services) :
  dict_get "_backend_path" d = Some (VStr path) ->
  ∃ j a, (run (submit backend_url headers (VDict (submit_payload wk (VDict d)))) w).2 = inr (j, a) /\
    full_url j = join_url backend_url path.
Proof.
  intros Hd. pose proof (payload_path wk d) as Hp. rewrite Hd in Hp. cbn [default] in Hp.
  unfold submit. destruct (submit_payload wk (VDict d)) as [|kv d'] eqn:Ep.
  - assert (Hg : dict_get "_backend_path" (submit_payload wk (VDict d)) = Some (VStr path))
      by (unfold submit_payload; by rewrite dict_get_update, Hd). by rewrite Ep in Hg.
  - rewrite py_or_dict. cbv zeta iota. rewrite Hp, run_bind, run_uuid4. by eexists _, _.
Qed.

(** The list of proxies of a configuration is never shared out: the index that would
    choose among them is zero when the choice is made. *)
Theorem workers_share_first_proxy getenv path meth cap config u us wk :
  dict_get "proxy_urls" config = Some (VList (u :: us)) ->
  AsyncProxyWorker_init getenv path meth cap config = inr wk -> proxy_url wk = u.
Proof.
  intros Hc. unfold AsyncProxyWorker_init.
  assert (dict_get_or "proxy_urls" VNone config = VList (u :: us)) as -> by (unfold dict_get_or; by rewrite Hc).
  assert (py_or (VList (u :: us)) (VList []) = VList (u :: us)) as -> by done.
  cbv zeta iota. replace (0 mod length (u :: us))%nat with 0%nat by (by rewrite Nat.Div0.mod_0_l).
  destruct (dict_get "timeout" config) as [v|]; [destruct (int_of v); [done|]|]; by intros [= <-].
Qed.

(** ** Delivery *)

Section Delivery.
Context {E : Env} (HE : quiet E).
Notation W := (world doc_services).

Lemma run_forward encode_params j m t0 (w : W) :
  method j = VStr m -> let a := http_answer (w_tick w) (backend_request encode_params j m) in
  (∀ e, a = inl e -> is_exception e = true) ->
  ∃ w' el, run (except (let* resp := forward encode_params j in let* t1 := time_ms in ret (answer_result resp (t1 - t0)))
      (λ e, let* t1 := time_ms in ret (failure_result e (t1 - t0)))) w = (w', inr (stored_result a el)) /\
    w_redis w' = w_redis w /\ w_now w <= w_now w'.
Proof.
  intros Hm a Ha. rewrite run_except, run_bind. unfold forward. rewrite Hm. cbn [run http effx step]. fold a.
  destruct a as [e|r].
  - rewrite (Ha e eq_refl), run_bind, run_time_ms. simpl. eexists _, _. split; [done|]. split; [done|simpl; lia].
  - rewrite run_bind, run_time_ms. simpl. eexists _, _. split; [done|]. split; [done|simpl; lia].
Qed.

(** What the thread of a job leaves behind *)
Lemma run_forward_and_store encode_params j m (w w1 : W) r :
  method j = VStr m -> w_redis w !! result_key j = None ->
  let a := http_answer (S (w_tick w)) (backend_request encode_params j m) in
  (∀ e, a = inl e -> is_exception e = true) ->
  run (forward_and_store encode_params j) w = (w1, r) ->
  r = inr tt /\ ∃ el x, w_redis w1 !! result_key j = Some (REntry (RList [orjson_dumps (stored_result a el)]) (Some x)) /\
    w_now w + RESULT_TTL * 1000 <= x.
Proof using HE.
  intros Hm Hk a Ha. unfold forward_and_store. rewrite run_bind, run_time_ms. cbv beta iota. rewrite run_bind.
  set (wa := after _ _ w). destruct (run_forward encode_params j m (w_now w) wa Hm Ha) as (w' & el & -> & Hr & Ht).
  cbv beta iota. rewrite run_bind, run_redis, (proj1 HE).
  assert (live (w_now w') (w_redis w') (result_key j) = None) as -> by (unfold live; rewrite Hr; simpl in *; by rewrite Hk).
  cbn [act_doc on_list list_of exp_of]. rewrite run_bind, run_redis, (proj1 HE). cbn [w_redis after].
  change (keep (RList [?x]) None) with (Some (REntry (RList [x]) None)). simpl.
  rewrite live_put_eq by done. intros [= <- <-]. split; [done|]. eexists el, _. simpl.
  split; [apply lookup_insert_eq|]. unfold RESULT_TTL. assert (w_now w <= w_now wa) by (simpl; lia). lia.
Qed.

(** A waiting worker takes the result and leaves nothing. *)
Lemma wait_takes looks wk key text x (w : W) :
  live (w_now w + Z.of_N (delay (w_tick w))) (w_redis w) key = Some (REntry (RList [text]) x) ->
  ∃ w', run (wait_result looks wk key) w = (w', read_result text) /\ w_redis w' = delete key (w_redis w).
Proof using HE.
  intros Hl. unfold wait_result, blpop. rewrite !run_bind, run_time_ms. cbv beta iota.
  destruct looks; simpl; rewrite run_bind, run_redis, (proj1 HE); cbn [w_now w_redis after advance]; rewrite Hl;
    simpl; by eexists.
Qed.
End Delivery.

(** Delivery.  When no Redis call fails, the thread of a job leaves the backend's
    answer under the job's key, and a worker that starts to wait within the hour (its
    first call included) gets it: the data of a successful answer, or
    [ProxyBackendError] with the text of a failed one.  It is then gone from Redis, so
    that nobody gets it twice. *)
Theorem result_delivered (E : Env) encode_params j m looks wk (w w1 w2 : world doc_services) r :
  quiet E -> method j = VStr m -> w_redis w !! result_key j = None ->
  let a := http_answer (S (w_tick w)) (backend_request encode_params j m) in
  (∀ e, a = inl e -> is_exception e = true) ->
  run (forward_and_store encode_params j) w = (w1, r) ->
  w_redis w2 = w_redis w1 -> w_now w2 + Z.of_N (delay (w_tick w2)) < w_now w + RESULT_TTL * 1000 ->
  ∃ w3 el,
    run (wait_result looks wk (result_key j)) w2 =
    (w3, match a with
         | inr resp => if resp_ok resp then inr (transform_output (resp_data resp))
                       else inl (Exn ProxyBackendError (py_str (answer_result resp el)))
         | inl e => inl (Exn ProxyBackendError (py_str (failure_result e el)))
         end) /\
    w_redis w3 !! result_key j = None.
Proof.
  intros HE Hm Hk a Ha Hr Hw Ht.
  destruct (run_forward_and_store HE encode_params j m w w1 r Hm Hk Ha Hr) as (-> & el & x & Hx & Hlive).
  destruct (wait_takes HE looks wk (result_key j) (orjson_dumps (stored_result a el)) (Some x) w2) as (w3 & Hr3 & Hk3).
  { unfold live. rewrite Hw. simpl in *. rewrite Hx. unfold expired. simpl. case_match; [|done]. bool_to_prop. lia. }
  exists w3, el. split; [|rewrite Hk3; exact (lookup_delete_eq (M := gmap string) (w_redis w2 : keyspace) (result_key j))]. rewrite Hr3. f_equal. unfold stored_result.
  destruct a as [e|resp]; [apply read_failure|apply read_answer].
Qed.

(** A worker whose result does not come raises [ProxyTimeoutError], in any number of looks. *)
Theorem wait_times_out (E : Env) looks wk key (w : world doc_services) :
  quiet E -> w_redis w !! key = None ->
  (run (wait_result looks wk key) w).2 =
  inl (Exn ProxyTimeoutError ("Timed out waiting for result_key=" +:+ key +:+ " after " +:+ dec_of_Z (timeout wk) +:+ "s")).
Proof.
  intros HE Hk. unfold wait_result, blpop. rewrite !run_bind, run_time_ms. cbv beta iota.
  set (d := w_now w + _). set (w1 := after _ _ w). assert (Hk1 : w_redis w1 !! key = None) by done. clearbody d w1.
  enough (Hn : ∀ w1 : world doc_services, w_redis w1 !! key = None -> (run (blpop_until looks key d) w1).2 = inr None).
  { specialize (Hn w1 Hk1). destruct (run (blpop_until looks key d) w1) as [w2 r]. simpl in Hn. by subst r. }
  clear w Hk w1 Hk1. induction looks as [|looks IH]; intros w Hk; cbn [blpop_until]; rewrite run_bind, run_redis, (proj1 HE);
    (assert (live (w_now w) (w_redis w) key = None) as -> by (unfold live; simpl in *; by rewrite Hk)); [done|].
  change (act_doc (w_now w) LPOP None) with (None : option rentry, inr None : exn + option string).
  cbv beta iota. rewrite run_bind, run_time_ms. cbv beta iota.
  destruct (_ <=? _); [done|]. apply IH. simpl.
  by apply (lookup_delete_None (M := gmap string) (w_redis w : keyspace)); right.
Qed.

(** ** Runs *)

Definition demo_job (id : string) : job :=
  Job id ("proxy_result:" +:+ id) ("http://b/" +:+ id) [("n", VInt 1)] [] (VStr "POST").

Definition demo_worker : AsyncProxyWorker := {|
  capability := "c"; backend_path := "/generate"; timeout := 300; http_method := "POST"; actor_index := 0;
  proxy_url := VStr "http://localhost:5000"; redis_url := VStr ""; call_count := 0 |}.

(** A backend that answers with the URL it was asked for. *)
Definition echo : Env := {|
  delay := λ _, 0%N; redis_fault := λ _, None; db_fault := λ _, None; uuid_at := λ _, "u";
  scan_slice := λ _ _ _ ks, (0, ks);
  http_answer := λ _ r, inr {| resp_status := 200; resp_body := json_dumps (VStr (req_url r)) |};
  invoke_answer := λ _ _ _, inr VNone |}.

Lemma proxy_answers_own_request_witness :
  let ps := (interleave (E := echo) (S := doc_services) [0; 1; 3; 0; 1; 1; 0; 2; 1; 2; 0; 0; 2; 3; 2; 3; 3]%nat
     (map (forward_thread (λ _, "")) [demo_job "a"; demo_job "b"] ++
      map (λ j, wait_result 3 demo_worker (result_key j)) [demo_job "a"; demo_job "b"]) (world0 0)).1 in
  ∃ r, ps !! 3%nat = Some (Ret r) /\ own_outcome (E := echo) (λ _, "") (demo_job "b") r.
Proof.
  pose proof (proxy_answers_own_request doc_services echo (λ _, "") [demo_job "a"; demo_job "b"] 3 demo_worker
    [0; 1; 3; 0; 1; 1; 0; 2; 1; 2; 0; 0; 2; 3; 2; 3; 3]%nat (world0 0) ltac:(intros n m; done)
    ltac:(intros i j Hi Hj; set_unfold; intros Hk; destruct Hi as [->|[->|[]]], Hj as [->|[->|[]]]; done)
    ltac:(intros j Hj; reflexivity)) as H.
  intros ps. assert (Hr : ps !! 3%nat = Some (Ret (inr (VDict [("result", VStr "http://b/b")]))))
    by (vm_compute; reflexivity).
  eexists. split; [exact Hr|]. subst ps. destruct (interleave _ _ _) as [ps w']. exact (H 1%nat _ _ eq_refl Hr).
Defined.

Lemma result_delivered_witness :
  ∃ w3, run (E := echo) (wait_result 0 demo_worker (result_key (demo_job "a")))
     (run (E := echo) (forward_and_store (λ _, "") (demo_job "a")) (world0 0)).1 =
   (w3, inr (VDict [("result", VStr "http://b/a")])).
Proof.
  destruct (result_delivered echo (λ _, "") (demo_job "a") "POST" 0 demo_worker (world0 0) _
              (run (E := echo) (forward_and_store (λ _, "") (demo_job "a")) (world0 0)).1 _ (conj (λ _, eq_refl) (λ _, eq_refl))
              eq_refl eq_refl ltac:(done) (surjective_pairing _) eq_refl ltac:(vm_compute; reflexivity)) as (w3 & el & H & _).
  exists w3. rewrite H. reflexivity.
Defined.

Example two_proxies_first :
  match AsyncProxyWorker_init (λ _, None) "/g" "POST" "c"
          [("proxy_urls", VList [VStr "http://p1"; VStr "http://p2"]); ("timeout", VStr "60")] with
  | inr wk => (proxy_url wk, timeout wk) = (VStr "http://p1", 60)
  | inl _ => False
  end.
Proof. vm_compute. reflexivity. Qed.
