(* ===== verification/SchedulerActor.v ===== *)
(** * Scheduler actor and worker base classes

    [src/workload/scheduler_actor.py]: the actor of a cluster that keeps one pool of
    workers per capability and dispatches to it; [src/workload/base_worker_actor.py]
    and [src/workload/worker_dev_kit.py]: the template method of workers and the local
    test kit.  Ray is outside the repository: [ray.get_actor], the creation of an actor
    and calls of a pool are the effect [invoke], with any answer.  Whether Ray can be
    imported is the parameter [ray_available]. *)

From stdpp Require Import base gmap strings list.
From S2P Require Import Prelude PyValue Json Redis TaskModel Tables Effects Registry TaskCompletion.

Open Scope Z_scope.

(** ** Names *)

Definition ACTIVE_KEY (cluster_id : string) : string := "scheduler:active:" +:+ cluster_id.
Definition POOL_MAP_KEY (name : string) : string := "scheduler:" +:+ name +:+ ":pools".

Definition actor_name (cluster_id release : string) : string := "scheduler_" +:+ cluster_id +:+ "__" +:+ release.

Definition tenant_actor_namespace (tenant_id : string) : string :=
  if bool_decide (tenant_id = "") || bool_decide (tenant_id = "default") then "ray_async"
  else "ray_async_" +:+ tenant_id.

(** ** Pools *)

(** What is registered for a capability: an object of this process, or the handle of an
    actor *)
Inductive pool := Local (obj : value) | Handle (h : value).

Definition class_name (p : pool) : string :=
  match p with Local _ => "ActorPoolManager" | Handle _ => "ActorHandle" end.

Record SchedulerActor := {
  sa_cluster_id : string;
  sa_release : string;
  sa_redis : bool;
  sa_tenant_id : string;
  sa_name : string;
  sa_pools : gmap string pool
}.

Definition SchedulerActor_init (cluster_id release : string) (has_redis : bool) (tenant_id : string) : SchedulerActor := {|
  sa_cluster_id := cluster_id; sa_release := release; sa_redis := has_redis; sa_tenant_id := tenant_id;
  sa_name := actor_name cluster_id release; sa_pools := ∅
|}.

Definition set_pools (ps : gmap string pool) (a : SchedulerActor) : SchedulerActor := {|
  sa_cluster_id := sa_cluster_id a; sa_release := sa_release a; sa_redis := sa_redis a; sa_tenant_id := sa_tenant_id a;
  sa_name := sa_name a; sa_pools := ps
|}.

(** An operation that assigns attributes before it may raise answers with the object and
    its outcome. *)
Definition register_pool (capability : string) (p : pool) (a : SchedulerActor) : prog (SchedulerActor * (exn + unit)) :=
  let a' := set_pools (<[capability := p]> (sa_pools a)) a in
  if sa_redis a then
    pbind (redis (POOL_MAP_KEY (sa_name a)) (HSET [(capability, class_name p)]))
      (λ r, Ret (a', match r with inr _ => inr tt | inl e => inl e end))
  else Ret (a', inr tt).

Definition get_actor (name : string) (namespace : option string) : M value :=
  invoke "ray.get_actor" (VList (VStr name :: match namespace with Some ns => [VStr ns] | None => [] end)).

(** The loop of [_recover_pools_from_redis] *)
Fixpoint recover_loop (key : string) (entries : list (string * string)) (ps : gmap string pool) :
    prog (gmap string pool * (exn + unit)) :=
  match entries with
  | [] => Ret (ps, inr tt)
  | (cap, pool_name) :: rest =>
      match ps !! cap with
      | Some _ => recover_loop key rest ps
      | None =>
          pbind (get_actor pool_name None) (λ r,
            match r with
            | inr h => recover_loop key rest (<[cap := Handle h]> ps)
            | inl e =>
                if is_exception e then
                  pbind (redis key (HDEL cap)) (λ r,
                    match r with inr _ => recover_loop key rest ps | inl e => Ret (ps, inl e) end)
                else Ret (ps, inl e)
            end)
      end
  end.

Definition recover_pools_from_redis (ray_available : bool) (a : SchedulerActor) : prog (SchedulerActor * (exn + unit)) :=
  if negb (sa_redis a) || negb ray_available then Ret (a, inr tt)
  else
    let key := POOL_MAP_KEY (sa_name a) in
    pbind (redis key HGETALL) (λ r,
      match r with
      | inl e => Ret (a, inl e)
      | inr mapping =>
          pbind (recover_loop key (map_to_list mapping) (sa_pools a)) (λ pr, Ret (set_pools pr.1 a, pr.2))
      end).

(** ** Dispatch *)

Definition get_pool (capability : string) (a : SchedulerActor) : exn + pool :=
  match sa_pools a !! capability with
  | Some p => inr p
  | None => inl (Exn RuntimeError ("SchedulerActor: no pool registered for capability=" +:+ repr_str capability))
  end.

(** [pool.m.remote(...)] and [ray.get], or [await pool.m(...)] without Ray: a method of a
    plain object has no attribute [remote] *)
Definition call_pool (ray_available : bool) (p : pool) (m : string) (args : list (string * value)) : M value :=
  match p with
  | Handle h => invoke ("pool." +:+ m) (VList [h; VDict args])
  | Local o =>
      if ray_available then raise (Exn AttributeError "'function' object has no attribute 'remote'")
      else invoke ("pool." +:+ m) (VList [o; VDict args])
  end.

Definition step_args (task_id step_name : string) (payload : value) : list (string * value) :=
  [("task_id", VStr task_id); ("step_name", VStr step_name); ("payload", payload)].

Definition execute_sync (ray_available : bool) (capability task_id step_name : string) (payload : value)
    (a : SchedulerActor) : M value :=
  let* p := of_sum (get_pool capability a) in
  call_pool ray_available p "execute" (step_args task_id step_name payload).

Definition submit_async (ray_available : bool) (capability task_id step_name : string) (payload : value)
    (a : SchedulerActor) : M string :=
  let* p := of_sum (get_pool capability a) in
  do* call_pool ray_available p "submit" (step_args task_id step_name payload) in
  ret (task_id +:+ ":" +:+ step_name).

(** Without Ray a pool that has no such method is passed over ([has_streaming]). *)
Definition submit_streaming (ray_available : bool) (has_streaming : pool -> bool) (capability task_id step_name : string)
    (payload : value) (a : SchedulerActor) : M string :=
  let* p := of_sum (get_pool capability a) in
  let buffer_key := "stream:" +:+ task_id +:+ ":" +:+ step_name in
  do* (if ray_available || has_streaming p then
         do* call_pool ray_available p "submit_streaming"
               (step_args task_id step_name payload ++ [("buffer_key", VStr buffer_key)]) in ret tt
       else ret tt) in
  ret buffer_key.

Definition get_capabilities (a : SchedulerActor) : list string := (map_to_list (sa_pools a)).*1.

(** Inside a running event loop the status of the pool is not asked for. *)
Definition get_pool_status (in_loop : bool) (has_status : pool -> bool) (capability : string) (a : SchedulerActor) : M value :=
  let registered b := [("capability", VStr capability); ("registered", VBool b)] in
  match sa_pools a !! capability with
  | None => ret (VDict (registered false))
  | Some p =>
      if has_status p then
        if in_loop then ret (VDict (registered true ++ [("status", VStr "pending_async")]))
        else except (invoke "pool.get_status" (match p with Local o => o | Handle h => h end))
               (λ _, ret (VDict (registered true)))
      else ret (VDict (registered true))
  end.

(** ** Finding the actor of a cluster *)

(** [try: return ray.get_actor(...) except Exception: pass] *)
Definition try_actor (name namespace : string) : M (option value) :=
  except (let* h := get_actor name (Some namespace) in ret (Some h)) (λ _, ret None).

Definition active_actor (has_redis : bool) (cluster_id namespace : string) : M (option value) :=
  if has_redis then
    except (let* raw := redis (ACTIVE_KEY cluster_id) GET in
            match raw with
            | Some name => if bool_decide (name = "") then ret None else try_actor name namespace
            | None => ret None
            end) (λ _, ret None)
  else ret None.

Definition get_scheduler_actor (ray_available has_redis : bool) (cluster_id release tenant_id : string)
    (auto_create : bool) : M (SchedulerActor + value) :=
  let namespace := tenant_actor_namespace tenant_id in
  let name := actor_name cluster_id release in
  if ray_available then
    let* active := active_actor has_redis cluster_id namespace in
    match active with
    | Some h => ret (inr h)
    | None =>
        let* named := try_actor name namespace in
        match named with
        | Some h => ret (inr h)
        | None =>
            if auto_create then
              let* h := invoke "SchedulerActor.remote"
                          (VDict [("name", VStr name); ("namespace", VStr namespace); ("lifetime", VStr "detached");
                                  ("cluster_id", VStr cluster_id); ("release", VStr release)]) in
              ret (inr h)
            else raise (Exn RuntimeError ("SchedulerActor not found: cluster=" +:+ cluster_id +:+ " release=" +:+ release))
        end
    end
  else ret (inl (SchedulerActor_init cluster_id release has_redis "")).

(** ** Worker base class and test kit *)

Section Worker.
(** The hooks a subclass may override; [call] of the base class raises. *)
Context (pre_process post_process : value -> exn + value) (worker_call : option (value -> exn + value)) (cls : string).

Definition base_call (data : value) : exn + value :=
  match worker_call with
  | Some f => f data
  | None => inl (Exn NotImplementedError (cls +:+ " must implement call()"))
  end.

(** [run]: the count goes up only when all three hooks return *)
Definition base_run (call_count : nat) (input : value) : nat * (exn + value) :=
  match pre_process input with
  | inl e => (call_count, inl e)
  | inr processed =>
      match base_call processed with
      | inl e => (call_count, inl e)
      | inr raw =>
          match post_process raw with
          | inl e => (call_count, inl e)
          | inr r => (S call_count, inr r)
          end
      end
  end.

Definition base_health (capability : string) (call_count : nat) : value :=
  VDict [("status", VStr "healthy"); ("capability", VStr capability); ("call_count", VInt (Z.of_nat call_count))].
End Worker.

Definition mock_dispatch (mocks : gmap string (value -> exn + value)) (capability : string) (input : value) : exn + value :=
  match mocks !! capability with
  | Some handler => handler input
  | None => inl (Exn KeyError ("No mock registered for capability '" +:+ capability +:+ "'"))
  end.

(** [assert_output]: [None] when the assertion holds, else the keys it complains about *)
Inductive assertion := Holds | NotDict | Missing (keys : list string) | Unexpected (keys : list string).

Definition assert_output (result : value) (expected_keys : list string) (allow_extra : bool) : assertion :=
  match result with
  | VDict d =>
      let missing := filter (λ k, Is_true (negb (dict_has k d))) expected_keys in
      match missing with
      | _ :: _ => Missing missing
      | [] =>
          if allow_extra then Holds
          else
            let extra := filter (λ k, k ∉ expected_keys) d.*1 in
            match extra with _ :: _ => Unexpected extra | [] => Holds end
      end
  | _ => NotDict
  end.

(** * Recovery *)

Section Recovery.
Context {E : Env} (HE : quiet E).
Notation W := (world doc_services).

(** [ray.get_actor] returns or raises an [Exception]. *)
Definition ray_raises : Prop := ∀ n what arg e, invoke_answer n what arg = inl e -> is_exception e = true.
Context (HR : ray_raises).

(** The handle that Ray gave for a stored name *)
Definition looked_up (name : string) (p : pool) : Prop :=
  ∃ n h, invoke_answer n "ray.get_actor" (VList [VStr name]) = inr h /\ p = Handle h.

Lemma run_get_actor name (w : W) :
  ∃ w', run (get_actor name None) w = (w', invoke_answer (w_tick w) "ray.get_actor" (VList [VStr name])) /\
    w_redis w' = w_redis w.
Proof. unfold get_actor, invoke, effx. simpl. eexists. split; [done|]. done. Qed.

Lemma run_hdel key (h : gmap string string) f (w : W) :
  at_key (w_redis w) key = keep (RHash h) None ->
  ∃ n w', run (redis key (HDEL f)) w = (w', inr n) /\ at_key (w_redis w') key = keep (RHash (delete f h)) None.
Proof using HE.
  intros Hk. pose proof (act_HDEL (w_now w) _ _ f (hash_of_keep h None)) as Ha. rewrite persistent_keep in Ha.
  eexists _, _. split; [exact (run_persistent HE _ _ _ _ _ _ Hk (persistent_keep _) Ha)|]. apply at_put_eq.
Qed.

Lemma run_recover_loop key entries : ∀ ps (h : gmap string string) (w : W),
  NoDup entries.*1 -> at_key (w_redis w) key = keep (RHash h) None ->
  ∃ w' ps' h', run (recover_loop key entries ps) w = (w', (ps', inr tt)) /\
    at_key (w_redis w') key = keep (RHash h') None /\ ps ⊆ ps' /\
    (∀ c, h' !! c = if decide (c ∈ entries.*1 /\ ps' !! c = None) then None else h !! c) /\
    (∀ c p, ps' !! c = Some p -> ps !! c = Some p \/ ps !! c = None /\ ∃ name, (c, name) ∈ entries /\ looked_up name p).
Proof using HE HR.
  induction entries as [|[cap name] rest IH]; intros ps h w Hnd Hk; cbn [recover_loop].
  { exists w, ps, h. split_and!; [done|done|done| |by left]. intros c. rewrite decide_False; [done|set_solver]. }
  cbn [fmap list_fmap fst] in Hnd. apply NoDup_cons in Hnd as [Hcap Hnd].
  destruct (ps !! cap) as [p0|] eqn:Ep.
  { destruct (IH ps h w Hnd Hk) as (w' & ps' & h' & Hr & Hk' & Hs & Hh & Hp). exists w', ps', h'.
    pose proof (lookup_weaken _ _ _ _ Ep Hs). split_and!; [done|done|done| |].
    - intros c. rewrite Hh. cbn. repeat case_decide; set_solver.
    - intros c p Hc. destruct (Hp c p Hc) as [?|[? (nm & Hin & Hl)]]; [by left|right].
      split; [done|]. exists nm. split; [by right|done]. }
  destruct (run_get_actor name w) as (w1 & Hw1 & Hr1). rewrite run_pbind, Hw1.
  destruct (invoke_answer (w_tick w) "ray.get_actor" (VList [VStr name])) as [e|hd] eqn:Ea.
  - rewrite (HR _ _ _ _ Ea), run_pbind.
    destruct (run_hdel key h cap w1) as (n & w2 & -> & Hk2); [by rewrite Hr1|].
    destruct (IH ps (delete cap h) w2 Hnd Hk2) as (w' & ps' & h' & Hr & Hk' & Hs & Hh & Hp). exists w', ps', h'.
    assert (Hnone : ps' !! cap = None).
    { destruct (ps' !! cap) as [p|] eqn:E'; [|done]. destruct (Hp cap p E') as [?|[_ (nm & Hin & _)]]; [congruence|].
      by destruct Hcap; apply (list_elem_of_fmap_2 fst) in Hin. }
    split_and!; [done|done|done| |].
    + intros c. rewrite Hh, lookup_delete. cbn. repeat case_decide; set_solver.
    + intros c p Hc. destruct (Hp c p Hc) as [?|[? (nm & Hin & Hl)]]; [by left|right]. split; [done|].
      exists nm. split; [by right|done].
  - destruct (IH (<[cap := Handle hd]> ps) h w1 Hnd ltac:(by rewrite Hr1)) as (w' & ps' & h' & Hr & Hk' & Hs & Hh & Hp).
    exists w', ps', h'.
    assert (Hcap' : ps' !! cap = Some (Handle hd)) by (apply (lookup_weaken (<[cap:=Handle hd]> ps)); [apply lookup_insert_eq|done]).
    split_and!; [done|done| | |].
    + etrans; [|exact Hs]. by apply insert_subseteq.
    + intros c. rewrite Hh. cbn. repeat case_decide; set_solver.
    + intros c p Hc. destruct (decide (c = cap)) as [->|Hne].
      * right. split; [done|]. exists name. split; [by left|]. exists (w_tick w), hd. split; [done|congruence].
      * destruct (Hp c p Hc) as [H|[H (nm & Hin & Hl)]]; rewrite lookup_insert_ne in H by done; [by left|right].
        split; [done|]. exists nm. split; [by right|done].
Qed.
End Recovery.

(** * Properties *)

(** After a restart, recovery makes the stored map and the pools agree: what was
    registered stays, each new pool is a handle that Ray gave for the name stored for
    its capability, and the entries left in Redis are exactly those of capabilities
    that have a pool, the others being removed. *)
Theorem recovery_consistent (E : Env) a (h : gmap string string) (w : world doc_services) :
  quiet E -> ray_raises -> sa_redis a = true ->
  at_key (w_redis w) (POOL_MAP_KEY (sa_name a)) = keep (RHash h) None ->
  ∃ w' a' h', run (recover_pools_from_redis true a) w = (w', (a', inr tt)) /\
    sa_pools a ⊆ sa_pools a' /\
    (∀ c p, sa_pools a' !! c = Some p ->
       sa_pools a !! c = Some p \/ sa_pools a !! c = None /\ ∃ name, h !! c = Some name /\ looked_up name p) /\
    at_key (w_redis w') (POOL_MAP_KEY (sa_name a)) = keep (RHash h') None /\
    ∀ c, h' !! c = if sa_pools a' !! c then h !! c else None.
Proof.
  intros HE HR Hredis Hk. unfold recover_pools_from_redis. rewrite Hredis. cbn [negb orb].
  pose proof (act_HGETALL (w_now w) _ _ (hash_of_keep h None)) as Ha.
  rewrite run_pbind, (run_persistent HE _ _ _ _ _ _ Hk (persistent_keep _) Ha). cbv beta iota. rewrite run_pbind.
  set (w1 := after _ _ w).
  destruct (run_recover_loop HE HR (POOL_MAP_KEY (sa_name a)) (map_to_list h) (sa_pools a) h w1)
    as (w' & ps' & h' & -> & Hk' & Hs & Hh & Hp); [apply NoDup_fst_map_to_list|by apply at_put_eq|].
  exists w', (set_pools ps' a), h'. cbn [sa_pools set_pools]. split_and!; [done|done| |done|].
  - intros c p Hc. destruct (Hp c p Hc) as [?|[? (name & Hin & Hl)]]; [by left|right].
    split; [done|]. exists name. by rewrite elem_of_map_to_list in Hin.
  - intros c. rewrite Hh. destruct (ps' !! c); [by rewrite decide_False by naive_solver|].
    destruct (h !! c) as [x|] eqn:Ec; [|by case_decide]. rewrite decide_True; [done|]. split; [|done].
    by apply (list_elem_of_fmap_2 fst _ (c, x)), elem_of_map_to_list.
Qed.

(** Registering pools of this process, one after the other *)
Fixpoint register_all (regs : list (string * value)) (a : SchedulerActor) : prog (SchedulerActor * (exn + unit)) :=
  match regs with
  | [] => Ret (a, inr tt)
  | (c, o) :: rest => pbind (register_pool c (Local o) a) (λ ar, register_all rest ar.1)
  end.

Lemma run_register_all (E : Env) regs : quiet E -> ∀ a (h : gmap string string) (w : world doc_services),
  sa_redis a = true -> at_key (w_redis w) (POOL_MAP_KEY (sa_name a)) = keep (RHash h) None ->
  (∀ c n, h !! c = Some n -> n = "ActorPoolManager") ->
  ∃ w' a' h' r, run (register_all regs a) w = (w', (a', r)) /\ sa_name a' = sa_name a /\
    at_key (w_redis w') (POOL_MAP_KEY (sa_name a)) = keep (RHash h') None /\
    (∀ c n, h' !! c = Some n -> n = "ActorPoolManager").
Proof.
  intros HE. induction regs as [|[c o] rest IH]; intros a h w Hr Hk Hh; cbn [register_all]; [by exists w, a, h, (inr tt)|].
  rewrite run_pbind. unfold register_pool. rewrite Hr, run_pbind.
  destruct (act_HSET1 (w_now w) _ _ c (class_name (Local o)) (hash_of_keep h None)) as [n Ha]. rewrite persistent_keep in Ha.
  rewrite (run_persistent HE _ _ _ _ _ _ Hk (persistent_keep _) Ha). cbn [run fst]. set (w1 := after _ _ w).
  set (a1 := set_pools _ a). destruct (IH a1 (<[c := class_name (Local o)]> h) w1) as (w' & a' & h' & r & H);
    [done|by apply at_put_eq| |by exists w', a', h', r].
  intros c' n'. rewrite lookup_insert. case_decide; [by intros [= <-]|apply Hh].
Qed.

(** What is stored for a pool is the name of its class, so after a restart every
    capability gets the handle that Ray gives for the one name [ActorPoolManager], or
    loses its entry. *)
Theorem recovery_confuses_pools (E : Env) regs cluster release tenant (w : world doc_services) :
  quiet E -> ray_raises -> let a := SchedulerActor_init cluster release true tenant in
  at_key (w_redis w) (POOL_MAP_KEY (sa_name a)) = None ->
  ∃ w1 a1 r w2 a2, run (register_all regs a) w = (w1, (a1, r)) /\
    run (recover_pools_from_redis true a) w1 = (w2, (a2, inr tt)) /\
    ∀ c p, sa_pools a2 !! c = Some p -> looked_up "ActorPoolManager" p.
Proof.
  intros HE HR a Hk. destruct (run_register_all E regs HE a ∅ w eq_refl) as (w1 & a1 & h1 & r & Hr & _ & Hk1 & Hh1); [by rewrite Hk|done|].
  destruct (recovery_consistent E a h1 w1 HE HR eq_refl Hk1) as (w2 & a2 & h2 & Hr2 & _ & Hp & _).
  exists w1, a1, r, w2, a2. split_and!; [done|done|]. intros c p Hc.
  destruct (Hp c p Hc) as [H|[_ (name & Hn & Hl)]]; [done|]. by rewrite (Hh1 c name Hn) in Hl.
Qed.

(** Where Ray can be imported, a pool manager that lives in the actor's own process cannot
    be used: all three ways to dispatch raise [AttributeError] before anything happens. *)
Theorem local_pool_unusable (S : Services) (E : Env) has_streaming c o a t s v (w w' : world S) a' r :
  run (register_pool c (Local o) a) w = (w', (a', r)) -> ∀ w2 : world S,
  run (execute_sync true c t s v a') w2 = (w2, inl (Exn AttributeError "'function' object has no attribute 'remote'")) /\
  run (submit_async true c t s v a') w2 = (w2, inl (Exn AttributeError "'function' object has no attribute 'remote'")) /\
  run (submit_streaming true has_streaming c t s v a') w2 =
    (w2, inl (Exn AttributeError "'function' object has no attribute 'remote'")).
Proof.
  intros Hr w2. assert (Hp : sa_pools a' !! c = Some (Local o)).
  { unfold register_pool in Hr. destruct (sa_redis a).
    - rewrite run_pbind in Hr. destruct (run _ w) as [? ?]. simpl in Hr. injection Hr as _ <- _. apply lookup_insert_eq.
    - injection Hr as _ <- _. apply lookup_insert_eq. }
  unfold execute_sync, submit_async, submit_streaming, get_pool. by rewrite Hp.
Qed.

(** Tenants other than the default one have namespaces of their own. *)
Theorem namespaces_separate t t' :
  tenant_actor_namespace t = tenant_actor_namespace t' <->
  t = t' \/ (t = "" \/ t = "default") /\ (t' = "" \/ t' = "default").
Proof.
  unfold tenant_actor_namespace. repeat case_bool_decide; simpl; split; naive_solver.
Qed.

(** The handle that is returned is one Ray gave for the active or the versioned name in the
    tenant's namespace, or, when allowed, one it created. *)
Theorem scheduler_actor_located (S : Services) (E : Env) has_redis cluster release tenant auto_create :
  ensures (S := S) (get_scheduler_actor true has_redis cluster release tenant auto_create)
    (λ x, ∃ n h, x = inr h /\
       ((∃ name, invoke_answer n "ray.get_actor" (VList [VStr name; VStr (tenant_actor_namespace tenant)]) = inr h) \/
        auto_create = true /\ ∃ arg, invoke_answer n "SchedulerActor.remote" arg = inr h)).
Proof.
  set (ns := tenant_actor_namespace tenant).
  assert (Htry : ∀ name, ensures (S := S) (try_actor name ns) (λ o, ∀ h, o = Some h ->
    ∃ n, invoke_answer n "ray.get_actor" (VList [VStr name; VStr ns]) = inr h)).
  { intros name w. unfold try_actor. rewrite run_except, run_bind. unfold get_actor, invoke, effx. simpl.
    destruct (invoke_answer _ _ _) as [e|] eqn:Ea; simpl; [by destruct (is_exception e)|]. intros h [= <-]. by eexists. }
  assert (Hact : ensures (S := S) (active_actor has_redis cluster ns) (λ o, ∀ h, o = Some h ->
    ∃ n name, invoke_answer n "ray.get_actor" (VList [VStr name; VStr ns]) = inr h)).
  { intros w. unfold active_actor. destruct has_redis; [|done]. rewrite run_except, run_bind.
    destruct (run (redis _ _) w) as [w1 [e|[name|]]]; simpl; [by destruct (is_exception e)| |done].
    case_bool_decide; [done|]. specialize (Htry name w1). destruct (run (try_actor name ns) w1) as [w2 [e|o]].
    - simpl. by destruct (is_exception e).
    - intros h Hh. destruct (Htry h Hh) as [n Hn]. by exists n, name. }
  unfold get_scheduler_actor. fold ns. eapply ensures_bind; [exact Hact|]. intros [h|] Ha.
  - apply ensures_ret. destruct (Ha h eq_refl) as (n & name & Hn). exists n, h. split; [done|]. left. by exists name.
  - eapply ensures_bind; [apply Htry|]. intros [h|] Hh.
    + apply ensures_ret. destruct (Hh h eq_refl) as (n & Hn). exists n, h. split; [done|]. left. by eexists.
    + destruct auto_create; [|by intros w]. intros w. rewrite run_bind. unfold invoke at 1, effx. simpl.
      destruct (invoke_answer _ _ _) eqn:Ei; [done|]. simpl. eexists _, _. split; [done|]. right. split; [done|]. by eexists.
Qed.

(** Versioned names can coincide. *)
Example actor_names_collide : actor_name "a__b" "c" = actor_name "a" "b__c".
Proof. reflexivity. Qed.

(** The count of a worker goes up exactly with its answers. *)
Theorem base_run_counts pre post f cls n input :
  let '(n', r) := base_run pre post f cls n input in
  n' = match r with inr _ => S n | inl _ => n end /\ (f = None -> r = pre input \/ ∃ e, r = inl e).
Proof.
  unfold base_run, base_call. destruct (pre input) as [e|x]; [by eauto|]. destruct f as [f|]; [|by eauto].
  destruct (f x) as [e|y]; [by eauto|]. by destruct (post y); eauto.
Qed.

Lemma filter_nil_iff {A} (P : A -> Prop) `{∀ x, Decision (P x)} l : filter P l = [] <-> ∀ k, k ∈ l -> ~ P k.
Proof.
  split.
  - intros Hl k Hk HP. assert (k ∈ filter P l) as Hin by by apply list_elem_of_filter.
    rewrite Hl in Hin. by apply elem_of_nil in Hin.
  - intros Hl. destruct (filter P l) as [|k l'] eqn:Ef; [done|].
    assert (k ∈ filter P l) as [HP Hk]%list_elem_of_filter by (rewrite Ef; by left). by destruct (Hl k Hk).
Qed.

(** [assert_output] accepts exactly the dictionaries that have the keys asked for, and no
    others unless extra keys are allowed. *)
Theorem assert_output_spec result keys allow_extra :
  assert_output result keys allow_extra = Holds <->
  ∃ d, result = VDict d /\ (∀ k, k ∈ keys -> dict_has k d = true) /\ (allow_extra = false -> ∀ k, k ∈ d.*1 -> k ∈ keys).
Proof.
  unfold assert_output. destruct result as [| | | | | |d]; try (split; [done|by intros (d & ? & _)]).
  destruct (filter _ keys) as [|k ks] eqn:Em.
  - assert (Hm : ∀ k, k ∈ keys -> dict_has k d = true).
    { intros k Hk. pose proof (proj1 (filter_nil_iff _ keys) Em k Hk) as H. cbv beta in H.
      destruct (dict_has k d); [done|]. by destruct H. }
    destruct allow_extra; [split; [intros _; by exists d|done]|].
    destruct (filter _ d.*1) as [|k ks] eqn:Ee.
    + split; [intros _|done]. exists d. split_and!; [done|done|]. intros _ k Hk.
      pose proof (proj1 (filter_nil_iff _ d.*1) Ee k Hk) as H. by apply dec_stable.
    + split; [done|]. intros (d' & [= <-] & _ & Hx). exfalso.
      assert (k ∈ filter (λ k, k ∉ keys) d.*1) as [Hn Hk]%list_elem_of_filter by (rewrite Ee; by left). by apply Hn, Hx.
  - split; [done|]. intros (d' & [= <-] & Hm & _). exfalso.
    assert (k ∈ filter (λ k, Is_true (negb (dict_has k d))) keys) as [Hn Hk]%list_elem_of_filter by (rewrite Em; by left).
    by rewrite (Hm k Hk) in Hn.
Qed.
