(* ===== verification/ApiRoutes.v ===== *)
(** * Task and tenant routes

    [src/api/dependencies.py] ([get_tenant_context]), [src/api/routes/tasks.py] and
    [src/api/routes/tenants.py], with the version of the dependency that
    [src/scheduler_task_api/dependencies.py] has.  The handlers put authentication,
    access policy, registries and services together; a raised [HTTPException] is the
    answer with its status code, any other exception an answer 500.  Dependencies are
    resolved before the query parameters are checked, as FastAPI does. *)

From stdpp Require Import base gmap strings list.
From S2P Require Import Prelude PyValue Json Sha256 Redis TaskModel Tables Effects Transaction TaskCreator TaskApplication.
From S2P Require Import ErrorHandling Registry TenantRegistry Auth Policies TaskCompletion.

Open Scope Z_scope.

Definition auth_result := list (string * value).

(** The quota fields keep their default 0 everywhere and are left out *)
Record TenantContext := {
  ctx_tenant_id : string;
  ctx_api_key : string;
  ctx_is_super_admin : bool
}.

Definition text_of (v : value) : string := match v with VStr s => s | _ => "" end.

(** [src/api/dependencies.py]: the key is read with an index *)
Definition get_tenant_context (auth : auth_result) : exn + TenantContext :=
  match dict_get "tenant_id" auth with
  | None => inl (Exn KeyError "'tenant_id'")
  | Some t =>
      match dict_get "api_key" auth with
      | None => inl (Exn KeyError "'api_key'")
      | Some k => inr {| ctx_tenant_id := text_of t; ctx_api_key := text_of k;
                         ctx_is_super_admin := truthy (dict_get_or "is_super_admin" (VBool false) auth) |}
      end
  end.

(** [src/scheduler_task_api/dependencies.py]: with a default *)
Definition task_api_tenant_context (auth : auth_result) : exn + TenantContext :=
  match dict_get "tenant_id" auth with
  | None => inl (Exn KeyError "'tenant_id'")
  | Some t => inr {| ctx_tenant_id := text_of t; ctx_api_key := text_of (dict_get_or "api_key" (VStr "") auth);
                     ctx_is_super_admin := truthy (dict_get_or "is_super_admin" (VBool false) auth) |}
  end.

(** ** Tasks *)

Record request := { rq_credentials : option string; rq_tenant_header : option string }.

Section TaskRoutes.
Context (st : AuthSettings) (reg : BaseRedisRegistry) (has_redis : bool) (context : auth_result -> exn + TenantContext).

(** [ctx=Depends(get_tenant_context)] *)
Definition with_context {A} (rq : request) (handler : TenantContext -> M A) : M A :=
  let* auth := authenticate st reg has_redis (rq_credentials rq) (rq_tenant_header rq) in
  let* ctx := of_sum (context auth) in
  handler ctx.

Definition route_list_tasks (sess : session) (rq : request) (task_status : option TaskStatus) (task_type : option string)
    (limit : Z) (cursor : option string) : M task_page :=
  with_context rq (λ ctx,
    if (limit <? 1) || (500 <? limit) then raise (HTTPException 422 "limit")
    else list_tasks sess {| f_tenant := ctx_tenant_id ctx; f_super := ctx_is_super_admin ctx; f_status := task_status;
                            f_type := task_type |} (Z.to_nat limit) cursor).

(** [ctx.tenant_id or req.tenant_id or "default"] *)
Definition task_tenant (ctx : TenantContext) (body_tenant : string) : string :=
  if bool_decide (ctx_tenant_id ctx = "") then if bool_decide (body_tenant = "") then "default" else body_tenant
  else ctx_tenant_id ctx.

(** The two [except] clauses of [create_task]; an [HTTPException] is an [Exception] *)
Definition create_error (e : exn) : exn :=
  match e with
  | Exn ValueError m => HTTPException 422 ("Invalid task data: " +:+ m)
  | _ => if is_exception e then HTTPException 500 "Task creation failed unexpectedly. Please retry." else e
  end.

Definition route_create_task {Q} {TQ : TaskQueue Q} (creator : option (TaskCreator * Q)) (rq : request)
    (body_tenant : string) (body : TaskCreate) : M (Q * TaskCreateResponse) :=
  with_context rq (λ ctx,
    match creator with
    | None => raise (HTTPException 503 "TaskCreator not initialised (task-api only)")
    | Some (tc, q) => catch (submit tc q body (task_tenant ctx body_tenant)) (λ e, raise (create_error e))
    end).

Definition route_get_task (rq : request) (task_id : string) : M TaskInfo :=
  with_context rq (λ ctx, get_task task_id (ctx_tenant_id ctx) (ctx_is_super_admin ctx)).

Definition route_get_result (rq : request) (task_id : string) :=
  with_context rq (λ ctx, get_result task_id (ctx_tenant_id ctx) (ctx_is_super_admin ctx)).

Definition route_cancel_task (rq : request) (task_id : string) : M cancel_response :=
  with_context rq (λ ctx, cancel_task task_id (ctx_tenant_id ctx) (ctx_is_super_admin ctx)).
End TaskRoutes.

(** ** Tenants *)

Section TenantRoutes.
Context (treg : option BaseRedisRegistry).

Definition registry : M BaseRedisRegistry :=
  match treg with Some r => ret r | None => raise (HTTPException 503 "TenantRegistry not initialised") end.

Definition list_tenants (auth : auth_result) : M (list value) :=
  do* of_sum (require_super_admin auth) in
  let* reg := registry in
  let* found := list_all_tenants reg in
  let* ids := of_sum (match found with Some l => inr l | None => inl (Exn TypeError "'NoneType' object is not iterable") end) in
  fold_m ids (λ acc tid, let* t := get_tenant reg tid in ret (if truthy t then acc ++ [t] else acc)) [].

Definition tenant_not_found (tenant_id : string) : exn :=
  HTTPException 404 ("Tenant " +:+ repr_str tenant_id +:+ " not found").

Definition get_tenant_route (auth : auth_result) (tenant_id : string) : M value :=
  do* of_sum (require_same_tenant_or_super_admin auth tenant_id) in
  let* reg := registry in
  let* t := get_tenant reg tenant_id in
  match t with VNone => raise (tenant_not_found tenant_id) | _ => ret t end.

Definition tenant_record (tenant_id : value) (body : list (string * value)) (now_iso : string) : list (string * value) :=
  [("tenant_id", tenant_id); ("tenant_name", dict_get_or "tenant_name" (VStr "") body); ("status", VStr "active");
   ("quota", dict_get_or "quota" (VDict []) body); ("description", dict_get_or "description" (VStr "") body);
   ("created_at", VStr now_iso); ("updated_at", VStr now_iso)].

(** [secrets.token_hex] is drawn only when the body names no tenant; [iso] prints a time *)
Definition register_tenant (iso : Z -> string) (auth : auth_result) (body : list (string * value)) :
    M (list (string * value)) :=
  do* of_sum (require_super_admin auth) in
  let* reg := registry in
  let* now := time_ms in
  let given := dict_get_or "tenant_id" VNone body in
  let* tenant_id := (if truthy given then ret given else let* t := uuid4 in ret (VStr ("tenant-" +:+ t))) in
  let record := tenant_record tenant_id body (iso now) in
  do* register reg record in
  ret record.

Definition update_tenant (iso : Z -> string) (auth : auth_result) (tenant_id : string) (body : list (string * value)) :
    M (list (string * value)) :=
  do* of_sum (require_super_admin auth) in
  let* reg := registry in
  let* existing := get_tenant reg tenant_id in
  match existing with
  | VNone => raise (tenant_not_found tenant_id)
  | VDict d =>
      let* now := time_ms in
      let merged := dict_update (dict_update d body) [("tenant_id", VStr tenant_id); ("updated_at", VStr (iso now))] in
      do* register reg merged in
      ret merged
  | _ => raise (Exn TypeError "mapping")
  end.

Definition delete_tenant (auth : auth_result) (tenant_id : string) : M unit :=
  do* of_sum (require_super_admin auth) in
  let* reg := registry in
  do* unregister reg tenant_id in
  ret tt.

Definition generate_api_key_route (auth : auth_result) (tenant_id : string) : M (list (string * value)) :=
  do* of_sum (require_same_tenant_or_super_admin auth tenant_id) in
  let* reg := registry in
  let* api_key := generate_api_key tenant_id in
  ret [("tenant_id", VStr tenant_id); ("api_key", VStr api_key);
       ("note", VStr "Store this key; it will not be shown again.")].

Definition get_tenant_usage (auth : auth_result) (tenant_id : string) : M (list (string * value)) :=
  do* of_sum (require_same_tenant_or_super_admin auth tenant_id) in
  let* reg := registry in
  let* usage := get_usage tenant_id in
  ret (dict_update [("tenant_id", VStr tenant_id)] ((λ kv, (kv.1, VInt kv.2)) <$> usage)).
End TenantRoutes.

(** * Properties *)

Section Routes.
Context {S : Services} {E : Env} (st : AuthSettings) (reg : BaseRedisRegistry) (has_redis : bool).
Implicit Types (w : world S).

(** Keys of tenants that are not the super admin's *)
Definition tenant_key (rq : request) : Prop :=
  ∀ k, rq_credentials rq = Some k -> is_super_key st k <> inr true.

Lemma tenant_authenticated rq w w' auth :
  tenant_key rq -> run (authenticate st reg has_redis (rq_credentials rq) (rq_tenant_header rq)) w = (w', inr auth) ->
  ∃ d, auth = tenant_context d (dict_get_or "status" (VStr "active") d) /\
    is_active (dict_get_or "status" (VStr "active") d) = true.
Proof.
  intros Hk Hr. apply authenticate_inv in Hr as (k & Hc & [(Hs & _)|(_ & _ & d & _ & Ha & ->)]); [by destruct (Hk k Hc)|].
  by exists d.
Qed.

Lemma run_with_context {A} context rq (handler : TenantContext -> M A) w :
  run (with_context st reg has_redis context rq handler) w =
  match run (authenticate st reg has_redis (rq_credentials rq) (rq_tenant_header rq)) w with
  | (w', inl e) => (w', inl e)
  | (w', inr auth) => match context auth with inl e => (w', inl e) | inr ctx => run (handler ctx) w' end
  end.
Proof.
  unfold with_context. rewrite run_bind. destruct (run (authenticate _ _ _ _ _) w) as [w' [e|auth]]; [done|].
  rewrite run_bind, run_of_sum. by destruct (context auth).
Qed.
End Routes.

(** With the dependency of [src/api], no tenant can use the task routes.  The context of
    an authenticated tenant has no entry [api_key], which the dependency reads with an
    index, so every request with a tenant's key ends in an error before its handler
    starts: an authentication error, or [KeyError] for the keys that are valid. *)
Theorem tenant_requests_fail (S : Services) (E : Env) st reg has_redis {A} rq (handler : TenantContext -> M A) (w : world S) :
  tenant_key st rq ->
  let a := run (authenticate st reg has_redis (rq_credentials rq) (rq_tenant_header rq)) w in
  run (with_context st reg has_redis get_tenant_context rq handler) w =
  (a.1, inl (match a.2 with inl e => e | inr _ => Exn KeyError "'api_key'" end)).
Proof.
  intros Hk a. rewrite run_with_context. fold a. destruct a as [w' [e|auth]] eqn:Ea; [done|].
  destruct (tenant_authenticated st reg has_redis rq w w' auth Hk Ea) as (d & -> & _). done.
Qed.

(** What remains for the super admin: every task it creates belongs to the tenant
    [super_admin], whatever tenant the body names. *)
Lemma super_admin_tenant k body_tenant :
  ∃ ctx, get_tenant_context (super_context k) = inr ctx /\ task_tenant ctx body_tenant = "super_admin" /\
    ctx_is_super_admin ctx = true.
Proof. eexists. split; [done|]. done. Qed.

(** With the dependency of the task API package a tenant's request is served for the
    tenant of its record, not as super admin. *)
Lemma task_api_context d : ∃ ctx,
  task_api_tenant_context (tenant_context d (dict_get_or "status" (VStr "active") d)) = inr ctx /\
  ctx_tenant_id ctx = text_of (dict_get_or "tenant_id" (VStr "") d) /\ ctx_is_super_admin ctx = false.
Proof. eexists. split; [done|]. done. Qed.

(** Who may use the tenant routes.  With the context of a tenant's key, the routes that
    list, register, update and delete tenants answer 403, and so do those for the
    record, the keys and the usage of another tenant; nothing has happened then.  The
    super admin passes all of them. *)
Theorem tenant_routes_guarded (S : Services) (E : Env) treg iso d status body tid (w : world S) :
  let auth := tenant_context d status in
  let refused {A} (m : M A) msg := run m w = (w, inl (HTTPException 403 msg)) in
  refused (list_tenants treg auth) "Super-admin only" /\
  refused (register_tenant treg iso auth body) "Super-admin only" /\
  refused (update_tenant treg iso auth tid body) "Super-admin only" /\
  refused (delete_tenant treg auth tid) "Super-admin only" /\
  (py_eq (dict_get_or "tenant_id" (VStr "") d) (VStr tid) = false ->
     refused (get_tenant_route treg auth tid) "Access denied" /\
     refused (generate_api_key_route treg auth tid) "Access denied" /\
     refused (get_tenant_usage treg auth tid) "Access denied") /\
  ∀ k, require_super_admin (super_context k) = inr tt /\
       require_same_tenant_or_super_admin (super_context k) tid = inr tt.
Proof.
  intros auth refused. split_and!; [done..| |done].
  intros Hne. assert (Ha : require_same_tenant_or_super_admin auth tid = inl (HTTPException 403 "Access denied")).
  { unfold require_same_tenant_or_super_admin. change (dict_get_or "is_super_admin" VNone auth) with (VBool false).
    change (dict_get_or "tenant_id" (VStr "") auth) with (dict_get_or "tenant_id" (VStr "") d). by rewrite Hne. }
  unfold refused, get_tenant_route, generate_api_key_route, get_tenant_usage. by rewrite Ha.
Qed.

(** ** From registration to authentication *)

(** A pipeline leaves other keys alone. *)
Lemma pipe_frame now {X} (cs : list (string * act X)) k : ∀ ks,
  k ∉ cs.*1 -> at_key (pipe_run now cs ks).1 k = at_key ks k.
Proof.
  induction cs as [|[k' a] cs IH]; intros ks Hk; simpl; [done|].
  apply not_elem_of_cons in Hk as [Hne Hk]. destruct (act_doc _ _ _) as [e r].
  specialize (IH (put k' e ks) Hk). destruct (pipe_run _ _ _). simpl in *. rewrite IH. by apply at_put_ne.
Qed.

Section EndToEnd.
Context {E : Env} (HE : quiet E) (ttl : Z) (Httl : ttl <= 0).
Notation reg := (TenantRegistry_init ttl).
Implicit Types (w : world doc_services).

Lemma generate_frame t k w :
  k <> API_KEYS_HASH -> k <> API_KEY_IDX t -> at_key (w_redis (run (generate_api_key t) w).1) k = at_key (w_redis w) k.
Proof using HE.
  clear Httl ttl. intros H1 H2. unfold generate_api_key, token_urlsafe. rewrite run_bind, run_uuid4. cbv beta iota.
  rewrite run_bind, (run_pipeline HE). set (cs := [_; _]).
  pose proof (pipe_frame (w_now (after (w_redis w) (w_db w) w)) cs k (w_redis w)) as Hf.
  cbn [w_redis after] in *. change (w_redis (after (w_redis w) (w_db w) w)) with (w_redis w).
  destruct (pipe_run _ cs (w_redis w)) as [ks rs]. simpl in Hf.
  destruct (first_error rs); simpl; apply Hf; subst cs; set_solver.
Qed.

Lemma set_table w (h : gmap string string) idx t v :
  tenant_ok t = true -> t <> "api_keys_idx" ->
  key_table (w_redis w) h idx -> key_table (w_redis (run (reg_set reg t t v) w).1) h idx.
Proof.
  intros Hok Ht HT. destruct (tenant_keys_apart ttl t Hok Ht) as [[H1 H2] [H3 H4]].
  assert (H5 : tenants_key reg <> API_KEYS_HASH) by done.
  assert (H6 : ∀ t', tenants_key reg <> API_KEY_IDX t') by done.
  unfold reg_set, log_errors_as. rewrite run_except, run_bind.
  pose proof (redis_table _ (SET (orjson_dumps v) (if reg_ttl reg >? 0 then Some (reg_ttl reg * 1000) else None) false)
                w h idx H1 H2 HT) as T1.
  destruct (run (redis (make_key reg t t) _) w) as [w1 [x|n]]; simpl in T1; [by repeat case_match|].
  rewrite run_bind. pose proof (redis_table _ (SADD [t]) w1 h idx H3 H4 T1) as T2.
  destruct (run (redis (index_key reg t) _) w1) as [w2 [x|n2]]; simpl in T2; [by repeat case_match|].
  rewrite run_bind. pose proof (redis_table _ (SADD [t]) w2 h idx H5 H6 T2) as T3.
  destruct (run (redis (tenants_key reg) _) w2) as [w3 [x|n3]]; simpl in T3; [by repeat case_match|done].
Qed.

Lemma run_register_tenant iso k body t w a h idx :
  represents reg (w_redis w) a -> key_table (w_redis w) h idx ->
  dict_get "tenant_id" body = Some (VStr t) -> t <> "" -> tenant_ok t = true -> t <> "api_keys_idx" ->
  let rec := tenant_record (VStr t) body (iso (w_now w)) in
  ∃ w', run (register_tenant (Some reg) iso (super_context k) body) w = (w', inr rec) /\
    represents reg (w_redis w') (abs_op (OSet t t (VDict rec)) a).1 /\ key_table (w_redis w') h idx.
Proof using HE Httl.
  intros HR HT Hb Hne Hok Hidx rec. unfold register_tenant. rewrite run_bind. cbn [run of_sum].
  change (require_super_admin (super_context k)) with (inr tt : exn + unit). cbv beta iota.
  cbn [registry]. rewrite run_bind, run_ret. cbv beta iota. rewrite run_bind, run_time_ms. cbv beta iota.
  assert (dict_get_or "tenant_id" VNone body = VStr t) as -> by (unfold dict_get_or; by rewrite Hb).
  assert (truthy (VStr t) = true) as -> by by destruct t. rewrite run_bind, run_ret. cbv beta iota. fold rec.
  set (w1 := after _ _ w). rewrite run_bind. unfold register. change (dict_get_or "tenant_id" (VStr "") rec) with (VStr t).
  destruct t as [|c s]; [done|]. set (t := String c s) in *. rewrite run_bind.
  destruct (set_represents HE reg Httl w1 a t t (VDict rec) HR Hok) as (w2 & Hs & HR2).
  pose proof (set_table w1 h idx t (VDict rec) Hok Hidx HT) as HT2. rewrite Hs in HT2 |- *. by exists w2.
Qed.
End EndToEnd.

(** C35: From registration to authentication.  When the super admin registers a tenant and then
    generates a key for it, the key authenticates as that tenant, with the name and the
    quota of the registration, with no tenant header or with its own, and the record
    can be read back; when no Redis call fails and the registry has no expiry. *)
Theorem issued_key_authenticates (E : Env) ttl st iso k body t (w : world doc_services) a h idx :
  quiet E -> ttl <= 0 -> multi_tenant_enabled st = true ->
  let reg := TenantRegistry_init ttl in
  represents reg (w_redis w) a -> key_table (w_redis w) h idx ->
  dict_get "tenant_id" body = Some (VStr t) -> t <> "" -> tenant_ok t = true -> t <> "api_keys_idx" ->
  ∃ w1 w2 rec key rest,
    run (register_tenant (Some reg) iso (super_context k) body) w = (w1, inr rec) /\
    run (generate_api_key_route (Some reg) (super_context k) t) w1 = (w2, inr (("tenant_id", VStr t) :: ("api_key", VStr key) :: rest)) /\
    rec = tenant_record (VStr t) body (iso (w_now w)) /\
    (run (get_tenant_route (Some reg) (super_context k) t) w2).2 = inr (VDict rec) /\
    ∀ header, header = None \/ header = Some t -> is_super_key st key = inr false ->
      (run (authenticate st reg true (Some key) header) w2).2 = inr (tenant_context rec (VStr "active")).
Proof.
  intros HE Httl Hm reg HR HT Hb Hne Hok Hidx. subst reg. set (reg := TenantRegistry_init ttl) in *.
  destruct (run_register_tenant HE ttl Httl iso k body t w a h idx HR HT Hb Hne Hok Hidx) as (w1 & Hr1 & HR1 & HT1).
  set (rec := tenant_record _ _ _) in *.
  destruct (table_generate HE w1 h idx t HT1) as (w2 & Hg & HT2). set (key := "ramu_" +:+ _) in *.
  assert (Hr2 : run (generate_api_key_route (Some reg) (super_context k) t) w1 =
    (w2, inr [("tenant_id", VStr t); ("api_key", VStr key); ("note", VStr "Store this key; it will not be shown again.")])).
  { unfold generate_api_key_route. change (require_same_tenant_or_super_admin (super_context k) t) with (inr tt : exn + unit).
    cbn [registry]. rewrite run_bind, run_of_sum. cbv beta iota. rewrite run_bind, run_ret. cbv beta iota.
    by rewrite run_bind, Hg. }
  destruct (tenant_keys_apart ttl t Hok Hidx) as [[Hk1 Hk2] _].
  assert (Hrec : at_key (w_redis w2) (make_key reg t t) = item_entry <$> Some (VDict rec)).
  { pose proof (generate_frame HE t (make_key reg t t) w1 Hk1 (Hk2 t)) as Hf. rewrite Hg in Hf. simpl in Hf. rewrite Hf.
    rewrite (rep_items reg _ _ HR1 t t Hok). simpl. by rewrite decide_True, lookup_insert_eq by done. }
  exists w1, w2, rec, key, [("note", VStr "Store this key; it will not be shown again.")]. split_and!; [done|done|done| |].
  - unfold get_tenant_route. change (require_same_tenant_or_super_admin (super_context k) t) with (inr tt : exn + unit).
    cbn [registry]. rewrite run_bind, run_of_sum. cbv beta iota. rewrite run_bind, run_ret. cbv beta iota. rewrite run_bind.
    pose proof (run_get_tenant HE reg w2 t _ Hrec) as Hgt. destruct (run (get_tenant reg t) w2) as [w3 x]. simpl in Hgt. by subst x.
  - intros header Hh Hs. unfold authenticate. rewrite Hm. cbn [negb]. rewrite run_bind, run_of_sum, Hs. cbv beta iota.
    rewrite run_bind. set (hint := match header with Some (String _ _) => header | _ => None end).
    pose proof (run_validate_key HE reg w2 key _ (λ _, Some (VDict rec)) hint (kt_hash _ _ _ HT2)) as Hv.
    rewrite lookup_insert_eq in Hv. assert (Hhint : match hint with None => true | Some t' => bool_decide (t = t') end = true).
    { subst hint. destruct Hh as [->| ->]; [done|]. destruct t; [done|]. by apply bool_decide_eq_true. }
    rewrite Hhint in Hv. destruct (run (validate_key reg key hint) w2) as [w3 x]. simpl in Hv.
    rewrite Hv; [done|]. intros t' [= <-]. done.
Qed.

(** Errors of the creation route: what the service raises becomes 422 or 500, so the
    documented 409 and 503 (queue full, service unavailable) are never answered. *)
Theorem create_errors (S : Services) (E : Env) {Q} {TQ : TaskQueue Q} tc (q : Q) body tenant (w w' : world S) e :
  run (catch (submit tc q body tenant) (λ e, raise (create_error e))) w = (w', inl e) ->
  (∃ m, e = HTTPException 422 ("Invalid task data: " +:+ m)) \/
  e = HTTPException 500 "Task creation failed unexpectedly. Please retry." \/ is_exception e = false.
Proof.
  rewrite run_catch. destruct (run (submit tc q body tenant) w) as [w1 [x|r]]; [|done]. intros [= _ <-].
  unfold create_error. destruct x as [[] m|]; simpl; eauto.
Qed.

(** A tenant's request to the task API package is refused, or served for the tenant of the
    record its key leads to, and never as super admin. *)
Theorem task_api_scoped (S : Services) (E : Env) st reg has_redis {A} rq (handler : TenantContext -> M A) (w : world S) :
  tenant_key st rq ->
  (∃ w' e, run (with_context st reg has_redis task_api_tenant_context rq handler) w = (w', inl e) /\
           run (authenticate st reg has_redis (rq_credentials rq) (rq_tenant_header rq)) w = (w', inl e)) \/
  ∃ w' d ctx, run (authenticate st reg has_redis (rq_credentials rq) (rq_tenant_header rq)) w =
                (w', inr (tenant_context d (dict_get_or "status" (VStr "active") d))) /\
    is_active (dict_get_or "status" (VStr "active") d) = true /\
    ctx_tenant_id ctx = text_of (dict_get_or "tenant_id" (VStr "") d) /\ ctx_is_super_admin ctx = false /\
    run (with_context st reg has_redis task_api_tenant_context rq handler) w = run (handler ctx) w'.
Proof.
  intros Hk. rewrite run_with_context. destruct (run (authenticate _ _ _ _ _) w) as [w' [e|auth]] eqn:Ea; [left; by exists w', e|].
  right. destruct (tenant_authenticated st reg has_redis rq w w' auth Hk Ea) as (d & -> & Ha).
  destruct (task_api_context d) as (ctx & Hc & Ht & Hs). exists w', d, ctx. by rewrite Hc.
Qed.

(** ** Runs *)

Definition demo_settings : AuthSettings := {| super_admin_key := Some "root"; multi_tenant_enabled := true |}.

#[local] Opaque sha256_hexdigest.

Lemma tenant_requests_fail_witness :
  (run (S := doc_services) (E := calm)
     (route_get_task demo_settings (TenantRegistry_init 0) true get_tenant_context
        {| rq_credentials := Some "ramu_1"; rq_tenant_header := None |} "t1") Auth.w_acme).2 = inl (Exn KeyError "'api_key'").
Proof.
  unfold route_get_task. rewrite tenant_requests_fail; [|by intros k [= <-]]. cbn [snd].
  assert (Ha : ∃ auth, (run (S := doc_services) (E := calm) (authenticate demo_settings (TenantRegistry_init 0) true (Some "ramu_1") None)
    Auth.w_acme).2 = inr auth).
  { eexists. unfold authenticate. cbn [multi_tenant_enabled demo_settings negb]. rewrite run_bind, run_of_sum.
    change (is_super_key demo_settings "ramu_1") with (inr false : exn + bool). cbv beta iota. rewrite run_bind.
    pose proof (run_validate_key calm_quiet (TenantRegistry_init 0) Auth.w_acme "ramu_1"
      {[ sha256_hexdigest "ramu_1" := "acme" ]} (λ _, Some (VDict acme)) None eq_refl) as Hv.
    rewrite lookup_singleton_eq in Hv. destruct (run (validate_key _ _ _) Auth.w_acme) as [w3 x]. simpl in Hv.
    rewrite Hv; [reflexivity|]. intros t [= <-]. reflexivity. }
  destruct Ha as [auth Ha]. cbn [rq_credentials rq_tenant_header]. by rewrite Ha.
Defined.

Lemma tenant_routes_guarded_example :
  run (S := doc_services) (E := calm) (generate_api_key_route None (tenant_context acme (VStr "active")) "other") (world0 0) =
  (world0 0, inl (HTTPException 403 "Access denied")).
Proof. reflexivity. Qed.

Lemma issued_key_authenticates_witness :
  ∃ w1 w2 rec key rest,
    run (E := calm) (register_tenant (Some (TenantRegistry_init 0)) (λ _, "now") (super_context "root")
      [("tenant_id", VStr "acme")]) (world0 0) = (w1, inr rec) /\
    run (E := calm) (generate_api_key_route (Some (TenantRegistry_init 0)) (super_context "root") "acme") w1 =
      (w2, inr (("tenant_id", VStr "acme") :: ("api_key", VStr key) :: rest)).
Proof.
  destruct (issued_key_authenticates calm 0 demo_settings (λ _, "now") "root" [("tenant_id", VStr "acme")] "acme" (world0 0)
    empty_registry ∅ (λ _, ∅) calm_quiet ltac:(lia) eq_refl) as (w1 & w2 & rec & key & rest & H1 & H2 & _);
    [|split; [reflexivity|intros t; reflexivity]|reflexivity|done|reflexivity|done|].
  - split; intros; simpl; rewrite ?dom_empty_L; done.
  - exists w1, w2, rec, key, rest. split; [exact H1|exact H2].
Defined.
