(* ===== verification/SdkClient.v ===== *)
(** * Client library

    [src/sdk/client.py]: the asynchronous client of the task API, and the table of the
    paths that [src/main_tasks.py] serves.  The client's requests are the effect
    [http]; [encode_params] writes query parameters into a URL.  The polling loop takes
    a number of rounds; [wait_ends] shows how many are enough. *)

From Stdlib Require Import Ascii.
From stdpp Require Import base gmap strings list.
From S2P Require Import Prelude PyValue Json Redis TaskModel Tables Effects QueueKeys CircuitBreaker QueueManager TaskCompletion.

Open Scope Z_scope.

Record SchedulerClient := { base_url : string; api_key : string }.

Definition SchedulerClient_init (url key : string) : SchedulerClient :=
  {| base_url := rstrip ["/"%char] url; api_key := key |}.

Definition client_headers (c : SchedulerClient) : list (string * string) :=
  if bool_decide (api_key c = "") then [] else [("Authorization", "Bearer " +:+ api_key c)].

Definition client_request (c : SchedulerClient) (meth path body : string) : http_request :=
  {| req_method := meth; req_url := base_url c +:+ path; req_headers := client_headers c; req_body := body |}.

(** [resp.raise_for_status(); return resp.json()] *)
Definition checked_json (c : SchedulerClient) (meth path body : string) : M value :=
  let* r := http (client_request c meth path body) in
  do* raise_for_status r in
  of_sum (match json_loads (resp_body r) with Some v => inr v | None => inl (Exn ValueError "JSON") end).

Definition when_given (k : string) (o : option string) : list (string * value) :=
  match o with None | Some "" => [] | Some s => [(k, VStr s)] end.

Record Submission := {
  sub_dag_id : string; sub_input_data : list (string * value); sub_priority : string; sub_tenant_id : string;
  sub_idempotency_key : option string; sub_callback_url : option string; sub_timeout_seconds : Z
}.

Definition task_payload (s : Submission) : list (string * value) :=
  [("task_type", VStr (sub_dag_id s)); ("input_data", VDict (sub_input_data s)); ("priority", VStr (sub_priority s));
   ("tenant_id", VStr (sub_tenant_id s)); ("timeout_seconds", VInt (sub_timeout_seconds s))] ++
  when_given "idempotency_key" (sub_idempotency_key s) ++ when_given "callback_url" (sub_callback_url s).

Definition submit_task (c : SchedulerClient) (s : Submission) : M value :=
  checked_json c "POST" "/tasks" (json_dumps (VDict (task_payload s))).

Definition get_task (c : SchedulerClient) (task_id : string) : M value := checked_json c "GET" ("/tasks/" +:+ task_id) "".
Definition get_task_result (c : SchedulerClient) (task_id : string) : M value :=
  checked_json c "GET" ("/tasks/" +:+ task_id +:+ "/result") "".
Definition cancel_task (c : SchedulerClient) (task_id : string) : M value :=
  checked_json c "DELETE" ("/tasks/" +:+ task_id) "".

Section Queries.
Context (encode_params : list (string * value) -> string).

Definition list_tasks (c : SchedulerClient) (tenant_id : string) (status : option string) (limit : Z) (cursor : option string) :
    M value :=
  checked_json c "GET" ("/tasks" +:+ encode_params ([("limit", VInt limit)] ++ when_given "tenant_id" (Some tenant_id) ++
                                                   when_given "status" status ++ when_given "cursor" cursor)) "".

Definition list_capabilities (c : SchedulerClient) (tenant_id : string) : M value :=
  checked_json c "GET" ("/ops/v1/capabilities/" +:+ encode_params (when_given "tenant_id" (Some tenant_id))) "".
Definition list_clusters (c : SchedulerClient) (tenant_id : string) : M value :=
  checked_json c "GET" ("/ops/v1/clusters/" +:+ encode_params (when_given "tenant_id" (Some tenant_id))) "".
End Queries.

Definition health (c : SchedulerClient) : M value := checked_json c "GET" "/health/" "".

Definition is_ready (c : SchedulerClient) : M bool :=
  except (let* r := http (client_request c "GET" "/health/ready" "") in ret (resp_status r =? 200)) (λ _, ret false).

(** ** Waiting *)

Definition terminal (status : string) : bool := bool_decide (status ∈ ["completed"; "failed"; "cancelled"]).

(** [task.get("status", "")] and the test for membership in a set, which hashes it *)
Definition task_status (task : value) : exn + value :=
  match task with
  | VDict d =>
      match dict_get_or "status" (VStr "") d with
      | VList _ | VDict _ => inl (Exn TypeError "unhashable type")
      | s => inr s
      end
  | _ => inl (Exn AttributeError "object has no attribute 'get'")
  end.

Definition is_terminal (status : value) : bool := match status with VStr s => terminal s | _ => false end.

Definition output_of (task : value) : value :=
  match task with VDict d => dict_get_or "output_data" (VDict []) d | _ => VNone end.

(** One call to [fuel] rounds; [None] when they are used up. *)
Fixpoint wait_loop (fuel : nat) (c : SchedulerClient) (task_id : string) (poll timeout deadline : Z) : M (option value) :=
  match fuel with
  | O => ret None
  | S fuel' =>
      let* task := get_task c task_id in
      let* status := of_sum (task_status task) in
      if is_terminal status then
        if py_eq status (VStr "completed") then ret (Some task)
        else raise (Exn RuntimeError ("Task " +:+ task_id +:+ " ended with status=" +:+ py_str status +:+ ": " +:+
                                      py_str (output_of task)))
      else
        let* now := time_ms in
        if deadline <=? now then
          raise (Exn TimeoutError ("Task " +:+ task_id +:+ " did not complete within " +:+ py_str (VFloat timeout) +:+
                                   "s (current status: " +:+ py_str status +:+ ")"))
        else do* sleep poll in wait_loop fuel' c task_id poll timeout deadline
  end.

(** [poll] and [timeout] in milliseconds *)
Definition wait_for_task (fuel : nat) (c : SchedulerClient) (task_id : string) (poll timeout : Z) : M (option value) :=
  let* now := time_ms in wait_loop fuel c task_id poll timeout (now + timeout).

Definition submit_and_wait (fuel : nat) (c : SchedulerClient) (s : Submission) (poll timeout : Z) : M (option value) :=
  let* task := submit_task c s in
  match task with
  | VDict d =>
      match dict_get "task_id" d with
      | Some id => wait_for_task fuel c (py_str id) poll timeout
      | None => raise (Exn KeyError "'task_id'")
      end
  | _ => raise (Exn TypeError "not subscriptable")
  end.

(** ** The paths of the task API *)

Inductive segment := Lit (s : string) | Param.

Definition seg_ok (x : segment) (s : string) : bool :=
  match x with Lit l => bool_decide (l = s) | Param => negb (bool_decide (s = "")) end.

Fixpoint path_ok (template : list segment) (path : list string) : bool :=
  match template, path with
  | [], [] => true
  | x :: t, s :: p => seg_ok x s && path_ok t p
  | _, _ => false
  end.

Inductive handler := ListTasks | CreateTask | GetTask | GetResult | CancelTask | Other.

(** [include_router(tasks_router, prefix="/api/v1")] and the others; a path is the list of
    the texts between its slashes *)
Definition tasks_prefix : list segment := [Lit ""; Lit "api"; Lit "v1"; Lit "tasks"].
Definition health_prefix : list segment := [Lit ""; Lit "api"; Lit "v1"; Lit "health"].

Definition task_app_routes : list (string * list segment * handler) :=
  [("GET", tasks_prefix ++ [Lit ""], ListTasks); ("POST", tasks_prefix ++ [Lit ""], CreateTask);
   ("GET", tasks_prefix ++ [Param], GetTask); ("GET", tasks_prefix ++ [Param; Lit "result"], GetResult);
   ("DELETE", tasks_prefix ++ [Param], CancelTask)] ++
  ((λ p, ("GET", health_prefix ++ [Lit p], Other)) <$>
     [""; "detailed"; "ready"; "metrics"; "redis"; "mysql"; "ready"; "platform"]) ++
  [("GET", [Lit ""; Lit "metrics"; Lit ""], Other); ("GET", [Lit ""; Lit "health"], Other);
   ("GET", [Lit ""; Lit "docs"], Other); ("GET", [Lit ""; Lit "redoc"], Other); ("GET", [Lit ""; Lit "openapi.json"], Other)].

Inductive routed := Handler (h : handler) | MethodNotAllowed | RedirectSlash | NotFound.

Fixpoint split_slash (s : string) : list string :=
  match s with
  | EmptyString => [""]
  | String c s' =>
      if decide (c = "/"%char) then "" :: split_slash s'
      else match split_slash s' with x :: xs => String c x :: xs | [] => [String c ""] end
  end.

(** The path with its last slash removed, or one added *)
Definition toggle_slash (path : list string) : list string :=
  if bool_decide (last path = Some "") then take (length path - 1) path else path ++ [""].

(** The first route of the method and path; else 405 for the path alone, else a redirect to
    the path with or without its last slash *)
Definition route (meth : string) (path : list string) : routed :=
  match list_find (λ r, r.1.1 = meth /\ path_ok r.1.2 path = true) task_app_routes with
  | Some (_, r) => Handler r.2
  | None =>
      if existsb (λ r, path_ok r.1.2 path) task_app_routes then MethodNotAllowed
      else if existsb (λ r, path_ok r.1.2 (toggle_slash path)) task_app_routes then RedirectSlash
      else NotFound
  end.

(** * Properties *)

Section Wait.
Context {S : Services} {E : Env} (c : SchedulerClient) (id : string).
Implicit Types (w : world S).

(** The server reported this task. *)
Definition reported (v : value) : Prop :=
  ∃ n r, http_answer n (client_request c "GET" ("/tasks/" +:+ id) "") = inr r /\ is_success r = true /\
    json_loads (resp_body r) = Some v.

Definition transport_error (e : exn) : Prop := ∃ n, http_answer n (client_request c "GET" ("/tasks/" +:+ id) "") = inl e.

(** What a wait may end with *)
Definition wait_outcome (r : exn + option value) : Prop :=
  match r with
  | inr (Some v) => reported v /\ task_status v = inr (VStr "completed")
  | inl (Exn RuntimeError m) =>
      transport_error (Exn RuntimeError m) \/
      ∃ v s, reported v /\ task_status v = inr (VStr s) /\ (s = "failed" \/ s = "cancelled")
  | _ => True
  end.

Lemma run_get_task w : ∃ w' r, run (get_task c id) w = (w', r) /\ w_now w <= w_now w' /\
  match r with
  | inr v => reported v
  | inl e => transport_error e \/ (∃ m, e = Exn HTTPStatusError m) \/ ∃ m, e = Exn ValueError m
  end.
Proof.
  eexists _, _. split; [apply surjective_pairing|]. split; [apply run_time|].
  unfold get_task, checked_json. rewrite run_bind. unfold http at 1, effx. cbn [run step].
  destruct (http_answer (w_tick w) _) as [e|r] eqn:Ea; [left; by eexists|]. rewrite run_bind.
  unfold raise_for_status. destruct (is_success r) eqn:Es; [|simpl; by eauto].
  cbn [run ret]. cbv beta iota. destruct (json_loads (resp_body r)) as [v|] eqn:Ej; simpl; [by exists (w_tick w), r|by eauto].
Qed.

Lemma terminal_cases s : is_terminal s = true -> py_eq s (VStr "completed") = false ->
  s = VStr "failed" \/ s = VStr "cancelled".
Proof.
  destruct s as [| | | |s| |]; try done. simpl. unfold terminal. rewrite bool_decide_eq_true. intros Hs Hne.
  set_unfold in Hs. destruct Hs as [->|[->|[->|[]]]]; [|by left|by right].
  by rewrite bool_decide_eq_true_2 in Hne.
Qed.
End Wait.

Section Clock.
#[local] Transparent time_ms.
Lemma run_clock {S : Services} {E : Env} (w : world S) : ∃ w', run time_ms w = (w', inr (w_now w)) /\ w_now w <= w_now w'.
Proof. eexists. split; [reflexivity|]. simpl. lia. Qed.
End Clock.

Section WaitProofs.
Context {S : Services} {E : Env} (c : SchedulerClient) (id : string) (poll timeout : Z).
Implicit Types (w : world S).

Lemma wait_loop_outcome fuel deadline : ∀ w, wait_outcome c id (run (wait_loop fuel c id poll timeout deadline) w).2.
Proof.
  induction fuel as [|fuel IH]; intros w; [done|]. cbn [wait_loop]. rewrite run_bind.
  destruct (run_get_task c id w) as (w1 & [e|v] & -> & _ & Hv).
  { simpl. destruct Hv as [?|[[m ->]|[m ->]]]; try done. destruct e as [[]|]; try done. by left. }
  rewrite run_bind. cbn [run of_sum]. destruct (task_status v) as [e|s] eqn:Es.
  { destruct v as [| | | | | |d]; simpl in Es; simplify_eq/=; try done. case_match; simplify_eq/=; done. }
  destruct (is_terminal s) eqn:Et.
  - destruct (py_eq s (VStr "completed")) eqn:Ec; simpl.
    + split; [done|]. destruct s as [| | | |s| |]; try done. simpl in Ec. apply bool_decide_eq_true in Ec as ->. done.
    + right. destruct (terminal_cases s Et Ec) as [->| ->]; by eauto 10.
  - rewrite run_bind. destruct (run_clock w1) as (w2 & -> & _).
    destruct (deadline <=? w_now w1); [done|]. rewrite run_bind. destruct (run (sleep poll) w2) as [w3 [e|[]]] eqn:Esl; [|apply IH].
    by simpl in Esl.
Qed.

(** A round that does not end the wait takes at least the polling interval. *)
Lemma wait_loop_ends n deadline : ∀ w, 0 < poll -> deadline - w_now w <= Z.of_nat n * poll ->
  (run (wait_loop (Datatypes.S n) c id poll timeout deadline) w).2 <> inr None.
Proof.
  induction n as [|n IH]; intros w Hp Hd; cbn [wait_loop]; rewrite run_bind;
    destruct (run_get_task c id w) as (w1 & [e|v] & -> & Ht & _); try done; rewrite run_bind; cbn [run of_sum];
    (destruct (task_status v) as [e|s]; [done|]); (destruct (is_terminal s); [by destruct (py_eq s _)|]);
    rewrite run_bind; destruct (run_clock w1) as (w2 & -> & Ht2).
  - rewrite (proj2 (Z.leb_le deadline (w_now w1))) by lia. done.
  - destruct (deadline <=? w_now w1); [done|]. rewrite run_bind. cbn [run sleep eff_ step]. cbv beta iota. apply IH; [done|].
    simpl. lia.
Qed.
End WaitProofs.

(** C32: Waiting for a task.  Whatever the server answers and however long it takes,
    for a positive polling interval: with [fuel] at least time-out divided by
    interval, rounded up, [fuel + 1] rounds suffice, so the wait ends after at most
    that many; it returns only a task that the server reported as completed; and a
    [RuntimeError] is raised either for a task reported as failed or cancelled or is
    one that the transport itself raised. *)
Theorem wait_ends (S : Services) (E : Env) c id poll timeout fuel (w : world S) :
  0 < poll -> timeout <= Z.of_nat fuel * poll ->
  let r := (run (wait_for_task (Datatypes.S fuel) c id poll timeout) w).2 in
  r <> inr None /\ wait_outcome c id r.
Proof.
  intros Hp Hf r. subst r. unfold wait_for_task. rewrite run_bind. destruct (run_clock w) as (w1 & -> & Ht). split.
  - apply wait_loop_ends; [done|]. lia.
  - apply wait_loop_outcome.
Qed.

(** ** Routing *)

Lemma split_slash_nonempty s : split_slash s <> [].
Proof. destruct s as [|ch s]; [done|]. simpl. case_decide; [done|]. by destruct (split_slash s). Qed.

Lemma split_slash_app p q : split_slash (p +:+ String "/"%char q) = split_slash p ++ split_slash q.
Proof.
  induction p as [|ch p IH]; [done|]. simpl. case_decide; [by rewrite IH|]. rewrite IH.
  by destruct (split_slash p) eqn:Ep; [destruct (split_slash_nonempty p)|].
Qed.

Lemma path_ok_last t x p s : path_ok (t ++ [x]) (p ++ [s]) = true -> seg_ok x s = true.
Proof.
  revert p. induction t as [|y t IH]; intros [|s' p]; simpl; rewrite ?andb_true_iff.
  - naive_solver.
  - intros [_ H]. by destruct p.
  - intros [_ H]. by destruct t.
  - intros [_ H]. by eapply IH.
Qed.

(** No base URL makes the client's submission reach the handler: the route of the API ends
    in a slash, the client's path does not. *)
Theorem submission_never_routed base_path :
  ∀ h, route "POST" (split_slash (base_path +:+ "/tasks")) <> Handler h.
Proof.
  intros h. change (base_path +:+ "/tasks") with (base_path +:+ String "/"%char "tasks"). rewrite split_slash_app.
  unfold route. destruct (list_find _ task_app_routes) as [[i r]|] eqn:Ef; [|by repeat case_match].
  apply list_find_Some in Ef as (Hr & [Hm Hp] & _). exfalso.
  assert (Hin : r ∈ filter (λ r, r.1.1 = "POST") task_app_routes) by by apply list_elem_of_filter; split; [|by eapply list_elem_of_lookup_2].
  assert (Hr' : r = ("POST", tasks_prefix ++ [Lit ""], CreateTask)).
  { change (filter _ task_app_routes) with [("POST", tasks_prefix ++ [Lit ""], CreateTask)] in Hin. set_solver. }
  subst r. by apply (path_ok_last tasks_prefix) in Hp.
Qed.

(** What a server with these routes answers to a path it has no handler for: a redirect or
    an error.  [origin] is the part of the URLs before the path. *)
Definition serves (E : Env) (origin : string) : Prop :=
  ∀ n r path a, req_url r = origin +:+ path -> http_answer n r = inr a ->
    (∀ h, route (req_method r) (split_slash path) <> Handler h) -> is_success a = false.

(** So a submission of the client always raises, whatever base URL it is given. *)
Theorem submission_fails (S : Services) (E : Env) origin base_path c sub (w : world S) :
  serves E origin -> base_url c = origin +:+ base_path -> ∃ e, (run (submit_task c sub) w).2 = inl e.
Proof.
  intros HE Hb. unfold submit_task, checked_json. rewrite run_bind. unfold http at 1, effx. cbn [run step].
  set (rq := client_request _ _ _ _). destruct (http_answer (w_tick w) rq) as [e|a] eqn:Ea; [by eexists|].
  assert (Hs : is_success a = false).
  { apply (HE (w_tick w) rq (base_path +:+ "/tasks") a); [|done|apply submission_never_routed].
    unfold rq, client_request. simpl. by rewrite Hb, string_app_assoc. }
  rewrite run_bind. unfold raise_for_status. rewrite Hs. by eexists.
Qed.

(** ** Runs *)

Example get_task_routed : route "GET" (split_slash "/api/v1/tasks/t1") = Handler GetTask.
Proof. reflexivity. Qed.

Example submit_redirected : route "POST" (split_slash "/api/v1/tasks") = RedirectSlash.
Proof. reflexivity. Qed.

Example submit_not_found : route "POST" (split_slash "/tasks") = NotFound.
Proof. reflexivity. Qed.

Definition answering (f : nat -> value) : Env := {|
  delay := λ _, 0%N; redis_fault := λ _, None; db_fault := λ _, None; uuid_at := λ _, "u"; scan_slice := λ _ _ _ ks, (0, ks);
  http_answer := λ n _, inr {| resp_status := 200; resp_body := json_dumps (f n) |}; invoke_answer := λ _ _ _, inr VNone |}.

Lemma wait_ends_witness :
  let E := answering (λ n, VDict [("status", VStr (if (n <? 6)%nat then "running" else "completed"))]) in
  (run (S := doc_services) (E := E) (wait_for_task 6 (SchedulerClient_init "http://h" "") "t" 2000 10000) (world0 0)).2 <> inr None.
Proof.
  intros E. exact (proj1 (wait_ends doc_services E (SchedulerClient_init "http://h" "") "t" 2000 10000 5 (world0 0)
                      ltac:(lia) ltac:(lia))).
Defined.

Example wait_completes :
  let E := answering (λ n, VDict [("status", VStr (if (n <? 6)%nat then "running" else "completed"))]) in
  (run (S := doc_services) (E := E) (wait_for_task 6 (SchedulerClient_init "http://h" "") "t" 2000 10000) (world0 0)).2 =
  inr (Some (VDict [("status", VStr "completed")])).
Proof. vm_compute. reflexivity. Qed.
