(* ===== verification/OpsOverview.v ===== *)
(** * Health and overview routes

    The probes of [src/api/routes/health.py], [src/api/routes/ops_overview_routes.py]
    and the debugging route of [src/api/routes/ops_replay_routes.py].  [PING] is a script
    that does nothing; a probe's time-out of two seconds is one of the ways its call can
    fail.  [iso] prints a clock reading and [ratio2] is [round(running / maximum, 2)] in
    thousandths. *)

From Stdlib Require Import Ascii.
From stdpp Require Import base gmap strings list.
From S2P Require Import Prelude PyValue Json IsoTime Redis TaskModel Tables Effects QueueKeys CircuitBreaker QueueManager.
From S2P Require Import ErrorHandling Registry Auth OperatorQueries.

Open Scope Z_scope.

(** ** Probes *)

Definition ping : M unit := script (LRet tt).
Definition select_1 : M unit := sql_read (λ _, tt).

(** [try: await ...; "ok" except Exception: "unreachable"] *)
Definition check (call : M unit) : M bool := except (do* call in ret true) (λ _, ret false).

(** A dependency that is not configured is not checked. *)
Definition when_configured (configured : bool) (call : M unit) : M (option bool) :=
  if configured then let* ok := check call in ret (Some ok) else ret None.

Definition check_text (ok : bool) : value := VStr (if ok then "ok" else "unreachable").

Section Probes.
Context (iso : Z -> string).

(** [GET /health/ready], the first of the two handlers: 503 when a dependency fails *)
Definition readiness_probe (has_redis has_engine : bool) : M value :=
  let* r := when_configured has_redis ping in
  let* m := when_configured has_engine select_1 in
  let ready := default true r && default true m in
  let* now := time_ms in
  let checks := [("api", VStr "ok"); ("redis", match r with Some ok => check_text ok | None => VStr "not_configured" end)] ++
                match m with Some ok => [("mysql", check_text ok)] | None => [] end in
  let result := VDict [("status", VStr (if ready then "ready" else "not_ready")); ("timestamp", VStr (iso now +:+ "Z"));
                       ("checks", VDict checks)] in
  if ready then ret result else raise (HTTPException 503 (json_dumps result)).

Definition service_body (status service note : string) (now : Z) : value :=
  VDict ([("status", VStr status); ("service", VStr service); ("timestamp", VStr (iso now +:+ "Z"))] ++
         if bool_decide (note = "") then [] else [("note", VStr note)]).

Definition health_redis (has_redis : bool) : M value :=
  if negb has_redis then let* now := time_ms in ret (service_body "unknown" "redis" "Redis not configured" now)
  else
    except (do* ping in let* now := time_ms in ret (service_body "healthy" "redis" "" now))
      (λ e, raise (HTTPException 503 ("Redis unreachable: " +:+ exn_str e))).

Definition health_mysql (has_engine : bool) : M value :=
  if negb has_engine then let* now := time_ms in ret (service_body "disabled" "mysql" "MySQL not configured" now)
  else
    except (do* select_1 in let* now := time_ms in ret (service_body "healthy" "mysql" "" now))
      (λ e, raise (HTTPException 503 ("MySQL unreachable: " +:+ exn_str e))).
End Probes.

Definition ops_health (has_redis : bool) : M value :=
  let* ok := (if has_redis then check ping else ret false) in
  ret (VDict [("status", VStr (if ok then "ok" else "degraded")); ("redis", VStr (if ok then "ok" else "unavailable"))]).

(** ** Overview *)

Section Overview.
Context {B : Type} (iso : Z -> string) (ratio2 : Z -> Z -> Z).
Context (has_redis : bool) (qm : option (QueueManager B)) (cap_reg : option BaseRedisRegistry).

(** The capabilities a caller is shown; when the registry fails, all of them *)
Definition visible_caps (auth : list (string * value)) : M (list string) :=
  match qm with
  | None => ret []
  | Some _ =>
      let* all_caps := discover_queue_capabilities in
      if truthy (dict_get_or "is_super_admin" (VBool false) auth) then ret all_caps
      else
        match cap_reg with
        | None => ret all_caps
        | Some reg =>
            except
              (let tenant := match dict_get_or "tenant_id" (VStr "default") auth with VStr t => t | _ => "" end in
               let* ids := reg_list reg tenant in
               match ids with
               | Some ids => ret (filter (λ c, c ∈ ids) all_caps)
               | None => raise (Exn TypeError "'NoneType' object is not iterable")
               end) (λ _, ret all_caps)
        end
  end.

(** The pairs of [zip(caps, states)] with a state *)
Fixpoint known_states (caps : list string) (raws : list (option string)) : list (string * string) :=
  match caps, raws with
  | c :: caps', r :: raws' =>
      match r with None | Some "" => known_states caps' raws' | Some s => (c, s) :: known_states caps' raws' end
  | _, _ => []
  end.

Definition circuit_states (caps : list string) : M (list (string * string)) :=
  if has_redis && negb (bool_decide (caps = [])) then
    except (let* raws := script (pipeline (map (λ c, (stats c, HGET "circuit_state")) caps)) in
            ret (known_states caps raws)) (λ _, ret [])
  else ret [].

Record totals := Totals {
  tt_stats : list (string * value);
  tt_pending : Z;
  tt_running : Z;
  tt_any_open : bool
}.

(** One round of the loop over the capabilities *)
Definition cap_round (q : QueueManager B) (states : list (string * string)) (t : totals) (cap : string) : M totals :=
  let* r := attempt_ (get_queue_snapshot q cap) in
  match r with
  | inr sn =>
      let st := default "closed" (dict_get cap states) in
      let u := if sn_max_concurrent sn >? 0 then ratio2 (sn_running sn) (sn_max_concurrent sn) else 0 in
      ret (Totals (dict_set cap (VDict [("pending", VInt (sn_pending sn)); ("running", VInt (sn_running sn));
                                        ("max_concurrent", VInt (sn_max_concurrent sn)); ("circuit_state", VStr st);
                                        ("utilization", VFloat u)]) (tt_stats t))
             (tt_pending t + sn_pending sn) (tt_running t + sn_running sn) (tt_any_open t || bool_decide (st = "open")))
  | inl e =>
      if is_exception e then
        ret (Totals (dict_set cap (VDict [("error", VStr (exn_str e))]) (tt_stats t)) (tt_pending t) (tt_running t) (tt_any_open t))
      else raise e
  end.

Definition overall_status (redis_ok any_open : bool) : string :=
  if negb redis_ok then "critical" else if any_open then "degraded" else "ok".

Definition ops_overview (auth : list (string * value)) : M (string * totals * nat * string) :=
  let* redis_ok := (if has_redis then check ping else ret false) in
  let* caps := visible_caps auth in
  let* states := circuit_states caps in
  let* t := match qm with
            | Some q => fold_m caps (cap_round q states) (Totals [] 0 0 false)
            | None => ret (Totals [] 0 0 false)
            end in
  let* now := time_ms in
  ret (overall_status redis_ok (tt_any_open t), t, length caps, iso now).

Definition ops_stats : M (list (string * (string + snapshot)) * nat) :=
  match qm with
  | None => raise (HTTPException 503 "QueueManager not initialised")
  | Some q =>
      let* caps := discover_queue_capabilities in
      let* stats := fold_m caps (λ acc cap,
        let* r := attempt_ (get_queue_snapshot q cap) in
        match r with
        | inr sn => ret (dict_set cap (inr sn) acc)
        | inl e => if is_exception e then ret (dict_set cap (inl (exn_str e)) acc) else raise e
        end) [] in
      ret (stats, length caps)
  end.

Definition queue_snapshot (cap : string) : M snapshot :=
  match qm with Some q => get_queue_snapshot q cap | None => raise (HTTPException 503 "QueueManager not initialised") end.

(** For any authenticated caller, with the age it asks for *)
Definition cleanup_stale_route (auth : list (string * value)) (cap : string) (max_age_ms : Z) : M (Z * Z) :=
  match qm with
  | None => raise (HTTPException 503 "QueueManager not initialised")
  | Some _ =>
      let* removed_tasks := cleanup_stale_running cap max_age_ms in
      let* removed_slots := cleanup_stale_slots cap max_age_ms in
      ret (removed_tasks, removed_slots)
  end.
End Overview.

(** ** Debugging a task *)

Definition debug_key (cap suffix : string) : string := "queue:" +:+ cap +:+ ":" +:+ suffix.

Record found := Found { fd_running : bool; fd_cap : string; fd_score : Z; fd_position : option Z }.

Definition debug_cap (task_id : string) (acc : list string * list found) (cap : string) : M (list string * list found) :=
  let* p := redis (debug_key cap "pending") (ZSCORE task_id) in
  let* in_pending :=
    match p with
    | Some score => let* rank := redis (debug_key cap "pending") (ZRANK task_id) in
                    ret [Found false cap score (Z.succ <$> rank)]
    | None => ret []
    end in
  let* r := redis (debug_key cap "running") (ZSCORE task_id) in
  let in_running := match r with Some score => [Found true cap score None] | None => [] end in
  let* c := redis (debug_key cap "stats") (HGET "total_completed") in
  ret (acc.1 ++ match c with None | Some "" => [] | Some _ => [cap] end, acc.2 ++ in_pending ++ in_running).

Definition mysql_row (r : TaskRecord) : value :=
  VDict [("task_id", VStr (task_id r)); ("status", VStr (status_value (status r)));
         ("created_at", created_text (created_at r)); ("updated_at", created_text (updated_at r));
         ("tenant_id", VStr (tenant_id r)); ("task_type", match task_type r with Some t => VStr t | None => VNone end);
         ("priority", VStr (priority_value (priority r)))].

Definition recommendations (mysql_found : bool) (fs : list found) : list string :=
  match fs with
  | [] => if mysql_found then [] else ["Task not found in MySQL or Redis. May have been cleaned up."]
  | _ => (λ f, if fd_running f then "Task is currently running in " +:+ fd_cap f +:+ "."
               else "Task is pending in " +:+ fd_cap f +:+ " queue (position " +:+
                    match fd_position f with Some n => dec_of_Z n | None => "None" end +:+ ").") <$> fs
  end.

(** The rows of MySQL and Redis, and the advice; a missing source is [None] *)
Definition task_debug (has_redis has_qm has_db : bool) (id : string) :
    M (option (option value) * option (list string * list found) * list string) :=
  let* mysql := (if has_db then let* row := sql_read (λ t, db_tasks t !! id) in ret (Some (mysql_row <$> row)) else ret None) in
  let* in_redis := (if has_redis && has_qm then
                      let* caps := redis CAPABILITIES_KEY SMEMBERS in
                      let* acc := fold_m (elements caps) (debug_cap id) ([], []) in ret (Some acc)
                    else ret None) in
  let mysql_found := match mysql with Some None => false | _ => true end in
  ret (mysql, in_redis, recommendations mysql_found (match in_redis with Some a => a.2 | None => [] end)).

(** * Readiness *)

Section Checks.
#[local] Transparent script sql.

Lemma run_check_ping {S : Services} {E : Env} (w : world S) :
  (∀ n e, redis_fault n = Some e -> is_exception e = true) ->
  ∃ w', run (check ping) w = (w', inr (bool_decide (redis_fault (w_tick w) = None))) /\ w_tick w' = Datatypes.S (w_tick w) /\
    ks_of w' = ks_of w /\ db_of w' = db_of w.
Proof.
  intros Hf. unfold check. rewrite run_except, run_bind. unfold ping, script, effx. cbn [run step].
  destruct (redis_fault (w_tick w)) as [e|] eqn:Ef.
  - rewrite (Hf _ _ Ef). eexists. split; [done|]. done.
  - pose proof (rexec_ok _ (w_now w) (LRet tt) (w_redis w)) as Hx. destruct (rexec _ _ _) as [r x].
    change (lua_run (w_now w) (LRet tt) (rview (w_redis w))) with (rview (w_redis w), inr tt : exn + unit) in Hx.
    simpl in Hx. injection Hx as Hr ->. eexists. split; [done|]. simpl. unfold ks_of. simpl. by rewrite Hr.
Qed.
Lemma run_check_select {S : Services} {E : Env} (w : world S) :
  (∀ n e, db_fault n = Some e -> is_exception e = true) ->
  ∃ w', run (check select_1) w = (w', inr (bool_decide (db_fault (w_tick w) = None))) /\ w_tick w' = Datatypes.S (w_tick w) /\
    ks_of w' = ks_of w /\ db_of w' = db_of w.
Proof.
  intros Hf. unfold check. rewrite run_except, run_bind. unfold select_1, sql_read, sql, effx. cbn [run step].
  destruct (db_fault (w_tick w)) as [e|] eqn:Ef.
  - rewrite (Hf _ _ Ef). eexists. split; [done|]. done.
  - set (tx := λ t : tables, inr (t, tt) : exn + (tables * unit)).
    pose proof (dbexec_ok _ tx (w_db w)) as Hx. destruct (dbexec _ _) as [d x].
    simpl in Hx. injection Hx as Hr ->. eexists. split; [done|]. simpl. unfold db_of. simpl. by rewrite Hr.
Qed.
End Checks.
#[global] Opaque script sql.

Section Ready.
#[local] Transparent time_ms.

(** The readiness probe answers 200 exactly when every configured dependency answered, 503
    otherwise, and changes nothing. *)
Theorem readiness_correct (S : Services) (E : Env) iso (has_redis has_engine : bool) (w : world S) :
  (∀ n e, redis_fault n = Some e -> is_exception e = true) -> (∀ n e, db_fault n = Some e -> is_exception e = true) ->
  let t := if has_redis then Datatypes.S (w_tick w) else w_tick w in
  let up := (has_redis = true -> redis_fault (w_tick w) = None) /\ (has_engine = true -> db_fault t = None) in
  let '(w', r) := run (readiness_probe iso has_redis has_engine) w in
  match r with
  | inr _ => up
  | inl e => ~ up /\ ∃ d, e = HTTPException 503 d
  end /\ ks_of w' = ks_of w /\ db_of w' = db_of w.
Proof.
  intros Hr Hd t up. unfold readiness_probe. rewrite run_bind.
  assert (H1 : ∃ w1, run (when_configured has_redis ping) w =
      (w1, inr (if has_redis then Some (bool_decide (redis_fault (w_tick w) = None)) else None)) /\ w_tick w1 = t /\
      ks_of w1 = ks_of w /\ db_of w1 = db_of w).
  { subst t up. destruct has_redis; [|by exists w]. destruct (run_check_ping w Hr) as (w1 & H & ? & ? & ?). exists w1.
    unfold when_configured. by rewrite run_bind, H. }
  destruct H1 as (w1 & -> & Ht & Hk1 & Hd1). rewrite run_bind.
  assert (H2 : ∃ w2, run (when_configured has_engine select_1) w1 =
      (w2, inr (if has_engine then Some (bool_decide (db_fault t = None)) else None)) /\
      ks_of w2 = ks_of w /\ db_of w2 = db_of w).
  { rewrite <-Ht, <-Hk1, <-Hd1. destruct has_engine; [|by exists w1].
    destruct (run_check_select w1 Hd) as (w2 & H & _ & ? & ?). exists w2. unfold when_configured. by rewrite run_bind, H. }
  destruct H2 as (w2 & -> & Hk2 & Hd2). rewrite run_bind. cbn [run time_ms eff_ step]. cbv beta iota.
  subst up. clearbody t. destruct has_redis, has_engine; cbn [default andb];
    repeat case_bool_decide; simpl; (split; [|done]); try (split; [naive_solver|by eexists]); naive_solver.
Qed.
End Ready.
#[global] Opaque time_ms.

(** * What the overview sees of the breaker *)

(** No statistics hash has a field [circuit_state]. *)
Definition no_circuit (ks : keyspace) : Prop :=
  ∀ c h x, ks !! stats c = Some (REntry (RHash h) x) -> h !! "circuit_state" = None.

Lemma no_circuit_read now ks k : no_circuit ks -> no_circuit (put k (live now ks k) ks).
Proof.
  intros H c h x. unfold put, live. destruct (ks !! k) as [e|] eqn:Ek; [|].
  - destruct (expired now e).
    + rewrite lookup_delete. case_decide; [done|]. apply H.
    + rewrite lookup_insert. case_decide; [|apply H]. subst. intros [= ->]. by eapply H.
  - rewrite lookup_delete. case_decide; [done|]. apply H.
Qed.

Lemma no_circuit_other k e ks : (∀ c, k <> stats c) -> no_circuit ks -> no_circuit (put k e ks).
Proof.
  intros Hk H c h x. unfold put. destruct e; rewrite ?lookup_insert_ne, ?lookup_delete_ne by done; apply H.
Qed.

Lemma circuit_absent now ks c h x : no_circuit ks -> live now ks (stats c) = Some (REntry (RHash h) x) -> h !! "circuit_state" = None.
Proof.
  intros H. unfold live. destruct (ks !! stats c) as [e|] eqn:Ee; [|done]. destruct (expired now e); [done|].
  intros [= ->]. by eapply H.
Qed.

(** A script of reads *)
Definition lua_keeps {A} (m : lua A) : Prop := ∀ now ks, no_circuit ks -> no_circuit (lua_run now m ks).1.

Lemma keeps_read {X A} k (a : act X) (f : exn + X -> lua A) :
  (∀ now e, (act_doc now a e).1 = e) -> (∀ r, lua_keeps (f r)) -> lua_keeps (LCall (Key k a) f).
Proof.
  intros Ha Hf now ks Hks.
  change (lua_run now (LCall (Key k a) f) ks) with
    (let '(ks', r) := (let '(e, x) := act_doc now a (live now ks k) in (put k e ks, x)) in lua_run now (f r) ks').
  specialize (Ha now (live now ks k)).
  destruct (act_doc now a (live now ks k)) as [e r]. simpl in Ha. subst e. apply (Hf r now). by apply no_circuit_read.
Qed.

Lemma read_acts now :
  (∀ e, (act_doc now ZCARD e).1 = e) /\ (∀ f e, (act_doc now (HGET f) e).1 = e) /\ (∀ e, (act_doc now SMEMBERS e).1 = e).
Proof. done. Qed.

Lemma keeps_snapshot c :
  lua_keeps (let+ p := pcall (pending c) ZCARD in let+ q := pcall (running c) ZCARD in
             let+ d := pcall (config c) (HGET "max_queue_depth") in let+ m := pcall (config c) (HGET "max_concurrent") in
             let+ p := lua_raise p in let+ q := lua_raise q in let+ d := lua_raise d in let+ m := lua_raise m in
             LRet (p, q, d, m))%lua.
Proof.
  unfold pcall. cbn [lua_bind]. apply keeps_read; [done|]. intros p. apply keeps_read; [done|]. intros q.
  apply keeps_read; [done|]. intros d. apply keeps_read; [done|]. intros m now ks Hks. by destruct p, q, d, m.
Qed.

(** Reading the states gives nothing. *)
Lemma states_empty now caps : ∀ ks, no_circuit ks ->
  let '(ks', rs) := pipe_run now (map (λ c, (stats c, HGET "circuit_state")) caps) ks in
  no_circuit ks' /\ ∀ raws, first_error rs = inr raws -> known_states caps raws = [].
Proof.
  induction caps as [|c caps IH]; intros ks Hks; simpl; [by split|].
  set (e := live now ks (stats c)). destruct (act_doc now (HGET "circuit_state") e) as [e' r] eqn:Ea.
  assert (e' = e) as -> by (change e' with (e', r).1; by rewrite <-Ea).
  specialize (IH (put (stats c) e ks) (no_circuit_read now ks (stats c) Hks)).
  destruct (pipe_run _ _ _) as [ks' rs]. destruct IH as [Hks' IH]. split; [done|]. intros raws. cbn [first_error].
  destruct r as [x|o]; [done|]. destruct (first_error rs) as [x|xs]; [done|]. intros [= <-]. cbn [known_states].
  assert (o = None) as ->; [|by apply IH].
  change (act_doc now (HGET "circuit_state") e) with (read_hash e (λ h, h !! "circuit_state")) in Ea.
  unfold read_hash in Ea. destruct (hash_of e) as [h|] eqn:Eh; [|done]. injection Ea as <-.
  subst e. destruct (live now ks (stats c)) as [[[| |h'| |] x]|] eqn:El; simplify_eq/=; [by eapply circuit_absent|done].
Qed.

Section Blind.
Context {E : Env} {B : Type}.
Notation I := no_circuit.

(** Whatever [m] answers, and whether or not it raises *)
Definition harmless {A} (m : M A) : Prop := respects I (λ _, True) m.

Lemma harmless_bind {A C} (m : M A) (f : A -> M C) (Q : exn + C -> Prop) :
  harmless m -> (∀ e, Q (inl e)) -> (∀ a, respects I Q (f a)) -> respects I Q (bind m f).
Proof.
  intros Hm He Hf. apply (respects_bind _ (λ _, True)); [|by intros a _]. eapply respects_weaken; [exact Hm|].
  intros [e|a] _; [apply He|done].
Qed.

Lemma harmless_except {A} (m : M A) h : harmless m -> (∀ e, harmless (h e)) -> harmless (except m h).
Proof.
  intros Hm Hh. unfold except, catch. eapply respects_pbind; [exact Hm|]. intros [e|a] _; [|done].
  destruct (is_exception e); [apply Hh|done].
Qed.

Lemma harmless_read k {X} (a : act X) : (∀ now e, (act_doc now a e).1 = e) -> harmless (redis k a).
Proof.
  intros Ha. apply respects_redis; [|done|done]. intros now ks Hks. rewrite Ha. by apply no_circuit_read.
Qed.

Lemma harmless_check_ping : harmless (check ping).
Proof.
  apply harmless_except; [|done]. apply harmless_bind; [|done|done]. by apply respects_script.
Qed.

Lemma caps_key_apart c : CAPABILITIES_KEY <> stats c.
Proof. done. Qed.

Lemma harmless_discover : harmless discover_queue_capabilities.
Proof.
  unfold discover_queue_capabilities. apply harmless_bind; [by apply harmless_read|done|]. intros m.
  destruct (negb _); [done|]. apply harmless_bind; [by apply respects_script|done|]. intros keys.
  destruct (bool_decide _); [done|]. apply harmless_bind; [|done|done].
  apply respects_redis; [|done|done]. intros now ks Hks. apply no_circuit_other; [apply caps_key_apart|done].
Qed.

Lemma harmless_visible (qm : option (QueueManager B)) cap_reg auth : harmless (visible_caps qm cap_reg auth).
Proof.
  unfold visible_caps. destruct qm; [|done]. apply harmless_bind; [apply harmless_discover|done|]. intros caps.
  destruct (truthy _); [done|]. destruct cap_reg as [reg|]; [|done]. apply harmless_except; [|done].
  apply harmless_bind; [|done|by intros [ids|]]. unfold reg_list, log_errors_none.
  apply harmless_except; [|intros e; by destruct (passes_through e)].
  apply harmless_bind; [by apply harmless_read|done|done].
Qed.

Lemma states_none has_redis caps :
  respects I (λ r, match r with inr l => l = [] | inl _ => True end) (circuit_states has_redis caps).
Proof.
  unfold circuit_states. destruct (_ && _); [|done]. unfold except, catch. eapply respects_pbind.
  - apply (respects_bind _ (λ raws, known_states caps raws = []) (λ r, match r with inr l => l = [] | inl _ => True end)); [|done].
    apply respects_script; [| |done]; intros now ks Hks; rewrite lua_run_pipeline;
      pose proof (states_empty now caps ks Hks) as H; destruct (pipe_run _ _ _) as [ks' rs]; destruct H as [H1 H2]; [done|].
    cbn [snd]. destruct (first_error rs) as [e|raws] eqn:Ef; [done|]. by apply H2.
  - intros [e|l] Hl; [by destruct (is_exception e)|done].
Qed.

Lemma harmless_snapshot (q : QueueManager B) c : harmless (get_queue_snapshot q c).
Proof.
  unfold get_queue_snapshot. apply harmless_bind; [|done|].
  - apply respects_script; [|done|done]. apply keeps_snapshot.
  - intros [[[p r] d] m]. apply harmless_bind; [by destruct (int_or d _)|done|]. intros depth.
    apply harmless_bind; [by destruct (int_or m _)|done|done].
Qed.

(** Without states, no round notices an open breaker. *)
Lemma round_closed ratio2 (q : QueueManager B) t c :
  tt_any_open t = false ->
  respects I (λ r, match r with inr t => tt_any_open t = false | inl _ => True end) (cap_round ratio2 q [] t c).
Proof.
  intros Ht. unfold cap_round. apply harmless_bind; [|done|].
  - unfold attempt_. eapply respects_pbind; [apply harmless_snapshot|]. done.
  - intros [e|sn]; [by destruct (is_exception e)|]. simpl. by rewrite Ht.
Qed.

Lemma rounds_closed ratio2 (q : QueueManager B) caps : ∀ t,
  tt_any_open t = false ->
  respects I (λ r, match r with inr t => tt_any_open t = false | inl _ => True end) (fold_m caps (cap_round ratio2 q []) t).
Proof.
  induction caps as [|c caps IH]; intros t Ht; [done|]. cbn [fold_m].
  apply (respects_bind _ (λ t, tt_any_open t = false)); [by apply round_closed|]. apply IH.
Qed.
End Blind.

(** The overview does not see the circuit breaker.  It looks for the state in the
    statistics hash of a capability, where nothing writes it (the breaker has keys of
    its own): as long as this is so, it never reports [degraded], whatever the breaker's
    state, and whatever fails. *)
Theorem overview_never_degraded (S : Services) (E : Env) (B : Type) iso ratio2 has_redis (qm : option (QueueManager B))
    cap_reg auth (w : world S) :
  no_circuit (ks_of w) ->
  match (run (ops_overview iso ratio2 has_redis qm cap_reg auth) w).2 with
  | inr (status, _, _, _) => status = "ok" \/ status = "critical"
  | inl _ => True
  end.
Proof.
  intros Hw. set (Q := λ r : exn + (string * totals * nat * string),
    match r with inr (status, _, _, _) => status = "ok" \/ status = "critical" | inl _ => True end).
  enough (Hp : respects no_circuit Q (ops_overview iso ratio2 has_redis qm cap_reg auth)).
  { pose proof (proj1 (run_respects _ _ _ (wview w) Hp Hw)) as H. by rewrite run_view in H. }
  unfold ops_overview. apply harmless_bind; [by destruct has_redis; [apply harmless_check_ping|]|done|]. intros ok.
  apply harmless_bind; [apply harmless_visible|done|]. intros caps.
  eapply respects_bind; [apply states_none|]. intros states ->.
  apply (respects_bind _ (λ t, tt_any_open t = false)); [by destruct qm; [apply rounds_closed|]|]. intros t Ht.
  apply (respects_bind _ (λ _, True)); [by apply respects_time|]. intros now _. simpl. rewrite Ht. destruct ok; auto.
Qed.

(** ** What debugging a task sees of the queues *)

(** Nothing is stored under the keys that the debugging route reads for a capability. *)
Definition debug_suffixes : list string := ["pending"; "running"; "stats"].
Definition no_debug_keys (ks : keyspace) : Prop := ∀ c s, s ∈ debug_suffixes -> ks !! debug_key c s = None.

(** They are not the keys of the queue manager, which have the hash tag of a cluster. *)
Lemma debug_keys_apart c s c' :
  debug_key c s <> pending c' /\ debug_key c s <> running c' /\ debug_key c s <> stats c' /\ debug_key c s <> config c'.
Proof. done. Qed.

Fixpoint last_char (s : string) : option ascii :=
  match s with EmptyString => None | String c EmptyString => Some c | String _ s' => last_char s' end.

Lemma last_char_app a s : s <> "" -> last_char (a +:+ s) = last_char s.
Proof.
  intros Hs. induction a as [|c a IH]; [done|]. simpl. rewrite IH. destruct (a +:+ s) eqn:E; [|done]. by destruct a, s.
Qed.

Lemma registry_apart c s : s ∈ debug_suffixes -> CAPABILITIES_KEY <> debug_key c s.
Proof.
  intros Hs Heq. apply (f_equal last_char) in Heq. unfold debug_key in Heq.
  assert (s <> "") by (intros ->; set_unfold in Hs; naive_solver).
  rewrite !(last_char_app _ (_ +:+ _)) in Heq by (by destruct c). rewrite last_char_app in Heq by done.
  set_unfold in Hs. destruct Hs as [->|[->|[->|[]]]]; discriminate Heq.
Qed.

Lemma respects_absent {E : Env} {X} c s (a : act X) (Q : exn + X -> Prop) :
  s ∈ debug_suffixes -> (∀ now, (act_doc now a None).1 = None) -> (∀ now, Q (act_doc now a None).2) -> (∀ e, Q (inl e)) ->
  respects no_debug_keys Q (redis (debug_key c s) a).
Proof.
  intros Hs Ha HQ He. assert (Hl : ∀ now ks, no_debug_keys ks -> live now ks (debug_key c s) = None)
    by (intros now ks H; unfold live; by rewrite H).
  apply respects_redis; [| |done]; intros now ks Hks; rewrite Hl by done; [|done]. rewrite Ha.
  intros c' s' Hs'. unfold put. rewrite lookup_delete. case_decide; [done|]. by apply Hks.
Qed.

(** The debugging route finds no task in any queue, whatever the queues hold: it reads keys
    that no operation of the platform writes, so a task that is waiting is reported as
    missing, or with no place. *)
Theorem debug_finds_nothing (S : Services) (E : Env) has_redis has_qm has_db id (w : world S) :
  no_debug_keys (ks_of w) ->
  match (run (task_debug has_redis has_qm has_db id) w).2 with
  | inr (mysql, in_redis, advice) =>
      (∀ a, in_redis = Some a -> a.2 = []) /\
      advice = match mysql with Some None => ["Task not found in MySQL or Redis. May have been cleaned up."] | _ => [] end
  | inl _ => True
  end.
Proof.
  intros Hw. set (P := λ (r : exn + (list string * list found)), match r with inr a => a.2 = [] | inl _ => True end).
  set (Q := λ r : exn + (option (option value) * option (list string * list found) * list string), match r with
    | inr (mysql, in_redis, advice) => (∀ a, in_redis = Some a -> a.2 = []) /\
      advice = match mysql with Some None => ["Task not found in MySQL or Redis. May have been cleaned up."] | _ => [] end
    | inl _ => True end).
  assert (Hcap : ∀ acc c, acc.2 = [] -> respects no_debug_keys P (debug_cap id acc c)).
  { intros acc c Hacc. unfold debug_cap. apply (respects_bind _ (λ o, o = None)); [by apply respects_absent; [set_solver|..]|].
    intros o ->. apply (respects_bind _ (λ l, l = [])); [done|]. intros l ->.
    apply (respects_bind _ (λ o, o = None)); [by apply respects_absent; [set_solver|..]|]. intros r ->.
    apply (respects_bind _ (λ _, True)); [by apply respects_absent; [set_solver|..]|]. intros x _. simpl. by rewrite Hacc. }
  assert (Hcaps : ∀ caps acc, acc.2 = [] -> respects no_debug_keys P (fold_m caps (debug_cap id) acc)).
  { induction caps as [|c caps IH]; intros acc Hacc; [done|]. cbn [fold_m].
    apply (respects_bind _ (λ a, a.2 = [])); [by apply Hcap|]. apply IH. }
  enough (Hp : respects no_debug_keys Q (task_debug has_redis has_qm has_db id)).
  { pose proof (proj1 (run_respects _ _ _ (wview w) Hp Hw)) as H. by rewrite run_view in H. }
  unfold task_debug. apply (respects_bind _ (λ _, True)).
  { destruct has_db; [|done]. apply (respects_bind _ (λ _, True)); [|done]. by apply respects_sql. }
  intros mysql _. apply (respects_bind _ (λ o, ∀ a, o = Some a -> a.2 = [])).
  - destruct (has_redis && has_qm); [|simpl; naive_solver]. apply (respects_bind _ (λ _, True)).
    + apply respects_redis; [|intros now ks _; by destruct (act_doc _ _ _).2|done]. intros now ks Hks c s Hs. pose proof (registry_apart c s Hs) as Hne.
      unfold put. case_match; rewrite ?lookup_insert_ne, ?lookup_delete_ne by done; by apply Hks.
    + intros caps _. apply (respects_bind _ (λ a, a.2 = [])); [by apply Hcaps|]. intros a Ha. simpl. by intros ? [= <-].
  - intros in_redis Hr. simpl. split; [done|].
    assert ((match in_redis with Some a => a.2 | None => [] end) = []) as -> by by destruct in_redis; [apply Hr|].
    by destruct mysql as [[]|].
Qed.

(** ** Runs *)

(** The breaker is open, and the overview says that all is well. *)
Example open_breaker_unseen :
  let cb := CircuitBreaker_init "circuit:" 3 60 1 in
  let q : QueueManager CircuitBreaker :=
    {| qm_cb := Some cb; qm_default_depth := 2; qm_default_mc := 8; qm_ttl := 3600; qm_scan_limit := 50;
       qm_decode_responses := true |} in
  let w := (run (S := doc_services) (E := calm)
    (do* enqueue q {| stats_cache := []; stats_cache_time := 0 |} "ocr" "t1" 3 0 in
     do* record_failure cb "ocr" in do* record_failure cb "ocr" in record_failure cb "ocr") (world0 1000)).1 in
  (run (E := calm) (get_state cb "ocr") w).2 = inr "open" /\
  match (run (E := calm) (ops_overview (λ _, "") (λ _ _, 0) true (Some q) None []) w).2 with
  | inr (status, t, n, _) => (status, tt_pending t, n) = ("ok", 1, 1%nat)
  | inl _ => False
  end /\
  match (run (E := calm) (task_debug true true true "t1") w).2 with
  | inr (_, _, advice) => advice = ["Task not found in MySQL or Redis. May have been cleaned up."]
  | inl _ => False
  end.
Proof. vm_compute. repeat split. Qed.
