(* ===== verification/Isolation.v ===== *)
(** * Isolation of tenants

    The registries and the DAG store keep the documents of all tenants in one Redis.
    This file splits their keys into those of one tenant and those all tenants share,
    and gives the rules by which a program is shown [isolated] for a tenant: it changes
    no key of another tenant, and its answer and its effect on the tenant's own keys
    depend on these alone.  The second half relates two runs from stores that agree on
    the tenant's keys. *)

From Stdlib Require Import Ascii.
From stdpp Require Import base gmap strings list.
From S2P Require Import Prelude PyValue Json Redis TaskModel Tables Effects ErrorHandling.
From S2P Require Import Cjson Registry CapabilityRegistry ClusterRegistry NodeRegistry ScheduleRegistry DagLoader.

Open Scope Z_scope.

Notation W := (world doc_services).

(** ** Keys *)

Definition prefixes : list string := ["capability"; "cluster"; "node"; "schedules"; "dag_def"].

(** [prefix:tenant:item] and [prefix:index:tenant] *)
Definition own (t k : string) : Prop :=
  ∃ p, p ∈ prefixes /\ (k = p +:+ ":index:" +:+ t \/ ∃ i, k = p +:+ ":" +:+ t +:+ ":" +:+ i).

Definition shared_set (k : string) : Prop := ∃ p, p ∈ prefixes /\ k = p +:+ ":tenants".
Definition shared (k : string) : Prop := shared_set k \/ k = SCHEDULE_TENANT_IDX.

Lemma prefixes_plain p : p ∈ prefixes -> no_char ":"%char p.
Proof. unfold prefixes. intros H. set_unfold. by destruct_or!; subst. Qed.

(** The parts of a key up to its first colon and after it *)
Lemma prefix_inj p p' x x' :
  p ∈ prefixes -> p' ∈ prefixes -> p +:+ String ":"%char x = p' +:+ String ":"%char x' -> p = p' /\ x = x'.
Proof. intros Hp%prefixes_plain Hp'%prefixes_plain. by apply split_at_char. Qed.

Lemma own_form t k : own t k -> ∃ p x, p ∈ prefixes /\ k = p +:+ String ":"%char x /\
  (x = "index" +:+ String ":"%char t \/ ∃ i, x = t +:+ String ":"%char i).
Proof. intros (p & Hp & [->|[i ->]]); eexists p, _; (split_and!; [done|reflexivity|]); eauto. Qed.

Lemma own_apart t t' k : tenant_ok t = true -> tenant_ok t' = true -> t <> t' -> own t k -> ~ own t' k.
Proof.
  intros [Ht Hi]%tenant_ok_spec [Ht' Hi']%tenant_ok_spec Hne
    (p & x & Hp & -> & Hx)%own_form (p' & x' & Hp' & E & Hx')%own_form.
  apply prefix_inj in E as [<- <-]; [|done..].
  destruct Hx as [->|[i ->]], Hx' as [E'|[i' E']]; apply (split_at_char ":"%char) in E' as [E1 E2]; done.
Qed.

Lemma own_not_shared t k : own t k -> ~ shared k.
Proof.
  intros (p & x & Hp & -> & Hx)%own_form [(p' & Hp' & E)|E].
  - apply (prefix_inj p p' x "tenants") in E as [_ ->]; [|done..].
    destruct Hx as [E|[i E]]; [done|]. by apply eq_sym, no_colon_ne in E.
  - apply (prefix_inj p "schedules" x "sid_to_tenant") in E as [_ ->]; [|done|unfold prefixes; set_solver].
    destruct Hx as [E|[i E]]; [done|]. by apply eq_sym, no_colon_ne in E.
Qed.

(** ** Stores that agree on the tenant's keys *)

(** The shared keys hold what their commands expect. *)
Definition shared_ok (ks : keyspace) : Prop :=
  (∀ k, shared_set k -> is_Some (set_of (ks !! k))) /\ is_Some (hash_of (ks !! SCHEDULE_TENANT_IDX)).

Lemma shared_ok_empty : shared_ok ∅.
Proof. by split. Qed.

Definition agree (t : string) (ks1 ks2 : keyspace) : Prop :=
  (∀ k, own t k -> ks1 !! k = ks2 !! k) /\ shared_ok ks1 /\ shared_ok ks2.

Record alike (t : string) (w1 w2 : W) : Prop := {
  alike_keys : agree t (w_redis w1) (w_redis w2);
  alike_now : w_now w1 = w_now w2;
  alike_tick : w_tick w1 = w_tick w2
}.

(** A change of keys that are not shared *)
Lemma shared_ok_same ks ks' : (∀ k, shared k -> ks' !! k = ks !! k) -> shared_ok ks -> shared_ok ks'.
Proof.
  intros Hs [H1 H2]. split.
  - intros k Hk. rewrite Hs by (by left). auto.
  - rewrite Hs by (by right). done.
Qed.

(** ** Scripts that name certain keys only *)

Fixpoint lua_on (P : string -> Prop) {A} (m : lua A) : Prop :=
  match m with
  | LRet _ | LFail _ => True
  | LCall c k => match c with Key k' _ => P k' | Keys _ => False end /\ ∀ r, lua_on P (k r)
  end.

Lemma lua_on_bind P {A B} (m : lua A) (f : A -> lua B) : lua_on P m -> (∀ a, lua_on P (f a)) -> lua_on P (lua_bind m f).
Proof.
  intros Hm Hf. induction m as [a|e|X c k IH]; [apply Hf|done|]. destruct Hm as [Hc Hk].
  change (lua_on P (LCall c (λ x, lua_bind (k x) f))). split; [done|]. intros r. by apply IH.
Qed.

Lemma lua_on_call P k {X} (a : act X) : P k -> lua_on P (call k a).
Proof. intros Hk. split; [done|]. by intros [|]. Qed.

Lemma lua_on_outside P now {A} (m : lua A) : lua_on P m -> ∀ ks k, ~ P k -> (lua_run now m ks).1 !! k = ks !! k.
Proof.
  induction m as [a|e|X c f IH]; intros Hm ks k Hk; [done..|]. destruct Hm as [Hc Hf].
  destruct c as [X k' a|p]; [|done]. change (lua_run now (LCall (Key k' a) f) ks) with
    (let '(ks', r) := rcmd_doc now (Key k' a) ks in lua_run now (f r) ks'). unfold rcmd_doc.
  destruct (act_doc now a (live now ks k')) as [e r]. rewrite IH by (by apply Hf || done).
  apply lookup_put_ne. by intros ->.
Qed.

Lemma lua_on_agree P now {A} (m : lua A) : lua_on P m -> ∀ ks1 ks2, (∀ k, P k -> ks1 !! k = ks2 !! k) ->
  (lua_run now m ks1).2 = (lua_run now m ks2).2 /\
  ∀ k, P k -> (lua_run now m ks1).1 !! k = (lua_run now m ks2).1 !! k.
Proof.
  induction m as [a|e|X c f IH]; intros Hm ks1 ks2 Hs; [done..|]. destruct Hm as [Hc Hf].
  destruct c as [X k' a|p]; [|done]. change (lua_run now (LCall (Key k' a) f)) with
    (λ ks, let '(ks', r) := rcmd_doc now (Key k' a) ks in lua_run now (f r) ks'). cbv beta. unfold rcmd_doc.
  assert (El : live now ks1 k' = live now ks2 k') by (unfold live; by rewrite Hs).
  rewrite El. destruct (act_doc now a (live now ks2 k')) as [e r]. apply IH; [apply Hf|].
  intros k Hk. destruct (decide (k' = k)) as [->|Hne]; [by rewrite !lookup_put_eq|].
  rewrite !lookup_put_ne by done. auto.
Qed.

(** ** Isolated programs *)

Section Isolated.
#[local] Transparent redis script time_ms uuid4.
Context {E : Env} (t : string).

(** [Q] relates the two answers; it is equality but for answers without an order. *)
Record isolated {A} (Q : A -> A -> Prop) (m : prog A) : Prop := {
  iso_frame : ∀ (w : W) k, ~ own t k -> ~ shared k -> w_redis (run m w).1 !! k = w_redis w !! k;
  iso_secure : ∀ w1 w2 : W, alike t w1 w2 -> alike t (run m w1).1 (run m w2).1 /\ Q (run m w1).2 (run m w2).2
}.

Notation iso := (isolated eq).

Lemma iso_ret {A} (Q : A -> A -> Prop) (a : A) : Q a a -> isolated Q (Ret a).
Proof. intros HQ. by split. Qed.

Lemma iso_of_sum {A} (r : exn + A) : iso (of_sum r).
Proof. by apply iso_ret. Qed.

Lemma iso_pbind {A B} (Q : B -> B -> Prop) (m : prog A) (f : A -> prog B) :
  iso m -> (∀ a, isolated Q (f a)) -> isolated Q (pbind m f).
Proof.
  intros Hm Hf. split.
  - intros w k H1 H2. rewrite run_pbind. pose proof (iso_frame _ _ Hm w k H1 H2) as Hw.
    destruct (run m w) as [w' a]. by rewrite (iso_frame _ _ (Hf a)).
  - intros w1 w2 Hw. rewrite !run_pbind. destruct (iso_secure _ _ Hm w1 w2 Hw) as [Hw' HQ].
    destruct (run m w1) as [v1 a1], (run m w2) as [v2 a2]. simpl in HQ, Hw'. subst a2. by apply (iso_secure _ _ (Hf a1)).
Qed.

Lemma iso_bind {A B} (Q : exn + B -> exn + B -> Prop) (m : M A) (f : A -> M B) :
  (∀ e, Q (inl e) (inl e)) -> iso m -> (∀ a, isolated Q (f a)) -> isolated Q (bind m f).
Proof. intros He Hm Hf. apply iso_pbind; [done|]. intros [e|a]; [by apply iso_ret|done]. Qed.

Lemma iso_except {A} (m : M A) h : iso m -> (∀ e, iso (h e)) -> iso (except m h).
Proof.
  intros Hm Hh. apply iso_pbind; [done|]. intros [e|a]; [|by apply iso_ret].
  destruct (is_exception e); [done|by apply iso_ret].
Qed.

Lemma iso_log_none {A} (none : A) (m : M A) : iso m -> iso (log_errors_none none m).
Proof. intros Hm. apply iso_except; [done|]. intros e. destruct (passes_through e); by apply iso_ret. Qed.

Lemma iso_log_as {A} c (m : M A) : iso m -> iso (log_errors_as c m).
Proof. intros Hm. apply iso_except; [done|]. intros e. by apply iso_ret. Qed.

Lemma iso_fold_m {A T} (xs : list A) (body : T -> A -> M T) : (∀ s x, iso (body s x)) -> ∀ s, iso (fold_m xs body s).
Proof.
  intros Hb. induction xs as [|x xs IH]; intros s; [by apply iso_ret|]. apply iso_bind; auto.
Qed.

(** The clock, identifiers and outside answers are those of the environment. *)
Lemma alike_advance w1 w2 l1 l2 d1 d2 ks1 ks2 : alike t w1 w2 -> agree t ks1 ks2 ->
  alike t (advance (S := doc_services) ks1 d1 l1 w1) (advance (S := doc_services) ks2 d2 l2 w2).
Proof. intros [_ Hn Ht] Hk. split; simpl; [done|by rewrite Hn, Ht|by rewrite Ht]. Qed.

Lemma iso_time : iso time_ms.
Proof.
  split; [done|]. intros w1 w2 Hw. split; [|simpl; by rewrite (alike_now _ _ _ Hw)].
  apply alike_advance; [done|apply Hw].
Qed.

Lemma iso_uuid : iso uuid4.
Proof.
  split; [done|]. intros w1 w2 Hw. split; [|simpl; by rewrite (alike_tick _ _ _ Hw)].
  apply alike_advance; [done|apply Hw].
Qed.

Lemma iso_invoke what v : iso (invoke what v).
Proof.
  split; [done|]. intros w1 w2 Hw. split; [|simpl; by rewrite (alike_tick _ _ _ Hw)].
  apply alike_advance; [done|apply Hw].
Qed.

(** Scripts and commands on keys of the tenant *)
Lemma iso_script {A} (m : lua A) : lua_on (own t) m -> iso (script m).
Proof.
  intros Hm. split.
  - intros w k Hk _. rewrite run_script. destruct (redis_fault _); [done|].
    pose proof (lua_on_outside _ (w_now w) m Hm (w_redis w) k Hk) as Ho. by destruct (lua_run _ _ _).
  - intros w1 w2 Hw. pose proof (alike_keys _ _ _ Hw) as (Hk & Hs1 & Hs2). rewrite !run_script, <-(alike_tick _ _ _ Hw), <-(alike_now _ _ _ Hw).
    destruct (redis_fault _); [split; [by apply alike_advance; [|apply Hw]|done]|].
    destruct (lua_on_agree _ (w_now w1) m Hm _ _ Hk) as [Hr Ha].
    assert (Hsame : ∀ ks, shared_ok ks -> shared_ok (lua_run (w_now w1) m ks).1).
    { intros ks. apply shared_ok_same. intros k Hs. apply (lua_on_outside _ _ m Hm). intros Ho. by eapply own_not_shared. }
    pose proof (Hsame _ Hs1) as H1. pose proof (Hsame _ Hs2) as H2.
    destruct (lua_run _ _ (w_redis w1)) as [ks1 r1], (lua_run _ _ (w_redis w2)) as [ks2 r2]. simpl in *. subst r2.
    split; [|done]. apply alike_advance; [done|]. done.
Qed.

Lemma iso_own {X} k (a : act X) : own t k -> iso (redis k a).
Proof. intros Hk. apply (iso_script (call k a)). by apply lua_on_call. Qed.

(** Writing to a shared key, when the count it answers is not looked at.  [keeps_ok]: the
    command succeeds on an entry of the right kind and leaves one. *)
Lemma iso_shared {X B} (Q : exn + B -> exn + B -> Prop) k (a : act X) (m : M B) :
  shared k -> (∀ e, Q (inl e) (inl e)) -> isolated Q m ->
  (∀ now ks, shared_ok ks -> ∃ e x, act_doc now a (live now ks k) = (e, inr x) /\ shared_ok (put k e ks)) ->
  isolated Q (do* redis k a in m).
Proof.
  intros Hk HQ Hm Ha. split.
  - intros w k' Ho Hs. rewrite run_bind, run_redis. destruct (redis_fault _); [done|].
    destruct (act_doc _ _ _) as [e [x|x]]; [|rewrite (iso_frame _ _ Hm) by done]; simpl; apply lookup_put_ne; by intros ->.
  - intros w1 w2 Hw. pose proof (alike_keys _ _ _ Hw) as (Hks & Hs1 & Hs2).
    rewrite !run_bind, !run_redis, <-(alike_tick _ _ _ Hw), <-(alike_now _ _ _ Hw).
    destruct (redis_fault _); [split; [by apply alike_advance; [|apply Hw]|apply HQ]|].
    destruct (Ha (w_now w1) _ Hs1) as (e1 & x1 & -> & H1), (Ha (w_now w1) _ Hs2) as (e2 & x2 & -> & H2).
    cbv beta iota. apply (iso_secure _ _ Hm). apply alike_advance; [done|]. split_and!; [|done..].
    intros k' Ho. rewrite !lookup_put_ne by (intros ->; by eapply own_not_shared). auto.
Qed.
End Isolated.
#[global] Opaque redis script time_ms uuid4.

(** ** Shared keys *)

Lemma set_of_live now ks k : is_Some (set_of (ks !! k)) -> is_Some (set_of (live now ks k)).
Proof. unfold live. destruct (ks !! k) as [e|]; [|done]. by destruct (expired now e). Qed.

Lemma hash_of_live now ks k : is_Some (hash_of (ks !! k)) -> is_Some (hash_of (live now ks k)).
Proof. unfold live. destruct (ks !! k) as [e|]; [|done]. by destruct (expired now e). Qed.

Lemma schedule_idx_no_set : ~ shared_set SCHEDULE_TENANT_IDX.
Proof. intros (p & Hp & E). unfold prefixes in Hp. set_unfold. by destruct_or!; subst. Qed.

Lemma add_shared now ks k ms : shared_set k -> shared_ok ks ->
  ∃ e x, act_doc now (SADD ms) (live now ks k) = (e, inr x) /\ shared_ok (put k e ks).
Proof.
  intros Hk [H1 H2]. destruct (set_of_live now _ _ (H1 k Hk)) as [m Hm].
  destruct (act_SADD now _ m ms Hm) as [n Hn]. eexists _, _. split; [exact Hn|]. split.
  - intros k' Hk'. destruct (decide (k = k')) as [<-|Hne]; [|by rewrite lookup_put_ne; auto].
    rewrite lookup_put_eq, set_of_keep. done.
  - rewrite lookup_put_ne; [done|]. intros ->. by apply schedule_idx_no_set in Hk.
Qed.

Lemma hset_shared now ks fvs : shared_ok ks ->
  ∃ e x, act_doc now (HSET fvs) (live now ks SCHEDULE_TENANT_IDX) = (e, inr x) /\
    shared_ok (put SCHEDULE_TENANT_IDX e ks).
Proof.
  intros [H1 H2]. destruct (hash_of_live now _ _ H2) as [h Hh].
  destruct (act_HSET now _ h fvs Hh) as [n Hn]. eexists _, _. split; [exact Hn|]. split.
  - intros k' Hk'. rewrite lookup_put_ne; [auto|]. intros <-. by apply schedule_idx_no_set in Hk'.
  - rewrite lookup_put_eq, hash_of_keep. done.
Qed.

(** ** The operations of a registry and of the DAG loader *)

Section Operations.
Context {E : Env} (t : string).
Notation iso := (isolated t eq).

Lemma own_index reg : reg_prefix reg ∈ prefixes -> own t (index_key reg t).
Proof. intros Hp. exists (reg_prefix reg). auto. Qed.

Lemma own_item reg i : reg_prefix reg ∈ prefixes -> own t (make_key reg t i).
Proof. intros Hp. exists (reg_prefix reg). split; [done|]. right. by exists i. Qed.

Lemma own_dag d : own t (dag_key t d).
Proof. exists "dag_def". split; [unfold prefixes; set_solver|]. right. by exists d. Qed.

Lemma iso_raise {A} e : iso (raise e : M A).
Proof. by apply iso_ret. Qed.

Lemma iso_return {A} (a : A) : iso (ret a).
Proof. by apply iso_ret. Qed.

Lemma iso_seq {A B} (m : M A) (f : A -> M B) : iso m -> (∀ a, iso (f a)) -> iso (bind m f).
Proof. by apply iso_bind. Qed.

Lemma iso_reg_get reg i : reg_prefix reg ∈ prefixes -> iso (reg_get reg t i).
Proof.
  intros Hp. apply iso_log_none, iso_seq; [by apply iso_own, own_item|]. intros d. apply iso_return.
Qed.

Lemma iso_reg_list reg : reg_prefix reg ∈ prefixes -> iso (reg_list reg t).
Proof.
  intros Hp. apply iso_log_none, iso_seq; [by apply iso_own, own_index|]. intros d. apply iso_return.
Qed.

Lemma iso_reg_delete reg i : reg_prefix reg ∈ prefixes -> iso (reg_delete reg t i).
Proof.
  intros Hp. apply iso_log_none, iso_seq; [by apply iso_own, own_item|]. intros n.
  destruct (n =? 0); [apply iso_return|]. apply iso_seq; [by apply iso_own, own_index|]. intros m. apply iso_return.
Qed.

Lemma iso_reg_set reg i v : reg_prefix reg ∈ prefixes -> iso (reg_set reg t i v).
Proof.
  intros Hp. apply iso_log_as, iso_seq; [by apply iso_own, own_item|]. intros b.
  apply iso_seq; [by apply iso_own, own_index|]. intros n.
  assert (Hs : shared_set (tenants_key reg)) by (by exists (reg_prefix reg)).
  apply iso_shared; [by left|done|apply iso_return|]. intros now ks. by apply add_shared.
Qed.

Lemma iso_schedule_set reg i v : reg_prefix reg ∈ prefixes -> iso (schedule_set reg t i v).
Proof.
  intros Hp. apply iso_seq; [by apply iso_reg_set|]. intros [|]; [|apply iso_return].
  apply iso_shared; [by right|done|apply iso_return|]. intros now ks. apply hset_shared.
Qed.

Lemma iso_toggle `{Cjson} reg i b : reg_prefix reg ∈ prefixes -> iso (toggle reg t i b).
Proof.
  intros Hp. apply iso_seq; [|intros n; apply iso_return]. apply iso_script, lua_on_bind; [by apply lua_on_call, own_item|].
  intros [text|]; [|done]. apply lua_on_bind.
  - unfold lua_decode. by destruct (cjson_decode text).
  - intros d. apply lua_on_bind; [by apply lua_on_call, own_item|done].
Qed.
End Operations.

#[export] Hint Resolve iso_raise iso_return iso_of_sum iso_time iso_uuid iso_invoke iso_reg_get iso_reg_list
  iso_reg_delete iso_reg_set iso_schedule_set iso_toggle iso_own own_dag : iso.

(** Show a program isolated by following its syntax. *)
Ltac iso_tac :=
  repeat first
    [ progress intros
    | solve [auto with iso]
    | apply iso_seq | apply iso_fold_m | apply iso_except
    | progress cbv beta iota zeta
    | match goal with
      | |- isolated _ eq (match ?x with _ => _ end) => destruct x
      | |- isolated _ eq (if ?x then _ else _) => destruct x
      end ].
