(* ===== verification/ResourceRoutes.v ===== *)
(** * Resource routes

    [src/api/routes/capabilities.py], [clusters.py], [nodes.py], [schedules.py] and
    [dags.py] with the dependencies of [src/api/dependencies.py] they use.  A handler
    takes the context of the authenticated caller; [serve] is the application's
    dispatch over these handlers.  The theorems: requests of one tenant neither change
    nor reveal what another tenant keeps; and the one key the schedules of all tenants
    share lets them interfere all the same, through the cron scheduler. *)

From Stdlib Require Import Ascii.
From stdpp Require Import base gmap strings list.
From S2P Require Import Prelude PyValue Json IsoTime Redis TaskModel Tables Effects ErrorHandling.
From S2P Require Import Cjson Registry CapabilityRegistry ClusterRegistry NodeRegistry ScheduleRegistry.
From S2P Require Import TaskCompletion Policies ResourceServices DagLoader Isolation.

Open Scope Z_scope.

(** ** The application's state *)

Record loader := { ld_redis : bool; ld_db : bool }.

Record app_state := {
  st_capabilities : bool;
  st_clusters : bool;
  st_nodes : bool;
  st_schedules : option BaseRedisRegistry;
  st_dags : option loader;
  st_redis : bool
}.

Definition get_app_state_attr {A} (attr : option A) (detail : string) : M A :=
  match attr with Some a => ret a | None => raise (HTTPException 503 detail) end.

(** An attribute that is there or not *)
Definition present (b : bool) : option unit := if b then Some tt else None.

Definition tenant_or (q : string) : string := match q with "" => "default" | _ => q end.

(** The tenant in an f-string *)
Definition resolved (auth : dict) (fallback : string) : string := py_str (resolve_tenant_id auth fallback).

Section Routes.
Context `{Cjson} (app : app_state) (auth : dict).
Context (validate_cap : value -> exn + CapabilityInfo) (validate_cluster : value -> exn + ClusterInfo)
        (validate_node : value -> exn + NodeInfo) (yaml_file : string -> option (exn + value)).

(** ** Capabilities *)

Definition cap_reg : M unit := get_app_state_attr (present (st_capabilities app)) "CapabilityRegistry not initialised".

(** [_auth.get("tenant_id", fallback)] *)
Definition caller (fallback : string) : string := py_str (dict_get_or "tenant_id" (VStr fallback) auth).

Definition route_list_capabilities (tenant_id : string) : M (list CapabilityInfo) :=
  do* cap_reg in
  let tenant := caller (tenant_or tenant_id) in
  let* ids := reg_list cap_registry tenant in
  let* ids := iterate ids in
  fold_m ids (λ caps cid,
    let* cap := cap_get2 validate_cap tenant cid in
    ret (caps ++ match cap with Some c => [c] | None => [] end)) [].

Definition existing_capability (capability_id : string) : M CapabilityInfo :=
  do* cap_reg in
  let* cap := cap_get2 validate_cap (caller "default") capability_id in
  match cap with Some c => ret c | None => raise (not_found "Capability" capability_id) end.

Definition route_get_capability (capability_id : string) : M CapabilityInfo := existing_capability capability_id.

Definition route_register_capability (body : dict) : M dict :=
  do* cap_reg in
  match py_or (dict_get_or "capability_id" VNone body) (dict_get_or "name" VNone body) with
  | VStr (String c s) =>
      do* reg_set cap_registry (caller "default") (String c s) (VDict body) in
      ret [("capability_id", VStr (String c s)); ("registered", VBool true)]
  | v => if truthy v then raise (Exn TypeError "capability_id") else raise (HTTPException 422 "capability_id or name required")
  end.

(** [{**existing, ...}] of a model *)
Definition route_update_capability (capability_id : string) (body : dict) : M dict :=
  do* existing_capability capability_id in
  raise (Exn TypeError "'CapabilityInfo' object is not a mapping").

Definition route_delete_capability (capability_id : string) : M unit :=
  do* cap_reg in
  do* reg_delete cap_registry (caller "default") capability_id in ret tt.

(** [cap.get("health_status", "unknown")] of a model *)
Definition route_capability_health (capability_id : string) : M dict :=
  do* existing_capability capability_id in
  raise (Exn AttributeError "'CapabilityInfo' object has no attribute 'get'").

(** ** Clusters *)

Definition cluster_reg : M unit := get_app_state_attr (present (st_clusters app)) "ClusterRegistry not initialised".

Definition route_list_clusters (tenant_id : string) : M (list ClusterInfo) :=
  do* cluster_reg in list_clusters validate_cluster (resolved auth (tenant_or tenant_id)).
Definition route_get_cluster (cluster_id : string) : M ClusterInfo :=
  do* cluster_reg in service_get_cluster validate_cluster (resolved auth "default") cluster_id.
Definition route_register_cluster (body : dict) : M dict :=
  do* cluster_reg in register_cluster (resolved auth "default") body.
Definition route_update_cluster (cluster_id : string) (body : dict) : M dict :=
  do* cluster_reg in update_cluster validate_cluster (resolved auth "default") cluster_id body.
Definition route_delete_cluster (cluster_id : string) : M unit :=
  do* cluster_reg in delete_cluster (resolved auth "default") cluster_id.
Definition route_cluster_resources (cluster_id : string) : M dict :=
  do* cluster_reg in get_cluster_resources validate_cluster (resolved auth "default") cluster_id.

(** ** Nodes *)

Definition node_reg : M unit := get_app_state_attr (present (st_nodes app)) "NodeRegistry not initialised".

Definition route_list_nodes (cluster_id : string) : M (list node_data) :=
  do* node_reg in list_nodes validate_node (resolved auth "default") cluster_id.
Definition route_get_node (node_id : string) : M node_data :=
  do* node_reg in service_get_node validate_node (resolved auth "default") node_id.
Definition route_invite_node (node_id : string) (body : dict) : M dict :=
  do* node_reg in invite_node validate_node (resolved auth "default") node_id body.
Definition route_drain_node (node_id : string) (body : dict) : M dict :=
  do* node_reg in drain_node validate_node (resolved auth "default") node_id body.
Definition route_release_node (node_id : string) : M dict :=
  do* node_reg in release_node validate_node (resolved auth "default") node_id.
Definition route_delete_node (node_id : string) : M unit :=
  do* node_reg in delete_node (resolved auth "default") node_id.

(** ** Schedules *)

Definition schedule_reg : M BaseRedisRegistry := get_app_state_attr (st_schedules app) "ScheduleRegistry not initialised".

Definition route_list_schedules : M (list value) :=
  let* reg := schedule_reg in list_schedules reg (resolved auth "default").
Definition route_get_schedule (schedule_id : string) : M value :=
  let* reg := schedule_reg in get_schedule reg (resolved auth "default") schedule_id.
Definition route_create_schedule (body : dict) : M dict :=
  let* reg := schedule_reg in create_schedule reg (resolved auth "default") body.
Definition route_update_schedule (schedule_id : string) (body : dict) : M dict :=
  let* reg := schedule_reg in update_schedule reg (resolved auth "default") schedule_id body.
Definition route_toggle_schedule (schedule_id : string) (body : dict) : M dict :=
  let* reg := schedule_reg in toggle_schedule reg (resolved auth "default") schedule_id body.
Definition route_delete_schedule (schedule_id : string) : M unit :=
  let* reg := schedule_reg in delete_schedule reg (resolved auth "default") schedule_id.

(** ** DAGs *)

Definition dag_loader : M loader := get_app_state_attr (st_dags app) "DagLoader not initialised".

Definition route_list_dags (tenant_id : string) : M (list dict) :=
  do* dag_loader in list_dags (st_redis app) (resolved auth tenant_id).
Definition route_get_dag (dag_id tenant_id : string) : M value :=
  let* ld := dag_loader in get_dag (ld_redis ld) (ld_db ld) yaml_file dag_id (resolved auth tenant_id).
Definition route_register_dag (body : dict) : M dict :=
  let* ld := dag_loader in register_dag (ld_redis ld) (resolved auth "default") body.
Definition route_update_dag (dag_id : string) (body : dict) : M dict :=
  let* ld := dag_loader in update_dag (ld_redis ld) (ld_db ld) yaml_file dag_id (resolved auth "default") body.
Definition route_delete_dag (dag_id tenant_id : string) : M unit :=
  let* ld := dag_loader in delete_dag (ld_redis ld) dag_id (resolved auth tenant_id).
End Routes.

(** ** Dispatch *)

Inductive resource_request :=
| ListCapabilities (tenant_id : string) | GetCapability (id : string) | RegisterCapability (body : dict)
| UpdateCapability (id : string) (body : dict) | DeleteCapability (id : string) | CapabilityHealth (id : string)
| ListClusters (tenant_id : string) | GetCluster (id : string) | RegisterCluster (body : dict)
| UpdateCluster (id : string) (body : dict) | DeleteCluster (id : string) | ClusterResourcesOf (id : string)
| ListNodes (cluster_id : string) | GetNode (id : string) | InviteNode (id : string) (body : dict)
| DrainNode (id : string) (body : dict) | ReleaseNode (id : string) | DeleteNode (id : string)
| ListSchedules | GetSchedule (id : string) | CreateSchedule (body : dict) | UpdateSchedule (id : string) (body : dict)
| ToggleSchedule (id : string) (body : dict) | DeleteSchedule (id : string)
| ListDags (tenant_id : string) | GetDag (id tenant_id : string) | RegisterDag (body : dict)
| UpdateDag (id : string) (body : dict) | DeleteDag (id tenant_id : string).

Inductive reply :=
| RCapabilities (l : list CapabilityInfo) | RCapability (c : CapabilityInfo)
| RClusters (l : list ClusterInfo) | RCluster (c : ClusterInfo)
| RNodes (l : list node_data) | RNode (n : node_data)
| RValues (l : list value) | RValue (v : value)
| RBody (d : dict) | RDags (l : list dict) | RNoContent.

(** The handler's result as an answer *)
Definition answer {A} (f : A -> reply) (m : M A) : M reply := let* a := m in ret (f a).

Section Serve.
Context `{Cjson} (app : app_state).
Context (vc : value -> exn + CapabilityInfo) (vk : value -> exn + ClusterInfo) (vn : value -> exn + NodeInfo)
        (yaml_file : string -> option (exn + value)).

Definition serve (auth : dict) (r : resource_request) : M reply :=
  match r with
  | ListCapabilities q => answer RCapabilities (route_list_capabilities app auth vc q)
  | GetCapability id => answer RCapability (route_get_capability app auth vc id)
  | RegisterCapability body => answer RBody (route_register_capability app auth body)
  | UpdateCapability id body => answer RBody (route_update_capability app auth vc id body)
  | DeleteCapability id => answer (λ _, RNoContent) (route_delete_capability app auth id)
  | CapabilityHealth id => answer RBody (route_capability_health app auth vc id)
  | ListClusters q => answer RClusters (route_list_clusters app auth vk q)
  | GetCluster id => answer RCluster (route_get_cluster app auth vk id)
  | RegisterCluster body => answer RBody (route_register_cluster app auth body)
  | UpdateCluster id body => answer RBody (route_update_cluster app auth vk id body)
  | DeleteCluster id => answer (λ _, RNoContent) (route_delete_cluster app auth id)
  | ClusterResourcesOf id => answer RBody (route_cluster_resources app auth vk id)
  | ListNodes c => answer RNodes (route_list_nodes app auth vn c)
  | GetNode id => answer RNode (route_get_node app auth vn id)
  | InviteNode id body => answer RBody (route_invite_node app auth vn id body)
  | DrainNode id body => answer RBody (route_drain_node app auth vn id body)
  | ReleaseNode id => answer RBody (route_release_node app auth vn id)
  | DeleteNode id => answer (λ _, RNoContent) (route_delete_node app auth id)
  | ListSchedules => answer RValues (route_list_schedules app auth)
  | GetSchedule id => answer RValue (route_get_schedule app auth id)
  | CreateSchedule body => answer RBody (route_create_schedule app auth body)
  | UpdateSchedule id body => answer RBody (route_update_schedule app auth id body)
  | ToggleSchedule id body => answer RBody (route_toggle_schedule app auth id body)
  | DeleteSchedule id => answer (λ _, RNoContent) (route_delete_schedule app auth id)
  | ListDags q => answer RDags (route_list_dags app auth q)
  | GetDag id q => answer RValue (route_get_dag app auth yaml_file id q)
  | RegisterDag body => answer RBody (route_register_dag app auth body)
  | UpdateDag id body => answer RBody (route_update_dag app auth yaml_file id body)
  | DeleteDag id q => answer (λ _, RNoContent) (route_delete_dag app auth id q)
  end.

(** Requests one after the other; an exception is an error answer to its caller. *)
Fixpoint serve_all (rs : list (dict * resource_request)) : M (list (exn + reply)) :=
  match rs with
  | [] => ret []
  | (auth, r) :: rs' =>
      let* a := attempt_ (serve auth r) in
      let* rest := serve_all rs' in
      ret (a :: rest)
  end.
End Serve.

(** * Isolation *)

(** Equal answers, but for the order in which SCAN lists the DAGs *)
Definition same_answer (a b : exn + reply) : Prop :=
  match a, b with
  | inr (RDags l), inr (RDags l') => l ≡ₚ l'
  | _, _ => a = b
  end.

Lemma same_answer_refl a : same_answer a a.
Proof. destruct a as [e|[]]; simpl; reflexivity. Qed.

Lemma isolated_weaken {E : Env} t {A} (Q Q' : A -> A -> Prop) m :
  (∀ a b, Q a b -> Q' a b) -> isolated t Q m -> isolated t Q' m.
Proof.
  intros HQ [Hf Hs]. split; [done|]. intros w1 w2 Hw. destruct (Hs w1 w2 Hw). auto.
Qed.

Lemma prefix_cap : reg_prefix cap_registry ∈ prefixes.
Proof. change (reg_prefix cap_registry) with "capability". unfold prefixes. set_solver. Qed.
Lemma prefix_cluster : reg_prefix cluster_registry ∈ prefixes.
Proof. change (reg_prefix cluster_registry) with "cluster". unfold prefixes. set_solver. Qed.
Lemma prefix_node : reg_prefix node_registry ∈ prefixes.
Proof. change (reg_prefix node_registry) with "node". unfold prefixes. set_solver. Qed.
Lemma prefix_schedule ttl : reg_prefix (ScheduleRegistry_init ttl) ∈ prefixes.
Proof. change (reg_prefix _) with "schedules". unfold prefixes. set_solver. Qed.
#[local] Hint Resolve prefix_cap prefix_cluster prefix_node : iso.

(** ** Every handler is isolated for the caller's tenant *)

Section Handlers.
Context `{Cjson} {E : Env} (app : app_state) (auth : dict) (t : string) (ttl : Z).
Context (vc : value -> exn + CapabilityInfo) (vk : value -> exn + ClusterInfo) (vn : value -> exn + NodeInfo)
        (yaml_file : string -> option (exn + value)).
(** The context names the tenant; the schedule registry is the one of the wiring. *)
Context (Hauth : dict_get "tenant_id" auth = Some (VStr t)) (Hne : t <> "").
Context (Hsched : st_schedules app = None \/ st_schedules app = Some (ScheduleRegistry_init ttl)).
Notation iso := (isolated t eq).

Lemma resolved_tenant q : resolved auth q = t.
Proof using Hauth Hne.
  unfold resolved, resolve_tenant_id, dict_get_or. rewrite Hauth. simpl. by destruct t.
Qed.

Lemma caller_tenant q : caller auth q = t.
Proof using Hauth. unfold caller, dict_get_or. by rewrite Hauth. Qed.

Lemma iso_attr {A} (o : option A) detail : iso (get_app_state_attr o detail).
Proof. by destruct o; apply iso_ret. Qed.

Lemma prefix_schedules reg : st_schedules app = Some reg -> reg_prefix reg ∈ prefixes.
Proof using Hsched.
  destruct Hsched as [->| ->]; [discriminate|]. intros [= <-]. apply prefix_schedule.
Qed.

Lemma iso_schedule_reg {A} (f : BaseRedisRegistry -> M A) :
  (∀ reg, reg_prefix reg ∈ prefixes -> iso (f reg)) -> iso (let* reg := schedule_reg app in f reg).
Proof using Hsched.
  intros Hf. pose proof prefix_schedules as Hp. unfold schedule_reg.
  destruct (st_schedules app) as [reg|]; [|apply iso_ret; reflexivity]. apply Hf, Hp, eq_refl.
Qed.

Lemma iso_iterate ids : iso (iterate ids).
Proof. by destruct ids; apply iso_ret. Qed.

Lemma iso_required k detail body : iso (required_text k detail body).
Proof. unfold required_text. iso_tac. Qed.

#[local] Hint Resolve iso_attr iso_iterate iso_required : iso.

(** Unfold a handler down to the operations of its registry, for the caller's tenant. *)
Ltac handler_tac :=
  rewrite ?resolved_tenant, ?caller_tenant; unfold cap_get2, cluster_get2, node_get2;
  iso_tac.

Lemma iso_capabilities q id body :
  iso (route_list_capabilities app auth vc q) /\ iso (existing_capability app auth vc id) /\
  iso (route_register_capability app auth body) /\ iso (route_delete_capability app auth id).
Proof using Hauth.
  unfold route_list_capabilities, existing_capability, route_register_capability, route_delete_capability, cap_reg.
  split_and!; handler_tac.
Qed.

Lemma iso_clusters id q body :
  iso (route_list_clusters app auth vk q) /\ iso (route_get_cluster app auth vk id) /\
  iso (route_register_cluster app auth body) /\ iso (route_update_cluster app auth vk id body) /\
  iso (route_delete_cluster app auth id) /\ iso (route_cluster_resources app auth vk id).
Proof using Hauth Hne.
  unfold route_list_clusters, route_get_cluster, route_register_cluster, route_update_cluster, route_delete_cluster,
    route_cluster_resources, cluster_reg, list_clusters, register_cluster, update_cluster, delete_cluster,
    get_cluster_resources, service_get_cluster.
  split_and!; handler_tac.
Qed.

Lemma iso_nodes id body :
  iso (route_list_nodes app auth vn id) /\ iso (route_get_node app auth vn id) /\
  iso (route_invite_node app auth vn id body) /\ iso (route_drain_node app auth vn id body) /\
  iso (route_release_node app auth vn id) /\ iso (route_delete_node app auth id).
Proof using Hauth Hne.
  unfold route_list_nodes, route_get_node, route_invite_node, route_drain_node, route_release_node, route_delete_node,
    node_reg, list_nodes, invite_node, drain_node, release_node, delete_node, service_get_node, in_cluster, set_item, store_node.
  split_and!; handler_tac.
Qed.

Lemma iso_schedules id body :
  iso (route_list_schedules app auth) /\ iso (route_get_schedule app auth id) /\
  iso (route_create_schedule app auth body) /\ iso (route_update_schedule app auth id body) /\
  iso (route_toggle_schedule app auth id body) /\ iso (route_delete_schedule app auth id).
Proof using Hauth Hne Hsched.
  unfold route_list_schedules, route_get_schedule, route_create_schedule, route_update_schedule, route_toggle_schedule,
    route_delete_schedule, list_schedules, create_schedule, update_schedule, toggle_schedule, delete_schedule,
    get_schedule, schedule_id_of.
  split_and!; apply iso_schedule_reg; intros reg Hreg; handler_tac.
Qed.

Lemma iso_dags id q body :
  iso (route_get_dag app auth yaml_file id q) /\ iso (route_register_dag app auth body) /\
  iso (route_update_dag app auth yaml_file id body) /\ iso (route_delete_dag app auth id q).
Proof using Hauth Hne.
  unfold route_get_dag, route_register_dag, route_update_dag, route_delete_dag, dag_loader, register_dag, update_dag,
    delete_dag, get_dag, load, register, dag_delete, warm, cache_in_redis, load_from_redis, load_from_db.
  split_and!; handler_tac.
Qed.
End Handlers.

(** ** Listing the DAGs of a tenant *)

Definition scanned (p : string -> bool) (now : Z) (ks : keyspace) : list string :=
  filter (λ k, Is_true (p k) /\ live now ks k <> None) (map_to_list ks).*1.

Lemma elem_of_scanned p now ks k : k ∈ scanned p now ks <-> p k = true /\ live now ks k <> None.
Proof.
  unfold scanned. rewrite list_elem_of_filter. split.
  - intros [[Hp Hl] _]. split; [by apply Is_true_true|done].
  - intros [Hp Hl]. split; [split; [by apply Is_true_true|done]|].
    destruct (live_is_Some _ _ _ Hl) as [e He]. apply list_elem_of_fmap. exists (k, e). split; [done|].
    by apply elem_of_map_to_list.
Qed.

Lemma scanned_agree t now ks1 ks2 : agree t ks1 ks2 ->
  scanned (starts_with ("dag_def:" +:+ t +:+ ":")) now ks1 ≡ₚ scanned (starts_with ("dag_def:" +:+ t +:+ ":")) now ks2.
Proof.
  intros [Hk _]. apply NoDup_Permutation; [apply NoDup_filter, NoDup_fst_map_to_list..|].
  intros k. rewrite !elem_of_scanned.
  enough (Hs : starts_with ("dag_def:" +:+ t +:+ ":") k = true -> ks1 !! k = ks2 !! k).
  { split; intros [Hp Hl]; (split; [done|]); unfold live in *; [rewrite <-(Hs Hp)|rewrite (Hs Hp)]; done. }
  intros [d ->]%starts_with_inv. rewrite <-!string_app_assoc. apply Hk, (own_dag t d).
Qed.

Section Serving.
Context `{Cjson} {E : Env} (app : app_state) (auth : dict) (t : string) (ttl : Z).
Context (vc : value -> exn + CapabilityInfo) (vk : value -> exn + ClusterInfo) (vn : value -> exn + NodeInfo)
        (yaml_file : string -> option (exn + value)).
Context (Hauth : dict_get "tenant_id" auth = Some (VStr t)) (Hne : t <> "").
Context (Hsched : st_schedules app = None \/ st_schedules app = Some (ScheduleRegistry_init ttl)).

Lemma run_list_dags (w : W) :
  run (list_dags true t) w =
  match redis_fault (w_tick w) with
  | Some e => (after (w_redis w) (w_db w) w, inl e)
  | None => (after (w_redis w) (w_db w) w,
      inr (map (λ k, [("dag_id", VStr (after_last ":"%char k)); ("tenant_id", VStr t)])
             (scanned (starts_with ("dag_def:" +:+ t +:+ ":")) (w_now w) (w_redis w))))
  end.
Proof.
  unfold list_dags. cbn [negb]. rewrite run_bind, run_script. by destruct (redis_fault _).
Qed.

Lemma isolated_list_dags q : isolated t same_answer (answer RDags (route_list_dags app auth q)).
Proof using Hauth Hne.
  unfold answer, route_list_dags, dag_loader. rewrite (resolved_tenant auth t Hauth Hne).
  destruct (st_dags app) as [ld|]; [|apply iso_ret, same_answer_refl].
  change (let* _ := get_app_state_attr (Some ld) "DagLoader not initialised" in list_dags (st_redis app) t)
    with (list_dags (st_redis app) t).
  destruct (st_redis app); [|apply iso_ret, same_answer_refl]. split.
  - intros w k _ _. rewrite run_bind, run_list_dags. by destruct (redis_fault _).
  - intros w1 w2 Hw. rewrite !run_bind, !run_list_dags, <-(alike_tick _ _ _ Hw), <-(alike_now _ _ _ Hw).
    destruct (redis_fault _); (split; [apply alike_advance; [done|apply Hw]|]); [done|].
    apply Permutation_map, scanned_agree, Hw.
Qed.

Lemma isolated_answer {A} (f : A -> reply) (m : M A) : isolated t eq m -> isolated t same_answer (answer f m).
Proof.
  intros Hm. apply (isolated_weaken t eq); [intros a b ->; apply same_answer_refl|].
  apply iso_seq; [done|]. intros a. apply iso_return.
Qed.

#[local] Opaque route_list_clusters route_get_cluster route_register_cluster route_update_cluster route_delete_cluster
  route_cluster_resources route_list_nodes route_get_node route_invite_node route_drain_node route_release_node
  route_delete_node.

(** A handler of the caller's tenant *)
Lemma serve_isolated r : isolated t same_answer (serve app vc vk vn yaml_file auth r).
Proof using Hauth Hne Hsched.
  destruct r; cbn [serve];
    lazymatch goal with |- isolated _ _ (answer RDags _) => apply isolated_list_dags | _ => apply isolated_answer end.
  1, 2, 3, 5: by apply iso_capabilities.
  1, 2: apply iso_seq; [by apply iso_capabilities|intros c; apply iso_raise].
  1-6: by apply iso_clusters.
  1-6: by apply iso_nodes.
  1-6: by eapply iso_schedules.
  all: by apply iso_dags.
  Unshelve. all: exact "" || exact [].
Qed.
End Serving.

(** ** Requests of different tenants *)

Definition acts_for (auth : dict) (t : string) : Prop :=
  dict_get "tenant_id" auth = Some (VStr t) /\ t <> "" /\ tenant_ok t = true.

(** The schedule registry the application is wired with *)
Definition wired (app : app_state) : Prop :=
  st_schedules app = None \/ ∃ ttl, st_schedules app = Some (ScheduleRegistry_init ttl).

Section Others.
Context `{Cjson} {E : Env} (app : app_state) (Hw : wired app).
Context (vc : value -> exn + CapabilityInfo) (vk : value -> exn + ClusterInfo) (vn : value -> exn + NodeInfo)
        (yaml_file : string -> option (exn + value)).

Lemma serve_acts_for auth t r : acts_for auth t -> isolated t same_answer (serve app vc vk vn yaml_file auth r).
Proof using Hw.
  intros (Ha & Hne & _). destruct Hw as [Hs|[ttl Hs]]; [apply (serve_isolated app auth t 0)|apply (serve_isolated app auth t ttl)]; auto.
Qed.

Lemma alike_refl t (w : W) : shared_ok (w_redis w) -> alike t w w.
Proof. by intros Hs; split. Qed.

Lemma serve_all_keeps t others : ∀ w : W,
  tenant_ok t = true -> Forall (λ x, ∃ t', t' <> t /\ acts_for x.1 t') others -> shared_ok (w_redis w) ->
  let w' := (run (serve_all app vc vk vn yaml_file others) w).1 in
  shared_ok (w_redis w') /\ ∀ k, own t k -> w_redis w' !! k = w_redis w !! k.
Proof using Hw.
  induction others as [|[auth r] others IH]; intros w Ht Ho Hs; [done|].
  apply Forall_cons in Ho as [(t' & Hne & Ha) Ho]. cbn [serve_all]. rewrite run_bind, run_attempt_.
  pose proof (serve_acts_for auth t' r Ha) as Hi.
  pose proof (iso_frame _ _ _ Hi w) as Hf. destruct (iso_secure _ _ _ Hi w w (alike_refl t' w Hs)) as [[(_ & Hs' & _) _ _] _].
  destruct (run (serve _ _ _ _ _ _ _) w) as [w1 a]. cbn [fst snd] in *. rewrite run_bind.
  specialize (IH w1 Ht Ho Hs'). destruct (run (serve_all _ _ _ _ _ _) w1) as [w2 [e|rs]]; destruct IH as [H1 H2].
  all: split; [done|]; intros k Hk; cbn [fst run ret]; rewrite H2 by done; apply Hf; [|by eapply own_not_shared].
  all: destruct Ha as (_ & _ & Ht'); intros Hk'; by apply (own_apart t' t k).
Qed.
End Others.

(** C20: Tenants do not interfere through the resource routes.  Whatever requests other
    tenants make, with whatever bodies and failing Redis calls, the capabilities,
    clusters, nodes, schedules and DAGs of a tenant stay as they are; and any request of
    the tenant gets the answer, and has the effect on these, that it would have had
    without them.  For tenant names the key layout keeps apart. *)
Theorem resource_isolation (S : Services) (C : Cjson) (E : Env) app vc vk vn yaml_file auth t r others (w : world S) :
  wired app -> acts_for auth t -> Forall (λ x, ∃ t', t' <> t /\ acts_for x.1 t') others -> shared_ok (ks_of w) ->
  let w' := (run (serve_all app vc vk vn yaml_file others) w).1 in
  (∀ k, own t k -> ks_of w' !! k = ks_of w !! k) /\
  ∀ v v' : world S, ks_of v = ks_of w -> ks_of v' = ks_of w' -> w_now v = w_now v' -> w_tick v = w_tick v' ->
    let a := run (serve app vc vk vn yaml_file auth r) v in
    let a' := run (serve app vc vk vn yaml_file auth r) v' in
    same_answer a.2 a'.2 /\ ∀ k, own t k -> ks_of a.1 !! k = ks_of a'.1 !! k.
Proof.
  intros Happ Ha Ho Hs w'.
  pose proof (serve_all_keeps app Happ vc vk vn yaml_file t others (wview w) (proj2 (proj2 Ha)) Ho Hs) as [Hs' Hk].
  rewrite run_view in Hs', Hk. fold w' in Hs', Hk. split; [exact Hk|].
  intros v v' Hv Hv' Hn Ht. cbv zeta.
  pose proof (serve_acts_for app Happ vc vk vn yaml_file auth t r Ha) as Hi.
  assert (Hal : alike t (wview v) (wview v')).
  { split; [|done..]. change (w_redis (wview v)) with (ks_of v). change (w_redis (wview v')) with (ks_of v').
    rewrite Hv, Hv'. split_and!; [|done..]. intros k Hown. symmetry. by apply Hk. }
  destruct (iso_secure _ _ _ Hi _ _ Hal) as [Hal' Hq]. rewrite !run_view in Hal', Hq. split; [exact Hq|].
  intros k Hown. by apply (alike_keys _ _ _ Hal').
Qed.


(** ** The index all schedules share *)

Section Captured.
Context `{Cjson} {E : Env} (HE : quiet E).
Implicit Types (w : W) (reg : BaseRedisRegistry).

Lemma reg_set_other reg t i v k w :
  k <> make_key reg t i -> k <> index_key reg t -> k <> tenants_key reg ->
  at_key (w_redis (run (reg_set reg t i v) w).1) k = at_key (w_redis w) k.
Proof.
  intros H1 H2 H3. unfold reg_set, log_errors_as. rewrite run_except.
  enough (Hk : ∀ m : M bool, m = (do* redis (make_key reg t i) (SET (orjson_dumps v)
      (if reg_ttl reg >? 0 then Some (reg_ttl reg * 1000) else None) false) in
      do* redis (index_key reg t) (SADD [i]) in do* redis (tenants_key reg) (SADD [t]) in ret true) ->
    at_key (w_redis (run m w).1) k = at_key (w_redis w) k).
  { specialize (Hk _ eq_refl). destruct (run _ w) as [w' [e|b]]; [|done]. by destruct (is_exception e). }
  intros m ->. rewrite run_bind.
  pose proof (redis_other k (make_key reg t i) (SET (orjson_dumps v)
      (if reg_ttl reg >? 0 then Some (reg_ttl reg * 1000) else None) false) w (not_eq_sym H1)) as E1.
  destruct (run (redis _ _) w) as [w1 [e|b]]; [done|]. rewrite run_bind.
  pose proof (redis_other k (index_key reg t) (SADD [i]) w1 (not_eq_sym H2)) as E2.
  destruct (run (redis _ _) w1) as [w2 [e|n]]; simpl in *; [congruence|]. rewrite run_bind.
  pose proof (redis_other k (tenants_key reg) (SADD [t]) w2 (not_eq_sym H3)) as E3.
  destruct (run (redis _ _) w2) as [w3 [e|n']]; simpl in *; congruence.
Qed.

Lemma idx_apart reg t i : reg_prefix reg ∈ prefixes ->
  SCHEDULE_TENANT_IDX <> make_key reg t i /\ SCHEDULE_TENANT_IDX <> index_key reg t /\ SCHEDULE_TENANT_IDX <> tenants_key reg.
Proof.
  intros Hp. split_and!; intros Hk.
  - apply (own_not_shared t (make_key reg t i)); [by apply own_item|by right].
  - apply (own_not_shared t (index_key reg t)); [by apply own_index|by right].
  - apply schedule_idx_no_set. rewrite Hk. by exists (reg_prefix reg).
Qed.

(** The index after a schedule was stored names the tenant that stored it last. *)
Lemma schedule_set_indexed reg b s v w w1 x h : reg_prefix reg ∈ prefixes -> tenant_ok b = true ->
  at_key (w_redis w) SCHEDULE_TENANT_IDX = keep (RHash h) None ->
  run (schedule_set reg b s v) w = (w1, inr x) ->
  at_key (w_redis w1) SCHEDULE_TENANT_IDX = keep (RHash (<[s := b]> h)) None.
Proof using HE.
  intros Hp Hb Hh. unfold schedule_set. rewrite run_bind.
  destruct (idx_apart reg b s Hp) as (H1 & H2 & H3).
  pose proof (reg_set_other reg b s v _ w H1 H2 H3) as Hi.
  destruct (run (reg_set reg b s v) w) as [w2 [e|[|]]] eqn:Er; [done| |].
  - simpl in Hi. rewrite Hh in Hi. rewrite run_bind.
    assert (Hf : hash_of (keep (RHash h) None) = Some h) by apply hash_of_keep.
    destruct (act_HSET1 (w_now w2) (keep (RHash h) None) h s b Hf) as [n Ha].
    rewrite (run_persistent HE _ _ _ _ _ _ Hi (persistent_keep _) Ha). cbv beta iota. intros [= <- _].
    simpl. rewrite at_put_eq, (persistent_keep (RHash h)). done.
  - by apply reg_set_stored in Er as [Hx _].
Qed.

(** Advancing a schedule changes the document of the tenant that the index names. *)
Lemma update_next_fire_frame reg s next b h w k : reg_prefix reg ∈ prefixes ->
  at_key (w_redis w) SCHEDULE_TENANT_IDX = keep (RHash h) None -> h !! s = Some b -> b <> "" ->
  ~ own b k -> ~ shared k ->
  at_key (w_redis (run (update_next_fire reg s next) w).1) k = at_key (w_redis w) k.
Proof using HE.
  intros Hp Hi Hs Hb Hk Hsh. unfold update_next_fire. rewrite run_bind.
  assert (Ha : act_doc (w_now w) (HGET s) (keep (RHash h) None) = (keep (RHash h) None, inr (Some b))).
  { rewrite (act_HGET _ _ h) by apply hash_of_keep. by rewrite Hs. }
  rewrite (run_persistent HE _ _ _ _ _ _ Hi (persistent_keep _) Ha). cbv beta iota. set (w1 := after _ _ w).
  assert (Hw : at_key (w_redis w1) k = at_key (w_redis w) k) by (simpl; apply at_put_ne; intros <-; apply Hsh; by right).
  rewrite <-Hw. destruct b as [|c b]; [done|].
  enough (Hiso : isolated (String c b) eq (advance_next_fire reg (String c b) s next)).
  { rewrite run_bind. pose proof (iso_frame _ _ _ Hiso w1 k Hk Hsh) as Hf.
    destruct (run (advance_next_fire _ _ _ _) w1) as [w2 [e|y]]; exact Hf. }
  apply iso_seq; [apply iso_time|]. intros now. apply iso_seq; [|intros n; apply iso_return].
  apply iso_script, lua_on_bind; [by apply lua_on_call, own_item|]. intros [text|]; [|done]. apply lua_on_bind.
  - unfold lua_decode. by destruct (cjson_decode text).
  - intros d. apply lua_on_bind; [by apply lua_on_call, own_item|done].
Qed.
End Captured.

(** Isolation ends at the cron scheduler.  Two tenants may use the same schedule identifier;
    the index from identifiers to tenants has one entry for both.  After one of them
    created its schedule, the scheduler's update of the next firing time leaves the
    schedule of the other as it is: once due, that one stays due and fires in every
    round. *)
Theorem schedule_captured (C : Cjson) (E : Env) ttl a b s body next (w w1 : W) rec h :
  quiet E -> tenant_ok a = true -> tenant_ok b = true -> a <> b -> b <> "" -> s <> "" ->
  at_key (w_redis w) SCHEDULE_TENANT_IDX = keep (RHash h) None ->
  dict_get "schedule_id" body = Some (VStr s) ->
  run (create_schedule (ScheduleRegistry_init ttl) b body) w = (w1, inr rec) ->
  let w2 := (run (update_next_fire (ScheduleRegistry_init ttl) s next) w1).1 in
  ∀ k, own a k -> at_key (w_redis w2) k = at_key (w_redis w) k.
Proof.
  intros HE Ha Hb Hab Hbe Hse Hi Hs Hr w2 k Hk.
  assert (Hnb : ~ own b k) by (by apply (own_apart a b k)).
  assert (Hsh : ~ shared k) by (by eapply own_not_shared).
  revert Hr. unfold create_schedule. destruct (negb _); [done|].
  unfold schedule_id_of, dict_get_or. rewrite Hs. simpl default. destruct s as [|c s]; [done|].
  rewrite !run_bind, run_ret. cbv beta iota. rewrite run_bind, run_time_ms. cbv beta iota. set (w0 := after _ _ w). rewrite run_bind.
  pose proof (iso_frame _ _ _ (iso_schedule_set b (ScheduleRegistry_init ttl) (String c s)
    (VDict (schedule_record body (String c s) b (isoformat (w_now w)))) (prefix_schedule ttl)) w0 k Hnb Hsh) as Hf.
  destruct (run (schedule_set _ _ _ _) w0) as [w3 [e|x]] eqn:Es; [done|]. intros [= <- <-].
  apply (schedule_set_indexed HE _ _ _ _ w0 _ _ h (prefix_schedule ttl) Hb Hi) in Es.
  subst w2. rewrite (update_next_fire_frame HE _ _ next b (<[String c s := b]> h)); [exact Hf|apply prefix_schedule|done| |done..].
  by rewrite lookup_insert_eq.
Qed.

(** ** Examples *)

Definition tenant_auth (t : string) : dict := [("tenant_id", VStr t); ("is_super_admin", VBool false)].

Definition demo_app : app_state := {|
  st_capabilities := true; st_clusters := true; st_nodes := true; st_schedules := Some (ScheduleRegistry_init 0);
  st_dags := Some {| ld_redis := true; ld_db := false |}; st_redis := true |}.

Definition demo_serve_all `{Cjson} := serve_all demo_app demo_validate demo_cluster_validate demo_node_validate (λ _, None).
Definition demo_serve `{Cjson} := serve demo_app demo_validate demo_cluster_validate demo_node_validate (λ _, None).

Definition own_dag_body : dict := [("dag_id", VStr "etl"); ("owner", VStr "a")].

(** Tenant [a] registered a DAG *)
Definition w_dag : W :=
  (run (E := calm) (@demo_serve_all table_cjson [(tenant_auth "a", RegisterDag own_dag_body)]) (world0 0)).1.

(** Tenant [b] registers one of the same name and deletes that of [a], as it thinks *)
Definition b_requests : list (dict * resource_request) :=
  [(tenant_auth "b", RegisterDag [("dag_id", VStr "etl"); ("owner", VStr "b")]); (tenant_auth "b", DeleteDag "etl" "a");
   (tenant_auth "b", CreateSchedule [("schedule_id", VStr "s"); ("cron_expr", VStr "* * * * *")])].

Lemma resource_isolation_witness :
  let w' := (run (E := calm) (@demo_serve_all table_cjson b_requests) w_dag).1 in
  let v' := World (S := doc_services) (w_redis w') (w_db w_dag) (w_now w_dag) (w_tick w_dag) [] in
  same_answer (inr (RValue (VDict own_dag_body)))
    (run (E := calm) (@demo_serve table_cjson (tenant_auth "a") (GetDag "etl" "b")) v').2.
Proof.
  cbv zeta.
  refine (proj1 (proj2 (resource_isolation doc_services table_cjson calm demo_app demo_validate demo_cluster_validate
    demo_node_validate (λ _, None) (tenant_auth "a") "a" (GetDag "etl" "b") b_requests w_dag _ _ _ _) w_dag _ _ _ _ _)).
  - right. by exists 0.
  - done.
  - repeat constructor; by exists "b".
  - split.
    + intros k Hk. unfold shared_set, prefixes in Hk. destruct Hk as (p & Hp & ->). set_unfold.
      by destruct_or!; subst; vm_compute; eexists.
    + vm_compute. by eexists.
  - done.
  - done.
  - done.
  - done.
Defined.

(** A schedule of [a] that is due, and one of [b] with the same identifier: the update after
    firing leaves that of [a] due. *)
Definition due_of (t next : string) : dict :=
  [("schedule_id", VStr "s"); ("cron_expr", VStr "* * * * *"); ("tenant_id", VStr t); ("enabled", VBool true);
   ("next_fire_at", VStr next)].

Definition w_due : W :=
  (run (E := calm) (do* schedule_set (ScheduleRegistry_init 0) "a" "s" (VDict (due_of "a" (isoformat 0))) in
                    @demo_serve_all table_cjson b_requests) (world0 60000)).1.

Example still_due :
  (run (E := calm) (list_due (ScheduleRegistry_init 0) 60000)
     (run (E := calm) (@update_next_fire table_cjson (ScheduleRegistry_init 0) "s" 120000) w_due).1).2 =
  inr [due_of "a" (isoformat 0)].
Proof. vm_compute. reflexivity. Qed.
