(* ===== verification/CliClient.v ===== *)
(** * Command line client

    [src/cli/client.py]: the HTTP client of the command line with its retries, and the
    command groups of [src/cli/base.py] and [src/cli/commands] with the paths they use.
    The random part of a pause belongs to the environment's delays. *)

From Stdlib Require Import Ascii.
From stdpp Require Import base gmap strings list.
From S2P Require Import Prelude PyValue Json Redis TaskModel Tables Effects QueueKeys CircuitBreaker QueueManager TaskCompletion SdkClient.

Open Scope Z_scope.

Record ApiClient := { cli_base : string; cli_key : string }.

(** [env] is the variable RAY_ASYNC_API_KEY *)
Definition ApiClient_init (env : option string) (url key : string) : ApiClient :=
  {| cli_base := rstrip ["/"%char] url; cli_key := if bool_decide (key = "") then default "" env else key |}.

Definition cli_http (c : ApiClient) (meth path body : string) : http_request :=
  {| req_method := meth; req_url := cli_base c +:+ path; req_body := body;
     req_headers := if bool_decide (cli_key c = "") then [] else [("Authorization", "Bearer " +:+ cli_key c)] |}.

Definition max_retries : nat := 3.

(** [min(base_delay * 2 ** attempt, max_delay)] in milliseconds *)
Definition backoff (attempt : nat) : Z := Z.min (1000 * 2 ^ Z.of_nat attempt) 10000.

Definition client_error (status : Z) : bool :=
  (400 <=? status) && (status <? 500) && negb (status =? 429).

Definition is_request_error (e : exn) : bool := match e with Exn RequestError _ => true | _ => false end.

(** [f"... {status_code}"] with the first 200 characters of the text, if any *)
Definition with_detail (msg : string) (r : http_response) : string :=
  let detail := str_take 200 (resp_body r) in
  if bool_decide (detail = "") then msg else msg +:+ " — " +:+ detail.

Definition refused (meth path : string) (r : http_response) : exn :=
  Exn ClickException (with_detail (meth +:+ " " +:+ path +:+ " failed: " +:+ dec_of_Z (resp_status r)) r).

(** After the last attempt; the last exception is a status or a network error *)
Definition exhausted (c : ApiClient) (meth path : string) (last : exn + http_response) : exn :=
  match last with
  | inr r => Exn ClickException (with_detail (meth +:+ " " +:+ path +:+ " failed after 4 attempts: " +:+
                                             dec_of_Z (resp_status r)) r)
  | inl e => Exn ClickException ("Cannot reach API at " +:+ cli_base c +:+ " after 4 attempts: " +:+ exn_str e)
  end.

(** [return resp.json()] when there is content *)
Definition content (r : http_response) : exn + value :=
  if bool_decide (resp_body r = "") then inr VNone
  else match json_loads (resp_body r) with Some v => inr v | None => inl (Exn ValueError "JSON") end.

Section Request.
Context (c : ApiClient) (meth path body : string).

(** [retries]: how many attempts are left after this one *)
Fixpoint request_loop (attempt retries : nat) : M value :=
  let retry last :=
    match retries with
    | O => raise (exhausted c meth path last)
    | S n => do* sleep (backoff attempt) in request_loop (S attempt) n
    end in
  let* out := attempt_ (http (cli_http c meth path body)) in
  match out with
  | inr r =>
      if is_success r then of_sum (content r)
      else if client_error (resp_status r) then raise (refused meth path r)
      else retry out
  | inl e => if is_request_error e then retry out else raise e
  end.

Definition request : M value := request_loop 0 max_retries.
End Request.

(** ** Commands *)

Definition cmd_list (c : ApiClient) (path : string) : M value := request c "GET" path "".
Definition cmd_get (c : ApiClient) (path item_id : string) : M value := request c "GET" (path +:+ "/" +:+ item_id) "".
Definition cmd_create (c : ApiClient) (path data : string) : M value :=
  match json_loads data with
  | Some v => request c "POST" path (json_dumps v)
  | None => raise (Exn ValueError "JSON")
  end.
Definition cmd_remove (c : ApiClient) (path item_id : string) : M value := request c "DELETE" (path +:+ "/" +:+ item_id) "".

Definition groups : list (string * string) :=
  [("capability", "/ops/v1/capabilities"); ("cluster", "/ops/v1/clusters"); ("dag", "/api/v1/dags"); ("node", "/ops/v1/nodes");
   ("queue", "/ops/v1/queue"); ("schedule", "/ops/v1/schedules"); ("task", "/api/v1/tasks"); ("tenant", "/ops/v1/tenants")].

(** * Theorems *)

Section Outcome.
Context {S : Services} {E : Env} (c : ApiClient) (meth path body : string).
Implicit Types (w : world S).

(** An answer that ends the loop *)
Definition conclusive (a : exn + http_response) : bool :=
  match a with
  | inr r => is_success r || client_error (resp_status r)
  | inl e => negb (is_request_error e)
  end.

(** What the caller gets for the last answer *)
Definition verdict (a : exn + http_response) : exn + value :=
  match a with
  | inr r => if is_success r then content r
             else inl (if client_error (resp_status r) then refused meth path r else exhausted c meth path a)
  | inl e => inl (if is_request_error e then exhausted c meth path a else e)
  end.

(** The answer to the [j]-th request from a world: a pause is an effect of its own *)
Definition nth_answer w (j : nat) : exn + http_response := http_answer (w_tick w + 2 * j) (cli_http c meth path body).

Fixpoint pauses (attempt n : nat) : Z :=
  match n with O => 0 | Datatypes.S n' => backoff attempt + pauses (Datatypes.S attempt) n' end.

(** The world after one request *)
Definition requested w : world S := advance (w_redis w) (w_db w) [OHttp (cli_http c meth path body)] w.

(** One attempt: it ends the loop, or the next one follows a pause. *)
Lemma run_attempt attempt retries w :
  run (request_loop c meth path body attempt retries) w =
  if conclusive (nth_answer w 0) then (requested w, verdict (nth_answer w 0))
  else match retries with
       | O => (requested w, verdict (nth_answer w 0))
       | Datatypes.S n => run (do* sleep (backoff attempt) in request_loop c meth path body (Datatypes.S attempt) n) (requested w)
       end.
Proof.
  assert (Hr : run (attempt_ (http (cli_http c meth path body))) w = (requested w, inr (nth_answer w 0))).
  { rewrite run_attempt_. unfold http, effx, nth_answer. cbn [run step]. by rewrite Nat.mul_0_r, Nat.add_0_r. }
  destruct retries as [|n]; cbn [request_loop]; rewrite run_bind, Hr; unfold conclusive, verdict;
    destruct (nth_answer w 0) as [e|r]; try (by destruct (is_request_error e));
    (destruct (is_success r); [done|]); by destruct (client_error _).
Qed.

Lemma request_loop_outcome retries : ∀ attempt w, ∃ i w',
  run (request_loop c meth path body attempt retries) w = (w', verdict (nth_answer w i)) /\
  (i <= retries)%nat /\ (∀ j, (j < i)%nat -> conclusive (nth_answer w j) = false) /\
  (conclusive (nth_answer w i) = true \/ i = retries) /\
  w_log w' = w_log w ++ replicate (Datatypes.S i) (OHttp (cli_http c meth path body)) /\
  w_now w + pauses attempt i <= w_now w'.
Proof.
  induction retries as [|n IH]; intros attempt w; rewrite run_attempt;
    (destruct (conclusive (nth_answer w 0)) eqn:Ec;
      [exists 0%nat, (requested w); split_and!; [done|lia|intros; lia|by left|done|simpl; lia]|]).
  - exists 0%nat, (requested w). split_and!; [done|lia|intros; lia|by right|done|simpl; lia].
  - destruct (IH (Datatypes.S attempt) (run (sleep (backoff attempt)) (requested w)).1) as (i & w' & Hr & Hi & Hj & Hc & Hl & Ht).
    assert (Hn : ∀ j, nth_answer (run (sleep (backoff attempt)) (requested w)).1 j = nth_answer w (Datatypes.S j))
      by (intros j; unfold nth_answer; simpl; f_equal; lia).
    exists (Datatypes.S i), w'. split_and!.
    + by rewrite <-Hn, <-Hr.
    + lia.
    + intros [|j] Hlt; [done|]. rewrite <-Hn. apply Hj. lia.
    + destruct Hc as [Hc|Hc]; [left; by rewrite <-Hn|right; lia].
    + rewrite Hl. simpl. by rewrite app_nil_r, <-app_assoc.
    + simpl in Ht |- *. lia.
Qed.
End Outcome.

(** What a request of the command line does, whatever the server answers.  The same
    request is sent until an answer is conclusive (a success, a client error other than
    429, or an error that is not of the network), at most four times, with pauses of
    one, two and four seconds at least; the result is that of the last answer: its
    content, or a [ClickException] that names the status or the network error. *)
Theorem cli_request_outcome (S : Services) (E : Env) c meth path body (w : world S) :
  ∃ i w', run (request c meth path body) w = (w', verdict c meth path (nth_answer c meth path body w i)) /\
    (i <= 3)%nat /\ (∀ j, (j < i)%nat -> conclusive (nth_answer c meth path body w j) = false) /\
    (conclusive (nth_answer c meth path body w i) = true \/ i = 3%nat) /\
    w_log w' = w_log w ++ replicate (Datatypes.S i) (OHttp (cli_http c meth path body)) /\
    w_now w + pauses 0 i <= w_now w'.
Proof. apply (request_loop_outcome c meth path body 3 0 w). Qed.

Example all_pauses : pauses 0 3 = 7000.
Proof. reflexivity. Qed.

(** ** The commands against the task API *)

(** The paths of [list] and [create] end without the slash of the routes, or are none of
    the task API's, which is the default server. *)
Lemma commands_unrouted g p meth : (g, p) ∈ groups -> meth = "GET" \/ meth = "POST" ->
  ∀ h, route meth (split_slash p) <> Handler h.
Proof.
  intros Hg Hm h. unfold groups in Hg. set_unfold. destruct_or!; simplify_eq; vm_compute; done.
Qed.

(** With the default server the commands [list] and [create] of every group fail; a [create]
    is posted four times when the server answers with a redirect. *)
Theorem cli_list_create_fail (S : Services) (E : Env) c g p data (w : world S) :
  serves E (cli_base c) -> (g, p) ∈ groups ->
  (∃ e, (run (cmd_list c p) w).2 = inl e) /\ ∃ e, (run (cmd_create c p data) w).2 = inl e.
Proof.
  intros HE Hg.
  assert (Hfail : ∀ meth body, meth = "GET" \/ meth = "POST" -> ∃ e, (run (request c meth p body) w).2 = inl e).
  { intros meth body Hm. destruct (request_loop_outcome c meth p body 3 0 w) as (i & w' & Hr & _).
    unfold request, max_retries. rewrite Hr. cbn [snd]. unfold verdict.
    destruct (nth_answer c meth p body w i) as [e|r] eqn:Ea; [by eexists|].
    rewrite (HE _ (cli_http c meth p body) p r eq_refl Ea); [by eexists|]. by apply (commands_unrouted g). }
  split; [apply Hfail; by left|]. unfold cmd_create. destruct (json_loads data); [apply Hfail; by right|by eexists].
Qed.

(** [get] and [remove] of a task are routed. *)
Example get_routed : route "GET" (split_slash "/api/v1/tasks/t1") = Handler GetTask /\
  route "DELETE" (split_slash "/api/v1/tasks/t1") = Handler CancelTask.
Proof. done. Qed.

(** A server that redirects gets four identical submissions. *)
Definition redirecting : Env := {|
  delay := λ _, 0%N; redis_fault := λ _, None; db_fault := λ _, None; uuid_at := λ _, "u"; scan_slice := λ _ _ _ ks, (0, ks);
  http_answer := λ _ _, inr {| resp_status := 307; resp_body := "" |}; invoke_answer := λ _ _ _, inr VNone |}.

Example create_posted_four_times :
  let r := run (S := doc_services) (E := redirecting) (cmd_create (ApiClient_init None "http://localhost:8001/" "k") "/api/v1/tasks" "{}") (world0 0) in
  length (w_log r.1) = 4%nat /\ r.2 = inl (Exn ClickException "POST /api/v1/tasks failed after 4 attempts: 307").
Proof. vm_compute. done. Qed.
