(* ===== verification/CommandApi.v ===== *)
(** * Entrances of the command proxy

    The [/submit] and [/health] routes of [src/proxy/async_command_proxy.py] and its class
    [AsyncCommandProxy]: submitting from the same process, waiting for a result with
    [BLPOP], and [execute], which writes a command and its arguments into one line.  A
    job is what is handed to the pool of [CommandProxy.v]. *)

From Stdlib Require Import Ascii.
From stdpp Require Import base gmap strings list.
From S2P Require Import Prelude PyValue Json Redis TaskModel Tables Effects Registry TaskCompletion OpsOverview.
From S2P Require Import ServiceProxy CommandProxy.

Open Scope Z_scope.

Record command_job := CommandJob {
  cj_id : string;
  cj_command : value;
  cj_params : value;
  cj_env : value;
  cj_cwd : value;
  cj_timeout : Z
}.

Definition submitted (id : string) : value := VDict [("job_id", VStr id); ("result_key", VStr (CommandProxy.result_key id))].

(** [/submit]: the status code, the body and the job handed to the pool *)
Definition submit_route (json : value) : M (Z * value * option command_job) :=
  match py_or json (VDict []) with
  | VDict body =>
      let command := dict_get_or "command" VNone body in
      if negb (truthy command) then ret (400, VDict [("error", VStr "command is required")], None)
      else
        let* timeout := of_sum (int_of (py_or (dict_get_or "timeout" VNone body) (VInt DEFAULT_TIMEOUT))) in
        let* id := uuid4 in
        ret (200, submitted id,
             Some (CommandJob id command (py_or (dict_get_or "params" VNone body) (VDict []))
                     (py_or (dict_get_or "env" VNone body) (VDict [])) (dict_get_or "cwd" VNone body) timeout))
  | _ => raise (Exn AttributeError "object has no attribute 'get'")
  end.

Definition proxy_health : M value :=
  let* redis_ok := check ping in
  ret (VDict [("status", VStr (if redis_ok then "ok" else "degraded")); ("redis_ok", VBool redis_ok)]).

(** ** AsyncCommandProxy *)

Definition api_submit (command : string) (params env cwd : value) (timeout : Z) : M (command_job * value) :=
  let* id := uuid4 in
  ret (CommandJob id (VStr command) params env cwd timeout, submitted id).

Definition blpop_result (looks : nat) (key : string) (timeout : Z) : M (option value) :=
  let* resp := blpop looks key timeout in
  match resp with
  | None => ret None
  | Some raw => match json_loads raw with Some v => ret (Some v) | None => raise (Exn ValueError "JSON") end
  end.

Fixpoint join (sep : string) (l : list string) : string :=
  match l with
  | [] => ""
  | [x] => x
  | x :: l' => x +:+ sep +:+ join sep l'
  end.

(** [cmd + (" " + " ".join(args) if args else "")] *)
Definition command_line (cmd : string) (args : list string) : string :=
  cmd +:+ match args with [] => "" | _ => " " +:+ join " " args end.

Definition execute (looks : nat) (cmd : string) (args : list string) : M (command_job * value) :=
  let* js := api_submit (command_line cmd args) VNone VNone VNone DEFAULT_TIMEOUT in
  let* result := blpop_result looks (CommandProxy.result_key (cj_id js.1)) DEFAULT_TIMEOUT in
  ret (js.1, py_or (default VNone result) (VDict [("status", VStr "timeout"); ("job_id", VStr (cj_id js.1))])).

(** * Theorems *)

(** ** One line for a command and its arguments *)

(** Characters the splitter takes as they are *)
Definition plain_char (c : ascii) : bool :=
  negb (is_space c) && negb (bool_decide (nat_of_ascii c ∈ [34; 39; 92]%nat)).

Fixpoint plain_text (s : string) : bool :=
  match s with EmptyString => true | String c s' => plain_char c && plain_text s' end.

Definition plain_word (s : string) : Prop := s <> "" /\ plain_text s = true.

Lemma lex_space s : ∀ st word ws rest ws',
  lex s st word = inr ws -> shlex_split rest = inr ws' -> lex (s +:+ String " " rest) st word = inr (ws ++ ws').
Proof.
  unfold shlex_split. induction s as [|c s IH]; intros st word ws rest ws' Hs Hr.
  - destruct st as [| | | |b]; simpl in Hs; simplify_eq; simpl; by rewrite Hr.
  - change (String c s +:+ String " " rest) with (String c (s +:+ String " " rest)).
    destruct st as [| | | |[]]; cbn [lex] in Hs |- *;
      repeat match goal with |- context [if ?b then _ else _] => destruct b end; try (by apply IH).
    destruct (lex s LBetween "") as [e|ws0] eqn:El; [done|]. injection Hs as <-.
    by rewrite (IH LBetween "" ws0 rest ws' El Hr).
Qed.

Lemma lex_plain s : ∀ word, plain_text s = true -> lex s LWord word = inr [word +:+ s].
Proof.
  induction s as [|c s IH]; intros word Hp; [by rewrite string_app_nil_r|].
  simpl in Hp. apply andb_prop in Hp as [[Hs Hc]%andb_prop Hp]. apply negb_true_iff in Hs, Hc.
  apply bool_decide_eq_false in Hc. cbn [lex]. rewrite Hs.
  rewrite decide_False by (intros ->; apply Hc; set_solver). rewrite !decide_False by set_solver.
  rewrite IH by done. by rewrite <-string_app_assoc.
Qed.

Lemma split_word s : plain_word s -> shlex_split s = inr [s].
Proof.
  intros [Hne Hp]. destruct s as [|c s]; [done|]. pose proof (lex_plain (String c s) "" Hp) as Hl.
  unfold shlex_split. simpl in Hp. apply andb_prop in Hp as [[Hs Hc]%andb_prop _]. apply negb_true_iff in Hs.
  cbn [lex] in Hl |- *. by rewrite Hs in Hl |- *.
Qed.

Lemma split_join args : args <> [] -> Forall plain_word args -> shlex_split (join " " args) = inr args.
Proof.
  induction args as [|x args IH]; intros Hne Hp; [done|]. apply Forall_cons in Hp as [Hx Hp].
  destruct args as [|y args]; [by apply split_word|].
  change (join " " (x :: y :: args)) with (x +:+ String " " (join " " (y :: args))).
  apply (lex_space x LBetween "" [x]); [by apply split_word|by apply IH].
Qed.

(** [execute] runs the command with the arguments it was given, as long as these are words:
    non-empty, without blanks, quotes and backslashes. *)
Theorem execute_argv cmd args ws :
  shlex_split cmd = inr ws -> Forall plain_word args -> build_cmd (command_line cmd args) [] = inr (ws ++ args).
Proof.
  intros Hc Ha. unfold build_cmd, command_line. destruct args as [|x args].
  - by rewrite string_app_nil_r, Hc, !app_nil_r.
  - change (" " +:+ join " " (x :: args)) with (String " " (join " " (x :: args))).
    unfold shlex_split. rewrite (lex_space cmd LBetween "" ws _ (x :: args)); [by rewrite app_nil_r|done|by apply split_join].
Qed.

(** An argument with a blank arrives as two, one with an apostrophe not at all. *)
Example argument_split : build_cmd (command_line "rm" ["my file"]) [] = inr ["rm"; "my"; "file"].
Proof. reflexivity. Qed.
Example argument_lost : build_cmd (command_line "echo" ["it's"]) [] = inl (Exn ValueError "No closing quotation").
Proof. reflexivity. Qed.

(** ** A written result is what the waiting caller gets *)

Theorem command_result_roundtrip (E : Env) id v looks timeout (w w2 : world doc_services) :
  quiet E -> w_redis w !! CommandProxy.result_key id = None ->
  let w1 := (run (write_result id v) w).1 in
  w_redis w2 = w_redis w1 -> w_now w2 + Z.of_N (delay (w_tick w2)) < w_now w + CommandProxy.RESULT_TTL * 1000 ->
  ∃ w3, run (blpop_result looks (CommandProxy.result_key id) timeout) w2 = (w3, inr (Some v)) /\
    w_redis w3 !! CommandProxy.result_key id = None.
Proof.
  intros HE Hk w1 Hw Ht. set (key := CommandProxy.result_key id) in *.
  assert (H1 : ∃ x, w_redis w1 = put key (Some (REntry (RList [orjson_dumps v]) (Some x))) (put key (Some (REntry (RList [orjson_dumps v]) None)) (w_redis w)) /\
                w_now w + CommandProxy.RESULT_TTL * 1000 <= x).
  { unfold w1, write_result. fold key. rewrite run_bind, run_redis, (proj1 HE).
    assert (live (w_now w) (w_redis w) key = None) as -> by (unfold live; simpl in *; by rewrite Hk).
    cbn [act_doc on_list list_of exp_of]. change (keep (RList [?x]) None) with (Some (REntry (RList [x]) None)).
    cbv beta iota. rewrite run_bind, run_redis, (proj1 HE). cbn [w_redis after advance]. rewrite live_put_eq by done.
    rewrite act_EXPIRE. eexists. split; [done|]. simpl. lia. }
  destruct H1 as (x & H1 & Hx). rewrite H1 in Hw.
  unfold blpop_result, blpop. rewrite !run_bind, run_time_ms. cbv beta iota.
  assert (Hl : live (w_now w2 + Z.of_N (delay (w_tick w2))) (w_redis w2) key = Some (REntry (RList [orjson_dumps v]) (Some x))).
  { rewrite Hw. apply live_put_eq. unfold fresh, expired. simpl. apply Z.leb_gt. lia. }
  assert (Hp : run (blpop_until looks key (w_now w2 + timeout * 1000)) (after (w_redis w2) (w_db w2) w2) =
               (after (put key None (w_redis w2)) (w_db w2) (after (w_redis w2) (w_db w2) w2), inr (Some (orjson_dumps v)))).
  { destruct looks; simpl; rewrite run_bind, run_redis, (proj1 HE); cbn [w_now w_redis after advance]; by rewrite Hl. }
  rewrite Hp. cbv beta iota. rewrite loads_orjson_dumps. eexists. split; [done|]. simpl. apply lookup_delete_eq.
Qed.

Example execute_times_out :
  (run (E := calm) (execute 0 "ls" ["-l"]) (world0 0)).2 =
  inr (CommandJob "uuid-0" (VStr "ls -l") VNone VNone VNone 300, VDict [("status", VStr "timeout"); ("job_id", VStr "uuid-0")]).
Proof. vm_compute. reflexivity. Qed.
