(* ===== verification/Background.v ===== *)
(** * Starting and stopping the background loops

    [start], [stop] and the loop task of [TaskReconciler]
    ([platform/task_reconciler.py]), [CompensationService]
    ([services/compensation.py]), [CallbackDispatchService]
    ([services/callback_dispatcher.py]) and [CronScheduler]
    ([platform/cron_scheduler.py]).  What a loop does in a round is modelled with
    each component; here a round completes, raises, or is interrupted by a
    cancellation, and the calls of [start] and [stop] interleave with the steps of
    every loop task ever created, as the event loop lets them.  [stop] gives up
    control while it awaits the cancelled task (and, in the dispatcher, while it
    closes the HTTP client), so it is a call in progress of several steps. *)

From stdpp Require Import base strings list.
From S2P Require Import Prelude PyValue Effects ErrorHandling.

(** ** Tasks *)

(** How the coroutine of a loop ended. *)
Inductive outcome := Returned | RaisedError (e : exn) | WasCancelled.

(** Where it is: created and not begun, inside a round or the pause after it,
    inside the pause of an error handler, over. *)
Inductive place := Fresh | InRound | InBackoff | Over (o : outcome).

#[global] Instance outcome_eq_dec : EqDecision outcome.
Proof. solve_decision. Defined.

#[global] Instance place_eq_dec : EqDecision place.
Proof. solve_decision. Defined.

(** An [asyncio.Task] with the cancellation it has not yet seen. *)
Record task := { at_ : place; cancel_requested : bool }.

Definition is_over (p : place) : bool := match p with Over _ => true | _ => false end.

(** [task.cancel()]: nothing on a task that is done. *)
Definition cancel (t : task) : task :=
  {| at_ := at_ t; cancel_requested := negb (is_over (at_ t)) |}.

(** ** The service object *)

(** A [stop] in progress awaits a task, or the closing of a client. *)
Inductive stop_at := AwaitTask (i : nat) | AwaitClose (c : nat).

#[global] Instance stop_at_eq_dec : EqDecision stop_at.
Proof. solve_decision. Defined.

Record service := {
  running : bool;              (* [self._running] *)
  handle : option nat;         (* [self._task], [self._loop_task] *)
  loops : list task;           (* every task created so far *)
  stops : list stop_at;        (* calls of [stop] that have not returned *)
  client : option nat;         (* [self._client] *)
  clients : list bool          (* every client made so far: is it open? *)
}.

Definition service_init : service :=
  {| running := false; handle := None; loops := []; stops := []; client := None; clients := [] |}.

Definition set_running (b : bool) (s : service) : service :=
  {| running := b; handle := handle s; loops := loops s; stops := stops s;
     client := client s; clients := clients s |}.

(** [self._task = asyncio.create_task(self._loop())] *)
Definition spawn (s : service) : service :=
  {| running := running s; handle := Some (length (loops s));
     loops := loops s ++ [{| at_ := Fresh; cancel_requested := false |}]; stops := stops s;
     client := client s; clients := clients s |}.

(** [self._client = httpx.AsyncClient(...)] *)
Definition open_client (s : service) : service :=
  {| running := running s; handle := handle s; loops := loops s; stops := stops s;
     client := Some (length (clients s)); clients := clients s ++ [true] |}.

Definition set_stops (l : list stop_at) (s : service) : service :=
  {| running := running s; handle := handle s; loops := loops s; stops := l;
     client := client s; clients := clients s |}.

Definition set_loops (l : list task) (s : service) : service :=
  {| running := running s; handle := handle s; loops := l; stops := stops s;
     client := client s; clients := clients s |}.

(** [self._task = None] *)
Definition drop_handle (s : service) : service :=
  {| running := running s; handle := None; loops := loops s; stops := stops s;
     client := client s; clients := clients s |}.

(** [await self._client.aclose()] done, [self._client = None] *)
Definition drop_client (c : nat) (s : service) : service :=
  {| running := running s; handle := handle s; loops := loops s; stops := stops s;
     client := None; clients := <[c := false]> (clients s) |}.

(** ** What one kind of service does *)

Class Background := {
  start : service -> service;
  (** where a loop goes that gets an error in a round or a pause *)
  loop_error : exn -> place;
  (** and where a cancellation takes it *)
  loop_cancelled : place -> outcome;
  (** [stop] closes the HTTP client *)
  closes_client : bool
}.

(** [@log_errors(raise_exception=False)] around the loop *)
Definition logged_end (e : exn) : place := if passes_through e then Over (RaisedError e) else Over Returned.

Definition guarded_start (s : service) : service :=
  if running s then s else spawn (set_running true s).

Definition TaskReconciler_start : service -> service := guarded_start.
Definition TaskReconciler_loop_error (e : exn) : place := logged_end e.

Definition CompensationService_start : service -> service := guarded_start.
(** [except Exception: ... await asyncio.sleep(...)] *)
Definition CompensationService_loop_error (e : exn) : place := InBackoff.
(** [except asyncio.CancelledError: break] covers the round and its pause, not the
    pause of the error handler. *)
Definition CompensationService_loop_cancelled (p : place) : outcome :=
  match p with InRound => Returned | _ => WasCancelled end.

Definition CallbackDispatchService_start (s : service) : service :=
  if running s then s else spawn (open_client (set_running true s)).
Definition CallbackDispatchService_loop_error (e : exn) : place := Over (RaisedError e).

Definition CronScheduler_start (s : service) : service := spawn (set_running true s).
Definition CronScheduler_loop_error (e : exn) : place := logged_end e.

Definition reconciler : Background :=
  {| start := TaskReconciler_start; loop_error := TaskReconciler_loop_error;
     loop_cancelled := λ _, WasCancelled; closes_client := false |}.
Definition compensation : Background :=
  {| start := CompensationService_start; loop_error := CompensationService_loop_error;
     loop_cancelled := CompensationService_loop_cancelled; closes_client := false |}.
Definition dispatcher : Background :=
  {| start := CallbackDispatchService_start; loop_error := CallbackDispatchService_loop_error;
     loop_cancelled := λ _, WasCancelled; closes_client := true |}.
Definition cron : Background :=
  {| start := CronScheduler_start; loop_error := CronScheduler_loop_error;
     loop_cancelled := λ _, WasCancelled; closes_client := false |}.

(** ** Steps *)

(** A turn of a loop task. *)
Inductive turn := Completes | Raises (e : exn) | Interrupted.

Inductive event :=
| Start
| Stop
| StopGoesOn (k : nat)              (* the [k]-th call of [stop] in progress *)
| Turn (i : nat) (t : turn).

Section Steps.
Context {B : Background}.

(** The test [while self._running] follows at once on the end of a pause, and on
    the first step of the task. *)
Definition task_turn (flag : bool) (v : turn) (t : task) : option task :=
  let go p := Some {| at_ := p; cancel_requested := false |} in
  let test := if flag then InRound else Over Returned in
  match at_ t, v with
  | Over _, _ => None
  | p, Interrupted => if cancel_requested t then go (Over (loop_cancelled p)) else None
  | Fresh, Completes => if cancel_requested t then None else go test
  | Fresh, Raises _ => None
  | InRound, Completes | InBackoff, Completes => go test
  | InRound, Raises e => if is_exception e then go (loop_error e) else None
  | InBackoff, Raises _ => None
  end.

(** [stop] up to its first [await] *)
Definition stop_begin (s : service) : service :=
  let s := set_running false s in
  match handle s with
  | Some i => set_stops (stops s ++ [AwaitTask i]) (set_loops (alter cancel i (loops s)) s)
  | None =>
      match client s with
      | Some c => if closes_client then set_stops (stops s ++ [AwaitClose c]) s else s
      | None => s
      end
  end.

(** The [k]-th [stop] after what it awaits is over.  [asyncio.wait_for] cancels a
    second time and goes on waiting, so that the task is over either way. *)
Definition stop_goes_on (k : nat) (s : service) : option service :=
  match stops s !! k with
  | None => None
  | Some (AwaitTask i) =>
      match at_ <$> loops s !! i with
      | Some (Over _) =>
          let s' := drop_handle s in
          Some match client s with
               | Some c => if closes_client then set_stops (<[k := AwaitClose c]> (stops s)) s'
                           else set_stops (delete k (stops s)) s'
               | None => set_stops (delete k (stops s)) s'
               end
      | _ => None
      end
  | Some (AwaitClose c) => Some (set_stops (delete k (stops s)) (drop_client c s))
  end.

Definition step (ev : event) (s : service) : option service :=
  match ev with
  | Start => Some (start s)
  | Stop => Some (stop_begin s)
  | StopGoesOn k => stop_goes_on k s
  | Turn i v => t ← loops s !! i; t' ← task_turn (running s) v t; Some (set_loops (<[i := t']> (loops s)) s)
  end.

Fixpoint steps (evs : list event) (s : service) : option service :=
  match evs with
  | [] => Some s
  | ev :: evs' => s' ← step ev s; steps evs' s'
  end.

(** Control in sequence: nobody calls [start] while a [stop] is in progress. *)
Inductive reachable : service -> Prop :=
| reach_init : reachable service_init
| reach_step ev s s' :
    reachable s -> (ev = Start -> stops s = []) -> step ev s = Some s' -> reachable s'.

Definition live (s : service) (i : nat) : Prop :=
  exists t, loops s !! i = Some t /\ is_over (at_ t) = false.

(** Runs under that discipline, to evaluate. *)
Definition allowed (ev : event) (s : service) : bool :=
  match ev, stops s with Start, _ :: _ => false | _, _ => true end.

Fixpoint controlled (evs : list event) (s : service) : option service :=
  match evs with
  | [] => Some s
  | ev :: evs' => if allowed ev s then s' ← step ev s; controlled evs' s' else None
  end.

Lemma controlled_reachable evs s s' : reachable s -> controlled evs s = Some s' -> reachable s'.
Proof.
  revert s. induction evs as [|ev evs IH]; intros s Hs H; simpl in H; [congruence|].
  destruct (allowed ev s) eqn:Ha; [|done]. destruct (step ev s) as [s1|] eqn:E; [|done].
  apply (IH s1); [|done]. eapply reach_step; [done| |done]. intros ->. unfold allowed in Ha. by destruct (stops s).
Qed.
End Steps.

(** ** Guarded services *)

(** What [if self._running: return] and the spawning after it promise; an error
    ends the loop or puts it into the pause of its handler. *)
Class Guarded (B : Background) := {
  start_running s : running s = true -> start s = s;
  start_idle s : running s = false ->
    running (start s) = true /\ handle (start s) = Some (length (loops s)) /\
    loops (start s) = loops s ++ [{| at_ := Fresh; cancel_requested := false |}] /\ stops (start s) = stops s;
  error_place e : loop_error e = InBackoff \/ exists o, loop_error e = Over o
}.

#[global] Instance reconciler_guarded : Guarded reconciler.
Proof.
  split; [| |intros e; right; simpl; unfold TaskReconciler_loop_error, logged_end; destruct (passes_through e); eauto];
    intros s Hs; simpl; unfold TaskReconciler_start, guarded_start; by rewrite Hs.
Qed.

#[global] Instance compensation_guarded : Guarded compensation.
Proof.
  split; [| |by left]; intros s Hs; simpl; unfold CompensationService_start, guarded_start; by rewrite Hs.
Qed.

#[global] Instance dispatcher_guarded : Guarded dispatcher.
Proof.
  split; [| |intros e; right; by eexists]; intros s Hs; simpl; unfold CallbackDispatchService_start; by rewrite Hs.
Qed.

Section Invariant.
Context {B : Background} {G : Guarded B}.

Record inv (s : service) : Prop := {
  inv_live : ∀ i, live s i -> handle s = Some i;
  inv_handle : ∀ i, handle s = Some i -> (i < length (loops s))%nat;
  inv_stopping : stops s <> [] -> running s = false;
  inv_idle : stops s = [] -> running s = false -> handle s = None;
  inv_await : ∀ i, AwaitTask i ∈ stops s -> (i < length (loops s))%nat /\ (handle s = Some i \/ handle s = None);
  inv_close : ∀ c, AwaitClose c ∈ stops s -> handle s = None;
  inv_running : running s = true -> is_Some (handle s)
}.

Lemma live_app s s' i :
  loops s' = loops s ++ [{| at_ := Fresh; cancel_requested := false |}] ->
  live s' i -> live s i \/ i = length (loops s).
Proof.
  intros Hl (t & Ht & Ho). rewrite Hl, lookup_app in Ht. destruct (loops s !! i) as [t'|] eqn:E.
  - left. exists t'. naive_solver.
  - apply list_lookup_singleton_Some in Ht as [? _]. apply lookup_ge_None in E. right. lia.
Qed.

(** Steps of a loop create no live task. *)
Lemma live_insert s i t t' j :
  loops s !! i = Some t -> is_over (at_ t) = false -> live (set_loops (<[i := t']> (loops s)) s) j -> live s j.
Proof.
  intros Ht Ho (u & Hu & Hov). simpl in Hu. destruct (decide (i = j)) as [->|Hne].
  - by exists t.
  - rewrite list_lookup_insert_ne in Hu by done. by exists u.
Qed.

Lemma live_cancel s s' i j : loops s' = alter cancel i (loops s) -> live s' j -> live s j.
Proof.
  intros Hl (u & Hu & Hov). rewrite Hl in Hu. destruct (decide (i = j)) as [->|Hne].
  - rewrite list_lookup_alter_eq in Hu. destruct (loops s !! j) as [t|] eqn:E; simplify_eq/=. by exists t.
  - rewrite list_lookup_alter_ne in Hu by done. by exists u.
Qed.

Lemma task_turn_live flag v t t' : task_turn flag v t = Some t' -> is_over (at_ t) = false.
Proof. unfold task_turn. by destruct (at_ t). Qed.

Lemma inv_start s : inv s -> stops s = [] -> inv (start s).
Proof.
  intros I Hs. destruct (running s) eqn:Hr; [by rewrite start_running|].
  destruct (start_idle s Hr) as (R & H & L & St). pose proof (inv_idle _ I Hs Hr) as Hn.
  split; rewrite ?H, ?St, ?L, ?Hs, ?length_app; simpl; try done.
  - intros i Hi. destruct (live_app s _ i L Hi) as [Hl| ->]; [|done]. by rewrite (inv_live _ I i Hl) in Hn.
  - intros i [= ->]. lia.
  - by rewrite R.
  - intros i Hi. by apply elem_of_nil in Hi.
  - intros c Hc. by apply elem_of_nil in Hc.
Qed.

Lemma inv_stop s : inv s -> inv (stop_begin s).
Proof.
  intros I. unfold stop_begin. simpl. destruct (handle s) as [i|] eqn:Hh.
  - split; simpl; rewrite ?length_alter, ?Hh; try done.
    + intros j Hj. rewrite <-Hh. apply (inv_live _ I). by eapply live_cancel; [|exact Hj].
    + intros j Hj. rewrite <-Hh in Hj. by apply (inv_handle _ I).
    + by intros [_ ?]%app_eq_nil.
    + intros j [Hj|Hj%list_elem_of_singleton]%elem_of_app; [rewrite <-Hh; by apply (inv_await _ I)|].
      simplify_eq. split; [by apply (inv_handle _ I)|by left].
    + intros c [Hc|Hc%list_elem_of_singleton]%elem_of_app; [|done].
      pose proof (inv_close _ I c Hc). congruence.
  - assert (Hs : inv (set_running false s)).
    { split; simpl; try apply I; try done. }
    destruct (client s) as [c|]; [|done]. destruct closes_client; [|done].
    split; simpl; try apply Hs; try done.
    + intros j [Hj|Hj%list_elem_of_singleton]%elem_of_app; [|done]. by apply (inv_await _ I).
Qed.

Lemma elem_of_delete_list {A} k (l : list A) x : x ∈ delete k l -> x ∈ l.
Proof. intros (i & Hi)%list_elem_of_lookup. apply list_elem_of_lookup.
  destruct (decide (i < k)%nat); [rewrite list_lookup_delete_lt in Hi by done|
    rewrite list_lookup_delete_ge in Hi by lia]; eauto. Qed.

Lemma elem_of_insert_list {A} k (l : list A) x y : x ∈ <[k := y]> l -> x = y \/ x ∈ l.
Proof.
  intros (i & Hi)%list_elem_of_lookup. apply list_lookup_insert_Some in Hi as [(_ & -> & _)|[_ Hi]]; [by left|].
  right. apply list_elem_of_lookup. eauto.
Qed.

(** Dropping the handle of a task that is over. *)
Lemma inv_drop s k i o l c cs :
  inv s -> stops s !! k = Some (AwaitTask i) -> at_ <$> loops s !! i = Some (Over o) ->
  (∀ x, x ∈ l -> x ∈ stops s \/ ∃ c, x = AwaitClose c) ->
  inv {| running := running s; handle := None; loops := loops s; stops := l; client := c; clients := cs |}.
Proof.
  intros I Hk Ho Hl. assert (Hin : AwaitTask i ∈ stops s) by (apply list_elem_of_lookup; eauto).
  assert (Hr : running s = false) by (apply (inv_stopping _ I); intros E; rewrite E in Hk; done).
  assert (Hd : ∀ j, ¬ live s j).
  { intros j Hj. pose proof (inv_live _ I j Hj) as Hh.
    destruct (inv_await _ I i Hin) as [_ [H|H]]; [|congruence].
    destruct Hj as (t & Ht & Hov). assert (j = i) as -> by congruence. by rewrite Ht in Ho; simplify_eq/=; rewrite Ho in Hov. }
  split; simpl; try done.
  - intros j (t & Ht & Hov). exfalso. apply (Hd j). by exists t.
  - intros j Hj. destruct (Hl _ Hj) as [H|[? ?]]; [|done]. split; [by apply (inv_await _ I)|by right].
  - congruence.
Qed.

Lemma inv_stop_goes_on k s s' : inv s -> stop_goes_on k s = Some s' -> inv s'.
Proof.
  intros I. unfold stop_goes_on. destruct (stops s !! k) as [[i|c]|] eqn:Hk; [| |done].
  - destruct (at_ <$> loops s !! i) as [[| | |o]|] eqn:Ho; try done. intros [= <-].
    destruct (client s) as [c|]; [destruct closes_client|]; apply (inv_drop s k i o _ _ _ I Hk Ho);
      intros x Hx; simpl in Hx;
      (apply elem_of_insert_list in Hx || apply elem_of_delete_list in Hx); naive_solver.
  - intros [= <-]. assert (Hin : AwaitClose c ∈ stops s) by (apply list_elem_of_lookup; eauto).
    pose proof (inv_close _ I c Hin) as Hh.
    assert (Hr : running s = false) by (apply (inv_stopping _ I); intros E; rewrite E in Hk; done).
    split; simpl; try done; try apply I; try congruence.
    + intros i Hi%elem_of_delete_list. by apply (inv_await _ I).
Qed.

Lemma inv_turn i v s t t' :
  inv s -> loops s !! i = Some t -> task_turn (running s) v t = Some t' ->
  inv (set_loops (<[i := t']> (loops s)) s).
Proof.
  intros I Ht Hv. pose proof (task_turn_live _ _ _ _ Hv) as Hl.
  split; simpl; rewrite ?length_insert; try apply I.
  intros j Hj. apply (inv_live _ I). by eapply live_insert.
Qed.

Lemma service_inv s : reachable s -> inv s.
Proof.
  induction 1 as [|ev s s' Hr I Hseq Hst].
  - split; simpl; try done; [by intros i (t & Ht & _)|..]; intros i Hi; by apply elem_of_nil in Hi.
  - destruct ev as [| |k|i v]; simpl in Hst; simplify_eq.
    + apply inv_start; auto.
    + by apply inv_stop.
    + by eapply inv_stop_goes_on.
    + destruct (loops s !! i) as [t|] eqn:Ht; simpl in Hst; [|done].
      destruct (task_turn _ v t) as [t'|] eqn:Hv; simpl in Hst; simplify_eq. by eapply inv_turn.
Qed.
End Invariant.

Section Stopping.
Context {B : Background} {G : Guarded B}.

(** A task that is not over can take a turn. *)
Lemma can_turn s i : live s i -> exists v s', step (Turn i v) s = Some s'.
Proof.
  intros (t & Ht & Ho). simpl. destruct (cancel_requested t) eqn:Hc.
  - exists Interrupted. rewrite Ht. simpl. unfold task_turn. rewrite Hc. destruct (at_ t); simpl; eauto; done.
  - exists Completes. rewrite Ht. simpl. unfold task_turn. rewrite Hc. destruct (at_ t); simpl; eauto; done.
Qed.

(** Once the flag is down, a turn ends the loop or leads into the error pause,
    from where the next one does. *)
Lemma turn_down v t t' :
  task_turn false v t = Some t' ->
  is_over (at_ t') = true \/ at_ t' = InBackoff /\ at_ t = InRound.
Proof.
  unfold task_turn. destruct (at_ t) eqn:E, v as [|e|]; simpl; intros H; try done;
    repeat (case_match; simplify_eq/=); simplify_eq/=; auto.
  match goal with |- context [loop_error ?e] => destruct (error_place e) as [He|[o He]] end; rewrite He; simpl; auto.
Qed.

Lemma two_turns v1 v2 t t1 t2 :
  task_turn false v1 t = Some t1 -> task_turn false v2 t1 = Some t2 -> is_over (at_ t2) = true.
Proof.
  intros H1%turn_down H2. pose proof (task_turn_live _ _ _ _ H2). destruct H1 as [H1|[H1 _]]; [congruence|].
  apply turn_down in H2 as [H2|[_ H2]]; congruence.
Qed.

Lemma step_turn i v s s' :
  step (Turn i v) s = Some s' <->
  exists t t', loops s !! i = Some t /\ task_turn (running s) v t = Some t' /\ s' = set_loops (<[i := t']> (loops s)) s.
Proof.
  simpl. destruct (loops s !! i) as [t|]; simpl; [|split; [done|by intros (? & ? & ? & _)]].
  destruct (task_turn (running s) v t) eqn:E; simpl; split; try done.
  - intros [= <-]. eauto.
  - by intros (? & ? & [= <-] & ? & ->); simplify_eq.
  - intros (? & ? & [= <-] & ? & _). congruence.
Qed.

Lemma not_live s i : (i < length (loops s))%nat -> ¬ live s i -> exists o, at_ <$> loops s !! i = Some (Over o).
Proof.
  intros [t Ht]%lookup_lt_is_Some_2 Hl. rewrite Ht. simpl. destruct (at_ t) as [| | |o] eqn:E; [..|by exists o];
    exfalso; apply Hl; exists t; by rewrite E.
Qed.

(** C22: as long as nobody starts a service while it is being stopped, the
    reconciler, the compensation service and the callback dispatcher never have two
    live loops, however the loops' turns, errors, cancellations and the calls of
    [start] and [stop] interleave; after the last [stop] has returned none is left
    until the next [start].  A [stop] in progress cannot hang on its loop: a loop that
    is not over can take a turn, two turns after the flag went down it is over, and
    then the [stop] goes on. *)
Theorem background_single_loop s :
  reachable s ->
  (∀ i j, live s i -> live s j -> i = j) /\
  (running s = false -> stops s = [] -> ∀ i, ¬ live s i) /\
  (∀ k i, stops s !! k = Some (AwaitTask i) ->
     (live s i /\ exists v s', step (Turn i v) s = Some s') \/
     (¬ live s i /\ exists s', step (StopGoesOn k) s = Some s' /\ handle s' = None)) /\
  (running s = false -> ∀ i v1 s1 v2 s2,
     step (Turn i v1) s = Some s1 -> step (Turn i v2) s1 = Some s2 -> ¬ live s2 i).
Proof.
  intros I%service_inv. split_and!.
  - intros i j Hi%(inv_live _ I) Hj%(inv_live _ I). congruence.
  - intros Hr Hs i Hi%(inv_live _ I). by rewrite (inv_idle _ I Hs Hr) in Hi.
  - intros k i Hk. assert (Hin : AwaitTask i ∈ stops s) by (apply list_elem_of_lookup; eauto).
    destruct (loops s !! i) as [t|] eqn:Ht; [destruct (is_over (at_ t)) eqn:Ho|].
    2: { left. assert (live s i) by by exists t. split; [done|]. by apply can_turn. }
    all: right; assert (Hn : ¬ live s i) by (intros (t' & ? & ?); congruence); split; [done|];
      destruct (not_live s i) as [o Hov]; [by apply (inv_await _ I)|done|];
      simpl; unfold stop_goes_on; rewrite Hk, Hov; eexists; (split; [done|]);
      destruct (client s); [destruct closes_client|]; done.
  - intros Hr i v1 s1 v2 s2 (t & t1 & Ht & H1 & ->)%step_turn (t1' & t2 & Ht1 & H2 & ->)%step_turn.
    simpl in *. rewrite Hr in *. rewrite list_lookup_insert_eq in Ht1 by by eapply lookup_lt_Some.
    simplify_eq. intros (u & Hu & Ho). simpl in Hu.
    rewrite list_insert_insert_eq, list_lookup_insert_eq in Hu by by eapply lookup_lt_Some.
    simplify_eq. by rewrite (two_turns _ _ _ _ _ H1 H2) in Ho.
Qed.
End Stopping.

Lemma background_single_loop_witness :
  let evs := [Start; Turn 0 Completes; Stop] in
  exists s, controlled (B := reconciler) evs service_init = Some s /\ stops s = [AwaitTask 0] /\
    (∀ i j, live s i -> live s j -> i = j).
Proof.
  eexists. split; [reflexivity|]. split; [reflexivity|].
  refine (proj1 (background_single_loop (B := reconciler) _ _)).
  by apply (controlled_reachable [Start; Turn 0 Completes; Stop] service_init); [constructor|].
Defined.

(** ** Loops that an error ends *)

Section Dead.
Context {B : Background} {G : Guarded B}.

(** A running service without a live loop takes no step before it is stopped. *)
Lemma dead_stays ev s s' :
  running s = true -> stops s = [] -> (∀ i, ¬ live s i) -> ev <> Stop -> step ev s = Some s' -> s' = s.
Proof.
  intros Hr Hs Hd Hne Hst. destruct ev as [| |k|i v]; [| done | |].
  - simpl in Hst. rewrite start_running in Hst by done. congruence.
  - simpl in Hst. unfold stop_goes_on in Hst. by rewrite Hs in Hst.
  - apply step_turn in Hst as (t & t' & Ht & Hv & _). exfalso. apply (Hd i).
    exists t. split; [done|]. by eapply task_turn_live.
Qed.

Lemma dead_stays_forever evs s s' :
  running s = true -> stops s = [] -> (∀ i, ¬ live s i) -> Stop ∉ evs -> steps evs s = Some s' -> s' = s.
Proof.
  intros Hr Hs Hd. induction evs as [|ev evs IH]; intros Hin Hst; simpl in Hst; [congruence|].
  apply not_elem_of_cons in Hin as [Hev Hin].
  destruct (step ev s) as [s1|] eqn:E; [|done]. apply dead_stays in E as ->; auto.
Qed.

Lemma error_kills i e s s' :
  reachable s -> running s = true -> is_over (loop_error e) = true -> step (Turn i (Raises e)) s = Some s' ->
  running s' = true /\ stops s' = [] /\ ∀ j, ¬ live s' j.
Proof.
  intros I%service_inv Hr He (t & t' & Ht & Hv & ->)%step_turn. simpl. split_and!; [done| |].
  - destruct (stops s) eqn:E; [done|]. rewrite (inv_stopping _ I) in Hr by by rewrite E. done.
  - assert (Ho : is_over (at_ t') = true).
    { unfold task_turn in Hv. destruct (at_ t); repeat (case_match; simplify_eq/=); done. }
    intros j Hj. assert (Hl : live s i) by (exists t; split; [done|by eapply task_turn_live]).
    assert (j = i) as ->.
    { apply (live_insert _ _ _ _ _ Ht) in Hj; [|by eapply task_turn_live].
      apply (inv_live _ I) in Hl. apply (inv_live _ I) in Hj. congruence. }
    destruct Hj as (u & Hu & Hov). simpl in Hu.
    rewrite list_lookup_insert_eq in Hu by by eapply lookup_lt_Some. congruence.
Qed.
End Dead.

(** One error is the end of the reconciler and of the callback dispatcher.
    Any exception that a round lets through ends the loop of either, and the flag
    stays up: the service has no live loop, and however often [start] is called,
    nothing about it changes any more until somebody stops it. *)
Theorem dead_loop_not_revived B i e s s' evs s'' :
  B = reconciler \/ B = dispatcher ->
  reachable (B := B) s -> running s = true ->
  step (B := B) (Turn i (Raises e)) s = Some s' -> Stop ∉ evs -> steps (B := B) evs s' = Some s'' ->
  s'' = s' /\ running s' = true /\ ∀ j, ¬ live s' j.
Proof.
  intros HB Hre Hr Hst Hin Hev.
  assert (He : is_over (@loop_error B e) = true).
  { destruct HB as [-> | ->]; simpl; [|done]. unfold TaskReconciler_loop_error, logged_end. by destruct (passes_through e). }
  assert (G : Guarded B) by (destruct HB as [-> | ->]; apply _).
  destruct (error_kills i e s s' Hre Hr He Hst) as (Hr' & Hs' & Hd). split; [|done].
  by eapply dead_stays_forever.
Qed.

Lemma dead_loop_not_revived_witness :
  let e := Exn ConnectionError "Redis is down" in
  exists s s', steps (B := reconciler) [Start; Turn 0 Completes] service_init = Some s /\
    step (B := reconciler) (Turn 0 (Raises e)) s = Some s' /\
    steps (B := reconciler) [Start; Start] s' = Some s' /\ running s' = true /\ ∀ j, ¬ live s' j.
Proof.
  intros e. eexists _, _. split; [reflexivity|]. split; [reflexivity|].
  refine ((λ H, conj eq_refl (proj2 H)) _).
  eapply (dead_loop_not_revived reconciler 0 e
    {| running := true; handle := Some 0%nat; loops := [{| at_ := InRound; cancel_requested := false |}];
       stops := []; client := None; clients := [] |} _ [Start; Start]);
    [by left| |done|reflexivity| |reflexivity].
  - by apply (controlled_reachable [Start; Turn 0 Completes] service_init); [constructor|].
  - rewrite !elem_of_cons, elem_of_nil. naive_solver.
Defined.

(** The compensation service's handler keeps its loop: while it is running, the
    loop is live. *)
Theorem compensation_stays_live s :
  reachable (B := compensation) s -> running s = true -> exists i, live s i.
Proof.
  intros Hre. assert (H : running s = true -> exists i t, handle s = Some i /\ loops s !! i = Some t /\
    is_over (at_ t) = false /\ cancel_requested t = false);
    [|intros Hr; destruct (H Hr) as (i & t & _ & Ht & Ho & _); by exists i, t].
  induction Hre as [|ev s s' Hre IH Hseq Hst]; [done|]. pose proof (service_inv _ Hre) as I.
  destruct ev as [| |k|i v].
  - simpl in Hst. simplify_eq. unfold CompensationService_start, guarded_start.
    destruct (running s) eqn:E; [auto|]. intros _. simpl. eexists _, _. split; [done|].
    rewrite lookup_app_r, Nat.sub_diag by lia. simpl. split; done.
  - simpl in Hst. simplify_eq. unfold stop_begin. simpl. destruct (handle s); [done|]. by destruct (client s).
  - simpl in Hst. unfold stop_goes_on in Hst. intros Hr.
    assert (Hr' : running s = true) by (repeat (case_match; simplify_eq/=); done).
    destruct (stops s) eqn:E; [done|]. by rewrite (inv_stopping _ I) in Hr' by by rewrite E.
  - apply step_turn in Hst as (t & t' & Ht & Hv & ->). simpl. intros Hr.
    destruct (IH Hr) as (j & u & Hh & Hu & Ho & Hc). exists j.
    assert (Hl : live s i) by (exists t; split; [done|by eapply task_turn_live]).
    pose proof (inv_live _ I i Hl) as Hi. assert (j = i) as -> by congruence. assert (u = t) as -> by congruence.
    rewrite list_lookup_insert_eq by by eapply lookup_lt_Some. exists t'. do 2 (split; [done|]).
    unfold task_turn in Hv. rewrite Hr, Hc in Hv.
    destruct (at_ t), v; simplify_eq/=; repeat (case_match; simplify_eq/=); done.
Qed.

(** ** The dispatcher's HTTP client *)

Section Client.
Local Existing Instance dispatcher.

Record client_inv (s : service) : Prop := {
  ci_running : running s = true -> is_Some (client s);
  ci_open : ∀ c, client s = Some c <-> clients s !! c = Some true;
  ci_close : ∀ c, AwaitClose c ∈ stops s -> client s = Some c \/ client s = None;
  ci_idle : running s = false -> stops s = [] -> client s = None;
  ci_stopping : stops s <> [] -> running s = false
}.

Lemma client_inv_start s : client_inv s -> stops s = [] -> client_inv (start s).
Proof.
  intros I Hs. simpl. unfold CallbackDispatchService_start. destruct (running s) eqn:Hr; [done|].
  pose proof (ci_idle _ I Hr Hs) as Hn. split; simpl; try done.
  - intros c. rewrite lookup_app. destruct (clients s !! c) as [b|] eqn:E.
    + split; [intros [= <-]; apply lookup_lt_Some in E; lia|].
      intros [= ->]. apply (ci_open _ I) in E. congruence.
    + apply lookup_ge_None in E. rewrite list_lookup_singleton_Some. split; [intros [= <-]|intros [? _]; f_equal]; lia || (split; [lia|done]).
  - intros c Hc. rewrite Hs in Hc. by apply elem_of_nil in Hc.
Qed.

Lemma client_inv_stops s l :
  client_inv s -> running s = false -> (∀ c, AwaitClose c ∈ l -> AwaitClose c ∈ stops s \/ client s = Some c) ->
  (l = [] -> client s = None) ->
  ∀ h ls, client_inv {| running := false; handle := h; loops := ls; stops := l; client := client s; clients := clients s |}.
Proof.
  intros I Hr Hl Hnil h ls. split; simpl; [done|apply I| |auto|done].
  intros c Hc. destruct (Hl c Hc) as [H|H]; [by apply (ci_close _ I)|by left].
Qed.

Lemma client_inv_stop s : client_inv s -> client_inv (stop_begin s).
Proof.
  intros I. unfold stop_begin. simpl. destruct (handle s) as [i|]; [|destruct (client s) as [c|] eqn:Hc].
  - split; simpl; try done; try apply I; [|by intros _ [_ ?]%app_eq_nil].
    intros c [Hc|Hc%list_elem_of_singleton]%elem_of_app; [by apply (ci_close _ I)|done].
  - split; simpl; rewrite ?Hc; try done; [rewrite <-Hc; apply I| |by intros _ [_ ?]%app_eq_nil].
    intros d [Hd|Hd%list_elem_of_singleton]%elem_of_app; [rewrite <-Hc; by apply (ci_close _ I)|]. simplify_eq. by left.
  - split; simpl; rewrite ?Hc; try done; [rewrite <-Hc; apply I|]. intros d _. by right.
Qed.

Lemma client_inv_stop_goes_on k s s' : client_inv s -> stop_goes_on k s = Some s' -> client_inv s'.
Proof.
  intros I. unfold stop_goes_on. destruct (stops s !! k) as [st|] eqn:Hk; [|done].
  assert (Hr : running s = false) by (apply (ci_stopping _ I); intros E; rewrite E in Hk; done).
  destruct st as [i|c].
  - destruct (at_ <$> loops s !! i) as [[| | |o]|]; try done. intros [= <-].
    destruct (client s) as [c|] eqn:Hc; simpl; unfold drop_handle, set_stops; simpl; rewrite Hr.
    + apply client_inv_stops; try done.
      * intros d Hd. apply elem_of_insert_list in Hd as [[= ->]|Hd]; [by right|by left].
      * intros E. apply (f_equal length) in E. rewrite length_insert in E. by destruct (stops s).
    + apply client_inv_stops; try done. intros d Hd%elem_of_delete_list. by left.
  - intros [= <-]. assert (Hin : AwaitClose c ∈ stops s) by (apply list_elem_of_lookup; eauto).
    split; simpl; try done.
    + congruence.
    + intros d. split; [done|]. intros Hd. apply list_lookup_insert_Some in Hd as [(_ & ? & _)|[Hne Hd]]; [done|].
      apply (ci_open _ I) in Hd. destruct (ci_close _ I c Hin); congruence.
    + intros d _. by right.
Qed.

Lemma reachable_client s : reachable s -> client_inv s.
Proof.
  induction 1 as [|ev s s' Hr I Hseq Hst].
  - split; simpl; try done; intros c Hc; by apply elem_of_nil in Hc.
  - destruct ev as [| |k|i v].
    + simpl in Hst. simplify_eq. apply (client_inv_start s); auto.
    + simpl in Hst. simplify_eq. by apply client_inv_stop.
    + by eapply client_inv_stop_goes_on.
    + apply step_turn in Hst as (t & t' & _ & _ & ->). split; simpl; apply I.
Qed.

(** Under control in sequence the dispatcher has an open client exactly while it is
    running or being stopped, never leaks one, and its live loop always finds it. *)
Theorem dispatcher_client s :
  reachable s ->
  (running s = true -> exists c, client s = Some c /\ clients s !! c = Some true) /\
  (∀ c, clients s !! c = Some true -> client s = Some c) /\
  (running s = false -> stops s = [] -> ∀ c, clients s !! c <> Some true).
Proof.
  intros I%reachable_client. split_and!.
  - intros [c Hc]%(ci_running _ I). exists c. split; [done|]. by apply (ci_open _ I).
  - intros c. apply (ci_open _ I).
  - intros Hr Hs c Hc%(ci_open _ I). by rewrite (ci_idle _ I Hr Hs) in Hc.
Qed.
End Client.

(** ** Overlapping calls *)

(** A [start] that overlaps a [stop] loses its task: the [stop] sets the handle to
    [None] after the new task was stored, the next [stop] returns at once with that
    task alive, and the next [start] makes a second loop beside it. *)
Example overlap_two_loops :
  exists s, steps (B := reconciler)
      [Start; Turn 0 Completes; Stop; Start; Turn 1 Completes; Turn 0 Interrupted; StopGoesOn 0; Stop; Start] service_init
    = Some s /\ live s 1 /\ live s 2 /\ stops s = [].
Proof. eexists. split; [reflexivity|]. split_and!; [by eexists|by eexists|done]. Qed.

(** In the dispatcher it also closes the client of the new loop, which then goes
    on without one: [process_once] returns 0 at once, with the flag up. *)
Example overlap_no_client :
  exists s, steps (B := dispatcher)
      [Start; Turn 0 Completes; Stop; Start; Turn 1 Completes; Turn 0 Interrupted; StopGoesOn 0; StopGoesOn 0] service_init
    = Some s /\ live s 1 /\ running s = true /\ client s = None /\ stops s = [].
Proof. eexists. split; [reflexivity|]. split_and!; [by eexists|done..]. Qed.

(** [CronScheduler.start] has no guard: a second call starts a second loop and
    forgets the first, which a later [stop] does not cancel. *)
Example cron_starts_twice :
  exists s, controlled (B := cron) [Start; Turn 0 Completes; Start; Turn 1 Completes; Stop; Turn 1 Interrupted; StopGoesOn 0] service_init
    = Some s /\ running s = false /\ stops s = [] /\ live s 0.
Proof. eexists. split; [reflexivity|]. split_and!; [done|done|by eexists]. Qed.
