(* ===== verification/Metrics.v ===== *)
(** * Metrics of the monitoring package

    [src/monitoring/metrics.py].  The counters, gauges and histograms are objects of
    the prometheus client; what the code does with them is a sequence of samples.
    The module makes a registry of its own; that of [src/common/metrics.py]
    ([CommonMetrics.v]) is the client's default one. *)

From stdpp Require Import base gmap strings list.
From S2P Require Import Prelude PyValue.

Open Scope Z_scope.

(** ** Samples *)

Inductive registry := DefaultRegistry | SchedulerRegistry.

#[global] Instance registry_eq_dec : EqDecision registry.
Proof. solve_decision. Defined.

(** A metric: its registry, its name and the values of its labels. *)
Record series := Series { s_registry : registry; s_name : string; s_labels : list string }.

#[global] Instance series_eq_dec : EqDecision series.
Proof. solve_decision. Defined.

Inductive sample :=
| Inc (s : series)
| Observe (s : series) (v : Z)
| SetTo (s : series) (v : Z).

#[global] Instance sample_eq_dec : EqDecision sample.
Proof. solve_decision. Defined.

(** The value of a counter, and the number of observations of a histogram *)
Definition counter (s : series) (log : list sample) : nat :=
  length (filter (λ x, x = Inc s) log).

Definition is_observation (s : series) (x : sample) : bool :=
  match x with Observe s' _ => bool_decide (s' = s) | _ => false end.

Definition observations (s : series) (log : list sample) : nat :=
  length (filter (λ x, is_observation s x = true) log).

(** The last value a gauge was set to *)
Fixpoint gauge (s : series) (log : list sample) : option Z :=
  match log with
  | [] => None
  | x :: log' =>
      match gauge s log' with
      | Some v => Some v
      | None => match x with SetTo s' v => if decide (s' = s) then Some v else None | _ => None end
      end
  end.

Definition series_of (x : sample) : series := match x with Inc s | Observe s _ | SetTo s _ => s end.

(** What the endpoint [GET /metrics/] shows: [generate_latest] of one registry *)
Definition generate_metrics (log : list sample) : list sample :=
  filter (λ x, s_registry (series_of x) = SchedulerRegistry) log.

(** ** [monitoring/metrics.py] *)

Module Monitoring.
Definition series_ (name : string) (labels : list string) : series := Series SchedulerRegistry name labels.

Definition REQUEST_COUNT (method endpoint status_code : string) :=
  series_ "scheduler_http_requests_total" [method; endpoint; status_code].
Definition REQUEST_LATENCY (method endpoint : string) :=
  series_ "scheduler_http_request_duration_seconds" [method; endpoint].
Definition QUEUE_DEPTH (capability : string) := series_ "scheduler_queue_depth" [capability].
Definition QUEUE_RUNNING (capability : string) := series_ "scheduler_queue_running" [capability].
Definition QUEUE_MAX_CONCURRENT (capability : string) := series_ "scheduler_queue_max_concurrent" [capability].
Definition REDIS_OPERATIONS (operation : string) := series_ "scheduler_redis_operations_total" [operation].
Definition REDIS_LATENCY (operation : string) := series_ "scheduler_redis_latency_seconds" [operation].
Definition DB_QUERY_DURATION (operation : string) := series_ "scheduler_db_query_duration_seconds" [operation].
Definition REDIS_CIRCUIT_BREAKER_STATE := series_ "scheduler_redis_circuit_breaker_state" [].
Definition REDIS_DEGRADATION_MODE := series_ "scheduler_redis_degradation_mode" [].
Definition REDIS_DEGRADATION_QUEUE_SIZE := series_ "scheduler_redis_degradation_queue_size" [].

Definition CB_STATE_MAP : list (string * Z) := [("CLOSED", 0); ("HALF_OPEN", 1); ("OPEN", 2)].

Definition update_redis_ha_metrics (circuit_state : string) (degradation_mode : bool) (queue_size : Z) : list sample :=
  [SetTo REDIS_CIRCUIT_BREAKER_STATE (default 0 (dict_get circuit_state CB_STATE_MAP));
   SetTo REDIS_DEGRADATION_MODE (if degradation_mode then 1 else 0);
   SetTo REDIS_DEGRADATION_QUEUE_SIZE queue_size].

(** [Timer.__exit__] after [__enter__]: whatever the body did *)
Definition Timer {A} (histogram : series) (duration : Z) (r : exn + A) : list sample * (exn + A) :=
  ([Observe histogram duration], r).

Definition record_redis_operation (operation : string) (duration : Z) : list sample :=
  [Inc (REDIS_OPERATIONS operation); Observe (REDIS_LATENCY operation) duration].

Definition record_db_operation (operation : string) (duration : Z) : list sample :=
  [Observe (DB_QUERY_DURATION operation) duration].

Definition update_queue_metrics (capability : string) (pending running max_concurrent : Z) : list sample :=
  [SetTo (QUEUE_DEPTH capability) pending; SetTo (QUEUE_RUNNING capability) running;
   SetTo (QUEUE_MAX_CONCURRENT capability) max_concurrent].
End Monitoring.
