(* ===== verification/CommonMetrics.v ===== *)
(** * Metrics of the common package

    [src/common/metrics.py]: the helpers that record samples, the timers around
    executions, and the collector of the queue gauges. *)

From stdpp Require Import base gmap strings list.
From S2P Require Import Prelude PyValue Redis TaskModel Tables Effects ErrorHandling.
From S2P Require Import QueueKeys CircuitBreaker QueueManager Metrics.

Open Scope Z_scope.

Module Common.
Definition series_ (name : string) (labels : list string) : series := Series DefaultRegistry name labels.

Definition QUEUE_PENDING_TASKS (capability : string) := series_ "scheduler_queue_pending_tasks" [capability].
Definition QUEUE_RUNNING_TASKS (capability : string) := series_ "scheduler_queue_running_tasks" [capability].
Definition TASK_EXECUTION_DURATION (capability status : string) :=
  series_ "scheduler_task_execution_duration_seconds" [capability; status].
Definition TASKS_CREATED (capability priority : string) := series_ "scheduler_tasks_created_total" [capability; priority].
Definition TASKS_COMPLETED (capability status : string) := series_ "scheduler_tasks_completed_total" [capability; status].
Definition DAG_EXECUTION_DURATION (dag_id : string) := series_ "scheduler_dag_execution_duration_seconds" [dag_id].
Definition REDIS_CONNECTIONS := series_ "scheduler_redis_connections" [].

(** [prometheus]: is the client installed? *)
Section Available.
Context (prometheus : bool).

Definition emit (l : list sample) : list sample := if prometheus then l else [].

Definition update_queue_metrics (capability : string) (pending running : Z) : list sample :=
  emit [SetTo (QUEUE_PENDING_TASKS capability) pending; SetTo (QUEUE_RUNNING_TASKS capability) running].

Definition record_task_creation (capability priority : string) : list sample :=
  emit [Inc (TASKS_CREATED capability priority)].

Definition record_task_completion (capability status : string) (duration : Z) : list sample :=
  emit [Inc (TASKS_COMPLETED capability status); Observe (TASK_EXECUTION_DURATION capability status) duration].

(** [status] is set by [except Exception] only. *)
Definition measured_status {A} (r : exn + A) : string :=
  match r with
  | inr _ => "success"
  | inl e => if is_exception e then "failure" else "success"
  end.

(** The context managers and the decorator: the samples of a body that ended with
    [r] after [duration]; the body's result goes on to the caller as it is. *)
Definition measure_task_execution {A} (capability : string) (duration : Z) (r : exn + A) : list sample * (exn + A) :=
  (emit [Observe (TASK_EXECUTION_DURATION capability (measured_status r)) duration], r).

Definition measure_dag_execution {A} (dag_id : string) (duration : Z) (r : exn + A) : list sample * (exn + A) :=
  (emit [Observe (DAG_EXECUTION_DURATION dag_id) duration], r).

(** [kwargs.get('capability', 'unknown')], then [args[0].capability] where the
    first argument has one *)
Definition task_execution_timer {A} (kwarg self_capability : option string) (duration : Z) (r : exn + A) :
    list sample * (exn + A) :=
  let capability := match self_capability with Some c => c | None => default "unknown" kwarg end in
  (emit [Observe (TASK_EXECUTION_DURATION capability (measured_status r)) duration], r).

(** ** The collector *)

Context {B : Type} {BI : Breaker B}.

(** The dictionary [get_queue_snapshot] returns *)
Definition snapshot_dict (capability : string) (s : snapshot) : list (string * value) :=
  [("capability", VStr capability); ("pending", VInt (sn_pending s)); ("running", VInt (sn_running s));
   ("max_queue_depth", VInt (sn_max_queue_depth s)); ("max_concurrent", VInt (sn_max_concurrent s))].

(** [snapshot.get(key, {}).get('size', 0)] *)
Definition size_of (key : string) (d : list (string * value)) : exn + value :=
  match dict_get_or key (VDict []) d with
  | VDict e => inr (dict_get_or "size" (VInt 0) e)
  | _ => inl (Exn AttributeError "'int' object has no attribute 'get'")
  end.

Definition set_to (s : series) (v : value) : exn + list sample :=
  match v with VInt n => inr (emit [SetTo s n]) | _ => inl (Exn TypeError "float() argument") end.

(** One capability of the loop: the samples it adds *)
Definition collect_one (qm : QueueManager B) (capability : string) : M (list sample) :=
  let* snap := get_queue_snapshot qm capability in
  let d := snapshot_dict capability snap in
  let* pending := of_sum (size_of "pending" d) in
  let* running := of_sum (size_of "running" d) in
  let* a := of_sum (set_to (QUEUE_PENDING_TASKS capability) pending) in
  let* b := of_sum (set_to (QUEUE_RUNNING_TASKS capability) running) in
  ret (a ++ b).

(** The loop adds its samples as it goes, and [except Exception: pass] keeps what
    was added before; [None] for no queue manager. *)
Fixpoint collect_all (qm : QueueManager B) (caps : list string) (log : list sample) : M (list sample) :=
  match caps with
  | [] => ret log
  | c :: caps' =>
      let* r := attempt_ (collect_one qm c) in
      match r with
      | inr l => collect_all qm caps' (log ++ l)
      | inl e => if is_exception e then ret log else raise e
      end
  end.

Definition collect_queue_metrics (qm : option (QueueManager B)) : M (list sample) :=
  match qm with
  | Some qm =>
      if prometheus then
        let* r := attempt_ (redis CAPABILITIES_KEY SMEMBERS) in
        match r with
        | inr members => collect_all qm (elements members) []
        | inl e => if is_exception e then ret [] else raise e
        end
      else ret []
  | None => ret []
  end.

Definition collect_redis_metrics (redis_present : bool) : list sample :=
  if prometheus && redis_present then [SetTo REDIS_CONNECTIONS 1] else [].
End Available.
End Common.

(** ** Queue gauges *)

Section Collected.
Context {B : Type} {BI : Breaker B} {S : Services} {E : Env}.

Lemma collect_one_raises prometheus (qm : QueueManager B) cap (w : world S) :
  exists e, (run (Common.collect_one prometheus qm cap) w).2 = inl e.
Proof.
  unfold Common.collect_one. rewrite run_bind. destruct (run (get_queue_snapshot qm cap) w) as [w' [e|snap]].
  - by exists e.
  - by eexists.
Qed.

(** The queue gauges of [MetricsCollector] are never set.  The snapshot of a
    queue holds numbers where the collector expects dictionaries, so its first
    capability raises and the handler of the whole loop ends it: whatever Redis
    holds and answers, a collection that ends adds no sample. *)
Theorem queue_gauges_never_set prometheus (qm : option (QueueManager B)) (w : world S) :
  match (run (Common.collect_queue_metrics prometheus qm) w).2 with
  | inr log => log = []
  | inl e => is_exception e = false
  end.
Proof.
  unfold Common.collect_queue_metrics. destruct qm as [qm|]; [|done]. destruct prometheus; [|done].
  rewrite run_bind, run_attempt_. destruct (run (redis CAPABILITIES_KEY SMEMBERS) w) as [w' [e|members]].
  - by destruct (is_exception e) eqn:E1.
  - destruct (elements members) as [|c caps]; [done|]. cbn [Common.collect_all]. rewrite run_bind, run_attempt_.
    destruct (collect_one_raises true qm c w') as [e He].
    destruct (run (Common.collect_one true qm c) w') as [w2 r]. simpl in He. subst r.
    by destruct (is_exception e) eqn:E1.
Qed.
End Collected.

(** An execution is measured once, whatever it does; the status is "success" for
    an execution that was cancelled as well. *)
Lemma measured_once {A} cap d (r : exn + A) :
  let '(log, r') := Common.measure_task_execution true cap d r in
  r' = r /\
  (observations (Common.TASK_EXECUTION_DURATION cap "success") log +
   observations (Common.TASK_EXECUTION_DURATION cap "failure") log = 1)%nat /\
  (observations (Common.TASK_EXECUTION_DURATION cap "failure") log = 1%nat <->
   exists e, r = inl e /\ is_exception e = true).
Proof.
  assert (Hne : Common.TASK_EXECUTION_DURATION cap "failure" <> Common.TASK_EXECUTION_DURATION cap "success")
    by (intros [=]).
  unfold Common.measure_task_execution, Common.measured_status, Common.emit, observations.
  destruct r as [e|a]; [destruct (is_exception e) eqn:Ee|];
    rewrite !filter_cons; simpl; repeat case_bool_decide; simplify_eq/=; try done;
    (split; [done|]); (split; [done|]); split; try done; [by eauto|intros (? & [= <-] & ?)..]; congruence.
Qed.

Example cancelled_counts_as_success :
  (Common.measure_task_execution true "etl" 5 (inl (Exn CancelledError "") : exn + unit)).1 =
    [Observe (Common.TASK_EXECUTION_DURATION "etl" "success") 5].
Proof. reflexivity. Qed.
