(* ===== verification/HttpMiddleware.v ===== *)
(** * HTTP middleware and error answers

    [src/api/middleware.py] (request identifiers), [src/middleware/metrics_middleware.py]
    (request metrics) and the exception handlers of [src/common/error_handling.py], put
    together as [src/main.py] and [src/main_tasks.py] do: the middleware added last is
    the outermost, the exception handlers are inside both.  The route table's matching
    is a parameter, as are the clock and the identifier drawn. *)

From stdpp Require Import base strings list.
From S2P Require Import Prelude PyValue Effects ErrorHandling Metrics.

Open Scope Z_scope.

Record request := {
  rq_method : string;
  rq_path : string;
  rq_headers : list (string * string);
  rq_state : list (string * value)
}.

Record response := {
  rs_status : Z;
  rs_headers : list (string * string);
  rs_body : value
}.

(** ** Headers: names are compared without regard to case *)

Definition same_header (a b : string) : bool := bool_decide (str_lower a = str_lower b).

Fixpoint header_get (name : string) (hs : list (string * string)) : option string :=
  match hs with
  | [] => None
  | (k, v) :: hs' => if same_header k name then Some v else header_get name hs'
  end.

(** [headers[name] = v]: the first entry of that name takes the value, others go. *)
Definition header_set (name v : string) (hs : list (string * string)) : list (string * string) :=
  let others := filter (λ kv, same_header kv.1 name = false) in
  (fix go l :=
     match l with
     | [] => [(name, v)]
     | (k, w) :: l' => if same_header k name then (k, v) :: others l' else (k, w) :: go l'
     end) hs.

(** ** Error answers *)

(** [getattr(request.state, "request_id", "")] *)
Definition error_body (rq : request) (error message : string) : value :=
  VDict [("error", VStr error); ("message", VStr message);
         ("request_id", dict_get_or "request_id" (VStr "") (rq_state rq))].

Definition handle_system_error (rq : request) : response :=
  {| rs_status := 500; rs_headers := [];
     rs_body := error_body rq "internal_server_error" "An internal server error occurred" |}.

Definition handle_business_error (rq : request) (e : exn) : response :=
  {| rs_status := 400; rs_headers := []; rs_body := error_body rq "business_error" (exn_str e) |}.

Definition handle_external_service_error (rq : request) : response :=
  {| rs_status := 503; rs_headers := [];
     rs_body := error_body rq "service_unavailable" "A dependent service is temporarily unavailable" |}.

(** The handler of the exceptions the application registered one for, and the
    framework's own of [HTTPException]; other exceptions go on. *)
Definition exception_middleware (rq : request) (r : exn + response) : exn + response :=
  match r with
  | inr a => inr a
  | inl (Exn SystemError _) => inr (handle_system_error rq)
  | inl (Exn BusinessError m) => inr (handle_business_error rq (Exn BusinessError m))
  | inl (Exn ExternalServiceError _) => inr (handle_external_service_error rq)
  | inl (HTTPException c d) =>
      inr {| rs_status := c; rs_headers := []; rs_body := VDict [("detail", VStr d)] |}
  | inl e => inl e
  end.

(** ** Request metrics *)

Section Middleware.
(** The application's routes with their paths, in order, and which match fully. *)
Context (routes : list (string * (request -> bool))).

Fixpoint endpoint_of (rs : list (string * (request -> bool))) (rq : request) : string :=
  match rs with
  | [] => "unknown"
  | (path, matches) :: rs' => if matches rq then path else endpoint_of rs' rq
  end.

(** [finally] reads [status_code], which neither branch has set when the call was
    cancelled. *)
Definition MetricsMiddleware_dispatch (duration : Z) (rq : request) (r : exn + response) :
    list sample * (exn + response) :=
  if bool_decide (rq_path rq = "/metrics") then ([], r) else
  let endpoint := endpoint_of routes rq in
  let latency := Observe (Monitoring.REQUEST_LATENCY (rq_method rq) endpoint) duration in
  let count code := Inc (Monitoring.REQUEST_COUNT (rq_method rq) endpoint code) in
  match r with
  | inr a => ([latency; count (dec_of_Z (rs_status a))], inr a)
  | inl e =>
      if is_exception e then ([latency; count "500"], inl e)
      else ([latency], inl (Exn UnboundLocalError "cannot access local variable 'status_code'"))
  end.

(** ** Request identifiers *)

Definition REQUEST_ID_HEADER : string := "X-Request-ID".
Definition PROCESS_TIME_HEADER : string := "X-Process-Time-Ms".

(** [request.headers.get(REQUEST_ID_HEADER) or str(uuid.uuid4())] *)
Definition request_id (uuid : string) (rq : request) : string :=
  match header_get REQUEST_ID_HEADER (rq_headers rq) with
  | Some (String c s) => String c s
  | _ => uuid
  end.

Definition RequestIDMiddleware_dispatch (uuid elapsed_ms : string) (rq : request) (r : exn + response) :
    exn + response :=
  match r with
  | inl e => inl e
  | inr a =>
      inr {| rs_status := rs_status a;
             rs_headers := header_set PROCESS_TIME_HEADER elapsed_ms
                             (header_set REQUEST_ID_HEADER (request_id uuid rq) (rs_headers a));
             rs_body := rs_body a |}
  end.

(** ** The application *)

Definition app (uuid elapsed_ms : string) (duration : Z) (handler : request -> exn + response) (rq : request) :
    list sample * (exn + response) :=
  let '(log, r) := MetricsMiddleware_dispatch duration rq (exception_middleware rq (handler rq)) in
  (log, RequestIDMiddleware_dispatch uuid elapsed_ms rq r).
End Middleware.

(** ** Headers *)

Lemma same_header_refl a : same_header a a = true.
Proof. unfold same_header. by rewrite bool_decide_eq_true. Qed.

Lemma header_get_filtered name hs :
  header_get name (filter (λ kv, same_header kv.1 name = false) hs) = None.
Proof.
  induction hs as [|[k v] hs IH]; [done|]. rewrite filter_cons. destruct (decide _) as [H|H]; simpl in *; [|done].
  by rewrite H.
Qed.

Lemma header_get_set name v hs : header_get name (header_set name v hs) = Some v.
Proof.
  unfold header_set. induction hs as [|[k w] hs IH]; simpl; [by rewrite same_header_refl|].
  destruct (same_header k name) eqn:E; simpl; rewrite E; [done|]. exact IH.
Qed.

Lemma header_get_set_ne name name' v hs :
  same_header name name' = false -> header_get name' (header_set name v hs) = header_get name' hs.
Proof.
  intros Hne. assert (Hk : ∀ k, same_header k name = true -> same_header k name' = false).
  { unfold same_header in *. intros k Hk. bool_to_prop. apply bool_decide_eq_false. congruence. }
  assert (Hf : ∀ l, header_get name' (filter (λ kv, same_header kv.1 name = false) l) = header_get name' l).
  { induction l as [|[k w] l IH]; [done|]. rewrite filter_cons. destruct (decide _) as [H|H]; simpl in *.
    - by rewrite IH.
    - apply not_false_is_true in H. by rewrite (Hk k H), IH. }
  unfold header_set. induction hs as [|[k w] hs IH]; simpl; [by rewrite Hne|].
  destruct (same_header k name) eqn:E; simpl; [by rewrite (Hk k E), Hf|]. by destruct (same_header k name').
Qed.

(** ** What a request gets *)

Section Answers.
Context (routes : list (string * (request -> bool))) (uuid elapsed : string) (d : Z).

(** The errors the application has a handler of its own for *)
Definition own_error (e : exn) : bool :=
  match e with Exn SystemError _ | Exn BusinessError _ | Exn ExternalServiceError _ => true | _ => false end.

(** Every answer carries the identifier of its request, and every request
    outside /metrics is timed once and counted once under its status.  An exception
    without a handler leaves no answer and is counted as 500.  The body of an error
    answer, though, always has an empty identifier, because nothing puts it where
    the handlers look.  A request that is cancelled is timed, not counted, and the
    cancellation is lost: the middleware raises UnboundLocalError instead. *)
Theorem request_answered handler rq :
  rq_path rq <> "/metrics" -> dict_get "request_id" (rq_state rq) = None ->
  let ep := endpoint_of routes rq in
  let latency := Monitoring.REQUEST_LATENCY (rq_method rq) ep in
  let '(log, r) := app routes uuid elapsed d handler rq in
  observations latency log = 1%nat /\
  match r with
  | inr a =>
      header_get REQUEST_ID_HEADER (rs_headers a) = Some (request_id uuid rq) /\
      log = [Observe latency d; Inc (Monitoring.REQUEST_COUNT (rq_method rq) ep (dec_of_Z (rs_status a)))] /\
      (∀ e, handler rq = inl e -> own_error e = true ->
         handler_status e = Some (rs_status a) /\
         exists error message, rs_body a =
           VDict [("error", VStr error); ("message", VStr message); ("request_id", VStr "")])
  | inl e =>
      (handler rq = inl e /\ is_exception e = true /\
       log = [Observe latency d; Inc (Monitoring.REQUEST_COUNT (rq_method rq) ep "500")]) \/
      (e = Exn UnboundLocalError "cannot access local variable 'status_code'" /\ log = [Observe latency d] /\
       exists c, handler rq = inl c /\ is_exception c = false)
  end.
Proof.
  intros Hp Hs ep latency. unfold app, MetricsMiddleware_dispatch. rewrite bool_decide_eq_false_2 by done.
  assert (Hid : dict_get_or "request_id" (VStr "") (rq_state rq) = VStr "") by (unfold dict_get_or; by rewrite Hs).
  assert (Hl : ∀ rest, observations latency (Observe latency d :: rest) = S (observations latency rest)).
  { intros rest. unfold observations. rewrite filter_cons. simpl. by rewrite bool_decide_eq_true_2. }
  assert (Hh : ∀ a, header_get REQUEST_ID_HEADER
      (header_set PROCESS_TIME_HEADER elapsed (header_set REQUEST_ID_HEADER (request_id uuid rq) a)) = Some (request_id uuid rq)).
  { intros a. rewrite header_get_set_ne by done. apply header_get_set. }
  unfold exception_middleware, handle_system_error, handle_business_error, handle_external_service_error, error_body.
  rewrite Hid. destruct (handler rq) as [[c m|c m]|a] eqn:Hr.
  - destruct c; simpl; rewrite ?Hl; (split; [done|]);
      try (by left);
      try (split_and!; [apply Hh || done|done|]; intros e [= <-] _; split; [done|]; by do 2 eexists).
    right. split_and!; [done|done|]. by eexists.
  - simpl. rewrite Hl. split; [done|]. split_and!; [apply Hh || done|done|]. by intros e [= <-].
  - simpl. rewrite Hl. split; [done|]. split_and!; [apply Hh || done|done|]. done.
Qed.
End Answers.

Lemma request_answered_witness :
  let rq := {| rq_method := "GET"; rq_path := "/api/v1/tasks/"; rq_headers := [("x-request-id", "r-17")]; rq_state := [] |} in
  let handler := λ _ : request, inl (Exn BusinessError "no such task") : exn + response in
  exists a log, app [] "uuid" "1.2" 3 handler rq = (log, inr a) /\
    header_get REQUEST_ID_HEADER (rs_headers a) = Some "r-17" /\ rs_status a = 400.
Proof.
  intros rq handler. pose proof (request_answered [] "uuid" "1.2" 3 handler rq ltac:(done) ltac:(done)) as H.
  destruct (app [] "uuid" "1.2" 3 handler rq) as [log r] eqn:E. vm_compute in E. injection E as <- <-.
  destruct H as [_ [Hh _]]. do 2 eexists. split; [reflexivity|]. split; [exact Hh|reflexivity].
Defined.

(** The metrics page is served at /metrics/ (the router's prefix and its path), which
    the middleware does not skip. *)
Example metrics_page_counted :
  let rq := {| rq_method := "GET"; rq_path := "/metrics" +:+ "/"; rq_headers := []; rq_state := [] |} in
  let page := {| rs_status := 200; rs_headers := []; rs_body := VNone |} in
  (app [("/metrics/", λ r, bool_decide (rq_path r = "/metrics/"))] "u" "0" 1 (λ _, inr page) rq).1 =
    [Observe (Monitoring.REQUEST_LATENCY "GET" "/metrics/") 1; Inc (Monitoring.REQUEST_COUNT "GET" "/metrics/" "200")].
Proof. vm_compute. reflexivity. Qed.
