(* ===== verification/Logging.v ===== *)
(** * Structured logging

    [src/common/logging_config.py]: the JSON formatter and the configuration of the
    root logger.  A record's attributes are its [__dict__]; a value the encoder
    refuses is known by its [str]. *)

From Stdlib Require Import Ascii.
From stdpp Require Import base strings list sets.
From S2P Require Import Prelude PyValue Json IsoTime.

Open Scope Z_scope.

Inductive attribute := Serialisable (v : value) | Opaque (str : string).

Record LogRecord := {
  levelno : Z;
  lr_name : string;
  getMessage : string;
  lr_module : string;
  lineno : Z;
  exception_text : option string;       (* [formatException(exc_info)] *)
  lr_dict : list (string * attribute)   (* [record.__dict__] *)
}.

(** [LEVEL_MAP.get(record.levelno, "UNKNOWN")] *)
Definition level_name (n : Z) : string :=
  match n with
  | 10 => "DEBUG" | 20 => "INFO" | 30 => "WARNING" | 40 => "ERROR" | 50 => "CRITICAL"
  | _ => "UNKNOWN"
  end.

Definition skip : list string :=
  ["name"; "msg"; "args"; "created"; "filename"; "funcName"; "levelname"; "levelno"; "lineno"; "module";
   "msecs"; "message"; "pathname"; "process"; "processName"; "relativeCreated"; "thread"; "threadName";
   "exc_info"; "exc_text"; "stack_info"].

Definition attribute_value (a : attribute) : value :=
  match a with Serialisable v => v | Opaque s => VStr s end.

Definition base_entry (now : Z) (r : LogRecord) : list (string * value) :=
  [("timestamp", VStr (isoformat now)); ("level", VStr (level_name (levelno r))); ("logger", VStr (lr_name r));
   ("message", VStr (getMessage r)); ("module", VStr (lr_module r)); ("lineno", VInt (lineno r))] ++
  match exception_text r with Some t => [("exception", VStr t)] | None => [] end.

Definition add_extra (entry : list (string * value)) (kv : string * attribute) : list (string * value) :=
  if decide (kv.1 ∈ skip) then entry else dict_set kv.1 (attribute_value kv.2) entry.

Definition log_entry (now : Z) (r : LogRecord) : list (string * value) :=
  foldl add_extra (base_entry now r) (lr_dict r).

Definition JsonFormatter_format (now : Z) (r : LogRecord) : string := json_dumps (VDict (log_entry now r)).

(** [configure_logging]: the formatter of the one handler the root logger has
    afterwards, and the levels it sets *)
Inductive formatter := JsonFormatter | PlainFormatter.

Definition logging_levels : list (string * Z) :=
  [("DEBUG", 10); ("INFO", 20); ("WARNING", 30); ("WARN", 30); ("ERROR", 40); ("CRITICAL", 50); ("FATAL", 50); ("NOTSET", 0)].

(** [getattr(logging, level.upper(), logging.INFO)]; a name of the module that is
    no level is a setting the handler refuses *)
Definition root_level (level : string) : Z := default 20 (dict_get (str_upper level) logging_levels).

Record root_logger := { handlers : list formatter; level_of_root : Z; quiet_loggers : list (string * Z) }.

Definition configure_logging (level : string) (json_output : option bool) (environment : option string)
    (stdout_isatty : bool) (root : root_logger) : root_logger :=
  let json := match json_output with
              | Some b => b
              | None => negb (bool_decide (default "development" environment = "development")) || negb stdout_isatty
              end in
  {| handlers := [if json then JsonFormatter else PlainFormatter];
     level_of_root := root_level level;
     quiet_loggers := [("uvicorn.access", 30); ("httpx", 30); ("httpcore", 30)] |}.

(** ** One line per record *)

Definition newline : ascii := ascii_of_nat 10.
Definition carriage_return : ascii := ascii_of_nat 13.

(** Not one of the C0 control characters U+0000 to U+001F, newline, carriage return
    and tab among them; in UTF-8 each is a byte of its own *)
Definition no_c0 (c : ascii) : bool := (32 <=? nat_of_ascii c)%nat.

Lemma digit_no_c0 c : is_digit c = true -> no_c0 c = true.
Proof. unfold is_digit, no_c0. intros [H _]%andb_prop. apply Nat.leb_le in H. apply Nat.leb_le. lia. Qed.

Lemma string_forall_impl (P Q : ascii -> bool) s :
  (∀ c, P c = true -> Q c = true) -> string_forall P s -> string_forall Q s.
Proof.
  intros H. induction s as [|c s IH]; simpl; [done|]. intros [Hc Hs]%andb_prop_elim.
  apply andb_prop_intro. split; [|by apply IH]. apply Is_true_true in Hc. by rewrite (H c Hc).
Qed.

Lemma dec_of_Z_no_c0 z : string_forall no_c0 (dec_of_Z z).
Proof.
  assert (Hd : ∀ n, string_forall no_c0 (dec_of_N n))
    by (intros n; eapply string_forall_impl; [apply digit_no_c0|apply dec_of_N_digits]).
  destruct z as [|p|p]; [apply (Hd 0%N)|apply (Hd (Npos p))|apply (Hd (Npos p))].
Qed.

Lemma hex_digit_no_c0 n : (n < 16)%nat -> no_c0 (hex_digit n) = true.
Proof. intros Hn. do 16 (destruct n as [|n]; [reflexivity|]). lia. Qed.

Lemma escape_char_no_c0 c rest : string_forall no_c0 rest -> string_forall no_c0 (escape_char c rest).
Proof.
  intros Hr. unfold escape_char. cbv zeta. do 7 (case_match; [simpl; done|]).
  destruct (nat_of_ascii c <? 32)%nat eqn:Hc; [apply Nat.ltb_lt in Hc|apply Nat.ltb_ge in Hc]; cbn [string_forall].
  - rewrite !hex_digit_no_c0; [done| |].
    + apply Nat.mod_upper_bound. lia.
    + apply Nat.Div0.div_lt_upper_bound. lia.
  - apply andb_prop_intro. split; [|done]. unfold no_c0. by rewrite (proj2 (Nat.leb_le _ _)).
Qed.

Lemma print_str_no_c0 s : string_forall no_c0 (print_str s).
Proof.
  unfold print_str. simpl. assert (H : ∀ rest, string_forall no_c0 rest -> string_forall no_c0 (escape s rest)).
  { induction s as [|c s IH]; simpl; [done|]. intros rest Hr. apply escape_char_no_c0, IH, Hr. }
  by apply H.
Qed.

Lemma print_milli_no_c0 m : string_forall no_c0 (print_milli m).
Proof.
  assert (H : ∀ n : N, (n < 16)%N -> no_c0 (hex_digit (N.to_nat n)) = true)
    by (intros n Hn; apply hex_digit_no_c0; lia).
  unfold print_milli. set (a := Z.to_N (Z.abs m)). rewrite !string_forall_app. cbn [string_forall].
  rewrite !H by (try apply N.Div0.div_lt_upper_bound; (eapply N.lt_le_trans; [apply N.mod_lt; lia|]); lia).
  apply andb_prop_intro. split; [by destruct (m <? 0)|]. apply andb_prop_intro. split; [|done].
  eapply string_forall_impl; [apply digit_no_c0|apply dec_of_N_digits].
Qed.

Lemma no_c0_app a b :
  string_forall no_c0 a -> string_forall no_c0 b -> string_forall no_c0 (a +:+ b).
Proof. intros Ha Hb. rewrite string_forall_app. by apply andb_prop_intro. Qed.

Lemma print_value_no_c0 v : string_forall no_c0 (json_dumps v).
Proof.
  induction v as [|b|z|m|s|l IH|d IH] using value_nested_ind.
  - done.
  - by destruct b.
  - exact (dec_of_Z_no_c0 z).
  - exact (print_milli_no_c0 m).
  - exact (print_str_no_c0 s).
  - change (json_dumps (VList l)) with ("[" +:+ items ", " ": " l +:+ "]").
    apply no_c0_app; [done|]. apply no_c0_app; [|done].
    induction IH as [|x l Hx Hl IHl]; [done|]. destruct l as [|y l]; [exact Hx|].
    rewrite items_cons2. by repeat apply no_c0_app.
  - change (json_dumps (VDict d)) with ("{" +:+ members ", " ": " d +:+ "}").
    apply no_c0_app; [done|]. apply no_c0_app; [|done].
    induction IH as [|[k x] d Hx Hd IHd]; [done|]. pose proof (print_str_no_c0 k) as Hk.
    destruct d as [|[k2 y] d]; [simpl members|rewrite members_cons2]; by repeat apply no_c0_app.
Qed.

(** ** What an entry says *)

Lemma foldl_add_extra k l : ∀ entry,
  (∀ a, (k, a) ∈ l -> k ∈ skip) -> dict_get k (foldl add_extra entry l) = dict_get k entry.
Proof.
  induction l as [|[k' a] l IH]; intros entry Hk; [done|]. simpl foldl. rewrite IH.
  - unfold add_extra. simpl. destruct (decide (k' ∈ skip)) as [|Hn]; [done|].
    apply dict_get_set_ne. intros ->. apply Hn, (Hk a). by left.
  - intros b Hb. apply (Hk b). by right.
Qed.

Lemma foldl_add_extra_last k a l1 l2 entry :
  k ∉ skip -> (∀ b, (k, b) ∉ l2) ->
  dict_get k (foldl add_extra entry (l1 ++ (k, a) :: l2)) = Some (attribute_value a).
Proof.
  intros Hk Hl. rewrite foldl_app. simpl foldl. rewrite foldl_add_extra by (intros b Hb; by destruct (Hl b)).
  unfold add_extra at 1. simpl. rewrite decide_False by done. apply dict_get_set_eq.
Qed.

(** C27: whatever the message, the exception text and the extra fields contain, a
    log line has no byte below 0x20, so no newline and no carriage return: read line
    by line, no record can forge another.  (DEL and the C1 controls U+0080 to U+009F
    are not escaped.)  The line parses back to the record's entry, whose message,
    module and line number are always the record's own, whose timestamp, level and
    logger are unless an extra field of that name replaces them, and which has every
    extra field whose name is not one of the record's own attributes. *)
Theorem log_line_roundtrip now r :
  let entry := log_entry now r in
  string_forall no_c0 (JsonFormatter_format now r) /\
  json_loads (JsonFormatter_format now r) = Some (VDict entry) /\
  dict_get "message" entry = Some (VStr (getMessage r)) /\
  dict_get "module" entry = Some (VStr (lr_module r)) /\
  dict_get "lineno" entry = Some (VInt (lineno r)) /\
  (∀ k v, (k, v) ∈ [("timestamp", isoformat now); ("level", level_name (levelno r)); ("logger", lr_name r)] ->
     (∀ a, (k, a) ∉ lr_dict r) -> dict_get k entry = Some (VStr v)) /\
  (∀ k a l1 l2, lr_dict r = l1 ++ (k, a) :: l2 -> (∀ b, (k, b) ∉ l2) -> k ∉ skip ->
     dict_get k entry = Some (attribute_value a)).
Proof.
  intros entry. unfold entry, log_entry, JsonFormatter_format.
  assert (Hs : ∀ k, k ∈ skip -> dict_get k (foldl add_extra (base_entry now r) (lr_dict r)) = dict_get k (base_entry now r)).
  { intros k Hk. by apply foldl_add_extra. }
  assert (Hb : ∀ k v, (k, v) ∈ [("timestamp", VStr (isoformat now)); ("level", VStr (level_name (levelno r)));
      ("logger", VStr (lr_name r)); ("message", VStr (getMessage r)); ("module", VStr (lr_module r)); ("lineno", VInt (lineno r))] ->
      dict_get k (base_entry now r) = Some v).
  { intros k v Hk. rewrite !elem_of_cons, elem_of_nil in Hk. unfold base_entry.
    destruct (exception_text r); naive_solver. }
  split_and!; [apply print_value_no_c0|apply loads_json_dumps|..].
  1-3: rewrite Hs by (unfold skip; set_solver); apply Hb; set_solver.
  - intros k v Hk Hn. rewrite foldl_add_extra by (intros a Ha; by destruct (Hn a)). apply Hb. set_solver.
  - intros k a l1 l2 -> Hl Hk. by apply foldl_add_extra_last.
Qed.

(** An extra field may take the place of the level. *)
Example extra_overwrites_level :
  let r := {| levelno := 40; lr_name := "app"; getMessage := "m"; lr_module := "mod"; lineno := 7;
              exception_text := None; lr_dict := [("levelno", Serialisable (VInt 40)); ("level", Serialisable (VStr "INFO"))] |} in
  dict_get "level" (log_entry 0 r) = Some (VStr "INFO").
Proof. reflexivity. Qed.

(** DEL and the C1 control NEL (U+0085, the bytes C2 85) of a message are in the
    line as they are. *)
Example other_controls_pass :
  let nel := String (ascii_of_nat 194) (String (ascii_of_nat 133) (String (ascii_of_nat 127) "")) in
  json_dumps (VStr nel) = String (ascii_of_nat 34) nel +:+ String (ascii_of_nat 34) "".
Proof. reflexivity. Qed.
