(* ===== verification/Wiring.v ===== *)
(** * Wiring of the processes

    [src/platform/container.py], [src/api/app_runtime.py], the start-up and shutdown
    of [src/main.py] (operations API), [src/main_tasks.py] (task API) and of the control
    plane ([packages/runtime-core/.../control_plane.py], which [src/main_control.py]
    runs), the dependencies that read [app.state], and the containers of the
    [scheduler_*] packages.  An object is known by how it was built, so that what
    shares what can be read off it. *)

From stdpp Require Import base strings list sets.
From S2P Require Import Prelude PyValue Redis Tables Effects ErrorHandling Lifecycle RedisHA Connections.
From S2P Require Import Cjson Registry ScheduleRegistry DagLoader ResourceRoutes.
Import RedisFactory.

Open Scope Z_scope.

(** ** Settings ([config/settings_pydantic.py]) *)

Record settings := {
  redis_url_ : option string;
  mysql_url : option string;
  super_admin_api_key : string;
  multi_tenant_enabled : bool;
  tenant_id_header : string;
  reconcile_enabled : bool;
  reconcile_interval : Z;
  stuck_max_per_tick : Z;
  stuck_task_max_age : Z;
  reconcile_batch : Z;
  cron_enabled : bool;
  cron_poll_interval : Z
}.

(** ** Objects *)

Inductive object :=
| ORedis (c : redis_client)
| OEngine (url : string)
| OSessionFactory (engine : object)
| ODbFactory (session_factory : object)
| OCapabilityRegistry (redis : object)
| OClusterRegistry (redis : object)
| ONodeRegistry (redis : object)
| OScheduleRegistry (redis : object) (ttl : Z)
| OTenantRegistry (redis : object)
| OPackageTenantRegistry (redis : object)   (* the packages' own class *)
| ODagLoader (redis : object) (db : option object)
| OCircuitBreaker (redis : object) (prefix : string)
| OQueueManager (redis breaker : object)
| OTaskCreator (redis queue : object) (db : option object)
| OTaskCompletionNode (db : option object) (redis : object)
| OCompensationService (db : option object) (redis : object) (interval : Z)
| OTaskReconciler (redis : object) (db : option object) (queue compensation : object) (interval stuck_max max_age batch : Z)
| OCallbackDispatchService (db : object)
| OCronScheduler (redis schedules creator : object) (poll_interval : Z).

(** The Redis clients an object reaches *)
Fixpoint clients_of (o : object) : list redis_client :=
  let opt d := match d with Some x => clients_of x | None => [] end in
  match o with
  | ORedis c => [c]
  | OEngine _ => []
  | OSessionFactory e => clients_of e
  | ODbFactory f => clients_of f
  | OCapabilityRegistry r | OClusterRegistry r | ONodeRegistry r | OScheduleRegistry r _ | OTenantRegistry r | OPackageTenantRegistry r
  | OCircuitBreaker r _ => clients_of r
  | ODagLoader r db => clients_of r ++ opt db
  | OQueueManager r b => clients_of r ++ clients_of b
  | OTaskCreator r q db => clients_of r ++ clients_of q ++ opt db
  | OTaskCompletionNode db r | OCompensationService db r _ => opt db ++ clients_of r
  | OTaskReconciler r db q c _ _ _ _ => clients_of r ++ opt db ++ clients_of q ++ clients_of c
  | OCallbackDispatchService db => clients_of db
  | OCronScheduler r s c _ => clients_of r ++ clients_of s ++ clients_of c
  end.

Record ServiceContainer := {
  redis_client_ : option object;
  async_engine : option object;
  async_session_factory : option object;
  capability_registry : option object;
  cluster_registry : option object;
  node_registry_ : option object;
  schedule_registry : option object;
  tenant_registry : option object;
  circuit_breaker : option object;
  dag_loader_ : option object;
  queue_manager : option object;
  task_creator : option object;
  task_reconciler : option object;
  task_completion_node : option object;
  cron_scheduler : option object;
  compensation_service : option object;
  callback_dispatcher : option object;
  lifecycle_manager : LifecycleManager
}.

Definition new_container : ServiceContainer :=
  {| redis_client_ := None; async_engine := None; async_session_factory := None; capability_registry := None;
     cluster_registry := None; node_registry_ := None; schedule_registry := None; tenant_registry := None;
     circuit_breaker := None; dag_loader_ := None; queue_manager := None; task_creator := None;
     task_reconciler := None; task_completion_node := None; cron_scheduler := None; compensation_service := None;
     callback_dispatcher := None; lifecycle_manager := LifecycleManager_init |}.

Section Build.
(** The environment, and what the constructors of the redis package and of
    SQLAlchemy do. *)
Context (getenv : string -> option string) (build : target -> exn + unit) (ping : exn + unit) (t0 : Z).
Context (create_async_engine : string -> list (string * value) -> exn + unit).

Definition init_redis_client (s : settings) : exn + object :=
  match create_redis_client getenv build ping (redis_url_ s) "127.0.0.1" 6379 "" 0 true t0 with
  | inr c => inr (ORedis c)
  | inl e => inl e
  end.

(** Engine, session factory and the factory of sessions the services get *)
Definition init_async_db (s : settings) : exn + option (object * object * object) :=
  match mysql_url s with
  | None => inr None
  | Some url =>
      match AsyncDb.init_async_engine create_async_engine url [] with
      | inl e => inl e
      | inr (u, _) =>
          let e := OEngine u in
          inr (Some (e, OSessionFactory e, ODbFactory (OSessionFactory e)))
      end
  end.

Definition QUEUE_CB_PREFIX : string := "queue:cb".
Definition init_circuit_breaker (r : object) : object := OCircuitBreaker r QUEUE_CB_PREFIX.
Definition init_queue_manager (r : object) : object := OQueueManager r (init_circuit_breaker r).
Definition SCHEDULE_TTL : Z := 31536000.
Definition init_schedule_registry (r : object) : object := OScheduleRegistry r SCHEDULE_TTL.
Definition init_task_creator (r : object) (db : option object) : object := OTaskCreator r (init_queue_manager r) db.
Definition init_task_completion_node (r : object) (db : option object) : object := OTaskCompletionNode db r.

Definition build_task_api (s : settings) : exn + ServiceContainer :=
  match init_redis_client s with
  | inl e => inl e
  | inr r =>
      match init_async_db s with
      | inl e => inl e
      | inr db =>
          let engine := (λ d, d.1.1) <$> db in
          let factory := (λ d, d.1.2) <$> db in
          let db_factory := snd <$> db in
          inr {| redis_client_ := Some r; async_engine := engine; async_session_factory := factory;
                 capability_registry := None; cluster_registry := None; node_registry_ := None;
                 schedule_registry := Some (init_schedule_registry r); tenant_registry := Some (OTenantRegistry r);
                 circuit_breaker := Some (init_circuit_breaker r); dag_loader_ := None;
                 queue_manager := Some (init_queue_manager r); task_creator := Some (init_task_creator r db_factory);
                 task_reconciler := None; task_completion_node := Some (init_task_completion_node r db_factory);
                 cron_scheduler := None; compensation_service := None; callback_dispatcher := None;
                 lifecycle_manager := LifecycleManager_init |}
      end
  end.

(** [getattr(settings.background, "compensation_interval", 60)]: the settings have
    no such field. *)
Definition COMPENSATION_INTERVAL : Z := 60.

Definition build_control_plane (s : settings) : exn + ServiceContainer :=
  match init_redis_client s with
  | inl e => inl e
  | inr r =>
      match init_async_db s with
      | inl e => inl e
      | inr db =>
          let db_factory := snd <$> db in
          let compensation := OCompensationService db_factory r COMPENSATION_INTERVAL in
          let creator := init_task_creator r db_factory in
          inr {| redis_client_ := Some r; async_engine := (λ d, d.1.1) <$> db;
                 async_session_factory := (λ d, d.1.2) <$> db;
                 capability_registry := None; cluster_registry := None; node_registry_ := None;
                 schedule_registry := Some (init_schedule_registry r); tenant_registry := None;
                 circuit_breaker := Some (init_circuit_breaker r); dag_loader_ := None;
                 queue_manager := Some (init_queue_manager r); task_creator := Some creator;
                 task_reconciler := Some (OTaskReconciler r db_factory (init_queue_manager r) compensation
                   (reconcile_interval s) (stuck_max_per_tick s) (stuck_task_max_age s) (reconcile_batch s));
                 task_completion_node := Some (init_task_completion_node r db_factory);
                 cron_scheduler := Some (OCronScheduler r (init_schedule_registry r) creator (cron_poll_interval s));
                 compensation_service := Some compensation;
                 callback_dispatcher := OCallbackDispatchService <$> db_factory;
                 lifecycle_manager := LifecycleManager_init |}
      end
  end.

Definition build_ops_api (s : settings) : exn + ServiceContainer :=
  match init_redis_client s with
  | inl e => inl e
  | inr r =>
      inr {| redis_client_ := Some r; async_engine := None; async_session_factory := None;
             capability_registry := Some (OCapabilityRegistry r); cluster_registry := Some (OClusterRegistry r);
             node_registry_ := Some (ONodeRegistry r); schedule_registry := Some (init_schedule_registry r);
             tenant_registry := Some (OTenantRegistry r); circuit_breaker := Some (init_circuit_breaker r);
             dag_loader_ := Some (ODagLoader r None); queue_manager := Some (init_queue_manager r);
             task_creator := None; task_reconciler := None; task_completion_node := None; cron_scheduler := None;
             compensation_service := None; callback_dispatcher := None; lifecycle_manager := LifecycleManager_init |}
  end.
End Build.

(** [getattr(container, name, None)] *)
Definition container_attr (name : string) (c : ServiceContainer) : option object :=
  default None (dict_get name
    [("redis_client", redis_client_ c); ("async_engine", async_engine c);
     ("async_session_factory", async_session_factory c); ("capability_registry", capability_registry c);
     ("cluster_registry", cluster_registry c); ("node_registry", node_registry_ c);
     ("schedule_registry", schedule_registry c); ("tenant_registry", tenant_registry c);
     ("circuit_breaker", circuit_breaker c); ("dag_loader", dag_loader_ c); ("queue_manager", queue_manager c);
     ("task_creator", task_creator c); ("task_reconciler", task_reconciler c);
     ("task_completion_node", task_completion_node c); ("cron_scheduler", cron_scheduler c);
     ("compensation_service", compensation_service c); ("callback_dispatcher", callback_dispatcher c)]).

(** ** Closing a container, and the process-wide one *)

Inductive closing := StopCallbackDispatcher | StopCompensationService | CloseRedis.

(** [self.callback_dispatcher = None] and the like *)
Definition forget (ev : closing) (c : ServiceContainer) : ServiceContainer :=
  {| redis_client_ := match ev with CloseRedis => None | _ => redis_client_ c end;
     async_engine := async_engine c; async_session_factory := async_session_factory c;
     capability_registry := capability_registry c; cluster_registry := cluster_registry c;
     node_registry_ := node_registry_ c; schedule_registry := schedule_registry c; tenant_registry := tenant_registry c;
     circuit_breaker := circuit_breaker c; dag_loader_ := dag_loader_ c; queue_manager := queue_manager c;
     task_creator := task_creator c; task_reconciler := task_reconciler c;
     task_completion_node := task_completion_node c; cron_scheduler := cron_scheduler c;
     compensation_service := match ev with StopCompensationService => None | _ => compensation_service c end;
     callback_dispatcher := match ev with StopCallbackDispatcher => None | _ => callback_dispatcher c end;
     lifecycle_manager := lifecycle_manager c |}.

(** [close]; the outcomes are those of the three awaited calls. *)
Definition close_container (stop_callbacks stop_compensation close_redis : exn + unit) (c : ServiceContainer) :
    list closing * ServiceContainer * (exn + unit) :=
  let stage (present : option object) (ev : closing) (r : exn + unit)
      (x : list closing * ServiceContainer * (exn + unit)) :=
    match x, present with
    | (t, c, inr _), Some _ => match r with inr _ => (t ++ [ev], forget ev c, inr tt) | inl e => (t ++ [ev], c, inl e) end
    | _, _ => x
    end in
  stage (redis_client_ c) CloseRedis close_redis
    (stage (compensation_service c) StopCompensationService stop_compensation
       (stage (callback_dispatcher c) StopCallbackDispatcher stop_callbacks ([], c, inr tt))).

Definition get_container (global : option ServiceContainer) : exn + ServiceContainer :=
  match global with
  | Some c => inr c
  | None => inl (Exn RuntimeError "ServiceContainer is not initialised. Ensure the FastAPI lifespan has started.")
  end.

(** ** Applications *)

Definition state_attrs := list (string * option object).

Record app := {
  app_state_ : state_attrs;              (* [app.state], the mounted services *)
  auth_settings : option (list (string * value));
  container : ServiceContainer;
  http_pool : HttpClient.state
}.

Definition mount_container_state (c : ServiceContainer) (names : list string) (st : state_attrs) : state_attrs :=
  foldl (λ st n, dict_set n (container_attr n c) st) st names.

(** [getattr(app.state, name, None)] *)
Definition state_attr (name : string) (st : state_attrs) : option object := default None (dict_get name st).

Definition cache_auth_settings (s : settings) : list (string * value) :=
  [("super_admin_key", VStr (super_admin_api_key s)); ("multi_tenant_enabled", VBool (multi_tenant_enabled s));
   ("tenant_id_header", VStr (tenant_id_header s))].

Definition OPS_NAMES : list string :=
  ["redis_client"; "capability_registry"; "cluster_registry"; "node_registry"; "schedule_registry";
   "tenant_registry"; "dag_loader"; "queue_manager"].

Definition TASK_NAMES : list string :=
  ["redis_client"; "tenant_registry"; "schedule_registry"; "queue_manager"; "task_creator";
   "task_completion_node"; "async_engine"; "async_session_factory"].

Section Lifespan.
Context (getenv : string -> option string) (build : target -> exn + unit) (ping : exn + unit) (t0 : Z).
Context (create_async_engine : string -> list (string * value) -> exn + unit).

(** The start-up of [main.py] up to its [yield]; no resource is registered, so that
    starting the lifecycle awaits nothing. *)
Definition ops_startup (s : settings) (http : HttpClient.state) : exn + app :=
  let http := HttpClient.init_http_client true http in
  match build_ops_api getenv build ping t0 s with
  | inl e => inl e
  | inr c =>
      inr {| app_state_ := dict_set "redis" (redis_client_ c) (mount_container_state c OPS_NAMES []);
             auth_settings := None; container := c; http_pool := http |}
  end.

(** [raise BusinessError(text, error_code=...)]: the class is an [Exception] without
    an initialiser of its own, which takes no keyword arguments. *)
Definition CONFIG_MYSQL_MISSING : exn :=
  Exn TypeError "BusinessError() takes no keyword arguments".

(** The start-up of [main_tasks.py] *)
Definition task_startup (s : settings) (http : HttpClient.state) : exn + app :=
  match mysql_url s with
  | None => inl CONFIG_MYSQL_MISSING
  | Some _ =>
      let http := HttpClient.init_http_client true http in
      match build_task_api getenv build ping t0 create_async_engine s with
      | inl e => inl e
      | inr c =>
          inr {| app_state_ := dict_set "redis" (redis_client_ c) (mount_container_state c TASK_NAMES []);
                 auth_settings := Some (cache_auth_settings s); container := c; http_pool := http |}
      end
  end.

(** The control plane registers the services its container has; the endings are
    those of their [stop] calls and of the cron loop. *)
Definition control_plane_resources (s1 s2 s3 s4 : ending) (cron_loop : option exn) (s : settings) (c : ServiceContainer) :
    LifecycleManager * list string :=
  register_control_plane_resources (reconcile_enabled s) (cron_enabled s)
    ((λ _, TaskReconcilerResource s1) <$> task_reconciler c)
    ((λ _, CronSchedulerResource cron_loop s2) <$> cron_scheduler c)
    ((λ _, CompensationServiceResource s3) <$> compensation_service c)
    ((λ _, CallbackDispatcherResource s4) <$> callback_dispatcher c)
    (lifecycle_manager c).

Definition control_startup (s1 s2 s3 s4 : ending) (cron_loop : option exn) (s : settings) :
    exn + (list event * flow * LifecycleManager) :=
  match build_control_plane getenv build ping t0 create_async_engine s with
  | inl e => inl e
  | inr c => inr (start_all (control_plane_resources s1 s2 s3 s4 cron_loop s c).1)
  end.
End Lifespan.

(** What a shutdown does after its [yield] *)
Inductive shutdown_action := StopLifecycle | DisposeEngine | CloseHttpClient | ShutdownTracing.

Definition task_shutdown (a : app) : list shutdown_action :=
  [StopLifecycle] ++ (if state_attr "async_engine" (app_state_ a) then [DisposeEngine] else []) ++
  [CloseHttpClient; ShutdownTracing].

(** ** Dependencies of the routes *)

(** [ops_shared.get_db_factory], [ops_shared.get_redis] *)
Definition get_db_factory (st : state_attrs) : exn + object :=
  match state_attr "async_session_factory" st with
  | Some f => inr f
  | None => inl (HTTPException 503 "DB session factory not initialised")
  end.

Definition get_redis (st : state_attrs) : exn + object :=
  match state_attr "redis" st with
  | Some r => inr r
  | None => inl (HTTPException 503 "Redis not initialised")
  end.

(** [api/dependencies.get_db_session] up to its [yield] *)
Definition get_db_session (st : state_attrs) : exn + object :=
  match state_attr "async_session_factory" st with
  | Some f => inr (ODbFactory f)
  | None => inl (Exn RuntimeError
      "Database not configured. Ensure async_session_factory is set in app.state during lifespan startup.")
  end.

Definition is_present (name : string) (st : state_attrs) : bool :=
  match state_attr name st with Some _ => true | None => false end.

(** What the resource routes see of the state *)
Definition routes_state (st : state_attrs) : app_state :=
  {| st_capabilities := is_present "capability_registry" st;
     st_clusters := is_present "cluster_registry" st;
     st_nodes := is_present "node_registry" st;
     st_schedules := match state_attr "schedule_registry" st with
                     | Some (OScheduleRegistry _ ttl) => Some (ScheduleRegistry_init ttl)
                     | _ => None
                     end;
     st_dags := match state_attr "dag_loader" st with
                | Some (ODagLoader _ db) =>
                    Some {| ld_redis := true; ld_db := match db with Some _ => true | None => false end |}
                | _ => None
                end;
     st_redis := is_present "redis" st |}.

(** ** What is built *)

Section Built.
Context (getenv : string -> option string) (build : target -> exn + unit) (ping : exn + unit) (t0 : Z).
Context (create_async_engine : string -> list (string * value) -> exn + unit).

(** Connecting either works or raises an [Exception]. *)
Definition settled_redis : Prop :=
  (∀ t e, build t = inl e -> is_exception e = true) /\ (∀ e, ping = inl e -> is_exception e = true).

Lemma init_redis_always s :
  settled_redis -> exists t st, init_redis_client getenv build ping t0 s = inr (ORedis (HA t st)).
Proof.
  intros [Hb Hp]. unfold init_redis_client.
  destruct (ha_client_always getenv build ping (redis_url_ s) "127.0.0.1" 6379 "" 0 t0 Hb Hp) as (st & E & _).
  rewrite E. by do 2 eexists.
Qed.

(** It counts as connected when it could be made and answered its first ping. *)
Lemma init_redis_connected s t st :
  settled_redis -> init_redis_client getenv build ping t0 s = inr (ORedis (HA t st)) ->
  is_connected st = true <-> ping = inr tt /\ build t = inr tt.
Proof.
  intros [Hb Hp]. unfold init_redis_client.
  destruct (ha_client_always getenv build ping (redis_url_ s) "127.0.0.1" 6379 "" 0 t0 Hb Hp) as (st' & -> & Hc).
  intros [= <- <-]. rewrite Hc. split; [intros [? [[] ?]]|intros [? ?]]; eauto.
Qed.

(** The client is the HA wrapper whenever there is one. *)
Lemma init_redis_ha s r :
  init_redis_client getenv build ping t0 s = inr r -> exists t st, r = ORedis (HA t st).
Proof.
  unfold init_redis_client, create_redis_client. simpl negb. cbv iota. destruct (start _ _ _ _) as [st [e|[]]].
  - destruct (is_exception e && _); intros [= <-]. by do 2 eexists.
  - intros [= <-]. by do 2 eexists.
Qed.

Definition builders : list (settings -> exn + ServiceContainer) :=
  [build_task_api getenv build ping t0 create_async_engine;
   build_control_plane getenv build ping t0 create_async_engine;
   build_ops_api getenv build ping t0].

(** The fields a name can stand for *)
Definition fields (c : ServiceContainer) : list (option object) :=
  [redis_client_ c; async_engine c; async_session_factory c; capability_registry c; cluster_registry c;
   node_registry_ c; schedule_registry c; tenant_registry c; circuit_breaker c; dag_loader_ c; queue_manager c;
   task_creator c; task_reconciler c; task_completion_node c; cron_scheduler c; compensation_service c;
   callback_dispatcher c].

Lemma dict_get_value {A} k (d : list (string * A)) v : dict_get k d = Some v -> v ∈ d.*2.
Proof.
  induction d as [|[k' w] d IH]; simpl; [done|]. destruct (dict_get k d) as [x|].
  - intros [= <-]. right. auto.
  - destruct (decide _); [intros [= <-]; by left|done].
Qed.

Lemma container_attr_field name c o : container_attr name c = Some o -> Some o ∈ fields c.
Proof.
  unfold container_attr. destruct (dict_get _ _) as [f|] eqn:E; simpl; [|done]. intros ->.
  by apply dict_get_value in E.
Qed.

(** The database objects reach no Redis client. *)
Lemma db_clients s db x :
  init_async_db create_async_engine s = inr db -> db = Some x ->
  clients_of x.1.1 = [] /\ clients_of x.1.2 = [] /\ clients_of x.2 = [].
Proof.
  unfold init_async_db. destruct (mysql_url s) as [u|]; [|by intros [= <-]].
  destruct (AsyncDb.init_async_engine _ _ _) as [e|[u' o]]; [done|]. by intros [= <-] [= <-].
Qed.

Lemma built_clients b s c :
  b ∈ builders -> b s = inr c ->
  exists t st, redis_client_ c = Some (ORedis (HA t st)) /\
    init_redis_client getenv build ping t0 s = inr (ORedis (HA t st)) /\
    ∀ o, Some o ∈ fields c -> Forall (λ r, r = HA t st) (clients_of o).
Proof.
  unfold builders. rewrite !elem_of_cons, elem_of_nil. intros Hb Hs.
  destruct (init_redis_client getenv build ping t0 s) as [e|r] eqn:Er.
  { destruct Hb as [-> |[-> |[-> |[]]]]; [unfold build_task_api in Hs|unfold build_control_plane in Hs|
      unfold build_ops_api in Hs]; by rewrite Er in Hs. }
  destruct (init_redis_ha s r Er) as (t & st & ->). exists t, st.
  destruct Hb as [-> |[-> |[-> |[]]]];
    [unfold build_task_api in Hs|unfold build_control_plane in Hs|unfold build_ops_api in Hs]; rewrite Er in Hs.
  3: { injection Hs as <-. split; [done|]. split; [done|]. intros o. unfold fields. rewrite !elem_of_cons, elem_of_nil. simpl. intros Hf.
       repeat (destruct Hf as [Hf|Hf]; [simplify_eq; simpl; by repeat constructor|]). done. }
  all: destruct (init_async_db create_async_engine s) as [e|db] eqn:Ed; [done|]; pose proof (db_clients s db) as Hdb;
    injection Hs as <-; (split; [done|]); (split; [done|]); intros o; unfold fields; rewrite !elem_of_cons, elem_of_nil; intros Hf;
    (destruct db as [x|]; [destruct (Hdb x Ed eq_refl) as (H1 & H2 & H3)|]); simpl in Hf;
    repeat (destruct Hf as [Hf|Hf];
      [simplify_eq; simpl; rewrite ?H1, ?H2, ?H3; simpl; by repeat constructor|]); done.
Qed.

(** Building a process fails only where its database engine cannot be made. *)
Lemma build_fails b s e :
  settled_redis -> b ∈ builders -> b s = inl e ->
  exists url, mysql_url s = Some url /\ AsyncDb.init_async_engine create_async_engine url [] = inl e.
Proof.
  intros Hr Hb. destruct (init_redis_always s Hr) as (t & st & E).
  assert (Hd : ∀ e', init_async_db create_async_engine s = inl e' ->
    exists url, mysql_url s = Some url /\ AsyncDb.init_async_engine create_async_engine url [] = inl e').
  { intros e'. unfold init_async_db. destruct (mysql_url s) as [url|]; [|done].
    destruct (AsyncDb.init_async_engine _ _ _) as [e1|[u o]] eqn:Ee; [|done]. intros [= <-]. eauto. }
  unfold builders in Hb. rewrite !elem_of_cons, elem_of_nil in Hb. destruct Hb as [-> |[-> |[-> |[]]]];
    [unfold build_task_api|unfold build_control_plane|unfold build_ops_api]; rewrite E; [..|done];
    (destruct (init_async_db create_async_engine s) as [e'|db] eqn:Ed; [|done]); intros [= <-]; by apply Hd.
Qed.

End Built.

Definition example_settings (mysql : option string) (cron : bool) : settings :=
  {| redis_url_ := Some "redis://r:6379/0"; mysql_url := mysql; super_admin_api_key := "root";
     multi_tenant_enabled := true; tenant_id_header := "X-Tenant-Id"; reconcile_enabled := true;
     reconcile_interval := 60; stuck_max_per_tick := 20; stuck_task_max_age := 300; reconcile_batch := 100;
     cron_enabled := cron; cron_poll_interval := 60 |}.

(** ** The three processes *)

Section Processes.
Context (getenv : string -> option string) (build : target -> exn + unit) (ping : exn + unit) (t0 : Z).
Context (create_async_engine : string -> list (string * value) -> exn + unit).

(** The operations API starts whether or not Redis answers; every resource
    route finds its registry, so that none of them is refused for a missing service;
    but no session factory is ever mounted, so that each operator route that depends
    on the database (replay, force, dead letters, dashboard) answers 503 before its
    handler runs. *)
Theorem ops_api_wiring s http :
  settled_redis build ping ->
  exists a, ops_startup getenv build ping t0 s http = inr a /\
    routes_state (app_state_ a) =
      {| st_capabilities := true; st_clusters := true; st_nodes := true;
         st_schedules := Some (ScheduleRegistry_init 31536000);
         st_dags := Some {| ld_redis := true; ld_db := false |}; st_redis := true |} /\
    get_db_factory (app_state_ a) = inl (HTTPException 503 "DB session factory not initialised") /\
    (exists r, get_redis (app_state_ a) = inr r /\ redis_client_ (container a) = Some r) /\
    start_all (lifecycle_manager (container a)) = ([], Done, {| resources := []; started := true; stopping := false |}).
Proof.
  intros Hr. destruct (init_redis_always getenv build ping t0 s Hr) as (t & st & E).
  unfold ops_startup, build_ops_api. rewrite E. eexists. split; [done|]. split_and!; [done|done| |done].
  by eexists.
Qed.

(** The task API needs MySQL; without it start-up fails at once (with the
    TypeError of its own exception's constructor).  With it, and an engine factory
    that takes the URL, the creator writes through the sessions of that engine and
    through the queue manager that is mounted, sessions are found by the task routes,
    and authentication reads the settings. *)
Theorem task_api_wiring s http :
  settled_redis build ping ->
  match mysql_url s with
  | None => task_startup getenv build ping t0 create_async_engine s http = inl CONFIG_MYSQL_MISSING
  | Some url =>
      match AsyncDb.init_async_engine create_async_engine url [] with
      | inl e => task_startup getenv build ping t0 create_async_engine s http = inl e
      | inr (u, _) =>
          exists a r, task_startup getenv build ping t0 create_async_engine s http = inr a /\
            let st := app_state_ a in
            let db := ODbFactory (OSessionFactory (OEngine u)) in
            get_db_session st = inr db /\
            state_attr "queue_manager" st = Some (init_queue_manager r) /\
            state_attr "task_creator" st = Some (OTaskCreator r (init_queue_manager r) (Some db)) /\
            state_attr "task_completion_node" st = Some (OTaskCompletionNode (Some db) r) /\
            state_attr "redis" st = Some r /\
            auth_settings a = Some (cache_auth_settings s) /\
            task_shutdown a = [StopLifecycle; DisposeEngine; CloseHttpClient; ShutdownTracing]
      end
  end.
Proof.
  intros Hr. destruct (init_redis_always getenv build ping t0 s Hr) as (t & st & E).
  unfold task_startup, build_task_api, init_async_db. rewrite E. destruct (mysql_url s) as [url|]; [|done].
  destruct (AsyncDb.init_async_engine create_async_engine url []) as [e|[u o]]; [done|].
  eexists _, _. split; [done|]. by split_and!.
Qed.

(** Which background services the control plane starts.  With the cron
    scheduler off, they are the reconciler (where enabled), the compensation service
    and, only with MySQL, the callback dispatcher, and start-up ends.  With it on,
    start-up waits in the cron loop for ever: neither the compensation service nor
    the dispatcher starts. *)
Theorem control_plane_wiring s1 s2 s3 s4 s :
  settled_redis build ping ->
  (∀ url, mysql_url s = Some url -> exists u, AsyncDb.init_async_engine create_async_engine url [] = inr u) ->
  exists trace fl m,
    control_startup getenv build ping t0 create_async_engine s1 s2 s3 s4 None s = inr (trace, fl, m) /\
    trace = (if reconcile_enabled s then [EStart "TaskReconciler"] else []) ++
            (if cron_enabled s then [EStart "CronScheduler"]
             else EStart "CompensationService" :: (if mysql_url s then [EStart "CallbackDispatcher"] else [])) /\
    fl = (if cron_enabled s then Waiting else Done) /\ started m = negb (cron_enabled s).
Proof.
  intros Hr Hd. destruct (init_redis_always getenv build ping t0 s Hr) as (t & st & E).
  unfold control_startup, build_control_plane, init_async_db. rewrite E.
  destruct (mysql_url s) as [url|]; [destruct (Hd url eq_refl) as [[u o] ->]|];
    unfold control_plane_resources; destruct (reconcile_enabled s), (cron_enabled s);
    do 3 eexists; (split; [simpl; reflexivity|]); by vm_compute.
Qed.

(** C26: the three processes (task API, control plane, operations API) build and
    start whether or not Redis can be reached, as long as connecting to it works or
    raises an [Exception]; building fails only where a MySQL URL is set and the
    engine for it cannot be made, with that error.  A built container has one Redis
    client, the HA wrapper, connected when it could be made and answered its ping,
    and every service of the container uses that one.  The control plane then starts
    the reconciler where enabled, the compensation service and, with MySQL, the
    callback dispatcher, in this order; but with the cron scheduler enabled and a
    cron loop in which no call raises, start-up stays in that loop after the
    reconciler and never reaches the other two. *)
Theorem processes_wired s1 s2 s3 s4 s :
  settled_redis build ping ->
  (∀ b, b ∈ builders getenv build ping t0 create_async_engine ->
     match b s with
     | inl e => exists url, mysql_url s = Some url /\ AsyncDb.init_async_engine create_async_engine url [] = inl e
     | inr c =>
         exists t st, redis_client_ c = Some (ORedis (HA t st)) /\
           (is_connected st = true <-> ping = inr tt /\ build t = inr tt) /\
           ∀ name o r, container_attr name c = Some o -> r ∈ clients_of o -> r = HA t st
     end) /\
  match control_startup getenv build ping t0 create_async_engine s1 s2 s3 s4 None s with
  | inl e => exists url, mysql_url s = Some url /\ AsyncDb.init_async_engine create_async_engine url [] = inl e
  | inr (trace, fl, m) =>
      trace = (if reconcile_enabled s then [EStart "TaskReconciler"] else []) ++
              (if cron_enabled s then [EStart "CronScheduler"]
               else EStart "CompensationService" :: (if mysql_url s then [EStart "CallbackDispatcher"] else [])) /\
      fl = (if cron_enabled s then Waiting else Done) /\ started m = negb (cron_enabled s)
  end.
Proof.
  intros Hr. split.
  - intros b Hb. destruct (b s) as [e|c] eqn:Es.
    + by eapply build_fails.
    + destruct (built_clients _ _ _ _ _ b s c Hb Es) as (t & st & Hc & Hi & Hall). exists t, st.
      split; [done|]. split; [by eapply init_redis_connected|].
      intros name o r Hn Hin. specialize (Hall o (container_attr_field _ _ _ Hn)).
      rewrite Forall_forall in Hall. by apply Hall.
  - destruct (build_control_plane getenv build ping t0 create_async_engine s) as [e|c] eqn:Es.
    + unfold control_startup. rewrite Es. eapply build_fails; [done| |exact Es]. by right; left.
    + destruct (control_plane_wiring s1 s2 s3 s4 s Hr) as (trace & fl & m & -> & ?); [|done].
      intros url Hu. destruct (AsyncDb.init_async_engine create_async_engine url []) as [e|u] eqn:Ee; [|by eexists].
      exfalso. revert Es. unfold build_control_plane, init_async_db. rewrite Hu, Ee.
      by destruct (init_redis_client _ _ _ _ _).
Qed.
End Processes.

(** With Redis refusing connections and no MySQL *)
Lemma processes_wired_witness :
  let down := inl (Exn ConnectionError "refused") : exn + unit in
  exists c t st, build_ops_api (λ _, None) (λ _, inr tt) down 0 (example_settings None false) = inr c /\
    redis_client_ c = Some (ORedis (HA t st)) /\ is_connected st = false /\
    ∀ name o r, container_attr name c = Some o -> r ∈ clients_of o -> r = HA t st.
Proof.
  intros down.
  destruct (processes_wired (λ _, None) (λ _, inr tt) down 0 (λ _ _, inr tt) Returns Returns Returns Returns
    (example_settings None false)) as [H _]; [split; [done|by intros e [= <-]]|].
  specialize (H (build_ops_api (λ _, None) (λ _, inr tt) down 0) ltac:(by right; right; left)).
  destruct (build_ops_api (λ _, None) (λ _, inr tt) down 0 (example_settings None false)) as [e|c];
    [by destruct H as (url & ? & _)|].
  destruct H as (t & st & Hc & Hi & Hall). exists c, t, st. split; [done|]. split; [done|]. split; [|done].
  destruct (is_connected st); [|done]. by destruct (proj1 Hi eq_refl).
Defined.

Lemma ops_api_wiring_witness :
  exists a, ops_startup (λ _, None) (λ _, inr tt) (inl (Exn ConnectionError "refused")) 0
              (example_settings (Some "mysql+aiomysql://root@db/s") false) HttpClient.initial = inr a /\
    get_db_factory (app_state_ a) = inl (HTTPException 503 "DB session factory not initialised").
Proof.
  destruct (ops_api_wiring (λ _, None) (λ _, inr tt) (inl (Exn ConnectionError "refused")) 0
    (example_settings (Some "mysql+aiomysql://root@db/s") false) HttpClient.initial) as (a & Ha & _ & Hd & _).
  - split; [done|]. by intros e [= <-].
  - by exists a.
Defined.

Lemma task_api_wiring_witness :
  let s := example_settings (Some "mysql+aiomysql://root@db/s") false in
  exists a, task_startup (λ _, None) (λ _, inr tt) (inr tt) 0 (λ _ _, inr tt) s HttpClient.initial = inr a /\
    get_db_session (app_state_ a) = inr (ODbFactory (OSessionFactory (OEngine "mysql+aiomysql://root@db/s"))).
Proof.
  intros s. pose proof (task_api_wiring (λ _, None) (λ _, inr tt) (inr tt) 0 (λ _ _, inr tt) s HttpClient.initial) as H.
  destruct H as (a & r & Ha & Hs & _); [by split|]. by exists a.
Defined.

Lemma control_plane_wiring_witness :
  exists trace m, control_startup (λ _, None) (λ _, inr tt) (inr tt) 0 (λ _ _, inr tt) Returns Returns Returns Returns None
      (example_settings (Some "mysql+aiomysql://root@db/s") true) = inr (trace, Waiting, m) /\
    trace = [EStart "TaskReconciler"; EStart "CronScheduler"].
Proof.
  destruct (control_plane_wiring (λ _, None) (λ _, inr tt) (inr tt) 0 (λ _ _, inr tt) Returns Returns Returns Returns
    (example_settings (Some "mysql+aiomysql://root@db/s") true)) as (trace & fl & m & Hs & Ht & Hf & _).
  - by split.
  - intros url [= <-]. by eexists.
  - simpl in Ht, Hf. subst. by exists [EStart "TaskReconciler"; EStart "CronScheduler"], m.
Defined.

(** ** Closing *)

(** A container that was closed without an error has nothing left to close; it
    never stops the reconciler or the cron scheduler. *)
Theorem close_once r1 r2 r3 r4 r5 r6 c :
  let '(t, c', r) := close_container r1 r2 r3 c in
  r = inr tt ->
  close_container r4 r5 r6 c' = ([], c', inr tt) /\
  task_reconciler c' = task_reconciler c /\ cron_scheduler c' = cron_scheduler c /\
  (CloseRedis ∈ t <-> redis_client_ c <> None).
Proof.
  unfold close_container.
  destruct c as [red eng fac cap clu nod sch ten cb dag qm cr rec tcn cron comp disp lm]. simpl.
  destruct disp, comp, red; destruct r1 as [e1|[]], r2 as [e2|[]], r3 as [e3|[]]; simpl; try done;
    intros _; split_and!; try done; rewrite ?elem_of_cons, ?elem_of_nil; naive_solver.
Qed.

(** ** The packaged processes *)

(** The containers of the [scheduler_*] packages have the attributes they use, and
    take some classes from the package. *)
Module Packages.

Record TaskApiContainer := {
  ta_redis : object; ta_engine : option object; ta_factory : option object; ta_tenants : object;
  ta_schedules : object; ta_breaker : object; ta_queue : object; ta_creator : object; ta_completion : object;
  ta_lifecycle : LifecycleManager
}.

Record OpsApiContainer := {
  oa_redis : object; oa_capabilities : object; oa_clusters : object; oa_nodes : object; oa_schedules : object;
  oa_tenants : object; oa_dags : object; oa_breaker : object; oa_queue : object; oa_lifecycle : LifecycleManager
}.

Section Build.
Context (getenv : string -> option string) (build : target -> exn + unit) (ping : exn + unit) (t0 : Z).
Context (create_async_engine : string -> list (string * value) -> exn + unit).

Definition task_api_build_container (s : settings) : exn + TaskApiContainer :=
  match init_redis_client getenv build ping t0 s with
  | inl e => inl e
  | inr r =>
      match init_async_db create_async_engine s with
      | inl e => inl e
      | inr db =>
          inr {| ta_redis := r; ta_engine := (λ d, d.1.1) <$> db; ta_factory := (λ d, d.1.2) <$> db;
                 ta_tenants := OPackageTenantRegistry r; ta_schedules := init_schedule_registry r;
                 ta_breaker := init_circuit_breaker r; ta_queue := init_queue_manager r;
                 ta_creator := init_task_creator r (snd <$> db);
                 ta_completion := init_task_completion_node r (snd <$> db); ta_lifecycle := LifecycleManager_init |}
      end
  end.

Definition ops_api_build_container (s : settings) : exn + OpsApiContainer :=
  match init_redis_client getenv build ping t0 s with
  | inl e => inl e
  | inr r =>
      inr {| oa_redis := r; oa_capabilities := OCapabilityRegistry r; oa_clusters := OClusterRegistry r;
             oa_nodes := ONodeRegistry r; oa_schedules := init_schedule_registry r;
             oa_tenants := OPackageTenantRegistry r; oa_dags := ODagLoader r None;
             oa_breaker := init_circuit_breaker r; oa_queue := init_queue_manager r;
             oa_lifecycle := LifecycleManager_init |}
  end.

(** The control plane's has a tenant registry besides. *)
Definition control_plane_build_container (s : settings) : exn + ServiceContainer :=
  match build_control_plane getenv build ping t0 create_async_engine s with
  | inl e => inl e
  | inr c =>
      inr {| redis_client_ := redis_client_ c; async_engine := async_engine c;
             async_session_factory := async_session_factory c; capability_registry := capability_registry c;
             cluster_registry := cluster_registry c; node_registry_ := node_registry_ c;
             schedule_registry := schedule_registry c; tenant_registry := OTenantRegistry <$> redis_client_ c;
             circuit_breaker := circuit_breaker c; dag_loader_ := dag_loader_ c; queue_manager := queue_manager c;
             task_creator := task_creator c; task_reconciler := task_reconciler c;
             task_completion_node := task_completion_node c; cron_scheduler := cron_scheduler c;
             compensation_service := compensation_service c; callback_dispatcher := callback_dispatcher c;
             lifecycle_manager := lifecycle_manager c |}
  end.
End Build.

Definition task_api_attr (name : string) (c : TaskApiContainer) : option object :=
  default None (dict_get name
    [("redis_client", Some (ta_redis c)); ("async_engine", ta_engine c); ("async_session_factory", ta_factory c);
     ("tenant_registry", Some (ta_tenants c)); ("schedule_registry", Some (ta_schedules c));
     ("circuit_breaker", Some (ta_breaker c)); ("queue_manager", Some (ta_queue c));
     ("task_creator", Some (ta_creator c)); ("task_completion_node", Some (ta_completion c))]).

Definition ops_api_attr (name : string) (c : OpsApiContainer) : option object :=
  default None (dict_get name
    [("redis_client", Some (oa_redis c)); ("capability_registry", Some (oa_capabilities c));
     ("cluster_registry", Some (oa_clusters c)); ("node_registry", Some (oa_nodes c));
     ("schedule_registry", Some (oa_schedules c)); ("tenant_registry", Some (oa_tenants c));
     ("dag_loader", Some (oa_dags c)); ("circuit_breaker", Some (oa_breaker c)); ("queue_manager", Some (oa_queue c))]).

(** The same service from the platform's own classes *)
Definition platform_class (o : object) : object :=
  match o with OPackageTenantRegistry r => OTenantRegistry r | _ => o end.

(** The methods each class of tenant registry defines itself *)
Definition tenant_methods (o : object) : list string :=
  match o with
  | OTenantRegistry _ =>
      ["register"; "unregister"; "get_tenant"; "generate_api_key"; "verify_api_key_hash"; "validate_key";
       "revoke_api_key"; "get_usage"]
  | OPackageTenantRegistry _ =>
      ["register"; "unregister"; "get_tenant"; "generate_api_key"; "verify_api_key_hash"; "validate_key"]
  | _ => []
  end.

Definition call_method (o : object) (name : string) : exn + unit :=
  if decide (name ∈ tenant_methods o) then inr tt
  else inl (Exn AttributeError ("'TenantRegistry' object has no attribute '" +:+ name +:+ "'")).

Section Equivalence.
Context (getenv : string -> option string) (build : target -> exn + unit) (ping : exn + unit) (t0 : Z).
Context (create_async_engine : string -> list (string * value) -> exn + unit).

(** The packaged processes are wired as the monorepo's: under every name a
    packaged container has what the monorepo's has, built from the same Redis client
    and engine, up to the class of the tenant registry, and one fails to build
    exactly when the other does, with the same error.  That class lacks two methods:
    asking a tenant's usage of the packaged operations API raises AttributeError. *)
Theorem packages_wired_alike s :
  match task_api_build_container getenv build ping t0 create_async_engine s,
        build_task_api getenv build ping t0 create_async_engine s with
  | inr p, inr c => ∀ name, platform_class <$> task_api_attr name p = container_attr name c
  | inl e, inl e' => e = e'
  | _, _ => False
  end /\
  match ops_api_build_container getenv build ping t0 s, build_ops_api getenv build ping t0 s with
  | inr p, inr c =>
      (∀ name, platform_class <$> ops_api_attr name p = container_attr name c) /\
      (exists o o', ops_api_attr "tenant_registry" p = Some o /\ container_attr "tenant_registry" c = Some o' /\
         call_method o "get_usage" = inl (Exn AttributeError "'TenantRegistry' object has no attribute 'get_usage'") /\
         call_method o' "get_usage" = inr tt /\
         ∀ m, m ∈ ["register"; "unregister"; "get_tenant"; "generate_api_key"; "validate_key"] -> call_method o m = inr tt)
  | inl e, inl e' => e = e'
  | _, _ => False
  end.
Proof.
  unfold task_api_build_container, build_task_api, ops_api_build_container, build_ops_api.
  destruct (init_redis_client getenv build ping t0 s) as [e|r] eqn:Er; [done|].
  assert (Hr : platform_class r = r) by (by apply init_redis_ha in Er as (? & ? & ->)). split.
  - destruct (init_async_db create_async_engine s) as [e|db] eqn:Ed; [done|]. intros name.
    assert (Hdb : ∀ x, db = Some x -> platform_class x.1.1 = x.1.1 /\ platform_class x.1.2 = x.1.2).
    { revert Ed. unfold init_async_db. destruct (mysql_url s); [|by intros [= <-]].
      destruct (AsyncDb.init_async_engine _ _ _) as [|[]]; [done|]. by intros [= <-] x [= <-]. }
    unfold task_api_attr, container_attr. simpl.
    repeat (destruct (decide (name = _)) as [-> |?];
      [try (destruct db as [x|]; [destruct (Hdb x eq_refl) as [H1 H2]|]); simpl; rewrite ?Hr, ?H1, ?H2; done|]).
    done.
  - split.
    + intros name. unfold ops_api_attr, container_attr. simpl.
      repeat (destruct (decide (name = _)) as [-> |?]; [simpl; rewrite ?Hr; done|]). done.
    + do 2 eexists. split_and!; [done..|]. intros m. rewrite !elem_of_cons, elem_of_nil.
      by intros [-> |[-> |[-> |[-> |[-> |[]]]]]].
Qed.
End Equivalence.
End Packages.
