(* ===== verification/LazyClients.v ===== *)
(** * Clients made on first use

    The HTTP client of [src/platform/task_completion_node.py] ([_get_client], [close]:
    under one lock, and bound to the event loop it was made in), and the HTTP client
    and thread pool of [src/platform/dag_engine.py] ([_get_http_client],
    [_get_streaming_executor], [close]: only the first takes the lock).  A resource is
    a number; the list holds everything made so far with whether it is open. *)

From stdpp Require Import base strings list.
From S2P Require Import Prelude PyValue.

(** ** The completion node *)

Module CompletionClient.
Record client := { of_loop : nat; is_closed : bool }.

Record node := { client_ : option nat; made : list client }.

Definition node_init : node := {| client_ := None; made := [] |}.

Definition aclose (i : nat) (l : list client) : list client :=
  alter (λ c, {| of_loop := of_loop c; is_closed := true |}) i l.

Definition create (loop : nat) (n : node) : node :=
  {| client_ := Some (length (made n)); made := made n ++ [{| of_loop := loop; is_closed := false |}] |}.

(** What [aclose] does: a call that raises may have closed the client or not. *)
Notation outcome := ((exn * bool) + unit)%type.

Definition after_failed (closed : bool) (i : nat) (l : list client) : list client := if closed then aclose i l else l.

(** [_get_client] in the event loop [loop] *)
Definition get_client (loop : nat) (closing : outcome) (n : node) : node * (exn + nat) :=
  let fresh n := (create loop n, inr (length (made n))) in
  match client_ n ≫= λ i, (i,.) <$> made n !! i with
  | None => fresh n
  | Some (i, c) =>
      if is_closed c then fresh n
      else if decide (of_loop c = loop) then (n, inr i)
      else match closing with
           | inl (e, closed) => ({| client_ := client_ n; made := after_failed closed i (made n) |}, inl e)
           | inr _ => fresh {| client_ := client_ n; made := aclose i (made n) |}
           end
  end.

Definition close (closing : outcome) (n : node) : node * (exn + unit) :=
  match client_ n ≫= λ i, (i,.) <$> made n !! i with
  | Some (i, c) =>
      if is_closed c then (n, inr tt)
      else match closing with
           | inl (e, closed) => ({| client_ := client_ n; made := after_failed closed i (made n) |}, inl e)
           | inr _ => ({| client_ := None; made := aclose i (made n) |}, inr tt)
           end
  | None => (n, inr tt)
  end.

(** The lock makes calls follow one another, whatever loop they come from.  Whoever
    got the client may close it. *)
Inductive call := Get (loop : nat) (closing : outcome) | Close (closing : outcome) | UserCloses (i : nat).

Definition apply (c : call) (n : node) : node :=
  match c with
  | Get loop closing => (get_client loop closing n).1
  | Close closing => (close closing n).1
  | UserCloses i => {| client_ := client_ n; made := aclose i (made n) |}
  end.

Definition run (cs : list call) : node := foldl (λ n c, apply c n) node_init cs.

Definition open_ (n : node) (i : nat) : Prop := is_closed <$> made n !! i = Some false.

(** Only the client the node holds is open. *)
Definition inv (n : node) : Prop := ∀ i, open_ n i -> client_ n = Some i.

Lemma open_aclose i j l : is_closed <$> aclose i l !! j = Some false -> i <> j /\ is_closed <$> l !! j = Some false.
Proof.
  unfold aclose. destruct (decide (i = j)) as [<-|Hne]; [|by rewrite list_lookup_alter_ne].
  rewrite list_lookup_alter_eq. by destruct (l !! i).
Qed.

Lemma inv_create loop n : (∀ i, ¬ open_ n i) -> inv (create loop n).
Proof.
  intros Hno i. unfold open_. simpl. intros Hi. destruct (made n !! i) as [c|] eqn:E.
  - exfalso. apply (Hno i). unfold open_. rewrite lookup_app_l in Hi by by eapply lookup_lt_Some. by rewrite E in Hi |- *.
  - rewrite lookup_app_r in Hi by by apply lookup_ge_None. apply lookup_ge_None in E.
    destruct (i - length (made n))%nat as [|k] eqn:Ek; [f_equal; lia|done].
Qed.

Lemma inv_aclose n i : inv n -> inv {| client_ := client_ n; made := aclose i (made n) |}.
Proof. intros Hi j [_ Hj]%open_aclose. by apply Hi. Qed.

Lemma inv_failed n i closed : inv n -> inv {| client_ := client_ n; made := after_failed closed i (made n) |}.
Proof. intros Hi. destruct closed; [by apply inv_aclose|done]. Qed.

Lemma inv_get loop closing n : inv n -> inv (get_client loop closing n).1.
Proof.
  intros Hi. unfold get_client. destruct (client_ n) as [i|] eqn:En; simpl.
  - assert (Hcur : ∀ j, open_ n j -> j = i) by (intros j Hj%Hi; congruence).
    destruct (made n !! i) as [c|] eqn:Em; simpl.
    + destruct (is_closed c) eqn:Ec; simpl.
      * apply inv_create. intros j Hj. assert (j = i) as -> by auto. unfold open_ in Hj. rewrite Em in Hj. simpl in Hj. congruence.
      * destruct (decide _); [done|]. destruct closing as [[e closed]|[]]; simpl; [rewrite <-En; by apply inv_failed|].
        apply inv_create. intros j [Hne Hj]%open_aclose. by rewrite (Hcur j Hj) in Hne.
    + apply inv_create. intros j Hj. assert (j = i) as -> by auto. unfold open_ in Hj. by rewrite Em in Hj.
  - apply inv_create. intros j Hj%Hi. congruence.
Qed.

Lemma inv_close closing n : inv n -> inv (close closing n).1.
Proof.
  intros Hi. unfold close. destruct (client_ n) as [i|] eqn:En; simpl; [|done].
  destruct (made n !! i) as [c|]; simpl; [|done]. destruct (is_closed c); [done|].
  destruct closing as [[e closed]|[]]; simpl; [rewrite <-En; by apply inv_failed|].
  intros j [Hne Hj]%open_aclose. apply Hi in Hj. congruence.
Qed.

Lemma inv_apply c n : inv n -> inv (apply c n).
Proof. intros Hi. destruct c; simpl; [by apply inv_get|by apply inv_close|by apply inv_aclose]. Qed.

(** Whatever calls come from whatever event loops, also when closing fails and
    when somebody closes a client behind the node's back: at most one client is
    open, the one the node holds, and [_get_client] either raises what closing the
    old client raised or answers with an open client made in the caller's loop. *)
Theorem completion_client cs loop closing :
  let n := run cs in
  (∀ i j, open_ n i -> open_ n j -> i = j) /\
  match (get_client loop closing n).2 with
  | inl e => exists closed, closing = inl (e, closed)
  | inr i => made (get_client loop closing n).1 !! i = Some {| of_loop := loop; is_closed := false |}
  end.
Proof.
  intros n. assert (Hinv : inv n).
  { unfold n, run. assert (Hall : ∀ cs m, inv m -> inv (foldl (λ n c, apply c n) m cs)).
    { clear. induction cs as [|c cs IH]; intros m Hm; [done|]. apply IH, inv_apply, Hm. }
    apply Hall. intros i Hi. by destruct i. }
  split.
  - intros i j Hi%Hinv Hj%Hinv. congruence.
  - assert (Hfresh : ∀ m, made (create loop m) !! length (made m) = Some {| of_loop := loop; is_closed := false |}).
    { intros m. simpl. by rewrite lookup_app_r, Nat.sub_diag. }
    unfold get_client. destruct (client_ n) as [i|]; simpl; [|apply Hfresh].
    destruct (made n !! i) as [c|] eqn:Em; simpl; [|apply Hfresh]. destruct (is_closed c) eqn:Ec; simpl; [apply Hfresh|].
    destruct (decide (of_loop c = loop)) as [Hl|]; simpl; [rewrite Em; by destruct c; simplify_eq/=|].
    destruct closing as [[e closed]|[]]; simpl; [eauto|]. apply (Hfresh {| client_ := Some i; made := aclose i (made n) |}).
Qed.
End CompletionClient.

(** ** The DAG engine *)

Module EngineResources.
Record engine := {
  http : option nat; http_made : list bool;        (* [_http_client], and which clients are open *)
  pool : option nat; pool_made : list bool;        (* [_streaming_executor], and which pools accept work *)
  closing : list nat                               (* calls of [close] that await [aclose] of this client *)
}.

Definition engine_init : engine := {| http := None; http_made := []; pool := None; pool_made := []; closing := [] |}.

Definition get_http_client (e : engine) : engine * nat :=
  match http e with
  | Some i => if default false (http_made e !! i) then (e, i)
              else ({| http := Some (length (http_made e)); http_made := http_made e ++ [true]; pool := pool e;
                       pool_made := pool_made e; closing := closing e |}, length (http_made e))
  | None => ({| http := Some (length (http_made e)); http_made := http_made e ++ [true]; pool := pool e;
                pool_made := pool_made e; closing := closing e |}, length (http_made e))
  end.

Definition get_streaming_executor (e : engine) : engine * nat :=
  match pool e with
  | Some i => (e, i)
  | None => ({| http := http e; http_made := http_made e; pool := Some (length (pool_made e));
                pool_made := pool_made e ++ [true]; closing := closing e |}, length (pool_made e))
  end.

(** [close] up to its [await]: the pool is shut down; a client that is open is
    closed, otherwise forgotten at once. *)
Definition close_begin (e : engine) : engine :=
  let pm := match pool e with Some i => <[i := false]> (pool_made e) | None => pool_made e end in
  match http e with
  | Some i =>
      if default false (http_made e !! i) then
        {| http := http e; http_made := <[i := false]> (http_made e); pool := None; pool_made := pm; closing := closing e ++ [i] |}
      else {| http := None; http_made := http_made e; pool := None; pool_made := pm; closing := closing e |}
  | None => {| http := None; http_made := http_made e; pool := None; pool_made := pm; closing := closing e |}
  end.

(** After it: [self._http_client = None], whatever is there by now *)
Definition close_ends (e : engine) : engine :=
  match closing e with
  | [] => e
  | _ :: cs => {| http := None; http_made := http_made e; pool := pool e; pool_made := pool_made e; closing := cs |}
  end.

Inductive event := UseHttp | UseStreaming | CloseBegins | CloseEnds.

Definition step (ev : event) (e : engine) : engine :=
  match ev with
  | UseHttp => (get_http_client e).1
  | UseStreaming => (get_streaming_executor e).1
  | CloseBegins => close_begin e
  | CloseEnds => close_ends e
  end.

Definition steps (evs : list event) : engine := foldl (λ e ev, step ev e) engine_init evs.

(** Nothing of the engine is open. *)
Definition all_closed (e : engine) : Prop := Forall (λ b, b = false) (http_made e ++ pool_made e).

(** The client is not asked for while a [close] awaits. *)
Fixpoint quiet (evs : list event) (e : engine) : bool :=
  match evs with
  | [] => true
  | UseHttp :: evs' => match closing e with [] => quiet evs' (step UseHttp e) | _ => false end
  | ev :: evs' => quiet evs' (step ev e)
  end.

(** Only the client and the pool the engine holds are open, and no client while a
    [close] awaits. *)
Record inv (e : engine) : Prop := {
  inv_http i : http_made e !! i = Some true -> http e = Some i /\ closing e = [];
  inv_pool i : pool_made e !! i = Some true -> pool e = Some i
}.

Lemma lookup_snoc_true (l : list bool) i : (l ++ [true]) !! i = Some true -> l !! i = Some true \/ i = length l.
Proof.
  intros [H|[Hge H]]%lookup_app_Some; [auto|]. destruct (i - length l)%nat eqn:E; [right; lia|done].
Qed.

Lemma lookup_insert_true (l : list bool) i j : <[i := false]> l !! j = Some true -> l !! j = Some true /\ i <> j.
Proof.
  destruct (decide (i = j)) as [<-|Hne]; [|by rewrite list_lookup_insert_ne].
  intros H. destruct (decide (i < length l)%nat) as [Hl|Hl]; [by rewrite list_lookup_insert_eq in H|].
  rewrite list_insert_ge in H by lia. apply lookup_lt_Some in H. lia.
Qed.

Lemma inv_use_http e : inv e -> closing e = [] -> inv (get_http_client e).1.
Proof.
  intros [H1 H2] Hc. unfold get_http_client. destruct (http e) as [i|] eqn:Eh.
  - destruct (default false (http_made e !! i)) eqn:Ed; simpl; [by split; [intros j Hj%H1; rewrite Eh|]|].
    split; simpl; [|done]. intros j [Hj|Hj]%lookup_snoc_true; [|by subst]. destruct (H1 j Hj) as [[= <-] _].
    by rewrite Hj in Ed.
  - split; simpl; [|done]. intros j [Hj|Hj]%lookup_snoc_true; [|by subst]. by destruct (H1 j Hj).
Qed.

Lemma close_begin_closes e : inv e -> all_closed (close_begin e) /\ inv (close_begin e).
Proof.
  intros [H1 H2]. set (e' := close_begin e).
  assert (Hh : ∀ i, http_made e' !! i <> Some true).
  { intros i. unfold e', close_begin. destruct (http e) as [j|] eqn:Eh; [destruct (default false (http_made e !! j)) eqn:Ed|]; simpl.
    - intros [Hi Hne]%lookup_insert_true. destruct (H1 i Hi). congruence.
    - intros Hi. destruct (H1 i Hi) as [[= ->] _]. by rewrite Hi in Ed.
    - intros Hi. by destruct (H1 i Hi). }
  assert (Hp : ∀ i, pool_made e' !! i <> Some true).
  { intros i. assert (Hpm : pool_made e' = match pool e with Some i => <[i := false]> (pool_made e) | None => pool_made e end).
    { unfold e', close_begin. destruct (http e) as [j|]; [destruct (default _ _)|]; done. }
    rewrite Hpm. destruct (pool e) as [j|] eqn:Ep.
    - intros [Hi Hne]%lookup_insert_true. specialize (H2 i Hi). congruence.
    - intros Hi%H2. congruence. }
  split.
  - apply Forall_app. split; apply Forall_lookup; intros i [] Hi; [by destruct (Hh i)|done|by destruct (Hp i)|done].
  - split; intros i Hi; [by destruct (Hh i)|by destruct (Hp i)].
Qed.

Lemma inv_quiet evs : ∀ e, inv e -> quiet evs e = true -> inv (foldl (λ e ev, step ev e) e evs).
Proof.
  induction evs as [|ev evs IH]; intros e Hi Hq; [done|]. destruct ev; simpl in *.
  - destruct (closing e) eqn:Ec; [|done]. apply IH; [by apply inv_use_http|done].
  - apply IH; [|done]. unfold get_streaming_executor. destruct Hi as [H1 H2]. destruct (pool e) as [i|] eqn:Ep; simpl; [by split; [|rewrite Ep]|].
    split; simpl; [done|]. intros j [Hj%H2|Hj]%lookup_snoc_true; [congruence|by subst].
  - apply IH; [by apply close_begin_closes|done].
  - apply IH; [|done]. unfold close_ends. destruct (closing e) as [|c cs] eqn:Ec; [done|]. destruct Hi as [H1 H2].
    split; simpl; [|done]. intros j Hj. destruct (H1 j Hj). congruence.
Qed.

(** However the engine's client and thread pool are used and closed before, [close]
    leaves none of them open, if the client is not asked for while an earlier
    [close] awaits. *)
Theorem engine_close_releases evs : quiet evs engine_init = true -> all_closed (step CloseBegins (steps evs)).
Proof. intros Hq. apply close_begin_closes, inv_quiet; [by split|done]. Qed.

(** If it is, the new client is forgotten open. *)
Example close_forgets_client : ¬ all_closed (steps [UseHttp; CloseBegins; UseHttp; CloseEnds; CloseBegins; CloseEnds]).
Proof. vm_compute. intros H. by inversion_clear H as [|? ? _ H']; inversion_clear H'. Qed.
End EngineResources.
