(* ===== verification/Draining.v ===== *)
(** * Stopping a consumer

    [start] and [stop] of [src/platform/task_consumer.py], [shutdown] of
    [src/platform/task_executor.py], and what they meet: the polling loop between its
    [await]s, and the asyncio tasks of the dispatched executions with cancellation.
    Everything interleaves.  What a round of the loop dequeues and what an execution
    does are in [TaskConsumer.v] and [TaskExecutor.v]; here an execution is known by
    where it is. *)

From stdpp Require Import base strings list gmap.
From S2P Require Import Prelude PyValue.

Open Scope Z_scope.

(** ** State *)

(** Where the polling loop is: in a round, inside [dequeue] with a slot of the
    semaphore, in the pause, over. *)
Inductive loop_place := LNone | LRound | LDequeue | LSleep | LOver.

(** Where an execution is: created and not begun, asking for the lock, running the
    DAG, in the [finally] of [execute], over (and was its slot released?). *)
Inductive exec_place := ENew | ELocking | ERunning | ECleanup | EOver (released : bool).

(** Where [stop] is; [n] executions had been created when it was called. *)
Inductive stop_place := SNot | SGather (n : nat) | SDrain (n : nat) (deadline : Z) | SClosing (n : nat) | SDone (n : nat).

#[global] Instance loop_place_eq_dec : EqDecision loop_place.
Proof. solve_decision. Defined.
#[global] Instance exec_place_eq_dec : EqDecision exec_place.
Proof. solve_decision. Defined.
#[global] Instance stop_place_eq_dec : EqDecision stop_place.
Proof. solve_decision. Defined.

Record exec := { e_id : string; e_at : exec_place; e_cancel : bool }.

Record consumer := {
  running : bool;             (* [_running] *)
  value : Z;                  (* of the semaphore *)
  loop : loop_place;
  execs : list exec;          (* every task created; [_tasks] is those not over *)
  draining : bool;            (* [_draining] of the executor *)
  active : gset string;       (* [_active_tasks] *)
  stopping : stop_place;
  now : Z
}.

Definition consumer_init (max_concurrent : Z) : consumer :=
  {| running := false; value := max_concurrent; loop := LNone; execs := []; draining := false;
     active := ∅; stopping := SNot; now := 0 |}.

Definition is_over (e : exec) : bool := match e_at e with EOver _ => true | _ => false end.

(** [t.cancel()] *)
Definition cancel (e : exec) : exec :=
  {| e_id := e_id e; e_at := e_at e; e_cancel := e_cancel e || negb (is_over e) |}.

Definition DRAIN_TIMEOUT : Z := 30000.
Definition DRAIN_POLL : Z := 500.

(** ** Steps of an execution *)

Inductive turn :=
| Goes                  (* what is awaited ends well: the lock is got, the DAG is done *)
| Refused               (* the lock is held, or asking for it fails *)
| Interrupted           (* the cancellation arrives *)
| Swallowed.            (* it arrives while the renewal task is awaited *)

(** The execution, the change of the semaphore and of the active tasks.  A task that
    is cancelled before its first step never enters the coroutine: the [finally] that
    releases the slot is not run.  What is awaited may catch a cancellation and go
    on. *)
Definition exec_turn (v : turn) (e : exec) (act : gset string) : option (exec * Z * gset string) :=
  let go p := {| e_id := e_id e; e_at := p; e_cancel := false |} in
  match e_at e, v with
  | ENew, Goes => if e_cancel e then None else Some (go ELocking, 0, act)
  | ENew, Interrupted => if e_cancel e then Some (go (EOver false), 0, act) else None
  | ELocking, Goes => Some (go ERunning, 0, {[ e_id e ]} ∪ act)
  | ELocking, Refused => Some (go (EOver true), 1, act)
  | ELocking, Interrupted => if e_cancel e then Some (go (EOver true), 1, act) else None
  | ERunning, Goes => Some (go ECleanup, 0, act ∖ {[ e_id e ]})
  | ERunning, Interrupted => if e_cancel e then Some (go ECleanup, 0, act ∖ {[ e_id e ]}) else None
  | ECleanup, Goes => Some (go (EOver true), 1, act)
  | ECleanup, Interrupted => if e_cancel e then Some (go (EOver true), 1, act) else None
  | ECleanup, Swallowed => if e_cancel e then Some (go ECleanup, 0, act) else None
  | _, _ => None
  end.

(** ** Steps of the consumer *)

Inductive event :=
| Start
| TryAcquire                       (* the semaphore has a slot: take it and ask the queue *)
| Dequeued (id : option string)    (* [None]: the queue is empty, or [dequeue] failed *)
| RoundEnds
| Wakes
| Exec (i : nat) (v : turn)
| Stop
| Gathered                         (* [asyncio.gather] returns, and [shutdown] begins *)
| DrainCheck                       (* its loop's test, and the pause after it *)
| StopReturns
| Tick (d : Z).

Definition set_loop (s : consumer) (v : Z) (l : loop_place) (es : list exec) : consumer :=
  {| running := running s; value := v; loop := l; execs := es; draining := draining s; active := active s;
     stopping := stopping s; now := now s |}.

Definition set_stopping (s : consumer) (p : stop_place) : consumer :=
  {| running := running s; value := value s; loop := loop s; execs := execs s; draining := draining s; active := active s;
     stopping := p; now := now s |}.

(** [shutdown] up to its first [await] *)
Definition shutdown (s : consumer) (n : nat) : consumer :=
  {| running := running s; value := value s; loop := loop s; execs := execs s; draining := true; active := active s;
     stopping := if decide (active s = ∅) then SClosing n else SDrain n (now s + DRAIN_TIMEOUT); now := now s |}.

Definition step (ev : event) (s : consumer) : option consumer :=
  match ev with
  | Start =>
      match loop s with
      | LNone | LOver => Some {| running := true; value := value s; loop := LRound; execs := execs s; draining := draining s;
                                 active := active s; stopping := stopping s; now := now s |}
      | _ => None
      end
  | TryAcquire =>
      match loop s with
      | LRound => if decide (0 < value s) then Some (set_loop s (value s - 1) LDequeue (execs s)) else None
      | _ => None
      end
  | Dequeued id =>
      match loop s, id with
      | LDequeue, Some id => Some (set_loop s (value s) LRound (execs s ++ [{| e_id := id; e_at := ENew; e_cancel := false |}]))
      | LDequeue, None => Some (set_loop s (value s + 1) LRound (execs s))
      | _, _ => None
      end
  | RoundEnds => match loop s with LRound => Some (set_loop s (value s) LSleep (execs s)) | _ => None end
  | Wakes =>
      match loop s with
      | LSleep => Some (set_loop s (value s) (if running s then LRound else LOver) (execs s))
      | _ => None
      end
  | Exec i v =>
      e ← execs s !! i;
      '(e', dv, act) ← exec_turn v e (active s);
      Some {| running := running s; value := value s + dv; loop := loop s; execs := <[i := e']> (execs s);
              draining := draining s; active := act; stopping := stopping s; now := now s |}
  | Stop =>
      match stopping s with
      | SNot => Some {| running := false; value := value s; loop := loop s; execs := cancel <$> execs s;
                        draining := draining s; active := active s; stopping := SGather (length (execs s)); now := now s |}
      | _ => None
      end
  | Gathered =>
      match stopping s with
      | SGather n => if forallb is_over (take n (execs s)) then Some (shutdown s n) else None
      | _ => None
      end
  | DrainCheck =>
      match stopping s with
      | SDrain n d =>
          if decide (active s <> ∅ /\ now s < d) then
            Some {| running := running s; value := value s; loop := loop s; execs := execs s; draining := draining s;
                    active := active s; stopping := stopping s; now := now s + DRAIN_POLL |}
          else Some (set_stopping s (SClosing n))
      | _ => None
      end
  | StopReturns => match stopping s with SClosing n => Some (set_stopping s (SDone n)) | _ => None end
  | Tick d => if decide (0 <= d) then
      Some {| running := running s; value := value s; loop := loop s; execs := execs s; draining := draining s;
              active := active s; stopping := stopping s; now := now s + d |} else None
  end.

Fixpoint steps (evs : list event) (s : consumer) : option consumer :=
  match evs with
  | [] => Some s
  | ev :: evs' => s' ← step ev s; steps evs' s'
  end.

Definition reaches (max_concurrent : Z) (s : consumer) : Prop :=
  exists evs, steps evs (consumer_init max_concurrent) = Some s.

(** ** Counting slots *)

Definition released (e : exec) : bool := match e_at e with EOver true => true | _ => false end.
Definition leaked (e : exec) : bool := match e_at e with EOver false => true | _ => false end.

Definition count (p : exec -> bool) (es : list exec) : Z := Z.of_nat (length (List.filter p es)).

Definition holds_slot (l : loop_place) : Z := match l with LDequeue => 1 | _ => 0 end.

Lemma count_app p es es' : count p (es ++ es') = count p es + count p es'.
Proof. unfold count. rewrite List.filter_app, length_app. lia. Qed.

Definition Zb (b : bool) : Z := if b then 1 else 0.

Lemma count_insert p es i e e' :
  es !! i = Some e -> count p (<[i := e']> es) = count p es - Zb (p e) + Zb (p e').
Proof.
  intros H. pose proof (lookup_lt_Some _ _ _ H) as Hl.
  rewrite insert_take_drop by done. rewrite <-(take_drop_middle es i e H) at 3.
  rewrite !count_app. change (e' :: ?l) with ([e'] ++ l). change (e :: ?l) with ([e] ++ l). rewrite !count_app.
  assert (∀ x, count p [x] = Zb (p x)) by (intros x; unfold count; simpl; by destruct (p x)).
  rewrite !H0. lia.
Qed.

Lemma count_nonneg p es : 0 <= count p es.
Proof. unfold count. lia. Qed.

Lemma count_ext p q es : (∀ e, p e = q e) -> count p es = count q es.
Proof. intros H. unfold count. f_equal. f_equal. by apply List.filter_ext. Qed.

Lemma count_fmap p f es : (∀ e, p (f e) = p e) -> count p (f <$> es) = count p es.
Proof.
  intros H. unfold count. f_equal. induction es as [|e es IH]; [done|]. rewrite fmap_cons. cbn [List.filter].
  rewrite H. destruct (p e); cbn [length]; by rewrite IH.
Qed.

(** ** The invariant *)

Definition stop_count (p : stop_place) : option nat :=
  match p with SNot => None | SGather n | SDrain n _ | SClosing n | SDone n => Some n end.

Definition gathered (p : stop_place) : bool := match p with SNot | SGather _ => false | _ => true end.

Section Invariant.
Context (max_concurrent : Z).

Record inv (s : consumer) : Prop := {
  inv_slots : value s + holds_slot (loop s) + count (λ e, negb (released e)) (execs s) = max_concurrent;
  inv_value : 0 <= max_concurrent -> 0 <= value s;
  inv_cancel i e : execs s !! i = Some e -> e_cancel e = true -> exists n, stop_count (stopping s) = Some n /\ (i < n)%nat;
  inv_count n : stop_count (stopping s) = Some n -> (n <= length (execs s))%nat;
  inv_over i e n : gathered (stopping s) = true -> stop_count (stopping s) = Some n -> (i < n)%nat ->
                   execs s !! i = Some e -> is_over e = true;
  inv_draining : gathered (stopping s) = true -> draining s = true
}.

Lemma inv_init : 0 <= max_concurrent -> inv (consumer_init max_concurrent).
Proof. intros. split; simpl; try done. unfold count. simpl. lia. Qed.

(** One turn of an execution *)
Lemma exec_turn_spec v e act e' dv act' :
  exec_turn v e act = Some (e', dv, act') ->
  is_over e = false /\ e_cancel e' = false /\ dv = Zb (released e') /\ released e = false /\ leaked e = false.
Proof.
  unfold exec_turn, is_over, released, leaked. destruct (e_at e) as [| | | |[]], v; try done; try (destruct (e_cancel e); try done);
    intros H; by simplify_eq/=.
Qed.

Lemma inv_exec s i e e' dv act v :
  inv s -> execs s !! i = Some e -> exec_turn v e (active s) = Some (e', dv, act) ->
  inv {| running := running s; value := value s + dv; loop := loop s; execs := <[i := e']> (execs s);
         draining := draining s; active := act; stopping := stopping s; now := now s |}.
Proof.
  intros [H1 H2 H3 H4 H5 H6] Hi Ht. destruct (exec_turn_spec _ _ _ _ _ _ Ht) as (To & Tc & -> & Tr & _). split; simpl.
  - rewrite (count_insert _ _ _ _ _ Hi), Tr. destruct (released e'); simpl; lia.
  - intros Hm. specialize (H2 Hm). destruct (released e'); simpl; lia.
  - intros j f Hj Hc. destruct (decide (i = j)) as [<-|]; [|rewrite list_lookup_insert_ne in Hj by done; eauto].
    rewrite list_lookup_insert_eq in Hj by by eapply lookup_lt_Some. simplify_eq. congruence.
  - intros n Hn. rewrite length_insert. auto.
  - intros j f n Hg Hn Hj Hf. destruct (decide (i = j)) as [<-|]; [|rewrite list_lookup_insert_ne in Hf by done; eauto].
    rewrite (H5 i e n) in To by done. done.
  - done.
Qed.

Lemma inv_dispatch s id :
  inv s -> loop s = LDequeue ->
  inv (set_loop s (value s) LRound (execs s ++ [{| e_id := id; e_at := ENew; e_cancel := false |}])).
Proof.
  intros [H1 H2 H3 H4 H5 H6] Hl. rewrite Hl in H1. split; simpl in *; [rewrite count_app; unfold count at 2; simpl; lia|done| | | |done].
  - intros i e [Hi|[Hge Hi]]%lookup_app_Some Hc; [eauto|].
    destruct (i - length (execs s))%nat; simpl in Hi; simplify_eq; done.
  - intros n Hn. rewrite length_app. specialize (H4 n Hn). lia.
  - intros i e n Hg Hn Hi [He|[Hge He]]%lookup_app_Some; [eauto|]. specialize (H4 n Hn). lia.
Qed.

Lemma consumer_inv_stop s :
  inv s -> stopping s = SNot ->
  inv {| running := false; value := value s; loop := loop s; execs := cancel <$> execs s; draining := draining s;
         active := active s; stopping := SGather (length (execs s)); now := now s |}.
Proof.
  intros [H1 H2 H3 H4 H5 H6] Hs. split; simpl; try done.
  - rewrite count_fmap; [done|]. by intros e.
  - intros i e Hi _. exists (length (execs s)). split; [done|]. apply lookup_lt_Some in Hi. by rewrite length_fmap in Hi.
  - intros n [= <-]. by rewrite length_fmap.
Qed.

(** A change of where [stop] is, once the executions are over *)
Lemma consumer_inv_stopping s p n d t :
  inv s -> stop_count (stopping s) = Some n -> stop_count p = Some n -> d = true ->
  (∀ i e, (i < n)%nat -> execs s !! i = Some e -> is_over e = true) ->
  inv {| running := running s; value := value s; loop := loop s; execs := execs s; draining := d; active := active s;
         stopping := p; now := t |}.
Proof.
  intros [H1 H2 H3 H4 H5 H6] Hn Hp -> Ho. split; simpl; try done.
  - intros i e Hi Hc. destruct (H3 i e Hi Hc) as (n' & Hn' & Hlt). simplify_eq. exists n. by split; [congruence|].
  - intros m Hm. apply H4. congruence.
  - intros i e m _ Hm Hi He. apply (Ho i e); [|done]. by simplify_eq.
Qed.

Lemma consumer_inv_step ev s s' : inv s -> step ev s = Some s' -> inv s'.
Proof.
  intros Hinv Hs. destruct ev as [| |id| | |i v| | | | |d]; simpl in Hs.
  - destruct (loop s) eqn:El; simplify_eq; destruct Hinv as [H1 H2 H3 H4 H5 H6]; rewrite El in H1; by split.
  - destruct (loop s) eqn:El; simplify_eq. destruct (decide _); simplify_eq. destruct Hinv as [H1 H2 H3 H4 H5 H6].
    rewrite El in H1. split; simpl in *; try done; lia.
  - destruct (loop s) eqn:El, id as [id|]; simplify_eq; [by apply inv_dispatch|]. destruct Hinv as [H1 H2 H3 H4 H5 H6].
    rewrite El in H1. split; simpl in *; try done; [lia|]. intros Hm. specialize (H2 Hm). lia.
  - destruct (loop s) eqn:El; simplify_eq. destruct Hinv as [H1 H2 H3 H4 H5 H6]. rewrite El in H1. by split.
  - destruct (loop s) eqn:El; simplify_eq. destruct Hinv as [H1 H2 H3 H4 H5 H6]. rewrite El in H1.
    split; simpl; try done. by destruct (running s).
  - destruct (execs s !! i) as [e|] eqn:Ei; [|done]. simpl in Hs.
    destruct (exec_turn v e (active s)) as [[[e' dv] act]|] eqn:Et; [|done]. simplify_eq/=. by eapply inv_exec.
  - destruct (stopping s) eqn:Ep; simplify_eq. by apply consumer_inv_stop.
  - destruct (stopping s) as [|n| | |] eqn:Ep; simplify_eq. destruct (forallb is_over (take n (execs s))) eqn:Ef; simplify_eq.
    apply consumer_inv_stopping with n; [done|by rewrite Ep|by case_decide|done|]. intros i e Hi He. rewrite forallb_forall in Ef.
    apply Ef, list_elem_of_In, list_elem_of_lookup. exists i. by rewrite lookup_take_lt.
  - destruct (stopping s) as [| |n d| |] eqn:Ep; simplify_eq. destruct (decide _); simplify_eq;
      (apply consumer_inv_stopping with n; [done|by rewrite Ep|done| |]);
      [by apply (inv_draining _ Hinv); rewrite Ep|intros i e Hi He; apply (inv_over _ Hinv i e n); by rewrite ?Ep|
       by apply (inv_draining _ Hinv); rewrite Ep|intros i e Hi He; apply (inv_over _ Hinv i e n); by rewrite ?Ep].
  - destruct (stopping s) as [| | |n|] eqn:Ep; simplify_eq. apply consumer_inv_stopping with n; [done|by rewrite Ep|done| |].
    + apply (inv_draining _ Hinv). by rewrite Ep.
    + intros i e Hi He. apply (inv_over _ Hinv i e n); by rewrite ?Ep.
  - destruct (decide _); simplify_eq. destruct Hinv as [H1 H2 H3 H4 H5 H6]. by split.
Qed.

Lemma inv_steps evs : ∀ s s', inv s -> steps evs s = Some s' -> inv s'.
Proof.
  induction evs as [|ev evs IH]; intros s s' Hi; simpl; [by intros [= <-]|].
  destruct (step ev s) as [s1|] eqn:E; [|done]. simpl. intros H. eapply IH; [by eapply consumer_inv_step|done].
Qed.
End Invariant.

(** ** What a stop achieves *)

Lemma steps_app evs evs' s s' : steps evs s = Some s' -> steps (evs ++ evs') s = steps evs' s'.
Proof.
  revert s. induction evs as [|ev evs IH]; intros s; simpl; [by intros [= <-]|].
  destruct (step ev s) as [s1|]; [|done]. simpl. apply IH.
Qed.

(** Several turns of one execution *)
Fixpoint turns (vs : list turn) (e : exec) (act : gset string) : option exec :=
  match vs with
  | [] => Some e
  | v :: vs' => match exec_turn v e act with Some (e', _, act') => turns vs' e' act' | None => None end
  end.

Lemma steps_turns i vs : ∀ s e e',
  execs s !! i = Some e -> turns vs e (active s) = Some e' ->
  exists s', steps (Exec i <$> vs) s = Some s' /\ execs s' = <[i := e']> (execs s) /\ stopping s' = stopping s.
Proof.
  induction vs as [|v vs IH]; intros s e e' He Ht; simpl in Ht.
  - simplify_eq. exists s. by rewrite list_insert_id.
  - destruct (exec_turn v e (active s)) as [[[e1 dv] act]|] eqn:Et; [|done]. rewrite fmap_cons. simpl. rewrite He. simpl.
    rewrite Et. simpl. set (s1 := {| running := _ |}).
    destruct (IH s1 e1 e') as (s' & Hs & Hx & Hp); [by apply list_lookup_insert_eq, lookup_lt_is_Some|done|].
    exists s'. split; [exact Hs|]. split; [|exact Hp]. rewrite Hx. apply list_insert_insert_eq.
Qed.

(** Every execution can end. *)
Lemma exec_can_end s i e :
  execs s !! i = Some e ->
  exists vs s' e', steps (Exec i <$> vs) s = Some s' /\ execs s' = <[i := e']> (execs s) /\ is_over e' = true /\
    stopping s' = stopping s.
Proof.
  intros He. assert (Ht : exists vs e', turns vs e (active s) = Some e' /\ is_over e' = true).
  { destruct e as [id [| | | |b] c].
    - destruct c; [by exists [Interrupted]; eexists|by exists [Goes; Refused]; eexists].
    - by exists [Refused]; eexists.
    - by exists [Goes; Goes]; eexists.
    - by exists [Goes]; eexists.
    - by exists []; eexists. }
  destruct Ht as (vs & e' & Ht & Ho). destruct (steps_turns i vs s e e' He Ht) as (s' & Hs & Hx & Hp).
  by exists vs, s', e'.
Qed.

(** The loop's own steps, which a stop does not wait for *)
Definition of_loop (ev : event) : bool :=
  match ev with Start | TryAcquire | Dequeued _ | RoundEnds | Wakes | Stop => true | _ => false end.

(** All of the first [n] executions can end. *)
Lemma all_can_end n : ∀ s, exists evs s', steps evs s = Some s' /\ existsb of_loop evs = false /\
  stopping s' = stopping s /\ length (execs s') = length (execs s) /\
  (∀ i e, (i < n)%nat -> execs s' !! i = Some e -> is_over e = true).
Proof.
  induction n as [|n IH]; intros s; [exists [], s; split_and!; try done; lia|].
  destruct (IH s) as (evs & s1 & Hs1 & Hl1 & Hp1 & Hn1 & Ho1). destruct (execs s1 !! n) as [e|] eqn:En.
  - destruct (exec_can_end s1 n e En) as (vs & s2 & e' & Hs2 & Hx2 & He2 & Hp2).
    exists (evs ++ (Exec n <$> vs)), s2. rewrite (steps_app _ _ _ _ Hs1). split_and!; [done| |congruence| |].
    + rewrite existsb_app, Hl1. clear. induction vs as [|v vs IH]; [done|]. by rewrite fmap_cons.
    + by rewrite Hx2, length_insert.
    + intros i f Hi Hf. rewrite Hx2 in Hf. destruct (decide (n = i)) as [<-|].
      * rewrite list_lookup_insert_eq in Hf by by eapply lookup_lt_Some. by simplify_eq.
      * rewrite list_lookup_insert_ne in Hf by done. eapply Ho1; [|done]. lia.
  - exists evs, s1. split_and!; try done. intros i f Hi Hf. destruct (decide (i = n)) as [-> |]; [congruence|].
    eapply Ho1; [|done]. lia.
Qed.

(** [shutdown] ends: at the latest after its time-out. *)
Lemma drain_can_end s n : gathered (stopping s) = true -> stop_count (stopping s) = Some n ->
  exists evs s', steps evs s = Some s' /\ existsb of_loop evs = false /\ stopping s' = SDone n.
Proof.
  intros Hg Hn. destruct (stopping s) as [|m|m d|m|m] eqn:Ep; simpl in Hn; simplify_eq.
  - set (t := Z.max 0 (d - now s)). exists [Tick t; DrainCheck; StopReturns]. simpl.
    rewrite decide_True by lia. simpl. rewrite Ep. rewrite decide_False by (simpl; intros [_ H]; lia). simpl. by eexists.
  - exists [StopReturns]. simpl. rewrite Ep. simpl. by eexists.
  - exists [], s. by rewrite Ep.
Qed.

Section Stopped.
Context (max_concurrent : Z) (Hmax : 0 <= max_concurrent).

(** C24: whatever interleaves with it, [stop] can always be completed, without a
    step of the polling loop; and when it has returned, every execution that existed
    when it was called is over, the executor is marked as draining, and free slots,
    the slot the loop holds, and executions that have not released theirs add up to
    max_concurrent.  An execution that is still going on was dispatched after the
    call, and nothing has cancelled it. *)
Theorem consumer_stop s n :
  reaches max_concurrent s -> stop_count (stopping s) = Some n ->
  (exists evs s', steps evs s = Some s' /\ existsb of_loop evs = false /\ stopping s' = SDone n) /\
  (stopping s = SDone n ->
   draining s = true /\
   (∀ i e, execs s !! i = Some e -> is_over e = false -> (n <= i)%nat /\ e_cancel e = false) /\
   0 <= value s /\ value s + holds_slot (loop s) + count (λ e, negb (released e)) (execs s) = max_concurrent).
Proof.
  intros [evs Hs] Hn. assert (Hi := inv_steps _ _ _ _ (inv_init _ Hmax) Hs). split.
  - destruct (gathered (stopping s)) eqn:Eg; [by apply drain_can_end|].
    destruct (stopping s) as [|m| | |] eqn:Ep; simpl in Hn; simplify_eq.
    destruct (all_can_end n s) as (evs1 & s1 & Hs1 & Hl1 & Hp1 & Hn1 & Ho1).
    assert (Hg : step Gathered s1 = Some (shutdown s1 n)).
    { simpl. rewrite Hp1, Ep. rewrite (proj2 (forallb_forall _ _)); [done|]. intros e He.
      apply list_elem_of_In, list_elem_of_lookup in He as [i Hi']. apply lookup_take_Some in Hi' as [Hi' Hlt]. eauto. }
    destruct (drain_can_end (shutdown s1 n) n) as (evs2 & s2 & Hs2 & Hl2 & Hp2); [by simpl; case_decide..|].
    exists (evs1 ++ Gathered :: evs2), s2. rewrite (steps_app _ _ _ _ Hs1), existsb_app, Hl1. simpl steps. simpl in Hg. rewrite Hg.
    by split_and!.
  - intros Ep. destruct Hi as [H1 H2 H3 H4 H5 H6]. rewrite Ep in *. split_and!; [by apply H6| |by apply H2|done].
    intros i e He Ho. assert (n <= i)%nat.
    { destruct (decide (n <= i)%nat); [done|]. rewrite (H5 i e n) in Ho; [done|done|done|lia|done]. }
    split; [done|]. destruct (e_cancel e) eqn:Ec; [|done]. destruct (H3 i e He Ec) as (m & [= <-] & Hlt). lia.
Qed.
End Stopped.

(** ** Slots that are lost *)

Lemma leaked_step ev s s' : step ev s = Some s' -> count leaked (execs s) <= count leaked (execs s').
Proof.
  destruct ev as [| |id| | |i v| | | | |d]; simpl; intros H.
  1,2,4,5: destruct (loop s); simplify_eq; try (destruct (decide _)); by simplify_eq.
  - destruct (loop s), id; simplify_eq; simpl; [|done]. rewrite count_app.
    match goal with |- _ <= _ + ?x => assert (0 <= x) by apply count_nonneg end. lia.
  - destruct (execs s !! i) as [e|] eqn:Ei; [|done]. simpl in H.
    destruct (exec_turn v e (active s)) as [[[e' dv] act]|] eqn:Et; [|done]. simplify_eq/=.
    destruct (exec_turn_spec _ _ _ _ _ _ Et) as (_ & _ & _ & _ & Hl). rewrite (count_insert _ _ _ _ _ Ei), Hl.
    destruct (leaked e'); simpl; lia.
  - destruct (stopping s); simplify_eq. simpl. rewrite count_fmap; [done|by intros e].
  - destruct (stopping s); simplify_eq. destruct (forallb _ _); by simplify_eq.
  - destruct (stopping s); simplify_eq. destruct (decide _); by simplify_eq.
  - destruct (stopping s); by simplify_eq.
  - destruct (decide _); by simplify_eq.
Qed.

Lemma leaked_steps evs : ∀ s s', steps evs s = Some s' -> count leaked (execs s) <= count leaked (execs s').
Proof.
  induction evs as [|ev evs IH]; intros s s'; simpl; [intros [= <-]; lia|].
  destruct (step ev s) as [s1|] eqn:E; [|done]. simpl. intros H. apply leaked_step in E. apply IH in H. lia.
Qed.

Lemma leaked_unreleased es : count leaked es <= count (λ e, negb (released e)) es.
Proof.
  unfold count. induction es as [|e es IH]; simpl; [done|]. unfold leaked at 1, released at 1.
  destruct (e_at e) as [| | | |[]]; simpl; lia.
Qed.

(** A stop that comes before the first step of a dispatched execution loses its
    slot for good: the coroutine that releases it is never entered.  Once every slot
    of the semaphore is lost, the consumer, started again or not, never asks the
    queue for a task again. *)
Theorem lost_slots_starve max_concurrent s evs s' :
  0 <= max_concurrent -> reaches max_concurrent s -> count leaked (execs s) = max_concurrent ->
  steps evs s = Some s' -> step TryAcquire s' = None.
Proof.
  intros Hm [evs0 Hs0] Hl Hs. pose proof (inv_steps _ _ _ _ (inv_init _ Hm) Hs0) as Hi0.
  pose proof (inv_steps _ _ _ _ Hi0 Hs) as [H1 _ _ _ _ _]. apply leaked_steps in Hs.
  pose proof (leaked_unreleased (execs s')). simpl. destruct (loop s') eqn:El; try done. rewrite decide_False; [done|].
  simpl in H1. lia.
Qed.

Definition lost_run : list event :=
  [Start; TryAcquire; Dequeued (Some "t1"); Stop; Exec 0 Interrupted; Gathered; StopReturns; RoundEnds; Wakes].

Lemma lost_slots_starve_witness :
  exists s s', steps lost_run (consumer_init 1) = Some s /\ steps [Start] s = Some s' /\ loop s' = LRound /\
    step TryAcquire s' = None.
Proof.
  destruct (steps lost_run (consumer_init 1)) as [s|] eqn:E; [|exfalso; vm_compute in E; discriminate].
  destruct (steps [Start] s) as [s'|] eqn:E'; [|exfalso; injection E as <-; vm_compute in E'; discriminate].
  exists s, s'. split_and!; [done|done|injection E as <-; by injection E' as <-|].
  apply (lost_slots_starve 1 s [Start] s'); [lia|by exists lost_run|injection E as <-; reflexivity|done].
Defined.

(** An execution can begin, and run, after [stop] has returned: the loop was waiting
    for the queue, and the executor does not look at its mark. *)
Definition late_run : list event :=
  [Start; TryAcquire; Stop; Gathered; StopReturns; Dequeued (Some "t1"); Exec 0 Goes; Exec 0 Goes].

Example work_after_stop :
  exists s, steps late_run (consumer_init 1) = Some s /\ stopping s = SDone 0 /\ draining s = true /\ active s = {[ "t1" ]}.
Proof. eexists. split; [reflexivity|]. done. Qed.

Lemma consumer_stop_witness :
  exists s s', steps [Start; TryAcquire; Dequeued (Some "t1"); Exec 0 Goes; Exec 0 Goes; Stop] (consumer_init 2) = Some s /\
    active s = {[ "t1" ]} /\ (exists evs, steps evs s = Some s' /\ existsb of_loop evs = false) /\ stopping s' = SDone 1.
Proof.
  destruct (steps [Start; TryAcquire; Dequeued (Some "t1"); Exec 0 Goes; Exec 0 Goes; Stop] (consumer_init 2)) as [s|] eqn:E;
    [|exfalso; vm_compute in E; discriminate].
  destruct (consumer_stop 2 ltac:(lia) s 1) as [(evs & s' & Hs & Hl & Hp) _]; [eexists; exact E|injection E as <-; reflexivity|].
  exists s, s'. split_and!; [done|injection E as <-; reflexivity|eauto|done].
Defined.
