(* ===== verification/Bundler.v ===== *)
(** * Bundling the packages

    [scripts/bundle_package.py] and [scripts/verify_manifest.py]: which files of
    [src/] a package needs, copying them with their imports rewritten, building the
    wheel, and removing the copies.  The repository is a map from paths to file
    contents; a Python file is what its import statements are and the rest of its
    text.  The order in which Python goes through a set, and in which a directory is
    listed, is a parameter.  Directories, and what pip writes, are left out. *)

From Stdlib Require Import Ascii.
From stdpp Require Import base gmap strings list sorting.
From S2P Require Import Prelude PyValue.

(** ** Files *)

(** [from m import a, b] (with [m] as the parser reports it: no text for
    [from . import a]) and [import m, n], module names split at their dots. *)
Inductive import :=
| ImportFrom (module : option (list string)) (names : list string)
| Import (modules : list (list string)).

Inductive content :=
| Python (imports : list import) (rest : string)
| Unparsable (text : string)     (* [ast.parse] raises [SyntaxError] *)
| Binary.                        (* [read_text] raises [UnicodeDecodeError] *)

(** Paths are relative to the root of the repository. *)
Notation tree := (gmap string content).

Definition in_src (rel : string) : string := "src/" +:+ rel.

(** The files below [src/], by their paths below it *)
Definition src_files (fs : tree) : gset string :=
  list_to_set (omap (strip_prefix "src/") (elements (dom fs))).

Definition PKG_MAP : list (string * string) :=
  [("task-api", "scheduler_task_api"); ("ops-api", "scheduler_ops_api");
   ("control-plane", "scheduler_control_plane"); ("agent", "scheduler_agent")].

Fixpoint join_path (parts : list string) : string :=
  match parts with
  | [] => ""
  | [p] => p
  | p :: ps => p +:+ "/" +:+ join_path ps
  end.

(** ** The files an import names *)

(** [parts[1:]] of a name below [root] *)
Definition parts_below (root : string) (m : list string) : option (list string) :=
  match m with
  | p :: x :: xs => if decide (p = root) then Some (x :: xs) else None
  | _ => None
  end.

Section Deps.
(** The name of the package imports are read against, and its files. *)
Context (root : string) (exists_ : string -> bool).

Definition when_exists (rel : string) : gset string := if exists_ rel then {[ rel ]} else ∅.

(** [inits]: a package's [__init__.py] is looked for as well. *)
Definition import_deps (inits : bool) (i : import) : gset string :=
  match i with
  | ImportFrom None _ => ∅
  | ImportFrom (Some m) names =>
      match parts_below root m with
      | None => ∅
      | Some ps =>
          let candidate := join_path ps in
          when_exists (candidate +:+ ".py") ∪
          (if inits then when_exists (candidate +:+ "/__init__.py") else ∅) ∪
          ⋃ ((λ n, when_exists (candidate +:+ "/" +:+ n +:+ ".py")) <$> names)
      end
  | Import ms =>
      ⋃ ((λ m, match parts_below root m with
               | Some ps => when_exists (join_path ps +:+ ".py")
               | None => ∅
               end) <$> ms)
  end.
End Deps.

Definition exists_in_src (fs : tree) (rel : string) : bool := bool_decide (is_Some (fs !! in_src rel)).

Definition src_deps (inits : bool) (fs : tree) (f : string) : gset string :=
  match fs !! in_src f with
  | Some (Python imports _) => ⋃ (import_deps "src" (exists_in_src fs) inits <$> imports)
  | _ => ∅
  end.

(** [_get_src_deps] of each script: the verifier's does not look for [__init__.py]. *)
Definition get_src_deps : tree -> string -> gset string := src_deps true.
Definition verify_get_src_deps : tree -> string -> gset string := src_deps false.

(** ** The manifest *)

(** The Python files of a package directory *)
Definition entry_files (fs : tree) (pkg : string) : gset string :=
  filter (λ f, starts_with (pkg +:+ "/") f && ends_with ".py" f && negb (str_contains "__pycache__" f)) (src_files fs).

Definition is_init (rel : string) : bool := ends_with "/__init__.py" rel.

Section Manifest.
Context (fs : tree) (deps : string -> gset string).
(** The order in which a set is gone through *)
Context (iter : gset string -> list string).

Definition visit_dep (visited : gset string) (st : gset string * list string) (rel : string) : gset string * list string :=
  let '(bundle, queue) := st in
  if decide (rel ∈ bundle) then st
  else ({[ rel ]} ∪ bundle, if exists_in_src fs rel && bool_decide (rel ∉ visited) then rel :: queue else queue).

(** The loop; the queue is used as a stack, its top first. *)
Fixpoint manifest_loop (fuel : nat) (visited bundle : gset string) (queue : list string) : option (gset string) :=
  match queue with
  | [] => Some bundle
  | f :: queue' =>
      match fuel with
      | O => None
      | S fuel' =>
          if decide (f ∈ visited) then manifest_loop fuel' visited bundle queue' else
          let visited := {[ f ]} ∪ visited in
          let '(bundle, queue') := foldl (visit_dep visited) (bundle, queue') (iter (deps f)) in
          manifest_loop fuel' visited bundle queue'
      end
  end.

Definition manifest_fuel (entries : list string) : nat := length entries + size (src_files fs).

Definition manifest_set (pkg : string) : option (gset string) :=
  let entries := iter (entry_files fs pkg) in
  manifest_loop (manifest_fuel entries) ∅ ∅ (reverse entries).
End Manifest.

(** [compute_manifest] of the bundler, and of the verifier (a set) *)
Definition compute_manifest (fs : tree) (iter : gset string -> list string) (pkg : string) : option (list string) :=
  bundle ← manifest_set fs (get_src_deps fs) iter pkg;
  Some (merge_sort String.le (filter (λ r, is_init r = false) (iter bundle))).

Definition verify_compute_manifest (fs : tree) (iter : gset string -> list string) (pkg : string) : option (gset string) :=
  bundle ← manifest_set fs (verify_get_src_deps fs) iter pkg;
  Some (filter (λ r, is_init r = false) bundle).

(** [verify_manifest.main]: the exit code *)
Definition verify_main (fs : tree) (iter : gset string -> list string) : option Z :=
  let check svc_pkg := computed ← verify_compute_manifest fs iter (snd svc_pkg);
                       Some (bool_decide (filter (λ r, exists_in_src fs r = false) computed = ∅)) in
  oks ← mapM check PKG_MAP;
  Some (if forallb id oks then 0 else 1)%Z.

(** ** What the manifest should be *)

(** The modules below [root] that a statement names, by what Python's import
    statement means: [import root.a.b] names a.b, [from root.a import b] names a and,
    where [b] is one, the module a.b.  (Names of [root] itself, as in
    [from root import a], are not among them.) *)
Inductive refers (root : string) : import -> list string -> Prop :=
| refers_import ms ps : (root :: ps) ∈ ms -> ps <> [] -> refers root (Import ms) ps
| refers_from ps names : ps <> [] -> refers root (ImportFrom (Some (root :: ps)) names) ps
| refers_from_name ps names n :
    ps <> [] -> n ∈ names -> refers root (ImportFrom (Some (root :: ps)) names) (ps ++ [n]).

Definition module_file (ps : list string) : string := join_path ps +:+ ".py".
Definition marker_file (ps : list string) : string := join_path ps +:+ "/__init__.py".

Definition has_import (fs : tree) (f : string) (i : import) : Prop :=
  exists imports rest, fs !! in_src f = Some (Python imports rest) /\ i ∈ imports.

(** File [f] imports file [r] of [src/]: the file of a module one of its statements
    names, or the marker of the package a [from] statement imports from. *)
Inductive imports_file (fs : tree) (f : string) : string -> Prop :=
| imports_module i ps :
    has_import fs f i -> refers "src" i ps -> is_Some (fs !! in_src (module_file ps)) ->
    imports_file fs f (module_file ps)
| imports_marker ps names :
    has_import fs f (ImportFrom (Some ("src" :: ps)) names) -> ps <> [] ->
    is_Some (fs !! in_src (marker_file ps)) -> imports_file fs f (marker_file ps).

(** The files a package needs: those its own files import, those these import, and
    so on. *)
Inductive needed (fs : tree) (pkg : string) : string -> Prop :=
| needed_own e r : e ∈ entry_files fs pkg -> imports_file fs e r -> needed fs pkg r
| needed_more f r : needed fs pkg f -> imports_file fs f r -> needed fs pkg r.

(** *** The scripts' own look-up finds these files *)

Lemma parts_below_spec root m ps : parts_below root m = Some ps <-> m = root :: ps /\ ps <> [].
Proof.
  unfold parts_below. destruct m as [|p [|x xs]]; [naive_solver..|].
  destruct (decide (p = root)); naive_solver.
Qed.

Lemma join_path_snoc ps n : ps <> [] -> join_path (ps ++ [n]) = join_path ps +:+ "/" +:+ n.
Proof.
  induction ps as [|p ps IH]; [done|]. intros _. destruct ps as [|q ps]; [done|].
  change (join_path ((p :: q :: ps) ++ [n])) with (p +:+ "/" +:+ join_path ((q :: ps) ++ [n])).
  rewrite IH by done. change (join_path (p :: q :: ps)) with (p +:+ "/" +:+ join_path (q :: ps)).
  by rewrite <-!string_app_assoc.
Qed.

Lemma elem_of_when_exists ex rel r : r ∈ when_exists ex rel <-> r = rel /\ ex rel = true.
Proof. unfold when_exists. destruct (ex rel); set_solver. Qed.

Lemma import_deps_spec root ex inits i r :
  r ∈ import_deps root ex inits i <->
  ex r = true /\ ((exists ps, refers root i ps /\ r = module_file ps) \/
    inits = true /\ exists ps names, i = ImportFrom (Some (root :: ps)) names /\ ps <> [] /\ r = marker_file ps).
Proof.
  destruct i as [[m|] names|ms]; simpl.
  - destruct (parts_below root m) as [ps|] eqn:Em.
    + apply parts_below_spec in Em as [-> Hps]. rewrite !elem_of_union, elem_of_union_list. split.
      * intros [[[-> ?]%elem_of_when_exists|Hi]|(X & (n & -> & Hn)%list_elem_of_fmap & [-> ?]%elem_of_when_exists)].
        -- split; [done|]. left. exists ps. split; [by constructor|done].
        -- destruct inits; [|set_solver]. apply elem_of_when_exists in Hi as [-> ?]. split; [done|]. right. split; [done|].
           by exists ps, names.
        -- split; [done|]. left. exists (ps ++ [n]). split; [by constructor|]. unfold module_file.
           by rewrite join_path_snoc, <-!string_app_assoc.
      * intros [He [(qs & Hr & ->)|(-> & qs & ns & [= <- <-] & _ & ->)]].
        -- inversion Hr; subst; [left; left; by apply elem_of_when_exists|]. right. eexists.
           split; [apply list_elem_of_fmap; by eexists|]. apply elem_of_when_exists. unfold module_file in *.
           by rewrite join_path_snoc, <-!string_app_assoc in *.
        -- left; right. by apply elem_of_when_exists.
    + split; [set_solver|]. assert (∀ ps, m = root :: ps -> ps <> [] -> False) as Hno.
      { intros ps -> Hps. by rewrite (proj2 (parts_below_spec root (root :: ps) ps)) in Em. }
      intros [_ [(ps & Hr & _)|(_ & ps & ns & [= ->] & Hps & _)]]; [inversion Hr; subst|]; exfalso; by eapply Hno.
  - split; [set_solver|]. intros [_ [(ps & Hr & _)|(_ & ps & ns & ? & _)]]; [inversion Hr|done].
  - rewrite elem_of_union_list. split.
    + intros (X & (m & -> & Hm)%list_elem_of_fmap & Hr). destruct (parts_below root m) as [ps|] eqn:Em; [|set_solver].
      apply parts_below_spec in Em as [-> Hps]. apply elem_of_when_exists in Hr as [-> ?]. split; [done|]. left.
      exists ps. split; [by constructor|done].
    + intros [He [(ps & Hr & ->)|(_ & ps & ns & ? & _)]]; [|done]. inversion Hr as [? ? Hm Hps| |]; subst.
      eexists. split; [apply list_elem_of_fmap; by exists (root :: ps)|].
      rewrite (proj2 (parts_below_spec root (root :: ps) ps)) by done. by apply elem_of_when_exists.
Qed.

Lemma get_src_deps_spec fs f r : r ∈ get_src_deps fs f <-> imports_file fs f r.
Proof.
  unfold get_src_deps, src_deps. split.
  - destruct (fs !! in_src f) as [[imports rest|x|]|] eqn:Ef; [|set_solver..]. rewrite elem_of_union_list.
    intros (X & (i & -> & Hi)%list_elem_of_fmap & [He Hr]%import_deps_spec). apply bool_decide_eq_true in He.
    assert (Hh : has_import fs f i) by (by exists imports, rest).
    destruct Hr as [(ps & Hp & ->)|(_ & ps & names & -> & Hps & ->)]; [by eapply imports_module|by eapply imports_marker].
  - intros Hr. assert (exists i, has_import fs f i /\ r ∈ import_deps "src" (exists_in_src fs) true i) as (i & (l & rest & -> & Hi) & Hin).
    { destruct Hr as [i ps Hh Hp He|ps names Hh Hps He]; eexists; (split; [exact Hh|]); apply import_deps_spec;
        (split; [by apply bool_decide_eq_true|]); [left|right]; naive_solver. }
    apply elem_of_union_list. eexists. split; [apply list_elem_of_fmap; by eexists|done].
Qed.

(** ** The loop computes it *)

(** What can be reached from the entries through [deps] *)
Inductive closure (deps : string -> gset string) (entries : gset string) : string -> Prop :=
| closure_entry e r : e ∈ entries -> r ∈ deps e -> closure deps entries r
| closure_step f r : closure deps entries f -> r ∈ deps f -> closure deps entries r.

Lemma closure_needed fs pkg r : closure (get_src_deps fs) (entry_files fs pkg) r <-> needed fs pkg r.
Proof.
  split; induction 1; [eapply needed_own|eapply needed_more|eapply closure_entry|eapply closure_step]; eauto;
    by apply get_src_deps_spec.
Qed.

Lemma elem_of_src_files fs r : r ∈ src_files fs <-> is_Some (fs !! in_src r).
Proof.
  unfold src_files. rewrite elem_of_list_to_set, list_elem_of_omap. setoid_rewrite elem_of_elements.
  setoid_rewrite elem_of_dom. split.
  - intros (k & Hk & ->%strip_prefix_Some). done.
  - intros Hr. exists (in_src r). split; [done|apply strip_prefix_app].
Qed.

Lemma exists_src_files fs r : exists_in_src fs r = true <-> r ∈ src_files fs.
Proof. unfold exists_in_src. by rewrite bool_decide_eq_true, elem_of_src_files. Qed.

Lemma import_deps_exist root ex inits i r : r ∈ import_deps root ex inits i -> ex r = true.
Proof. by intros [? _]%import_deps_spec. Qed.

Lemma src_deps_exist inits fs f r : r ∈ src_deps inits fs f -> exists_in_src fs r = true.
Proof.
  unfold src_deps. destruct (fs !! in_src f) as [[imports rest|t|]|]; [|set_solver..].
  rewrite elem_of_union_list. intros (X & (i & -> & _)%list_elem_of_fmap & H). by eapply import_deps_exist.
Qed.

Section Loop.
Context (fs : tree) (deps : string -> gset string) (iter : gset string -> list string) (entries : gset string).
Context (Hiter : ∀ X, iter X ≡ₚ elements X).
Context (Hdeps : ∀ f r, r ∈ deps f -> exists_in_src fs r = true).

Lemma elem_of_iter X r : r ∈ iter X <-> r ∈ X.
Proof. by rewrite Hiter, elem_of_elements. Qed.

(** One file's dependencies *)
Lemma visit_spec visited l : ∀ b q b' q',
  (∀ r, r ∈ l -> exists_in_src fs r = true) ->
  foldl (visit_dep fs visited) (b, q) l = (b', q') ->
  (∀ r, r ∈ b' <-> r ∈ b \/ r ∈ l) /\ (∀ r, r ∈ q -> r ∈ q') /\ (∀ r, r ∈ q' -> r ∈ q \/ r ∈ l) /\
  (∀ r, r ∈ l -> r ∈ b \/ r ∈ visited \/ r ∈ q') /\ (length q' + size b <= length q + size b')%nat.
Proof.
  induction l as [|x l IH]; intros b q b' q' Hl; simpl; [intros H; injection H as <- <-; set_solver by lia|].
  assert (Hl' : ∀ r, r ∈ l -> exists_in_src fs r = true) by (intros; apply Hl; by right).
  destruct (decide (x ∈ b)) as [Hx|Hx]; intros E.
  - destruct (IH _ _ _ _ Hl' E) as (H1 & H2 & H3 & H4 & H5). split_and!; [|done| | |done]; intros r.
    + rewrite elem_of_cons, H1. destruct (decide (r = x)) as [-> |]; tauto.
    + intros [?|?]%H3; [auto|right; by right].
    + intros [-> |?]%elem_of_cons; auto.
  - rewrite (Hl x) in E by by left. simpl in E.
    destruct (IH _ _ _ _ Hl' E) as (H1 & H2 & H3 & H4 & H5).
    rewrite size_union, size_singleton in H5 by set_solver.
    assert (H1' : ∀ r, r ∈ b' <-> r ∈ b \/ r = x \/ r ∈ l)
      by (intros r; rewrite H1, elem_of_union, elem_of_singleton; tauto).
    assert (H4' : ∀ r, r ∈ l -> r = x \/ r ∈ b \/ r ∈ visited \/ r ∈ q')
      by (intros r [[?%elem_of_singleton|?]%elem_of_union|[?|?]]%H4; auto).
    case_bool_decide as Hv; simpl in H5; split_and!; try lia; intros r; rewrite ?elem_of_cons, ?H1'.
    + tauto.
    + intros Hr. apply H2. by right.
    + intros [[-> |?]%elem_of_cons|?]%H3; auto.
    + intros [-> |[-> |?]%H4']; [|right; right; apply H2; by left|done]. right; right. apply H2. by left.
    + tauto.
    + apply H2.
    + intros [?|?]%H3; auto.
    + intros [-> |[-> |?]%H4']; auto.
Qed.

Record loop_inv (visited bundle : gset string) (queue : list string) : Prop := {
  inv_entries r : r ∈ entries -> r ∈ visited \/ r ∈ queue;
  inv_bundle r : r ∈ bundle -> r ∈ visited \/ r ∈ queue;
  inv_visited f r : f ∈ visited -> r ∈ deps f -> r ∈ bundle;
  inv_seen r : r ∈ visited \/ r ∈ queue -> r ∈ entries \/ closure deps entries r;
  inv_needed r : r ∈ bundle -> closure deps entries r
}.

Lemma closure_exists r : closure deps entries r -> r ∈ src_files fs.
Proof. intros H. apply exists_src_files. destruct H; by eapply Hdeps. Qed.

Lemma inv_pop visited bundle f queue : loop_inv visited bundle (f :: queue) -> f ∈ visited -> loop_inv visited bundle queue.
Proof. intros [H1 H2 H3 H4 H5] Hf. split; set_solver. Qed.

Lemma inv_visit visited bundle f queue bundle' queue' :
  loop_inv visited bundle (f :: queue) ->
  foldl (visit_dep fs ({[ f ]} ∪ visited)) (bundle, queue) (iter (deps f)) = (bundle', queue') ->
  loop_inv ({[ f ]} ∪ visited) bundle' queue' /\ (length queue' + size bundle <= length queue + size bundle')%nat.
Proof.
  intros [H1 H2 H3 H4 H5] E.
  destruct (visit_spec _ _ _ _ _ _ (λ r Hr, Hdeps f r (proj1 (elem_of_iter _ _) Hr)) E) as (V1 & V2 & V3 & V4 & V5).
  setoid_rewrite elem_of_iter in V1. setoid_rewrite elem_of_iter in V3. setoid_rewrite elem_of_iter in V4.
  assert (Hn : ∀ r, r ∈ deps f -> closure deps entries r).
  { intros r Hr. destruct (H4 f) as [Hf|Hf]; [right; left|by eapply closure_entry|by eapply closure_step]. }
  split; [|done]. split.
  - intros r Hr. destruct (H1 r Hr) as [?|[-> |?]%elem_of_cons]; set_solver.
  - intros r [Hr|Hr]%V1; [destruct (H2 r Hr) as [?|[-> |?]%elem_of_cons]; set_solver|].
    destruct (V4 r Hr) as [Hb|[?|?]]; [|set_solver..]. destruct (H2 r Hb) as [?|[-> |?]%elem_of_cons]; set_solver.
  - intros g r [Hg%elem_of_singleton|Hg]%elem_of_union Hr; [subst g|]; apply V1; [by right|left; by eapply H3].
  - intros r [[Hr%elem_of_singleton|Hr]%elem_of_union|[Hr|Hr]%V3]; [subst r; apply H4; right; left|apply H4; by left|
      apply H4; right; by right|right; auto].
  - intros r [Hr|Hr]%V1; auto.
Qed.

(** With an empty queue the bundle is closed. *)
Lemma inv_done visited bundle : loop_inv visited bundle [] -> ∀ r, r ∈ bundle <-> closure deps entries r.
Proof.
  intros [H1 H2 H3 H4 H5] r. split; [apply H5|].
  induction 1 as [e r He Hr|g r _ IHg Hr]; (eapply H3; [|exact Hr]).
  - destruct (H1 e He) as [?|[]%elem_of_nil]; done.
  - destruct (H2 g IHg) as [?|[]%elem_of_nil]; done.
Qed.

(** The loop ends, with the files needed. *)
Lemma loop_correct fuel : ∀ visited bundle queue,
  loop_inv visited bundle queue -> (length queue + size (src_files fs) <= fuel + size bundle)%nat ->
  exists b, manifest_loop fs deps iter fuel visited bundle queue = Some b /\ ∀ r, r ∈ b <-> closure deps entries r.
Proof.
  induction fuel as [|fuel IH]; intros visited bundle queue Hinv Hm.
  all: assert (Hsz : (size bundle <= size (src_files fs))%nat)
    by (apply subseteq_size; intros r Hr; eapply closure_exists, inv_needed; [exact Hinv|done]).
  all: destruct queue as [|f queue]; simpl.
  - exists bundle. split; [done|]. by apply inv_done with visited.
  - simpl in Hm. lia.
  - exists bundle. split; [done|]. by apply inv_done with visited.
  - simpl in Hm. destruct (decide (f ∈ visited)) as [Hf|Hf].
    + apply IH; [by eapply inv_pop|lia].
    + destruct (foldl _ _ _) as [b' q'] eqn:E. destruct (inv_visit _ _ _ _ _ _ Hinv E) as [Hi Hs].
      apply IH; [done|lia].
Qed.
End Loop.

(** Both scripts' manifests, from the files of the package. *)
Lemma manifest_set_needed fs deps iter pkg :
  (∀ X, iter X ≡ₚ elements X) -> (∀ f r, r ∈ deps f -> exists_in_src fs r = true) ->
  exists b, manifest_set fs deps iter pkg = Some b /\ ∀ r, r ∈ b <-> closure deps (entry_files fs pkg) r.
Proof.
  intros Hi Hd. unfold manifest_set, manifest_fuel. apply loop_correct; [done|done| |].
  - split; try set_solver.
    + intros r Hr. right. by rewrite elem_of_reverse, Hi, elem_of_elements.
    + intros r [?|Hr]; [set_solver|]. left. by rewrite elem_of_reverse, Hi, elem_of_elements in Hr.
  - rewrite length_reverse. lia.
Qed.

Lemma manifest_list fs iter pkg :
  (∀ X, iter X ≡ₚ elements X) ->
  exists l, compute_manifest fs iter pkg = Some l /\ NoDup l /\ Sorted String.le l /\
    ∀ r, r ∈ l <-> needed fs pkg r /\ is_init r = false.
Proof.
  intros Hi. destruct (manifest_set_needed fs (get_src_deps fs) iter pkg Hi (src_deps_exist true fs)) as (b & E & Hb).
  unfold compute_manifest. rewrite E. eexists. split; [done|]. split_and!.
  - rewrite merge_sort_Permutation. apply NoDup_filter. rewrite Hi. apply NoDup_elements.
  - apply (Sorted_merge_sort String.le).
  - intros r. rewrite merge_sort_Permutation, list_elem_of_filter, Hi, elem_of_elements, Hb, closure_needed. tauto.
Qed.

(** C39: in whatever order Python goes through its sets and directories,
    [compute_manifest] ends and its answer is the same strictly increasing list: the
    files, package markers apart, that can be reached from the package's own files
    through import statements, as the meaning of these statements has it.  So the list
    is closed: a module that a statement of the package or of a listed file names by
    [import src...] or [from src... import ...] is listed if it is a file of [src/].
    (A marker is followed only where a [from] statement imports from its package:
    what the markers of outer packages import, the marker of a package named by
    [import], relative imports and [from src import] are not looked at.) *)
Theorem manifest_exact fs iter pkg :
  (∀ X, iter X ≡ₚ elements X) ->
  exists l, compute_manifest fs iter pkg = Some l /\
    (∀ r, r ∈ l <-> needed fs pkg r /\ is_init r = false) /\
    (∀ f i ps, f ∈ entry_files fs pkg \/ f ∈ l -> has_import fs f i -> refers "src" i ps ->
       is_Some (fs !! in_src (module_file ps)) -> is_init (module_file ps) = false -> module_file ps ∈ l) /\
    NoDup l /\ Sorted String.le l /\
    ∀ iter', (∀ X, iter' X ≡ₚ elements X) -> compute_manifest fs iter' pkg = Some l.
Proof.
  intros Hi. destruct (manifest_list fs iter pkg Hi) as (l & E & Hd & Hs & Hl). exists l. split_and!; [done|done| |done|done|].
  - intros f i ps Hf Hh Hp He Hno. apply Hl. split; [|done]. assert (Hr : imports_file fs f (module_file ps)) by by eapply imports_module.
    destruct Hf as [Hf|[Hf _]%Hl]; [by eapply needed_own|by eapply needed_more].
  - intros iter' Hi'. destruct (manifest_list fs iter' pkg Hi') as (l' & E' & Hd' & Hs' & Hl'). rewrite E'. f_equal.
    apply (Sorted_unique String.le); [done|done|]. apply NoDup_Permutation; [done|done|]. intros r. by rewrite Hl, Hl'.
Qed.

(** ** Rewriting *)

Definition rewrite_module (pkg : string) (m : list string) : list string :=
  match parts_below "src" m with Some ps => pkg :: ps | None => m end.

(** [_ImportRewriter]: [visit_ImportFrom], [visit_Import] *)
Definition rewrite_import (pkg : string) (i : import) : import :=
  match i with
  | ImportFrom m names => ImportFrom (rewrite_module pkg <$> m) names
  | Import ms => Import (rewrite_module pkg <$> ms)
  end.

Definition is_word (c : ascii) : bool :=
  let n := nat_of_ascii c in
  (is_digit c || ((65 <=? n) && (n <=? 90)) || ((97 <=? n) && (n <=? 122)) || (n =? 95))%nat.

(** [re.sub(r"\bsrc\.", pkg + ".", text)]; [after_word]: the character before is of
    a word, [skip]: how many characters of a match are left *)
Fixpoint regex_rewrite (pkg : string) (after_word : bool) (skip : nat) (s : string) : string :=
  match s with
  | EmptyString => EmptyString
  | String c s' =>
      match skip with
      | S k => regex_rewrite pkg (is_word c) k s'
      | O =>
          if negb after_word && starts_with "src." s then pkg +:+ "." +:+ regex_rewrite pkg (is_word c) 3 s'
          else String c (regex_rewrite pkg (is_word c) 0 s')
      end
  end.

Definition rewrite_imports (pkg : string) (c : content) : content :=
  match c with
  | Python imports rest => Python (rewrite_import pkg <$> imports) rest
  | Unparsable text => Unparsable (regex_rewrite pkg false 0 text)
  | Binary => Binary
  end.

(** ** Bundling *)

Definition pkg_dir (svc pkg : string) : string := "packages/" +:+ svc +:+ "/src/" +:+ pkg +:+ "/".

(** What is copied from where to where, and whether its imports are rewritten. *)
Record copy := { c_from : string; c_to : string; c_rewrite : bool }.

#[global] Instance copy_eq_dec : EqDecision copy.
Proof. solve_decision. Defined.

Definition read_text (path : string) (fs : tree) : exn + content :=
  match fs !! path with
  | None => inl (Exn RuntimeError "FileNotFoundError")
  | Some Binary => inl (Exn ValueError "UnicodeDecodeError")
  | Some c => inr c
  end.

Definition written (pkg : string) (c : copy) (x : content) : content :=
  if c_rewrite c then rewrite_imports pkg x else x.

(** The files written so far, until one cannot be read. *)
Fixpoint copy_all (pkg : string) (cs : list copy) (fs : tree) (copied : list string) : tree * list string * (exn + unit) :=
  match cs with
  | [] => (fs, copied, inr tt)
  | c :: cs' =>
      match read_text (c_from c) fs with
      | inl e => (fs, copied, inl e)
      | inr x => copy_all pkg cs' (<[c_to c := written pkg c x]> fs) (copied ++ [c_to c])
      end
  end.

Definition REDIS_HA : string := "common/redis_ha.py".

(** Paths compare by their components: a separator sorts before every character. *)
Definition path_le (a b : string) : Prop :=
  String.le (str_replace_char "/"%char (ascii_of_nat 0) a) (str_replace_char "/"%char (ascii_of_nat 0) b).

#[global] Instance path_le_dec a b : Decision (path_le a b).
Proof. unfold path_le. apply _. Defined.

Section Bundle.
Context (iter : gset string -> list string).
(** What [pip wheel] answers on the tree it finds *)
Context (wheel : tree -> exn + unit).

Definition infra_files (fs : tree) (pkg : string) : list string :=
  merge_sort path_le (filter (λ f, starts_with (pkg +:+ "/infra/") f && ends_with ".py" f &&
                                   negb (str_contains "__pycache__" f)) (iter (src_files fs))).

Definition copies (fs : tree) (svc pkg : string) (manifest : list string) : list copy :=
  let dst rel := pkg_dir svc pkg +:+ rel in
  ((λ r, {| c_from := in_src r; c_to := dst r; c_rewrite := true |}) <$> manifest) ++
  (if exists_in_src fs REDIS_HA && bool_decide (REDIS_HA ∉ manifest)
   then [{| c_from := in_src REDIS_HA; c_to := dst REDIS_HA; c_rewrite := true |}] else []) ++
  ((λ f, {| c_from := in_src f; c_to := dst (default f (strip_prefix (pkg +:+ "/") f)); c_rewrite := false |})
     <$> infra_files fs pkg).

(** [bundle]: the tree at the end, the tree the wheel was built from, and the
    answer. *)
Definition bundle (build_wheel clean : bool) (svc : string) (fs : tree) : option (tree * option tree * (exn + unit)) :=
  match dict_get svc PKG_MAP with
  | None => Some (fs, None, inl (Exn KeyError svc))
  | Some pkg =>
      manifest ← compute_manifest fs iter pkg;
      let '(fs1, copied, r) := copy_all pkg (copies fs svc pkg manifest) fs [] in
      let '(built, r) :=
        match r with
        | inl e => (None, inl e)
        | inr _ => if build_wheel then (Some fs1, wheel fs1) else (None, inr tt)
        end in
      Some (if clean then foldl (λ t f, delete f t) fs1 copied else fs1, built, r)
  end.

(** The services of the command line in turn: the tree, and the exit code or the
    exception that ends the script. *)
Fixpoint main_loop (manifest_only : bool) (services : list string) (fs : tree) : option (tree * (exn + Z)) :=
  match services with
  | [] => Some (fs, inr 0%Z)
  | svc :: services' =>
      if negb (dict_has svc PKG_MAP) then Some (fs, inr 1%Z)
      else if manifest_only then main_loop manifest_only services' fs
      else '(fs', _, r) ← bundle true true svc fs;
           match r with inl e => Some (fs', inl e) | inr _ => main_loop manifest_only services' fs' end
  end.

Definition main (args : list string) (fs : tree) : option (tree * (exn + Z)) :=
  let services := filter (λ a, starts_with "--" a = false) args in
  main_loop (bool_decide ("--manifest-only" ∈ args))
    (match services with [] => PKG_MAP.*1 | _ => services end) fs.
End Bundle.

(** ** The copies *)

Section Copies.
Context (pkg : string).

Lemma copy_all_mono cs k : ∀ fs copied, is_Some (fs !! k) -> is_Some ((copy_all pkg cs fs copied).1.1 !! k).
Proof.
  induction cs as [|c cs IH]; intros fs copied H; simpl; [done|]. destruct (read_text _ _); [done|].
  apply IH. destruct (decide (c_to c = k)) as [-> |]; [rewrite lookup_insert_eq; eauto|by rewrite lookup_insert_ne].
Qed.

Lemma copy_all_frame cs k : ∀ fs copied, k ∉ c_to <$> cs -> (copy_all pkg cs fs copied).1.1 !! k = fs !! k.
Proof.
  induction cs as [|c cs IH]; intros fs copied Hk; simpl; [done|]. destruct (read_text _ _); [done|].
  rewrite IH by set_solver. rewrite lookup_insert_ne; [done|]. set_solver.
Qed.

Lemma copy_all_copied cs : ∀ fs copied k,
  (k ∈ copied -> k ∈ (copy_all pkg cs fs copied).1.2) /\
  (k ∈ (copy_all pkg cs fs copied).1.2 -> k ∈ copied \/ k ∈ c_to <$> cs) /\
  (k ∉ (copy_all pkg cs fs copied).1.2 -> (copy_all pkg cs fs copied).1.1 !! k = fs !! k).
Proof.
  induction cs as [|c cs IH]; intros fs copied k; simpl; [tauto|]. destruct (read_text _ _) as [e|x]; [simpl; tauto|].
  destruct (IH (<[c_to c := written pkg c x]> fs) (copied ++ [c_to c]) k) as (I1 & I2 & I3). split_and!.
  - intros Hk. apply I1. set_solver.
  - intros [Hk|Hk]%I2; set_solver.
  - intros Hk. rewrite I3 by done. rewrite lookup_insert_ne; [done|]. intros <-. apply Hk, I1. set_solver.
Qed.

Lemma copy_all_present cs : ∀ fs copied c,
  (copy_all pkg cs fs copied).2 = inr tt -> c ∈ cs -> is_Some ((copy_all pkg cs fs copied).1.1 !! c_to c).
Proof.
  induction cs as [|d cs IH]; intros fs copied c Hr Hc; simpl in *; [by apply elem_of_nil in Hc|].
  destruct (read_text (c_from d) fs) as [e|x]; [done|].
  apply elem_of_cons in Hc as [-> |Hc]; [|by apply IH]. apply copy_all_mono. rewrite lookup_insert_eq. eauto.
Qed.

(** A destination written once holds what was read from its source, if no source is
    a destination. *)
Lemma copy_all_content cs : ∀ fs copied c,
  (copy_all pkg cs fs copied).2 = inr tt -> c ∈ cs ->
  (∀ d, d ∈ cs -> c_to d = c_to c -> d = c) -> c_from c ∉ c_to <$> cs ->
  exists x, read_text (c_from c) fs = inr x /\ (copy_all pkg cs fs copied).1.1 !! c_to c = Some (written pkg c x).
Proof.
  induction cs as [|d cs IH]; intros fs copied c Hr Hc Hone Hsrc; simpl in *; [by apply elem_of_nil in Hc|].
  destruct (read_text (c_from d) fs) as [e|x] eqn:Ex; [done|].
  destruct (decide (c ∈ cs)) as [Hin|Hin].
  - destruct (IH (<[c_to d := written pkg d x]> fs) (copied ++ [c_to d]) c) as (y & Hy & Hl); [done|done|set_solver|set_solver|].
    exists y. split; [|done]. revert Hy. unfold read_text. rewrite lookup_insert_ne; [done|]. set_solver.
  - apply elem_of_cons in Hc as [-> |?]; [|done]. exists x. split; [done|]. rewrite copy_all_frame; [by rewrite lookup_insert_eq|].
    intros (c' & Hc' & Hin')%list_elem_of_fmap. assert (c' = d) by (apply Hone; [by right|done]). by subst.
Qed.

Lemma foldl_delete l k : ∀ fs : tree, foldl (λ t f, delete f t) fs l !! k = if decide (k ∈ l) then None else fs !! k.
Proof.
  induction l as [|f l IH]; intros fs; cbn [foldl]; [by destruct (decide _) as [[]%elem_of_nil|]|].
  rewrite IH. destruct (decide (k ∈ l)) as [Hk|Hk], (decide (k ∈ f :: l)) as [Hf|Hf]; [done|set_solver| |].
  - apply elem_of_cons in Hf as [-> |?]; [by rewrite lookup_delete_eq|done].
  - rewrite lookup_delete_ne; [done|]. intros ->. apply Hf. by left.
Qed.
End Copies.

(** The rewritten statement names in the package what the statement names in [src]. *)
Lemma refers_rewrite pkg i ps : refers "src" i ps -> refers pkg (rewrite_import pkg i) ps.
Proof.
  assert (Hw : ∀ qs, qs <> [] -> rewrite_module pkg ("src" :: qs) = pkg :: qs).
  { intros qs Hq. unfold rewrite_module. by rewrite (proj2 (parts_below_spec "src" ("src" :: qs) qs)). }
  intros [ms qs Hm Hq|qs names Hq|qs names n Hq Hn]; simpl; rewrite ?Hw by done; [|by constructor..].
  constructor; [|done]. rewrite <-(Hw qs) by done. by apply list_elem_of_fmap_2.
Qed.

Section Bundled.
Context (iter : gset string -> list string) (Hiter : ∀ X, iter X ≡ₚ elements X).
Context (wheel : tree -> exn + unit).

Lemma copies_to fs svc pkg manifest c :
  c ∈ copies iter fs svc pkg manifest ->
  (exists rel, c_to c = pkg_dir svc pkg +:+ rel) /\ exists rel, c_from c = in_src rel.
Proof.
  unfold copies. rewrite !elem_of_app, !list_elem_of_fmap.
  intros [(r & -> & _)|[Hc|(f & -> & _)]]; simpl; [eauto| |eauto].
  destruct (_ && _); [|by apply elem_of_nil in Hc]. apply list_elem_of_singleton in Hc as ->. simpl. eauto.
Qed.

(** A source is never a destination. *)
Lemma src_not_copied fs svc pkg manifest rel : in_src rel ∉ c_to <$> copies iter fs svc pkg manifest.
Proof. intros (c & Hc & [[r Hr] _]%copies_to)%list_elem_of_fmap. rewrite Hr in Hc. done. Qed.

(** No file is in a directory the bundler writes to. *)
Definition packages_empty (fs : tree) : Prop :=
  ∀ svc pkg rel, dict_get svc PKG_MAP = Some pkg -> fs !! (pkg_dir svc pkg +:+ rel) = None.

Lemma bundle_restored build_wheel svc fs :
  packages_empty fs -> exists built r, bundle iter wheel build_wheel true svc fs = Some (fs, built, r).
Proof.
  intros Hfresh. unfold bundle. destruct (dict_get svc PKG_MAP) as [pkg|] eqn:Ep; [|eauto].
  destruct (manifest_list fs iter pkg Hiter) as (l & -> & _). simpl. destruct (copy_all pkg (copies iter fs svc pkg l) fs []) as [[fs1 copied] r] eqn:E.
  assert (Hback : foldl (λ t f, delete f t) fs1 copied = fs).
  { apply map_eq. intros k. rewrite foldl_delete.
    destruct (copy_all_copied pkg (copies iter fs svc pkg l) fs [] k) as (_ & I2 & I3). rewrite E in I2, I3. simpl in *.
    destruct (decide (k ∈ copied)) as [Hk|Hk]; [|by apply I3]. destruct (I2 Hk) as [[]%elem_of_nil|Hin].
    apply list_elem_of_fmap in Hin as (c & -> & [[rel ->] _]%copies_to). symmetry. by apply (Hfresh svc). }
  destruct r as [e|[]]; [|destruct build_wheel]; rewrite Hback; eauto.
Qed.

Lemma main_loop_restored mo services fs :
  packages_empty fs -> exists r, main_loop iter wheel mo services fs = Some (fs, r).
Proof.
  intros Hfresh. induction services as [|svc services IH]; simpl; [eauto|].
  destruct (negb (dict_has svc PKG_MAP)); [eauto|]. destruct mo; [apply IH|].
  destruct (bundle_restored true svc fs Hfresh) as (built & r & ->). simpl. destruct r as [e|[]]; [eauto|apply IH].
Qed.

(** A run of the bundler ends and leaves the repository as it was, if the
    package directories it writes to had no files: whatever services are asked for,
    whatever the builds of the wheels answer, and also when a file cannot be read
    half-way through the copying. *)
Theorem bundler_restores args fs :
  packages_empty fs -> exists r, main iter wheel args fs = Some (fs, r).
Proof.
  intros Hfresh. unfold main. by apply main_loop_restored.
Qed.

(** Where a copy in the package's directory comes from *)
Lemma copies_cases fs svc pkg manifest c rel :
  c ∈ copies iter fs svc pkg manifest -> c_to c = pkg_dir svc pkg +:+ rel ->
  (rel ∈ manifest /\ c = {| c_from := in_src rel; c_to := pkg_dir svc pkg +:+ rel; c_rewrite := true |}) \/
  (rel = REDIS_HA /\ REDIS_HA ∉ manifest) \/ starts_with "infra/" rel = true.
Proof.
  unfold copies. rewrite !elem_of_app, !list_elem_of_fmap.
  intros [(r & -> & Hr)|[Hc|(f & -> & Hf)]] Hto; simpl in Hto.
  - apply (inj (String.app _)) in Hto as ->. by left.
  - destruct (exists_in_src fs REDIS_HA && bool_decide (REDIS_HA ∉ manifest)) eqn:E; [|by apply elem_of_nil in Hc].
    apply list_elem_of_singleton in Hc as ->. simpl in Hto. apply (inj (String.app _)) in Hto as <-.
    apply andb_true_iff in E as [_ E%bool_decide_eq_true]. auto.
  - right; right. apply (inj (String.app _)) in Hto as <-. unfold infra_files in Hf.
    rewrite merge_sort_Permutation, list_elem_of_filter in Hf. destruct Hf as [Hf _].
    destruct (starts_with (pkg +:+ "/infra/") f) eqn:E; [|done]. apply starts_with_inv in E as [s ->].
    replace ((pkg +:+ "/infra/") +:+ s) with ((pkg +:+ "/") +:+ ("infra/" +:+ s)) by (rewrite <-!string_app_assoc; reflexivity).
    by rewrite strip_prefix_app.
Qed.

(** C40: the tree the bundler builds a wheel from, when the package's target
    directory was empty and the copying got that far.  It has [src/] as it was.  Each
    file the package needs that can be parsed, is no package marker and not below
    [infra/] is in the package's directory with its imports rewritten, and whatever
    module of [src/] one of its statements names, the rewritten statement names in the
    package, where that module's file is again, unless it is a package marker (which
    are never copied).  Nothing else is in the directory but [redis_ha.py] and files
    below [infra/]: the package's own modules are not. *)
Theorem bundle_complete svc pkg fs fs' t res :
  dict_get svc PKG_MAP = Some pkg -> (∀ rel, fs !! (pkg_dir svc pkg +:+ rel) = None) ->
  bundle iter wheel true true svc fs = Some (fs', Some t, res) ->
  let need f := needed fs pkg f /\ is_init f = false in
  (∀ rel, t !! in_src rel = fs !! in_src rel) /\
  (∀ f imports rest, need f -> starts_with "infra/" f = false -> fs !! in_src f = Some (Python imports rest) ->
     t !! (pkg_dir svc pkg +:+ f) = Some (Python (rewrite_import pkg <$> imports) rest) /\
     ∀ i ps, i ∈ imports -> refers "src" i ps -> is_Some (fs !! in_src (module_file ps)) -> is_init (module_file ps) = false ->
       refers pkg (rewrite_import pkg i) ps /\ is_Some (t !! (pkg_dir svc pkg +:+ module_file ps))) /\
  (∀ rel, is_Some (t !! (pkg_dir svc pkg +:+ rel)) -> need rel \/ rel = REDIS_HA \/ starts_with "infra/" rel = true).
Proof.
  intros Hp Hfresh Hb need. unfold bundle in Hb. rewrite Hp in Hb.
  destruct (manifest_list fs iter pkg Hiter) as (l & El & _ & _ & Hl). rewrite El in Hb. simpl in Hb.
  set (cs := copies iter fs svc pkg l) in *.
  destruct (copy_all pkg cs fs []) as [[fs1 copied] r] eqn:E. destruct r as [e|[]]; [done|].
  injection Hb as _ -> _.
  assert (Ht : (copy_all pkg cs fs []).1.1 = t /\ (copy_all pkg cs fs []).2 = inr tt) by (by rewrite E).
  destruct Ht as [Ht Hok]. clear E. split_and!.
  - intros rel. rewrite <-Ht. apply copy_all_frame, src_not_copied.
  - intros f imports rest Hn Hni Hf. destruct (Hl f) as [_ Hin]. specialize (Hin Hn).
    set (c := {| c_from := in_src f; c_to := pkg_dir svc pkg +:+ f; c_rewrite := true |}).
    assert (Hc : ∀ r, r ∈ l -> {| c_from := in_src r; c_to := pkg_dir svc pkg +:+ r; c_rewrite := true |} ∈ cs).
    { intros r Hr. apply elem_of_app. left. apply list_elem_of_fmap. eauto. }
    split.
    + destruct (copy_all_content pkg cs fs [] c) as (x & Hx & Hw);
        [done|by apply Hc| |apply src_not_copied|].
      { intros d Hd Hto. destruct (copies_cases _ _ _ _ _ _ Hd Hto) as [[_ ->]|[[-> Hno]|Hinf]]; [done|done|congruence]. }
      unfold read_text in Hx. simpl in Hx. rewrite Hf in Hx. injection Hx as <-. rewrite Ht in Hw. exact Hw.
    + intros i ps Hi Hr He Hri. split; [by apply refers_rewrite|].
      rewrite <-Ht. refine (copy_all_present pkg cs fs [] _ Hok (Hc _ _)).
      apply Hl. split; [|done]. apply needed_more with f; [apply Hn|]. by apply (imports_module fs f i); [exists imports, rest|..].
  - intros rel Hr. destruct (decide (pkg_dir svc pkg +:+ rel ∈ c_to <$> cs)) as [Hin|Hout].
    + apply list_elem_of_fmap in Hin as (c & Hto & Hc).
      destruct (copies_cases _ _ _ _ _ _ Hc (eq_sym Hto)) as [[Hm _]|[[-> _]|Hinf]]; [left; by apply Hl|auto..].
    + rewrite <-Ht, copy_all_frame, Hfresh in Hr by done. by destruct Hr.
Qed.
End Bundled.

(** ** The verifier *)

Lemma closure_mono (deps deps' : string -> gset string) entries r :
  (∀ f, deps f ⊆ deps' f) -> closure deps entries r -> closure deps' entries r.
Proof. intros Hd. induction 1; [eapply closure_entry|eapply closure_step]; eauto; set_solver. Qed.

Lemma verify_deps_sub fs f : verify_get_src_deps fs f ⊆ get_src_deps fs f.
Proof.
  unfold verify_get_src_deps, get_src_deps, src_deps. destruct (fs !! in_src f) as [[imports rest|t|]|]; [|done..].
  intros r. rewrite !elem_of_union_list. intros (X & (i & -> & Hi)%list_elem_of_fmap & Hr).
  exists (import_deps "src" (exists_in_src fs) true i). split; [apply list_elem_of_fmap; eauto|].
  destruct i as [[m|] names|ms]; simpl in *; [|done..]. destruct (parts_below "src" m); set_solver.
Qed.

(** [verify_manifest.py], which is to fail when a package has dependencies its
    manifest misses, exits with 0 on every repository: it checks that the files it
    found exist.  Its own list is part of the bundler's manifest. *)
Theorem verifier_accepts fs iter :
  (∀ X, iter X ≡ₚ elements X) ->
  verify_main fs iter = Some 0%Z /\
  ∀ pkg, exists v l, verify_compute_manifest fs iter pkg = Some v /\ compute_manifest fs iter pkg = Some l /\
    ∀ r, r ∈ v -> r ∈ l.
Proof.
  intros Hi.
  assert (Hv : ∀ pkg, exists v, verify_compute_manifest fs iter pkg = Some v /\
    ∀ r, r ∈ v <-> closure (verify_get_src_deps fs) (entry_files fs pkg) r /\ is_init r = false).
  { intros pkg. destruct (manifest_set_needed fs (verify_get_src_deps fs) iter pkg Hi (src_deps_exist false fs)) as (b & E & Hb).
    unfold verify_compute_manifest. rewrite E. eexists. split; [done|]. intros r. rewrite elem_of_filter, Hb. tauto. }
  split.
  - unfold verify_main.
    assert (Hc : ∀ l : list (string * string), exists oks, mapM (λ sp, computed ← verify_compute_manifest fs iter sp.2;
        Some (bool_decide (filter (λ r, exists_in_src fs r = false) computed = ∅))) l = Some oks /\ forallb id oks = true).
    { induction l as [|[svc pkg] l (oks & IH & Hok)]; [by exists []|]. destruct (Hv pkg) as (v & Ev & Hin).
      exists (true :: oks). split; [|done]. simpl. rewrite Ev. simpl. rewrite IH. simpl. rewrite bool_decide_eq_true_2; [done|].
      apply set_eq. intros r. rewrite elem_of_filter, Hin. split; [|set_solver]. intros [Hno [Hn _]]. exfalso.
      destruct Hn as [e r _ Hr|f r _ Hr]; apply src_deps_exist in Hr; congruence. }
    destruct (Hc PKG_MAP) as (oks & -> & Hok). simpl. by rewrite Hok.
  - intros pkg. destruct (Hv pkg) as (v & Ev & Hin), (manifest_list fs iter pkg Hi) as (l & El & _ & _ & Hl).
    exists v, l. split_and!; [done|done|]. intros r [Hn Hnot]%Hin. apply Hl. split; [|done].
    apply closure_needed. eapply closure_mono; [apply verify_deps_sub|done].
Qed.

(** ** A small repository *)

Definition demo_repo : tree := {[
  "src/scheduler_agent/app.py" := Python [ImportFrom (Some ["src"; "agent"; "server"]) ["AgentServer"]] "def create_app(): ...";
  "src/scheduler_agent/infra/redis_client.py" := Python [ImportFrom (Some ["scheduler_agent"; "common"; "redis_ha"]) ["RedisHA"]] "";
  "src/agent/server.py" := Python [ImportFrom (Some ["src"; "platform"]) ["queue_keys"]; Import [["os"]; ["src"; "agent"; "server"]]] "class AgentServer: ...";
  "src/platform/queue_keys.py" := Python [] "def pending(): ...";
  "src/platform/__init__.py" := Python [Import [["src"; "platform"; "registered"]]] "";
  "src/platform/registered.py" := Python [] "";
  "src/common/redis_ha.py" := Python [ImportFrom (Some ["src"; "monitoring"; "metrics"]) ["update"]] "class RedisHA: ...";
  "src/monitoring/metrics.py" := Python [] "";
  "packages/agent/pyproject.toml" := Unparsable "[project]" ]}.

Definition demo_manifest : list string := ["agent/server.py"; "platform/queue_keys.py"; "platform/registered.py"].

Lemma iter_elements (X : gset string) : elements X ≡ₚ elements X.
Proof. done. Qed.

(** The directory of a bundled package is empty when no key of the map begins with
    its name. *)
Lemma no_key_below (fs : tree) d rel :
  forallb (λ k, negb (starts_with d k)) (elements (dom fs)) = true -> fs !! (d +:+ rel) = None.
Proof.
  intros H. destruct (fs !! (d +:+ rel)) eqn:E; [|done]. exfalso. rewrite forallb_forall in H.
  assert (Hk : d +:+ rel ∈ elements (dom fs)) by (apply elem_of_elements, elem_of_dom; eauto).
  specialize (H _ (proj1 (list_elem_of_In _ _) Hk)). by rewrite starts_with_app in H.
Qed.

Lemma demo_packages_empty : packages_empty demo_repo.
Proof.
  intros svc pkg rel Hs. apply no_key_below. unfold PKG_MAP in Hs. simpl in Hs.
  repeat (destruct (decide (_ = _)) as [-> |?]; [injection Hs as <-; vm_compute; reflexivity|]). done.
Qed.

Lemma manifest_exact_witness :
  compute_manifest demo_repo elements "scheduler_agent" = Some demo_manifest /\
  (∀ iter', (∀ X, iter' X ≡ₚ elements X) -> compute_manifest demo_repo iter' "scheduler_agent" = Some demo_manifest) /\
  needed demo_repo "scheduler_agent" "platform/registered.py".
Proof.
  destruct (manifest_exact demo_repo elements "scheduler_agent" iter_elements) as (l & El & Hl & _ & _ & _ & Hall).
  assert (E : compute_manifest demo_repo elements "scheduler_agent" = Some demo_manifest) by (vm_compute; reflexivity).
  rewrite E in El. injection El as <-. split_and!; [done|done|]. apply Hl. right; right; left.
Defined.

Lemma bundler_restores_witness :
  exists r, main elements (λ _, inl (Exn RuntimeError "CalledProcessError")) ["agent"] demo_repo = Some (demo_repo, r) /\
    main elements (λ _, inr tt) ["agent"; "worker"] demo_repo = Some (demo_repo, inr 1%Z).
Proof.
  destruct (bundler_restores elements iter_elements (λ _, inl (Exn RuntimeError "CalledProcessError")) ["agent"]
    demo_repo demo_packages_empty) as [r Hr].
  destruct (bundler_restores elements iter_elements (λ _, inr tt) ["agent"; "worker"] demo_repo demo_packages_empty) as [r' Hr'].
  exists r. split; [exact Hr|].
  assert (E : snd <$> main elements (λ _, inr tt) ["agent"; "worker"] demo_repo = Some (inr 1%Z)) by (vm_compute; reflexivity).
  rewrite Hr' in E. simpl in E. injection E as ->. exact Hr'.
Defined.

Lemma bundle_complete_witness :
  exists t, bundle elements (λ _, inr tt) true true "agent" demo_repo = Some (demo_repo, Some t, inr tt) /\
    t !! "packages/agent/src/scheduler_agent/agent/server.py" =
      Some (Python [ImportFrom (Some ["scheduler_agent"; "platform"]) ["queue_keys"];
                    Import [["os"]; ["scheduler_agent"; "agent"; "server"]]] "class AgentServer: ...") /\
    t !! "packages/agent/src/scheduler_agent/app.py" = None.
Proof.
  assert (E : exists t, bundle elements (λ _, inr tt) true true "agent" demo_repo = Some (demo_repo, Some t, inr tt)).
  { destruct (bundle_restored elements iter_elements (λ _, inr tt) true "agent" demo_repo demo_packages_empty) as (built & r & E).
    assert (Ho : (λ x : tree * option tree * (exn + unit), (if x.1.2 then true else false, x.2)) <$> bundle elements (λ _, inr tt) true true "agent" demo_repo
                 = Some (true, inr tt)) by (vm_compute; reflexivity).
    rewrite E in Ho. simpl in Ho. destruct built as [t|]; [|done]. injection Ho as ->. by exists t. }
  destruct E as [t E]. exists t. split; [done|].
  destruct (bundle_complete elements iter_elements (λ _, inr tt) "agent" "scheduler_agent" demo_repo demo_repo t (inr tt)
    eq_refl (λ rel, demo_packages_empty "agent" "scheduler_agent" rel eq_refl) E) as (_ & H2 & H3).
  destruct (manifest_list demo_repo elements "scheduler_agent" iter_elements) as (l & El & _ & _ & Hl).
  assert (E' : compute_manifest demo_repo elements "scheduler_agent" = Some demo_manifest) by (vm_compute; reflexivity).
  rewrite E' in El. injection El as <-.
  split.
  - destruct (H2 "agent/server.py" [ImportFrom (Some ["src"; "platform"]) ["queue_keys"];
      Import [["os"]; ["src"; "agent"; "server"]]] "class AgentServer: ...") as [Hs _]; [apply Hl; left|done|done|exact Hs].
  - destruct (t !! "packages/agent/src/scheduler_agent/app.py") eqn:Et; [|done]. exfalso.
    destruct (H3 "app.py") as [Hn|[Hn|Hn]]; [eexists; exact Et| |done..].
    apply Hl in Hn. unfold demo_manifest in Hn. by rewrite !elem_of_cons, elem_of_nil in Hn; destruct Hn as [|[|[|]]].
Defined.

(** The module [redis_ha] itself imports is not bundled with it, and a package
    whose [__init__] the verifier does not read has files only the bundler finds. *)
Definition demo_copied (path : string) : option content :=
  bundle elements (λ _, inr tt) true false "agent" demo_repo ≫= λ x, x.1.1 !! path.

Example redis_ha_alone :
  demo_copied "packages/agent/src/scheduler_agent/common/redis_ha.py" =
    Some (Python [ImportFrom (Some ["scheduler_agent"; "monitoring"; "metrics"]) ["update"]] "class RedisHA: ...") /\
  demo_copied "packages/agent/src/scheduler_agent/monitoring/metrics.py" = None.
Proof. vm_compute. auto. Qed.

Lemma verifier_accepts_witness :
  verify_main demo_repo elements = Some 0%Z /\
  verify_compute_manifest demo_repo elements "scheduler_agent" = Some {[ "agent/server.py"; "platform/queue_keys.py" ]}.
Proof.
  destruct (verifier_accepts demo_repo elements iter_elements) as [H _]. split; [exact H|]. vm_compute. reflexivity.
Defined.

(** The marker of an outer package is not followed, nor is that of a package named by
    [import]: what only they import is not in the manifest. *)
Example outer_markers_not_followed :
  compute_manifest {[
    "src/scheduler_agent/app.py" := Python [ImportFrom (Some ["src"; "agent"; "server"]) ["AgentServer"]; Import [["src"; "platform"]]] "";
    "src/agent/__init__.py" := Python [Import [["src"; "agent"; "setup"]]] "";
    "src/agent/server.py" := Python [] ""; "src/agent/setup.py" := Python [] "";
    "src/platform/__init__.py" := Python [Import [["src"; "platform"; "registered"]]] "";
    "src/platform/registered.py" := Python [] "" ]} elements "scheduler_agent" = Some ["agent/server.py"].
Proof. vm_compute. reflexivity. Qed.
