(* ===== verification/EndToEnd.v ===== *)
(** * From submission to result

    The operations of the platform that touch the task table, put together: creating
    and cancelling tasks, the executors, the completion of tasks with its callbacks,
    the reconciler, the compensation service and the callback dispatcher.  Any number
    of them run concurrently, in any interleaving of their effects, over any services
    and with any failing calls. *)

From stdpp Require Import base gmap strings list.
From S2P Require Import Prelude PyValue Json Redis TaskModel Tables Effects ErrorHandling Transaction Tracking.
From S2P Require Import QueueKeys CircuitBreaker QueueManager TaskCreator Compensation TaskExecutor TaskReconciler.
From S2P Require Import TaskCompletion CallbackOutbox TaskApplication.

Open Scope Z_scope.

(** ** Programs whose every database transaction keeps an invariant *)

Fixpoint db_safe (I : tables -> Prop) {A} (p : prog A) : Prop :=
  match p with
  | Ret _ => True
  | @Vis _ X e k =>
      match e in eff X' return (X' -> prog A) -> Prop with
      | ESql tx => λ k, (∀ now t t' x, I t -> tx now t = inr (t', x) -> I t') /\ ∀ x, db_safe I (k x)
      | _ => λ k, ∀ x, db_safe I (k x)
      end k
  end.

Section Safe.
Context (I : tables -> Prop).

Lemma safe_pbind {A B} (m : prog A) (f : A -> prog B) :
  db_safe I m -> (∀ a, db_safe I (f a)) -> db_safe I (pbind m f).
Proof.
  intros Hm Hf. induction m as [a|X e k IH]; [apply Hf|].
  destruct e; simpl in *; try (intros x; apply IH, Hm). destruct Hm as [H1 H2]. split; [exact H1|auto].
Qed.

(** The transaction of a call keeps the invariant. *)
Definition eff_safe {X} (e : eff X) : Prop :=
  match e with ESql tx => ∀ now t t' x, I t -> tx now t = inr (t', x) -> I t' | _ => True end.

Lemma safe_vis {A X} (e : eff X) (k : X -> prog A) : db_safe I (Vis e k) <-> eff_safe e /\ ∀ x, db_safe I (k x).
Proof. destruct e; simpl; naive_solver. Qed.

Lemma safe_gather_from {A B} turn (p : prog A) :
  ∀ n (q : prog B), db_safe I p -> db_safe I q -> db_safe I (gather_from turn p n q).
Proof.
  induction p as [a|X e k IHp]; intros n q Hp Hq.
  { destruct q; by apply (safe_pbind _ (λ b, Ret (a, b))). }
  revert n Hq. induction q as [b|Y e' k' IHq]; intros n Hq; [by apply (safe_pbind (Vis e k) (λ a, Ret (a, b)))|].
  pose proof (proj1 (safe_vis _ _) Hp) as [He Hk]. pose proof (proj1 (safe_vis _ _) Hq) as [He' Hk']. simpl.
  destruct (turn n); apply safe_vis; (split; [done|]); intros x; [by apply IHp|by apply IHq].
Qed.

Lemma safe_gather {A B} turn (p : M A) (q : M B) : db_safe I p -> db_safe I q -> db_safe I (gather turn p q).
Proof. intros Hp Hq. apply safe_pbind; [by apply safe_gather_from|done]. Qed.

Lemma safe_ret {A} (a : A) : db_safe I (ret a).
Proof. done. Qed.
Lemma safe_raise {A} e : db_safe I (raise e : M A).
Proof. done. Qed.
Lemma safe_of_sum {A} (r : exn + A) : db_safe I (of_sum r).
Proof. done. Qed.
Lemma safe_bind {A B} (m : M A) (f : A -> M B) : db_safe I m -> (∀ a, db_safe I (f a)) -> db_safe I (bind m f).
Proof. intros Hm Hf. apply safe_pbind; [done|]. intros [e|a]; [done|auto]. Qed.
Lemma safe_catch {A} (m : M A) h : db_safe I m -> (∀ e, db_safe I (h e)) -> db_safe I (catch m h).
Proof. intros Hm Hh. apply safe_pbind; [done|]. intros [e|a]; [auto|done]. Qed.
Lemma safe_except {A} (m : M A) h : db_safe I m -> (∀ e, db_safe I (h e)) -> db_safe I (except m h).
Proof. intros Hm Hh. apply safe_catch; [done|]. intros e. destruct (is_exception e); [auto|done]. Qed.
Lemma safe_attempt {A} (m : M A) : db_safe I m -> db_safe I (attempt_ m).
Proof. intros Hm. apply safe_pbind; [done|]. done. Qed.
Lemma safe_for_each {A} (xs : list A) body : (∀ x, db_safe I (body x)) -> db_safe I (for_each xs body).
Proof. intros H. induction xs as [|x xs IH]; [done|]. apply safe_bind; auto. Qed.
Lemma safe_fold_m {A T} (xs : list A) (body : T -> A -> M T) s : (∀ s x, db_safe I (body s x)) -> db_safe I (fold_m xs body s).
Proof. intros H. revert s. induction xs as [|x xs IH]; intros s; [done|]. apply safe_bind; auto. Qed.

Transparent redis script sql time_ms uuid4.
Lemma safe_script {A} (m : lua A) : db_safe I (script m).
Proof. done. Qed.
Lemma safe_redis {A} k (a : act A) : db_safe I (redis k a).
Proof. done. Qed.
Lemma safe_time : db_safe I time_ms.
Proof. done. Qed.
Lemma safe_uuid : db_safe I uuid4.
Proof. done. Qed.
Lemma safe_sleep ms : db_safe I (sleep ms).
Proof. Transparent sleep. done. Opaque sleep. Qed.
Lemma safe_http r : db_safe I (http r).
Proof. done. Qed.
Lemma safe_invoke what v : db_safe I (invoke what v).
Proof. done. Qed.
Lemma safe_scan c p n : db_safe I (scan c p n).
Proof. done. Qed.
Lemma safe_sql {A} (tx : Z -> tables -> exn + (tables * A)) :
  (∀ now t t' x, I t -> tx now t = inr (t', x) -> I t') -> db_safe I (sql tx).
Proof. intros H. split; [exact H|done]. Qed.
Opaque redis script sql time_ms uuid4.
Lemma safe_sql_read {A} (q : tables -> A) : db_safe I (sql_read q).
Proof. apply safe_sql. by intros now t t' x Ht [= <- _]. Qed.

(** A step of a safe program keeps the invariant, and what is left is safe. *)
Lemma safe_step {E : Env} {X A} (e : eff X) (k : X -> prog A) (w : world doc_services) :
  db_safe I (Vis e k) -> I (w_db w) -> I (w_db (step e w).1) /\ db_safe I (k (step e w).2).
Proof.
  intros Hs Hw. destruct e; simpl in *; try (split; [done|apply Hs]).
  - destruct (redis_fault _); [split; [done|apply Hs]|]. destruct (lua_run _ m _). split; [done|apply Hs].
  - destruct Hs as [H1 H2]. destruct (db_fault _); [split; [done|apply H2]|].
    destruct (tx _ _) as [x|[t' x]] eqn:Et; simpl; [split; [done|apply H2]|]. split; [by eapply H1|apply H2].
  - destruct (redis_fault _); split; done || apply Hs.
Qed.

Lemma interleave_safe {E : Env} {A} sched : ∀ (ps : list (prog A)) (w : world doc_services),
  Forall (db_safe I) ps -> I (w_db w) -> I (w_db (interleave sched ps w).2).
Proof.
  induction sched as [|i sched IH]; intros ps w Hps Hw; [done|]. simpl. unfold thread_step.
  destruct (ps !! i) as [[a|X e k]|] eqn:Ei; [by apply IH| |by apply IH].
  pose proof (Forall_lookup_1 _ _ _ _ Hps Ei) as Hv. destruct (safe_step e k w Hv Hw) as [HI Hk].
  destruct (step e w) as [w' x]. apply IH; [|done]. by apply Forall_insert.
Qed.
End Safe.

#[export] Hint Resolve safe_ret safe_raise safe_of_sum safe_script safe_redis safe_time safe_uuid safe_sleep
  safe_http safe_invoke safe_scan safe_sql_read : sched.

(** Follow the syntax of a program, down to its transactions. *)
Ltac safe_tac :=
  repeat first
    [ progress intros
    | solve [auto with sched]
    | apply safe_bind | apply safe_except | apply safe_catch | apply safe_attempt
    | apply safe_for_each | apply safe_fold_m | apply safe_gather
    | progress cbv beta iota zeta
    | match goal with
      | |- db_safe _ (match ?x with _ => _ end) => destruct x
      | |- db_safe _ (if ?x then _ else _) => destruct x
      end ].

(** ** No task has run *)

(** A status a task can have before it is started, or that it got by being
    cancelled. *)
Definition waiting (s : TaskStatus) : bool :=
  match s with PENDING | SCHEDULED | QUEUED | CANCELLED => true | _ => false end.

Definition all_waiting (t : tables) : Prop := map_Forall (λ _ r, waiting (status r) = true) (db_tasks t).

(** Transactions that leave the tasks alone *)
Lemma safe_tasks_same {A} (tx : Z -> tables -> exn + (tables * A)) :
  (∀ now t t' x, tx now t = inr (t', x) -> db_tasks t' = db_tasks t) -> db_safe all_waiting (sql tx).
Proof. intros H. apply safe_sql. intros now t t' x Ht Htx%H. unfold all_waiting. by rewrite Htx. Qed.

Lemma emit_safe db id ty payload key : db_safe all_waiting (emit db id ty payload key).
Proof. unfold emit. safe_tac. apply safe_tasks_same. by intros now t t' x [= <- _]. Qed.

Lemma task_run_safe db id a st wk l key : db_safe all_waiting (create_task_run db id a st wk l key).
Proof. unfold create_task_run. safe_tac. apply safe_tasks_same. by intros now t t' x [= <- _]. Qed.

Lemma dag_run_safe db d t st ts ij key : db_safe all_waiting (create_dag_run db d t st ts ij key).
Proof. unfold create_dag_run. safe_tac. apply safe_tasks_same. by intros now t' t'' x [= <- _]. Qed.
#[local] Hint Resolve emit_safe task_run_safe dag_run_safe : sched.

(** ** The operations *)

Lemma persist_safe tc id ok result tenant url :
  db_safe all_waiting (persist tc id (if ok : bool then "completed" else "failed") result tenant url).
Proof.
  unfold persist. safe_tac. apply safe_sql. intros now t t' x Ht. unfold persist_tx.
  destruct (db_tasks t !! id) as [row|] eqn:Er; [|destruct ok; done].
  apply Ht in Er. unfold waiting in Er. destruct ok; unfold next_status; simpl; by destruct (status row).
Qed.

Lemma enqueue_retry_safe tc id url payload n : db_safe all_waiting (enqueue_callback_retry tc id url payload n).
Proof. unfold enqueue_callback_retry. safe_tac. Qed.

Lemma mark_done_safe tc id : db_safe all_waiting (mark_done tc id).
Proof. unfold mark_done. safe_tac. Qed.

Lemma raise_for_status_safe r : db_safe all_waiting (raise_for_status r).
Proof. unfold raise_for_status. safe_tac. Qed.
#[local] Hint Resolve enqueue_retry_safe mark_done_safe raise_for_status_safe : sched.

Lemma trigger_callback_safe tc id st result url : db_safe all_waiting (trigger_callback tc id st result url).
Proof.
  assert (Hi : ∀ payload left k, db_safe all_waiting (inline_attempts tc id url payload k left)).
  { intros payload. induction left as [|left IH]; intros k; [done|]. simpl inline_attempts. safe_tac. }
  unfold trigger_callback. safe_tac.
Qed.

Lemma process_due_safe tc n : db_safe all_waiting (process_due_callbacks tc n).
Proof.
  unfold process_due_callbacks, process_one, process_event, send_callback_once, dead_letter. safe_tac.
Qed.

Lemma update_waiting id f t :
  (∀ r, waiting (status (f r)) = true) -> all_waiting t -> all_waiting (update_task id f t).
Proof.
  intros Hf Ht i r Hi. unfold update_task in Hi. simpl in Hi. destruct (decide (id = i)) as [->|Hne].
  - rewrite lookup_alter_eq in Hi. destruct (db_tasks t !! i); simplify_eq/=. apply Hf.
  - rewrite lookup_alter_ne in Hi by done. by apply (Ht i).
Qed.

Lemma cancel_safe id tenant super : db_safe all_waiting (cancel_task id tenant super).
Proof.
  unfold cancel_task, get_task_record. apply safe_bind; [safe_tac|]. intros r. destruct (terminal _); [safe_tac|].
  destruct (transition (status r) CANCEL) as [e|tr] eqn:Et; [safe_tac|]. safe_tac. apply safe_sql.
  intros now t t' x Ht [= <- _]. apply update_waiting; [|done]. intros r'. simpl.
  unfold transition in Et. destruct (status r); simpl in Et; by simplify_eq/=.
Qed.

Lemma process_once_safe cd : db_safe all_waiting (process_once cd).
Proof.
  unfold process_once. safe_tac; [|apply safe_tasks_same; by intros now t t' x [= <- _]].
  match goal with |- db_safe _ (post_rows _ _ ?rows) => induction rows as [|r rs IH] end; [done|].
  simpl post_rows. unfold post_row. safe_tac.
Qed.

(** *** The compensation service *)

Lemma save_transaction_safe cs tx : db_safe all_waiting (save_transaction cs tx).
Proof. unfold save_transaction. safe_tac. Qed.

Lemma self_redis_safe cs {X} k (a : act X) : db_safe all_waiting (self_redis cs k a).
Proof. unfold self_redis. safe_tac. Qed.
#[local] Hint Resolve save_transaction_safe self_redis_safe : sched.

Lemma repair_safe cs tx : db_safe all_waiting (repair_transaction cs tx).
Proof.
  unfold repair_transaction, retry_create_task, retry_update_status, mark_expired, tx_save, tx_try, find_task, refresh_status.
  safe_tac.
Qed.

Lemma scan_all_safe cs fuel : ∀ cursor p, db_safe all_waiting (scan_all cs fuel cursor p).
Proof. induction fuel as [|fuel IH]; intros cursor p; [done|]. simpl scan_all. safe_tac. Qed.
#[local] Hint Resolve repair_safe scan_all_safe : sched.

Lemma compensation_safe cs fuel : db_safe all_waiting (comp_loop_body cs fuel).
Proof.
  unfold comp_loop_body, scan_and_repair, scan_pending_transactions, read_tx, scan_missing_redis_tasks, repair_missing_task.
  safe_tac.
Qed.

(** *** Creating tasks *)

Abbreviation queue := (QueueManager CircuitBreaker * qm_cache)%type.

Lemma cb_allows_safe (qm : QueueManager CircuitBreaker) cap : db_safe all_waiting (cb_allows qm cap).
Proof. unfold cb_allows. safe_tac. simpl. unfold allow_request, get_state. safe_tac. Qed.
#[local] Hint Resolve cb_allows_safe : sched.

Lemma enqueue_safe (q : queue) cap id prio at_ms : db_safe all_waiting (tq_enqueue q cap id prio at_ms).
Proof.
  destruct q as [qm c]. simpl. unfold enqueue. safe_tac.
Qed.

Lemma mysql_write_safe id tenant cap kwargs : db_safe all_waiting (mysql_write id tenant cap kwargs).
Proof.
  unfold mysql_write. apply safe_sql. intros now t t' x Ht.
  destruct (new_row id tenant cap kwargs now) as [e|row] eqn:En; [done|]. simpl.
  destruct (insert_task row t) as [e|t1] eqn:Ei; [done|]. simpl. intros [= <- _].
  apply insert_task_inr in Ei as (-> & _). apply map_Forall_insert_2; [|done].
  apply new_row_is in En as (_ & _ & _ & _ & -> & _). done.
Qed.
#[local] Hint Resolve enqueue_safe mysql_write_safe : sched.

(** The creator with a compensation service behind its coordinator, or none. *)
Definition creator (db : bool) (comp : option CompensationService) : TaskCreator :=
  TaskCreator_init db (Some {| co_redis := true; co_compensation := comp_enqueue <$> comp |}).

(** The compensation service of the platform leaves the task rows alone, as
    [created_is_durable] of [TaskCreator.v] asks of it. *)
Lemma creator_apart {E : Env} db comp : compensation_apart (creator db comp).
Proof.
  intros co enqueue tx Hco He. injection Hco as <-. destruct comp as [cs|]; simpl in He; simplify_eq.
  unfold comp_enqueue, save_transaction. keeps_tac.
Qed.

Lemma create_safe db comp (q : queue) tenant key kwargs :
  db_safe all_waiting (create_task (creator db comp) q tenant key kwargs).
Proof.
  unfold create_task, log_errors. apply safe_except; [|done].
  unfold create_task_body, find_existing, create_fresh, store_task, track_task, write_atomic, choose_tx_id, save_pending_tx, redis_write.
  destruct comp as [cs|]; simpl; unfold comp_enqueue; safe_tac.
Qed.

(** *** The reconciler *)

(** The reconciler with a compensation service to report to, or none. *)
Definition reconciler_with (rc : TaskReconciler) (comp : option CompensationService) : TaskReconciler :=
  {| rc_redis := rc_redis rc; rc_db := rc_db rc; rc_qm := rc_qm rc; rc_interval := rc_interval rc;
     rc_stuck_max := rc_stuck_max rc; rc_stuck_max_age := rc_stuck_max_age rc; rc_batch_size := rc_batch_size rc;
     rc_instance_id := rc_instance_id rc; rc_leader_ttl := rc_leader_ttl rc;
     rc_compensation := comp_enqueue <$> comp |}.

Lemma phase1_session_waiting terminal now t t' x :
  all_waiting t -> phase1_session terminal now t = inr (t', x) -> all_waiting t'.
Proof.
  intros Ht. unfold phase1_session. destruct (list_find _ terminal); [done|].
  destruct (filter _ terminal) as [|m ms]; [by intros [= <- _]|]. by simpl.
Qed.

Lemma bump_waiting ids now t t' x : all_waiting t -> bump_attempts ids now t = inr (t', x) -> all_waiting t'.
Proof.
  intros Ht [= <- _]. intros i r. simpl. rewrite map_lookup_imap. destruct (db_tasks t !! i) as [r0|] eqn:E; [|done].
  simpl. apply Ht in E. intros [= <-]. by destruct (decide _).
Qed.

Lemma phase1_safe rc batch comp : db_safe all_waiting (phase1_double_write (reconciler_with rc comp) batch).
Proof.
  unfold phase1_double_write.
  destruct comp as [cs|]; simpl; unfold comp_enqueue; safe_tac;
    apply safe_sql; intros now t t' x; apply phase1_session_waiting.
Qed.

Lemma phase2_safe rc (q : queue) batch : db_safe all_waiting (phase2_stuck_recovery rc q batch).
Proof.
  assert (Hs : ∀ now ts n rqs fails, db_safe all_waiting (select_stuck rc now ts n rqs fails)).
  { intros now. induction ts as [|[t l] ts IH]; intros n rqs fails; [done|]. simpl select_stuck. safe_tac. }
  assert (Hr : ∀ now rqs (q : queue), db_safe all_waiting (requeue_all q now rqs)).
  { intros now. induction rqs as [|r rqs IH]; intros q'; [done|]. simpl requeue_all. safe_tac. }
  unfold phase2_stuck_recovery, fail_all. safe_tac. apply safe_sql. intros now t t' x. apply bump_waiting.
Qed.

Lemma reconcile_safe rc comp turn1 turn2 (q : queue) cursor :
  db_safe all_waiting (reconcile_once (reconciler_with rc comp) turn1 turn2 q cursor).
Proof.
  pose proof (λ b, phase1_safe rc b comp) as H1. pose proof (phase2_safe (reconciler_with rc comp)) as H2.
  unfold reconcile_once, try_become_leader, rebuild_redis_from_mysql, rebuild_row, rebuild_index, scan_task_batch,
    phase3_lost_callback, phase3_one. safe_tac.
Qed.

(** *** Executors *)

(** An executor whose engine works outside the database, and that has no callback
    of its own. *)
Definition executor (lock_ttl_ms : Z) : TaskExecutor :=
  {| ex_dag := Some (λ dag ctx, invoke "dag_engine" (VList [dag; ctx])); ex_callback := None;
     ex_lock_ttl_ms := lock_ttl_ms |}.

Lemma execute_safe ttl renewal id dag ctx : db_safe all_waiting (execute (executor ttl) renewal id dag ctx).
Proof. unfold execute, execute_body, release_lock. simpl. safe_tac. Qed.

(** ** The platform *)

Inductive operation :=
| Create (db : bool) (comp : option CompensationService) (q : queue) (tenant : string) (key : option string)
    (kwargs : list (string * value))
| Cancel (id tenant : string) (super : bool)
| Execute (lock_ttl_ms : Z) (renewal : option exn) (id : string) (dag ctx : value)
| Persist (node : TaskCompletionNode) (id : string) (ok : bool) (result : value) (tenant url : string)
| Callback (node : TaskCompletionNode) (id : string) (ok : bool) (result : value) (url : string)
| DueCallbacks (node : TaskCompletionNode) (batch_size : nat)
| Dispatch (service : CallbackDispatchService)
| Reconcile (rc : TaskReconciler) (comp : option CompensationService) (turn1 turn2 : nat -> bool) (q : queue) (cursor : Z)
| Compensate (cs : CompensationService) (fuel : nat).

(** The two halves of [handle_completion] are [Persist] and [Callback]. *)
Definition final_status (ok : bool) : string := if ok then "completed" else "failed".

Definition program (o : operation) : prog unit :=
  let done {A} (m : M A) : prog unit := pbind m (λ _, Ret tt) in
  match o with
  | Create db comp q tenant key kwargs => done (create_task (creator db comp) q tenant key kwargs)
  | Cancel id tenant super => done (cancel_task id tenant super)
  | Execute ttl renewal id dag ctx => done (execute (executor ttl) renewal id dag ctx)
  | Persist node id ok result tenant url => done (persist node id (final_status ok) result tenant url)
  | Callback node id ok result url => done (trigger_callback node id (final_status ok) result url)
  | DueCallbacks node n => done (process_due_callbacks node n)
  | Dispatch service => done (process_once service)
  | Reconcile rc comp turn1 turn2 q cursor => done (reconcile_once (reconciler_with rc comp) turn1 turn2 q cursor)
  | Compensate cs fuel => done (comp_loop_body cs fuel)
  end.

Lemma program_safe o : db_safe all_waiting (program o).
Proof.
  destruct o; simpl; apply safe_pbind; try done.
  - apply create_safe.
  - apply cancel_safe.
  - apply execute_safe.
  - apply persist_safe.
  - apply trigger_callback_safe.
  - apply process_due_safe.
  - apply process_once_safe.
  - apply reconcile_safe.
  - apply compensation_safe.
Qed.

(** Asking for the result of a task that is waiting *)
Lemma result_refused {E : Env} id tenant super (w : world doc_services) :
  all_waiting (w_db w) -> exists e, (run (get_result id tenant super) w).2 = inl e.
Proof.
  intros Hw. unfold get_result, get_task_record. rewrite run_bind, run_bind. unfold sql_read. rewrite run_sql.
  destruct (db_fault _) as [e|]; [by exists e|]. cbv beta iota. unfold of_sum, ensure_task_access. simpl run.
  destruct (db_tasks (w_db w) !! id) as [row|] eqn:Er; [|by eexists]. apply Hw in Er.
  destruct (negb super && _); [by eexists|]. simpl run. unfold waiting in Er.
  destruct (status row); try done; by eexists.
Qed.

(** C11: the platform never records that a task ran.  Whatever operations run, in
    whatever number and interleaving, over whatever services, and whichever of their
    calls fail: if every task row is waiting (pending, scheduled, queued) or
    cancelled, as in an empty database, then so it stays.  The completion of a task
    is refused by the state machine because nothing ever starts one, the reconciler's
    own rows are refused by the table, and a client that asks for a result gets an
    error. *)
Theorem no_task_ever_recorded (S : Services) (E : Env) sched (ops : list operation) (w : world S) :
  all_waiting (db_of w) ->
  let w' := (interleave sched (program <$> ops) w).2 in
  all_waiting (db_of w') /\
  (∀ id row, db_tasks (db_of w') !! id = Some row -> status row <> RUNNING /\ status row <> COMPLETED /\ status row <> FAILED) /\
  ∀ id tenant super, exists e, (run (get_result id tenant super) w').2 = inl e.
Proof.
  intros Hw w'. assert (H : all_waiting (db_of w')).
  { pose proof (interleave_view sched (program <$> ops) w) as Hv.
    apply (f_equal (λ p, w_db p.2)) in Hv. simpl in Hv. unfold db_of, w'. rewrite <-Hv.
    apply interleave_safe; [|exact Hw]. apply Forall_fmap, Forall_forall. intros o _. apply program_safe. }
  split; [exact H|]. split.
  - intros id row Hr. apply H in Hr. unfold waiting in Hr. by destruct (status row).
  - intros id tenant super. destruct (result_refused id tenant super (wview w') H) as [e He]. exists e.
    by rewrite run_view in He.
Qed.

(** A task is created, executed and completed; its callback is posted with the
    status completed; its row is still queued and its result is refused. *)
Definition lifecycle_demo : list operation :=
  [Create true None (qm_demo0, {| stats_cache := []; stats_cache_time := 0 |}) "acme" None kwargs_demo;
   Execute 30000 None "uuid-0" VNone VNone;
   Persist (TaskCompletionNode_init true true) "uuid-0" true (VInt 7) "acme" "http://cb";
   Callback (TaskCompletionNode_init true true) "uuid-0" true (VInt 7) "http://cb"].

Lemma no_task_ever_recorded_witness :
  let sched := replicate 20 0%nat ++ replicate 8 1%nat ++ replicate 8 2%nat ++ replicate 8 3%nat in
  let w' := (interleave (E := calm) sched (program <$> lifecycle_demo) (world0 1000)).2 in
  all_waiting (db_of w') /\
  (status <$> (db_tasks (w_db w') !! "uuid-0")) = Some QUEUED /\
  omap (λ o, match o with OHttp r => Some (req_url r) | _ => None end) (w_log w') = ["http://cb"].
Proof.
  intros sched w'. split; [|vm_compute; split; reflexivity].
  apply (no_task_ever_recorded doc_services calm sched lifecycle_demo (world0 1000)).
  exact (map_Forall_empty _).
Defined.
